(* ===== verification/_CoqProject ===== *)
-Q . S2P
Prelude.v
ListFacts.v
BitPacking.v
RecoveryKeys.v
JsValues.v
Base64.v
ChainTarget.v
NonceTypes.v
LeaseStateMachine.v
NonceLaneKeys.v
NonceRecords.v
NonceStore.v
DurableLock.v
LocalLaneLock.v
IdbTables.v
VersionedRecords.v
VersionedWrites.v
RecoverySets.v
RecoverySetLaws.v
RecoveryStore.v
RecoveryFlow.v
RecoveryWrites.v
RecoveryRegistration.v
RecoverySystem.v
RecoveryRefinement.v
RecoverySafety.v
Capabilities.v
CapabilityPolicy.v
AuthorizationDomain.v
WalletSessionValues.v
AuthorizationTables.v
AuthorizedOperations.v
WalletSessionIssuance.v
AuthorizationWrites.v
AuthorizationSystem.v
AuthorizationRuns.v
AuthorizationSafety.v
WalletSessionReads.v
HostedSessions.v
HostedSystem.v
HostedSafety.v
SignerRows.v
ProfileRows.v
SignerActivation.v
SignerOutbox.v
WalletDB.v
WalletSigners.v
WalletSignersInvariant.v
WalletSignersReachable.v
EvmNonceLane.v
NearNonceLane.v
NonceDiagnostics.v
NonceCoordinator.v
CoordinatorFrame.v
CoordinatorInvariants.v
CoordinatorReserve.v
CoordinatorReachable.v
CoordinatorDurable.v
CoordinatorErrors.v
CoordinatorLeaseOps.v
CoordinatorExpiry.v
CoordinatorReservation.v
CoordinatorNear.v
CoordinatorNearContext.v
CoordinatorRecovery.v
CommitQueue.v
CommitQueueInvariant.v
CommitQueueSystem.v
TransactionSurfaceQueue.v
SigningStateMachine.v
EvmRpc.v
EvmClient.v
EvmReceiptWait.v
EvmReceiptEvidence.v
NonceBackend.v
EvmFamilyErrors.v
NonceResolution.v
NonceLifecycle.v
