(* ===== verification/Prelude.v ===== *)
(** * Seams Wallet: transaction nonces, signing operations, recovery and authorization

    The wallet signs transactions for EVM chains, Tempo and NEAR.  Before it signs,
    it has to choose a nonce that nobody else is using: not another tab, not a
    worker of the same wallet, not a transaction that is already on its way.  The
    code that does so is the nonce subsystem of
    [packages/wallet/src/core/signingEngine/nonce] together with the two IndexedDB
    tables it keeps.  This library models that subsystem and proves what it promises,
    and then what stands around it: the wallet's table of account signers, the RPC
    client it reads the chain with, the signing flows that use it, the state machine a
    signing operation goes through, and the queues that keep operations apart.  The
    second subject is the server's side of wallet recovery: the ten recovery codes of a
    wallet, the records that stand for them, and the requests that use, rotate and
    spend them at the same time.  The third is the server's authorization store: which
    operations a wallet session may have signed, how often, at whose expense, and that
    each of them is admitted and completed once.
    Paths below are relative to [packages/wallet/src/core] unless they say otherwise.

    ** The parts and how they interact

    A signing flow asks the coordinator for a lease on a nonce of a lane (one
    sender on one EVM chain, or one NEAR access key).  The coordinator takes the
    lane's lock, expires what is due, asks the chain if its view is old, reads the
    leases it knows and the durable records of other runtimes, picks a free nonce,
    and writes a durable record before it returns.  The flow then reports what
    became of the transaction; every report is a transition of the lease state
    machine.  At start-up the durable records are read back and reconciled with
    the chain.

    - [Prelude]: strings, decimal text, insertion-ordered maps and sets, errors,
      the state-and-error monad [M] with its rules [wp] and [steps].
    - [JsValues]: the [unknown] values that cross a boundary and the normalisers of
      [nonce/nonceUtils.ts] and of [packages/shared-ts/src/utils].
    - [ChainTarget]: [signingEngine/interfaces/ecdsaChainTarget.ts] and the network
      table of [config/chains.ts].
    - [NonceTypes]: the data of [nonce/nonceTypes.ts].
    - [LeaseStateMachine]: [nonce/nonceLeaseState.ts].
    - [NonceLaneKeys]: [nonce/nonceLaneKeys.ts].
    - [NonceRecords]: the boundary parser [nonce/nonceCoordinationRecordBoundary.ts],
      the serialisers of [indexedDB/nonceLaneCoordinationStore.ts] and the row
      parser [indexedDB/seamsWalletDB/nonceLeaseRows.ts].
    - [NonceStore]: the lease table operations of
      [indexedDB/seamsWalletDB/repositories.ts] and the store built on them; the
      class [CoordinationStore] is the interface the coordinator uses, and the
      IndexedDB store is an instance of it.
    - [DurableLock]: [withNonceLaneCoordinationLock] of the same file, as a system
      of any number of contenders that interleave transaction by transaction.
    - [LocalLaneLock]: [withLocalLaneLock] of [nonce/NonceCoordinator.ts], the chain of
      promises per lane key, as a system of any number of calls whose continuations
      run in any order that the promises allow.
    - [IdbTables]: IndexedDB object stores as tables in the order of their keys, with
      indexes and unique constraints.
    - [SignerRows], [ProfileRows]: the rows of account signers
      ([indexedDB/seamsWalletDB/accountSignerRows.ts]) and of profiles
      ([indexedDB/seamsWalletDB/repositories.ts]) and their parsers.
    - [SignerActivation]: [indexedDB/accountSignerLifecycle.ts], the plan of an
      activation: which slot a signer gets under which policy.
    - [SignerOutbox]: the rows of the outbox of signer operations.
    - [WalletDB]: the record of the wallet's object stores, transactions that put back
      what they wrote when they throw, profiles and chain accounts; [WalletSigners]:
      the account signer operations of [repositories.ts], each in its transaction, with
      a status change split between what it reads before and what it writes;
      [WalletSignersInvariant], [WalletSignersReachable]: their theorems.
    - [EvmNonceLane] and [NearNonceLane]: the per-lane state of
      [nonce/evmNonceLane.ts] and [nonce/nearNonceLane.ts] and the operations on it;
      a NEAR refresh is split at its suspension point.
    - [NonceDiagnostics]: [nonce/nonceDiagnostics.ts].
    - [NonceCoordinator]: [createNonceCoordinator] of [nonce/NonceCoordinator.ts].
      [World] holds the maps of its closure and the store, [Deps] what it is given
      (clock, chain, random identifiers, faults of the store and of the lock), and
      there is one definition per inner function and per method.
    - [CoordinatorFrame], [CoordinatorInvariants], [CoordinatorReserve]: what each
      operation leaves alone, how leases may change, what a reservation does.
    - [CoordinatorReachable], [CoordinatorDurable], [CoordinatorErrors],
      [CoordinatorLeaseOps], [CoordinatorExpiry], [CoordinatorReservation],
      [CoordinatorNear], [CoordinatorNearContext], [CoordinatorRecovery]: the theorems
      about the coordinator.
    - [EvmRpc]: the decoders of [packages/shared-ts/src/utils/jsonRpc.ts] and
      [evmRpcResults.ts].
    - [EvmClient]: [createEvmClient] of [rpcClients/evm/EvmClient.ts] without its
      receipt wait.  [Net] is the clock and the requests made so far, [NetEnv] what
      the network does with a request and how long everything takes.
    - [EvmReceiptWait]: [waitForTransactionReceipt] of the same file, one definition
      per part of its loop; [EvmReceiptEvidence]: its theorems.
    - [NonceBackend]: [rpcClients/evm/nonceBackend.ts], the coordinator's way to the
      chain, and the snapshot of a reservation that a signed transaction carries.
    - [NonceResolution], [EvmFamilyErrors], [NonceLifecycle]: the coordinator's
      client in [signingEngine/flows/signEvmFamily], files [nonceResolution.ts],
      [errors.ts], [nonceLifecycleAdapter.ts], [evmNonceLifecycle.ts] and
      [tempoNonceLifecycle.ts].
    - [SigningStateMachine]: [signingEngine/flows/shared/signingStateMachine.ts] with
      the plans of [signingEngine/session/operationState/types.ts], and the
      transaction confirmation of [flows/shared/signingConfirmation.ts].
    - [CommitQueue]: [signingEngine/threshold/commitQueueShared.ts] and its two
      clients, on a heap of queue objects, a map from keys to objects, and the
      suspended drains; [CommitQueueInvariant], [CommitQueueSystem]: its theorems.
    - [TransactionSurfaceQueue]:
      [packages/wallet/src/SeamsWeb/walletIframe/client/surface/transactionSurfaceQueue.ts].
    - [ListFacts]: lemmas on lists that several components share.

    A wallet's recovery set is one record with ten codes, each with a lifecycle.  It is
    written by a registration together with the locators by which a code finds its
    wallet; a recovery holds a code, a finalization spends it in one batch with the
    authority it installs, and a rotation replaces the set and its locators.  Each
    reads the record with its version and writes it back if the version is still the
    one it read.  Paths here are relative to [packages].

    - [BitPacking], [RecoveryKeys]: regrouping of bits, and the recovery codes of
      [shared-ts/src/utils/emailOtpRecoveryKey.ts] built on it.
    - [Base64]: [shared-ts/src/utils/base64.ts] and the fields of
      [shared-ts/src/passkey-custody/primitives.ts] that are base64url texts.
    - [VersionedRecords]:
      [wallet-server/src/router/cloudflare/d1/versionedJson/d1VersionedJsonRecordStore.ts]
      on a database [D1] whose statements run in batches and whose answers can be lost
      ([Fault]); [VersionedWrites]: what its writes do.
    - [RecoverySets]: [shared-ts/src/wallet-recovery]; [RecoverySetLaws]: which records
      are accepted, and that their stored forms read back.
    - [RecoveryStore]: the recovery part of
      [d1WalletCustodyCommitStore.ts]; [RecoveryFlow]: the handlers of
      [wallet-server/src/router/domains/passkeyCustody], each split between what it
      reads and what it writes; [RecoveryWrites], [RecoveryRegistration]: what they do
      to sets and locators.
    - [RecoverySystem]: any number of these requests, step by step in any order, and
      the reference machine they implement; [RecoveryRefinement]: the invariant;
      [RecoverySafety]: the theorems.

    A wallet session is issued to an authority and an authentication method of a wallet,
    with a quota of uses.  A request for an operation is admitted by inserting a row for
    its fingerprint; triggers of the database check the session or the step-up evidence
    it rests on, use the quota, charge a grant of credit and write an audit event, all
    in the transaction of the insert.  A completion gives the row its outcome.  A
    request whose row is there already is answered from it.  A session ends when it is
    retired or replaced by the next of the same authority and method.  While it is open it
    can be hosted: a code is issued for it, and an application exchanges the code once for
    a credential of its own, which works until the session ends.

    - [Capabilities]: the kinds of capability, operation and evidence of
      [shared-ts/src/authorization], identifiers, the envelope of an operation and its
      fingerprint; [CapabilityPolicy]: [wallet-server/src/authorization/capabilityPolicy.ts].
    - [AuthorizationDomain], [WalletSessionValues]: the values of
      [wallet-server/src/authorization/domain.ts], operations in the one and sessions in
      the other, with their builders and parsers.
    - [AuthorizationTables]: the tables and triggers of
      [wallet-server/migrations/d1-signer] that a claim and a completion meet, as the
      migrations leave them, and the two writes with the triggers they run.
    - [AuthorizedOperations]: [authorizationStore/operations.ts] of
      [wallet-server/src/router/cloudflare/d1/authorization] with its statements:
      admission, answers, pinned admissions, reads, completion.
    - [WalletSessionIssuance]: [issuance.ts], [retirement.ts] and the read by mint of
      [sessions.ts] in the same directory, each statement a function on the tables.
    - [AuthorizationWrites]: what each of the four writes does to the tables;
      [AuthorizationSystem]: the writes as steps in any order, among changes that others
      make to the tables around them, and the invariant; [AuthorizationRuns]: the calls
      of the store as such steps; [AuthorizationSafety]: the theorems.
    - [WalletSessionReads]: the reads of [sessions.ts] that give a session with its quota,
      a joined row checked against its own record.
    - [HostedSessions]: [hostedSessions.ts] of the same directory with the values of
      [domain.ts] it uses: codes, their redemption in one batch, and the credentials.  A
      redemption is split between what it reads and what it writes ([finish_redemption]).
      [HostedSystem]: its writes as steps among all others of the store, and the
      invariant; [HostedSafety]: the theorems.

    ** What is proved

    - No nonce is given out twice.  Within a runtime: [reachable_inv] and
      [reserve_evm_spec] for EVM lanes, [reserveBatch_spec] for NEAR.  Between
      runtimes that share a store: [two_runtimes_distinct], as long as the store answers
      and keeps the first one's record, under the lock that [durable_lock_exclusive]
      shows to exclude contenders within its time to live.
      A recovered broadcast keeps blocking its nonce: [recovered_broadcast_blocks].
    - Each call does what it says and nothing else, on every branch:
      [lease_call_spec], [lease_call_refused], [expire_lane_spec], and
      [reserve_evm_errors] for the errors of a reservation.
    - The lease state machine: [finalized_after_signed_and_broadcast],
      [lease_run_monotone], [reduceNonceLeaseState_retry].
    - The lock of a lane within a runtime, as long as it is not cleared:
      [lane_lock_exclusive], [lane_lock_live].
    - The wallet's signers: whatever order of calls, rows are ones the code wrote, and
      active signers of an account are in distinct slots when replacements by kind retire
      by id ([wallet_signers_reachable], [slots_collide_by_id]); an activation is all or
      nothing and retires what its policy says ([activate_signer_spec], on the plan of
      [plan_activation_spec]); a revoked signer stays revoked when no call comes between
      the reads and the write of a status change ([revoked_signer_terminal]); operations are enqueued once ([outbox_idempotent]);
      rows and records agree ([account_signer_row_roundtrip]).
    - NEAR contexts: [reserveNearContext_spec], [reserveNearReplacement_spec].
    - The client of the coordinator: a request is given one new lease's nonce
      ([reserve_for_request_spec]); a report made with the snapshot of a signed
      transaction reaches the lease it was signed with ([report_reaches_lease],
      which composes [managed_nonce_snapshot_roundtrip] with the coordinator's
      operations); errors are made retryable with the right lane
      ([retryable_nonce_error_spec]).
    - The chain: which endpoint a lane is read from ([rpc_route_equiv],
      [nonce_network_is_routed]), what an answer stands for ([backend_reads_spec],
      [request_spec]), and what each outcome of a receipt wait rests on
      ([wait_receipt_confirmed], [wait_errors]).
    - Signing: no signing without an approved review ([signing_needs_approval]) and
      the commands of a plan in its order ([commands_run_in_order],
      [single_command_spec], [transaction_confirmation_spec]).
    - Queues: one task of a key at a time, in order, none forgotten, until the queues are
      cleared ([commit_queue_exclusive], [commit_queue_live], [queue_call_spec]); one holder
      of the transaction surface ([surface_exclusive], [surface_release_spec],
      [surface_live]).
    - The durable store refines a map from lease identifiers to records:
      [indexedDB_refines_map], with [indexedDB_upsert_readLane],
      [indexedDB_maintenance_keeps_accepted] and the soundness of the boundary on
      any stored value, [parseNonceLaneCoordinationRecord_sound].
    - Lane keys identify lanes: [nonceLaneKey_eq_iff].
    - Recovery: stored sets are linearizable ([recovery_sets_linearizable]), a code is
      spent once and by its holder ([recovery_code_single_use]), locators and sets agree
      ([locators_match_sets]), an answer says what was done ([recovery_answers]); on a
      store whose batches are all or nothing whatever is lost ([versioned_batch_atomic]),
      records that read back as written ([recovery_set_roundtrip]), codes that read back
      however they are typed ([recovery_code_roundtrip]) and one text per digest
      ([base64url_canonical]).
    - Authorization: an operation is claimed once ([claimed_once]) by one write that is
      answered as it was ([admission_effect]), an answer is about the operation that was
      asked for ([answered_operation]), and a completion is final ([completed_final]).
      A session is used as often as it was issued for ([session_uses_bounded]) and is the
      only open one of its authority and method ([open_session_unique]), when identifiers
      and credential digests are new; credit is not
      overdrawn ([credit_within_capacity]); the audit log is the operations
      ([audits_agree]).  A code of a hosted session is exchanged once
      ([hosted_code_single_use]) by a redemption that does everything or nothing
      ([redemption_effect]), what was handed out ends with its session
      ([hosted_ends_with_session]), and a credential that works is of an open session with
      a use left ([hosted_credential_resolves]).  Rows and sessions read back
      ([operation_row_roundtrip], [wallet_session_roundtrip]); a requirement means what its
      text says ([evidence_requirement_spec]).
    - The lanes: [refresh_spec], [blocked_lane_iff], [initializeNearAccessKey_spec];
      the lock's waiting time: [durable_lock_wait_bounded]; diagnostics and alerts;
      chain targets.
    - Behaviour that differs from what the comments or the guards around it say:
      [idle_fetch_pins_context], [late_answer_effect], [pre_txHash_row_is_dropped],
      [throwing_row_aborts_recovery], [clear_lets_tasks_overlap],
      [not_ready_reason_lost], [one_poll_counts_twice],
      [failed_lookups_report_dropped], [nonce_key_not_read],
      [negative_bigint_message], [clear_lets_lane_tasks_overlap],
      [voiceid_signer_unreadable], [revoked_signer_revived],
      [replace_slot_leaves_slot_empty], [activation_makes_two_primaries],
      [slots_collide_by_id], [unstorable_removal_hides_signer],
      [backdated_hold_unreadable], [rotation_ids_never_refused], [unparsed_row_throws],
      [cancel_outlasts_budget], [repeated_credential_leaves_quota].

    ** Bounds

    Some loops of the source have no syntactic bound, and have fuel.  The search for a
    free nonce ([skip_taken]) and its repetition for a batch ([plan_nonces]) have one
    more than the number of taken nonces; [skip_taken_total] and [plan_nonces_total]
    prove it enough.  A drain of the commit queue looks at each queued call once
    ([drain_fuel]), which is a part of [commit_queue_live] and [queue_call_spec].  The
    receipt wait polls at most once per millisecond of its timeout, and [wait_errors]
    shows that it never runs out when its poll interval is one that a timer can wait
    for (below 2^31 ms; a longer one fires at once, and the wait spins until its
    deadline).  [OutOfFuel] also stands for a request that waits for ever for a body to
    be cancelled ([await_promise]), which no [catch] sees ([try_await]); [request_hangs]
    shows that nothing else makes a request hang.  Otherwise it never appears.  The polling loop of the lock and the
    queue's timers are step relations and need no fuel.  A bigint is a [Z]; a number
    is a [Z] where the code checks that it is a safe integer, and [NumVal] where it is
    read from outside.

    ** What is not modelled

    - The coordinator's operations run one at a time: a task under a lane lock runs to
      its end before the next operation starts.  The lock itself is an interleaving
      ([LocalLaneLock]); the interleaving of tasks of different lanes, and of the
      unlocked NEAR refresh with other work, is modelled only where [NearNonceLane]
      splits the refresh.  [AwaitsOther] marks the places where a caller would join a
      running task; [idle], a part of [reachable_inv], says that none is running
      between operations.
    - Of the wallet database, the stores besides those of [WalletDB]; sending the
      operations of the outbox; the messages of its errors beyond their codes.  A
      transaction runs without another in between, as IndexedDB orders those that
      write the same stores; its clock and random tokens are arguments.
    - Strings are Latin-1, and the code units of other scripts do not occur.
    - Rows come back from IndexedDB in insertion order; no theorem depends on it
      except through membership or the same order of the map.  The clearing of the store
      that [clearForWallet] and [clearAll] start without waiting for it takes effect
      at once.
    - The network, the clock and the URL parser are arguments.  A request takes the
      time [NetEnv] says, and the clock never goes back.  A timer fires when its time
      is up or later.  The [fetch] options are left out, and so are the aborts and the
      cancelling of a body when a timer fires, which nothing waits for.
    - Callbacks of the queues do not call the queue again before they return.
    - What an error carries besides its message and the fields the code reads: the
      [data] and [rpcMethod] of an RPC error, the stack.
    - Which error is a cancellation by the user is an argument of the transaction
      confirmation.
    - The identifiers of event flows, log output and the listeners' own errors.
    - Of wallet recovery: the digest that names a code ([deriveKeyId]), the sealed
      envelope and its parser, the other tables of an install's batch, and the checks
      between the authority's own records ([install_inconsistency]) are arguments; the
      recovery by Google e-mail codes, the WebAuthn part of a finalization and the
      triggers that relocate wallets are left out.  A stored text is the value it stands
      for.  The reads that explain a failed batch happen with it.
    - Of the authorization store: the column [namespace], which is one value for a
      deployment; the triggers that relocate wallets and import their history; the reads
      of session status and of key material with a session; the writing of step-up
      evidence, of authorities and of credit, which [surroundings_change] leaves free
      within the keys of their tables; the batch that replaces authority projections;
      the service above the store, which authenticates requests and makes identifiers.
      That these identifiers are new across scopes, and credential digests new in their
      tenant, is a part of [issuable] (a repeated digest leaves a quota without a session:
      [repeated_credential_leaves_quota]), and that a code has the hash of no code of another tenant one of [exchange_wf].  Foreign keys
      are enforced, as D1 does.  The URL parser is an argument.  SHA-256 is
      an argument, and [answered_operation] names a collision as the one way to a wrong
      answer.  A JSON column is the value it stands for.  SQLite runs the triggers of an
      event in an order it does not promise; the model has that of their creation, last
      first.

    ** Plan

    Beyond this: the planner behind [SigningSessionPlan] and the selection of signing
    lanes, step-up evidence, the reducer of the wallet frame's surface, and the recovery by
    Google e-mail codes. *)

From stdpp Require Export base list strings option numbers sets.
From Stdlib Require Import DecimalString DecimalZ.
From Stdlib Require Export Ascii ZifyBool.

(** ** Strings

    A JavaScript string is modelled by [string]: a sequence of code units in
    the range 0..255 (Latin-1).  Every key, hash, address and identifier the
    modelled code builds or compares is in this range; on it the white space of
    [String.prototype.trim] and of the regular expression class [\s] is the set
    of [is_js_space], and [toLowerCase] is [lower_char] on each unit. *)

Definition is_js_space (a : Ascii.ascii) : bool :=
  let n := Ascii.N_of_ascii a in
  (((9 <=? n) && (n <=? 13)) || (n =? 32) || (n =? 160))%N.

Fixpoint trim_start (s : string) : string :=
  match s with
  | EmptyString => EmptyString
  | String a t => if is_js_space a then trim_start t else s
  end.

Fixpoint trim_end (s : string) : string :=
  match s with
  | EmptyString => EmptyString
  | String a t =>
      match trim_end t with
      | EmptyString => if is_js_space a then EmptyString else String a EmptyString
      | t' => String a t'
      end
  end.

(** [String.prototype.trim]. *)
Definition trim (s : string) : string := trim_end (trim_start s).

Definition lower_char (a : Ascii.ascii) : Ascii.ascii :=
  let n := Ascii.N_of_ascii a in
  if (((65 <=? n) && (n <=? 90)) || ((192 <=? n) && (n <=? 222) && negb (n =? 215)))%N
  then Ascii.ascii_of_N (n + 32) else a.

(** [String.prototype.toLowerCase]. *)
Fixpoint to_lower (s : string) : string :=
  match s with
  | EmptyString => EmptyString
  | String a t => String (lower_char a) (to_lower t)
  end.

Fixpoint all_chars (p : Ascii.ascii -> bool) (s : string) : bool :=
  match s with
  | EmptyString => true
  | String a t => p a && all_chars p t
  end.

(** [String.prototype.startsWith] and [includes]. *)
Fixpoint starts_with (p s : string) : bool :=
  match p, s with
  | EmptyString, _ => true
  | String a p', String b s' => Ascii.eqb a b && starts_with p' s'
  | _, _ => false
  end.

Fixpoint includes (sub s : string) : bool :=
  starts_with sub s ||
  match s with
  | EmptyString => false
  | String _ t => includes sub t
  end.

(** [parts.join(sep)]. *)
Fixpoint join (sep : string) (parts : list string) : string :=
  match parts with
  | [] => EmptyString
  | [p] => p
  | p :: ps => p +:+ sep +:+ join sep ps
  end.

Definition nonempty (s : string) : bool :=
  match s with EmptyString => false | _ => true end.

Definition is_digit (a : Ascii.ascii) : bool :=
  let n := Ascii.N_of_ascii a in ((48 <=? n) && (n <=? 57))%N.

Definition is_lower_hex (a : Ascii.ascii) : bool :=
  let n := Ascii.N_of_ascii a in
  (((48 <=? n) && (n <=? 57)) || ((97 <=? n) && (n <=? 102)))%N.

(** [/^0x[0-9a-f]{len}$/]. *)
Definition is_0x_hex (len : nat) (s : string) : bool :=
  match s with
  | String "0"%char (String "x"%char h) => (String.length h =? len)%nat && all_chars is_lower_hex h
  | _ => false
  end.

(** ** Integers and their decimal form

    [bigint] values are [Z].  Millisecond timestamps and counters are [number]
    values in the safe-integer range, on which double arithmetic is exact, and
    are [Z] too. *)

(** [String(z)] and [z.toString()] for a [bigint] or an integral [number]. *)
Definition Z_to_string (z : Z) : string := NilZero.string_of_int (Z.to_int z).

(** The value of a string that matches [/^\d+$/]. *)
Definition parse_digits (s : string) : option Z :=
  Z.of_uint <$> NilZero.uint_of_string s.

Definition hex_digit (a : Ascii.ascii) : option Z :=
  let n := Z.of_N (Ascii.N_of_ascii a) in
  (if (48 <=? n) && (n <=? 57) then Some (n - 48)
   else if (97 <=? n) && (n <=? 102) then Some (n - 87)
   else if (65 <=? n) && (n <=? 70) then Some (n - 55)
   else None)%Z.

Fixpoint parse_radix_from (radix acc : Z) (s : string) : option Z :=
  match s with
  | EmptyString => Some acc
  | String a t =>
      match hex_digit a with
      | Some d => if (d <? radix)%Z then parse_radix_from radix (acc * radix + d)%Z t else None
      | None => None
      end
  end.

Definition parse_radix (radix : Z) (s : string) : option Z :=
  if nonempty s then parse_radix_from radix 0 s else None.

(** [BigInt(s)] for a string [s]; [None] is the [SyntaxError]. *)
Definition BigInt_of_string (s : string) : option Z :=
  match trim s with
  | EmptyString => Some 0%Z
  | String "0"%char (String "x"%char h) | String "0"%char (String "X"%char h) => parse_radix 16 h
  | String "0"%char (String "o"%char h) | String "0"%char (String "O"%char h) => parse_radix 8 h
  | String "0"%char (String "b"%char h) | String "0"%char (String "B"%char h) => parse_radix 2 h
  | String "+"%char d => parse_digits d
  | String "-"%char d => Z.opp <$> parse_digits d
  | d => parse_digits d
  end.

(** [Number.isSafeInteger] on an integral value. *)
Definition MAX_SAFE_INTEGER : Z := 9007199254740991.
Definition is_safe_integer (z : Z) : bool :=
  (- MAX_SAFE_INTEGER <=? z)%Z && (z <=? MAX_SAFE_INTEGER)%Z.

(** *** Lemmas on strings *)

Create HintDb js.

Lemma append_assoc (a b c : string) : (a +:+ b) +:+ c = a +:+ (b +:+ c).
Proof.
  induction a as [|x a IH]; [done|].
  change (String x ((a +:+ b) +:+ c) = String x (a +:+ (b +:+ c))). by rewrite IH.
Qed.

Lemma append_nil_r (s : string) : s +:+ EmptyString = s.
Proof. induction s as [|a s IH]; [done|]. change (String a (s +:+ EmptyString) = String a s). by rewrite IH. Qed.

Lemma trim_end_cons a t :
  is_js_space a = false -> trim_end (String a t) = String a (trim_end t).
Proof. intros H. simpl. rewrite H. by destruct (trim_end t). Qed.

Lemma trim_start_trim_end s : trim_start (trim_end (trim_start s)) = trim_end (trim_start s).
Proof.
  induction s as [|a t IH]; simpl; [done|].
  destruct (is_js_space a) eqn:E; [done|].
  rewrite trim_end_cons by done. simpl. by rewrite E.
Qed.

Lemma trim_end_idem s : trim_end (trim_end s) = trim_end s.
Proof.
  induction s as [|a t IH]; [done|]. simpl.
  destruct (trim_end t) as [|b u] eqn:E.
  - destruct (is_js_space a) eqn:Ea; [done|]. simpl. by rewrite Ea.
  - change (trim_end (String a (String b u)) = String a (String b u)).
    simpl in IH |- *. destruct (trim_end u); [destruct (is_js_space b)|]; congruence.
Qed.

Lemma trim_idem s : trim (trim s) = trim s.
Proof. unfold trim. by rewrite trim_start_trim_end, trim_end_idem. Qed.

Lemma trim_end_app s t : nonempty t = true -> trim_end t = t -> trim_end (s +:+ t) = s +:+ t.
Proof.
  intros Hn Ht. induction s as [|a s IH]; [done|]. change (trim_end (String a (s +:+ t)) = String a (s +:+ t)).
  simpl. rewrite IH. destruct (s +:+ t) eqn:E; [|done]. exfalso. by destruct s; [destruct t|].
Qed.

Lemma trim_no_space s : all_chars (fun a => negb (is_js_space a)) s = true -> trim s = s.
Proof.
  unfold trim. intros H.
  assert (trim_start s = s) as ->.
  { destruct s as [|a t]; [done|]. simpl in *.
    apply andb_prop in H as [Ha _]. by destruct (is_js_space a). }
  induction s as [|a t IH]; [done|]. simpl in H.
  apply andb_prop in H as [Ha Ht]. apply negb_true_iff in Ha.
  rewrite trim_end_cons by done. f_equal. auto.
Qed.

Lemma all_chars_impl (p q : ascii -> bool) s :
  (forall a, p a = true -> q a = true) -> all_chars p s = true -> all_chars q s = true.
Proof.
  intros Hpq. induction s as [|a t IH]; [done|]. simpl.
  intros [? ?]%andb_prop. apply andb_true_intro. auto.
Qed.

Lemma all_chars_app p s t : all_chars p (s +:+ t) = all_chars p s && all_chars p t.
Proof. induction s as [|a s IH]; [done|]. simpl. by rewrite IH, andb_assoc. Qed.

Lemma lower_hex_not_space a : is_lower_hex a = true -> negb (is_js_space a) = true.
Proof. unfold is_lower_hex, is_js_space. cbv zeta. lia. Qed.

Lemma digit_not_space a : is_digit a = true -> negb (is_js_space a) = true.
Proof. unfold is_digit, is_js_space. cbv zeta. lia. Qed.

Lemma lower_char_lower_hex a : is_lower_hex a = true -> lower_char a = a.
Proof.
  unfold is_lower_hex, lower_char. cbv zeta. intros H.
  by replace (_ || _) with false by lia.
Qed.

Lemma to_lower_id s : all_chars is_lower_hex s = true -> to_lower s = s.
Proof.
  induction s as [|a t IH]; [done|]. simpl. intros [Ha Ht]%andb_prop.
  by rewrite lower_char_lower_hex, IH.
Qed.

Lemma lower_char_idem a : lower_char (lower_char a) = lower_char a.
Proof. by destruct a as [[] [] [] [] [] [] [] []]. Qed.

Lemma to_lower_idem s : to_lower (to_lower s) = to_lower s.
Proof. induction s as [|a t IH]; [done|]. simpl. by rewrite lower_char_idem, IH. Qed.

Lemma is_0x_hex_inv len s :
  is_0x_hex len s = true ->
  exists h, s = String "0"%char (String "x"%char h) /\ String.length h = len
            /\ all_chars is_lower_hex h = true.
Proof.
  unfold is_0x_hex.
  repeat case_match; intros H'; try discriminate.
  apply andb_prop in H' as [?%Nat.eqb_eq ?]. eauto.
Qed.

Lemma is_0x_hex_canonical len s : is_0x_hex len s = true -> trim s = s /\ to_lower s = s.
Proof.
  intros (h & -> & _ & Hh)%is_0x_hex_inv. split.
  - apply trim_no_space. simpl. eapply all_chars_impl; [|done]. apply lower_hex_not_space.
  - simpl. by rewrite to_lower_id.
Qed.

Lemma is_0x_hex_nonempty len s : is_0x_hex len s = true -> nonempty s = true.
Proof. by intros (h & -> & _)%is_0x_hex_inv. Qed.

#[export] Hint Resolve trim_idem trim_no_space to_lower_idem is_0x_hex_nonempty : js.

(** *** Lemmas on decimals *)

Lemma digits_of_uint d : all_chars is_digit (NilEmpty.string_of_uint d) = true.
Proof. induction d; simpl; auto. Qed.

Lemma NilZero_digits d : all_chars is_digit (NilZero.string_of_uint d) = true.
Proof. destruct d; simpl; auto using digits_of_uint. Qed.

Lemma to_int_cases z :
  exists d, d <> Decimal.Nil /\
    (Z.to_int z = Decimal.Pos d \/ (z < 0)%Z /\ Z.to_int z = Decimal.Neg d).
Proof.
  destruct z as [|p|p]; simpl.
  - exists (Decimal.D0 Decimal.Nil). split; [done|]. by left.
  - exists (Pos.to_uint p). split; [|by left].
    apply DecimalPos.Unsigned.to_uint_nonnil.
  - exists (Pos.to_uint p). split; [|right; by split; [lia|]].
    apply DecimalPos.Unsigned.to_uint_nonnil.
Qed.

Lemma Z_to_string_inj z1 z2 : Z_to_string z1 = Z_to_string z2 -> z1 = z2.
Proof.
  unfold Z_to_string. intros H. apply DecimalZ.to_int_inj.
  apply (f_equal NilZero.int_of_string) in H.
  assert (forall z, NilZero.int_of_string (NilZero.string_of_int (Z.to_int z)) = Some (Z.to_int z))
    as Hi.
  { intros z. destruct (to_int_cases z) as (d & Hd & Hz).
    apply NilZero.isi; destruct Hz as [-> | [_ ->]]; congruence. }
  rewrite !Hi in H. congruence.
Qed.

#[global] Instance Z_to_string_Inj : Inj (=) (=) Z_to_string.
Proof. intros ??. apply Z_to_string_inj. Qed.

Lemma Z_to_string_nonneg z :
  (0 <= z)%Z ->
  exists d, d <> Decimal.Nil /\ Z_to_string z = NilZero.string_of_uint d /\ Z.of_uint d = z.
Proof.
  intros Hz. destruct (to_int_cases z) as (d & Hd & [E | [? _]]); [|lia].
  exists d. unfold Z_to_string. rewrite E. split_and!; [done..|].
  apply (f_equal Z.of_int) in E. by rewrite DecimalZ.of_to in E.
Qed.

(** Reading back the decimal form of a non-negative integer. *)
Lemma parse_digits_to_string z : (0 <= z)%Z -> parse_digits (Z_to_string z) = Some z.
Proof.
  intros (d & Hd & -> & <-)%Z_to_string_nonneg.
  unfold parse_digits. by rewrite NilZero.usu.
Qed.

Lemma Z_to_string_digits z : (0 <= z)%Z -> all_chars is_digit (Z_to_string z) = true.
Proof. intros (d & _ & -> & _)%Z_to_string_nonneg. apply NilZero_digits. Qed.

Lemma Z_to_string_nonempty z : nonempty (Z_to_string z) = true.
Proof.
  unfold Z_to_string. destruct (to_int_cases z) as (d & Hd & [-> | [_ ->]]); [|done].
  by destruct d.
Qed.

Lemma trim_Z_to_string z : trim (Z_to_string z) = Z_to_string z.
Proof.
  apply trim_no_space. unfold Z_to_string.
  destruct (to_int_cases z) as (d & Hd & [-> | [_ ->]]); simpl;
    eapply all_chars_impl; eauto using digit_not_space, NilZero_digits.
Qed.

Lemma parse_digits_nonneg s z : parse_digits s = Some z -> (0 <= z)%Z.
Proof.
  unfold parse_digits. intros (d & _ & ->)%fmap_Some. unfold Z.of_uint. lia.
Qed.

Lemma BigInt_digits s :
  nonempty s = true -> all_chars is_digit s = true -> BigInt_of_string s = parse_digits s.
Proof.
  intros Hn Hd. unfold BigInt_of_string.
  rewrite trim_no_space
    by (eapply all_chars_impl; [|done]; apply digit_not_space).
  destruct s as [|a t]; [done|]. simpl in Hd. apply andb_prop in Hd as [Ha Ht].
  destruct a as [[] [] [] [] [] [] [] []]; try discriminate Ha; try done.
  destruct t as [|b u]; [done|]. simpl in Ht. apply andb_prop in Ht as [Hb _].
  by destruct b as [[] [] [] [] [] [] [] []].
Qed.

(** [BigInt(String(z))] is [z]. *)
Lemma BigInt_to_string z : BigInt_of_string (Z_to_string z) = Some z.
Proof.
  destruct (decide (0 <= z)%Z) as [Hz|Hz].
  - rewrite BigInt_digits; auto using Z_to_string_nonempty, Z_to_string_digits.
    by apply parse_digits_to_string.
  - destruct (to_int_cases z) as (d & Hd & [E | [Hneg E]]).
    + apply (f_equal Z.of_int) in E. rewrite DecimalZ.of_to in E. simpl in E.
      unfold Z.of_uint in E. lia.
    + unfold BigInt_of_string. rewrite trim_Z_to_string.
      unfold Z_to_string. rewrite E. simpl.
      unfold parse_digits. rewrite NilZero.usu by done. simpl.
      apply (f_equal Z.of_int) in E. rewrite DecimalZ.of_to in E. by rewrite E.
Qed.

#[export] Hint Resolve parse_digits_to_string Z_to_string_nonempty trim_Z_to_string
  BigInt_to_string : js.
Create Rewrite HintDb js.
#[export] Hint Rewrite trim_idem trim_Z_to_string BigInt_to_string to_lower_idem : js.

(** ** Maps and sets in insertion order

    A [Map<string, V>] is the list of its entries in insertion order: [set] on
    a key that is present keeps the entry's place, as the JavaScript map does.
    A [Set<string>] is the list of its elements in insertion order. *)

Section JsMap.
Context {V : Type}.
Implicit Types (m : list (string * V)) (k : string) (v : V).

Fixpoint mget (k : string) (m : list (string * V)) : option V :=
  match m with
  | [] => None
  | (k', v) :: m' => if decide (k' = k) then Some v else mget k m'
  end.

Fixpoint mset (k : string) (v : V) (m : list (string * V)) : list (string * V) :=
  match m with
  | [] => [(k, v)]
  | (k', v') :: m' => if decide (k' = k) then (k, v) :: m' else (k', v') :: mset k v m'
  end.

Definition mdel (k : string) (m : list (string * V)) : list (string * V) :=
  List.filter (fun e => negb (bool_decide (e.1 = k))) m.

Definition mhas (k : string) (m : list (string * V)) : bool :=
  match mget k m with Some _ => true | None => false end.

Definition mvalues (m : list (string * V)) : list V := map snd m.

(** The keys of a map are distinct. *)
Definition mwf (m : list (string * V)) : Prop := NoDup m.*1.

Lemma mget_mset_eq k v m : mget k (mset k v m) = Some v.
Proof. induction m as [|[k' v'] m IH]; simpl; repeat case_decide; simpl; by repeat case_decide. Qed.

Lemma mget_mset_ne k k' v m : k <> k' -> mget k (mset k' v m) = mget k m.
Proof.
  intros Hne. induction m as [|[k1 v1] m IH]; simpl; [by case_decide|].
  repeat case_decide; simpl; subst; by repeat case_decide.
Qed.

Lemma mget_mset k k' v m :
  mget k (mset k' v m) = if decide (k' = k) then Some v else mget k m.
Proof. case_decide; subst; [apply mget_mset_eq | by apply mget_mset_ne]. Qed.

Lemma mget_mdel_eq k m : mget k (mdel k m) = None.
Proof.
  unfold mdel. induction m as [|[k' v'] m IH]; simpl; [done|].
  case_bool_decide; simpl; [done|]. by case_decide.
Qed.

Lemma mget_mdel_ne k k' m : k <> k' -> mget k (mdel k' m) = mget k m.
Proof.
  unfold mdel. intros Hne. induction m as [|[k1 v1] m IH]; simpl; [done|].
  case_bool_decide; simpl; case_decide; subst; try done.
Qed.

Lemma mget_elem k v m : mget k m = Some v -> (k, v) ∈ m.
Proof.
  induction m as [|[k' v'] m IH]; simpl; [done|].
  case_decide; intros; simplify_eq; set_solver.
Qed.

Lemma elem_mget k v m : mwf m -> (k, v) ∈ m -> mget k m = Some v.
Proof.
  unfold mwf. induction m as [|[k' v'] m IH]; simpl; [set_solver|].
  intros [Hk Hn]%NoDup_cons [?|Hin]%elem_of_cons; simplify_eq; case_decide; try done.
  - subst. exfalso. apply Hk. apply list_elem_of_fmap. by exists (k, v).
  - by apply IH.
Qed.

Lemma elem_mset k v k' v' m : (k', v') ∈ mset k v m -> (k', v') = (k, v) \/ (k', v') ∈ m.
Proof.
  induction m as [|[k1 v1] m IH]; simpl; [set_solver|].
  case_decide; set_solver.
Qed.

Lemma elem_mset_ne k v k' v' m :
  mwf m -> (k', v') ∈ mset k v m -> (k' = k /\ v' = v) \/ (k' <> k /\ (k', v') ∈ m).
Proof.
  unfold mwf. induction m as [|[k1 v1] m IH]; simpl; [set_solver|].
  intros [Hk Hn]%NoDup_cons. case_decide as Hd.
  - intros [?|Hin]%elem_of_cons; simplify_eq; [by left|]. right. split; [|set_solver].
    intros ->. apply Hk. apply list_elem_of_fmap. by exists (k, v').
  - intros [?|Hin]%elem_of_cons; simplify_eq; [right; split; [done|set_solver]|].
    destruct (IH Hn Hin) as [?|[??]]; [by left|]. right. split; [done|set_solver].
Qed.

Lemma elem_mdel k k' v' m : (k', v') ∈ mdel k m <-> k' <> k /\ (k', v') ∈ m.
Proof.
  unfold mdel. rewrite list_elem_of_In, filter_In, <- list_elem_of_In. simpl.
  rewrite negb_true_iff, bool_decide_eq_false. tauto.
Qed.

Lemma mset_keys k v m : forall k', k' ∈ (mset k v m).*1 <-> k' = k \/ k' ∈ m.*1.
Proof.
  induction m as [|[k1 v1] m IH]; intros k'; simpl; [set_solver|].
  case_decide; simpl; rewrite !elem_of_cons; subst; [tauto|]. rewrite IH. tauto.
Qed.

Lemma mset_wf k v m : mwf m -> mwf (mset k v m).
Proof.
  unfold mwf. induction m as [|[k1 v1] m IH]; simpl; intros H.
  - apply NoDup_singleton.
  - apply NoDup_cons in H as [Hk Hn]. case_decide; simpl; apply NoDup_cons; subst; [done|].
    split; [|auto]. rewrite mset_keys. by intros [?|?].
Qed.

Lemma mdel_wf k m : mwf m -> mwf (mdel k m).
Proof.
  unfold mwf, mdel. induction m as [|[k1 v1] m IH]; simpl; [done|].
  intros [Hk Hn]%NoDup_cons. case_bool_decide; simpl; [auto|].
  apply NoDup_cons. split; [|auto]. intros ((?&?)&->&Hin)%list_elem_of_fmap.
  apply Hk. apply list_elem_of_In, filter_In in Hin as [Hin _].
  apply list_elem_of_fmap. eexists; split; [|by apply list_elem_of_In]. done.
Qed.

Lemma elem_mvalues v m : v ∈ mvalues m <-> exists k, (k, v) ∈ m.
Proof.
  unfold mvalues. rewrite list_elem_of_fmap. split.
  - intros ([k ?] & -> & ?). by exists k.
  - intros (k & ?). by exists (k, v).
Qed.

Lemma elem_mset_same k v m : (k, v) ∈ mset k v m.
Proof. apply mget_elem, mget_mset_eq. Qed.

Lemma elem_mset_other k v k' v' m : k' <> k -> (k', v') ∈ m -> (k', v') ∈ mset k v m.
Proof. induction m as [|[k1 v1] m IH]; simpl; [set_solver|]. case_decide; set_solver. Qed.
End JsMap.

Definition sadd (x : string) (s : list string) : list string :=
  if decide (x ∈ s) then s else s ++ [x].
Definition sdel (x : string) (s : list string) : list string :=
  List.filter (fun y => negb (bool_decide (y = x))) s.
Definition shas (x : string) (s : list string) : bool := bool_decide (x ∈ s).

Lemma elem_sadd x y s : y ∈ sadd x s <-> y = x \/ y ∈ s.
Proof. unfold sadd. case_decide; set_solver. Qed.

Lemma elem_sdel x y s : y ∈ sdel x s <-> y <> x /\ y ∈ s.
Proof.
  unfold sdel. rewrite list_elem_of_In, filter_In, <- list_elem_of_In.
  rewrite negb_true_iff, bool_decide_eq_false. tauto.
Qed.

#[export] Hint Resolve mset_wf mdel_wf mget_mset_eq : js.

(** ** Errors *)

(** What the modelled code throws.  [JsError] is [new Error(message)];
    [JsCodedError] an error with a [code]; the named classes follow.  The fields
    of an [EvmWaitError] that the error does not have are empty.  The last
    two constructors are not errors of the code: [OutOfFuel] marks a loop that
    ran out of its bound, or an [await] that never ends, and [AwaitsOther] a wait on
    a task that another caller started.  The fuel of every loop is proved enough, and
    no task is left running between operations (see the header). *)
Inductive Exn : Type :=
| JsError (message : string)
| JsCodedError (code message : string)
| NearImplicitAccountFundingRequired (walletId nearAccountId nearPublicKeyStr : string)
| NearAccountLookupFailed (walletId nearAccountId nearPublicKeyStr message : string)
| NearReplacementNonceUsed (nonce accessKeyNonce : string)
| NonceLaneBlocked (networkKey : string) (chainId blockedNonce ageMs : Z)
| EvmWaitError (finalizationBranch reason txNonce latestNonce txFrom message : string)
| OutOfFuel
| AwaitsOther.

#[global] Instance Exn_eq_dec : EqDecision Exn.
Proof. solve_decision. Defined.

Inductive Result (A : Type) : Type :=
| Ok (value : A)
| Throw (error : Exn).
Arguments Ok {A} value.
Arguments Throw {A} error.

Definition of_option {A} (e : Exn) (o : option A) : Result A :=
  match o with Some a => Ok a | None => Throw e end.

Definition result_bind {A B} (r : Result A) (k : A -> Result B) : Result B :=
  match r with Ok a => k a | Throw e => Throw e end.

Lemma result_bind_ok {A B} (r : Result A) (k : A -> Result B) b :
  result_bind r k = Ok b <-> exists a, r = Ok a /\ k a = Ok b.
Proof.
  destruct r; simpl; split; [by eexists| |done|].
  - by intros (? & [= ->] & ?).
  - by intros (? & [=] & _).
Qed.

(** ** Stateful computations

    [M W A] is an asynchronous function that runs to its end: it reads and
    writes a world [W] and returns or throws.  Awaiting is sequencing. *)

Definition M (W A : Type) : Type := W -> Result A * W.

Definition ret {W A} (a : A) : M W A := fun w => (Ok a, w).
Definition throw {W A} (e : Exn) : M W A := fun w => (Throw e, w).
Definition bind {W A B} (m : M W A) (k : A -> M W B) : M W B :=
  fun w => match m w with
           | (Ok a, w') => k a w'
           | (Throw e, w') => (Throw e, w')
           end.
(** [try { m } catch (e) { h e }]. *)
Definition try_catch {W A} (m : M W A) (h : Exn -> M W A) : M W A :=
  fun w => match m w with
           | (Ok a, w') => (Ok a, w')
           | (Throw e, w') => h e w'
           end.
Definition gets {W A} (f : W -> A) : M W A := fun w => (Ok (f w), w).
Definition modify {W} (f : W -> W) : M W unit := fun w => (Ok tt, f w).
Definition lift {W A} (r : Result A) : M W A := fun w => (r, w).

Declare Scope js_scope.
Delimit Scope js_scope with js.
Notation "x <- m ;; k" := (bind m (fun x => k))
  (at level 100, m at next level, right associativity) : js_scope.
Notation "m ;; k" := (bind m (fun _ => k)) (at level 100, right associativity) : js_scope.
Notation "'let*' x := r 'in' k" := (result_bind r (fun x => k))
  (at level 200, x name, right associativity) : js_scope.
Notation "'when' b 'do' m" := (if b then m else ret tt)
  (at level 60, b at level 59, m at level 60) : js_scope.

(** A mutable object of the world, passed by reference. *)
Record Ref (W A : Type) : Type := mkRef { rget : W -> A; rset : A -> W -> W }.
Arguments mkRef {W A} _ _.
Arguments rget {W A} _ _.
Arguments rset {W A} _ _ _.

Definition deref {W A} (r : Ref W A) : M W A := gets (rget r).
Definition assign {W A} (r : Ref W A) (f : A -> A) : M W unit :=
  modify (fun w => rset r (f (rget r w)) w).

(** [for (const x of l) body]. *)
Fixpoint forM {W A} (l : list A) (body : A -> M W unit) : M W unit :=
  match l with
  | [] => ret tt
  | x :: l' => bind (body x) (fun _ => forM l' body)
  end.

(** *** Reasoning

    [wp m Q E w]: run from [w], [m] returns a value and a world in [Q] or
    throws an error and a world in [E]. *)
Definition wp {W A} (m : M W A) (Q : A -> W -> Prop) (E : Exn -> W -> Prop) (w : W) : Prop :=
  match m w with
  | (Ok a, w') => Q a w'
  | (Throw e, w') => E e w'
  end.

Section Wp.
Context {W : Type}.

Lemma wp_ret {A} (a : A) Q E (w : W) : Q a w -> wp (ret a) Q E w.
Proof. done. Qed.

Lemma wp_throw {A} e (Q : A -> W -> Prop) (E : Exn -> W -> Prop) w : E e w -> wp (throw e) Q E w.
Proof. done. Qed.

Lemma wp_bind {A B} (m : M W A) (k : A -> M W B) Q E w :
  wp m (fun a w' => wp (k a) Q E w') E w -> wp (bind m k) Q E w.
Proof. unfold wp, bind. by destruct (m w) as [[a|e] w']. Qed.

Lemma wp_try {A} (m : M W A) h Q E w :
  wp m Q (fun e w' => wp (h e) Q E w') w -> wp (try_catch m h) Q E w.
Proof. unfold wp, try_catch. by destruct (m w) as [[a|e] w']. Qed.

Lemma wp_gets {A} (f : W -> A) Q E w : Q (f w) w -> wp (gets f) Q E w.
Proof. done. Qed.

Lemma wp_modify (f : W -> W) Q E w : Q tt (f w) -> wp (modify f) Q E w.
Proof. done. Qed.

Lemma wp_lift_ok {A} (a : A) Q E (w : W) : Q a w -> wp (lift (Ok a)) Q E w.
Proof. done. Qed.

Lemma wp_mono {A} (m : M W A) (Q Q' : A -> W -> Prop) (E E' : Exn -> W -> Prop) w :
  wp m Q E w -> (forall a w', Q a w' -> Q' a w') -> (forall e w', E e w' -> E' e w') ->
  wp m Q' E' w.
Proof. unfold wp. destruct (m w) as [[a|e] w']; auto. Qed.

(** What a run that is known to return satisfies. *)
Lemma wp_ok {A} (m : M W A) (Q : A -> W -> Prop) (E : Exn -> W -> Prop) w a w' :
  wp m Q E w -> m w = (Ok a, w') -> Q a w'.
Proof. unfold wp. intros H Hm. by rewrite Hm in H. Qed.

Lemma wp_conj {A} (m : M W A) (Q Q' : A -> W -> Prop) (E E' : Exn -> W -> Prop) w :
  wp m Q E w -> wp m Q' E' w ->
  wp m (fun a w' => Q a w' /\ Q' a w') (fun e w' => E e w' /\ E' e w') w.
Proof. unfold wp. destruct (m w) as [[a|e] w']; auto. Qed.
End Wp.

(** [steps R m]: every run of [m], whether it returns or throws, relates the
    worlds before and after by [R].  For a preorder [R] the judgement is closed
    under the combinators; [fun w w' => I w -> I w'] states that [m] preserves
    the invariant [I], and [fun w w' => f w' = f w] that it leaves [f] alone. *)
Definition steps {W A} (R : W -> W -> Prop) (m : M W A) : Prop := forall w, R w (m w).2.

Section Steps.
Context {W : Type} (R : W -> W -> Prop) `{!PreOrder R}.

Lemma steps_ret {A} (a : A) : steps R (ret a).
Proof. intros w. simpl. reflexivity. Qed.

Lemma steps_throw {A} e : steps R (throw (A:=A) e).
Proof. intros w. simpl. reflexivity. Qed.

Lemma steps_gets {A} (f : W -> A) : steps R (gets f).
Proof. intros w. simpl. reflexivity. Qed.

Lemma steps_lift {A} (r : Result A) : steps R (lift r).
Proof. intros w. simpl. reflexivity. Qed.

Lemma steps_deref {A} (r : Ref W A) : steps R (deref r).
Proof. intros w. simpl. reflexivity. Qed.

Lemma steps_bind {A B} (m : M W A) (k : A -> M W B) :
  steps R m -> (forall a, steps R (k a)) -> steps R (bind m k).
Proof.
  intros Hm Hk w. specialize (Hm w). unfold bind.
  destruct (m w) as [[a|e] w']; simpl in *; [|done].
  etransitivity; [done|]. apply Hk.
Qed.

Lemma steps_try {A} (m : M W A) h :
  steps R m -> (forall e, steps R (h e)) -> steps R (try_catch m h).
Proof.
  intros Hm Hh w. specialize (Hm w). unfold try_catch.
  destruct (m w) as [[a|e] w']; simpl in *; [done|].
  etransitivity; [done|]. apply Hh.
Qed.

Lemma steps_forM {A} (l : list A) body :
  (forall x, x ∈ l -> steps R (body x)) -> steps R (forM l body).
Proof.
  induction l as [|x l IH]; intros H; simpl; [apply steps_ret|].
  apply steps_bind; [apply H; set_solver|]. intros _. apply IH. intros. apply H. set_solver.
Qed.
End Steps.

Lemma steps_modify {W} (R : W -> W -> Prop) f : (forall w, R w (f w)) -> steps R (modify f).
Proof. intros H w. apply H. Qed.

(** The outcome of a run that relates its worlds by [R]. *)
Lemma steps_wp {W A} (R : W -> W -> Prop) (m : M W A) w :
  steps R m -> wp m (fun _ w' => R w w') (fun _ w' => R w w') w.
Proof. intros H. specialize (H w). unfold wp. by destruct (m w) as [[a|e] w']. Qed.

Create HintDb steps.

(** Splits a goal [steps R m] along the shape of [m] and closes the leaves
    from the [steps] hints. *)
Ltac steps_tac :=
  repeat first
    [ progress intros
    | apply steps_ret; typeclasses eauto
    | apply steps_throw; typeclasses eauto
    | apply steps_gets; typeclasses eauto
    | apply steps_lift; typeclasses eauto
    | apply steps_deref; typeclasses eauto
    | solve [auto with steps typeclass_instances]
    | apply steps_bind; [typeclasses eauto | | ]
    | apply steps_try; [typeclasses eauto | | ]
    | apply steps_forM; [typeclasses eauto | ]
    | case_match ].

(** Runs the next step of a [wp] goal. *)
Ltac wp_step :=
  first
    [ apply wp_bind
    | apply wp_ret
    | apply wp_throw
    | apply wp_gets
    | apply wp_modify
    | apply wp_try ].
Ltac wp_steps := repeat (wp_step; simpl).
