(* ===== verification/ListFacts.v ===== *)
(** * Lists

    Facts about indexed updates, sublists and increasing lists that the queues and
    state machines share. *)

From Stdlib Require Export Sorted.
From S2P Require Import Prelude.

Lemma lookup_alter_spec {A} (f : A -> A) i j (l : list A) :
  alter f i l !! j = if decide (i = j) then f <$> l !! j else l !! j.
Proof. case_decide; subst; [apply list_lookup_alter_eq | by apply list_lookup_alter_ne]. Qed.

Lemma sublist_lookup_ge {A} (l k : list A) p x :
  l `sublist_of` k -> l !! p = Some x -> exists p', (p <= p')%nat /\ k !! p' = Some x.
Proof.
  intros H. revert p. induction H as [|y l k H IH|y l k H IH]; intros p Hp.
  - done.
  - destruct p as [|p]; [by exists 0%nat|]. destruct (IH p Hp) as (p' & ? & ?).
    exists (S p'). split; [lia|done].
  - destruct (IH p Hp) as (p' & ? & ?). exists (S p'). split; [lia|done].
Qed.

Lemma sublist_elem {A} (l k : list A) x : l `sublist_of` k -> x ∈ l -> x ∈ k.
Proof.
  intros Hs [p Hp]%list_elem_of_lookup.
  destruct (sublist_lookup_ge _ _ _ _ Hs Hp) as (p' & _ & Hp'). by eapply list_elem_of_lookup_2.
Qed.

Lemma sorted_sublist (l k : list nat) :
  l `sublist_of` k -> StronglySorted lt k -> StronglySorted lt l.
Proof.
  intros H. induction H as [|x l k H IH|x l k H IH]; intros Hk; [done|..];
    apply StronglySorted_inv in Hk as [Hk Hx]; [|auto].
  constructor; [auto|]. rewrite Forall_forall in *. eauto using sublist_elem.
Qed.

Lemma StronglySorted_sublist_app (a l k : list nat) :
  l `sublist_of` k -> StronglySorted lt (a ++ k) -> StronglySorted lt (a ++ l).
Proof. intros H. apply sorted_sublist. by apply sublist_app. Qed.

Lemma sorted_nodup (l : list nat) : StronglySorted lt l -> NoDup l.
Proof.
  induction 1 as [|x l Hl IH Hx]; constructor; [|done]. intros Hin.
  rewrite Forall_forall in Hx. specialize (Hx _ Hin). lia.
Qed.

Lemma StronglySorted_snoc (l : list nat) x :
  StronglySorted lt l -> (forall y, y ∈ l -> (y < x)%nat) -> StronglySorted lt (l ++ [x]).
Proof.
  induction 1 as [|y l Hl IH Hy]; intros Hx; simpl.
  - constructor; constructor.
  - constructor; [apply IH; set_solver|]. rewrite Forall_app. split; [done|].
    constructor; [set_solver|constructor].
Qed.

Lemma elem_insert {A} (l : list A) n x0 x y :
  l !! n = Some x0 -> y ∈ <[n := x]> l <-> y = x \/ exists m, m <> n /\ l !! m = Some y.
Proof.
  intros Hn. pose proof (lookup_lt_Some _ _ _ Hn) as Hlt. split.
  - intros [m Hm]%list_elem_of_lookup. destruct (decide (n = m)) as [<-|Hne].
    + rewrite list_lookup_insert_eq in Hm by done. left. congruence.
    + rewrite list_lookup_insert_ne in Hm by done. eauto.
  - intros [->|(m & Hne & Hm)].
    + apply list_elem_of_lookup_2 with (i := n). by apply list_lookup_insert_eq.
    + apply list_elem_of_lookup_2 with (i := m). by rewrite list_lookup_insert_ne.
Qed.

Lemma delete_insert_same {A} (l : list A) n x : delete n (<[n := x]> l) = delete n l.
Proof.
  revert n. induction l as [|y l IH]; intros [|n]; [done..|]. simpl. by rewrite IH.
Qed.

Lemma sum_list_with_delete {A} (f : A -> nat) (l : list A) n x :
  l !! n = Some x -> sum_list_with f l = (f x + sum_list_with f (delete n l))%nat.
Proof.
  revert n. induction l as [|y l IH]; intros [|n]; [done..| |]; simpl.
  - by intros [= ->].
  - intros Hn. rewrite (IH _ Hn). lia.
Qed.

Lemma sum_list_with_alter {A} (f : A -> nat) g (l : list A) n x :
  l !! n = Some x ->
  (sum_list_with f (alter g n l) + f x = sum_list_with f l + f (g x))%nat.
Proof.
  revert n. induction l as [|y l IH]; intros [|n]; [done..| |].
  - intros [= ->]. simpl. lia.
  - intros Hn. specialize (IH n Hn). change (alter g (S n) (y :: l)) with (y :: alter g n l). simpl. lia.
Qed.

Lemma alter_snoc {A} (f : A -> A) (l : list A) x : alter f (length l) (l ++ [x]) = l ++ [f x].
Proof. induction l as [|y l IH]; [done|]. simpl. by rewrite <- IH. Qed.

(** Two filters as one. *)
Lemma filter_filter {A} (f g h : A -> bool) l :
  (forall x, f x && g x = h x) -> List.filter f (List.filter g l) = List.filter h l.
Proof.
  intros Hh. induction l as [|x l IH]; simpl; [done|]. rewrite <- Hh.
  destruct (g x); simpl; rewrite ?andb_true_r, ?andb_false_r, ?IH; done.
Qed.

Lemma filter_both {A} (f g : A -> bool) l :
  List.filter g (List.filter f l) = List.filter (fun x => f x && g x) l.
Proof. apply filter_filter. intros x. apply andb_comm. Qed.

(** A lookup in a list with one more element. *)
Lemma snoc_lookup {A} (l : list A) x i y :
  (l ++ [x]) !! i = Some y <-> l !! i = Some y \/ i = length l /\ y = x.
Proof.
  rewrite lookup_app_Some, list_lookup_singleton_Some. split.
  - intros [?|(? & ? & ->)]; [by left|right; split; [lia|done]].
  - intros [?|[-> ->]]; [by left|right; split_and!; [lia|lia|done]].
Qed.

Lemma filter_ext_in {A} (f g : A -> bool) l :
  (forall x, x ∈ l -> f x = g x) -> List.filter f l = List.filter g l.
Proof.
  induction l as [|x l IH]; intros H; simpl; [done|].
  rewrite (H x) by set_solver. rewrite IH by set_solver. done.
Qed.
