(* ===== verification/BitPacking.v ===== *)
(** * Repacking bits

    The 32-bit integer operators of the language, numbers as lists of digits, and the
    loop that both text encodings of this library are made of: shift digits of one
    width into a buffer and take digits of another width out of it.  An [Alphabet] says
    what an encoding asks of its characters. *)

From S2P Require Import Prelude.
Local Open Scope Z_scope.

(** ** 32-bit integers *)

(** [ToInt32]. *)
Definition to_int32 (z : Z) : Z := (z + 2 ^ 31) mod 2 ^ 32 - 2 ^ 31.

(** [a << n], [a >> n], [a | b] and [a & b]. *)
Definition js_shl (a n : Z) : Z := to_int32 (Z.shiftl (to_int32 a) (n mod 32)).
Definition js_sar (a n : Z) : Z := Z.shiftr (to_int32 a) (n mod 32).
Definition js_or (a b : Z) : Z := Z.lor (to_int32 a) (to_int32 b).
Definition js_and (a b : Z) : Z := Z.land (to_int32 a) (to_int32 b).

Lemma to_int32_id z : 0 <= z < 2 ^ 31 -> to_int32 z = z.
Proof. intros Hz. unfold to_int32. rewrite Z.mod_small; lia. Qed.

Lemma pow2_mono a b : 0 <= a <= b -> 2 ^ a <= 2 ^ b.
Proof. intros ?. apply Z.pow_le_mono_r; lia. Qed.

Lemma pow2_pos n : 0 <= n -> 0 < 2 ^ n.
Proof. intros ?. by apply Z.pow_pos_nonneg. Qed.

Lemma pow2_split a b : 0 <= a -> 0 <= b -> 2 ^ (a + b) = 2 ^ a * 2 ^ b.
Proof. intros ??. by apply Z.pow_add_r. Qed.

Section ops.
Variables (buf avail w d : Z).
Hypotheses (Hbuf : 0 <= buf < 2 ^ avail) (Hw : 0 <= w) (Ha : 0 <= avail) (H31 : avail + w < 31).

Lemma buf_small : buf < 2 ^ 31.
Proof using All. pose proof (pow2_mono avail 31 ltac:(lia)). lia. Qed.

Lemma shl_or : 0 <= d < 2 ^ w -> js_or (js_shl buf w) d = buf * 2 ^ w + d.
Proof using All.
  intros Hd. pose proof (pow2_split avail w Ha Hw) as Hsplit. pose proof (pow2_pos w Hw).
  assert (buf * 2 ^ w + 2 ^ w <= 2 ^ (avail + w)) by nia.
  pose proof (pow2_mono (avail + w) 31 ltac:(lia)). pose proof (pow2_mono w 31 ltac:(lia)).
  pose proof buf_small.
  unfold js_or, js_shl. rewrite (to_int32_id buf) by lia.
  rewrite (Z.mod_small w) by lia. rewrite Z.shiftl_mul_pow2 by lia.
  rewrite (to_int32_id (buf * 2 ^ w)), !to_int32_id by lia.
  assert (Z.land (buf * 2 ^ w) d = 0) as Hland.
  { apply Z.bits_inj'. intros n Hn. rewrite Z.land_spec, Z.bits_0.
    destruct (Z.lt_ge_cases n w).
    - rewrite Z.mul_pow2_bits_low by lia. done.
    - rewrite <- (Z.mod_small d (2 ^ w)) by lia. rewrite Z.mod_pow2_bits_high by lia.
      apply andb_false_r. }
  symmetry. by apply Z.add_nocarry_lxor in Hland as Hx;
    rewrite Hx, (Z.lxor_lor _ _ Hland).
Qed.
End ops.

(** The digits of width [w] at the top of a buffer, and what is left of it. *)
Lemma sar_mask buf avail w :
  0 <= buf < 2 ^ (avail + w) -> 0 <= avail -> 0 <= w -> avail + w < 31 ->
  js_and (js_sar buf avail) (2 ^ w - 1) = buf / 2 ^ avail.
Proof.
  intros Hb Ha Hw H31. pose proof (pow2_mono (avail + w) 31 ltac:(lia)).
  pose proof (pow2_mono w 31 ltac:(lia)).
  pose proof (pow2_pos avail Ha). pose proof (pow2_split avail w Ha Hw).
  assert (0 <= buf / 2 ^ avail < 2 ^ w) as Hq.
  { split; [by apply Z.div_pos; lia|]. apply Z.div_lt_upper_bound; nia. }
  unfold js_and, js_sar. rewrite (to_int32_id buf) by lia. rewrite (Z.mod_small avail) by lia.
  rewrite Z.shiftr_div_pow2 by lia. rewrite !to_int32_id by lia.
  replace (2 ^ w - 1) with (Z.ones w) by (rewrite Z.ones_equiv; lia).
  rewrite Z.land_ones by lia. by apply Z.mod_small.
Qed.

Lemma and_low buf avail w :
  0 <= buf < 2 ^ (avail + w) -> 0 <= avail -> 0 <= w -> avail + w < 31 ->
  js_and buf (js_shl 1 avail - 1) = buf mod 2 ^ avail.
Proof.
  intros Hb Ha Hw H31. pose proof (pow2_mono (avail + w) 31 ltac:(lia)).
  pose proof (pow2_mono avail 30 ltac:(lia)).
  pose proof (pow2_pos avail Ha).
  unfold js_and, js_shl. rewrite (to_int32_id 1) by lia. rewrite (Z.mod_small avail) by lia.
  rewrite Z.shiftl_mul_pow2, Z.mul_1_l by lia.
  rewrite (to_int32_id (2 ^ avail)), !to_int32_id by lia.
  replace (2 ^ avail - 1) with (Z.ones avail) by (rewrite Z.ones_equiv; lia).
  by apply Z.land_ones.
Qed.

(** ** Digits *)

(** The number with the digits [l] after those of [acc]. *)
Definition horner (base : Z) (acc : Z) (l : list Z) : Z := fold_left (fun a d => a * base + d) l acc.

Definition digits (base : Z) (l : list Z) : Prop := Forall (fun d => 0 <= d < base) l.

Lemma horner_cons base acc d l : horner base acc (d :: l) = horner base (acc * base + d) l.
Proof. done. Qed.

Lemma horner_app base acc l k : horner base acc (l ++ k) = horner base (horner base acc l) k.
Proof. unfold horner. by rewrite fold_left_app. Qed.

Lemma horner_acc base l : forall acc,
  horner base acc l = acc * base ^ Z.of_nat (length l) + horner base 0 l.
Proof.
  induction l as [|d l IH]; intros acc; simpl length.
  - simpl. lia.
  - rewrite !horner_cons, (IH (acc * base + d)), (IH (0 * base + d)).
    rewrite Nat2Z.inj_succ, Z.pow_succ_r by lia. ring.
Qed.

Lemma horner_bounds base l : 0 < base -> digits base l -> 0 <= horner base 0 l < base ^ Z.of_nat (length l).
Proof.
  intros Hb. induction 1 as [|d l Hd _ IH]; simpl length; [simpl; lia|].
  rewrite horner_cons, horner_acc, Nat2Z.inj_succ, Z.pow_succ_r by lia. nia.
Qed.

(** A number has one list of digits of a given length. *)
Lemma horner_inj base l k :
  0 < base -> digits base l -> digits base k -> length l = length k ->
  horner base 0 l = horner base 0 k -> l = k.
Proof.
  intros Hb Hl. revert k. induction Hl as [|d l Hd Hl IH]; intros [|e k] Hk Hlen Heq; try done.
  inversion Hk as [|?? He Hk']; subst. simpl in Hlen. injection Hlen as Hlen.
  rewrite !horner_cons, (horner_acc base l), (horner_acc base k), Hlen in Heq.
  pose proof (horner_bounds base l Hb Hl) as Bl. pose proof (horner_bounds base k Hb Hk') as Bk.
  rewrite Hlen in Bl. set (P := base ^ Z.of_nat (length k)) in *.
  assert (d = e) as -> by nia. f_equal. apply IH; [done..|]. lia.
Qed.

(** ** The loop *)

(** Takes digits of width [w] out of a buffer of [avail] bits while there is one. *)
Fixpoint take_out (fuel : nat) (w buf avail : Z) : list Z * Z * Z :=
  match fuel with
  | O => ([], buf, avail)
  | S fuel =>
      if w <=? avail then
        let avail := avail - w in
        let digit := js_and (js_sar buf avail) (2 ^ w - 1) in
        let '(out, buf, avail) := take_out fuel w (js_and buf (js_shl 1 avail - 1)) avail in
        (digit :: out, buf, avail)
      else ([], buf, avail)
  end.

(** Shifts each digit of width [v] in and takes digits of width [w] out. *)
Fixpoint repack (v w buf avail : Z) (l : list Z) : list Z * Z * Z :=
  match l with
  | [] => ([], buf, avail)
  | d :: l =>
      let buf := js_or (js_shl buf v) d in
      let avail := avail + v in
      let '(out, buf, avail) := take_out (Z.to_nat avail) w buf avail in
      let '(outs, buf, avail) := repack v w buf avail l in
      (out ++ outs, buf, avail)
  end.

(** The bits that went in are the bits that came out and the bits of the buffer. *)
Definition repacked (w : Z) (n : Z) (bits : Z) (r : list Z * Z * Z) : Prop :=
  let '(out, buf, avail) := r in
  digits (2 ^ w) out /\ 0 <= buf < 2 ^ avail /\ 0 <= avail < w /\
  n = horner (2 ^ w) 0 out * 2 ^ avail + buf /\ bits = w * Z.of_nat (length out) + avail.

Lemma take_out_repacked w fuel : forall buf avail,
  0 < w -> 0 <= avail < 31 -> 0 <= buf < 2 ^ avail -> avail <= Z.of_nat fuel ->
  repacked w buf avail (take_out fuel w buf avail).
Proof.
  induction fuel as [|fuel IH]; intros buf avail Hw Ha Hb Hf; simpl take_out.
  - split_and!; try done; try (simpl; lia). by constructor.
  - destruct (Z.leb_spec w avail) as [Hle|Hgt].
    2:{ split_and!; try done; try (simpl; lia). by constructor. }
    pose proof (pow2_split (avail - w) w ltac:(lia) ltac:(lia)) as Hs.
    replace (avail - w + w) with avail in Hs by lia. pose proof (pow2_pos (avail - w) ltac:(lia)).
    rewrite (sar_mask buf (avail - w) w), (and_low buf (avail - w) w)
      by (try lia; replace (avail - w + w) with avail by lia; done).
    assert (0 <= buf mod 2 ^ (avail - w) < 2 ^ (avail - w)) as Hmod by by apply Z.mod_pos_bound.
    specialize (IH (buf mod 2 ^ (avail - w)) (avail - w) Hw ltac:(lia) Hmod ltac:(lia)).
    destruct (take_out fuel w _ (avail - w)) as [[out buf'] avail'].
    destruct IH as (Hd & Hb' & Ha' & Hn & Hbits). simpl. split_and!; try done; try lia.
    + constructor; [|done]. split; [by apply Z.div_pos; lia|].
      apply Z.div_lt_upper_bound; [lia|]. rewrite <- Hs. lia.
    + rewrite horner_acc.
      assert (2 ^ (avail - w) = (2 ^ w) ^ Z.of_nat (length out) * 2 ^ avail') as E.
      { rewrite <- Z.pow_mul_r, <- pow2_split by lia. f_equal. lia. }
      pose proof (Z.div_mod buf (2 ^ (avail - w)) ltac:(lia)) as Hdm.
      rewrite Hdm at 1. rewrite Hn, E. ring.
Qed.

Lemma repack_repacked v w : forall l buf avail,
  0 < v -> 0 < w -> v + w < 31 -> 0 <= avail < w -> 0 <= buf < 2 ^ avail -> digits (2 ^ v) l ->
  repacked w (horner (2 ^ v) buf l) (avail + v * Z.of_nat (length l)) (repack v w buf avail l).
Proof.
  induction l as [|d l IH]; intros buf avail Hv Hw H31 Ha Hb Hl.
  - simpl. split_and!; try done; try (simpl; lia). by constructor.
  - inversion Hl as [|?? Hd Hl']; subst. simpl repack. rewrite horner_cons. simpl length.
    rewrite (shl_or buf avail v d) by lia.
    pose proof (pow2_split avail v ltac:(lia) ltac:(lia)) as Hs. pose proof (pow2_pos v ltac:(lia)).
    assert (0 <= buf * 2 ^ v + d < 2 ^ (avail + v)) as Hb' by nia.
    pose proof (take_out_repacked w (Z.to_nat (avail + v)) (buf * 2 ^ v + d) (avail + v)
      Hw ltac:(lia) Hb' ltac:(lia)) as Ht.
    destruct (take_out _ w _ _) as [[out buf1] avail1]. destruct Ht as (Hd1 & Hb1 & Ha1 & Hn1 & Hbits1).
    specialize (IH buf1 avail1 Hv Hw H31 Ha1 Hb1 Hl').
    destruct (repack v w buf1 avail1 l) as [[outs buf2] avail2].
    destruct IH as (Hd2 & Hb2 & Ha2 & Hn2 & Hbits2). simpl. split_and!; try done; try lia.
    + by apply Forall_app.
    + rewrite horner_app, (horner_acc _ outs).
      rewrite horner_acc in Hn2 |- *. rewrite Hn1.
      assert (2 ^ avail1 * (2 ^ v) ^ Z.of_nat (length l)
        = (2 ^ w) ^ Z.of_nat (length outs) * 2 ^ avail2) as E.
      { rewrite <- !Z.pow_mul_r, <- !pow2_split by lia. f_equal. lia. }
      rewrite Z.mul_add_distr_r, <- Z.mul_assoc, E. nia.
    + rewrite length_app. lia.
Qed.

(** Digits of a width that divides the whole number of bits come out whole. *)
Lemma repack_whole v w l :
  0 < v -> 0 < w -> v + w < 31 -> digits (2 ^ v) l -> (v * Z.of_nat (length l)) mod w = 0 ->
  exists out, repack v w 0 0 l = (out, 0, 0) /\ digits (2 ^ w) out /\
    horner (2 ^ w) 0 out = horner (2 ^ v) 0 l /\ w * Z.of_nat (length out) = v * Z.of_nat (length l).
Proof.
  intros Hv Hw H31 Hl Hmod.
  pose proof (repack_repacked v w l 0 0 Hv Hw H31 ltac:(lia) ltac:(simpl; lia) Hl) as H.
  destruct (repack v w 0 0 l) as [[out buf] avail]. destruct H as (Hd & Hb & Ha & Hn & Hbits).
  assert (avail = 0) as ->.
  { rewrite Z.add_0_l in Hbits. rewrite Hbits in Hmod.
    rewrite Z.add_comm, Z.mul_comm, Z.mod_add in Hmod by lia. by rewrite Z.mod_small in Hmod. }
  simpl in Hb. assert (buf = 0) as -> by lia. exists out. split_and!; try done; lia.
Qed.

(** Repacking there and back gives the digits one began with. *)
Lemma repack_back v w l :
  0 < v -> 0 < w -> v + w < 31 -> digits (2 ^ v) l -> (v * Z.of_nat (length l)) mod w = 0 ->
  repack w v 0 0 (repack v w 0 0 l).1.1 = (l, 0, 0).
Proof.
  intros Hv Hw H31 Hl Hmod.
  destruct (repack_whole v w l) as (out & -> & Hd & Hn & Hlen); [done..|]. simpl.
  destruct (repack_whole w v out) as (back & -> & Hd' & Hn' & Hlen'); [done..|lia|done| |].
  { by rewrite Hlen, Z.mul_comm, Z.mod_mul by lia. }
  do 2 f_equal. apply (horner_inj (2 ^ v)); [by apply pow2_pos; lia|done..| |congruence]. nia.
Qed.

(** ** Alphabets *)

(** The characters of the digits of a base, and their values. *)
Class Alphabet (base : Z) (char : Z -> string) (value : ascii -> option Z) : Prop := {
  digit_char d : 0 <= d < base -> exists c, char d = String c EmptyString /\ value c = Some d;
  char_digit c d : value c = Some d -> 0 <= d < base /\ char d = String c EmptyString;
}.

Definition text_of (char : Z -> string) (l : list Z) : string := String.concat EmptyString (map char l).

Fixpoint digits_of (value : ascii -> option Z) (s : string) : list Z :=
  match s with
  | EmptyString => []
  | String c t => default 0 (value c) :: digits_of value t
  end.

Definition supported (value : ascii -> option Z) (c : ascii) : bool :=
  match value c with Some _ => true | None => false end.

Lemma text_of_cons char d l : text_of char (d :: l) = char d +:+ text_of char l.
Proof. unfold text_of. simpl. destruct l; [|done]. simpl. symmetry. apply append_nil_r. Qed.

Lemma text_of_app char l k : text_of char (l ++ k) = text_of char l +:+ text_of char k.
Proof.
  induction l as [|d l IH]; [done|]. simpl app. by rewrite !text_of_cons, IH, append_assoc.
Qed.

Lemma append_text_nil char s : s +:+ text_of char [] = s.
Proof. apply append_nil_r. Qed.

Section alphabet.
Context (base : Z) (char : Z -> string) (value : ascii -> option Z) `{!Alphabet base char value}.

Lemma digits_text l : digits base l -> digits_of value (text_of char l) = l /\
  String.length (text_of char l) = length l /\ all_chars (supported value) (text_of char l) = true.
Proof.
  induction 1 as [|d l Hd _ (IH1 & IH2 & IH3)]; [done|].
  destruct (digit_char d Hd) as (c & Hc & Hv). rewrite text_of_cons, Hc. simpl.
  unfold supported at 1. rewrite Hv. simpl. split_and!; [by f_equal|by f_equal|done].
Qed.

Lemma text_digits s : all_chars (supported value) s = true ->
  digits base (digits_of value s) /\ text_of char (digits_of value s) = s /\
  length (digits_of value s) = String.length s.
Proof.
  induction s as [|c t IH]; simpl; [by repeat constructor|].
  intros [Hc Ht]%andb_true_iff. destruct (IH Ht) as (H1 & H2 & H3).
  unfold supported in Hc. destruct (value c) as [d|] eqn:Hd; [|done].
  destruct (char_digit c d Hd) as [Hr Ha]. simpl.
  rewrite text_of_cons, Ha, H2. split_and!; [by constructor|done|by f_equal].
Qed.
End alphabet.
