(* ===== verification/RecoveryKeys.v ===== *)
(** * Recovery codes as text

    [packages/shared-ts/src/utils/emailOtpRecoveryKey.ts]: twenty random bytes as 32
    characters of Crockford's base 32 in groups of four, what a user may type for them,
    and the bytes again; and the issuing of ten codes in
    [packages/shared-ts/src/wallet-recovery/recoveryCodeIssuance.ts]. *)

From S2P Require Import Prelude BitPacking.
Local Open Scope Z_scope.
Local Open Scope js_scope.

Definition EMAIL_OTP_RECOVERY_KEY_COUNT : nat := 10.
Definition EMAIL_OTP_RECOVERY_KEY_BYTE_LENGTH : nat := 20.
Definition EMAIL_OTP_RECOVERY_KEY_CHAR_LENGTH : nat := 32.
Definition EMAIL_OTP_RECOVERY_KEY_GROUP_COUNT : nat := 8.
Definition EMAIL_OTP_RECOVERY_KEY_GROUP_LENGTH : nat := 4.
Definition EMAIL_OTP_RECOVERY_KEY_ALPHABET : string := "0123456789ABCDEFGHJKMNPQRSTVWXYZ".

(** The table from characters to their index in the alphabet. *)
Fixpoint index_in (c : ascii) (index : Z) (s : string) : option Z :=
  match s with
  | EmptyString => None
  | String a t => if bool_decide (a = c) then Some index else index_in c (index + 1) t
  end.

Definition RECOVERY_KEY_DECODE (c : ascii) : option Z := index_in c 0 EMAIL_OTP_RECOVERY_KEY_ALPHABET.

Definition isDecimalOnly (value : string) : bool := nonempty value && all_chars is_digit value.

(** [EMAIL_OTP_RECOVERY_KEY_ALPHABET[i]] as it is appended to a text. *)
Definition alphabet_char (i : Z) : string :=
  match String.get (Z.to_nat i) EMAIL_OTP_RECOVERY_KEY_ALPHABET with
  | Some c => String c EmptyString
  | None => "undefined"
  end.

(** The inner [while]: five bits at a time while there are five. *)
Fixpoint emit_chars (fuel : nat) (bitBuffer bitsAvailable : Z) (normalized : string) : Z * Z * string :=
  match fuel with
  | O => (bitBuffer, bitsAvailable, normalized)
  | S fuel =>
      if 5 <=? bitsAvailable then
        let bitsAvailable := bitsAvailable - 5 in
        let normalized := normalized +:+ alphabet_char (js_and (js_sar bitBuffer bitsAvailable) 31) in
        emit_chars fuel (js_and bitBuffer (js_shl 1 bitsAvailable - 1)) bitsAvailable normalized
      else (bitBuffer, bitsAvailable, normalized)
  end.

Fixpoint encode_bytes (bytes : list Z) (bitBuffer bitsAvailable : Z) (normalized : string) : string :=
  match bytes with
  | [] => normalized
  | b :: bytes =>
      let bitBuffer := js_or (js_shl bitBuffer 8) b in
      let bitsAvailable := bitsAvailable + 8 in
      let '(bitBuffer, bitsAvailable, normalized) :=
        emit_chars (Z.to_nat bitsAvailable) bitBuffer bitsAvailable normalized in
      encode_bytes bytes bitBuffer bitsAvailable normalized
  end.

Definition encodeEmailOtpRecoveryKeyBytes (bytes : list Z) : Result string :=
  if negb (length bytes =? EMAIL_OTP_RECOVERY_KEY_BYTE_LENGTH)%nat
  then Throw (JsError "Email OTP recovery key bytes must be exactly 20 bytes")
  else Ok (encode_bytes bytes 0 0 EmptyString).

(** [replace(/[\s-]/g, '')]. *)
Fixpoint strip_separators (s : string) : string :=
  match s with
  | EmptyString => EmptyString
  | String a t => if is_js_space a || bool_decide (a = "-"%char) then strip_separators t
                  else String a (strip_separators t)
  end.

(** [toUpperCase].  The sharp s becomes two letters; the two letters of Latin-1 whose
    upper case is outside of it ([ÿ] and [µ]) stay, and are in no recovery code either way. *)
Fixpoint to_upper (s : string) : string :=
  match s with
  | EmptyString => EmptyString
  | String a t =>
      let n := N_of_ascii a in
      if (((97 <=? n) && (n <=? 122)) || ((224 <=? n) && (n <=? 254) && negb (n =? 247)))%N
      then String (ascii_of_N (n - 32)) (to_upper t)
      else if (n =? 223)%N then "SS" +:+ to_upper t
      else String a (to_upper t)
  end.

Definition supported_char (c : ascii) : bool := supported RECOVERY_KEY_DECODE c.

Definition normalizeEmailOtpRecoveryKey (input : string) : Result string :=
  let normalized := to_upper (strip_separators input) in
  if negb (String.length normalized =? EMAIL_OTP_RECOVERY_KEY_CHAR_LENGTH)%nat
  then Throw (JsError "Email OTP recovery key must be 32 Crockford Base32 characters")
  else if isDecimalOnly normalized
  then Throw (JsError "Email OTP recovery key must not be decimal-only")
  else if negb (all_chars supported_char normalized)
  then Throw (JsError "Email OTP recovery key contains unsupported characters")
  else Ok normalized.

Fixpoint slice_groups (count : nat) (offset : nat) (normalized : string) : list string :=
  match count with
  | O => []
  | S count =>
      String.substring offset EMAIL_OTP_RECOVERY_KEY_GROUP_LENGTH normalized
        :: slice_groups count (offset + EMAIL_OTP_RECOVERY_KEY_GROUP_LENGTH) normalized
  end.

Definition formatEmailOtpRecoveryKey (normalizedKey : string) : Result string :=
  let* normalized := normalizeEmailOtpRecoveryKey normalizedKey in
  Ok (join "-" (slice_groups EMAIL_OTP_RECOVERY_KEY_GROUP_COUNT 0 normalized)).

Fixpoint result_map {A B} (f : A -> Result B) (l : list A) : Result (list B) :=
  match l with
  | [] => Ok []
  | a :: l => let* b := f a in let* bs := result_map f l in Ok (b :: bs)
  end.

Definition buildEmailOtpRecoveryCodeSet (keys : list string) : Result (list string) :=
  if negb (length keys =? EMAIL_OTP_RECOVERY_KEY_COUNT)%nat
  then Throw (JsError "Email OTP recovery code set must contain 10 keys")
  else result_map formatEmailOtpRecoveryKey keys.

(** The decoding loop; a typed array ignores a write past its end and keeps the low
    eight bits of what is written. *)
Fixpoint decode_chars (chars : string) (out : list Z) (offset : nat) (bitBuffer bitsAvailable : Z) : list Z :=
  match chars with
  | EmptyString => out
  | String c chars =>
      let bitBuffer := js_or (js_shl bitBuffer 5) (default 0 (RECOVERY_KEY_DECODE c)) in
      let bitsAvailable := bitsAvailable + 5 in
      if 8 <=? bitsAvailable then
        let bitsAvailable := bitsAvailable - 8 in
        let out := <[offset := js_and (js_sar bitBuffer bitsAvailable) 255 mod 256]> out in
        decode_chars chars out (S offset) (js_and bitBuffer (js_shl 1 bitsAvailable - 1)) bitsAvailable
      else decode_chars chars out offset bitBuffer bitsAvailable
  end.

Definition decodeEmailOtpRecoveryKey (input : string) : Result (list Z) :=
  let* normalized := normalizeEmailOtpRecoveryKey input in
  Ok (decode_chars normalized (replicate EMAIL_OTP_RECOVERY_KEY_BYTE_LENGTH 0) 0 0 0).

(** [issueWalletRecoveryCodes]; the argument is what the random source draws. *)
Definition issue_code (bytes : list Z) : Result string :=
  let* key := encodeEmailOtpRecoveryKeyBytes bytes in formatEmailOtpRecoveryKey key.

Definition issueWalletRecoveryCodes (randomCodeBytes : nat -> list Z) : Result (list string * list (list Z)) :=
  let codeBytes := map randomCodeBytes (seq 0 EMAIL_OTP_RECOVERY_KEY_COUNT) in
  let* codes := result_map issue_code codeBytes in Ok (codes, codeBytes).

(** ** Characters and digits *)

Local Notation text_of := (BitPacking.text_of alphabet_char).
Local Notation digits_of := (BitPacking.digits_of RECOVERY_KEY_DECODE).

Definition digit_chars_ok : bool :=
  forallb (fun n => match alphabet_char (Z.of_nat n) with
    | String c EmptyString => bool_decide (RECOVERY_KEY_DECODE c = Some (Z.of_nat n))
    | _ => false end) (seq 0 32).

Lemma alphabet_digit d : 0 <= d < 32 -> exists c, alphabet_char d = String c EmptyString /\
  RECOVERY_KEY_DECODE c = Some d.
Proof.
  intros Hd. assert (digit_chars_ok = true) as H by by vm_compute.
  unfold digit_chars_ok in H. rewrite forallb_forall in H.
  specialize (H (Z.to_nat d)). rewrite in_seq, Z2Nat.id in H by lia.
  specialize (H ltac:(lia)). destruct (alphabet_char d) as [|c [|]]; try done.
  exists c. split; [done|]. by apply bool_decide_eq_true in H.
Qed.

Lemma index_in_spec c : forall s i d, index_in c i s = Some d ->
  exists n, d = i + Z.of_nat n /\ String.get n s = Some c.
Proof.
  induction s as [|a t IH]; intros i d; simpl; [done|]. case_bool_decide as Ha.
  - intros [= <-]. exists 0%nat. split; [lia|]. by subst.
  - intros (n & -> & Hn)%IH. exists (S n). split; [lia|done].
Qed.

Lemma decode_digit c d : RECOVERY_KEY_DECODE c = Some d -> 0 <= d < 32 /\ alphabet_char d = String c EmptyString.
Proof.
  intros (n & -> & Hn)%index_in_spec. unfold alphabet_char. rewrite Z.add_0_l, Nat2Z.id, Hn. split; [|done].
  enough (n < 32)%nat by lia. destruct (Nat.lt_ge_cases n 32) as [?|Hge]; [done|].
  exfalso. revert Hn. clear -Hge. unfold EMAIL_OTP_RECOVERY_KEY_ALPHABET.
  do 32 (destruct n as [|n]; [lia|]). by destruct n.
Qed.

#[global] Instance crockford : Alphabet 32 alphabet_char RECOVERY_KEY_DECODE.
Proof. split; [apply alphabet_digit|apply decode_digit]. Qed.

(** ** The loops are repacking *)

Lemma emit_chars_take fuel : forall buf avail s,
  let '(out, buf', avail') := take_out fuel 5 buf avail in
  emit_chars fuel buf avail s = (buf', avail', s +:+ text_of out).
Proof.
  induction fuel as [|fuel IH]; intros buf avail s; simpl take_out; simpl emit_chars.
  - cbv beta iota. by rewrite append_text_nil.
  - destruct (5 <=? avail); cbv beta iota; [|by rewrite append_text_nil].
    specialize (IH (js_and buf (js_shl 1 (avail - 5) - 1)) (avail - 5)
      (s +:+ alphabet_char (js_and (js_sar buf (avail - 5)) 31))).
    destruct (take_out fuel 5 _ (avail - 5)) as [[out buf'] avail']. rewrite IH.
    by rewrite text_of_cons, append_assoc.
Qed.

Lemma encode_bytes_repack bytes : forall buf avail s,
  encode_bytes bytes buf avail s = s +:+ text_of (repack 8 5 buf avail bytes).1.1.
Proof.
  induction bytes as [|b bytes IH]; intros buf avail s; simpl encode_bytes; simpl repack.
  - by rewrite append_text_nil.
  - pose proof (emit_chars_take (Z.to_nat (avail + 8)) (js_or (js_shl buf 8) b) (avail + 8) s) as H.
    destruct (take_out _ 5 _ _) as [[out buf'] avail']. rewrite H, IH.
    destruct (repack 8 5 buf' avail' bytes) as [[outs buf2] avail2]. simpl.
    by rewrite text_of_app, append_assoc.
Qed.

(** With at most twelve bits, one digit of eight bits comes out or none. *)
Lemma take_out_once buf avail :
  0 <= avail < 16 ->
  take_out (Z.to_nat avail) 8 buf avail =
    if 8 <=? avail then
      ([js_and (js_sar buf (avail - 8)) 255], js_and buf (js_shl 1 (avail - 8) - 1), avail - 8)
    else ([], buf, avail).
Proof.
  intros Ha. destruct (Z.leb_spec 8 avail) as [Hle|Hgt].
  - assert (Z.to_nat avail = S (Z.to_nat (avail - 1))) as -> by lia. cbn [take_out].
    destruct (Z.leb_spec 8 avail); [|lia].
    assert (forall fuel b, take_out fuel 8 b (avail - 8) = ([], b, avail - 8)) as ->; [|done].
    intros [|fuel] b; simpl; [done|]. destruct (Z.leb_spec 8 (avail - 8)); [lia|done].
  - destruct (Z.to_nat avail) as [|n]; [done|]. cbn [take_out]. by destruct (Z.leb_spec 8 avail); [lia|].
Qed.

(** The decoding loop fills the array with the digits of eight bits as they come out. *)
Lemma decode_chars_repack s : forall dn rest buf avail,
  0 <= avail < 8 -> 0 <= buf < 2 ^ avail -> all_chars supported_char s = true ->
  length (repack 5 8 buf avail (digits_of s)).1.1 = length rest ->
  decode_chars s (dn ++ rest) (length dn) buf avail =
    dn ++ (repack 5 8 buf avail (digits_of s)).1.1.
Proof.
  induction s as [|c s IH]; intros dn rest buf avail Ha Hb Hs.
  - simpl. intros Hlen. by destruct rest.
  - simpl in Hs. apply andb_true_iff in Hs as [Hc Hs]. unfold supported_char, supported in Hc.
    destruct (RECOVERY_KEY_DECODE c) as [d|] eqn:Hd; [|done].
    destruct (decode_digit _ _ Hd) as [Hr _].
    simpl digits_of. rewrite Hd. simpl default. cbn [repack decode_chars]. rewrite Hd. cbn [default]. unfold id.
    rewrite take_out_once by lia.
    rewrite !(shl_or buf avail 5 d) by (try lia; change (2 ^ 5) with 32; lia).
    change (2 ^ 5) with 32.
    pose proof (pow2_split avail 5 ltac:(lia) ltac:(lia)) as Hsplit. change (2 ^ 5) with 32 in Hsplit.
    assert (0 <= buf * 32 + d < 2 ^ (avail + 5)) as Hb' by nia.
    destruct (Z.leb_spec 8 (avail + 5)) as [Hle|Hgt].
    + set (digit := js_and (js_sar (buf * 32 + d) (avail + 5 - 8)) 255).
      assert (digit mod 256 = digit) as Hdig.
      { apply Z.mod_small. unfold digit. change 255 with (2 ^ 8 - 1).
        rewrite sar_mask by (try lia; by replace (avail + 5 - 8 + 8) with (avail + 5) by lia).
        split; [by apply Z.div_pos; [lia|apply pow2_pos; lia]|].
        apply Z.div_lt_upper_bound; [apply pow2_pos; lia|].
        change 256 with (2 ^ 8). rewrite <- pow2_split by lia.
        replace (avail + 5 - 8 + 8) with (avail + 5) by lia. lia. }
      rewrite Hdig.
      specialize (IH (dn ++ [digit])). rewrite length_app in IH. simpl in IH.
      destruct (repack 5 8 (js_and (buf * 32 + d) (js_shl 1 (avail + 5 - 8) - 1)) (avail + 5 - 8) (digits_of s))
        as [[outs buf2] avail2] eqn:Er. simpl. intros Hlen. destruct rest as [|x rest]; [done|].
      simpl in Hlen. injection Hlen as Hlen.
      rewrite insert_app_r_alt, Nat.sub_diag by lia. simpl.
      specialize (IH rest (js_and (buf * 32 + d) (js_shl 1 (avail + 5 - 8) - 1)) (avail + 5 - 8)).
      rewrite Er, <- !app_assoc in IH. simpl in IH.
      replace (S (length dn)) with (length dn + 1)%nat by lia. apply IH; [lia| |done|done].
      rewrite (and_low _ _ 8) by (try lia; by replace (avail + 5 - 8 + 8) with (avail + 5) by lia).
      apply Z.mod_pos_bound, pow2_pos. lia.
    + specialize (IH dn rest (buf * 32 + d) (avail + 5)).
      destruct (repack 5 8 (buf * 32 + d) (avail + 5) (digits_of s)) as [[outs buf2] avail2] eqn:Er.
      simpl in *. intros Hlen. apply IH; [lia|done..].
Qed.

(** ** Groups and what a user may type *)

Lemma supported_plain c : supported_char c = true ->
  is_js_space c = false /\ c <> "-"%char /\ to_upper (String c EmptyString) = String c EmptyString.
Proof. destruct c as [[] [] [] [] [] [] [] []]; vm_compute; naive_solver. Qed.

Lemma to_upper_cons c t :
  supported_char c = true -> to_upper (String c t) = String c (to_upper t).
Proof.
  intros (_ & _ & H)%supported_plain. simpl in H |- *. case_match; [|case_match].
  - by injection H as ->.
  - done.
  - done.
Qed.

Lemma upper_supported s : all_chars supported_char s = true -> to_upper s = s.
Proof.
  induction s as [|c t IH]; [done|]. intros [Hc Ht]%andb_true_iff. by rewrite to_upper_cons, IH.
Qed.

Lemma strip_app s t : strip_separators (s +:+ t) = strip_separators s +:+ strip_separators t.
Proof.
  induction s as [|a s IH]; [done|]. change (String a s +:+ t) with (String a (s +:+ t)).
  simpl. rewrite IH. by destruct (_ || _).
Qed.

Lemma strip_supported s : all_chars supported_char s = true -> strip_separators s = s.
Proof.
  induction s as [|c t IH]; [done|]. intros [Hc Ht]%andb_true_iff.
  destruct (supported_plain c Hc) as (Hs & Hm & _). simpl.
  rewrite Hs, bool_decide_false by done. simpl. by rewrite IH.
Qed.

Lemma strip_join l : Forall (fun s => all_chars supported_char s = true) l ->
  strip_separators (join "-" l) = String.concat EmptyString l.
Proof.
  induction 1 as [|s l Hs Hl IH]; [done|]. destruct l as [|s' l].
  - by apply strip_supported.
  - change (join "-" (s :: s' :: l)) with (s +:+ "-" +:+ join "-" (s' :: l)).
    rewrite !strip_app, IH, strip_supported by done. done.
Qed.

Lemma substring_split s : forall off a b,
  String.substring off (a + b) s = String.substring off a s +:+ String.substring (off + a) b s.
Proof.
  induction s as [|c t IH]; intros off a b.
  - by destruct off, a.
  - destruct off as [|off]; [|apply IH]. destruct a as [|a]; [done|]. 
    change (String c (String.substring 0 (a + b) t)
      = String c (String.substring 0 a t +:+ String.substring (0 + a) b t)). f_equal. apply IH.
Qed.

Lemma substring_all s : String.substring 0 (String.length s) s = s.
Proof. induction s as [|c t IH]; [done|]. simpl. by f_equal. Qed.

Lemma all_chars_substring p s : forall off len,
  all_chars p s = true -> all_chars p (String.substring off len s) = true.
Proof.
  induction s as [|c t IH]; intros off len H; [by destruct off, len|].
  simpl in H. apply andb_true_iff in H as [Hc Ht]. destruct off as [|off]; [|by apply IH].
  destruct len as [|len]; [done|]. simpl. by rewrite Hc, IH.
Qed.

Lemma substring_none s : forall off, String.substring off 0 s = EmptyString.
Proof. induction s as [|c t IH]; intros [|off]; simpl; auto. Qed.

Lemma concat_cons s l : String.concat EmptyString (s :: l) = s +:+ String.concat EmptyString l.
Proof. destruct l; [|done]. simpl. symmetry. apply append_nil_r. Qed.

Lemma slice_groups_concat s n : forall off,
  String.concat EmptyString (slice_groups n off s) = String.substring off (4 * n) s.
Proof.
  induction n as [|n IH]; intros off; [by rewrite substring_none|].
  cbn [slice_groups]. rewrite concat_cons, IH. replace (4 * S n)%nat with (4 + 4 * n)%nat by lia.
  by rewrite substring_split.
Qed.

Lemma slice_groups_supported s n : forall off, all_chars supported_char s = true ->
  Forall (fun g => all_chars supported_char g = true) (slice_groups n off s).
Proof.
  induction n as [|n IH]; intros off Hs; constructor; [by apply all_chars_substring|by apply IH].
Qed.

(** A normalised key: 32 characters of the alphabet, not all of them decimal digits. *)
Definition key_ok (k : string) : bool :=
  (String.length k =? EMAIL_OTP_RECOVERY_KEY_CHAR_LENGTH)%nat && negb (isDecimalOnly k)
  && all_chars supported_char k.

Lemma normalize_spec input k :
  normalizeEmailOtpRecoveryKey input = Ok k <-> k = to_upper (strip_separators input) /\ key_ok k = true.
Proof.
  unfold normalizeEmailOtpRecoveryKey, key_ok. set (n := to_upper (strip_separators input)).
  destruct (String.length n =? _)%nat eqn:H1; simpl; [destruct (isDecimalOnly n) eqn:H2; simpl;
    [|destruct (all_chars supported_char n) eqn:H3; simpl]|].
  all: split; [intros [=]|intros [-> Hk]]; subst;
    rewrite ?H1, ?H2, ?H3 in *; simpl in *; try done.
Qed.

Lemma key_ok_supported k : key_ok k = true -> all_chars supported_char k = true /\ String.length k = 32%nat.
Proof. unfold key_ok. intros [[H1%Nat.eqb_eq _]%andb_true_iff H2]%andb_true_iff. done. Qed.

Lemma normalize_key k : key_ok k = true -> normalizeEmailOtpRecoveryKey k = Ok k.
Proof.
  intros Hk. apply normalize_spec. destruct (key_ok_supported k Hk) as [Hs _].
  by rewrite strip_supported, upper_supported.
Qed.

Lemma format_key k : key_ok k = true -> exists code,
  formatEmailOtpRecoveryKey k = Ok code /\ strip_separators code = k.
Proof.
  intros Hk. destruct (key_ok_supported k Hk) as [Hs Hlen].
  unfold formatEmailOtpRecoveryKey. rewrite (normalize_key k Hk). eexists. split; [done|].
  rewrite strip_join by by apply slice_groups_supported. rewrite slice_groups_concat.
  change (4 * EMAIL_OTP_RECOVERY_KEY_GROUP_COUNT)%nat with 32%nat. rewrite <- Hlen. apply substring_all.
Qed.

(** ** The code of twenty bytes *)

Definition code_bytes (bytes : list Z) : Prop :=
  digits 256 bytes /\ length bytes = EMAIL_OTP_RECOVERY_KEY_BYTE_LENGTH.

(** The key of some bytes, and the bytes of a key. *)
Definition key_of_bytes (bytes : list Z) : string := text_of (repack 8 5 0 0 bytes).1.1.
Definition bytes_of_key (k : string) : list Z := (repack 5 8 0 0 (digits_of k)).1.1.

Lemma encode_key bytes : code_bytes bytes ->
  encodeEmailOtpRecoveryKeyBytes bytes = Ok (key_of_bytes bytes) /\
  all_chars supported_char (key_of_bytes bytes) = true /\ String.length (key_of_bytes bytes) = 32%nat /\
  bytes_of_key (key_of_bytes bytes) = bytes.
Proof.
  intros [Hd Hlen]. unfold encodeEmailOtpRecoveryKeyBytes, key_of_bytes, bytes_of_key. rewrite Hlen. simpl negb.
  cbv iota. rewrite encode_bytes_repack.
  destruct (repack_whole 8 5 bytes) as (out & Hout & Ho & _ & Hl); try lia; [done|by rewrite Hlen|].
  pose proof (repack_back 8 5 bytes ltac:(lia) ltac:(lia) ltac:(lia) Hd ltac:(by rewrite Hlen)) as Hback.
  rewrite Hout in Hback |- *. simpl in Hback |- *.
  destruct (digits_text 32 alphabet_char RECOVERY_KEY_DECODE out Ho) as (E1 & E2 & E3). rewrite E1, Hback.
  split_and!; [done|done| |done]. rewrite E2. rewrite Hlen in Hl. unfold EMAIL_OTP_RECOVERY_KEY_BYTE_LENGTH in Hl. lia.
Qed.

Lemma decode_key k : all_chars supported_char k = true -> String.length k = 32%nat ->
  decode_chars k (replicate EMAIL_OTP_RECOVERY_KEY_BYTE_LENGTH 0) 0 0 0 = bytes_of_key k /\
  code_bytes (bytes_of_key k) /\ key_of_bytes (bytes_of_key k) = k.
Proof.
  intros Hs Hlen. destruct (text_digits 32 alphabet_char RECOVERY_KEY_DECODE k Hs) as (Hd & Ht & Hl). rewrite Hlen in Hl.
  unfold bytes_of_key, key_of_bytes, code_bytes.
  destruct (repack_whole 5 8 (digits_of k)) as (out & Hout & Ho & _ & Hn); try lia; [done|by rewrite Hl|].
  pose proof (repack_back 5 8 (digits_of k) ltac:(lia) ltac:(lia) ltac:(lia) Hd ltac:(by rewrite Hl)) as Hback.
  rewrite Hout in Hback |- *. simpl in Hback |- *. rewrite Hback. simpl.
  rewrite Hl in Hn. assert (length out = 20%nat) as Hlo by lia.
  pose proof (decode_chars_repack k [] (replicate 20 0) 0 0 ltac:(lia) ltac:(simpl; lia) Hs) as Hdec.
  rewrite Hout in Hdec. simpl in Hdec. split_and!; [|done|done|done]. by apply Hdec.
Qed.

Lemma decode_typed typed k :
  to_upper (strip_separators typed) = k -> key_ok k = true ->
  decodeEmailOtpRecoveryKey typed = Ok (bytes_of_key k).
Proof.
  intros Ht Hk. unfold decodeEmailOtpRecoveryKey.
  rewrite (proj2 (normalize_spec typed k)) by done.
  destruct (key_ok_supported k Hk) as [Hs Hl]. cbn [result_bind].
  by destruct (decode_key k Hs Hl) as (-> & _).
Qed.

Lemma recovery_code_of_bytes bytes : code_bytes bytes ->
  exists k, encodeEmailOtpRecoveryKeyBytes bytes = Ok k /\
    if isDecimalOnly k
    then formatEmailOtpRecoveryKey k = Throw (JsError "Email OTP recovery key must not be decimal-only")
    else exists code, formatEmailOtpRecoveryKey k = Ok code /\
      to_upper (strip_separators code) = k /\
      forall typed, to_upper (strip_separators typed) = k ->
        decodeEmailOtpRecoveryKey typed = Ok bytes.
Proof.
  intros Hb. destruct (encode_key bytes Hb) as (-> & Hs & Hl & Hback). eexists. split; [done|].
  set (k := key_of_bytes bytes) in *. destruct (isDecimalOnly k) eqn:Hdec.
  - unfold formatEmailOtpRecoveryKey, normalizeEmailOtpRecoveryKey.
    rewrite strip_supported, upper_supported, Hl, Hdec by done. done.
  - assert (key_ok k = true) as Hk by by (unfold key_ok; rewrite Hl, Hdec, Hs).
    destruct (format_key k Hk) as (code & Hf & Hstrip). exists code.
    split_and!; [done|by rewrite Hstrip, upper_supported|].
    intros typed Ht. by rewrite (decode_typed typed k Ht Hk), Hback.
Qed.

Lemma recovery_bytes_of_code typed bytes :
  decodeEmailOtpRecoveryKey typed = Ok bytes ->
  code_bytes bytes /\
  exists k, normalizeEmailOtpRecoveryKey typed = Ok k /\ encodeEmailOtpRecoveryKeyBytes bytes = Ok k.
Proof.
  unfold decodeEmailOtpRecoveryKey.
  destruct (normalizeEmailOtpRecoveryKey typed) as [k|] eqn:Hn; [|done]. cbn [result_bind].
  apply normalize_spec in Hn as [_ Hk]. destruct (key_ok_supported k Hk) as [Hs Hl].
  destruct (decode_key k Hs Hl) as (-> & Hcb & Hkey). intros [= <-]. split; [done|]. exists k. split; [done|].
  by rewrite (proj1 (encode_key _ Hcb)), Hkey.
Qed.

Lemma result_map_ok {A B} (f : A -> Result B) l bs :
  result_map f l = Ok bs -> Forall2 (fun a b => f a = Ok b) l bs.
Proof.
  revert bs. induction l as [|a l IH]; intros bs; simpl; [by intros [= <-]|].
  destruct (f a) as [b|] eqn:Ha; [|done]. simpl. destruct (result_map f l) as [bs'|]; [|done].
  simpl. intros [= <-]. constructor; auto.
Qed.

Lemma issue_decode bytes code : code_bytes bytes -> issue_code bytes = Ok code ->
  decodeEmailOtpRecoveryKey code = Ok bytes.
Proof.
  intros Hb. unfold issue_code. destruct (recovery_code_of_bytes bytes Hb) as (k & -> & Hk).
  cbn [result_bind]. destruct (isDecimalOnly k); [by rewrite Hk|].
  destruct Hk as (code' & -> & Hc & Hd). intros [= <-]. by apply Hd.
Qed.

(** The codes that are issued decode to the bytes that are wrapped, in the same order. *)
Lemma issued_codes_decode random codes codeBytes :
  (forall n, code_bytes (random n)) ->
  issueWalletRecoveryCodes random = Ok (codes, codeBytes) ->
  length codes = EMAIL_OTP_RECOVERY_KEY_COUNT /\
  Forall2 (fun bytes code => decodeEmailOtpRecoveryKey code = Ok bytes) codeBytes codes.
Proof.
  intros Hr. unfold issueWalletRecoveryCodes. set (l := map random _).
  assert (length l = EMAIL_OTP_RECOVERY_KEY_COUNT) as Hlen by done.
  assert (Forall code_bytes l) as Hl by by (apply Forall_map, Forall_true).
  clearbody l. cbv zeta. destruct (result_map issue_code l) as [cs|] eqn:H; [|done].
  cbn [result_bind]. intros [= <- <-]. apply result_map_ok in H.
  split; [by rewrite <- (Forall2_length _ _ _ H)|]. clear Hlen.
  induction H; inversion Hl; subst; constructor; [by apply issue_decode|auto].
Qed.

(** Codes and bytes are the same thing.  Twenty bytes have a key, and unless that is all
    decimal digits, which is refused, it is shown as a code; the code, and whatever a
    user types that differs from it in case, white space and dashes only, decodes to
    those bytes.  And what is accepted at all is such a text: it decodes to twenty
    bytes whose key is the text in its normal form. *)
Theorem recovery_code_roundtrip :
  (forall bytes, code_bytes bytes ->
     exists k, encodeEmailOtpRecoveryKeyBytes bytes = Ok k /\
       if isDecimalOnly k
       then formatEmailOtpRecoveryKey k = Throw (JsError "Email OTP recovery key must not be decimal-only")
       else exists code, formatEmailOtpRecoveryKey k = Ok code /\
         to_upper (strip_separators code) = k /\
         forall typed, to_upper (strip_separators typed) = k ->
           decodeEmailOtpRecoveryKey typed = Ok bytes) /\
  (forall typed bytes, decodeEmailOtpRecoveryKey typed = Ok bytes ->
     code_bytes bytes /\
     exists k, normalizeEmailOtpRecoveryKey typed = Ok k /\ encodeEmailOtpRecoveryKeyBytes bytes = Ok k).
Proof. split; [apply recovery_code_of_bytes|apply recovery_bytes_of_code]. Qed.

(** Lower case, spaces and dashes make no difference. *)
Example typed_code :
  decodeEmailOtpRecoveryKey " 0123-4567-89ab cdef GHJK-mnpq-rstv-wxyz " =
    decodeEmailOtpRecoveryKey "0123456789ABCDEFGHJKMNPQRSTVWXYZ".
Proof. vm_compute. reflexivity. Qed.
