(* ===== verification/JsValues.v ===== *)
(** * Values that cross a boundary

    The [unknown] values that stored rows, RPC results and configuration bring
    in, the coercions of the language on them, and the normalisers of
    [shared-ts/src/utils/normalize.ts], [shared-ts/src/utils/domainIds.ts] and
    [nonce/nonceUtils.ts] that turn them into checked data. *)

From S2P Require Import Prelude.
From Stdlib Require Import DecimalString.
Local Open Scope Z_scope.

(** A [number].  [NInt z] is an integral value (below 10^21 in magnitude, where
    its string form is its decimal form), [NFraction floor printed] a
    finite one that is not integral. *)
Inductive NumVal : Type :=
| NInt (z : Z)
| NFraction (floor : Z) (printed : string)
| NNaN
| NInfinity (negative : bool).

Inductive JsVal : Type :=
| JUndefined
| JNull
| JBool (b : bool)
| JNumber (n : NumVal)
| JBigInt (z : Z)
| JString (s : string)
| JArray (elems : list JsVal)
| JObject (fields : list (string * JsVal)).

(** [value.key] and [Reflect.get(value, key)]. *)
Definition jget (key : string) (v : JsVal) : JsVal :=
  match v with
  | JObject fields => default JUndefined (mget key fields)
  | _ => JUndefined
  end.

Definition is_nullish (v : JsVal) : bool :=
  match v with JUndefined | JNull => true | _ => false end.

(** [a ?? b]. *)
Definition coalesce (a b : JsVal) : JsVal := if is_nullish a then b else a.

Definition truthy (v : JsVal) : bool :=
  match v with
  | JUndefined | JNull => false
  | JBool b => b
  | JNumber (NInt z) => negb (z =? 0)
  | JNumber NNaN => false
  | JNumber _ => true
  | JBigInt z => negb (z =? 0)
  | JString s => nonempty s
  | JArray _ | JObject _ => true
  end.

(** [String(value)]. *)
Fixpoint js_String (v : JsVal) : string :=
  match v with
  | JUndefined => "undefined"
  | JNull => "null"
  | JBool true => "true"
  | JBool false => "false"
  | JNumber (NInt z) => Z_to_string z
  | JNumber (NFraction _ printed) => printed
  | JNumber NNaN => "NaN"
  | JNumber (NInfinity false) => "Infinity"
  | JNumber (NInfinity true) => "-Infinity"
  | JBigInt z => Z_to_string z
  | JString s => s
  | JArray elems =>
      join "," (map (fun e => if is_nullish e then EmptyString else js_String e) elems)
  | JObject _ => "[object Object]"
  end.

(** *** [Number(text)]

    Decimal literals are valued exactly, without the rounding to 53 bits. *)

Fixpoint take_digits (acc : Z) (count : nat) (s : string) : Z * nat * string :=
  match s with
  | String a t =>
      if is_digit a
      then take_digits (acc * 10 + (Z.of_N (N_of_ascii a) - 48)) (S count) t
      else (acc, count, s)
  | EmptyString => (acc, count, s)
  end.

(** The exponent part of a decimal literal: [None] when it is malformed. *)
Definition parse_exponent (s : string) : option Z :=
  match s with
  | EmptyString => Some 0
  | String "e"%char t | String "E"%char t =>
      match t with
      | String "+"%char d => parse_digits d
      | String "-"%char d => Z.opp <$> parse_digits d
      | d => parse_digits d
      end
  | _ => None
  end.

Definition num_of_scaled (printed : string) (m e : Z) : NumVal :=
  if 0 <=? e then NInt (m * 10 ^ e)
  else if m mod 10 ^ (- e) =? 0 then NInt (m / 10 ^ (- e))
  else NFraction (m / 10 ^ (- e)) printed.

Definition parse_decimal_literal (printed : string) (sign : Z) (s : string) : NumVal :=
  if bool_decide (s = "Infinity") then NInfinity (sign <? 0) else
  let '(int, n_int, rest) := take_digits 0 0 s in
  let '(m, n_frac, rest) :=
    match rest with
    | String "."%char t => take_digits int 0 t
    | _ => (int, 0%nat, rest)
    end in
  if (n_int + n_frac =? 0)%nat then NNaN else
  match parse_exponent rest with
  | Some e => num_of_scaled printed (sign * m) (e - Z.of_nat n_frac)
  | None => NNaN
  end.

Definition int_or_nan (o : option Z) : NumVal :=
  match o with Some z => NInt z | None => NNaN end.

Definition Number_of_string (s : string) : NumVal :=
  let t := trim s in
  match t with
  | EmptyString => NInt 0
  | String "0"%char (String "x"%char h) | String "0"%char (String "X"%char h) =>
      int_or_nan (parse_radix 16 h)
  | String "0"%char (String "o"%char h) | String "0"%char (String "O"%char h) =>
      int_or_nan (parse_radix 8 h)
  | String "0"%char (String "b"%char h) | String "0"%char (String "B"%char h) =>
      int_or_nan (parse_radix 2 h)
  | String "+"%char d => parse_decimal_literal t 1 d
  | String "-"%char d => parse_decimal_literal t (-1) d
  | d => parse_decimal_literal t 1 d
  end.

(** [Number(value)]; an object is converted through its string form. *)
Definition js_Number (v : JsVal) : NumVal :=
  match v with
  | JUndefined => NNaN
  | JNull => NInt 0
  | JBool b => NInt (if b then 1 else 0)
  | JNumber n => n
  | JBigInt z => NInt z
  | JString s => Number_of_string s
  | JArray _ | JObject _ => Number_of_string (js_String v)
  end.

(** [Number.isSafeInteger]. *)
Definition safe_integer_value (n : NumVal) : option Z :=
  match n with
  | NInt z => if is_safe_integer z then Some z else None
  | _ => None
  end.

Definition isSafeInteger (v : JsVal) : bool :=
  match v with
  | JNumber n => match safe_integer_value n with Some _ => true | None => false end
  | _ => false
  end.

(** [Math.floor] of a finite number. *)
Definition js_floor (n : NumVal) : option Z :=
  match n with
  | NInt z => Some z
  | NFraction f _ => Some f
  | NNaN | NInfinity _ => None
  end.

(** [Math.trunc] of a finite number. *)
Definition js_trunc (n : NumVal) : option Z :=
  match n with
  | NInt z => Some z
  | NFraction f _ => Some (if f <? 0 then f + 1 else f)
  | NNaN | NInfinity _ => None
  end.

(** The delay of a timer: [setTimeout] takes a 32-bit integer, and a negative one
    counts as zero. *)
Definition setTimeout_delay (ms : Z) : Z :=
  Z.max 0 ((ms + 2 ^ 31) mod 2 ^ 32 - 2 ^ 31).

(** [encodeURIComponent] on Latin-1 text: a unit that is not unreserved becomes the
    percent-encoded bytes of its UTF-8 form. *)
Definition upper_hex (n : N) : ascii :=
  ascii_of_N (if n <? 10 then 48 + n else 55 + n)%N.

Definition percent_byte (n : N) : string :=
  String "%"%char (String (upper_hex (n / 16)%N) (String (upper_hex (n mod 16)%N) EmptyString)).

Definition uri_unreserved (a : ascii) : bool :=
  let n := N_of_ascii a in
  ((48 <=? n) && (n <=? 57) || (65 <=? n) && (n <=? 90) || (97 <=? n) && (n <=? 122)
   || (n =? 45) || (n =? 95) || (n =? 46) || (n =? 33) || (n =? 126) || (n =? 42)
   || (n =? 39) || (n =? 40) || (n =? 41))%N.

Definition uri_unit (a : ascii) : string :=
  let n := N_of_ascii a in
  if uri_unreserved a then String a EmptyString
  else if (n <? 128)%N then percent_byte n
  else percent_byte (192 + n / 64)%N +:+ percent_byte (128 + n mod 64)%N.

Fixpoint encodeURIComponent (s : string) : string :=
  match s with
  | EmptyString => EmptyString
  | String a t => uri_unit a +:+ encodeURIComponent t
  end.

(** [BigInt(value)]; [None] is its [TypeError], [RangeError] or [SyntaxError]. *)
Definition js_BigInt (v : JsVal) : option Z :=
  match v with
  | JUndefined | JNull => None
  | JBool b => Some (if b then 1 else 0)
  | JNumber (NInt z) => Some z
  | JNumber _ => None
  | JBigInt z => Some z
  | JString s => BigInt_of_string s
  | JArray _ | JObject _ => BigInt_of_string (js_String v)
  end.

(** [JSON.stringify(value)] on Latin-1 text; [None] is the [TypeError] of a
    [bigint] or the [undefined] of a value that has no JSON form. *)
Definition quote : ascii := ascii_of_nat 34.
Definition backslash : ascii := ascii_of_nat 92.

Definition lower_hex_digit (n : N) : ascii := ascii_of_N (if n <? 10 then 48 + n else 87 + n)%N.

Definition json_unit (a : ascii) : string :=
  let n := N_of_ascii a in
  let escaped c := String backslash (String c EmptyString) in
  if (n =? 34)%N || (n =? 92)%N then escaped a
  else if (n =? 8)%N then escaped "b"%char
  else if (n =? 9)%N then escaped "t"%char
  else if (n =? 10)%N then escaped "n"%char
  else if (n =? 12)%N then escaped "f"%char
  else if (n =? 13)%N then escaped "r"%char
  else if (n <? 32)%N then
    String backslash ("u00" +:+
      String (lower_hex_digit (n / 16)%N) (String (lower_hex_digit (n mod 16)%N) EmptyString))
  else String a EmptyString.

Fixpoint json_units (s : string) : string :=
  match s with EmptyString => EmptyString | String a t => json_unit a +:+ json_units t end.

Definition json_string (s : string) : string :=
  String quote (json_units s +:+ String quote EmptyString).

Definition has_json (v : JsVal) : bool := match v with JUndefined => false | _ => true end.

Fixpoint JSON_stringify (v : JsVal) : option string :=
  match v with
  | JUndefined | JBigInt _ => None
  | JNull => Some "null"
  | JBool b => Some (if b then "true" else "false")
  | JNumber (NInt z) => Some (Z_to_string z)
  | JNumber (NFraction _ printed) => Some printed
  | JNumber _ => Some "null"
  | JString s => Some (json_string s)
  | JArray elems =>
      parts ← mapM (fun e => if has_json e then JSON_stringify e else Some "null") elems;
      Some ("[" +:+ join "," parts +:+ "]")
  | JObject fields =>
      parts ← (fix go (fs : list (string * JsVal)) : option (list string) :=
                 match fs with
                 | [] => Some []
                 | (k, e) :: fs =>
                     if has_json e then
                       text ← JSON_stringify e;
                       rest ← go fs;
                       Some ((json_string k +:+ ":" +:+ text) :: rest)
                     else go fs
                 end) fields;
      Some ("{" +:+ join "," parts +:+ "}")
  end.

Definition is_hex (a : ascii) : bool :=
  let n := N_of_ascii a in
  ((48 <=? n) && (n <=? 57) || (97 <=? n) && (n <=? 102) || (65 <=? n) && (n <=? 70))%N.

(** The digits after [0x] in a text that starts with it. *)
Definition after_0x (s : string) : option string :=
  match s with String "0"%char (String "x"%char h) => Some h | _ => None end.

(** [/^0x[0-9a-fA-F]+$/] and [/^0x[0-9a-fA-F]{len}$/]. *)
Definition is_hex_quantity (s : string) : bool :=
  match after_0x s with Some h => nonempty h && all_chars is_hex h | None => false end.

Definition is_0x_hex_any_case (len : nat) (s : string) : bool :=
  match after_0x s with
  | Some h => (String.length h =? len)%nat && all_chars is_hex h
  | None => false
  end.

Lemma mget_app {V} k (l1 l2 : list (string * V)) :
  mget k (l1 ++ l2) = match mget k l1 with Some v => Some v | None => mget k l2 end.
Proof. induction l1 as [|[k' v'] l1 IH]; simpl; [done|]. by case_decide. Qed.

(** [x === y] for a primitive [y]; no object equals a primitive. *)
Definition strict_eq (x y : JsVal) : bool :=
  match x, y with
  | JUndefined, JUndefined | JNull, JNull => true
  | JBool a, JBool b => Bool.eqb a b
  | JNumber (NInt a), JNumber (NInt b) => a =? b
  | JNumber (NFraction a p), JNumber (NFraction b q) => (a =? b) && bool_decide (p = q)
  | JNumber (NInfinity a), JNumber (NInfinity b) => Bool.eqb a b
  | JBigInt a, JBigInt b => a =? b
  | JString a, JString b => bool_decide (a = b)
  | _, _ => false
  end.

Definition is_undefined (v : JsVal) : bool := match v with JUndefined => true | _ => false end.

Lemma strict_eq_string s : strict_eq (JString s) (JString s) = true.
Proof. simpl. by apply bool_decide_true. Qed.

(** [...(x === undefined ? {} : { key: x })]. *)
Definition opt_field (key : string) (v : JsVal) : list (string * JsVal) :=
  match v with JUndefined => [] | _ => [(key, v)] end.

Definition JInt (z : Z) : JsVal := JNumber (NInt z).

Lemma mget_opt_field k key v : key <> k -> mget k (opt_field key v) = None.
Proof. intros Hne. destruct v; simpl; try done; by case_decide. Qed.

(** An optional text and an optional integer as a field's value. *)
Definition jopt (o : option string) : JsVal :=
  match o with Some s => JString s | None => JUndefined end.

Definition joptInt (o : option Z) : JsVal :=
  match o with Some i => JInt i | None => JUndefined end.

#[global] Instance jopt_inj : Inj (=) (=) jopt.
Proof. intros [a|] [b|]; simpl; congruence. Qed.

#[global] Instance joptInt_inj : Inj (=) (=) joptInt.
Proof. intros [a|] [b|]; unfold joptInt, JInt; congruence. Qed.

(** [value || null] on a text. *)
Definition some_nonempty (s : string) : option string := if nonempty s then Some s else None.

(** ** [shared-ts/src/utils/normalize.ts] and [validation.ts] *)

Definition normalizeOptionalString (value : JsVal) : string :=
  match value with JString s => s | _ => EmptyString end.

Definition normalizeOptionalTrimmedString (value : JsVal) : string :=
  trim (normalizeOptionalString value).

Definition normalizeTrimmedString (value : JsVal) : string :=
  trim (js_String (coalesce value (JString EmptyString))).

Definition normalizeLowercaseString (value : JsVal) : string := to_lower (normalizeTrimmedString value).

Definition isObject (v : JsVal) : bool :=
  match v with JArray _ | JObject _ => true | _ => false end.

Definition isPlainObject (v : JsVal) : bool :=
  match v with JObject _ => true | _ => false end.

(** [parseStoredNonEmptyString] of [indexedDB/normalization.ts]. *)
Definition parseStoredNonEmptyString (value : JsVal) : option string :=
  match value with
  | JString s => if nonempty s && bool_decide (trim s = s) then Some s else None
  | _ => None
  end.

(** [normalizeInteger]: the value after [normalizeFiniteNumber], truncated. *)
Definition normalizeInteger (value : JsVal) : option Z := js_trunc (js_Number value).

(** The options of [normalizeBoundedPositiveInteger] are numbers of the code. *)
Definition positive_option (o : option Z) : option Z :=
  match o with Some z => if 0 <? z then Some z else None | None => None end.

Definition normalizeBoundedPositiveInteger (value : JsVal) (fallback : Z) (min max : option Z) : Z :=
  let min := default 1 (positive_option min) in
  let fallbackRaw := default min (positive_option (Some fallback)) in
  let fallback := Z.max min fallbackRaw in
  match normalizeInteger value with
  | None => fallback
  | Some parsed =>
      if parsed <? min then fallback
      else match positive_option max with Some max => Z.min parsed max | None => parsed end
  end.

(** [errorMessage] of [shared-ts/src/utils/errors.ts] on an error the code throws. *)
Definition errorMessage (e : Exn) : string :=
  match e with
  | JsError m | JsCodedError _ m => m
  | NearImplicitAccountFundingRequired _ account _ =>
      "NEAR account " +:+ account +:+ " needs funding before direct NEAR signing."
  | NearAccountLookupFailed _ account _ m =>
      if nonempty m then m else "NEAR account " +:+ account +:+ " access key lookup failed."
  | NearReplacementNonceUsed nonce used =>
      "The access key nonce " +:+ used +:+ " already reached nonce " +:+ nonce +:+ "."
  | NonceLaneBlocked networkKey _ nonce age =>
      "[NonceCoordinator] nonce lane blocked on " +:+ networkKey +:+ " (nonce="
        +:+ Z_to_string nonce +:+ ") for " +:+ Z_to_string age
        +:+ "ms; reconcile or replace/dropped report required"
  | EvmWaitError _ _ _ _ _ m => m
  | OutOfFuel | AwaitsOther => EmptyString
  end.

(** [String(value || '').trim()]. *)
Definition stringOrEmptyTrimmed (value : JsVal) : string :=
  trim (if truthy value then js_String value else EmptyString).

(** ** [shared-ts/src/utils/domainIds.ts] *)

Definition hasControlCharacter (value : string) : bool :=
  negb (all_chars (fun a => let n := N_of_ascii a in negb ((n <=? 31) || (n =? 127))%N) value).

Definition hasWhitespaceOrControlCharacters (value : string) : bool :=
  negb (all_chars (fun a => negb (is_js_space a)) value) || hasControlCharacter value.

Definition parseDomainId (raw : JsVal) (fieldName : string) : Result string :=
  match raw with
  | JUndefined | JNull => Throw (JsError (fieldName +:+ " is required"))
  | JString s =>
      let value := trim s in
      if nonempty value then Ok value else Throw (JsError (fieldName +:+ " is required"))
  | _ => Throw (JsError (fieldName +:+ " must be a string"))
  end.

Definition parseWalletId (raw : JsVal) : Result string :=
  match parseDomainId raw "walletId" with
  | Throw e => Throw e
  | Ok value =>
      if hasWhitespaceOrControlCharacters value
      then Throw (JsError "walletId must not contain whitespace or control characters")
      else Ok value
  end.

(** [toWalletId] of [interfaces/ecdsaChainTarget.ts] throws the parse error. *)
Definition toWalletId (value : JsVal) : Result string := parseWalletId value.

(** ** [nonce/nonceUtils.ts] *)

Definition normalizeSessionStatusRequiredString (value : JsVal) (label : string) : Result string :=
  let normalized := stringOrEmptyTrimmed value in
  if nonempty normalized then Ok normalized
  else Throw (JsError ("[NonceCoordinator] " +:+ label +:+ " is required")).

Definition normalizeBigint (value : JsVal) (label : string) : Result Z :=
  let digits :=
    match parse_digits (stringOrEmptyTrimmed value) with
    | Some z => Ok z
    | None => Throw (JsError ("[NonceCoordinator] invalid " +:+ label))
    end in
  match value with
  | JBigInt z => Ok z
  | JNumber n => match safe_integer_value n with Some z => Ok z | None => digits end
  | _ => digits
  end.

Definition normalizePositiveInteger (value : JsVal) (fallback : Z) : Z :=
  match js_floor (js_Number value) with
  | Some parsed => if 0 <? parsed then parsed else fallback
  | None => fallback
  end.

Definition is_metric_char (a : ascii) : bool :=
  let n := N_of_ascii a in
  (((97 <=? n) && (n <=? 122)) || ((48 <=? n) && (n <=? 57)) || (n =? 95))%N.

(** [.replace(/[^a-z0-9_]+/g, '_')]: [in_run] says that the previous unit was replaced. *)
Fixpoint collapse_metric (in_run : bool) (s : string) : string :=
  match s with
  | EmptyString => EmptyString
  | String a t =>
      if is_metric_char a then String a (collapse_metric false t)
      else if in_run then collapse_metric true t
      else String "_"%char (collapse_metric true t)
  end.

(** [.replace(/^_+|_+$/g, '')]. *)
Fixpoint strip_leading_underscores (s : string) : string :=
  match s with
  | String "_"%char t => strip_leading_underscores t
  | _ => s
  end.

Fixpoint strip_trailing_underscores (s : string) : string :=
  match s with
  | EmptyString => EmptyString
  | String a t =>
      match strip_trailing_underscores t with
      | EmptyString => if Ascii.eqb a "_"%char then EmptyString else String a EmptyString
      | t' => String a t'
      end
  end.

Definition normalizeMetricReason (value : string) (fallback : string) : string :=
  let normalized :=
    strip_trailing_underscores
      (strip_leading_underscores (collapse_metric false (to_lower (trim value)))) in
  if nonempty normalized then normalized else fallback.

(** [values.reduce((max, value) => (max > value ? max : value))], 0 without values. *)
Definition maxBigint (values : list Z) : Z :=
  match values with
  | [] => 0
  | v :: vs => List.fold_left (fun max value => if max >? value then max else value) vs v
  end.

Definition minBigint (a b : Z) : Z := if a <? b then a else b.

(** ** Lemmas *)

Lemma maxBigint_fold_ge vs : forall v,
  v <= List.fold_left (fun max value => if max >? value then max else value) vs v.
Proof.
  induction vs as [|x vs IH]; intros v; simpl; [lia|].
  etransitivity; [|apply IH]. destruct (v >? x) eqn:E; lia.
Qed.

Lemma maxBigint_fold_elem vs : forall v x,
  x ∈ vs -> x <= List.fold_left (fun max value => if max >? value then max else value) vs v.
Proof.
  induction vs as [|y vs IH]; intros v x; simpl; [set_solver|].
  intros [->|Hx]%elem_of_cons; [|by apply IH].
  etransitivity; [|apply maxBigint_fold_ge]. destruct (v >? y) eqn:E; lia.
Qed.

Lemma maxBigint_ge vs x : x ∈ vs -> x <= maxBigint vs.
Proof.
  destruct vs as [|v vs]; [set_solver|]. simpl.
  intros [->|Hx]%elem_of_cons; [apply maxBigint_fold_ge | by apply maxBigint_fold_elem].
Qed.

Lemma maxBigint_fold_in vs : forall v,
  List.fold_left (fun max value => if max >? value then max else value) vs v ∈ v :: vs.
Proof.
  induction vs as [|x vs IH]; intros v; simpl; [set_solver|].
  specialize (IH (if v >? x then v else x)). destruct (v >? x); set_solver.
Qed.

Lemma maxBigint_in vs : vs <> [] -> maxBigint vs ∈ vs.
Proof. destruct vs as [|v vs]; [done|]. intros _. apply maxBigint_fold_in. Qed.

Lemma stringOrEmptyTrimmed_string s : stringOrEmptyTrimmed (JString s) = trim s.
Proof. by destruct s. Qed.

Lemma required_string_ok s label :
  trim s = s -> nonempty s = true ->
  normalizeSessionStatusRequiredString (JString s) label = Ok s.
Proof.
  intros Ht Hn. unfold normalizeSessionStatusRequiredString.
  rewrite stringOrEmptyTrimmed_string, Ht. by rewrite Hn.
Qed.

Lemma normalizeBigint_digits z label :
  0 <= z -> normalizeBigint (JString (Z_to_string z)) label = Ok z.
Proof.
  intros Hz. unfold normalizeBigint. rewrite stringOrEmptyTrimmed_string, trim_Z_to_string.
  by rewrite parse_digits_to_string.
Qed.

Lemma toWalletId_ok s :
  nonempty s = true -> hasWhitespaceOrControlCharacters s = false -> toWalletId (JString s) = Ok s.
Proof.
  intros Hn Hw. unfold toWalletId, parseWalletId, parseDomainId.
  assert (trim s = s) as ->.
  { apply trim_no_space. unfold hasWhitespaceOrControlCharacters in Hw.
    by apply orb_false_iff in Hw as [Hw%negb_false_iff _]. }
  by rewrite Hn, Hw.
Qed.

Lemma toWalletId_inv v s :
  toWalletId v = Ok s -> nonempty s = true /\ hasWhitespaceOrControlCharacters s = false.
Proof.
  unfold toWalletId, parseWalletId, parseDomainId. repeat case_match; intros; simplify_eq; auto.
Qed.

#[export] Hint Resolve required_string_ok toWalletId_ok : js.

(** *** Facts about every unit *)

Definition all_ascii : list ascii := map ascii_of_nat (seq 0 256).

Lemma all_ascii_elem a : a ∈ all_ascii.
Proof.
  apply list_elem_of_fmap. exists (nat_of_ascii a). split.
  - symmetry. apply ascii_nat_embedding.
  - apply elem_of_seq. pose proof (nat_ascii_bounded a). lia.
Qed.

Lemma forallb_elem {A} (f : A -> bool) l x : forallb f l = true -> x ∈ l -> f x = true.
Proof. rewrite forallb_forall. intros H Hx. by apply H, list_elem_of_In. Qed.

(** *** Hexadecimal quantities *)

Lemma hex_digits_bounded :
  forallb (fun a => implb (is_hex a)
    (negb (is_js_space a) &&
     match hex_digit a with Some d => (0 <=? d) && (d <? 16) | None => false end)) all_ascii = true.
Proof. vm_compute. reflexivity. Qed.

Lemma hex_digit_is_hex a :
  is_hex a = true ->
  negb (is_js_space a) = true /\ exists d, hex_digit a = Some d /\ 0 <= d < 16.
Proof.
  intros Ha. pose proof (forallb_elem _ _ _ hex_digits_bounded (all_ascii_elem a)) as H.
  cbv beta in H. rewrite Ha in H. apply andb_prop in H as [Hs Hd]. split; [done|].
  destruct (hex_digit a) as [d|]; [|done]. exists d. split; [done|lia].
Qed.

Lemma parse_hex_from h : forall acc,
  all_chars is_hex h = true -> 0 <= acc -> exists z, parse_radix_from 16 acc h = Some z /\ 0 <= z.
Proof.
  induction h as [|a h IH]; intros acc; simpl; [eauto|].
  intros [Ha Hh]%andb_prop Hacc. destruct (hex_digit_is_hex a Ha) as (_ & d & -> & Hd).
  replace (d <? 16) with true by lia. apply IH; [done|lia].
Qed.

(** A hexadecimal quantity is read as a natural number. *)
Lemma hex_quantity_value s :
  is_hex_quantity s = true -> exists z, BigInt_of_string s = Some z /\ 0 <= z.
Proof.
  unfold is_hex_quantity, after_0x. intros H.
  destruct s as [|a [|b h]]; try (by repeat case_match).
  destruct (decide (a = "0"%char)) as [->|]; [|by repeat case_match].
  destruct (decide (b = "x"%char)) as [->|]; [|by repeat case_match].
  apply andb_prop in H as [Hn Hh]. unfold BigInt_of_string.
  rewrite trim_no_space.
  - unfold parse_radix. rewrite Hn. by apply parse_hex_from.
  - simpl. eapply all_chars_impl; [|exact Hh]. intros x Hx. by apply hex_digit_is_hex.
Qed.

(** *** [encodeURIComponent] is injective *)

(** Codes of different units are not prefixes of each other, and none has a colon. *)
Definition uri_code_apart (a b : ascii) : bool :=
  Ascii.eqb a b || negb (starts_with (uri_unit a) (uri_unit b)).

Definition uri_code_plain (a : ascii) : bool :=
  all_chars (fun x => negb (Ascii.eqb x ":"%char)) (uri_unit a) && nonempty (uri_unit a).

Lemma uri_codes_plain : forallb uri_code_plain all_ascii = true.
Proof. vm_compute. reflexivity. Qed.

Lemma uri_codes_apart : forallb (fun a => forallb (uri_code_apart a) all_ascii) all_ascii = true.
Proof. vm_compute. reflexivity. Qed.

Lemma uri_unit_plain a :
  all_chars (fun x => negb (Ascii.eqb x ":"%char)) (uri_unit a) = true /\
  nonempty (uri_unit a) = true.
Proof. apply andb_prop. exact (forallb_elem _ _ _ uri_codes_plain (all_ascii_elem a)). Qed.

Lemma uri_unit_prefix a b : starts_with (uri_unit a) (uri_unit b) = true -> a = b.
Proof.
  pose proof (forallb_elem _ _ _ uri_codes_apart (all_ascii_elem a)) as H. cbv beta in H.
  pose proof (forallb_elem _ _ _ H (all_ascii_elem b)) as [H'|H']%orb_prop.
  - intros _. by apply Ascii.eqb_eq.
  - intros Hp. by rewrite Hp in H'.
Qed.

Lemma app_eq_prefix x y s t :
  x +:+ s = y +:+ t -> starts_with x y = true \/ starts_with y x = true.
Proof.
  revert y. induction x as [|a x IH]; intros [|b y]; simpl; auto.
  intros [= -> H]. rewrite Ascii.eqb_refl. simpl. eauto.
Qed.

Lemma string_app_inv_head x s t : x +:+ s = x +:+ t -> s = t.
Proof. induction x as [|a x IH]; simpl; [done|]. intros [= H]. auto. Qed.

Lemma encodeURIComponent_inj s t : encodeURIComponent s = encodeURIComponent t -> s = t.
Proof.
  revert t. induction s as [|a s IH]; intros [|b t]; simpl; [done|..]; intros H.
  - pose proof (uri_unit_plain b) as [_ Hb]. by destruct (uri_unit b).
  - pose proof (uri_unit_plain a) as [_ Ha]. by destruct (uri_unit a).
  - assert (a = b) as ->.
    { destruct (app_eq_prefix _ _ _ _ H) as [Hp|Hp]; [|symmetry];
        by apply uri_unit_prefix. }
    f_equal. apply IH. by eapply string_app_inv_head.
Qed.

#[global] Instance encodeURIComponent_Inj : Inj (=) (=) encodeURIComponent.
Proof. intros ??. apply encodeURIComponent_inj. Qed.

Lemma encodeURIComponent_no_colon s :
  all_chars (fun x => negb (Ascii.eqb x ":"%char)) (encodeURIComponent s) = true.
Proof.
  induction s as [|a s IH]; simpl; [done|].
  rewrite all_chars_app, IH. by destruct (uri_unit_plain a) as [-> _].
Qed.

(** A separator that neither part contains splits a text in one way. *)
Lemma split_at_separator sep x y s t :
  all_chars (fun a => negb (Ascii.eqb a sep)) x = true ->
  all_chars (fun a => negb (Ascii.eqb a sep)) y = true ->
  x +:+ String sep s = y +:+ String sep t -> x = y /\ s = t.
Proof.
  revert y. induction x as [|a x IH]; intros [|b y]; simpl; intros Hx Hy [= H].
  - done.
  - subst. by rewrite Ascii.eqb_refl in Hy.
  - subst. by rewrite Ascii.eqb_refl in Hx.
  - apply andb_prop in Hx as [_ Hx], Hy as [_ Hy].
    subst. destruct (IH y) as [-> ->]; auto.
Qed.

(** A limit is at least one whenever its fallback is. *)
Lemma bounded_positive_ge_1 value fallback :
  1 <= normalizeBoundedPositiveInteger value fallback (Some 1) None.
Proof.
  unfold normalizeBoundedPositiveInteger. simpl.
  destruct (normalizeInteger value) as [z|]; [destruct (z <? 1) eqn:E|]; lia.
Qed.

(** *** Reading decimals back *)

Lemma take_digits_acc d : forall p n,
  take_digits (Z.pos p) n (NilEmpty.string_of_uint d) =
    (Z.pos (Pos.of_uint_acc d p), (Decimal.nb_digits d + n)%nat, EmptyString).
Proof.
  induction d as [|d IH|d IH|d IH|d IH|d IH|d IH|d IH|d IH|d IH|d IH]; intros p n; [done|..];
    cbn [NilEmpty.string_of_uint take_digits is_digit Decimal.nb_digits Pos.of_uint_acc];
    match goal with |- context [take_digits ?z _ _] =>
      match goal with |- context [Pos.of_uint_acc d ?q] => replace z with (Z.pos q) by (simpl; lia) end end;
    rewrite IH; by rewrite Nat.add_succ_r.
Qed.

Lemma take_digits_uint d : forall n,
  take_digits 0 n (NilEmpty.string_of_uint d) = (Z.of_uint d, (Decimal.nb_digits d + n)%nat, EmptyString).
Proof.
  unfold Z.of_uint.
  induction d as [|d IH|d IH|d IH|d IH|d IH|d IH|d IH|d IH|d IH|d IH]; intros n; [done| |..];
    cbn [NilEmpty.string_of_uint take_digits is_digit Decimal.nb_digits Pos.of_uint];
    [etrans; [apply IH|]; by rewrite Nat.add_succ_r|..];
    (etrans; [apply take_digits_acc|]); by rewrite Nat.add_succ_r.
Qed.

Lemma parse_decimal_digits t d : d <> Decimal.Nil ->
  parse_decimal_literal t 1 (NilZero.string_of_uint d) = NInt (Z.of_uint d).
Proof.
  intros Hd. unfold parse_decimal_literal.
  assert (NilZero.string_of_uint d = NilEmpty.string_of_uint d) as -> by by destruct d.
  rewrite bool_decide_false; [|by destruct d].
  rewrite take_digits_uint. cbv beta iota.
  assert (exists k, Decimal.nb_digits d = S k) as [k ->] by (destruct d; simpl; eauto; done).
  simpl. unfold num_of_scaled. simpl. f_equal. lia.
Qed.

(** [Number(String(z))] is [z]. *)
Lemma Number_to_string z : 0 <= z -> Number_of_string (Z_to_string z) = NInt z.
Proof.
  intros Hz. unfold Number_of_string. rewrite trim_Z_to_string.
  pose proof (Z_to_string_nonempty z) as Hn.
  destruct (Z_to_string_nonneg z Hz) as (d & Hd & E & <-).
  rewrite <- (parse_decimal_digits (Z_to_string (Z.of_uint d)) d Hd). rewrite <- E in *.
  destruct (Z_to_string (Z.of_uint d)) as [|a s] eqn:Es; [done|].
  assert (is_digit a = true /\ all_chars is_digit s = true) as [Ha Hs].
  { apply andb_true_iff. change (all_chars is_digit (String a s) = true). rewrite E. apply NilZero_digits. }
  clear -Ha Hs. destruct a as [[] [] [] [] [] [] [] []]; try discriminate Ha; try done.
  destruct s as [|b u]; [done|]. simpl in Hs. apply andb_prop in Hs as [Hb _].
  by destruct b as [[] [] [] [] [] [] [] []].
Qed.
