(* ===== verification/Base64.v ===== *)
(** * Base64

    [packages/shared-ts/src/utils/base64.ts] on the [btoa] and [atob] of the language's
    hosts, and the canonical base64url texts of
    [packages/shared-ts/src/passkey-custody/primitives.ts] and
    [packages/shared-ts/src/utils/canonicalPrimitives.ts]. *)

From S2P Require Import Prelude JsValues BitPacking.
Local Open Scope Z_scope.
Local Open Scope js_scope.

(** ** [btoa] and [atob] *)

Definition base64_alphabet : string := "ABCDEFGHIJKLMNOPQRSTUVWXYZabcdefghijklmnopqrstuvwxyz0123456789+/".

Definition base64_char (d : Z) : string :=
  match String.get (Z.to_nat d) base64_alphabet with
  | Some c => String c EmptyString
  | None => EmptyString
  end.

Definition base64_value (c : ascii) : option Z :=
  let n := Z.of_N (N_of_ascii c) in
  if (65 <=? n) && (n <=? 90) then Some (n - 65)
  else if (97 <=? n) && (n <=? 122) then Some (n - 71)
  else if (48 <=? n) && (n <=? 57) then Some (n + 4)
  else if n =? 43 then Some 62
  else if n =? 47 then Some 63
  else None.

(** [text.repeat(n)]. *)
Fixpoint repeat_text (n : nat) (text : string) : string :=
  match n with O => EmptyString | S n => text +:+ repeat_text n text end.

(** The digits of six bits of some bytes; the last one is filled with zeros. *)
Definition sextets (bytes : list Z) : list Z :=
  let '(out, buf, avail) := repack 8 6 0 0 bytes in
  if avail =? 0 then out else out ++ [buf * 2 ^ (6 - avail)].

Definition btoa (bytes : list Z) : string :=
  let text := text_of base64_char (sextets bytes) in
  text +:+ repeat_text ((4 - String.length text mod 4) mod 4) "=".

(** The white space [atob] removes. *)
Definition is_ascii_space (a : ascii) : bool :=
  let n := N_of_ascii a in ((n =? 9) || (n =? 10) || (n =? 12) || (n =? 13) || (n =? 32))%N.

Fixpoint filter_chars (p : ascii -> bool) (s : string) : string :=
  match s with
  | EmptyString => EmptyString
  | String a t => if p a then String a (filter_chars p t) else filter_chars p t
  end.

(** The text without a [=] at its end. *)
Fixpoint drop_last_equals (s : string) : string :=
  match s with
  | EmptyString => EmptyString
  | String "="%char EmptyString => EmptyString
  | String a t => String a (drop_last_equals t)
  end.

Definition atob_error : Exn := JsError "The string to be decoded is not correctly encoded.".

Definition atob (data : string) : Result (list Z) :=
  let data := filter_chars (fun a => negb (is_ascii_space a)) data in
  let data :=
    if (String.length data mod 4 =? 0)%nat then drop_last_equals (drop_last_equals data) else data in
  if (String.length data mod 4 =? 1)%nat then Throw atob_error
  else if negb (all_chars (supported base64_value) data) then Throw atob_error
  else Ok (repack 6 8 0 0 (digits_of base64_value data)).1.1.

(** ** The helpers *)

(** [text.replace(/a/g, b)] for a character [a]. *)
Fixpoint replace_char (a b : ascii) (s : string) : string :=
  match s with
  | EmptyString => EmptyString
  | String c t => String (if bool_decide (c = a) then b else c) (replace_char a b t)
  end.

Definition base64Encode (value : list Z) : string := btoa value.

Definition base64Decode (base64 : string) : Result (list Z) :=
  let normalized := trim base64 in
  if negb (nonempty normalized) then Ok [] else atob normalized.

Definition base64UrlEncode (value : list Z) : string :=
  filter_chars (fun a => negb (bool_decide (a = "="%char)))
    (replace_char "/" "_" (replace_char "+" "-" (base64Encode value))).

Definition base64UrlDecode (base64Url : string) : Result (list Z) :=
  let normalized := replace_char "_" "/" (replace_char "-" "+" (trim base64Url)) in
  if negb (nonempty normalized) then Ok []
  else
    let padding := repeat_text ((4 - String.length normalized mod 4) mod 4) "=" in
    base64Decode (normalized +:+ padding).

(** ** Canonical texts *)

(** A character of [/^[A-Za-z0-9_-]+$/]. *)
Definition is_base64url_char (c : ascii) : bool :=
  let n := N_of_ascii c in
  ((65 <=? n) && (n <=? 90) || (97 <=? n) && (n <=? 122) || (48 <=? n) && (n <=? 57)
   || (n =? 95) || (n =? 45))%N.

Definition UNPADDED_BASE64URL (s : string) : bool := nonempty s && all_chars is_base64url_char s.

Definition requireCanonicalBase64Url (value : JsVal) (label : string) : Result (list Z) :=
  match value with
  | JString s =>
      if negb (UNPADDED_BASE64URL s) then Throw (JsError (label +:+ " must be unpadded base64url"))
      else
        match base64UrlDecode s with
        | Throw _ => Throw (JsError (label +:+ " must be valid base64url"))
        | Ok decoded =>
            if bool_decide (base64UrlEncode decoded = s) then Ok decoded
            else Throw (JsError (label +:+ " must be canonical base64url"))
        end
  | _ => Throw (JsError (label +:+ " must be unpadded base64url"))
  end.

Definition parseDigestB64u (value : JsVal) : Result string :=
  match value with
  | JString s =>
      if negb (UNPADDED_BASE64URL s) then Throw (JsError "digest must be unpadded base64url")
      else
        match base64UrlDecode s with
        | Throw _ => Throw (JsError "digest must be valid base64url")
        | Ok bytes =>
            if negb (length bytes =? 32)%nat || negb (bool_decide (base64UrlEncode bytes = s))
            then Throw (JsError "digest must be canonical base64url for 32 bytes")
            else Ok s
        end
  | _ => Throw (JsError "digest must be unpadded base64url")
  end.

Definition parseDigestField (value : JsVal) (label : string) : Result string :=
  match parseDigestB64u value with
  | Ok s => Ok s
  | Throw e => Throw (JsError (label +:+ " " +:+ errorMessage e))
  end.

Definition PASSKEY_CUSTODY_WRAP_NONCE_LENGTH : nat := 12.
Definition PASSKEY_CUSTODY_WRAP_TAG_LENGTH : nat := 16.

Definition parseEnvelopeNonceB64u (value : JsVal) (label : string) : Result string :=
  let* decoded := requireCanonicalBase64Url value label in
  if negb (length decoded =? PASSKEY_CUSTODY_WRAP_NONCE_LENGTH)%nat
  then Throw (JsError (label +:+ " must decode to a 12-byte ChaCha20Poly1305 nonce"))
  else Ok (js_String value).

Definition parseEnvelopeCiphertextB64u (value : JsVal) (label : string) : Result string :=
  let* decoded := requireCanonicalBase64Url value label in
  if (length decoded <? PASSKEY_CUSTODY_WRAP_TAG_LENGTH + 1)%nat
  then Throw (JsError (label +:+ " must decode to sealed ciphertext with an authentication tag"))
  else Ok (js_String value).

(** [parseUnixMs]. *)
Definition parseUnixMs (value : JsVal) (label : string) : Result Z :=
  match value with
  | JNumber n =>
      match safe_integer_value n with
      | Some z => if z <=? 0 then Throw (JsError (label +:+ " must be a positive unix-millisecond timestamp"))
                  else Ok z
      | None => Throw (JsError (label +:+ " must be a positive unix-millisecond timestamp"))
      end
  | _ => Throw (JsError (label +:+ " must be a positive unix-millisecond timestamp"))
  end.

(** ** Digits and characters *)

Definition base64_digits_ok : bool :=
  forallb (fun n => match base64_char (Z.of_nat n) with
    | String c EmptyString => bool_decide (base64_value c = Some (Z.of_nat n))
    | _ => false end) (seq 0 64).

Definition base64_chars_ok : bool :=
  forallb (fun c => match base64_value c with
    | Some d => (0 <=? d) && (d <? 64) && bool_decide (base64_char d = String c EmptyString)
    | None => true end) all_ascii.

#[global] Instance base64_Alphabet : Alphabet 64 base64_char base64_value.
Proof.
  split.
  - intros d Hd. assert (base64_digits_ok = true) as H by by vm_compute.
    unfold base64_digits_ok in H. rewrite forallb_forall in H.
    specialize (H (Z.to_nat d)). rewrite in_seq, Z2Nat.id in H by lia.
    specialize (H ltac:(lia)). destruct (base64_char d) as [|c [|]]; try done.
    exists c. split; [done|]. by apply bool_decide_eq_true in H.
  - intros c d Hd. assert (base64_chars_ok = true) as H by by vm_compute.
    pose proof (forallb_elem _ _ c H (all_ascii_elem c)) as Hc. cbv beta in Hc. rewrite Hd in Hc.
    apply andb_true_iff in Hc as [Hr Hc]. apply bool_decide_eq_true in Hc. split; [lia|done].
Qed.

(** ** Repacking with a filled last digit *)

Lemma sextets_spec bytes : digits 256 bytes ->
  digits 64 (sextets bytes) /\ (repack 6 8 0 0 (sextets bytes)).1.1 = bytes /\
  (length (sextets bytes) mod 4 <> 1)%nat /\ (bytes = [] \/ sextets bytes <> []).
Proof.
  intros Hb. unfold sextets.
  pose proof (repack_repacked 8 6 bytes 0 0 ltac:(lia) ltac:(lia) ltac:(lia) ltac:(lia) ltac:(simpl; lia) Hb) as H.
  pose proof (repack_back 8 6 bytes ltac:(lia) ltac:(lia) ltac:(lia) Hb) as Hback.
  destruct (repack 8 6 0 0 bytes) as [[out buf] avail]. destruct H as (Hd & Hbuf & Ha & Hn & Hbits).
  change (2 ^ 8) with 256 in *. change (2 ^ 6) with 64 in *. simpl in Hback. rewrite Z.add_0_l in Hbits.
  destruct (Z.eqb_spec avail 0) as [->|Hne].
  { assert ((8 * Z.of_nat (length bytes)) mod 6 = 0) as Hmod.
    { by rewrite Hbits, Z.add_0_r, Z.mul_comm, Z.mod_mul by lia. }
    rewrite (Hback Hmod). pose proof (Nat.div_mod_eq (length out) 4). split_and!; [done|done|lia|].
    destruct out; [|by right]. left. destruct bytes; [done|]. simpl in Hbits. lia. }
  assert (avail = 2 \/ avail = 4) as Hav by lia.
  assert (0 <= buf * 2 ^ (6 - avail) < 64) as Hlast.
  { pose proof (pow2_split avail (6 - avail) ltac:(lia) ltac:(lia)) as Hs.
    replace (avail + (6 - avail)) with 6 in Hs by lia. change (2 ^ 6) with 64 in Hs. nia. }
  assert (digits 64 (out ++ [buf * 2 ^ (6 - avail)])) as Hd' by (apply Forall_app; split; [done|]; constructor; [done|by constructor]).
  assert (length (out ++ [buf * 2 ^ (6 - avail)]) = S (length out)) as Hlen by (rewrite length_app; simpl; lia).
  pose proof (Nat.div_mod_eq (S (length out)) 4).
  split_and!; [done| |rewrite Hlen; lia|right; by destruct out].
  pose proof (repack_repacked 6 8 (out ++ [buf * 2 ^ (6 - avail)]) 0 0 ltac:(lia) ltac:(lia) ltac:(lia)
    ltac:(lia) ltac:(simpl; lia) Hd') as H2.
  destruct (repack 6 8 0 0 (out ++ _)) as [[back buf2] avail2]. destruct H2 as (Hd2 & Hb2 & Ha2 & Hn2 & Hbits2).
  simpl. change (2 ^ 8) with 256 in *. change (2 ^ 6) with 64 in *.
  rewrite Hlen in Hbits2. assert (avail2 = 6 - avail /\ length back = length bytes) as [-> Hl] by lia.
  apply (horner_inj 256); [lia|done..|].
  rewrite horner_app, horner_cons in Hn2. change (horner 64 ?a []) with a in Hn2.
  assert (64 = 2 ^ avail * 2 ^ (6 - avail)) as E.
  { rewrite <- pow2_split by lia. by replace (avail + (6 - avail)) with 6 by lia. }
  rewrite E in Hn2 at 2. nia.
Qed.

(** ** The url alphabet *)

Definition to_url (s : string) : string :=
  filter_chars (fun a => negb (bool_decide (a = "="%char))) (replace_char "/" "_" (replace_char "+" "-" s)).
Definition of_url (s : string) : string := replace_char "_" "/" (replace_char "-" "+" s).

Lemma to_url_app s t : to_url (s +:+ t) = to_url s +:+ to_url t.
Proof.
  unfold to_url. induction s as [|a s IH]; [done|]. change (String a s +:+ t) with (String a (s +:+ t)).
  simpl. rewrite IH. by case_match.
Qed.

Lemma to_url_padding n : to_url (repeat_text n "=") = EmptyString.
Proof. induction n as [|n IH]; [done|]. simpl repeat_text. by rewrite to_url_app, IH. Qed.

Lemma of_url_length s : String.length (of_url s) = String.length s.
Proof. unfold of_url. induction s as [|a s IH]; [done|]. simpl. by f_equal. Qed.

(** What the alphabet's characters are and are not, checked on each. *)
Definition url_char_ok (c : ascii) : bool :=
  negb (supported base64_value c) ||
  negb (is_js_space c) && negb (is_ascii_space c) && negb (bool_decide (c = "="%char)) &&
  match to_url (String c EmptyString) with
  | String u EmptyString =>
      is_base64url_char u && bool_decide (of_url (String u EmptyString) = String c EmptyString)
  | _ => false
  end.

Lemma url_chars_ok : forallb url_char_ok all_ascii = true.
Proof. by vm_compute. Qed.

Lemma url_char c : supported base64_value c = true ->
  negb (is_js_space c) = true /\ negb (is_ascii_space c) = true /\ negb (bool_decide (c = "="%char)) = true /\
  exists u, to_url (String c EmptyString) = String u EmptyString /\ is_base64url_char u = true /\
    of_url (String u EmptyString) = String c EmptyString.
Proof.
  intros Hc. pose proof (forallb_elem _ _ c url_chars_ok (all_ascii_elem c)) as H.
  unfold url_char_ok in H. rewrite Hc in H. simpl negb in H. rewrite orb_false_l in H.
  apply andb_true_iff in H as [[[H1 H2]%andb_true_iff H3]%andb_true_iff H].
  destruct (to_url (String c EmptyString)) as [|u [|]]; try done.
  apply andb_true_iff in H as [H4 H5]. apply bool_decide_eq_true in H5. eauto 10.
Qed.

Lemma base64url_char_plain c : is_base64url_char c = true -> negb (is_js_space c) = true.
Proof. unfold is_base64url_char, is_js_space. cbv zeta. lia. Qed.

Lemma url_text s : all_chars (supported base64_value) s = true ->
  all_chars is_base64url_char (to_url s) = true /\ of_url (to_url s) = s.
Proof.
  induction s as [|c s IH]; [done|]. simpl all_chars. intros [Hc Hs]%andb_true_iff.
  destruct (IH Hs) as [IH1 IH2]. destruct (url_char c Hc) as (_ & _ & _ & u & Hu & Hp & Ho).
  change (String c s) with (String c EmptyString +:+ s). rewrite to_url_app, Hu.
  change (String u EmptyString +:+ to_url s) with (String u (to_url s)). cbn [all_chars].
  rewrite Hp, IH1. split; [done|].
  change (of_url (String u (to_url s))) with (of_url (String u EmptyString) +:+ of_url (to_url s)).
  by rewrite Ho, IH2.
Qed.

(** ** Padding *)

Lemma drop_last_equals_snoc s : drop_last_equals (s +:+ "=") = s.
Proof.
  induction s as [|a s IH]; [done|]. change (String a s +:+ "=") with (String a (s +:+ "=")).
  assert (exists b t, s +:+ "=" = String b t) as (b & t & E) by (destruct s; simpl; eauto).
  rewrite E in IH |- *. rewrite <- IH. by destruct a as [[] [] [] [] [] [] [] []].
Qed.

Lemma drop_last_equals_none s : all_chars (fun a => negb (bool_decide (a = "="%char))) s = true ->
  drop_last_equals s = s.
Proof.
  induction s as [|a s IH]; [done|]. intros [Ha Hs]%andb_true_iff. specialize (IH Hs).
  apply negb_true_iff, bool_decide_eq_false in Ha.
  destruct s as [|b s]; [|rewrite <- IH at 2]; by destruct a as [[] [] [] [] [] [] [] []].
Qed.

Lemma supported_text s : all_chars (supported base64_value) s = true ->
  all_chars (fun c => negb (is_js_space c)) s = true /\
  all_chars (fun c => negb (bool_decide (c = "="%char))) s = true.
Proof.
  intros Hs. split; (eapply all_chars_impl; [|exact Hs]); intros c Hc; by apply url_char in Hc as (? & ? & ? & _).
Qed.

Lemma filter_chars_app p s t : filter_chars p (s +:+ t) = filter_chars p s +:+ filter_chars p t.
Proof.
  induction s as [|a s IH]; [done|]. change (String a s +:+ t) with (String a (s +:+ t)).
  simpl. rewrite IH. by destruct (p a).
Qed.

Lemma filter_chars_all p s : all_chars p s = true -> filter_chars p s = s.
Proof. induction s as [|a s IH]; [done|]. simpl. intros [-> Hs]%andb_true_iff. by rewrite IH. Qed.

Definition padding (s : string) : string := repeat_text ((4 - String.length s mod 4) mod 4) "=".

Lemma padding_cases s : (String.length s mod 4 <> 1)%nat ->
  (String.length s mod 4 = 0)%nat /\ padding s = EmptyString \/
  (String.length s mod 4 = 2)%nat /\ padding s = "==" \/ (String.length s mod 4 = 3)%nat /\ padding s = "=".
Proof.
  intros H1. unfold padding. pose proof (Nat.mod_upper_bound (String.length s) 4).
  destruct (String.length s mod 4)%nat as [|[|[|[|n]]]]; [by left|done|by right; left|by right; right|lia].
Qed.

Lemma string_length_app s t : String.length (s +:+ t) = (String.length s + String.length t)%nat.
Proof. induction s as [|a s IH]; [done|]. change (S (String.length (s +:+ t)) = S (String.length s) + String.length t)%nat. lia. Qed.

(** [atob] drops the padding it asks for. *)
Lemma unpad s : all_chars (supported base64_value) s = true -> (String.length s mod 4 <> 1)%nat ->
  (String.length (s +:+ padding s) mod 4 = 0)%nat /\
  drop_last_equals (drop_last_equals (s +:+ padding s)) = s.
Proof.
  intros Hs Hm. destruct (supported_text s Hs) as [_ He]. rewrite string_length_app.
  pose proof (Nat.div_mod_eq (String.length s) 4).
  destruct (padding_cases s Hm) as [[Hl ->]|[[Hl ->]|[Hl ->]]]; simpl String.length.
  - rewrite append_nil_r, !(drop_last_equals_none s) by done. split; [|done]. by rewrite Nat.add_0_r.
  - change "==" with ("=" +:+ "="). rewrite <- append_assoc, !drop_last_equals_snoc. split; [|done].
    by rewrite Nat.Div0.add_mod, Hl.
  - rewrite drop_last_equals_snoc, drop_last_equals_none by done. split; [|done].
    by rewrite Nat.Div0.add_mod, Hl.
Qed.

Lemma atob_text s : all_chars (supported base64_value) s = true -> (String.length s mod 4 <> 1)%nat ->
  atob (s +:+ padding s) = Ok (repack 6 8 0 0 (digits_of base64_value s)).1.1.
Proof.
  intros Hs Hm. unfold atob.
  assert (filter_chars (fun a => negb (is_ascii_space a)) (s +:+ padding s) = s +:+ padding s) as ->.
  { apply filter_chars_all. rewrite all_chars_app. apply andb_true_iff. split.
    - eapply all_chars_impl; [|exact Hs]. intros c Hc. by apply url_char in Hc as (? & ? & _).
    - by destruct (padding_cases s Hm) as [[_ ->]|[[_ ->]|[_ ->]]]. }
  destruct (unpad s Hs Hm) as [-> ->]. cbv zeta. cbn [Nat.eqb]. by rewrite (proj2 (Nat.eqb_neq _ _) Hm), Hs.
Qed.

Lemma decode_encode bytes : digits 256 bytes ->
  base64UrlDecode (base64UrlEncode bytes) = Ok bytes /\
  all_chars is_base64url_char (base64UrlEncode bytes) = true /\
  (bytes <> [] -> nonempty (base64UrlEncode bytes) = true).
Proof.
  intros Hb. destruct (sextets_spec bytes Hb) as (Hd & Hback & Hm & Hne).
  destruct (digits_text 64 base64_char base64_value _ Hd) as (Ed & El & Es).
  set (s := text_of base64_char (sextets bytes)) in *.
  assert (base64UrlEncode bytes = to_url s) as ->.
  { unfold base64UrlEncode, base64Encode, btoa. fold s. fold (padding s).
    change (to_url (s +:+ padding s) = to_url s). rewrite to_url_app. unfold padding.
    rewrite to_url_padding. apply append_nil_r. }
  destruct (url_text s Es) as [Hu Hof].
  assert (trim (to_url s) = to_url s) as Ht.
  { apply trim_no_space. eapply all_chars_impl; [|exact Hu]. apply base64url_char_plain. }
  split_and!; [|done|].
  - unfold base64UrlDecode. fold (of_url (trim (to_url s))). rewrite Ht, Hof. fold (padding s).
    destruct s as [|a s'] eqn:Es'; simpl nonempty; cbn [negb].
    { destruct bytes; [done|]. destruct Hne as [?|Hne]; [done|]. by destruct (sextets _). }
    rewrite <- Es' in *. unfold base64Decode.
    assert (trim (s +:+ padding s) = s +:+ padding s) as ->.
    { apply trim_no_space. rewrite all_chars_app. apply andb_true_iff. split; [by apply supported_text|].
      rewrite <- El in Hm. by destruct (padding_cases s Hm) as [[_ ->]|[[_ ->]|[_ ->]]]. }
    assert (nonempty (s +:+ padding s) = true) as -> by by rewrite Es'.
    cbn [negb]. rewrite atob_text by (by rewrite ?El). by rewrite Ed, Hback.
  - intros Hb'. destruct Hne as [?|Hne]; [done|].
    destruct (to_url s) eqn:E; [|done]. rewrite <- Hof in El. by destruct (sextets bytes).
Qed.

Lemma atob_digits data bytes : atob data = Ok bytes -> digits 256 bytes.
Proof.
  unfold atob. cbv zeta. match goal with |- context [digits_of base64_value ?x] => generalize x end.
  intros d. case_match; [done|].
  destruct (all_chars (supported base64_value) d) eqn:Hs; [|done]. cbn [negb]. intros [= <-].
  destruct (text_digits 64 base64_char base64_value d Hs) as (Hd & _).
  pose proof (repack_repacked 6 8 (digits_of base64_value d) 0 0 ltac:(lia) ltac:(lia) ltac:(lia)
    ltac:(lia) ltac:(simpl; lia) Hd) as Hr.
  destruct (repack 6 8 0 0 _) as [[out buf] avail]. by destruct Hr.
Qed.

Lemma base64UrlDecode_digits s bytes : base64UrlDecode s = Ok bytes -> digits 256 bytes.
Proof.
  unfold base64UrlDecode, base64Decode. case_match; [intros [= <-]; by constructor|].
  case_match; [intros [= <-]; by constructor|]. apply atob_digits.
Qed.

Lemma requireCanonical_inv v label bytes :
  requireCanonicalBase64Url v label = Ok bytes ->
  digits 256 bytes /\ bytes <> [] /\ v = JString (base64UrlEncode bytes).
Proof.
  destruct v as [| | | | |s| |]; try done. simpl.
  destruct (UNPADDED_BASE64URL s) eqn:Hu; [|done]. simpl.
  destruct (base64UrlDecode s) as [decoded|] eqn:Hd; [|done].
  case_bool_decide as Hc; [|done]. intros [= ->]. split_and!; [by eapply base64UrlDecode_digits| |by f_equal].
  intros ->. subst s. done.
Qed.

(** The texts that are accepted as canonical base64url are exactly the encodings of
    some bytes, and one has its own bytes back; so two accepted texts of the same bytes
    are the same text.  An encoding always decodes to its bytes. *)
Theorem base64url_canonical v label bytes :
  (requireCanonicalBase64Url v label = Ok bytes <->
     digits 256 bytes /\ bytes <> [] /\ v = JString (base64UrlEncode bytes)) /\
  (digits 256 bytes -> base64UrlDecode (base64UrlEncode bytes) = Ok bytes).
Proof.
  split; [split; [apply requireCanonical_inv|]|intros Hb; by apply decode_encode].
  intros (Hb & Hne & ->). destruct (decode_encode bytes Hb) as (Hd & Hc & Hn). simpl.
  unfold UNPADDED_BASE64URL. rewrite Hn, Hc, Hd, bool_decide_true by done. done.
Qed.

(** A field that was accepted is the text it was. *)
Lemma parseEnvelopeNonceB64u_string v label s : parseEnvelopeNonceB64u v label = Ok s -> v = JString s.
Proof.
  unfold parseEnvelopeNonceB64u. destruct (requireCanonicalBase64Url v label) eqn:H; [|done]. simpl.
  apply requireCanonical_inv in H as (_ & _ & ->). case_match; [done|]. by intros [= <-].
Qed.

Lemma parseEnvelopeCiphertextB64u_string v label s : parseEnvelopeCiphertextB64u v label = Ok s -> v = JString s.
Proof.
  unfold parseEnvelopeCiphertextB64u. destruct (requireCanonicalBase64Url v label) eqn:H; [|done]. simpl.
  apply requireCanonical_inv in H as (_ & _ & ->). case_match; [done|]. by intros [= <-].
Qed.

Lemma parseDigestField_string v label s : parseDigestField v label = Ok s -> v = JString s.
Proof.
  unfold parseDigestField, parseDigestB64u. destruct v as [| | | | |t| |]; try done.
  destruct (UNPADDED_BASE64URL t); [|done]. simpl. destruct (base64UrlDecode t); [|done].
  destruct (_ || _); [done|]. by intros [= <-].
Qed.

Lemma parseUnixMs_spec v label z : parseUnixMs v label = Ok z <-> v = JInt z /\ 0 < z <= MAX_SAFE_INTEGER.
Proof.
  unfold parseUnixMs, JInt. split.
  - destruct v as [| | |[n| | |]| | | |]; try done. unfold safe_integer_value, is_safe_integer.
    destruct (_ && _) eqn:E; [|done]. destruct (Z.leb_spec n 0); [done|]. intros [= <-]. split; [done|lia].
  - intros [-> Hz]. unfold safe_integer_value, is_safe_integer.
    assert ((- MAX_SAFE_INTEGER <=? z) && (z <=? MAX_SAFE_INTEGER) = true) as -> by (unfold MAX_SAFE_INTEGER in *; lia).
    by destruct (Z.leb_spec z 0); [lia|].
Qed.
