(* ===== verification/ChainTarget.v ===== *)
(** * ECDSA chain targets

    [interfaces/ecdsaChainTarget.ts] and the network tables of
    [config/chains.ts]: how a chain target is named, normalised from a request
    or a configured chain, and keyed. *)

From S2P Require Import Prelude JsValues.
Local Open Scope Z_scope.
Local Open Scope js_scope.

(** [ThresholdEcdsaChainTarget]; the EVM target's namespace is the constant [eip155]. *)
Inductive ThresholdEcdsaChainTarget : Type :=
| EvmEip155ChainTarget (chainId : Z) (networkSlug : string)
| TempoChainTarget (chainId : Z) (networkSlug : string).

#[global] Instance ThresholdEcdsaChainTarget_eq_dec : EqDecision ThresholdEcdsaChainTarget.
Proof. solve_decision. Defined.

Definition target_kind (t : ThresholdEcdsaChainTarget) : string :=
  match t with EvmEip155ChainTarget _ _ => "evm" | TempoChainTarget _ _ => "tempo" end.

Definition target_chainId (t : ThresholdEcdsaChainTarget) : Z :=
  match t with EvmEip155ChainTarget c _ | TempoChainTarget c _ => c end.

Definition target_networkSlug (t : ThresholdEcdsaChainTarget) : string :=
  match t with EvmEip155ChainTarget _ s | TempoChainTarget _ s => s end.

(** The target as a plain object, the shape stored rows and requests carry. *)
Definition target_object (t : ThresholdEcdsaChainTarget) : JsVal :=
  match t with
  | EvmEip155ChainTarget c s =>
      JObject [("kind", JString "evm"); ("namespace", JString "eip155");
               ("chainId", JNumber (NInt c)); ("networkSlug", JString s)]
  | TempoChainTarget c s =>
      JObject [("kind", JString "tempo"); ("chainId", JNumber (NInt c));
               ("networkSlug", JString s)]
  end.

(** ** [config/chains.ts] *)

Definition SEAMS_CHAIN_NETWORKS : list string :=
  ["near-mainnet"; "near-testnet"; "tempo-mainnet"; "tempo-testnet"; "arc-mainnet";
   "arc-testnet"; "ethereum-mainnet"; "ethereum-sepolia"].

Definition isSeamsChainNetwork (value : string) : bool := shas value SEAMS_CHAIN_NETWORKS.

Definition isNearChainNetwork (value : string) : bool :=
  isSeamsChainNetwork value && starts_with "near-" value.

Definition isTempoChainNetwork (value : string) : bool :=
  isSeamsChainNetwork value && starts_with "tempo-" value.

Inductive SeamsChainFamily : Type := FamilyNear | FamilyTempo | FamilyEvm.

#[global] Instance SeamsChainFamily_eq_dec : EqDecision SeamsChainFamily.
Proof. solve_decision. Defined.

Definition chainFamilyFromNetwork (network : string) : SeamsChainFamily :=
  if isNearChainNetwork network then FamilyNear
  else if isTempoChainNetwork network then FamilyTempo
  else FamilyEvm.

(** A configured chain; [chainId] is [JUndefined] where the entry has none. *)
Record SeamsChainConfig : Type := mkChainConfig {
  network : string;
  configChainId : JsVal;
  rpcUrl : string;
}.

(** ** [interfaces/ecdsaChainTarget.ts] *)

Inductive BoundaryEcdsaChainFamily : Type := BoundaryEvm | BoundaryTempo.

#[global] Instance BoundaryEcdsaChainFamily_eq_dec : EqDecision BoundaryEcdsaChainFamily.
Proof. solve_decision. Defined.

Definition nonEmptyString (value : JsVal) : option string :=
  let normalized := normalizeTrimmedString value in
  if nonempty normalized then Some normalized else None.

Definition normalizePositiveSafeInteger (value : JsVal) (field : string) : Result Z :=
  match safe_integer_value (js_Number value) with
  | Some z =>
      if z <=? 0
      then Throw (JsError ("[threshold-ecdsa] " +:+ field +:+ " must be a positive safe integer"))
      else Ok z
  | None => Throw (JsError ("[threshold-ecdsa] " +:+ field +:+ " must be a positive safe integer"))
  end.

Definition defaultNetworkSlug (kind : BoundaryEcdsaChainFamily) (chainId : Z) : string :=
  match kind with
  | BoundaryTempo => "tempo-" +:+ Z_to_string chainId
  | BoundaryEvm => "evm-" +:+ Z_to_string chainId
  end.

Definition thresholdEcdsaChainTargetKey (target : ThresholdEcdsaChainTarget) : string :=
  match target with
  | EvmEip155ChainTarget chainId _ => "evm:eip155:" +:+ Z_to_string chainId
  | TempoChainTarget chainId _ => "tempo:" +:+ Z_to_string chainId
  end.

Definition thresholdEcdsaChainTargetsEqual (left right : ThresholdEcdsaChainTarget) : bool :=
  bool_decide (thresholdEcdsaChainTargetKey left = thresholdEcdsaChainTargetKey right).

Definition thresholdEcdsaChainTargetFromChainFamily
    (chain : BoundaryEcdsaChainFamily) (chainIdRaw networkSlugRaw : JsVal)
    : Result ThresholdEcdsaChainTarget :=
  match normalizePositiveSafeInteger chainIdRaw "chainId" with
  | Throw e => Throw e
  | Ok chainId =>
      let networkSlug := default (defaultNetworkSlug chain chainId) (nonEmptyString networkSlugRaw) in
      Ok match chain with
         | BoundaryTempo => TempoChainTarget chainId networkSlug
         | BoundaryEvm => EvmEip155ChainTarget chainId networkSlug
         end
  end.

Definition thresholdEcdsaChainTargetFromConfig (chain : SeamsChainConfig)
    : Result ThresholdEcdsaChainTarget :=
  match chainFamilyFromNetwork (network chain) with
  | FamilyNear =>
      Throw (JsError ("[threshold-ecdsa] " +:+ network chain +:+ " is not an ECDSA signing target"))
  | FamilyEvm =>
      thresholdEcdsaChainTargetFromChainFamily BoundaryEvm (configChainId chain)
        (JString (network chain))
  | FamilyTempo =>
      thresholdEcdsaChainTargetFromChainFamily BoundaryTempo (configChainId chain)
        (JString (network chain))
  end.

(** The loop of [configuredThresholdEcdsaChainTargets]; [seen] holds the keys
    already taken and [targets] the result so far. *)
Fixpoint configuredTargetsFrom (seen : list string) (targets : list ThresholdEcdsaChainTarget)
    (chains : list SeamsChainConfig) : Result (list ThresholdEcdsaChainTarget) :=
  match chains with
  | [] => Ok targets
  | chain :: rest =>
      match chainFamilyFromNetwork (network chain) with
      | FamilyNear => configuredTargetsFrom seen targets rest
      | FamilyEvm | FamilyTempo =>
          match thresholdEcdsaChainTargetFromConfig chain with
          | Throw e => Throw e
          | Ok target =>
              let key := thresholdEcdsaChainTargetKey target in
              if shas key seen then configuredTargetsFrom seen targets rest
              else configuredTargetsFrom (sadd key seen) (targets ++ [target]) rest
          end
      end
  end.

Definition configuredThresholdEcdsaChainTargets (chains : list SeamsChainConfig)
    : Result (list ThresholdEcdsaChainTarget) :=
  configuredTargetsFrom [] [] chains.

(** [rawKind] and [namespace] of a request. *)
Definition request_kind (args : JsVal) : string :=
  to_lower (normalizeTrimmedString (coalesce (jget "kind" args) (jget "chain" args))).

Definition request_namespace (args : JsVal) : string :=
  to_lower (normalizeTrimmedString (coalesce (jget "namespace" args) (JString "eip155"))).

Definition thresholdEcdsaChainTargetFromRequest (args : JsVal) : Result ThresholdEcdsaChainTarget :=
  if bool_decide (request_kind args = "tempo") then
    thresholdEcdsaChainTargetFromChainFamily BoundaryTempo (jget "chainId" args)
      (jget "networkSlug" args)
  else if bool_decide (request_kind args = "evm") then
    if bool_decide (request_namespace args = "eip155") then
      thresholdEcdsaChainTargetFromChainFamily BoundaryEvm (jget "chainId" args)
        (jget "networkSlug" args)
    else Throw (JsError "[threshold-ecdsa] EVM chain target namespace must be eip155")
  else Throw (JsError "[threshold-ecdsa] ECDSA request target requires chain kind evm or tempo").

Definition family_name (family : BoundaryEcdsaChainFamily) : string :=
  match family with BoundaryEvm => "evm" | BoundaryTempo => "tempo" end.

Definition family_matches (family : BoundaryEcdsaChainFamily) (f : SeamsChainFamily) : bool :=
  match family, f with
  | BoundaryEvm, FamilyEvm | BoundaryTempo, FamilyTempo => true
  | _, _ => false
  end.

Definition config_matches (family : BoundaryEcdsaChainFamily) (explicitChainId : option Z)
    (chain : SeamsChainConfig) : bool :=
  family_matches family (chainFamilyFromNetwork (network chain)) &&
  match explicitChainId with
  | None => true
  | Some id =>
      match js_Number (configChainId chain) with NInt z => z =? id | _ => false end
  end.

Definition thresholdEcdsaChainTargetFromConfiguredRequest
    (family : BoundaryEcdsaChainFamily) (chains : list SeamsChainConfig)
    (explicitChainIdRaw networkSlug : JsVal) : Result ThresholdEcdsaChainTarget :=
  match (if is_nullish explicitChainIdRaw then Ok None
         else match normalizePositiveSafeInteger explicitChainIdRaw "chainId" with
              | Ok z => Ok (Some z)
              | Throw e => Throw e
              end) with
  | Throw e => Throw e
  | Ok explicitChainId =>
      let fallback :=
        match explicitChainId with
        | None =>
            Throw (JsError ("[threshold-ecdsa] missing configured " +:+ family_name family +:+
              " chainId for concrete ECDSA target"))
        | Some id =>
            thresholdEcdsaChainTargetFromChainFamily family (JNumber (NInt id)) networkSlug
        end in
      match List.find (config_matches family explicitChainId) chains with
      | None => fallback
      | Some chain =>
          match thresholdEcdsaChainTargetFromConfig chain with
          | Throw e => Throw e
          | Ok target =>
              match explicitChainId with
              | None => Ok target
              | Some id => if target_chainId target =? id then Ok target else fallback
              end
          end
      end
  end.

(** ** Properties *)

Lemma append_inj_l (p s t : string) : p +:+ s = p +:+ t -> s = t.
Proof. induction p as [|a p IH]; simpl; [done|]. intros [=]. auto. Qed.

(** A chain target's key names its kind and chain id, and nothing else. *)
Lemma chainTargetKey_eq_iff t u :
  thresholdEcdsaChainTargetKey t = thresholdEcdsaChainTargetKey u <->
  target_kind t = target_kind u /\ target_chainId t = target_chainId u.
Proof.
  destruct t as [c s|c s], u as [d r|d r]; simpl; split; try (intros [? ?]; congruence);
    try discriminate.
  - intros H%(append_inj_l "evm:eip155:"). split; [done|]. by apply Z_to_string_inj.
  - intros H%(append_inj_l "tempo:"). split; [done|]. by apply Z_to_string_inj.
Qed.

(** A target as the code builds it: a positive safe chain id and a trimmed,
    non-empty network slug. *)
Definition target_wf (t : ThresholdEcdsaChainTarget) : Prop :=
  0 < target_chainId t /\ is_safe_integer (target_chainId t) = true /\
  trim (target_networkSlug t) = target_networkSlug t /\
  nonempty (target_networkSlug t) = true.

Lemma normalizePositiveSafeInteger_ok z field :
  0 < z -> is_safe_integer z = true -> normalizePositiveSafeInteger (JNumber (NInt z)) field = Ok z.
Proof.
  intros Hz Hs. unfold normalizePositiveSafeInteger. simpl. rewrite Hs.
  by replace (z <=? 0) with false by lia.
Qed.

Lemma nonEmptyString_ok s : trim s = s -> nonempty s = true -> nonEmptyString (JString s) = Some s.
Proof.
  intros Ht Hn. unfold nonEmptyString, normalizeTrimmedString. simpl. by rewrite Ht, Hn.
Qed.

Lemma Z_to_string_no_space z : all_chars (fun a => negb (is_js_space a)) (Z_to_string z) = true.
Proof.
  unfold Z_to_string. destruct (to_int_cases z) as (d & Hd & [-> | [_ ->]]); simpl;
    eapply all_chars_impl; eauto using digit_not_space, NilZero_digits.
Qed.

Lemma defaultNetworkSlug_wf kind c :
  trim (defaultNetworkSlug kind c) = defaultNetworkSlug kind c /\
  nonempty (defaultNetworkSlug kind c) = true.
Proof.
  split; [|by destruct kind]. apply trim_no_space.
  destruct kind; simpl; apply Z_to_string_no_space.
Qed.

(** Every target the normaliser returns is well formed. *)
Lemma chainTargetFromChainFamily_wf chain c s t :
  thresholdEcdsaChainTargetFromChainFamily chain c s = Ok t -> target_wf t.
Proof.
  unfold thresholdEcdsaChainTargetFromChainFamily, normalizePositiveSafeInteger.
  destruct (safe_integer_value _) as [z|] eqn:Ez; [|done].
  destruct (z <=? 0) eqn:Hz; [done|].
  destruct (js_Number c) as [z'| | |]; simpl in Ez; try done.
  destruct (is_safe_integer z') eqn:Hsafe; simplify_eq.
  pose proof (defaultNetworkSlug_wf chain z) as [Ht Hn].
  unfold nonEmptyString. intros [= <-].
  assert (forall slug, slug = default (defaultNetworkSlug chain z)
     (if nonempty (normalizeTrimmedString s) then Some (normalizeTrimmedString s) else None) ->
     trim slug = slug /\ nonempty slug = true) as Hslug.
  { intros slug ->. destruct (nonempty (normalizeTrimmedString s)) eqn:E; simpl; [|done].
    split; [apply trim_idem | done]. }
  destruct (Hslug _ eq_refl) as [??]. unfold target_wf.
  destruct chain; simpl; split_and!; auto; lia.
Qed.

Lemma chainTargetFromRequest_wf args t :
  thresholdEcdsaChainTargetFromRequest args = Ok t -> target_wf t.
Proof.
  unfold thresholdEcdsaChainTargetFromRequest. repeat case_match; try done;
    apply chainTargetFromChainFamily_wf.
Qed.

(** Reading back the object form of a well-formed target gives the target. *)
Lemma chainTargetFromRequest_object t :
  target_wf t -> thresholdEcdsaChainTargetFromRequest (target_object t) = Ok t.
Proof.
  intros (Hz & Hs & Ht & Hn).
  unfold thresholdEcdsaChainTargetFromRequest, request_kind, request_namespace.
  destruct t as [c s|c s]; simpl in *;
    unfold thresholdEcdsaChainTargetFromChainFamily;
    rewrite normalizePositiveSafeInteger_ok, nonEmptyString_ok by done; done.
Qed.

(** A chain of the configuration contributes nothing, its target, or an error. *)
Lemma configuredTargetsFrom_cons seen targets chain chains :
  configuredTargetsFrom seen targets (chain :: chains) =
  if bool_decide (chainFamilyFromNetwork (network chain) = FamilyNear)
  then configuredTargetsFrom seen targets chains
  else match thresholdEcdsaChainTargetFromConfig chain with
       | Throw e => Throw e
       | Ok target =>
           let key := thresholdEcdsaChainTargetKey target in
           if shas key seen then configuredTargetsFrom seen targets chains
           else configuredTargetsFrom (sadd key seen) (targets ++ [target]) chains
       end.
Proof. simpl. by destruct (chainFamilyFromNetwork (network chain)). Qed.

Lemma chainTargetFromConfig_ecdsa chain target :
  thresholdEcdsaChainTargetFromConfig chain = Ok target ->
  chainFamilyFromNetwork (network chain) <> FamilyNear.
Proof. unfold thresholdEcdsaChainTargetFromConfig. by case_match. Qed.

(** What the loop adds to [targets]: one target per new key, each of some chain. *)
Record targets_of (chains : list SeamsChainConfig) (targets result : list ThresholdEcdsaChainTarget)
    : Prop := mkTargetsOf {
  to_nodup : NoDup (map thresholdEcdsaChainTargetKey result);
  to_kept : forall t, t ∈ targets -> t ∈ result;
  to_from : forall t, t ∈ result -> t ∈ targets \/
    exists chain, chain ∈ chains /\ thresholdEcdsaChainTargetFromConfig chain = Ok t;
  to_all : forall chain t, chain ∈ chains -> thresholdEcdsaChainTargetFromConfig chain = Ok t ->
    exists t', t' ∈ result /\ thresholdEcdsaChainTargetKey t' = thresholdEcdsaChainTargetKey t;
}.

Lemma configuredTargetsFrom_spec chains : forall seen targets,
  NoDup (map thresholdEcdsaChainTargetKey targets) ->
  (forall k, k ∈ seen <-> k ∈ map thresholdEcdsaChainTargetKey targets) ->
  match configuredTargetsFrom seen targets chains with
  | Ok result => targets_of chains targets result
  | Throw e => exists chain, chain ∈ chains /\
      chainFamilyFromNetwork (network chain) <> FamilyNear /\
      thresholdEcdsaChainTargetFromConfig chain = Throw e
  end.
Proof.
  induction chains as [|chain chains IH]; intros seen targets Hn Hs.
  { split; [done|done|by left|set_solver]. }
  rewrite configuredTargetsFrom_cons. case_bool_decide as Hfam.
  { specialize (IH seen targets Hn Hs). destruct (configuredTargetsFrom seen targets chains).
    - destruct IH as [? ? Hfrom Hall]. split; [done|done|set_solver|].
      intros c t [->|Hc]%elem_of_cons Ht; [|by eapply Hall].
      by apply chainTargetFromConfig_ecdsa in Ht.
    - set_solver. }
  destruct (thresholdEcdsaChainTargetFromConfig chain) as [target|e] eqn:Et; [|set_solver].
  cbv zeta. unfold shas. case_bool_decide as Hin.
  - specialize (IH seen targets Hn Hs). destruct (configuredTargetsFrom seen targets chains).
    + destruct IH as [? Hkept Hfrom Hall]. split; [done|done|set_solver|].
      intros c t [->|Hc]%elem_of_cons Ht; [|by eapply Hall].
      apply Hs, list_elem_of_fmap in Hin as (t' & ? & ?). exists t'. split; [auto|congruence].
    + set_solver.
  - assert (NoDup (map thresholdEcdsaChainTargetKey (targets ++ [target]))) as Hn'.
    { rewrite map_app. apply NoDup_app. split_and!; [done| |apply NoDup_singleton].
      intros k Hk ->%list_elem_of_singleton. apply Hin. by apply Hs. }
    assert (forall k, k ∈ sadd (thresholdEcdsaChainTargetKey target) seen <->
              k ∈ map thresholdEcdsaChainTargetKey (targets ++ [target])) as Hs'.
    { intros k. rewrite elem_sadd, Hs, map_app, elem_of_app. set_solver. }
    specialize (IH _ _ Hn' Hs'). destruct (configuredTargetsFrom _ _ chains).
    + destruct IH as [? Hkept Hfrom Hall]. split; [done|set_solver|set_solver|].
      intros c t [->|Hc]%elem_of_cons Ht; [|by eapply Hall].
      exists target. split; [set_solver|congruence].
    + set_solver.
Qed.

(** The targets built from a configuration have distinct keys, each comes from a
    chain of it, and every ECDSA chain of the configuration has the key of one of
    them; the construction fails only with the error of one of those chains. *)
Theorem configured_targets_spec chains :
  match configuredThresholdEcdsaChainTargets chains with
  | Ok targets =>
      NoDup (map thresholdEcdsaChainTargetKey targets) /\
      (forall t, t ∈ targets ->
         exists chain, chain ∈ chains /\ thresholdEcdsaChainTargetFromConfig chain = Ok t) /\
      (forall chain t, chain ∈ chains -> thresholdEcdsaChainTargetFromConfig chain = Ok t ->
         exists t', t' ∈ targets /\ thresholdEcdsaChainTargetKey t' = thresholdEcdsaChainTargetKey t)
  | Throw e =>
      exists chain, chain ∈ chains /\ chainFamilyFromNetwork (network chain) <> FamilyNear /\
        thresholdEcdsaChainTargetFromConfig chain = Throw e
  end.
Proof.
  pose proof (configuredTargetsFrom_spec chains [] []) as H.
  unfold configuredThresholdEcdsaChainTargets.
  destruct (configuredTargetsFrom [] [] chains); [|apply H; [constructor|done]].
  destruct H as [Hn _ Hfrom Hall]; [constructor|done|]. split_and!; [done|set_solver|done].
Qed.

(** A target read from a request has a positive safe chain id and a trimmed slug,
    and its object form reads back as the same target; a request is refused only
    for its kind, for its namespace, or for its chain id. *)
Theorem chain_target_request_roundtrip args :
  match thresholdEcdsaChainTargetFromRequest args with
  | Ok t => target_wf t /\ thresholdEcdsaChainTargetFromRequest (target_object t) = Ok t
  | Throw e =>
      (request_kind args <> "evm" /\ request_kind args <> "tempo") \/
      (request_kind args = "evm" /\ request_namespace args <> "eip155") \/
      normalizePositiveSafeInteger (jget "chainId" args) "chainId" = Throw e
  end.
Proof.
  destruct (thresholdEcdsaChainTargetFromRequest args) as [t|e] eqn:E.
  - pose proof (chainTargetFromRequest_wf args t E) as Hwf. split; [done|].
    by apply chainTargetFromRequest_object.
  - revert E. unfold thresholdEcdsaChainTargetFromRequest, thresholdEcdsaChainTargetFromChainFamily.
    repeat case_bool_decide; try (by auto);
      destruct (normalizePositiveSafeInteger _ _); intros [=]; subst; auto.
Qed.
