(* ===== verification/NonceTypes.v ===== *)
(** * The data of the nonce subsystem

    The types of [nonce/nonceTypes.ts] that carry data: lane identities,
    leases, durable records, trace events and diagnostics. *)

From S2P Require Import Prelude JsValues ChainTarget.
Local Open Scope Z_scope.

Inductive NonceLeaseState : Type :=
| Reserved
| Released
| Expired
| Signed
| SignedLeaseExpired
| BroadcastAccepted
| BroadcastRejected
| Finalized
| Dropped
| Replaced
| Reconciled.

#[global] Instance NonceLeaseState_eq_dec : EqDecision NonceLeaseState.
Proof. solve_decision. Defined.

(** The string a state is in the source. *)
Definition lease_state_string (s : NonceLeaseState) : string :=
  match s with
  | Reserved => "reserved"
  | Released => "released"
  | Expired => "expired"
  | Signed => "signed"
  | SignedLeaseExpired => "signed_lease_expired"
  | BroadcastAccepted => "broadcast_accepted"
  | BroadcastRejected => "broadcast_rejected"
  | Finalized => "finalized"
  | Dropped => "dropped"
  | Replaced => "replaced"
  | Reconciled => "reconciled"
  end.

(** [NONCE_LEASE_STATES]. *)
Definition NONCE_LEASE_STATES : list NonceLeaseState :=
  [Reserved; Released; Expired; Signed; SignedLeaseExpired; BroadcastAccepted;
   BroadcastRejected; Finalized; Dropped; Replaced; Reconciled].

(** [NonceDurableLeaseLifecycle]: only an accepted broadcast carries a transaction hash. *)
Inductive NonceDurableLeaseLifecycle : Type :=
| DurableReserved
| DurableSigned
| DurableBroadcastAccepted (txHash : string).

#[global] Instance NonceDurableLeaseLifecycle_eq_dec : EqDecision NonceDurableLeaseLifecycle.
Proof. solve_decision. Defined.

Definition lifecycle_string (l : NonceDurableLeaseLifecycle) : string :=
  match l with
  | DurableReserved => "reserved"
  | DurableSigned => "signed"
  | DurableBroadcastAccepted _ => "broadcast_accepted"
  end.

Inductive NonceCoordinatorTraceEventName : Type :=
| EvLeaseReserved
| EvLeaseReleased
| EvLeaseExpired
| EvLeaseSigned
| EvLeaseBroadcastAccepted
| EvLeaseBroadcastRejected
| EvLeaseFinalized
| EvLeaseDropped
| EvLeaseReplaced
| EvMetrics
| EvLaneAlert
| EvCoordinationDegraded
| EvLanesCleared
| EvLaneReconciled.

#[global] Instance NonceCoordinatorTraceEventName_eq_dec :
  EqDecision NonceCoordinatorTraceEventName.
Proof. solve_decision. Defined.

Inductive EvmNonceOutcomeReason : Type := OutcomeDropped | OutcomeReplaced.

#[global] Instance EvmNonceOutcomeReason_eq_dec : EqDecision EvmNonceOutcomeReason.
Proof. solve_decision. Defined.

Definition outcome_string (r : EvmNonceOutcomeReason) : string :=
  match r with OutcomeDropped => "dropped" | OutcomeReplaced => "replaced" end.

Inductive NonceLeaseReleaseReason : Type := Cancelled | AuthFailed | SigningFailed | NonceFailed.

Definition release_reason_string (r : NonceLeaseReleaseReason) : string :=
  match r with
  | Cancelled => "cancelled"
  | AuthFailed => "auth_failed"
  | SigningFailed => "signing_failed"
  | NonceFailed => "nonce_failed"
  end.

Inductive NonceCoordinatorDegradationReason : Type :=
| WebLocksUnavailable
| IndexedDBUnavailable
| DurableLockTimeout
| DurableStoreError
| MalformedDurableRecord.

#[global] Instance NonceCoordinatorDegradationReason_eq_dec :
  EqDecision NonceCoordinatorDegradationReason.
Proof. solve_decision. Defined.

Definition degradation_reason_string (r : NonceCoordinatorDegradationReason) : string :=
  match r with
  | WebLocksUnavailable => "web_locks_unavailable"
  | IndexedDBUnavailable => "indexeddb_unavailable"
  | DurableLockTimeout => "durable_lock_timeout"
  | DurableStoreError => "durable_store_error"
  | MalformedDurableRecord => "malformed_durable_record"
  end.

Inductive NonceCoordinatorFallback : Type := InRuntimeLock | NoFallback.

#[global] Instance NonceCoordinatorFallback_eq_dec : EqDecision NonceCoordinatorFallback.
Proof. solve_decision. Defined.

Definition fallback_string (f : NonceCoordinatorFallback) : string :=
  match f with InRuntimeLock => "in_runtime_lock" | NoFallback => "none" end.

(** [NearNonceReconcileReason]. *)
Definition NonceAdvancedHashMissing : string := "near_nonce_advanced_hash_missing".
Definition HashMissingNonceNotAdvanced : string := "near_hash_missing_nonce_not_advanced".

(** ** Lanes *)

Record EvmNonceLane : Type := mkEvmLane {
  evm_chainTarget : ThresholdEcdsaChainTarget;
  evm_subjectId : string;
  evm_sender : string;
  evm_nonceKey : option Z;
}.

#[global] Instance EvmNonceLane_eq_dec : EqDecision EvmNonceLane.
Proof. solve_decision. Defined.

Record NearNonceLane : Type := mkNearLane {
  near_networkKey : string;
  near_walletId : string;
  near_nearAccountId : string;
  near_publicKey : string;
}.

#[global] Instance NearNonceLane_eq_dec : EqDecision NearNonceLane.
Proof. solve_decision. Defined.

Inductive NonceLane : Type :=
| EvmLane (lane : EvmNonceLane)
| NearLane (lane : NearNonceLane).

#[global] Instance NonceLane_eq_dec : EqDecision NonceLane.
Proof. solve_decision. Defined.

Inductive LaneFamily : Type := FEvm | FNear.

#[global] Instance LaneFamily_eq_dec : EqDecision LaneFamily.
Proof. solve_decision. Defined.

Definition family_string (f : LaneFamily) : string :=
  match f with FEvm => "evm" | FNear => "near" end.

Definition lane_family (lane : NonceLane) : LaneFamily :=
  match lane with EvmLane _ => FEvm | NearLane _ => FNear end.

(** ** Leases *)

(** [PreparedNonceOperationContext]: what the coordinator reads of it. *)
Record PreparedNonceOperationContext : Type := mkOperation {
  op_operationId : string;
  op_operationFingerprint : string;
  op_accountId : string;
}.

(** An EVM lease has a [bigint] nonce, a NEAR lease a decimal string. *)
Inductive LeaseBody : Type :=
| EvmBody (lane : EvmNonceLane) (nonce : Z)
| NearBody (lane : NearNonceLane) (nonce : string).

#[global] Instance LeaseBody_eq_dec : EqDecision LeaseBody.
Proof. solve_decision. Defined.

Record NonceLease : Type := mkLease {
  leaseId : string;
  operationId : string;
  operationFingerprint : string;
  reservedAtMs : Z;
  expiresAtMs : Z;
  batchId : option string;
  txIndex : option Z;
  state : NonceLeaseState;
  body : LeaseBody;
}.

#[global] Instance NonceLease_eq_dec : EqDecision NonceLease.
Proof. solve_decision. Defined.

Definition lease_lane (l : NonceLease) : NonceLane :=
  match body l with EvmBody lane _ => EvmLane lane | NearBody lane _ => NearLane lane end.

(** [String(lease.nonce)]. *)
Definition lease_nonce_string (l : NonceLease) : string :=
  match body l with EvmBody _ nonce => Z_to_string nonce | NearBody _ nonce => nonce end.

Definition lease_with_state (s : NonceLeaseState) (l : NonceLease) : NonceLease :=
  mkLease (leaseId l) (operationId l) (operationFingerprint l) (reservedAtMs l) (expiresAtMs l)
    (batchId l) (txIndex l) s (body l).

Definition lease_with_expiry (t : Z) (l : NonceLease) : NonceLease :=
  mkLease (leaseId l) (operationId l) (operationFingerprint l) (reservedAtMs l) t
    (batchId l) (txIndex l) (state l) (body l).

(** ** Durable records *)

Inductive RecordBody : Type :=
| EvmRecord (chainTarget : ThresholdEcdsaChainTarget) (accountId sender : string)
    (nonceKey : option Z)
| NearRecord (walletId nearAccountId publicKey : string).

#[global] Instance RecordBody_eq_dec : EqDecision RecordBody.
Proof. solve_decision. Defined.

Record NonceLaneCoordinationRecord : Type := mkRecord {
  rec_laneKey : string;
  rec_leaseId : string;
  rec_networkKey : string;
  rec_nonce : Z;
  rec_operationId : string;
  rec_operationFingerprint : string;
  rec_reservedAtMs : Z;
  rec_expiresAtMs : Z;
  rec_updatedAtMs : Z;
  rec_runtimeId : option string;
  rec_fencingToken : option string;
  rec_batchId : option string;
  rec_txIndex : option Z;
  rec_lifecycle : NonceDurableLeaseLifecycle;
  rec_body : RecordBody;
}.

#[global] Instance NonceLaneCoordinationRecord_eq_dec : EqDecision NonceLaneCoordinationRecord.
Proof. solve_decision. Defined.

Record ParsedNonceLaneCoordinationRecord : Type := mkParsed {
  parsed_record : NonceLaneCoordinationRecord;
  parsed_lane : NonceLane;
  canonicalLaneKey : string;
  parsed_nonce : Z;
}.

Record NonceCoordinatorDegradation : Type := mkDegradation {
  deg_reason : NonceCoordinatorDegradationReason;
  deg_laneFamily : option LaneFamily;
  deg_networkKey : option string;
  deg_accountId : option string;
  deg_fallback : NonceCoordinatorFallback;
}.

#[global] Instance NonceCoordinatorDegradation_eq_dec : EqDecision NonceCoordinatorDegradation.
Proof. solve_decision. Defined.

Inductive NonceLaneCoordinationReadResult : Type :=
| ReadOk (parsed : ParsedNonceLaneCoordinationRecord)
| ReadFailed (degradation : NonceCoordinatorDegradation) (laneKey leaseId : string).

(** ** Metrics and trace events *)

Record NonceCoordinatorOutcomeMetrics : Type := mkOutcomes {
  droppedCount : Z;
  replacedCount : Z;
  reconciledCount : Z;
  releasedCount : Z;
  expiredCount : Z;
  broadcastRejectedCount : Z;
  releaseReasons : list (string * Z);
  reconcileReasons : list (string * Z);
  expiryReasons : list (string * Z);
}.

Record NonceCoordinatorAggregateMetrics : Type := mkMetrics {
  m_atMs : Z;
  m_accountId : option string;
  m_leaseCount : Z;
  m_laneCount : Z;
  m_oldestLeaseAgeMs : Z;
  m_oldestInFlightLeaseAgeMs : Z;
  m_staleInFlightLeaseCount : Z;
  m_staleInFlightLaneCount : Z;
  m_reservedLeaseCount : Z;
  m_signedLeaseCount : Z;
  m_broadcastAcceptedLeaseCount : Z;
  m_droppedLeaseCount : Z;
  m_replacedLeaseCount : Z;
  m_reconciledLeaseCount : Z;
  m_releasedLeaseCount : Z;
  m_outcomes : NonceCoordinatorOutcomeMetrics;
}.

Record NonceCoordinatorAlert : Type := mkAlert {
  al_lane : NonceLane;
  al_reason : EvmNonceOutcomeReason;
  al_count : Z;
  al_windowMs : Z;
  al_firstSeenAtMs : Z;
  al_lastSeenAtMs : Z;
}.

(** [NonceCoordinatorTraceEvent]: the event and the fields that accompany it. *)
Record NonceCoordinatorTraceEvent : Type := mkEvent {
  ev_event : NonceCoordinatorTraceEventName;
  ev_lease : option NonceLease;
  ev_lane : option NonceLane;
  ev_metrics : option NonceCoordinatorAggregateMetrics;
  ev_previousState : option NonceLeaseState;
  ev_nextState : option NonceLeaseState;
  ev_reason : option string;
  ev_txHash : option string;
  ev_accountId : option string;
  ev_alert : option NonceCoordinatorAlert;
  ev_degradation : option NonceCoordinatorDegradation;
}.
