(* ===== verification/LeaseStateMachine.v ===== *)
(** * The lease state machine

    [nonce/nonceLeaseState.ts]: the reducer every change of a lease's state goes
    through, and the predicates that say which leases hold their nonce. *)

From S2P Require Import Prelude NonceTypes.
Local Open Scope Z_scope.

Inductive NonceLeaseTransition : Type :=
| TRelease
| TExpire
| TMarkSigned
| TBroadcastAccepted
| TBroadcastRejected
| TFinalize
| TDrop
| TReplace
| TReconcile.

#[global] Instance NonceLeaseTransition_eq_dec : EqDecision NonceLeaseTransition.
Proof. solve_decision. Defined.

Definition transition_string (t : NonceLeaseTransition) : string :=
  match t with
  | TRelease => "release"
  | TExpire => "expire"
  | TMarkSigned => "mark_signed"
  | TBroadcastAccepted => "broadcast_accepted"
  | TBroadcastRejected => "broadcast_rejected"
  | TFinalize => "finalize"
  | TDrop => "drop"
  | TReplace => "replace"
  | TReconcile => "reconcile"
  end.

(** [NonceLeaseTransitionResult]; the rejection's reason is always [illegal_transition]. *)
Inductive NonceLeaseTransitionResult : Type :=
| Accepted (state : NonceLeaseState)
| RejectedTransition (current : NonceLeaseState) (transition : NonceLeaseTransition).

#[global] Instance NonceLeaseTransitionResult_eq_dec : EqDecision NonceLeaseTransitionResult.
Proof. solve_decision. Defined.

Definition acceptedNonceTransition (state : NonceLeaseState) : NonceLeaseTransitionResult :=
  Accepted state.

Definition rejectedNonceTransition (current : NonceLeaseState) (transition : NonceLeaseTransition)
    : NonceLeaseTransitionResult :=
  RejectedTransition current transition.

Definition reduceReleaseNonceLeaseState (current : NonceLeaseState) : NonceLeaseTransitionResult :=
  match current with
  | Released => acceptedNonceTransition current
  | Reserved => acceptedNonceTransition Released
  | _ => rejectedNonceTransition current TRelease
  end.

Definition reduceExpireNonceLeaseState (current : NonceLeaseState) : NonceLeaseTransitionResult :=
  match current with
  | Reserved => acceptedNonceTransition Expired
  | Signed => acceptedNonceTransition SignedLeaseExpired
  | Expired | SignedLeaseExpired => acceptedNonceTransition current
  | _ => rejectedNonceTransition current TExpire
  end.

Definition reduceMarkSignedNonceLeaseState (current : NonceLeaseState)
    : NonceLeaseTransitionResult :=
  match current with
  | Reserved | Signed => acceptedNonceTransition Signed
  | _ => rejectedNonceTransition current TMarkSigned
  end.

Definition reduceBroadcastAcceptedNonceLeaseState (current : NonceLeaseState)
    : NonceLeaseTransitionResult :=
  match current with
  | Signed | BroadcastAccepted => acceptedNonceTransition BroadcastAccepted
  | _ => rejectedNonceTransition current TBroadcastAccepted
  end.

Definition reduceBroadcastRejectedNonceLeaseState (current : NonceLeaseState)
    : NonceLeaseTransitionResult :=
  match current with
  | Signed | BroadcastRejected => acceptedNonceTransition BroadcastRejected
  | _ => rejectedNonceTransition current TBroadcastRejected
  end.

Definition reduceFinalizeNonceLeaseState (current : NonceLeaseState) : NonceLeaseTransitionResult :=
  match current with
  | BroadcastAccepted | Finalized => acceptedNonceTransition Finalized
  | _ => rejectedNonceTransition current TFinalize
  end.

Definition reduceDropNonceLeaseState (current : NonceLeaseState) : NonceLeaseTransitionResult :=
  match current with
  | BroadcastAccepted | Dropped => acceptedNonceTransition Dropped
  | _ => rejectedNonceTransition current TDrop
  end.

Definition reduceReplaceNonceLeaseState (current : NonceLeaseState) : NonceLeaseTransitionResult :=
  match current with
  | BroadcastAccepted | Replaced => acceptedNonceTransition Replaced
  | _ => rejectedNonceTransition current TReplace
  end.

Definition reduceReconcileNonceLeaseState (current : NonceLeaseState)
    : NonceLeaseTransitionResult :=
  match current with
  | Released | Expired | SignedLeaseExpired | BroadcastRejected | Dropped | Replaced
  | Reconciled => acceptedNonceTransition Reconciled
  | _ => rejectedNonceTransition current TReconcile
  end.

Definition tryReduceNonceLeaseState (current : NonceLeaseState) (transition : NonceLeaseTransition)
    : NonceLeaseTransitionResult :=
  match transition with
  | TRelease => reduceReleaseNonceLeaseState current
  | TExpire => reduceExpireNonceLeaseState current
  | TMarkSigned => reduceMarkSignedNonceLeaseState current
  | TBroadcastAccepted => reduceBroadcastAcceptedNonceLeaseState current
  | TBroadcastRejected => reduceBroadcastRejectedNonceLeaseState current
  | TFinalize => reduceFinalizeNonceLeaseState current
  | TDrop => reduceDropNonceLeaseState current
  | TReplace => reduceReplaceNonceLeaseState current
  | TReconcile => reduceReconcileNonceLeaseState current
  end.

Definition createIllegalNonceTransitionError (current : NonceLeaseState) (transition : string)
    : Exn :=
  JsError ("[NonceCoordinator] illegal nonce lease transition: "
             +:+ lease_state_string current +:+ " -> " +:+ transition).

Definition reduceNonceLeaseState (current : NonceLeaseState) (transition : NonceLeaseTransition)
    : Result NonceLeaseState :=
  match tryReduceNonceLeaseState current transition with
  | Accepted state => Ok state
  | RejectedTransition current transition =>
      Throw (createIllegalNonceTransitionError current (transition_string transition))
  end.

Definition isInFlightNonceLeaseState (state : NonceLeaseState) : bool :=
  bool_decide (state = Reserved) || bool_decide (state = Signed).

Definition isActiveEvmLeaseState (state : NonceLeaseState) : bool :=
  bool_decide (state = Reserved) || bool_decide (state = Signed)
  || bool_decide (state = BroadcastAccepted).

Definition isActiveNearLeaseState (state : NonceLeaseState) : bool :=
  bool_decide (state = Reserved) || bool_decide (state = Signed)
  || bool_decide (state = BroadcastAccepted).

Definition isActiveCoordinationLeaseRecord (record : NonceLaneCoordinationRecord) (nowMs : Z)
    : bool :=
  match rec_lifecycle record with
  | DurableBroadcastAccepted _ => true
  | DurableReserved | DurableSigned => nowMs <? rec_expiresAtMs record
  end.

(** ** Runs of the machine *)

(** A sequence of transitions, each of which the reducer accepts. *)
Inductive lease_run : NonceLeaseState -> list NonceLeaseTransition -> NonceLeaseState -> Prop :=
| run_nil s : lease_run s [] s
| run_cons s t s' ts s'' :
    tryReduceNonceLeaseState s t = Accepted s' -> lease_run s' ts s'' ->
    lease_run s (t :: ts) s''.

(** How far a state is from the end of its lifecycle. *)
Definition remaining_changes (s : NonceLeaseState) : nat :=
  match s with
  | Reserved => 4
  | Signed => 3
  | BroadcastAccepted => 2
  | Released | Expired | SignedLeaseExpired | BroadcastRejected | Dropped | Replaced => 1
  | Finalized | Reconciled => 0
  end.

(** The number of transitions of a run that change the state. *)
Fixpoint changes (s : NonceLeaseState) (ts : list NonceLeaseTransition) : nat :=
  match ts with
  | [] => 0
  | t :: ts' =>
      match tryReduceNonceLeaseState s t with
      | Accepted s' => (if decide (s' = s) then 0 else 1) + changes s' ts'
      | RejectedTransition _ _ => 0
      end
  end.

(** Case analysis on a call of the reducer. *)
Ltac lease_cases H s t := intros H; destruct s, t; cbv in H; simplify_eq.

Lemma reduce_idempotent s t s' :
  tryReduceNonceLeaseState s t = Accepted s' -> tryReduceNonceLeaseState s' t = Accepted s'.
Proof. by lease_cases H s t. Qed.

Lemma reduce_rank s t s' :
  tryReduceNonceLeaseState s t = Accepted s' ->
  s' = s \/ (remaining_changes s' < remaining_changes s)%nat.
Proof.
  lease_cases H s t; (by left) || (right; simpl; lia).
Qed.

Lemma reduce_inactive s t s' :
  tryReduceNonceLeaseState s t = Accepted s' ->
  isActiveEvmLeaseState s = false -> isActiveEvmLeaseState s' = false.
Proof. by lease_cases H s t. Qed.

Lemma reduce_rejected s t c u :
  tryReduceNonceLeaseState s t = RejectedTransition c u -> c = s /\ u = t.
Proof. by lease_cases H s t. Qed.

Lemma active_near_evm s : isActiveNearLeaseState s = isActiveEvmLeaseState s.
Proof. done. Qed.

(** A state before an accepted broadcast is reached only through it, and so on
    down the chain: the only predecessors of each state of the happy path. *)
Lemma reduce_into_finalized s t :
  tryReduceNonceLeaseState s t = Accepted Finalized ->
  t = TFinalize /\ (s = BroadcastAccepted \/ s = Finalized).
Proof. lease_cases H s t; auto. Qed.

Lemma reduce_into_broadcast s t :
  tryReduceNonceLeaseState s t = Accepted BroadcastAccepted ->
  t = TBroadcastAccepted /\ (s = Signed \/ s = BroadcastAccepted).
Proof. lease_cases H s t; auto. Qed.

Lemma reduce_into_signed s t :
  tryReduceNonceLeaseState s t = Accepted Signed -> t = TMarkSigned /\ (s = Reserved \/ s = Signed).
Proof. lease_cases H s t; auto. Qed.

Lemma run_app s ts us s'' :
  lease_run s (ts ++ us) s'' -> exists s', lease_run s ts s' /\ lease_run s' us s''.
Proof.
  revert s. induction ts as [|t ts IH]; intros s; simpl; [eauto using run_nil|].
  inversion 1 as [|? ? s1 ? ? Ht Hr]; subst.
  destruct (IH _ Hr) as (s' & ? & ?). eauto using run_cons.
Qed.

(** A run into a state that has a single entry splits at that entry. *)
Lemma run_entry (target pred : NonceLeaseState) (entry : NonceLeaseTransition) ts : forall s,
  (forall s' t, tryReduceNonceLeaseState s' t = Accepted target ->
     t = entry /\ (s' = pred \/ s' = target)) ->
  s <> target -> lease_run s ts target ->
  exists before after, ts = before ++ entry :: after /\ lease_run s before pred.
Proof.
  induction ts as [|t ts IH]; intros s Hin Hne; inversion 1 as [|? ? s1 ? ? Ht Hr]; subst; [done|].
  destruct (decide (s1 = target)) as [->|Hs1].
  - destruct (Hin _ _ Ht) as [-> [-> | ->]]; [|done]. exists [], ts. split; [done|]. constructor.
  - destruct (IH s1 Hin Hs1 Hr) as (b & a & -> & Hb). exists (t :: b), a.
    split; [done|]. eauto using run_cons.
Qed.

(** A lease that ends finalized was marked signed, then accepted by the
    network, then finalized, in this order. *)
Theorem finalized_after_signed_and_broadcast ts :
  lease_run Reserved ts Finalized ->
  exists a b c d, ts = a ++ TMarkSigned :: b ++ TBroadcastAccepted :: c ++ TFinalize :: d.
Proof.
  intros H.
  destruct (run_entry Finalized BroadcastAccepted TFinalize ts Reserved reduce_into_finalized ltac:(done) H)
    as (ts1 & d & -> & H1).
  destruct (run_entry BroadcastAccepted Signed TBroadcastAccepted ts1 Reserved reduce_into_broadcast
              ltac:(done) H1) as (ts2 & c & -> & H2).
  destruct (run_entry Signed Reserved TMarkSigned ts2 Reserved reduce_into_signed ltac:(done) H2)
    as (a & b & -> & _).
  exists a, b, c, d. by rewrite <- !app_assoc; simpl; rewrite <- ?app_assoc.
Qed.

Lemma finalized_after_signed_and_broadcast_witness :
  exists a b c d, [TMarkSigned; TBroadcastAccepted; TFinalize]
    = a ++ TMarkSigned :: b ++ TBroadcastAccepted :: c ++ TFinalize :: d.
Proof.
  apply (finalized_after_signed_and_broadcast [TMarkSigned; TBroadcastAccepted; TFinalize]).
  repeat (eapply run_cons; [reflexivity|]). apply run_nil.
Defined.

(** No run makes a lease that let go of its nonce hold it again, and a lease
    changes state at most four times however often its operations are called. *)
Theorem lease_run_monotone s ts s' :
  lease_run s ts s' ->
  (isActiveEvmLeaseState s = false -> isActiveEvmLeaseState s' = false) /\
  (changes s ts <= 4)%nat.
Proof.
  intros H. split.
  - induction H as [|s t s1 ts s2 Ht _ IH]; eauto using reduce_inactive.
  - transitivity (remaining_changes s); [|destruct s; simpl; lia].
    clear H. revert s. induction ts as [|t ts IH]; intros s; simpl; [lia|].
    destruct (tryReduceNonceLeaseState s t) as [s1|] eqn:Ht; [|lia].
    specialize (IH s1). destruct (reduce_rank _ _ _ Ht) as [->|Hlt];
      case_decide; subst; lia || done.
Qed.

Lemma lease_run_monotone_witness :
  (isActiveEvmLeaseState Released = false -> isActiveEvmLeaseState Reconciled = false) /\
  (changes Released [TRelease; TReconcile] <= 4)%nat.
Proof.
  apply lease_run_monotone. repeat (eapply run_cons; [reflexivity|]). apply run_nil.
Defined.

(** Applying a transition again changes nothing, and a rejected transition is
    the error that names the state and the transition. *)
Theorem reduceNonceLeaseState_retry s t :
  match reduceNonceLeaseState s t with
  | Ok s' => reduceNonceLeaseState s' t = Ok s'
  | Throw e => e = createIllegalNonceTransitionError s (transition_string t)
  end.
Proof.
  unfold reduceNonceLeaseState. destruct (tryReduceNonceLeaseState s t) as [s'|c u] eqn:E.
  - by rewrite (reduce_idempotent _ _ _ E).
  - by destruct (reduce_rejected _ _ _ _ E) as [-> ->].
Qed.
