(* ===== verification/NonceLaneKeys.v ===== *)
(** * Lane keys and lease identifiers

    [nonce/nonceLaneKeys.ts]: the strings that name a lane, a lease and a
    batch.  The lane key is the key of every lock and of every map of lanes, so
    the main result is that two lanes share a key exactly when they are the same
    lane. *)

From S2P Require Import Prelude JsValues ChainTarget NonceTypes.
Local Open Scope Z_scope.

(** [ReserveNonceInput] and [ManagedNonceReservation] of [nonceBackend.ts]. *)
Record ReserveNonceInput : Type := mkReserveInput {
  rin_chainTarget : ThresholdEcdsaChainTarget;
  rin_subjectId : string;
  rin_sender : string;
  rin_nonceKey : option Z;
}.

Record ManagedNonceReservation : Type := mkReservation {
  res_input : ReserveNonceInput;
  res_nonce : Z;
  res_leaseId : string;
  res_operationId : string;
  res_operationFingerprint : string;
  res_reservedAtMs : option Z;
  res_expiresAtMs : option Z;
}.

(** [NonceLeaseRef] of [interfaces/nonceLease.ts]. *)
Record NonceLeaseRef : Type := mkLeaseRef {
  ref_leaseId : string;
  ref_operationId : string;
  ref_operationFingerprint : string;
  ref_nonce : string;
  ref_batchId : option string;
  ref_txIndex : option Z;
}.

(** A part of a key: a string, or a number whose decimal form is used. *)
Definition encodeNonceKeyPart (value : string) : string :=
  Z_to_string (Z.of_nat (String.length value)) +:+ ":" +:+ value.

Definition encodeNonceKeyParts (parts : list string) : string :=
  join "|" (map encodeNonceKeyPart parts).

Definition nearNonceLaneKey (lane : NearNonceLane) : string :=
  encodeNonceKeyParts
    ["near"; near_networkKey lane; near_walletId lane; near_nearAccountId lane;
     near_publicKey lane].

Definition nonceLaneKey (lane : NonceLane) : string :=
  match lane with
  | NearLane lane => nearNonceLaneKey lane
  | EvmLane lane =>
      encodeNonceKeyParts
        ["evm"; thresholdEcdsaChainTargetKey (evm_chainTarget lane); evm_subjectId lane;
         to_lower (evm_sender lane);
         match evm_nonceKey lane with Some k => Z_to_string k | None => EmptyString end]
  end.

Definition nonceLaneNetworkKey (lane : NonceLane) : string :=
  match lane with
  | NearLane lane => near_networkKey lane
  | EvmLane lane => thresholdEcdsaChainTargetKey (evm_chainTarget lane)
  end.

Definition nonceLaneSubjectId (lane : NonceLane) : string :=
  match lane with
  | NearLane lane => near_walletId lane
  | EvmLane lane => evm_subjectId lane
  end.

Definition evmReserveNonceInputToLane (input : ReserveNonceInput) : EvmNonceLane :=
  mkEvmLane (rin_chainTarget input) (rin_subjectId input) (rin_sender input) (rin_nonceKey input).

Definition evmLaneToReserveNonceInput (lane : EvmNonceLane) : ReserveNonceInput :=
  mkReserveInput (evm_chainTarget lane) (evm_subjectId lane) (evm_sender lane) (evm_nonceKey lane).

Definition assertEvmLease (lease : NonceLease) : Result (EvmNonceLane * Z) :=
  match body lease with
  | EvmBody lane nonce => Ok (lane, nonce)
  | NearBody _ _ => Throw (JsError "[NonceCoordinator] expected an EVM-family nonce lease")
  end.

Definition evmNonceLeaseToManagedReservation (lease : NonceLease) : Result ManagedNonceReservation :=
  match assertEvmLease lease with
  | Throw e => Throw e
  | Ok (lane, nonce) =>
      Ok (mkReservation (evmLaneToReserveNonceInput lane) nonce (leaseId lease) (operationId lease)
            (operationFingerprint lease) (Some (reservedAtMs lease)) (Some (expiresAtMs lease)))
  end.

Definition evmManagedReservationToLane (reservation : ManagedNonceReservation) : EvmNonceLane :=
  evmReserveNonceInputToLane (res_input reservation).

Definition nonceLeaseToRef (lease : NonceLease) : NonceLeaseRef :=
  mkLeaseRef (leaseId lease) (operationId lease) (operationFingerprint lease)
    (lease_nonce_string lease)
    (match batchId lease with
     | Some b => if nonempty b then Some b else None
     | None => None
     end)
    (match txIndex lease with
     | Some i => if is_safe_integer i then Some i else None
     | None => None
     end).

Definition assertOperationMatches (lease : NonceLease) (operationId' operationFingerprint' : string)
    : Result unit :=
  if negb (bool_decide (operationId lease = operationId'))
  then Throw (JsError "[NonceCoordinator] nonce lease operation mismatch")
  else if negb (bool_decide (operationFingerprint lease = operationFingerprint'))
  then Throw (JsError "[NonceCoordinator] nonce lease operation fingerprint mismatch")
  else Ok tt.

(** The identifiers of a lease and of a batch; [randomId] is what
    [secureRandomId] drew. *)
Definition createNonceLeaseId (operationId chain nonce randomId : string) : string :=
  "nonce-lease-v1:" +:+ encodeNonceKeyParts [chain; operationId; nonce; randomId].

Definition createNonceBatchId (operationId chain firstNonce : string) (count : Z)
    (randomId : string) : string :=
  "nonce-batch-v1:"
    +:+ encodeNonceKeyParts [chain; operationId; firstNonce; Z_to_string count; randomId].

(** ** The encoding is injective *)

Lemma app_split_at (p : ascii -> bool) c s1 : forall s2 r1 r2,
  all_chars p s1 = true -> all_chars p s2 = true -> p c = false ->
  s1 +:+ String c r1 = s2 +:+ String c r2 -> s1 = s2 /\ r1 = r2.
Proof.
  induction s1 as [|a s1 IH]; intros [|b s2] r1 r2 H1 H2 Hc; cbn in *.
  - by intros [=].
  - intros [= -> _]. apply andb_prop in H2 as [? _]. congruence.
  - intros [= -> _]. apply andb_prop in H1 as [? _]. congruence.
  - intros [= -> E]. apply andb_prop in H1 as [_ H1], H2 as [_ H2].
    by destruct (IH _ _ _ H1 H2 Hc E) as [-> ->].
Qed.

Lemma app_eq_length (s1 : string) : forall s2 r1 r2,
  String.length s1 = String.length s2 -> s1 +:+ r1 = s2 +:+ r2 -> s1 = s2 /\ r1 = r2.
Proof.
  induction s1 as [|a s1 IH]; intros [|b s2] r1 r2; cbn; [by auto|done|done|].
  intros [= Hl] [= -> E]. by destruct (IH _ _ _ Hl E) as [-> ->].
Qed.

(** An encoded part can be read off the front of a string. *)
Lemma encodeNonceKeyPart_prefix v1 v2 r1 r2 :
  encodeNonceKeyPart v1 +:+ r1 = encodeNonceKeyPart v2 +:+ r2 -> v1 = v2 /\ r1 = r2.
Proof.
  unfold encodeNonceKeyPart. rewrite !append_assoc. intros H.
  apply (app_split_at is_digit) in H as [Hl Hr]; [|apply Z_to_string_digits; lia..|done].
  apply Z_to_string_inj in Hl. apply app_eq_length in Hr; [done|lia].
Qed.

Lemma encodeNonceKeyPart_nonempty v r : encodeNonceKeyPart v +:+ r <> EmptyString.
Proof.
  unfold encodeNonceKeyPart. rewrite append_assoc.
  pose proof (Z_to_string_nonempty (Z.of_nat (String.length v))).
  by destruct (Z_to_string _).
Qed.

Lemma append_empty_r (s : string) : s +:+ "" = s.
Proof. induction s as [|a s IH]; [done|]. by change (String a (s +:+ "") = String a s); rewrite IH. Qed.

(** What follows an encoded part in a key: nothing, or a separator and the rest. *)
Definition encoded_rest (parts : list string) : string :=
  match parts with
  | [] => EmptyString
  | _ => "|" +:+ encodeNonceKeyParts parts
  end.

Lemma encodeNonceKeyParts_cons v vs :
  encodeNonceKeyParts (v :: vs) = encodeNonceKeyPart v +:+ encoded_rest vs.
Proof.
  unfold encodeNonceKeyParts. destruct vs as [|u us]; simpl; [by rewrite append_empty_r|done].
Qed.

Lemma encoded_rest_inj ps qs :
  (forall qs', encodeNonceKeyParts ps = encodeNonceKeyParts qs' -> ps = qs') ->
  encoded_rest ps = encoded_rest qs -> ps = qs.
Proof.
  intros Hi. destruct ps as [|p ps], qs as [|q qs]; simpl; [done..|].
  intros H. apply Hi. by apply (append_inj_l "|") in H.
Qed.

Lemma encodeNonceKeyParts_inj ps : forall qs,
  encodeNonceKeyParts ps = encodeNonceKeyParts qs -> ps = qs.
Proof.
  induction ps as [|p ps IH]; intros [|q qs]; [done|..];
    rewrite ?encodeNonceKeyParts_cons; intros H.
  - symmetry in H. by apply encodeNonceKeyPart_nonempty in H.
  - by apply encodeNonceKeyPart_nonempty in H.
  - apply encodeNonceKeyPart_prefix in H as [-> H]. f_equal. by apply encoded_rest_inj.
Qed.

#[global] Instance encodeNonceKeyParts_Inj : Inj (=) (=) encodeNonceKeyParts.
Proof. intros ps qs. apply encodeNonceKeyParts_inj. Qed.

(** ** Lane identity *)

(** Two lanes are the same lane: the same NEAR access key, or the same EVM
    account on the same chain, whatever the case of the sender's digits and
    whatever name the network is given. *)
Definition same_lane (l1 l2 : NonceLane) : Prop :=
  match l1, l2 with
  | NearLane n1, NearLane n2 => n1 = n2
  | EvmLane e1, EvmLane e2 =>
      target_kind (evm_chainTarget e1) = target_kind (evm_chainTarget e2) /\
      target_chainId (evm_chainTarget e1) = target_chainId (evm_chainTarget e2) /\
      evm_subjectId e1 = evm_subjectId e2 /\
      to_lower (evm_sender e1) = to_lower (evm_sender e2) /\
      evm_nonceKey e1 = evm_nonceKey e2
  | _, _ => False
  end.

Lemma nonceKey_string_inj (k1 k2 : option Z) :
  match k1 with Some k => Z_to_string k | None => EmptyString end =
  match k2 with Some k => Z_to_string k | None => EmptyString end -> k1 = k2.
Proof.
  destruct k1 as [z1|], k2 as [z2|]; [|pose proof (Z_to_string_nonempty z1)
    |pose proof (Z_to_string_nonempty z2)|done].
  - by intros ->%Z_to_string_inj.
  - by destruct (Z_to_string z1).
  - by destruct (Z_to_string z2).
Qed.

(** Two lanes have the same key, and so share locks, lease maps and durable
    rows, exactly when they are the same lane. *)
Theorem nonceLaneKey_eq_iff l1 l2 : nonceLaneKey l1 = nonceLaneKey l2 <-> same_lane l1 l2.
Proof.
  destruct l1 as [e1|n1], l2 as [e2|n2]; simpl; unfold nearNonceLaneKey; split.
  - intros H%encodeNonceKeyParts_inj. injection H as Ht Hs Hd Hk.
    apply chainTargetKey_eq_iff in Ht as [??]. split_and!; auto using nonceKey_string_inj.
  - intros (Hk & Hc & -> & -> & ->).
    by rewrite (proj2 (chainTargetKey_eq_iff _ _) (conj Hk Hc)).
  - by intros H%encodeNonceKeyParts_inj.
  - done.
  - by intros H%encodeNonceKeyParts_inj.
  - done.
  - intros H%encodeNonceKeyParts_inj. injection H as ????. destruct n1, n2. simpl in *. congruence.
  - by intros ->.
Qed.

(** A lane key or lease identifier in the form the code builds it is trimmed
    and not empty, so the durable store keeps it as it is. *)
Lemma encodeNonceKeyParts_nonempty p ps : nonempty (encodeNonceKeyParts (p :: ps)) = true.
Proof.
  rewrite encodeNonceKeyParts_cons.
  pose proof (encodeNonceKeyPart_nonempty p (encoded_rest ps)). by destruct (_ +:+ _).
Qed.

(** Lease identifiers drawn with different randomness, or for different
    operations, chains or nonces, are different. *)
Lemma createNonceLeaseId_inj op1 ch1 n1 r1 op2 ch2 n2 r2 :
  createNonceLeaseId op1 ch1 n1 r1 = createNonceLeaseId op2 ch2 n2 r2 ->
  op1 = op2 /\ ch1 = ch2 /\ n1 = n2 /\ r1 = r2.
Proof.
  intros H%(append_inj_l "nonce-lease-v1:")%encodeNonceKeyParts_inj.
  by injection H as -> -> -> ->.
Qed.

(** A lease handed out as a reservation names the lane it was leased on. *)
Lemma reservation_lane_roundtrip lease lane nonce r :
  body lease = EvmBody lane nonce -> evmNonceLeaseToManagedReservation lease = Ok r ->
  evmManagedReservationToLane r = lane /\ res_nonce r = nonce /\ res_leaseId r = leaseId lease.
Proof.
  unfold evmNonceLeaseToManagedReservation, assertEvmLease. intros ->. intros [= <-].
  by destruct lane.
Qed.

#[export] Hint Resolve encodeNonceKeyParts_nonempty : js.
