(* ===== verification/NonceRecords.v ===== *)
(** * Durable lease records

    The three encodings of a durable lease: the coordinator's record, the object
    stored by [indexedDB/nonceLaneCoordinationStore.ts], and the row of
    [indexedDB/seamsWalletDB/nonceLeaseRows.ts]; and the boundary parser of
    [nonce/nonceCoordinationRecordBoundary.ts] that reads them back. *)

From S2P Require Import Prelude JsValues ChainTarget NonceTypes NonceLaneKeys.
Local Open Scope Z_scope.

Definition is_string (s : string) (v : JsVal) : bool :=
  match v with JString t => bool_decide (t = s) | _ => false end.

(** ** [nonce/nonceCoordinationRecordBoundary.ts] *)

Definition rawString (value : JsVal) : string :=
  match value with JString s => trim s | _ => EmptyString end.

Definition parseDecimalBigint (value : JsVal) : option Z :=
  match value with JString s => parse_digits s | _ => None end.

Definition parseSafeInteger (value : JsVal) : option Z :=
  match value with
  | JNumber n => safe_integer_value n
  | JString s =>
      match parse_digits s with
      | Some z => if is_safe_integer z then Some z else None
      | None => None
      end
  | _ => None
  end.

Definition parseEvmAddress (value : JsVal) : option string :=
  let sender := to_lower (rawString value) in
  if is_0x_hex 40 sender then Some sender else None.

Definition parseTxHash (value : string) : option string :=
  let normalized := to_lower (rawString (JString value)) in
  if is_0x_hex 64 normalized then Some normalized else None.

Definition parseChainTarget (value : JsVal) : option ThresholdEcdsaChainTarget :=
  match thresholdEcdsaChainTargetFromRequest (if isPlainObject value then value else JObject []) with
  | Ok target => Some target
  | Throw _ => None
  end.

Definition malformedRecordResult (obj : JsVal) (laneKey leaseId family : string)
    : NonceLaneCoordinationReadResult :=
  let networkKey := rawString (jget "networkKey" obj) in
  let walletId := rawString (jget "walletId" obj) in
  let accountId := if nonempty walletId then walletId else rawString (jget "accountId" obj) in
  ReadFailed
    (mkDegradation MalformedDurableRecord
       (if bool_decide (family = "evm") then Some FEvm
        else if bool_decide (family = "near") then Some FNear else None)
       (if nonempty networkKey then Some networkKey else None)
       (if nonempty accountId then Some accountId else None)
       NoFallback)
    laneKey leaseId.

Definition parseDurableLeaseLifecycle (obj : JsVal) : option NonceDurableLeaseLifecycle :=
  let st := jget "state" obj in
  let txHash := jget "txHash" obj in
  if is_string "reserved" st then
    match txHash with JUndefined => Some DurableReserved | _ => None end
  else if is_string "signed" st then
    match txHash with JUndefined => Some DurableSigned | _ => None end
  else if is_string "broadcast_accepted" st then
    let txHash := rawString txHash in
    if nonempty txHash then Some (DurableBroadcastAccepted txHash) else Some DurableSigned
  else None.

Definition normalizeEvmDurableLifecycle (lifecycle : NonceDurableLeaseLifecycle)
    : NonceDurableLeaseLifecycle :=
  match lifecycle with
  | DurableBroadcastAccepted txHash =>
      match parseTxHash txHash with
      | Some txHash => DurableBroadcastAccepted txHash
      | None => DurableSigned
      end
  | _ => lifecycle
  end.

(** [ParsedBaseInput]. *)
Record ParsedBaseInput : Type := mkParsedBase {
  pb_obj : JsVal;
  pb_leaseId : string;
  pb_laneKey : string;
  pb_networkKey : string;
  pb_accountId : string;
  pb_nearAccountId : string;
  pb_nonce : Z;
  pb_lifecycle : NonceDurableLeaseLifecycle;
  pb_operationId : string;
  pb_operationFingerprint : string;
  pb_reservedAtMs : Z;
  pb_expiresAtMs : Z;
  pb_updatedAtMs : Z;
}.


Definition buildBaseRecord (input : ParsedBaseInput) (lifecycle : NonceDurableLeaseLifecycle)
    (body : RecordBody) : NonceLaneCoordinationRecord :=
  let obj := pb_obj input in
  mkRecord (pb_laneKey input) (pb_leaseId input) (pb_networkKey input) (pb_nonce input)
    (pb_operationId input) (pb_operationFingerprint input) (pb_reservedAtMs input)
    (pb_expiresAtMs input) (pb_updatedAtMs input)
    (some_nonempty (rawString (jget "runtimeId" obj)))
    (some_nonempty (rawString (jget "fencingToken" obj)))
    (some_nonempty (rawString (jget "batchId" obj)))
    (if is_nullish (jget "txIndex" obj) then None else parseSafeInteger (jget "txIndex" obj))
    lifecycle body.

(** [toWalletId] throws on an account id that is not a wallet id. *)
Definition parseEvmRecord (input : ParsedBaseInput) : Result NonceLaneCoordinationReadResult :=
  let obj := pb_obj input in
  let lifecycle := normalizeEvmDurableLifecycle (pb_lifecycle input) in
  let rawNonceKey := jget "nonceKey" obj in
  let nonceKey :=
    if is_nullish rawNonceKey then Some None else Some <$> parseDecimalBigint rawNonceKey in
  match parseChainTarget (jget "chainTarget" obj), parseEvmAddress (jget "sender" obj), nonceKey with
  | Some chainTarget, Some sender, Some nonceKey =>
      if nonempty (pb_accountId input) then
        match toWalletId (JString (pb_accountId input)) with
        | Throw e => Throw e
        | Ok accountId =>
            let record :=
              buildBaseRecord input lifecycle (EvmRecord chainTarget accountId sender nonceKey) in
            let lane := EvmLane (mkEvmLane chainTarget accountId sender nonceKey) in
            Ok (ReadOk (mkParsed record lane (nonceLaneKey lane) (rec_nonce record)))
        end
      else Ok (malformedRecordResult obj (pb_laneKey input) (pb_leaseId input) "evm")
  | _, _, _ => Ok (malformedRecordResult obj (pb_laneKey input) (pb_leaseId input) "evm")
  end.

Definition parseNearRecord (input : ParsedBaseInput) : NonceLaneCoordinationReadResult :=
  let obj := pb_obj input in
  let publicKey := rawString (jget "publicKey" obj) in
  let walletId := rawString (jget "walletId" obj) in
  if nonempty (pb_nearAccountId input) && nonempty walletId && nonempty publicKey then
    let record :=
      buildBaseRecord input (pb_lifecycle input)
        (NearRecord walletId (pb_nearAccountId input) publicKey) in
    let lane :=
      NearLane (mkNearLane (rec_networkKey record) walletId (pb_nearAccountId input) publicKey) in
    ReadOk (mkParsed record lane (nonceLaneKey lane) (rec_nonce record))
  else malformedRecordResult obj (pb_laneKey input) (pb_leaseId input) "near".

Definition parseNonceLaneCoordinationRecord (value : JsVal)
    : Result NonceLaneCoordinationReadResult :=
  if negb (isPlainObject value) then
    Ok (malformedRecordResult (JObject []) EmptyString EmptyString EmptyString)
  else
    let obj := value in
    let leaseId := rawString (jget "leaseId" obj) in
    let laneKey := rawString (jget "laneKey" obj) in
    let family := rawString (jget "family" obj) in
    let networkKey := rawString (jget "networkKey" obj) in
    let accountId := rawString (jget "accountId" obj) in
    let nearAccountId := rawString (jget "nearAccountId" obj) in
    let malformed := malformedRecordResult obj laneKey leaseId family in
    match jget "v" obj with
    | JNumber (NInt 1) =>
        let operationId := rawString (jget "operationId" obj) in
        let operationFingerprint := rawString (jget "operationFingerprint" obj) in
        match parseDecimalBigint (jget "nonce" obj), parseDurableLeaseLifecycle obj,
              parseSafeInteger (jget "reservedAtMs" obj),
              parseSafeInteger (jget "expiresAtMs" obj),
              parseSafeInteger (jget "updatedAtMs" obj) with
        | Some nonce, Some lifecycle, Some reservedAtMs, Some expiresAtMs, Some updatedAtMs =>
            let input :=
              mkParsedBase obj leaseId laneKey networkKey accountId nearAccountId nonce lifecycle
                operationId operationFingerprint reservedAtMs expiresAtMs updatedAtMs in
            if nonempty leaseId && nonempty laneKey && nonempty networkKey && nonempty operationId
               && nonempty operationFingerprint then
              if bool_decide (family = "evm") then parseEvmRecord input
              else if bool_decide (family = "near") then Ok (parseNearRecord input)
              else Ok malformed
            else Ok malformed
        | _, _, _, _, _ => Ok malformed
        end
    | _ => Ok malformed
    end.

(** ** [indexedDB/nonceLaneCoordinationStore.ts]: writing *)

Definition truthy_string_field (key : string) (v : option string) : list (string * JsVal) :=
  match v with Some s => if nonempty s then [(key, JString s)] else [] | None => [] end.

Definition serializedRecordMetadata (record : NonceLaneCoordinationRecord)
    : list (string * JsVal) :=
  truthy_string_field "runtimeId" (rec_runtimeId record)
  ++ truthy_string_field "fencingToken" (rec_fencingToken record)
  ++ truthy_string_field "batchId" (rec_batchId record)
  ++ match rec_txIndex record with
     | Some i => if is_safe_integer i then [("txIndex", JInt i)] else []
     | None => []
     end.

Definition serialized_lifecycle (l : NonceDurableLeaseLifecycle) : list (string * JsVal) :=
  ("state", JString (lifecycle_string l)) ::
  match l with DurableBroadcastAccepted txHash => [("txHash", JString txHash)] | _ => [] end.

Definition serialized_common (record : NonceLaneCoordinationRecord) : list (string * JsVal) :=
  [("v", JInt 1);
   ("laneKey", JString (rec_laneKey record));
   ("leaseId", JString (rec_leaseId record));
   ("networkKey", JString (rec_networkKey record));
   ("nonce", JString (Z_to_string (rec_nonce record)));
   ("operationId", JString (rec_operationId record));
   ("operationFingerprint", JString (rec_operationFingerprint record));
   ("reservedAtMs", JInt (rec_reservedAtMs record));
   ("expiresAtMs", JInt (rec_expiresAtMs record));
   ("updatedAtMs", JInt (rec_updatedAtMs record))].

Definition serializeEvmCoordinationRecord (record : NonceLaneCoordinationRecord)
    (chainTarget : ThresholdEcdsaChainTarget) (accountId sender : string) (nonceKey : option Z)
    : JsVal :=
  JObject
    (serialized_common record
     ++ [("family", JString "evm"); ("chainTarget", target_object chainTarget);
         ("accountId", JString accountId); ("sender", JString sender)]
     ++ match nonceKey with Some k => [("nonceKey", JString (Z_to_string k))] | None => [] end
     ++ serializedRecordMetadata record
     ++ serialized_lifecycle (rec_lifecycle record)).

Definition serializeNearCoordinationRecord (record : NonceLaneCoordinationRecord)
    (walletId nearAccountId publicKey : string) : JsVal :=
  JObject
    (serialized_common record
     ++ [("family", JString "near"); ("walletId", JString walletId);
         ("nearAccountId", JString nearAccountId); ("publicKey", JString publicKey)]
     ++ serializedRecordMetadata record
     ++ serialized_lifecycle (rec_lifecycle record)).

Definition serialize_record (record : NonceLaneCoordinationRecord) : JsVal :=
  match rec_body record with
  | EvmRecord chainTarget accountId sender nonceKey =>
      serializeEvmCoordinationRecord record chainTarget accountId sender nonceKey
  | NearRecord walletId nearAccountId publicKey =>
      serializeNearCoordinationRecord record walletId nearAccountId publicKey
  end.

(** ** [indexedDB/seamsWalletDB/nonceLeaseRows.ts] *)

(** A store record is an object with the fields of [NonceLaneLeaseStoreRecord]. *)
Definition nonceLeaseWalletId (record : JsVal) : JsVal :=
  if is_string "near" (jget "family" record) then jget "walletId" record
  else jget "accountId" record.

Definition nonceLeaseNearAccountId (record : JsVal) : JsVal :=
  if is_string "near" (jget "family" record) then jget "nearAccountId" record
  else JString EmptyString.

Definition trimmed_or_empty (v : JsVal) : string :=
  normalizeTrimmedString (if truthy v then v else JString EmptyString).

(** [NonceLaneLeaseRow]: the columns the store indexes, and the record. *)
Record NonceLaneLeaseRow : Type := mkLeaseRow {
  row_lease_id : JsVal;
  row_lane_key : JsVal;
  row_wallet_id : JsVal;
  row_near_account_id : JsVal;
  row_state : JsVal;
  row_expires_at_ms : JsVal;
  row_record : JsVal;
}.

(** [Math.floor(Number(value))]. *)
Definition floor_number (v : JsVal) : NumVal :=
  match js_Number v with
  | NFraction f _ => NInt f
  | n => n
  end.

Definition nonceLeaseRow (record : JsVal) : Result NonceLaneLeaseRow :=
  let leaseId := trimmed_or_empty (jget "leaseId" record) in
  let laneKey := trimmed_or_empty (jget "laneKey" record) in
  let walletId := trimmed_or_empty (nonceLeaseWalletId record) in
  let nearAccountId := trimmed_or_empty (nonceLeaseNearAccountId record) in
  if nonempty leaseId && nonempty laneKey && nonempty walletId then
    Ok (mkLeaseRow (JString leaseId) (JString laneKey) (JString walletId)
          (if nonempty nearAccountId then JString nearAccountId else JUndefined)
          (jget "state" record)
          (JNumber (floor_number (jget "expiresAtMs" record)))
          record)
  else
    Throw (JsError "[SeamsWalletDB] nonce lease requires leaseId, laneKey, and wallet identity").

Definition parseStoredThresholdEcdsaChainTarget (value : JsVal)
    : option ThresholdEcdsaChainTarget :=
  if negb (isPlainObject value) then None
  else
    match thresholdEcdsaChainTargetFromRequest
            (JObject [("kind", jget "kind" value); ("namespace", jget "namespace" value);
                      ("chainId", jget "chainId" value); ("networkSlug", jget "networkSlug" value)])
    with
    | Ok target => Some target
    | Throw _ => None
    end.

Definition is_some {A} (o : option A) : bool := match o with Some _ => true | None => false end.

(** [x !== undefined && !parseStoredNonEmptyString(x)] does not hold. *)
Definition optional_stored_string (v : JsVal) : bool :=
  is_undefined v || is_some (parseStoredNonEmptyString v).

(** The head of [parseNonceLeaseRecord]: the fields both families share. *)
Definition stored_common_ok (value : JsVal) : bool :=
  let stored key := is_some (parseStoredNonEmptyString (jget key value)) in
  let st := jget "state" value in
  strict_eq (jget "v" value) (JInt 1)
  && stored "leaseId" && stored "laneKey" && stored "networkKey" && stored "nonce"
  && stored "operationId" && stored "operationFingerprint"
  && isSafeInteger (jget "reservedAtMs" value) && isSafeInteger (jget "expiresAtMs" value)
  && isSafeInteger (jget "updatedAtMs" value)
  && (is_string "reserved" st || is_string "signed" st || is_string "broadcast_accepted" st)
  && (if is_string "broadcast_accepted" st then stored "txHash"
      else is_undefined (jget "txHash" value))
  && optional_stored_string (jget "runtimeId" value)
  && optional_stored_string (jget "fencingToken" value)
  && optional_stored_string (jget "batchId" value)
  && (is_undefined (jget "txIndex" value) || isSafeInteger (jget "txIndex" value)).

(** The fields of the object it returns that both families share. *)
Definition stored_common_fields (value : JsVal) : list (string * JsVal) :=
  map (fun key => (key, jget key value))
    ["leaseId"; "laneKey"; "networkKey"; "nonce"; "operationId"; "operationFingerprint";
     "reservedAtMs"; "expiresAtMs"; "updatedAtMs"; "state"].

Definition stored_metadata_fields (value : JsVal) : list (string * JsVal) :=
  opt_field "runtimeId" (jget "runtimeId" value)
  ++ opt_field "fencingToken" (jget "fencingToken" value)
  ++ opt_field "batchId" (jget "batchId" value)
  ++ opt_field "txIndex" (jget "txIndex" value).

Definition stored_txHash_field (value : JsVal) : list (string * JsVal) :=
  if is_string "broadcast_accepted" (jget "state" value) then [("txHash", jget "txHash" value)]
  else [].

Definition parseNonceLeaseRecord (value : JsVal) : option JsVal :=
  if negb (isPlainObject value) then None
  else if negb (stored_common_ok value) then None
  else
    let stored key := parseStoredNonEmptyString (jget key value) in
    if is_string "near" (jget "family" value) then
      match stored "walletId", stored "nearAccountId", stored "publicKey" with
      | Some walletId, Some nearAccountId, Some publicKey =>
          Some (JObject
            (("v", JInt 1) :: stored_common_fields value
             ++ [("family", JString "near"); ("walletId", JString walletId);
                 ("nearAccountId", JString nearAccountId); ("publicKey", JString publicKey)]
             ++ stored_metadata_fields value ++ stored_txHash_field value))
      | _, _, _ => None
      end
    else if negb (is_string "evm" (jget "family" value)) then None
    else
      match parseStoredThresholdEcdsaChainTarget (jget "chainTarget" value), stored "sender",
            stored "accountId" with
      | Some chainTarget, Some sender, Some accountId =>
          if optional_stored_string (jget "nonceKey" value) then
            Some (JObject
              (("v", JInt 1) :: stored_common_fields value
               ++ [("family", JString "evm"); ("chainTarget", target_object chainTarget);
                   ("sender", JString sender); ("accountId", JString accountId)]
               ++ stored_metadata_fields value
               ++ opt_field "nonceKey" (jget "nonceKey" value)
               ++ stored_txHash_field value))
          else None
      | _, _, _ => None
      end.

Definition parseNonceLeaseRow (row : NonceLaneLeaseRow) : option JsVal :=
  match parseNonceLeaseRecord (row_record row) with
  | None => None
  | Some record =>
      if strict_eq (row_lease_id row) (jget "leaseId" record)
         && strict_eq (row_lane_key row) (jget "laneKey" record)
         && strict_eq (row_wallet_id row) (nonceLeaseWalletId record)
         && strict_eq (if truthy (row_near_account_id row) then row_near_account_id row
                       else JString EmptyString) (nonceLeaseNearAccountId record)
         && strict_eq (row_state row) (jget "state" record)
         && strict_eq (row_expires_at_ms row) (JNumber (floor_number (jget "expiresAtMs" record)))
      then Some record else None
  end.

(** ** Well-formed records *)

(** A string the boundary leaves as it is. *)
Definition stored_string (s : string) : Prop := trim s = s /\ nonempty s = true.

Definition stored_option (o : option string) : Prop :=
  match o with Some s => stored_string s | None => True end.

Definition lifecycle_wf (body : RecordBody) (l : NonceDurableLeaseLifecycle) : Prop :=
  match l, body with
  | DurableBroadcastAccepted txHash, EvmRecord _ _ _ _ => is_0x_hex 64 txHash = true
  | DurableBroadcastAccepted txHash, NearRecord _ _ _ => stored_string txHash
  | _, _ => True
  end.

Definition record_body_wf (body : RecordBody) : Prop :=
  match body with
  | EvmRecord chainTarget accountId sender nonceKey =>
      target_wf chainTarget /\ nonempty accountId = true /\
      hasWhitespaceOrControlCharacters accountId = false /\
      is_0x_hex 40 sender = true /\
      match nonceKey with Some k => 0 <= k | None => True end
  | NearRecord walletId nearAccountId publicKey =>
      stored_string walletId /\ stored_string nearAccountId /\ stored_string publicKey
  end.

Record record_wf (r : NonceLaneCoordinationRecord) : Prop := mkRecordWf {
  wf_laneKey : stored_string (rec_laneKey r);
  wf_leaseId : stored_string (rec_leaseId r);
  wf_networkKey : stored_string (rec_networkKey r);
  wf_nonce : 0 <= rec_nonce r;
  wf_operationId : stored_string (rec_operationId r);
  wf_operationFingerprint : stored_string (rec_operationFingerprint r);
  wf_reservedAtMs : is_safe_integer (rec_reservedAtMs r) = true;
  wf_expiresAtMs : is_safe_integer (rec_expiresAtMs r) = true;
  wf_updatedAtMs : is_safe_integer (rec_updatedAtMs r) = true;
  wf_runtimeId : stored_option (rec_runtimeId r);
  wf_fencingToken : stored_option (rec_fencingToken r);
  wf_batchId : stored_option (rec_batchId r);
  wf_txIndex : match rec_txIndex r with Some i => is_safe_integer i = true | None => True end;
  wf_lifecycle : lifecycle_wf (rec_body r) (rec_lifecycle r);
  wf_body : record_body_wf (rec_body r);
}.

(** The lane a record belongs to. *)
Definition record_lane (r : NonceLaneCoordinationRecord) : NonceLane :=
  match rec_body r with
  | EvmRecord chainTarget accountId sender nonceKey =>
      EvmLane (mkEvmLane chainTarget accountId sender nonceKey)
  | NearRecord walletId nearAccountId publicKey =>
      NearLane (mkNearLane (rec_networkKey r) walletId nearAccountId publicKey)
  end.

(** What the boundary returns for a record it accepts. *)
Definition parsed_of (r : NonceLaneCoordinationRecord) : ParsedNonceLaneCoordinationRecord :=
  mkParsed r (record_lane r) (nonceLaneKey (record_lane r)) (rec_nonce r).

(** ** The fields of an encoded record *)

Definition lifecycle_txHash (l : NonceDurableLeaseLifecycle) : JsVal :=
  match l with DurableBroadcastAccepted h => JString h | _ => JUndefined end.

(** [fields_of v r]: the object [v] has the fields of the record [r]. *)
Record fields_of (v : JsVal) (r : NonceLaneCoordinationRecord) : Prop := mkFieldsOf {
  fo_plain : isPlainObject v = true;
  fo_v : jget "v" v = JInt 1;
  fo_laneKey : jget "laneKey" v = JString (rec_laneKey r);
  fo_leaseId : jget "leaseId" v = JString (rec_leaseId r);
  fo_networkKey : jget "networkKey" v = JString (rec_networkKey r);
  fo_nonce : jget "nonce" v = JString (Z_to_string (rec_nonce r));
  fo_operationId : jget "operationId" v = JString (rec_operationId r);
  fo_operationFingerprint : jget "operationFingerprint" v = JString (rec_operationFingerprint r);
  fo_reservedAtMs : jget "reservedAtMs" v = JInt (rec_reservedAtMs r);
  fo_expiresAtMs : jget "expiresAtMs" v = JInt (rec_expiresAtMs r);
  fo_updatedAtMs : jget "updatedAtMs" v = JInt (rec_updatedAtMs r);
  fo_runtimeId : jget "runtimeId" v = jopt (rec_runtimeId r);
  fo_fencingToken : jget "fencingToken" v = jopt (rec_fencingToken r);
  fo_batchId : jget "batchId" v = jopt (rec_batchId r);
  fo_txIndex : jget "txIndex" v = joptInt (rec_txIndex r);
  fo_state : jget "state" v = JString (lifecycle_string (rec_lifecycle r));
  fo_txHash : jget "txHash" v = lifecycle_txHash (rec_lifecycle r);
  fo_body :
    match rec_body r with
    | EvmRecord chainTarget accountId sender nonceKey =>
        jget "family" v = JString "evm" /\ jget "chainTarget" v = target_object chainTarget /\
        jget "accountId" v = JString accountId /\ jget "sender" v = JString sender /\
        jget "nonceKey" v = jopt (Z_to_string <$> nonceKey)
    | NearRecord walletId nearAccountId publicKey =>
        jget "family" v = JString "near" /\ jget "walletId" v = JString walletId /\
        jget "nearAccountId" v = JString nearAccountId /\
        jget "publicKey" v = JString publicKey
    end;
}.

Definition metadata_field (r : NonceLaneCoordinationRecord) (k : string) : option JsVal :=
  if decide (k = "runtimeId") then JString <$> rec_runtimeId r
  else if decide (k = "fencingToken") then JString <$> rec_fencingToken r
  else if decide (k = "batchId") then JString <$> rec_batchId r
  else if decide (k = "txIndex") then JInt <$> rec_txIndex r
  else None.

Lemma mget_truthy_field k key o l :
  stored_option o ->
  mget k (truthy_string_field key o ++ l) =
  if decide (key = k) then match o with Some s => Some (JString s) | None => mget k l end
  else mget k l.
Proof.
  destruct o as [s|]; simpl; [|by case_decide].
  intros [_ Hs]. rewrite Hs. simpl. by case_decide.
Qed.

Lemma metadata_get r k : record_wf r -> mget k (serializedRecordMetadata r) = metadata_field r k.
Proof.
  intros Hr. unfold serializedRecordMetadata, metadata_field.
  rewrite !mget_truthy_field by apply Hr. pose proof (wf_txIndex _ Hr) as Hi.
  destruct (rec_txIndex r) as [i|]; simpl in Hi |- *; [rewrite Hi; simpl|];
    repeat case_decide; subst; try congruence;
    try (by destruct (rec_runtimeId r)); try (by destruct (rec_fencingToken r));
    by destruct (rec_batchId r).
Qed.

(** Closes a lookup of a literal key once the pieces are separated. *)
Ltac jfinish :=
  simpl; try reflexivity;
  unfold metadata_field; simpl;
  repeat match goal with
  | k : option Z |- _ => destruct k; simpl
  | |- context [_ <$> rec_runtimeId ?r] => destruct (rec_runtimeId r); simpl
  | |- context [_ <$> rec_fencingToken ?r] => destruct (rec_fencingToken r); simpl
  | |- context [_ <$> rec_batchId ?r] => destruct (rec_batchId r); simpl
  | |- context [_ <$> rec_txIndex ?r] => destruct (rec_txIndex r); simpl
  | |- context [rec_lifecycle ?r] => destruct (rec_lifecycle r); simpl
  end; reflexivity.

(** Looks a literal key up in an object built from pieces. *)
Ltac jfields Hr := rewrite ?mget_app, ?(metadata_get _ _ Hr); jfinish.

Lemma serialize_fields r : record_wf r -> fields_of (serialize_record r) r.
Proof.
  intros Hr. unfold serialize_record, serializeEvmCoordinationRecord,
    serializeNearCoordinationRecord, serialized_lifecycle.
  destruct (rec_body r) as [t a s k|w n p] eqn:Eb;
    (split; [reflexivity|..|rewrite Eb; split_and!]); cbn [jget]; jfields Hr.
Qed.

Lemma parseStored_ok s : stored_string s -> parseStoredNonEmptyString (JString s) = Some s.
Proof. intros [Ht Hn]. simpl. rewrite Hn, bool_decide_true by done. done. Qed.

Lemma rawString_ok s : stored_string s -> rawString (JString s) = s.
Proof. by intros [Ht _]. Qed.

Lemma hex_stored len s : is_0x_hex len s = true -> stored_string s.
Proof. intros H. split; [by apply is_0x_hex_canonical in H as [? _] | eauto with js]. Qed.

Lemma digits_stored z : stored_string (Z_to_string z).
Proof. split; auto with js. Qed.

Lemma walletId_stored s :
  nonempty s = true -> hasWhitespaceOrControlCharacters s = false -> stored_string s.
Proof.
  intros Hn Hw. split; [|done]. apply trim_no_space.
  unfold hasWhitespaceOrControlCharacters in Hw.
  by apply orb_false_iff in Hw as [Hw%negb_false_iff _].
Qed.

Lemma lifecycle_txHash_stored body l h :
  lifecycle_wf body l -> l = DurableBroadcastAccepted h -> stored_string h.
Proof. intros Hl ->. destruct body; simpl in Hl; eauto using hex_stored. Qed.

Lemma optional_stored_jopt o : stored_option o -> optional_stored_string (jopt o) = true.
Proof.
  destruct o as [s|]; simpl; [|done]. intros Hs. unfold optional_stored_string.
  change (jopt (Some s)) with (JString s). by rewrite parseStored_ok.
Qed.

#[export] Hint Resolve hex_stored digits_stored walletId_stored : js.

(** Rewrites every field lookup of [v] to the field of the record. *)
Ltac use_fields Hf :=
  rewrite ?(fo_v _ _ Hf), ?(fo_laneKey _ _ Hf), ?(fo_leaseId _ _ Hf), ?(fo_networkKey _ _ Hf),
    ?(fo_nonce _ _ Hf), ?(fo_operationId _ _ Hf), ?(fo_operationFingerprint _ _ Hf),
    ?(fo_reservedAtMs _ _ Hf), ?(fo_expiresAtMs _ _ Hf), ?(fo_updatedAtMs _ _ Hf),
    ?(fo_runtimeId _ _ Hf), ?(fo_fencingToken _ _ Hf), ?(fo_batchId _ _ Hf),
    ?(fo_txIndex _ _ Hf), ?(fo_state _ _ Hf), ?(fo_txHash _ _ Hf).

Lemma stored_common_ok_fields v r : record_wf r -> fields_of v r -> stored_common_ok v = true.
Proof.
  intros Hr Hf. unfold stored_common_ok. use_fields Hf.
  rewrite !parseStored_ok by (apply Hr || auto with js).
  rewrite !optional_stored_jopt by apply Hr. unfold isSafeInteger, JInt, safe_integer_value.
  rewrite (wf_reservedAtMs _ Hr), (wf_expiresAtMs _ Hr), (wf_updatedAtMs _ Hr).
  pose proof (lifecycle_txHash_stored _ _ (match rec_lifecycle r with
    DurableBroadcastAccepted h => h | _ => EmptyString end) (wf_lifecycle _ Hr)) as Hh.
  pose proof (wf_txIndex _ Hr) as Hi.
  destruct (rec_txIndex r) as [i|]; simpl; [rewrite Hi|];
    destruct (rec_lifecycle r) as [| |h]; try reflexivity;
    cbn [lifecycle_string lifecycle_txHash]; rewrite (parseStored_ok h) by auto; reflexivity.
Qed.

Lemma stored_metadata_get v r k :
  fields_of v r -> mget k (stored_metadata_fields v) = metadata_field r k.
Proof.
  intros Hf. unfold stored_metadata_fields, metadata_field. use_fields Hf.
  destruct (rec_runtimeId r), (rec_fencingToken r), (rec_batchId r), (rec_txIndex r); simpl;
    repeat case_decide; subst; congruence.
Qed.

Ltac jstored Hf :=
  unfold stored_common_fields, stored_txHash_field; simpl;
  rewrite ?mget_app, ?(stored_metadata_get _ _ _ Hf); use_fields Hf; jfinish.

Lemma stored_target_object t :
  target_wf t -> parseStoredThresholdEcdsaChainTarget (target_object t) = Some t.
Proof.
  intros Ht. pose proof (chainTargetFromRequest_object t Ht) as Hrt.
  unfold parseStoredThresholdEcdsaChainTarget.
  destruct t as [c s|c s]; simpl in *;
    unfold thresholdEcdsaChainTargetFromRequest in *; simpl in *; by rewrite Hrt.
Qed.

(** A row's record parses back to an object with the same fields. *)
Lemma parseNonceLeaseRecord_fields v r :
  record_wf r -> fields_of v r ->
  exists obj, parseNonceLeaseRecord v = Some obj /\ fields_of obj r.
Proof.
  intros Hr Hf. unfold parseNonceLeaseRecord.
  rewrite (fo_plain _ _ Hf), (stored_common_ok_fields _ _ Hr Hf). cbn [negb].
  pose proof (fo_body _ _ Hf) as Hb. pose proof (wf_body _ Hr) as Hwb.
  destruct (rec_body r) as [t a s k|w n p] eqn:Eb.
  - destruct Hb as (Hfam & Ht & Ha & Hs & Hk), Hwb as (Htwf & Han & Haw & Hhex & Hkn).
    rewrite Hfam, Ht, Ha, Hs, Hk. cbn [is_string]. simpl (bool_decide _).
    rewrite stored_target_object, !parseStored_ok by eauto with js.
    rewrite optional_stored_jopt by (destruct k; simpl; auto with js). simpl negb. cbn iota.
    eexists; split; [reflexivity|].
    split; [reflexivity|..|rewrite Eb; split_and!]; cbn [jget]; jstored Hf.
  - destruct Hb as (Hfam & Hw & Hn & Hp), Hwb as (Hwwf & Hnwf & Hpwf).
    rewrite Hfam, Hw, Hn, Hp, !parseStored_ok by done. cbn [is_string]. simpl (bool_decide _).
    cbn iota. eexists; split; [reflexivity|].
    split; [reflexivity|..|rewrite Eb; split_and!]; cbn [jget]; jstored Hf.
Qed.

Lemma parseDurableLeaseLifecycle_fields v r :
  record_wf r -> fields_of v r -> parseDurableLeaseLifecycle v = Some (rec_lifecycle r).
Proof.
  intros Hr Hf. unfold parseDurableLeaseLifecycle. use_fields Hf.
  pose proof (wf_lifecycle _ Hr) as Hl. destruct (rec_lifecycle r) as [| |h]; try reflexivity.
  destruct (lifecycle_txHash_stored _ _ h Hl eq_refl) as [Ht Hn]. simpl. by rewrite Ht, Hn.
Qed.

(** What [parseNonceLaneCoordinationRecord] hands to the family parsers. *)
Definition base_input (v : JsVal) (r : NonceLaneCoordinationRecord) : ParsedBaseInput :=
  mkParsedBase v (rec_leaseId r) (rec_laneKey r) (rec_networkKey r)
    (rawString (jget "accountId" v)) (rawString (jget "nearAccountId" v)) (rec_nonce r)
    (rec_lifecycle r) (rec_operationId r) (rec_operationFingerprint r) (rec_reservedAtMs r)
    (rec_expiresAtMs r) (rec_updatedAtMs r).

Lemma some_nonempty_jopt o : stored_option o -> some_nonempty (rawString (jopt o)) = o.
Proof.
  destruct o as [s|]; [|done]. intros [Ht Hn]. unfold some_nonempty. simpl. by rewrite Ht, Hn.
Qed.

Lemma buildBaseRecord_fields v r :
  record_wf r -> fields_of v r ->
  buildBaseRecord (base_input v r) (rec_lifecycle r) (rec_body r) = r.
Proof.
  intros Hr Hf. unfold buildBaseRecord, base_input.
  cbn [pb_obj pb_leaseId pb_laneKey pb_networkKey pb_nonce pb_operationId pb_operationFingerprint
       pb_reservedAtMs pb_expiresAtMs pb_updatedAtMs].
  use_fields Hf. rewrite !some_nonempty_jopt by apply Hr.
  pose proof (wf_txIndex _ Hr) as Hi. destruct r as [? ? ? ? ? ? ? ? ? ? ? ? [i|] ? ?];
    simpl in *; by rewrite ?Hi.
Qed.

Lemma parseTarget_object t : target_wf t -> parseChainTarget (target_object t) = Some t.
Proof.
  intros Ht. pose proof (chainTargetFromRequest_object t Ht) as Hrt. unfold parseChainTarget.
  assert (isPlainObject (target_object t) = true) as -> by by destruct t. by rewrite Hrt.
Qed.

Lemma hex_lower len s : is_0x_hex len s = true -> to_lower (rawString (JString s)) = s.
Proof. intros [Ht Hl]%is_0x_hex_canonical. simpl. by rewrite Ht. Qed.

Lemma normalizeEvmDurableLifecycle_ok t a s k l :
  lifecycle_wf (EvmRecord t a s k) l -> normalizeEvmDurableLifecycle l = l.
Proof.
  destruct l as [| |h]; [done..|]. simpl. intros Hh. unfold parseTxHash.
  rewrite (hex_lower _ _ Hh). by rewrite Hh.
Qed.

Lemma parseEvmRecord_fields v r t a s k :
  record_wf r -> fields_of v r -> rec_body r = EvmRecord t a s k ->
  parseEvmRecord (base_input v r) = Ok (ReadOk (parsed_of r)).
Proof.
  intros Hr Hf Eb. pose proof (fo_body _ _ Hf) as Hb. pose proof (wf_body _ Hr) as Hwb.
  pose proof (wf_lifecycle _ Hr) as Hl. pose proof (buildBaseRecord_fields _ _ Hr Hf) as Hbase.
  unfold parsed_of, record_lane. rewrite Eb in *.
  destruct Hb as (_ & Ht & Ha & Hs & Hk), Hwb as (Htwf & Han & Haw & Hhex & Hkn).
  unfold parseEvmRecord. cbn [pb_obj pb_accountId pb_lifecycle base_input].
  rewrite (normalizeEvmDurableLifecycle_ok _ _ _ _ _ Hl), Ht, Ha, Hs, Hk.
  rewrite parseTarget_object, rawString_ok by eauto with js.
  unfold parseEvmAddress. rewrite (hex_lower _ _ Hhex), Hhex, Han, toWalletId_ok by done.
  destruct k as [k|]; simpl; [rewrite parse_digits_to_string by done; simpl|]; by rewrite Hbase.
Qed.

Lemma parseNearRecord_fields v r w n p :
  record_wf r -> fields_of v r -> rec_body r = NearRecord w n p ->
  parseNearRecord (base_input v r) = ReadOk (parsed_of r).
Proof.
  intros Hr Hf Eb. pose proof (fo_body _ _ Hf) as Hb. pose proof (wf_body _ Hr) as Hwb.
  pose proof (buildBaseRecord_fields _ _ Hr Hf) as Hbase.
  unfold parsed_of, record_lane. rewrite Eb in *.
  destruct Hb as (_ & Hw & Hn & Hp), Hwb as (Hwwf & Hnwf & Hpwf).
  unfold parseNearRecord. cbn [pb_obj pb_nearAccountId pb_lifecycle base_input].
  rewrite Hw, Hn, Hp, !rawString_ok by done.
  rewrite (proj2 Hwwf), (proj2 Hnwf), (proj2 Hpwf). cbn [andb]. by rewrite Hbase.
Qed.

(** The boundary accepts every object with the fields of a well-formed record,
    and returns that record with its lane. *)
Lemma parseNonceLaneCoordinationRecord_fields v r :
  record_wf r -> fields_of v r ->
  parseNonceLaneCoordinationRecord v = Ok (ReadOk (parsed_of r)).
Proof.
  intros Hr Hf. unfold parseNonceLaneCoordinationRecord.
  rewrite (fo_plain _ _ Hf), (parseDurableLeaseLifecycle_fields _ _ Hr Hf). use_fields Hf.
  cbn [negb JInt]. rewrite !rawString_ok by apply Hr.
  cbn [parseDecimalBigint parseSafeInteger JInt safe_integer_value].
  rewrite parse_digits_to_string, (wf_reservedAtMs _ Hr), (wf_expiresAtMs _ Hr),
    (wf_updatedAtMs _ Hr) by apply Hr.
  rewrite (proj2 (wf_leaseId _ Hr)), (proj2 (wf_laneKey _ Hr)), (proj2 (wf_networkKey _ Hr)),
    (proj2 (wf_operationId _ Hr)), (proj2 (wf_operationFingerprint _ Hr)). cbn [andb].
  fold (base_input v r). pose proof (fo_body _ _ Hf) as Hb.
  destruct (rec_body r) as [t a s k|w n p] eqn:Eb; destruct Hb as (-> & _); simpl.
  - by eapply parseEvmRecord_fields.
  - f_equal. by eapply parseNearRecord_fields.
Qed.

(** The row the store writes for a record. *)
Lemma nonceLeaseRow_serialize r :
  record_wf r ->
  nonceLeaseRow (serialize_record r) =
  Ok (mkLeaseRow (JString (rec_leaseId r)) (JString (rec_laneKey r))
        (JString (nonceLaneSubjectId (record_lane r)))
        (match rec_body r with NearRecord _ n _ => JString n | EvmRecord _ _ _ _ => JUndefined end)
        (JString (lifecycle_string (rec_lifecycle r))) (JInt (rec_expiresAtMs r))
        (serialize_record r)).
Proof.
  intros Hr. pose proof (serialize_fields r Hr) as Hf.
  assert (forall s, stored_string s -> trimmed_or_empty (JString s) = s) as Htr.
  { intros s [Ht Hn]. unfold trimmed_or_empty, normalizeTrimmedString. simpl. rewrite Hn. by simpl. }
  unfold nonceLeaseRow, nonceLeaseWalletId, nonceLeaseNearAccountId. use_fields Hf.
  rewrite !Htr by apply Hr.
  rewrite (proj2 (wf_leaseId _ Hr)), (proj2 (wf_laneKey _ Hr)).
  pose proof (fo_body _ _ Hf) as Hb. pose proof (wf_body _ Hr) as Hwb. unfold record_lane.
  destruct (rec_body r) as [t a s k|w n p].
  - destruct Hb as (-> & _ & -> & _), Hwb as (_ & Han & Haw & _). cbn [is_string].
    simpl (bool_decide _). cbn iota. rewrite Htr by auto with js. by rewrite Han.
  - destruct Hb as (-> & -> & -> & _), Hwb as (Hwwf & Hnwf & _). cbn [is_string].
    simpl (bool_decide _). cbn iota. rewrite !Htr by done. by rewrite (proj2 Hwwf), (proj2 Hnwf).
Qed.

Lemma strict_eq_floor z : strict_eq (JInt z) (JNumber (floor_number (JInt z))) = true.
Proof. apply Z.eqb_refl. Qed.

(** A record written to the store is read back as it was: its row is accepted,
    and the boundary returns the record and its lane. *)
Lemma stored_record_reads_back r :
  record_wf r ->
  exists row obj, nonceLeaseRow (serialize_record r) = Ok row /\ parseNonceLeaseRow row = Some obj
    /\ fields_of obj r /\ parseNonceLaneCoordinationRecord obj = Ok (ReadOk (parsed_of r)).
Proof.
  intros Hr. pose proof (serialize_fields r Hr) as Hf.
  destruct (parseNonceLeaseRecord_fields _ _ Hr Hf) as (obj & Hobj & Hfo).
  eexists _, obj. split; [by apply nonceLeaseRow_serialize|].
  split; [|split; [done|by apply parseNonceLaneCoordinationRecord_fields]].
  unfold parseNonceLeaseRow. cbn [row_record row_lease_id row_lane_key row_wallet_id
    row_near_account_id row_state row_expires_at_ms]. rewrite Hobj.
  unfold nonceLeaseWalletId, nonceLeaseNearAccountId. use_fields Hfo.
  rewrite !strict_eq_string, strict_eq_floor.
  pose proof (fo_body _ _ Hfo) as Hb. pose proof (wf_body _ Hr) as Hwb. unfold record_lane.
  destruct (rec_body r) as [t a s k|w n p].
  - destruct Hb as (-> & _ & -> & _). cbn [is_string]. simpl (bool_decide _). cbn iota.
    simpl nonceLaneSubjectId. by rewrite strict_eq_string.
  - destruct Hb as (-> & -> & -> & _), Hwb as (_ & Hnwf & _). cbn [is_string].
    simpl (bool_decide _). cbn iota. simpl nonceLaneSubjectId. simpl truthy.
    rewrite (proj2 Hnwf). by rewrite !strict_eq_string.
Qed.

(** ** What the boundary returns *)

Lemma rawString_stored v : nonempty (rawString v) = true -> stored_string (rawString v).
Proof. intros Hn. split; [|done]. destruct v; simpl; auto using trim_idem. Qed.

Lemma some_nonempty_stored v : stored_option (some_nonempty (rawString v)).
Proof.
  unfold some_nonempty. destruct (nonempty (rawString v)) eqn:E; [|done]. by apply rawString_stored.
Qed.

Lemma parseSafeInteger_safe v z : parseSafeInteger v = Some z -> is_safe_integer z = true.
Proof.
  unfold parseSafeInteger, safe_integer_value. repeat case_match; intros; simplify_eq; done.
Qed.

Lemma parseDecimalBigint_nonneg v z : parseDecimalBigint v = Some z -> 0 <= z.
Proof. destruct v; simpl; try done. apply parse_digits_nonneg. Qed.

(** The part of a parsed input both families have checked. *)
Record base_wf (i : ParsedBaseInput) : Prop := mkBaseWf {
  bw_laneKey : stored_string (pb_laneKey i);
  bw_leaseId : stored_string (pb_leaseId i);
  bw_networkKey : stored_string (pb_networkKey i);
  bw_nonce : 0 <= pb_nonce i;
  bw_operationId : stored_string (pb_operationId i);
  bw_operationFingerprint : stored_string (pb_operationFingerprint i);
  bw_reservedAtMs : is_safe_integer (pb_reservedAtMs i) = true;
  bw_expiresAtMs : is_safe_integer (pb_expiresAtMs i) = true;
  bw_updatedAtMs : is_safe_integer (pb_updatedAtMs i) = true;
  bw_txHash : forall h, pb_lifecycle i = DurableBroadcastAccepted h -> stored_string h;
  bw_accountId : nonempty (pb_accountId i) = true -> stored_string (pb_accountId i);
  bw_nearAccountId : nonempty (pb_nearAccountId i) = true -> stored_string (pb_nearAccountId i);
}.

Lemma buildBaseRecord_wf i l body :
  base_wf i -> lifecycle_wf body l -> record_body_wf body -> record_wf (buildBaseRecord i l body).
Proof.
  intros Hi Hl Hb. split; simpl; try apply Hi; try apply some_nonempty_stored; try done.
  destruct (is_nullish _); [done|]. destruct (parseSafeInteger _) eqn:E; eauto using parseSafeInteger_safe.
Qed.

Lemma normalizeEvm_wf t a s k l : lifecycle_wf (EvmRecord t a s k) (normalizeEvmDurableLifecycle l).
Proof.
  destruct l as [| |h]; [done..|]. simpl. unfold parseTxHash.
  destruct (is_0x_hex 64 _) eqn:E; simpl; done.
Qed.

Lemma parseEvmRecord_sound i p :
  base_wf i -> parseEvmRecord i = Ok (ReadOk p) ->
  record_wf (parsed_record p) /\ p = parsed_of (parsed_record p).
Proof.
  intros Hi. unfold parseEvmRecord.
  destruct (parseChainTarget _) as [t|] eqn:Et; [|done].
  destruct (parseEvmAddress _) as [s|] eqn:Es; [|done].
  destruct (if is_nullish _ then _ else _) as [k|] eqn:Ek; [|done].
  destruct (nonempty (pb_accountId i)) eqn:En; [|done].
  destruct (toWalletId _) as [a|] eqn:Ea; [|done].
  intros [= <-]. split; [|done]. apply buildBaseRecord_wf; [done|apply normalizeEvm_wf|].
  unfold parseChainTarget in Et. destruct (thresholdEcdsaChainTargetFromRequest _) eqn:Et'; [|done].
  simplify_eq. apply chainTargetFromRequest_wf in Et'. apply toWalletId_inv in Ea as [??].
  simpl. split_and!; [done..| |].
  - unfold parseEvmAddress in Es. destruct (is_0x_hex 40 _) eqn:E; by simplify_eq.
  - destruct (is_nullish _); simplify_eq; [done|].
    apply fmap_Some in Ek as (z & Hz & ->). by eapply parseDecimalBigint_nonneg.
Qed.

Lemma parseNearRecord_sound i p :
  base_wf i -> parseNearRecord i = ReadOk p ->
  record_wf (parsed_record p) /\ p = parsed_of (parsed_record p).
Proof.
  intros Hi. unfold parseNearRecord.
  destruct (nonempty (pb_nearAccountId i) && _ && _) eqn:E; [|done].
  apply andb_prop in E as [[En Ew]%andb_prop Ep].
  intros [= <-]. split; [|done]. apply buildBaseRecord_wf; [done| |].
  - destruct (pb_lifecycle i) eqn:El; simpl; eauto using bw_txHash.
  - simpl. split_and!; auto using rawString_stored, bw_nearAccountId.
Qed.

Lemma lifecycle_parsed_stored v h :
  parseDurableLeaseLifecycle v = Some (DurableBroadcastAccepted h) -> stored_string h.
Proof.
  unfold parseDurableLeaseLifecycle.
  repeat case_match; intros; simplify_eq; by apply rawString_stored.
Qed.

(** Cases of a call of the boundary that got past the shared checks. *)
Lemma parseRecord_cases v :
  (exists obj lk li f, parseNonceLaneCoordinationRecord v = Ok (malformedRecordResult obj lk li f)) \/
  exists i, base_wf i /\ pb_accountId i = rawString (jget "accountId" v) /\
    (parseNonceLaneCoordinationRecord v = parseEvmRecord i \/
     parseNonceLaneCoordinationRecord v = Ok (parseNearRecord i)).
Proof.
  unfold parseNonceLaneCoordinationRecord. cbv zeta.
  destruct (isPlainObject v); [|left; eauto]. cbn [negb].
  destruct (jget "v" v) as [| | |[[|[| |]|]| | |]| | | |]; try (left; by eauto).
  destruct (parseDecimalBigint _) as [z|] eqn:Ez; [|left; by eauto].
  destruct (parseDurableLeaseLifecycle v) as [l|] eqn:El; [|left; by eauto].
  destruct (parseSafeInteger (jget "reservedAtMs" v)) eqn:E1; [|left; by eauto].
  destruct (parseSafeInteger (jget "expiresAtMs" v)) eqn:E2; [|left; by eauto].
  destruct (parseSafeInteger (jget "updatedAtMs" v)) eqn:E3; [|left; by eauto].
  destruct (_ && nonempty (rawString (jget "operationFingerprint" v))) eqn:En; [|left; by eauto].
  apply andb_prop in En as [[[[??]%andb_prop ?]%andb_prop ?]%andb_prop ?].
  case_bool_decide; [|case_bool_decide; [|left; by eauto]]; right; eexists;
    (split; [|split; [|eauto]]; [|done]);
    split; simpl; eauto using rawString_stored, parseSafeInteger_safe, parseDecimalBigint_nonneg;
    intros h ->; eauto using lifecycle_parsed_stored.
Qed.

(** C40. Every record the boundary accepts, whatever the stored value, is well formed
    and comes with the lane and the canonical key that belong to it; the only
    error is an account id with white space or control characters. *)
Theorem parseNonceLaneCoordinationRecord_sound v :
  match parseNonceLaneCoordinationRecord v with
  | Ok (ReadOk p) => record_wf (parsed_record p) /\ p = parsed_of (parsed_record p)
  | Ok (ReadFailed d _ _) => deg_reason d = MalformedDurableRecord /\ deg_fallback d = NoFallback
  | Throw e =>
      e = JsError "walletId must not contain whitespace or control characters" /\
      hasWhitespaceOrControlCharacters (rawString (jget "accountId" v)) = true
  end.
Proof.
  destruct (parseNonceLaneCoordinationRecord v) as [[p|d lk li]|e] eqn:E.
  - destruct (parseRecord_cases v) as [(?&?&?&?&H)|(i & Hi & _ & [H|H])];
      rewrite E in H; [by unfold malformedRecordResult in H|by eapply parseEvmRecord_sound|].
    injection H as H. by eapply parseNearRecord_sound.
  - destruct (parseRecord_cases v) as [(?&?&?&?&H)|(i & _ & _ & [H|H])]; rewrite E in H;
      [by injection H as -> _ _|..]; symmetry in H; revert H;
      unfold parseEvmRecord, parseNearRecord, malformedRecordResult; cbv zeta.
    + destruct (parseChainTarget _); [|by intros [= <- _ _]].
      destruct (parseEvmAddress _); [|by intros [= <- _ _]].
      destruct (if is_nullish _ then _ else _); [|by intros [= <- _ _]].
      destruct (nonempty (pb_accountId i)); [|by intros [= <- _ _]].
      by destruct (toWalletId _).
    + destruct (_ && _); by intros [= <- _ _].
  - destruct (parseRecord_cases v) as [(?&?&?&?&?)|(i & Hi & Ha & [H|H])]; [congruence| |congruence].
    rewrite E in H. symmetry in H. revert H. unfold parseEvmRecord.
    pose proof (bw_accountId _ Hi) as Hacc. rewrite Ha in *.
    destruct (parseChainTarget _); [|done]. destruct (parseEvmAddress _); [|done].
    destruct (if is_nullish _ then _ else _); [|done].
    destruct (nonempty (rawString _)) eqn:En; [|done]. destruct Hacc as [Ht _]; [done|].
    unfold toWalletId, parseWalletId, parseDomainId. rewrite Ht, En.
    destruct (hasWhitespaceOrControlCharacters _) eqn:Ew; [|done]. by intros [= <-].
Qed.

(** ** Rows without a transaction hash *)

(** The state and the transaction hash of the object the record parser builds. *)
Lemma stored_object_lookup v fam extra :
  mget "txHash" fam = None -> mget "txHash" extra = None ->
  let obj := JObject (("v", JInt 1) :: stored_common_fields v ++ fam ++
    stored_metadata_fields v ++ extra ++ stored_txHash_field v) in
  jget "state" obj = jget "state" v /\
  (is_string "broadcast_accepted" (jget "state" v) = true -> jget "txHash" obj = jget "txHash" v).
Proof.
  intros Hf He. split; [reflexivity|]. intros Hs. unfold jget. simpl.
  unfold stored_metadata_fields, stored_txHash_field. rewrite Hs.
  by rewrite !mget_app, Hf, He, !mget_opt_field.
Qed.

Lemma parseNonceLeaseRecord_lookup v obj :
  parseNonceLeaseRecord v = Some obj ->
  stored_common_ok v = true /\ jget "state" obj = jget "state" v /\
  (is_string "broadcast_accepted" (jget "state" v) = true -> jget "txHash" obj = jget "txHash" v).
Proof.
  unfold parseNonceLeaseRecord. destruct (isPlainObject v); [|done].
  destruct (stored_common_ok v); [|done]. cbn [negb]. intros H. split; [done|]. revert H.
  destruct (is_string "near" _).
  - destruct (parseStoredNonEmptyString (jget "walletId" v)); [|done].
    destruct (parseStoredNonEmptyString (jget "nearAccountId" v)); [|done].
    destruct (parseStoredNonEmptyString (jget "publicKey" v)); [|done].
    intros [= <-]. by apply (stored_object_lookup v [_; _; _; _] []).
  - destruct (is_string "evm" _); [|done]. cbn [negb].
    destruct (parseStoredThresholdEcdsaChainTarget _); [|done].
    destruct (parseStoredNonEmptyString (jget "sender" v)); [|done].
    destruct (parseStoredNonEmptyString (jget "accountId" v)); [|done].
    destruct (optional_stored_string _); [|done].
    intros [= <-]. apply (stored_object_lookup v [_; _; _; _]); [done|by apply mget_opt_field].
Qed.

(** A stored record of an accepted broadcast has a transaction hash. *)
Lemma stored_accepted_txHash v :
  is_string "broadcast_accepted" (jget "state" v) = true ->
  forall obj, parseNonceLeaseRecord v = Some obj ->
  exists h, stored_string h /\ jget "txHash" v = JString h /\ jget "txHash" obj = JString h /\
    jget "state" obj = JString "broadcast_accepted".
Proof.
  intros Hs obj (Hc & Hst & Htx)%parseNonceLeaseRecord_lookup.
  rewrite Hst, (Htx Hs). unfold stored_common_ok in Hc. rewrite Hs, !orb_true_r in Hc.
  rewrite !andb_true_iff in Hc. destruct Hc as (((((_ & Hh) & _) & _) & _) & _).
  unfold parseStoredNonEmptyString in Hh.
  destruct (jget "txHash" v) as [| | | | |h| |]; try done.
  destruct (nonempty h && _) eqn:Eh; [|done].
  apply andb_prop in Eh as [Hn Htr%bool_decide_eq_true]. exists h. split; [done|].
  split; [done|split; [done|]].
  destruct (jget "state" v); simpl in Hs; try done. by apply bool_decide_eq_true in Hs as ->.
Qed.

(** A row of an accepted broadcast without a transaction hash is dropped by the
    row parser, so the boundary's rule for such records (keep the lease blocking
    as signed until it expires) is never applied to a row of the table. *)
Theorem pre_txHash_row_is_dropped row :
  is_string "broadcast_accepted" (jget "state" (row_record row)) = true ->
  match parseNonceLeaseRow row with
  | Some obj => exists h, parseDurableLeaseLifecycle obj = Some (DurableBroadcastAccepted h)
  | None => True
  end /\
  (is_undefined (jget "txHash" (row_record row)) = true -> parseNonceLeaseRow row = None).
Proof.
  intros Hs. pose proof (stored_accepted_txHash (row_record row) Hs) as Hh.
  unfold parseNonceLeaseRow.
  destruct (parseNonceLeaseRecord (row_record row)) as [obj|] eqn:E; [|done].
  destruct (Hh obj eq_refl) as (h & Hst & Ht & Hto & Hso). split.
  - destruct (strict_eq (row_lease_id row) _ && _ && _ && _ && _ && _); [|done].
    exists h. unfold parseDurableLeaseLifecycle. rewrite Hto, Hso. simpl.
    by destruct Hst as [-> ->].
  - by rewrite Ht.
Qed.

(** A complete row of an accepted broadcast as written before records carried a
    transaction hash. *)
Definition pre_txHash_row : NonceLaneLeaseRow :=
  mkLeaseRow (JString "lease-1") (JString "lane") (JString "wallet-1") JUndefined
    (JString "broadcast_accepted") (JInt 10)
    (JObject [("v", JInt 1); ("leaseId", JString "lease-1"); ("laneKey", JString "lane");
              ("networkKey", JString "near"); ("nonce", JString "7"); ("operationId", JString "op-1");
              ("operationFingerprint", JString "fp-1"); ("reservedAtMs", JInt 0);
              ("expiresAtMs", JInt 10); ("updatedAtMs", JInt 0); ("family", JString "near");
              ("walletId", JString "wallet-1"); ("nearAccountId", JString "alice.near");
              ("publicKey", JString "ed25519:key"); ("state", JString "broadcast_accepted")]).

Lemma pre_txHash_row_is_dropped_witness : parseNonceLeaseRow pre_txHash_row = None.
Proof. exact (proj2 (pre_txHash_row_is_dropped pre_txHash_row eq_refl) eq_refl). Defined.
