(* ===== verification/NonceStore.v ===== *)
(** * The durable lease store

    The lease operations of [indexedDB/seamsWalletDB/repositories.ts] on the
    nonce lease table, and the store [indexedDB/nonceLaneCoordinationStore.ts]
    builds on them.  [CoordinationStore] is what the coordinator relies on: a
    store that behaves as a map from lease identifiers to records.  The
    IndexedDB store is an instance. *)

From S2P Require Import Prelude ListFacts JsValues ChainTarget NonceTypes LeaseStateMachine NonceLaneKeys NonceRecords.
Local Open Scope Z_scope.

(** The nonce lease table: its rows under their key [lease_id]. *)
Definition LeaseTable : Type := list (string * NonceLaneLeaseRow).

(** [rows.flatMap((row) => { const parsed = parse(row); return parsed ? [parsed] : []; })]. *)
Fixpoint parse_rows (rows : list NonceLaneLeaseRow) : list JsVal :=
  match rows with
  | [] => []
  | row :: rows' =>
      match parseNonceLeaseRow row with
      | Some record => record :: parse_rows rows'
      | None => parse_rows rows'
      end
  end.

Definition readNonceLaneLeaseRecords (laneKey : string) (t : LeaseTable) : list JsVal :=
  let normalizedLaneKey := trim laneKey in
  if nonempty normalizedLaneKey then
    parse_rows (List.filter (fun row => strict_eq (row_lane_key row) (JString normalizedLaneKey))
                  (mvalues t))
  else [].

Definition listNonceLaneLeaseRecords (walletId : option string) (t : LeaseTable) : list JsVal :=
  let walletId := trim (default EmptyString walletId) in
  parse_rows
    (if nonempty walletId
     then List.filter (fun row => strict_eq (row_wallet_id row) (JString walletId)) (mvalues t)
     else mvalues t).

Definition upsertNonceLaneLeaseRecord (record : JsVal) (t : LeaseTable) : Result LeaseTable :=
  match nonceLeaseRow record with
  | Throw e => Throw e
  | Ok row => Ok (mset (js_String (row_lease_id row)) row t)
  end.

Definition removeNonceLaneLeaseRecord (leaseId : string) (t : LeaseTable) : LeaseTable :=
  let leaseId := trim leaseId in
  if nonempty leaseId then mdel leaseId t else t.

(** [parsed && parsed.state !== 'broadcast_accepted'], and the key to delete. *)
Definition prunable_lease (row : NonceLaneLeaseRow) : option string :=
  match parseNonceLeaseRow row with
  | Some parsed =>
      if is_string "broadcast_accepted" (jget "state" parsed) then None
      else Some (js_String (jget "leaseId" parsed))
  | None => None
  end.

Definition delete_prunable (rows : list NonceLaneLeaseRow) (t : LeaseTable) : LeaseTable :=
  List.fold_left
    (fun t row => match prunable_lease row with Some id => mdel id t | None => t end) rows t.

Definition clearNonceLaneLeaseRecordsForWallet (walletId : string) (t : LeaseTable) : LeaseTable :=
  let normalizedWalletId := trim walletId in
  if nonempty normalizedWalletId then
    delete_prunable
      (List.filter (fun row => strict_eq (row_wallet_id row) (JString normalizedWalletId))
         (mvalues t)) t
  else t.

Definition clearAllNonceLaneLeaseRecords (t : LeaseTable) : LeaseTable := [].

(** A key of the [expires_at_ms] index is at most [bound]. *)
Definition at_most (bound : Z) (key : JsVal) : bool :=
  match key with
  | JNumber (NInt z) => z <=? bound
  | JNumber (NFraction f _) => f <? bound
  | JNumber (NInfinity true) => true
  | _ => false
  end.

Definition pruneExpiredNonceLaneLeaseRecords (nowMs : Z) (t : LeaseTable) : LeaseTable :=
  if is_safe_integer nowMs then
    delete_prunable (List.filter (fun row => at_most nowMs (row_expires_at_ms row)) (mvalues t)) t
  else t.

(** ** The store the coordinator is given *)

(** [flatMap] over the boundary parser: a record it throws on fails the read. *)
Fixpoint boundary_flatMap (records : list JsVal)
    : Result (list ParsedNonceLaneCoordinationRecord) :=
  match records with
  | [] => Ok []
  | record :: rest =>
      match parseNonceLaneCoordinationRecord record with
      | Throw e => Throw e
      | Ok parsed =>
          match boundary_flatMap rest with
          | Throw e => Throw e
          | Ok l => Ok match parsed with ReadOk p => p :: l | ReadFailed _ _ _ => l end
          end
      end
  end.

Fixpoint boundary_map (records : list JsVal) : Result (list NonceLaneCoordinationReadResult) :=
  match records with
  | [] => Ok []
  | record :: rest =>
      match parseNonceLaneCoordinationRecord record with
      | Throw e => Throw e
      | Ok parsed =>
          match boundary_map rest with
          | Throw e => Throw e
          | Ok l => Ok (parsed :: l)
          end
      end
  end.

Module IndexedDBStore.
Definition readLane (laneKey : string) (t : LeaseTable)
    : Result (list ParsedNonceLaneCoordinationRecord) :=
  boundary_flatMap (readNonceLaneLeaseRecords laneKey t).

Definition readAll (walletId : option string) (t : LeaseTable)
    : Result (list ParsedNonceLaneCoordinationRecord) :=
  boundary_flatMap (listNonceLaneLeaseRecords walletId t).

Definition readAllForRecovery (walletId : option string) (t : LeaseTable)
    : Result (list NonceLaneCoordinationReadResult) :=
  boundary_map (listNonceLaneLeaseRecords walletId t).

Definition upsert (record : NonceLaneCoordinationRecord) (t : LeaseTable) : Result LeaseTable :=
  upsertNonceLaneLeaseRecord (serialize_record record) t.
End IndexedDBStore.

(** ** What the coordinator relies on *)

Definition is_broadcast_accepted (r : NonceLaneCoordinationRecord) : bool :=
  match rec_lifecycle r with DurableBroadcastAccepted _ => true | _ => false end.

(** The records of a store that a predicate selects, in order. *)
Definition select (p : NonceLaneCoordinationRecord -> bool)
    (m : list (string * NonceLaneCoordinationRecord)) : list NonceLaneCoordinationRecord :=
  List.filter p (mvalues m).

(** A record is removed by clearing a wallet: it is that wallet's and not in
    flight on the chain. *)
Definition cleared_for (walletId : string) (r : NonceLaneCoordinationRecord) : bool :=
  bool_decide (nonceLaneSubjectId (record_lane r) = walletId) && negb (is_broadcast_accepted r).

Definition pruned_at (nowMs : Z) (r : NonceLaneCoordinationRecord) : bool :=
  (rec_expiresAtMs r <=? nowMs) && negb (is_broadcast_accepted r).

Definition drop_if (p : NonceLaneCoordinationRecord -> bool)
    (m : list (string * NonceLaneCoordinationRecord)) : list (string * NonceLaneCoordinationRecord) :=
  List.filter (fun e => negb (p e.2)) m.

(** A coordination store: its operations, and their laws in terms of the records
    it holds, [view].  [store_ok] holds of every store that was only ever
    written through [store_upsert] with well-formed records. *)
Class CoordinationStore (S : Type) : Type := {
  store_readLane : string -> S -> Result (list ParsedNonceLaneCoordinationRecord);
  store_readAllForRecovery : option string -> S -> Result (list NonceLaneCoordinationReadResult);
  store_upsert : NonceLaneCoordinationRecord -> S -> Result S;
  store_remove : string -> S -> S;
  store_clearForWallet : string -> S -> S;
  store_clearAll : S -> S;
  store_pruneExpired : Z -> S -> S;

  view : S -> list (string * NonceLaneCoordinationRecord);
  store_ok : S -> Prop;

  view_keys s k r : store_ok s -> (k, r) ∈ view s -> k = rec_leaseId r /\ record_wf r;
  view_wf s : store_ok s -> mwf (view s);
  readLane_law s k :
    store_ok s -> stored_string k ->
    store_readLane k s = Ok (map parsed_of (select (fun r => bool_decide (rec_laneKey r = k)) (view s)));
  readAllForRecovery_law s w :
    store_ok s -> stored_option w ->
    store_readAllForRecovery w s =
    Ok (map (fun r => ReadOk (parsed_of r))
          (select (fun r => match w with
                            | Some w => bool_decide (nonceLaneSubjectId (record_lane r) = w)
                            | None => true
                            end) (view s)));
  upsert_law s r :
    store_ok s -> record_wf r ->
    exists s', store_upsert r s = Ok s' /\ store_ok s' /\ view s' = mset (rec_leaseId r) r (view s);
  remove_law s id :
    store_ok s -> stored_string id ->
    store_ok (store_remove id s) /\ view (store_remove id s) = mdel id (view s);
  clearForWallet_law s w :
    store_ok s -> stored_string w ->
    store_ok (store_clearForWallet w s) /\
    view (store_clearForWallet w s) = drop_if (cleared_for w) (view s);
  clearAll_law s : store_ok s -> store_ok (store_clearAll s) /\ view (store_clearAll s) = [];
  pruneExpired_law s now :
    store_ok s -> is_safe_integer now = true ->
    store_ok (store_pruneExpired now s) /\
    view (store_pruneExpired now s) = drop_if (pruned_at now) (view s);
}.

(** ** The IndexedDB store is a coordination store *)

(** The row of a well-formed record. *)
Definition row_of (r : NonceLaneCoordinationRecord) : NonceLaneLeaseRow :=
  mkLeaseRow (JString (rec_leaseId r)) (JString (rec_laneKey r))
    (JString (nonceLaneSubjectId (record_lane r)))
    (match rec_body r with NearRecord _ n _ => JString n | EvmRecord _ _ _ _ => JUndefined end)
    (JString (lifecycle_string (rec_lifecycle r))) (JInt (rec_expiresAtMs r)) (serialize_record r).

Definition row_record_of (row : NonceLaneLeaseRow) : option NonceLaneCoordinationRecord :=
  match parseNonceLeaseRow row with
  | Some obj =>
      match parseNonceLaneCoordinationRecord obj with
      | Ok (ReadOk p) => Some (parsed_record p)
      | _ => None
      end
  | None => None
  end.

(** The records of a table. *)
Fixpoint table_view (t : LeaseTable) : list (string * NonceLaneCoordinationRecord) :=
  match t with
  | [] => []
  | (k, row) :: t' =>
      match row_record_of row with
      | Some r => (k, r) :: table_view t'
      | None => table_view t'
      end
  end.

Definition encode_table (m : list (string * NonceLaneCoordinationRecord)) : LeaseTable :=
  map (fun e => (e.1, row_of e.2)) m.

Definition records_wf (m : list (string * NonceLaneCoordinationRecord)) : Prop :=
  forall k r, (k, r) ∈ m -> k = rec_leaseId r /\ record_wf r.

(** A table that holds exactly the rows of well-formed records. *)
Definition table_ok (t : LeaseTable) : Prop :=
  t = encode_table (table_view t) /\ mwf (table_view t) /\ records_wf (table_view t).

Lemma row_of_parses r :
  record_wf r ->
  exists obj, parseNonceLeaseRow (row_of r) = Some obj /\ fields_of obj r /\
    parseNonceLaneCoordinationRecord obj = Ok (ReadOk (parsed_of r)).
Proof.
  intros Hr. destruct (stored_record_reads_back r Hr) as (row & obj & Hrow & Hobj & ? & ?).
  rewrite nonceLeaseRow_serialize in Hrow by done. injection Hrow as <-. eauto.
Qed.

Lemma row_record_of_row r : record_wf r -> row_record_of (row_of r) = Some r.
Proof.
  intros (obj & Hobj & _ & Hp)%row_of_parses. unfold row_record_of. by rewrite Hobj, Hp.
Qed.

Lemma records_wf_cons k r m : records_wf ((k, r) :: m) <-> (k = rec_leaseId r /\ record_wf r) /\ records_wf m.
Proof. unfold records_wf. split; [intros H; split; intros; apply H|intros [? ?]]; set_solver. Qed.

Lemma view_encode m : records_wf m -> table_view (encode_table m) = m.
Proof.
  induction m as [|[k r] m IH]; [done|]. intros [[_ Hr] Hm]%records_wf_cons.
  simpl. rewrite row_record_of_row by done. by rewrite IH.
Qed.

Lemma table_ok_intro t m : t = encode_table m -> mwf m -> records_wf m -> table_ok t /\ table_view t = m.
Proof. intros -> Hm Hr. unfold table_ok. by rewrite view_encode. Qed.

Lemma encode_mset k r m : mset k (row_of r) (encode_table m) = encode_table (mset k r m).
Proof. induction m as [|[k' r'] m IH]; simpl; [done|]. case_decide; [done|]. simpl. by rewrite IH. Qed.

Lemma encode_mdel k m : mdel k (encode_table m) = encode_table (mdel k m).
Proof.
  unfold mdel. induction m as [|[k' r'] m IH]; simpl; [done|].
  case_bool_decide; simpl; [done|]. by rewrite IH.
Qed.

Lemma records_wf_mset r m : record_wf r -> records_wf m -> records_wf (mset (rec_leaseId r) r m).
Proof. intros Hr Hm k r' [?|?]%elem_mset; [by simplify_eq|auto]. Qed.

Lemma records_wf_filter f m : records_wf m -> records_wf (List.filter f m).
Proof.
  intros Hm k r [Hin _]%list_elem_of_In%filter_In. apply Hm. by apply list_elem_of_In.
Qed.

Lemma mwf_filter {V} f (m : list (string * V)) : mwf m -> mwf (List.filter f m).
Proof.
  unfold mwf. induction m as [|[k v] m IH]; simpl; [done|]. intros [Hk Hn]%NoDup_cons.
  destruct (f (k, v)); simpl; [|auto]. apply NoDup_cons. split; [|auto].
  intros ([??] & -> & [Hin _]%list_elem_of_In%filter_In)%list_elem_of_fmap. apply Hk.
  apply list_elem_of_fmap. eexists. split; [|by apply list_elem_of_In]. done.
Qed.

(** Reading the rows of selected records gives those records. *)
Lemma parse_rows_encode (p : NonceLaneLeaseRow -> bool) (q : NonceLaneCoordinationRecord -> bool) m :
  records_wf m -> (forall r, p (row_of r) = q r) ->
  exists objs, parse_rows (List.filter p (mvalues (encode_table m))) = objs /\
    boundary_flatMap objs = Ok (map parsed_of (select q m)) /\
    boundary_map objs = Ok (map (fun r => ReadOk (parsed_of r)) (select q m)).
Proof.
  intros Hm Hpq. eexists. split; [done|]. unfold select, mvalues.
  induction m as [|[k r] m IH]; [done|]. apply records_wf_cons in Hm as [[_ Hr] Hm].
  simpl. rewrite Hpq. destruct (q r); [|auto]. simpl.
  destruct (row_of_parses r Hr) as (obj & -> & _ & Hp). simpl. rewrite Hp.
  destruct (IH Hm) as [-> ->]. done.
Qed.

Lemma filter_true {A} (f : A -> bool) l : (forall x, f x = true) -> List.filter f l = l.
Proof. intros Hf. induction l as [|x l IH]; simpl; [done|]. by rewrite Hf, IH. Qed.

Lemma delete_prunable_fold rows : forall t,
  delete_prunable rows t =
  List.filter (fun e => negb (bool_decide (e.1 ∈ omap prunable_lease rows))) t.
Proof.
  unfold delete_prunable. induction rows as [|row rows IH]; intros t.
  - cbn [List.fold_left]. symmetry. apply filter_true. intros e.
    apply negb_true_iff, bool_decide_false. apply not_elem_of_nil.
  - cbn [List.fold_left]. rewrite IH. simpl. destruct (prunable_lease row) as [id|]; [|done].
    apply filter_filter. intros e. rewrite <- negb_orb. f_equal.
    apply eq_bool_prop_intro. rewrite orb_True, !bool_decide_spec, elem_of_cons. tauto.
Qed.

Lemma prunable_row r :
  record_wf r ->
  prunable_lease (row_of r) = if is_broadcast_accepted r then None else Some (rec_leaseId r).
Proof.
  intros Hr. destruct (row_of_parses r Hr) as (obj & Hobj & Hf & _). unfold prunable_lease.
  rewrite Hobj, (fo_state _ _ Hf), (fo_leaseId _ _ Hf). unfold is_broadcast_accepted.
  by destruct (rec_lifecycle r).
Qed.

(** Deleting the prunable rows among those [p] selects drops the records that
    are selected and not accepted by the network, and no others. *)
Lemma delete_prunable_encode (p : NonceLaneLeaseRow -> bool) (q : NonceLaneCoordinationRecord -> bool) m :
  mwf m -> records_wf m -> (forall r, p (row_of r) = q r) ->
  delete_prunable (List.filter p (mvalues (encode_table m))) (encode_table m) =
  encode_table (drop_if (fun r => q r && negb (is_broadcast_accepted r)) m).
Proof.
  intros Hwf Hm Hpq. rewrite delete_prunable_fold.
  assert (forall k r, (k, r) ∈ m ->
    k ∈ omap prunable_lease (List.filter p (mvalues (encode_table m))) <->
    q r && negb (is_broadcast_accepted r) = true) as Hin.
  { intros k r Hkr. rewrite list_elem_of_omap. split.
    - intros (row & [Hrow Hp]%list_elem_of_In%filter_In & Hpr).
      apply list_elem_of_In, elem_mvalues in Hrow as (k' & Hrow).
      apply list_elem_of_fmap in Hrow as ([k1 r1] & [= -> ->] & H1).
      destruct (Hm _ _ H1) as [-> Hr1]. rewrite prunable_row in Hpr by done.
      destruct (is_broadcast_accepted r1) eqn:Eb; simplify_eq.
      apply elem_mget in Hkr; [|done]. apply elem_mget in H1; [|done].
      simplify_eq. by rewrite <- Hpq, Hp, Eb.
    - intros [Hq Hb]%andb_prop. apply negb_true_iff in Hb. exists (row_of r).
      destruct (Hm _ _ Hkr) as [-> Hr]. rewrite prunable_row, Hb by done. split; [|done].
      apply list_elem_of_In, filter_In. split; [|by rewrite Hpq].
      apply list_elem_of_In, elem_mvalues. exists (rec_leaseId r). apply list_elem_of_fmap.
      by exists (rec_leaseId r, r). }
  revert Hin. generalize (omap prunable_lease (List.filter p (mvalues (encode_table m)))).
  intros ids Hin. unfold drop_if. clear Hwf Hm. induction m as [|[k r] m IH]; [done|].
  assert (bool_decide (k ∈ ids) = q r && negb (is_broadcast_accepted r)) as Hk.
  { apply eq_bool_prop_intro. rewrite bool_decide_spec, (Hin k r) by set_solver. by rewrite Is_true_true. }
  simpl. rewrite Hk, IH by (intros; apply Hin; set_solver).
  by destruct (q r && negb (is_broadcast_accepted r)).
Qed.

Lemma strict_eq_JString s t : strict_eq (JString s) (JString t) = bool_decide (s = t).
Proof. done. Qed.

Lemma table_readLane t k :
  table_ok t -> stored_string k ->
  IndexedDBStore.readLane k t =
  Ok (map parsed_of (select (fun r => bool_decide (rec_laneKey r = k)) (table_view t))).
Proof.
  intros (Ht & _ & Hr) [Hk Hn]. unfold IndexedDBStore.readLane, readNonceLaneLeaseRecords.
  rewrite Hk, Hn. rewrite Ht at 1.
  destruct (parse_rows_encode (fun row => strict_eq (row_lane_key row) (JString k))
    (fun r => bool_decide (rec_laneKey r = k)) _ Hr ltac:(done)) as (? & -> & -> & _). done.
Qed.

Lemma table_readAllForRecovery t w :
  table_ok t -> stored_option w ->
  IndexedDBStore.readAllForRecovery w t =
  Ok (map (fun r => ReadOk (parsed_of r))
        (select (fun r => match w with
                          | Some w => bool_decide (nonceLaneSubjectId (record_lane r) = w)
                          | None => true
                          end) (table_view t))).
Proof.
  intros (Ht & _ & Hr) Hw. unfold IndexedDBStore.readAllForRecovery, listNonceLaneLeaseRecords.
  destruct w as [w|]; simpl in Hw |- *.
  - destruct Hw as [Hs Hn]. rewrite Hs, Hn. rewrite Ht at 1.
    destruct (parse_rows_encode (fun row => strict_eq (row_wallet_id row) (JString w))
      (fun r => bool_decide (nonceLaneSubjectId (record_lane r) = w)) _ Hr ltac:(done))
      as (? & -> & _ & ->). done.
  - rewrite Ht at 1. rewrite <- (filter_true (fun _ => true) (mvalues _)) by done.
    destruct (parse_rows_encode (fun _ => true) (fun _ => true) _ Hr ltac:(done))
      as (? & -> & _ & ->). done.
Qed.

Lemma table_upsert t r :
  table_ok t -> record_wf r ->
  exists t', IndexedDBStore.upsert r t = Ok t' /\ table_ok t' /\
    table_view t' = mset (rec_leaseId r) r (table_view t).
Proof.
  intros (Ht & Hm & Hr) Hwf. unfold IndexedDBStore.upsert, upsertNonceLaneLeaseRecord.
  rewrite nonceLeaseRow_serialize by done. eexists. split; [done|].
  change (mkLeaseRow _ _ _ _ _ _ _) with (row_of r). simpl js_String.
  apply table_ok_intro; [by rewrite Ht at 1; rewrite encode_mset|..];
    auto using records_wf_mset with js.
Qed.

Lemma table_remove t id :
  table_ok t -> stored_string id ->
  table_ok (removeNonceLaneLeaseRecord id t) /\
  table_view (removeNonceLaneLeaseRecord id t) = mdel id (table_view t).
Proof.
  intros (Ht & Hm & Hr) [Hs Hn]. unfold removeNonceLaneLeaseRecord. rewrite Hs, Hn.
  apply table_ok_intro; [by rewrite Ht at 1; rewrite encode_mdel|..];
    [by apply mdel_wf|by apply records_wf_filter].
Qed.

Lemma table_clearForWallet t w :
  table_ok t -> stored_string w ->
  table_ok (clearNonceLaneLeaseRecordsForWallet w t) /\
  table_view (clearNonceLaneLeaseRecordsForWallet w t) = drop_if (cleared_for w) (table_view t).
Proof.
  intros (Ht & Hm & Hr) [Hs Hn]. unfold clearNonceLaneLeaseRecordsForWallet. rewrite Hs, Hn.
  apply table_ok_intro; [|by apply mwf_filter|by apply records_wf_filter].
  rewrite Ht at 1 2. by apply (delete_prunable_encode _
    (fun r => bool_decide (nonceLaneSubjectId (record_lane r) = w))).
Qed.

Lemma table_pruneExpired t now :
  table_ok t -> is_safe_integer now = true ->
  table_ok (pruneExpiredNonceLaneLeaseRecords now t) /\
  table_view (pruneExpiredNonceLaneLeaseRecords now t) = drop_if (pruned_at now) (table_view t).
Proof.
  intros (Ht & Hm & Hr) Hnow. unfold pruneExpiredNonceLaneLeaseRecords. rewrite Hnow.
  apply table_ok_intro; [|by apply mwf_filter|by apply records_wf_filter].
  rewrite Ht at 1 2. by apply (delete_prunable_encode _ (fun r => rec_expiresAtMs r <=? now)).
Qed.

Lemma table_empty_ok : table_ok [].
Proof. apply (table_ok_intro [] []); [done|constructor|]. by intros k r ?%not_elem_of_nil. Qed.

(** The IndexedDB table, read and written through the row and boundary codecs,
    behaves as a map from lease identifiers to records. *)
#[export, refine] Instance IndexedDBCoordinationStore : CoordinationStore LeaseTable := {|
  store_readLane := IndexedDBStore.readLane;
  store_readAllForRecovery := IndexedDBStore.readAllForRecovery;
  store_upsert := IndexedDBStore.upsert;
  store_remove := removeNonceLaneLeaseRecord;
  store_clearForWallet := clearNonceLaneLeaseRecordsForWallet;
  store_clearAll := clearAllNonceLaneLeaseRecords;
  store_pruneExpired := pruneExpiredNonceLaneLeaseRecords;
  view := table_view;
  store_ok := table_ok;
  readLane_law := table_readLane;
  readAllForRecovery_law := table_readAllForRecovery;
  upsert_law := table_upsert;
  remove_law := table_remove;
  clearForWallet_law := table_clearForWallet;
  pruneExpired_law := table_pruneExpired;
|}.
Proof.
  - intros s k r (_ & _ & Hr). apply Hr.
  - by intros s (_ & Hm & _).
  - intros s _. split; [apply table_empty_ok|done].
Defined.

(** ** Properties of the store *)

Lemma elem_select p m r : r ∈ select p m <-> p r = true /\ exists k, (k, r) ∈ m.
Proof.
  unfold select. rewrite list_elem_of_In, filter_In, <- list_elem_of_In, elem_mvalues. tauto.
Qed.

Lemma elem_drop_if p m k r : (k, r) ∈ drop_if p m <-> p r = false /\ (k, r) ∈ m.
Proof.
  unfold drop_if. rewrite list_elem_of_In, filter_In, <- list_elem_of_In, negb_true_iff. tauto.
Qed.

Lemma elem_mset_iff {V} k (v : V) m k' v' :
  mwf m -> (k', v') ∈ mset k v m <-> (k' = k /\ v' = v) \/ (k' <> k /\ (k', v') ∈ m).
Proof.
  intros Hm. split; [by apply elem_mset_ne|].
  intros [[-> ->]|[? ?]]; [apply elem_mset_same | by apply elem_mset_other].
Qed.

(** Membership in a map that belongs to a table. *)
Lemma mset_view_elem m r r' :
  mwf m -> records_wf m ->
  (exists k, (k, r') ∈ mset (rec_leaseId r) r m) <->
  r' = r \/ (rec_leaseId r' <> rec_leaseId r /\ exists k, (k, r') ∈ m).
Proof.
  intros Hm Hr. split.
  - intros (k & [[-> ->]|[Hk Hin]]%elem_mset_iff); [by left| |done].
    right. destruct (Hr _ _ Hin) as [-> _]. eauto.
  - intros [->|[Hne (k & Hin)]]; [exists (rec_leaseId r); apply elem_mset_iff; auto|].
    destruct (Hr _ _ Hin) as [-> _]. exists (rec_leaseId r'). apply elem_mset_iff; auto.
Qed.

(** Writing a record makes it readable on its lane, as it was written and in
    place of any earlier record of the same lease; the records of other leases
    are unchanged on every lane. *)
Theorem indexedDB_upsert_readLane t r :
  table_ok t -> record_wf r ->
  exists t', IndexedDBStore.upsert r t = Ok t' /\ table_ok t' /\
    forall lane, stored_string lane ->
      exists before after,
        IndexedDBStore.readLane lane t = Ok (map parsed_of before) /\
        IndexedDBStore.readLane lane t' = Ok (map parsed_of after) /\
        forall r', r' ∈ after <->
          (r' = r /\ rec_laneKey r = lane) \/ (r' ∈ before /\ rec_leaseId r' <> rec_leaseId r).
Proof.
  intros Ht Hr. destruct (table_upsert t r Ht Hr) as (t' & Hup & Ht' & Hv).
  exists t'. split; [done|split; [done|]]. intros lane Hl.
  eexists _, _. split; [by apply table_readLane|split; [by apply table_readLane|]].
  intros r'. destruct Ht as (_ & Hm & Hw).
  rewrite !elem_select, !bool_decide_eq_true, Hv, mset_view_elem by done. naive_solver.
Qed.

(** Clearing a wallet and pruning expired leases keep every record whose
    broadcast the network accepted, and every record of another wallet or still
    within its time. *)
Theorem indexedDB_maintenance_keeps_accepted t wallet now k r :
  table_ok t -> stored_string wallet -> is_safe_integer now = true ->
  ((k, r) ∈ table_view (clearNonceLaneLeaseRecordsForWallet wallet t) <->
     (k, r) ∈ table_view t /\
     (is_broadcast_accepted r = true \/ nonceLaneSubjectId (record_lane r) <> wallet)) /\
  ((k, r) ∈ table_view (pruneExpiredNonceLaneLeaseRecords now t) <->
     (k, r) ∈ table_view t /\ isActiveCoordinationLeaseRecord r now = true).
Proof.
  intros Ht Hw Hn. destruct (table_clearForWallet t wallet Ht Hw) as [_ Hc].
  destruct (table_pruneExpired t now Ht Hn) as [_ Hp]. rewrite Hc, Hp, !elem_drop_if.
  unfold cleared_for, pruned_at, isActiveCoordinationLeaseRecord, is_broadcast_accepted.
  split.
  - rewrite andb_false_iff, bool_decide_eq_false, negb_false_iff. tauto.
  - destruct (rec_lifecycle r); rewrite ?andb_true_r, ?andb_false_r, ?Z.ltb_lt, ?Z.leb_gt; tauto.
Qed.

(** ** The store refines a map

    The abstract store is the map from lease identifiers to records. *)

Inductive StoreCall : Type :=
| CallUpsert (record : NonceLaneCoordinationRecord)
| CallRemove (leaseId : string)
| CallClearForWallet (walletId : string)
| CallClearAll
| CallPruneExpired (nowMs : Z).

Definition call_ok (c : StoreCall) : Prop :=
  match c with
  | CallUpsert r => record_wf r
  | CallRemove id => stored_string id
  | CallClearForWallet w => stored_string w
  | CallClearAll => True
  | CallPruneExpired now => is_safe_integer now = true
  end.

(** A call on the table ... *)
Definition run_call (c : StoreCall) (t : LeaseTable) : Result LeaseTable :=
  match c with
  | CallUpsert r => IndexedDBStore.upsert r t
  | CallRemove id => Ok (removeNonceLaneLeaseRecord id t)
  | CallClearForWallet w => Ok (clearNonceLaneLeaseRecordsForWallet w t)
  | CallClearAll => Ok (clearAllNonceLaneLeaseRecords t)
  | CallPruneExpired now => Ok (pruneExpiredNonceLaneLeaseRecords now t)
  end.

(** ... and on the map. *)
Definition spec_call (c : StoreCall) (m : list (string * NonceLaneCoordinationRecord))
    : list (string * NonceLaneCoordinationRecord) :=
  match c with
  | CallUpsert r => mset (rec_leaseId r) r m
  | CallRemove id => mdel id m
  | CallClearForWallet w => drop_if (cleared_for w) m
  | CallClearAll => []
  | CallPruneExpired now => drop_if (pruned_at now) m
  end.

Fixpoint run_calls (cs : list StoreCall) (t : LeaseTable) : Result LeaseTable :=
  match cs with
  | [] => Ok t
  | c :: cs' => match run_call c t with Ok t' => run_calls cs' t' | Throw e => Throw e end
  end.

Definition spec_calls (cs : list StoreCall) (m : list (string * NonceLaneCoordinationRecord))
    : list (string * NonceLaneCoordinationRecord) :=
  List.fold_left (fun m c => spec_call c m) cs m.

Lemma call_simulation c t :
  table_ok t -> call_ok c ->
  exists t', run_call c t = Ok t' /\ table_ok t' /\ table_view t' = spec_call c (table_view t).
Proof.
  intros Ht Hc. destruct c as [r|id|w| |now]; simpl in *.
  - by apply table_upsert.
  - eexists. split; [done|by apply table_remove].
  - eexists. split; [done|by apply table_clearForWallet].
  - eexists. split; [done|split; [apply table_empty_ok|done]].
  - eexists. split; [done|by apply table_pruneExpired].
Qed.

(** C39. Any sequence of well-formed calls on the IndexedDB store succeeds and leaves the
    table that the same calls on a map from lease identifiers to records describe:
    every lane then reads exactly the map's records of that lane, and recovery reads
    all of them. *)
Theorem indexedDB_refines_map cs : forall t,
  table_ok t -> Forall call_ok cs ->
  exists t', run_calls cs t = Ok t' /\
    (forall lane, stored_string lane ->
       IndexedDBStore.readLane lane t' =
       Ok (map parsed_of (select (fun r => bool_decide (rec_laneKey r = lane))
                            (spec_calls cs (table_view t))))) /\
    IndexedDBStore.readAllForRecovery None t' =
    Ok (map (fun r => ReadOk (parsed_of r)) (mvalues (spec_calls cs (table_view t)))).
Proof.
  induction cs as [|c cs IH]; intros t Ht Hcs; simpl.
  - exists t. split; [done|]. split; [intros lane Hl; by apply table_readLane|].
    rewrite table_readAllForRecovery by done. unfold select. by rewrite filter_true.
  - apply Forall_cons in Hcs as [Hc Hcs].
    destruct (call_simulation c t Ht Hc) as (t1 & -> & Ht1 & Hv).
    destruct (IH t1 Ht1 Hcs) as (t' & Hrun & Hread). rewrite Hv in Hread. eauto.
Qed.

Lemma boundary_map_throws records record e :
  record ∈ records -> parseNonceLaneCoordinationRecord record = Throw e ->
  exists e', boundary_map records = Throw e'.
Proof.
  induction records as [|x records IH]; intros Hin He; [by apply not_elem_of_nil in Hin|].
  apply elem_of_cons in Hin as [<-|Hin]; simpl; [rewrite He; eauto|].
  destruct (parseNonceLaneCoordinationRecord x); [|eauto].
  destruct (IH Hin He) as (e' & ->). eauto.
Qed.

Lemma elem_parse_rows rows row obj :
  row ∈ rows -> parseNonceLeaseRow row = Some obj -> obj ∈ parse_rows rows.
Proof.
  induction rows as [|x rows IH]; intros Hin Hp; [by apply not_elem_of_nil in Hin|].
  apply elem_of_cons in Hin as [<-|Hin]; simpl; [rewrite Hp; set_solver|].
  destruct (parseNonceLeaseRow x); set_solver.
Qed.

(** A single row that the row parser accepts and the boundary throws on (an account
    id with a space inside) makes the read of all records for recovery fail, for
    every lane and wallet, instead of being reported as one malformed record. *)
Theorem throwing_row_aborts_recovery t k row obj e :
  (k, row) ∈ t -> parseNonceLeaseRow row = Some obj ->
  parseNonceLaneCoordinationRecord obj = Throw e ->
  exists e', IndexedDBStore.readAllForRecovery None t = Throw e'.
Proof.
  intros Hin Hp He. unfold IndexedDBStore.readAllForRecovery, listNonceLaneLeaseRecords. simpl.
  eapply boundary_map_throws; [|done]. eapply elem_parse_rows; [|done]. apply elem_mvalues. eauto.
Qed.

(** ** Examples *)

Definition example_sender : string := "0x00000000000000000000000000000000000000aa".

Definition example_record (lifecycle : NonceDurableLeaseLifecycle) (nonce expiresAtMs : Z)
    : NonceLaneCoordinationRecord :=
  let target := EvmEip155ChainTarget 1 "ethereum-mainnet" in
  let lane := EvmLane (mkEvmLane target "wallet-1" example_sender None) in
  mkRecord (nonceLaneKey lane) ("lease-" +:+ Z_to_string nonce) (nonceLaneNetworkKey lane) nonce
    "op-1" "fp-1" 0 expiresAtMs 0 (Some "runtime-1") None None None lifecycle
    (EvmRecord target "wallet-1" example_sender None).

Definition example_tx_hash : string :=
  "0x00000000000000000000000000000000000000000000000000000000000000bb".

Lemma example_record_wf l n e :
  0 <= n -> is_safe_integer e = true ->
  l = DurableSigned \/ l = DurableBroadcastAccepted example_tx_hash ->
  record_wf (example_record l n e).
Proof.
  intros Hn He Hl. split; simpl; unfold stored_string, stored_option; try reflexivity; try done;
    try (split; reflexivity).
  - split; [|done]. apply trim_no_space. rewrite all_chars_app. simpl. apply Z_to_string_no_space.
  - by destruct Hl as [-> | ->].
Qed.

(** A lease that is signed and one that is broadcast, both past their time. *)
Definition example_table : LeaseTable :=
  encode_table
    [("lease-7", example_record DurableSigned 7 10);
     ("lease-8", example_record (DurableBroadcastAccepted example_tx_hash) 8 10)].

Lemma example_table_ok : table_ok example_table.
Proof.
  apply (table_ok_intro _ [("lease-7", example_record DurableSigned 7 10);
     ("lease-8", example_record (DurableBroadcastAccepted example_tx_hash) 8 10)]); [done|..].
  - unfold mwf. simpl. repeat constructor; set_solver.
  - rewrite !records_wf_cons. split_and!; try reflexivity;
      try (apply example_record_wf; [lia|done|auto]). by intros k r ?%not_elem_of_nil.
Qed.

Lemma indexedDB_upsert_readLane_witness :
  exists t', IndexedDBStore.upsert (example_record DurableSigned 9 10) example_table = Ok t' /\
    table_ok t'.
Proof.
  destruct (indexedDB_upsert_readLane example_table (example_record DurableSigned 9 10)
    example_table_ok) as (t' & H1 & H2 & _); [apply example_record_wf; [lia|reflexivity|auto]|].
  exists t'. split; [exact H1|exact H2].
Defined.

Lemma indexedDB_maintenance_keeps_accepted_witness :
  ("lease-8", example_record (DurableBroadcastAccepted example_tx_hash) 8 10)
    ∈ table_view (pruneExpiredNonceLaneLeaseRecords 50 example_table).
Proof.
  apply (indexedDB_maintenance_keeps_accepted example_table "wallet-1" 50 "lease-8" _
    example_table_ok (conj eq_refl eq_refl) eq_refl).
  split; [|reflexivity]. apply mget_elem. vm_compute. reflexivity.
Defined.

(** A record whose account id has a space inside. *)
Definition spaced_record : NonceLaneCoordinationRecord :=
  let target := EvmEip155ChainTarget 1 "ethereum-mainnet" in
  mkRecord "lane" "lease-9" "evm:eip155:1" 9 "op-1" "fp-1" 0 10 0 None None None None DurableSigned
    (EvmRecord target "wallet 1" example_sender None).

Lemma throwing_row_aborts_recovery_witness :
  exists e', IndexedDBStore.readAllForRecovery None (("lease-9", row_of spaced_record) :: example_table)
    = Throw e'.
Proof.
  destruct (parseNonceLeaseRow (row_of spaced_record)) as [obj|] eqn:E; [|vm_compute in E; discriminate E].
  apply (throwing_row_aborts_recovery _ "lease-9" (row_of spaced_record) obj
    (JsError "walletId must not contain whitespace or control characters"));
    [apply list_elem_of_here|exact E|].
  vm_compute in E. injection E as <-. vm_compute. reflexivity.
Defined.

Lemma indexedDB_refines_map_witness :
  exists t', run_calls [CallUpsert (example_record DurableSigned 9 10); CallPruneExpired 10] example_table
    = Ok t' /\
  IndexedDBStore.readAllForRecovery None t' =
  Ok [ReadOk (parsed_of (example_record (DurableBroadcastAccepted example_tx_hash) 8 10))].
Proof.
  destruct (indexedDB_refines_map [CallUpsert (example_record DurableSigned 9 10); CallPruneExpired 10]
    example_table example_table_ok) as (t' & Hrun & _ & Hall).
  - repeat constructor; try reflexivity. apply example_record_wf; [lia|reflexivity|auto].
  - exists t'. split; [exact Hrun|]. rewrite Hall. vm_compute. reflexivity.
Defined.
