(* ===== verification/DurableLock.v ===== *)
(** * The durable lane lock

    [withNonceLaneCoordinationLock] of [indexedDB/seamsWalletDB/repositories.ts]:
    a lock row with a time to live and a fencing token, taken and released in
    IndexedDB transactions by any number of tabs and workers.  Each contender is
    a process; a transaction is one step. *)

From S2P Require Import Prelude JsValues NonceTypes NonceRecords.
Local Open Scope Z_scope.

Definition DEFAULT_NONCE_LANE_LOCK_TTL_MS : Z := 5000.
Definition DEFAULT_NONCE_LANE_LOCK_WAIT_TIMEOUT_MS : Z := 3000.
Definition DEFAULT_NONCE_LANE_LOCK_POLL_MS : Z := 25.

Record NonceLaneLockRow : Type := mkLockRow {
  lock_key : string;
  owner_id : string;
  fencing_token : string;
  acquired_at_ms : Z;
  expires_at_ms : Z;
  updated_at_ms : Z;
}.

(** The stored object of a lock row. *)
Definition lock_row_object (row : NonceLaneLockRow) : JsVal :=
  JObject [("lock_key", JString (lock_key row)); ("owner_id", JString (owner_id row));
           ("fencing_token", JString (fencing_token row));
           ("acquired_at_ms", JInt (acquired_at_ms row));
           ("expires_at_ms", JInt (expires_at_ms row));
           ("updated_at_ms", JInt (updated_at_ms row))].

(** [Number.isSafeInteger(v) && v >= 0]. *)
Definition stored_time (v : JsVal) : option Z :=
  match v with
  | JNumber n =>
      match safe_integer_value n with
      | Some z => if z <? 0 then None else Some z
      | None => None
      end
  | _ => None
  end.

Definition parseNonceLaneLockRow (value : JsVal) : option NonceLaneLockRow :=
  if negb (isPlainObject value) then None
  else
    match parseStoredNonEmptyString (jget "lock_key" value),
          parseStoredNonEmptyString (jget "owner_id" value),
          parseStoredNonEmptyString (jget "fencing_token" value),
          stored_time (jget "acquired_at_ms" value), stored_time (jget "expires_at_ms" value),
          stored_time (jget "updated_at_ms" value) with
    | Some lockKey, Some ownerId, Some fencingToken, Some acquiredAtMs, Some expiresAtMs,
      Some updatedAtMs =>
        Some (mkLockRow lockKey ownerId fencingToken acquiredAtMs expiresAtMs updatedAtMs)
    | _, _, _, _, _, _ => None
    end.

(** The lock table: stored objects under [lock_key]. *)
Definition LockTable : Type := list (string * JsVal).

Definition stored_lock (lockKey : string) (t : LockTable) : option NonceLaneLockRow :=
  parseNonceLaneLockRow (default JUndefined (mget lockKey t)).

(** The transaction of [tryAcquire] at [nowMs]. *)
Definition tryAcquire (lockKey ownerId fencingToken : string) (ttlMs nowMs : Z) (t : LockTable)
    : bool * LockTable :=
  let held :=
    match stored_lock lockKey t with
    | Some existing => nowMs <? expires_at_ms existing
    | None => false
    end in
  if held then (false, t)
  else
    (true,
     mset lockKey
       (lock_row_object (mkLockRow lockKey ownerId fencingToken nowMs (nowMs + ttlMs) nowMs)) t).

(** The transaction of the [finally] block. *)
Definition releaseLock (lockKey fencingToken : string) (t : LockTable) : LockTable :=
  match stored_lock lockKey t with
  | Some existing => if bool_decide (fencing_token existing = fencingToken) then mdel lockKey t else t
  | None => t
  end.

(** [Math.max(1, Math.floor(Number(value) || fallback))] for an integral number. *)
Definition positive_or_default (value : option Z) (fallback : Z) : Z :=
  Z.max 1 match value with Some 0 | None => fallback | Some z => z end.

(** Where a call of [withNonceLaneCoordinationLock] stands. *)
Inductive LockPhase : Type :=
| Trying
| Refused
| Sleeping (wakeAtMs : Z)
| InTask (acquiredAtMs : Z)
| LockReleased
| LockTimedOut.

Record LockCall : Type := mkLockCall {
  lc_lockKey : string;
  lc_ownerId : string;
  lc_fencingToken : string;
  lc_ttlMs : Z;
  lc_startedAtMs : Z;
  lc_deadlineMs : Z;
  lc_attempts : Z;
  lc_phase : LockPhase;
}.

Definition call_with (phase : LockPhase) (attempts : Z) (c : LockCall) : LockCall :=
  mkLockCall (lc_lockKey c) (lc_ownerId c) (lc_fencingToken c) (lc_ttlMs c) (lc_startedAtMs c)
    (lc_deadlineMs c) attempts phase.

(** The head of the function: normalised inputs, a fresh token, a deadline. *)
Definition startLockCall (lockKey ownerId : string) (ttlMs waitTimeoutMs : option Z)
    (fencingToken : string) (nowMs : Z) : Result LockCall :=
  let lockKey := trim lockKey in
  let ownerId := trim ownerId in
  if nonempty lockKey && nonempty ownerId then
    Ok (mkLockCall lockKey ownerId fencingToken
          (positive_or_default ttlMs DEFAULT_NONCE_LANE_LOCK_TTL_MS) nowMs
          (nowMs + positive_or_default waitTimeoutMs DEFAULT_NONCE_LANE_LOCK_WAIT_TIMEOUT_MS)
          0 Trying)
  else Throw (JsError "[SeamsWalletDB] nonce lane lock requires lockKey and ownerId").

(** The next step of one call at the time [nowMs]; [None] when it has to wait or
    has ended.  The task itself runs while the phase is [InTask]. *)
Definition lock_call_step (nowMs : Z) (c : LockCall) (t : LockTable)
    : option (LockCall * LockTable) :=
  match lc_phase c with
  | Trying =>
      let '(acquired, t') :=
        tryAcquire (lc_lockKey c) (lc_ownerId c) (lc_fencingToken c) (lc_ttlMs c) nowMs t in
      Some (call_with (if acquired then InTask nowMs else Refused) (lc_attempts c + 1) c, t')
  | Refused =>
      if lc_deadlineMs c <=? nowMs
      then Some (call_with LockTimedOut (lc_attempts c) c, t)
      else Some (call_with (Sleeping (nowMs + DEFAULT_NONCE_LANE_LOCK_POLL_MS)) (lc_attempts c) c, t)
  | Sleeping wakeAtMs =>
      if wakeAtMs <=? nowMs then Some (call_with Trying (lc_attempts c) c, t) else None
  | InTask _ =>
      Some (call_with LockReleased (lc_attempts c) c, releaseLock (lc_lockKey c) (lc_fencingToken c) t)
  | LockReleased | LockTimedOut => None
  end.

(** All contenders of all tabs and workers, the lock table and the time. *)
Record LockSystem : Type := mkLockSystem {
  ls_clock : Z;
  ls_table : LockTable;
  ls_calls : list LockCall;
}.

(** [Date.now()] does not go back, the random tokens of two calls differ, and
    times and durations are below 2^52 so that sums of them are exact. *)
Inductive lock_step : LockSystem -> LockSystem -> Prop :=
| lock_tick s now' :
    ls_clock s <= now' < 2 ^ 52 ->
    lock_step s (mkLockSystem now' (ls_table s) (ls_calls s))
| lock_start s lockKey ownerId ttlMs waitTimeoutMs token c :
    stored_string token -> token ∉ map lc_fencingToken (ls_calls s) ->
    startLockCall lockKey ownerId ttlMs waitTimeoutMs token (ls_clock s) = Ok c ->
    lc_ttlMs c < 2 ^ 52 ->
    lock_step s (mkLockSystem (ls_clock s) (ls_table s) (ls_calls s ++ [c]))
| lock_advance s i c c' t' :
    ls_calls s !! i = Some c -> lock_call_step (ls_clock s) c (ls_table s) = Some (c', t') ->
    lock_step s (mkLockSystem (ls_clock s) t' (<[i := c']> (ls_calls s))).

Inductive lock_reachable : LockSystem -> Prop :=
| lock_init now : 0 <= now < 2 ^ 52 -> lock_reachable (mkLockSystem now [] [])
| lock_next s s' : lock_reachable s -> lock_step s s' -> lock_reachable s'.

(** ** Mutual exclusion *)

Lemma stored_time_ok z : 0 <= z <= MAX_SAFE_INTEGER -> stored_time (JInt z) = Some z.
Proof.
  intros Hz. unfold stored_time, JInt, safe_integer_value, is_safe_integer.
  replace (_ && _) with true by (unfold MAX_SAFE_INTEGER in *; lia).
  by replace (z <? 0) with false by lia.
Qed.

Definition lock_row_wf (row : NonceLaneLockRow) : Prop :=
  stored_string (lock_key row) /\ stored_string (owner_id row) /\
  stored_string (fencing_token row) /\ 0 <= acquired_at_ms row <= MAX_SAFE_INTEGER /\
  0 <= expires_at_ms row <= MAX_SAFE_INTEGER /\ 0 <= updated_at_ms row <= MAX_SAFE_INTEGER.

#[local] Arguments stored_time : simpl never.
#[local] Arguments parseStoredNonEmptyString : simpl never.

(** A lock row is read back as it was written. *)
Lemma parse_lock_row row :
  lock_row_wf row -> parseNonceLaneLockRow (lock_row_object row) = Some row.
Proof.
  intros (H1 & H2 & H3 & H4 & H5 & H6). destruct row. unfold parseNonceLaneLockRow. simpl in *.
  by rewrite !stored_time_ok, !parseStored_ok.
Qed.

Definition call_wf (c : LockCall) : Prop :=
  stored_string (lc_lockKey c) /\ stored_string (lc_ownerId c) /\
  stored_string (lc_fencingToken c) /\ 1 <= lc_ttlMs c < 2 ^ 52.

(** A call inside its task, within its time to live, is the one the row names. *)
Definition holds_lock (s : LockSystem) (c : LockCall) : Prop :=
  forall at_ms, lc_phase c = InTask at_ms -> ls_clock s < at_ms + lc_ttlMs c ->
  exists row, stored_lock (lc_lockKey c) (ls_table s) = Some row /\
    fencing_token row = lc_fencingToken c /\ expires_at_ms row = at_ms + lc_ttlMs c.

Definition waits_within_deadline (s : LockSystem) (c : LockCall) : Prop :=
  lc_startedAtMs c <= ls_clock s /\
  lc_startedAtMs c + DEFAULT_NONCE_LANE_LOCK_POLL_MS * (lc_attempts c - 1) <=
    lc_deadlineMs c + DEFAULT_NONCE_LANE_LOCK_POLL_MS /\
  match lc_phase c with
  | Trying =>
      lc_startedAtMs c + DEFAULT_NONCE_LANE_LOCK_POLL_MS * lc_attempts c <= ls_clock s /\
      lc_startedAtMs c + DEFAULT_NONCE_LANE_LOCK_POLL_MS * lc_attempts c <=
        lc_deadlineMs c + DEFAULT_NONCE_LANE_LOCK_POLL_MS
  | Refused =>
      lc_startedAtMs c + DEFAULT_NONCE_LANE_LOCK_POLL_MS * (lc_attempts c - 1) <= ls_clock s
  | Sleeping wakeAtMs =>
      lc_startedAtMs c + DEFAULT_NONCE_LANE_LOCK_POLL_MS * lc_attempts c <= wakeAtMs /\
      wakeAtMs <= lc_deadlineMs c + DEFAULT_NONCE_LANE_LOCK_POLL_MS
  | _ => True
  end.

Record lock_inv (s : LockSystem) : Prop := mkLockInv {
  li_clock : 0 <= ls_clock s < 2 ^ 52;
  li_tokens : NoDup (map lc_fencingToken (ls_calls s));
  li_calls : forall c, c ∈ ls_calls s -> call_wf c /\ holds_lock s c /\ waits_within_deadline s c;
}.

Lemma startLockCall_wf k o ttl wait tok now c :
  startLockCall k o ttl wait tok now = Ok c -> stored_string tok -> lc_ttlMs c < 2 ^ 52 ->
  call_wf c /\ lc_fencingToken c = tok /\ lc_phase c = Trying /\ lc_attempts c = 0 /\
  lc_startedAtMs c = now /\ now < lc_deadlineMs c.
Proof.
  unfold startLockCall. destruct (nonempty (trim k)) eqn:Ek; [|done].
  destruct (nonempty (trim o)) eqn:Eo; [|done]. simpl. intros [= <-] Htok Httl. simpl in *.
  unfold call_wf, stored_string. simpl. split_and!; auto using trim_idem; try apply Htok;
    unfold positive_or_default; lia.
Qed.

(** Taking the lock: only when no row holds it, and then the row names the taker. *)
Lemma tryAcquire_spec k o tok ttl now t :
  stored_string k -> stored_string o -> stored_string tok -> 1 <= ttl < 2 ^ 52 ->
  0 <= now < 2 ^ 52 ->
  match tryAcquire k o tok ttl now t with
  | (false, t') => t' = t
  | (true, t') =>
      (forall row, stored_lock k t = Some row -> expires_at_ms row <= now) /\
      (exists row, stored_lock k t' = Some row /\ fencing_token row = tok /\
         expires_at_ms row = now + ttl) /\
      (forall k', k' <> k -> stored_lock k' t' = stored_lock k' t)
  end.
Proof.
  intros Hk Ho Htok Httl Hnow. unfold tryAcquire.
  destruct (match stored_lock k t with Some e => _ | None => _ end) eqn:Eh; [done|].
  split_and!.
  - intros row Hrow. rewrite Hrow in Eh. lia.
  - eexists. unfold stored_lock at 1. rewrite mget_mset_eq. simpl default.
    split; [apply parse_lock_row|done]. unfold lock_row_wf, MAX_SAFE_INTEGER. simpl.
    split_and!; try done; lia.
  - intros k' Hne. unfold stored_lock. by rewrite mget_mset_ne.
Qed.

Lemma releaseLock_other k tok t k' row :
  stored_lock k' t = Some row -> fencing_token row <> tok ->
  stored_lock k' (releaseLock k tok t) = Some row.
Proof.
  intros Hrow Hne. unfold releaseLock. destruct (stored_lock k t) as [e|] eqn:Ee; [|done].
  case_bool_decide as Hd; [|done].
  destruct (decide (k' = k)) as [->|Hk]; [congruence|].
  unfold stored_lock. by rewrite mget_mdel_ne.
Qed.

(** A step of one call keeps the row of every other call that holds its lock. *)
Lemma lock_call_step_others now c t c' t' d :
  call_wf c -> 0 <= now < 2 ^ 52 -> lock_call_step now c t = Some (c', t') ->
  lc_fencingToken d <> lc_fencingToken c ->
  holds_lock (mkLockSystem now t []) d -> holds_lock (mkLockSystem now t' []) d.
Proof.
  intros (Hk & Ho & Htok & Httl) Hnow Hstep Hne Hd at_ms Hph Hlt.
  destruct (Hd at_ms Hph Hlt) as (row & Hrow & Ht & He). simpl in *.
  unfold lock_call_step in Hstep. destruct (lc_phase c).
  - pose proof (tryAcquire_spec (lc_lockKey c) (lc_ownerId c) _ _ now t Hk Ho Htok Httl Hnow) as Ha.
    destruct (tryAcquire _ _ _ _ _ _) as [[] t1]; simplify_eq; [|eauto].
    destruct Ha as (Hfree & _ & Hother).
    destruct (decide (lc_lockKey d = lc_lockKey c)) as [Heq|Hk'].
    + rewrite Heq in Hrow. specialize (Hfree _ Hrow). lia.
    + rewrite Hother by done. eauto.
  - case_match; simplify_eq; eauto.
  - case_match; simplify_eq; eauto.
  - simplify_eq. exists row. split; [|done]. apply releaseLock_other; congruence.
  - done.
  - done.
Qed.

Lemma lock_call_step_self now c t c' t' :
  call_wf c -> 0 <= now < 2 ^ 52 -> lock_call_step now c t = Some (c', t') ->
  call_wf c' /\ lc_fencingToken c' = lc_fencingToken c /\ holds_lock (mkLockSystem now t' []) c'.
Proof.
  intros Hwf Hnow Hstep. pose proof Hwf as (Hk & Ho & Htok & Httl).
  unfold lock_call_step in Hstep. destruct (lc_phase c) eqn:Eph.
  - pose proof (tryAcquire_spec (lc_lockKey c) (lc_ownerId c) _ _ now t Hk Ho Htok Httl Hnow) as Ha.
    destruct (tryAcquire _ _ _ _ _ _) as [[] t1]; simplify_eq; (split; [done|split; [done|]]);
      intros at_ms; simpl; intros [=]; subst. intros _. by destruct Ha as (_ & ? & _).
  - case_match; simplify_eq; (split; [done|split; [done|]]); by intros at_ms; simpl.
  - case_match; simplify_eq; (split; [done|split; [done|]]); by intros at_ms; simpl.
  - simplify_eq; (split; [done|split; [done|]]); by intros at_ms; simpl.
  - done.
  - done.
Qed.

Lemma lock_call_step_waits now c t c' t' T :
  waits_within_deadline (mkLockSystem now t T) c -> lock_call_step now c t = Some (c', t') ->
  waits_within_deadline (mkLockSystem now t' T) c'.
Proof.
  unfold waits_within_deadline, lock_call_step. intros (H1 & H2 & H3) Hs.
  destruct (lc_phase c); simpl in *.
  - destruct (tryAcquire _ _ _ _ _ _) as [[] t1]; simplify_eq; simpl;
      rewrite ?Z.add_simpl_r; split_and!; tauto || lia.
  - destruct (lc_deadlineMs c <=? now) eqn:E; simplify_eq; simpl; unfold
      DEFAULT_NONCE_LANE_LOCK_POLL_MS in *; split_and!; lia.
  - destruct (wakeAtMs <=? now) eqn:E; simplify_eq; simpl; unfold
      DEFAULT_NONCE_LANE_LOCK_POLL_MS in *; split_and!; lia.
  - simplify_eq. simpl. tauto.
  - done.
  - done.
Qed.

Lemma holds_lock_ext s s' c :
  ls_table s' = ls_table s -> ls_clock s <= ls_clock s' -> holds_lock s c -> holds_lock s' c.
Proof. intros Ht Hc H at_ms Hp Hlt. rewrite Ht. apply H; [done|lia]. Qed.

Lemma waits_ext s s' c :
  ls_clock s <= ls_clock s' -> waits_within_deadline s c -> waits_within_deadline s' c.
Proof.
  unfold waits_within_deadline. intros Hc (? & ? & ?). split; [lia|split; [done|]].
  destruct (lc_phase c); try done; lia.
Qed.

Lemma map_insert_same {A B} (f : A -> B) (l : list A) i x y :
  l !! i = Some x -> f y = f x -> map f (<[i := y]> l) = map f l.
Proof.
  revert i. induction l as [|z l IH]; intros [|i]; simpl; [done..| |]; intros; simplify_eq; f_equal;
    auto.
Qed.

(** In a list with distinct images, another element has another image. *)
Lemma nodup_map_other {A B} (f : A -> B) (l : list A) i x y :
  NoDup (map f l) -> l !! i = Some x -> forall j, l !! j = Some y -> j <> i -> f y <> f x.
Proof.
  intros Hn Hi j Hj Hne Heq. apply Hne. eapply (NoDup_lookup (map f l) j i (f x)); [done|..].
  - rewrite <- Heq. rewrite list_lookup_fmap, Hj. done.
  - rewrite list_lookup_fmap, Hi. done.
Qed.

Lemma lock_step_inv s s' : lock_inv s -> lock_step s s' -> lock_inv s'.
Proof.
  intros [Hc Hn Hcalls] Hstep. destruct Hstep as
    [s now' Hle|s k o ttl wait tok c Htok Hfresh Hstart Httl|s i c c' t' Hi Hs]; split; simpl.
  - lia.
  - done.
  - intros c (Hwf & Hh & Hw)%Hcalls. split; [done|]. split.
    + eapply holds_lock_ext; [..|done]; [done|simpl; lia].
    + eapply waits_ext; [|done]. simpl; lia.
  - done.
  - destruct (startLockCall_wf _ _ _ _ _ _ _ Hstart Htok Httl) as (_ & Ht & _).
    rewrite map_app. apply NoDup_app. split_and!; [done| |apply NoDup_singleton].
    intros x Hx ->%list_elem_of_singleton. simpl in *. by rewrite Ht in Hx.
  - destruct (startLockCall_wf _ _ _ _ _ _ _ Hstart Htok Httl) as (Hwf & _ & Hp & Ha & Hst & Hd).
    intros c1 [Hin| ->%list_elem_of_singleton]%elem_of_app.
    + destruct (Hcalls _ Hin) as (? & ? & ?). done.
    + split; [done|]. split; [intros at_ms; by rewrite Hp|].
      unfold waits_within_deadline. rewrite Hp, Ha, Hst. simpl.
      unfold DEFAULT_NONCE_LANE_LOCK_POLL_MS. lia.
  - done.
  - destruct (Hcalls c) as (Hwf & _); [by eapply list_elem_of_lookup_2|].
    destruct (lock_call_step_self _ _ _ _ _ Hwf Hc Hs) as (_ & Ht & _).
    by rewrite (map_insert_same _ _ _ _ _ Hi Ht).
  - destruct (Hcalls c) as (Hwf & Hh & Hw); [by eapply list_elem_of_lookup_2|].
    destruct (lock_call_step_self _ _ _ _ _ Hwf Hc Hs) as (Hwf' & _ & Hh').
    intros d (j & Hj)%list_elem_of_lookup. destruct (decide (i = j)) as [<-|Hij].
    + rewrite list_lookup_insert_eq in Hj by (by eapply lookup_lt_Some). simplify_eq.
      split; [done|]. split; [done|]. eapply lock_call_step_waits; [|done]. done.
    + rewrite list_lookup_insert_ne in Hj by done.
      destruct (Hcalls d) as (? & Hhd & Hwd); [by eapply list_elem_of_lookup_2|].
      split; [done|]. split; [|done].
      eapply (lock_call_step_others _ _ _ _ _ d Hwf Hc Hs); [|done].
      eapply nodup_map_other; eauto.
Qed.

Lemma lock_reachable_inv s : lock_reachable s -> lock_inv s.
Proof.
  induction 1 as [now Hnow|s s' _ IH Hstep]; [|by eapply lock_step_inv].
  split; simpl; [done|constructor|]. by intros c ?%not_elem_of_nil.
Qed.

(** C9. Two calls for the same lock are never both inside their task while both are
    within their time to live: whatever the interleaving of the contenders'
    transactions, releases and expiries, at most one of them holds the lock. *)
Theorem durable_lock_exclusive s i j c d at_c at_d :
  lock_reachable s -> ls_calls s !! i = Some c -> ls_calls s !! j = Some d -> i <> j ->
  lc_lockKey c = lc_lockKey d -> lc_phase c = InTask at_c -> lc_phase d = InTask at_d ->
  at_c + lc_ttlMs c <= ls_clock s \/ at_d + lc_ttlMs d <= ls_clock s.
Proof.
  intros Hs%lock_reachable_inv Hi Hj Hij Hk Hc Hd.
  destruct (decide (ls_clock s < at_c + lc_ttlMs c)) as [Hlc|]; [|left; lia].
  destruct (decide (ls_clock s < at_d + lc_ttlMs d)) as [Hld|]; [|right; lia].
  exfalso. destruct Hs as [_ Hn Hcalls].
  destruct (Hcalls c) as (_ & Hhc & _); [by eapply list_elem_of_lookup_2|].
  destruct (Hcalls d) as (_ & Hhd & _); [by eapply list_elem_of_lookup_2|].
  destruct (Hhc _ Hc Hlc) as (r1 & Hr1 & Ht1 & _), (Hhd _ Hd Hld) as (r2 & Hr2 & Ht2 & _).
  rewrite Hk in Hr1. simplify_eq.
  eapply (nodup_map_other lc_fencingToken (ls_calls s) i c d Hn Hi j Hj); congruence.
Qed.

(** A call that is still waiting has polled at most once per poll interval of
    its wait timeout, plus one: it acquires the lock or times out. *)
Theorem durable_lock_wait_bounded s c :
  lock_reachable s -> c ∈ ls_calls s ->
  DEFAULT_NONCE_LANE_LOCK_POLL_MS * lc_attempts c <=
    (lc_deadlineMs c - lc_startedAtMs c) + 2 * DEFAULT_NONCE_LANE_LOCK_POLL_MS /\
  match lock_call_step (ls_clock s) c (ls_table s) with
  | Some (c', _) =>
      lc_phase c = Refused -> lc_deadlineMs c <= ls_clock s -> lc_phase c' = LockTimedOut
  | None => lc_phase c <> Trying /\ lc_phase c <> Refused
  end.
Proof.
  intros Hs%lock_reachable_inv Hc. destruct (li_calls _ Hs c Hc) as (_ & _ & (_ & Hb & _)).
  split; [lia|]. unfold lock_call_step. destruct (lc_phase c); try done.
  - by destruct (tryAcquire _ _ _ _ _ _).
  - destruct (lc_deadlineMs c <=? ls_clock s) eqn:E; [done|lia].
  - by destruct (wakeAtMs <=? ls_clock s).
Qed.

(** ** Example runs *)

Definition example_call (token : string) (now attempts : Z) (phase : LockPhase) : LockCall :=
  mkLockCall "lane" "tab" token 5000 now (now + 3000) attempts phase.

Definition example_row (token : string) (now : Z) : JsVal :=
  lock_row_object (mkLockRow "lane" "tab" token now (now + 5000) now).

(** The first holder overstays its time to live and a second call takes the lock. *)
Definition example_overstay : LockSystem :=
  mkLockSystem 6000 [("lane", example_row "t2" 6000)]
    [example_call "t1" 0 1 (InTask 0); example_call "t2" 6000 1 (InTask 6000)].

Lemma example_overstay_reachable : lock_reachable example_overstay.
Proof.
  eapply lock_next; [|eapply (lock_advance (mkLockSystem 6000 [("lane", example_row "t1" 0)]
    [example_call "t1" 0 1 (InTask 0); example_call "t2" 6000 0 Trying]) 1); reflexivity].
  eapply lock_next; [|eapply (lock_start (mkLockSystem 6000 [("lane", example_row "t1" 0)]
    [example_call "t1" 0 1 (InTask 0)]) "lane" "tab" None None "t2");
    [split; reflexivity|apply (bool_decide_unpack _); vm_compute; exact I|reflexivity|vm_compute; reflexivity]].
  eapply lock_next; [|eapply (lock_tick (mkLockSystem 0 [("lane", example_row "t1" 0)]
    [example_call "t1" 0 1 (InTask 0)]) 6000); vm_compute; split; congruence].
  eapply lock_next; [|eapply (lock_advance (mkLockSystem 0 [] [example_call "t1" 0 0 Trying]) 0);
    reflexivity].
  eapply lock_next; [|eapply (lock_start (mkLockSystem 0 [] []) "lane" "tab" None None "t1");
    [split; reflexivity|apply not_elem_of_nil|reflexivity|vm_compute; reflexivity]].
  apply lock_init. lia.
Defined.

Lemma durable_lock_exclusive_witness :
  0 + 5000 <= ls_clock example_overstay \/ 6000 + 5000 <= ls_clock example_overstay.
Proof.
  apply (durable_lock_exclusive example_overstay 0 1 (example_call "t1" 0 1 (InTask 0))
    (example_call "t2" 6000 1 (InTask 6000)) 0 6000 example_overstay_reachable);
    try reflexivity. discriminate.
Defined.

Lemma durable_lock_wait_bounded_witness :
  DEFAULT_NONCE_LANE_LOCK_POLL_MS * 1 <= (3000 - 0) + 2 * DEFAULT_NONCE_LANE_LOCK_POLL_MS.
Proof.
  refine (proj1 (durable_lock_wait_bounded example_overstay (example_call "t1" 0 1 (InTask 0))
    example_overstay_reachable _)). apply list_elem_of_here.
Defined.
