(* ===== verification/LocalLaneLock.v ===== *)
(** * The lane lock within a runtime

    [withLocalLaneLock] of [nonce/NonceCoordinator.ts]: a chain of promises per lane
    key.  A call awaits the promise its predecessor left in the map and leaves one of
    its own, which resolves when its task has settled and its predecessor's has
    resolved.  Calls of any number of lanes interleave, each in three steps: the call
    itself, the start of its task, and the task's end with the [finally] block. *)

From stdpp Require Import relations.
From S2P Require Import Prelude ListFacts JsValues.

(** *** State *)

Inductive LanePhase : Type := LaneWaiting | LaneRunning | LaneDone (result : Result JsVal).

(** A call: [lc_previous] is the call whose promise [next] it found in the map. *)
Record LaneCall : Type := mkLaneCall {
  lc_key : string;
  lc_previous : option nat;
  lc_phase : LanePhase;
}.

(** [laneLocks], as the call that left the entry; the calls made so far; and the order
    in which tasks were started. *)
Record LaneLocks : Type := mkLaneLocks {
  ll_map : list (string * nat);
  ll_calls : list LaneCall;
  ll_started : list nat;
}.

Definition set_phase (phase : LanePhase) (c : LaneCall) : LaneCall :=
  mkLaneCall (lc_key c) (lc_previous c) phase.

Definition is_done (c : LaneCall) : bool :=
  match lc_phase c with LaneDone _ => true | _ => false end.

Definition is_running (c : LaneCall) : bool :=
  match lc_phase c with LaneRunning => true | _ => false end.

(** *** Operations *)

(** [next] of a call: [previous.catch(() => undefined).then(() => current)].  It never
    rejects, so [catch] changes nothing. *)
Fixpoint next_resolved (fuel : nat) (calls : list LaneCall) (i : nat) : bool :=
  match fuel, calls !! i with
  | S fuel, Some c =>
      is_done c &&
      match lc_previous c with Some j => next_resolved fuel calls j | None => true end
  | _, _ => false
  end.

(** What [await previous.catch(() => undefined)] waits for; the predecessor of a call
    was made before it. *)
Definition previous_resolved (calls : list LaneCall) (c : LaneCall) : bool :=
  match lc_previous c with Some j => next_resolved (S j) calls j | None => true end.

(** The call, up to its first [await]. *)
Definition withLocalLaneLock (laneKey : string) (s : LaneLocks) : nat * LaneLocks :=
  let i := length (ll_calls s) in
  (i, mkLaneLocks (mset laneKey i (ll_map s))
        (ll_calls s ++ [mkLaneCall laneKey (mget laneKey (ll_map s)) LaneWaiting]) (ll_started s)).

(** The [await] of a call ends and its task starts. *)
Definition enterLane (i : nat) (s : LaneLocks) : LaneLocks :=
  match ll_calls s !! i with
  | Some c =>
      match lc_phase c with
      | LaneWaiting =>
          if previous_resolved (ll_calls s) c
          then mkLaneLocks (ll_map s) (alter (set_phase LaneRunning) i (ll_calls s))
                 (ll_started s ++ [i])
          else s
      | _ => s
      end
  | None => s
  end.

(** The task settles; the [finally] block resolves [current] and takes the call's
    entry out of the map unless a later call has replaced it. *)
Definition leaveLane (i : nat) (result : Result JsVal) (s : LaneLocks) : LaneLocks :=
  match ll_calls s !! i with
  | Some c =>
      if is_running c then
        mkLaneLocks
          (if bool_decide (mget (lc_key c) (ll_map s) = Some i)
           then mdel (lc_key c) (ll_map s) else ll_map s)
          (alter (set_phase (LaneDone result)) i (ll_calls s)) (ll_started s)
      else s
  | None => s
  end.

(** [laneLocks.clear()] in [clearAll] of the coordinator.  It is not a step of the
    system below: [clear_lets_lane_tasks_overlap] shows what it does to a running task. *)
Definition clearLanes (s : LaneLocks) : LaneLocks := mkLaneLocks [] (ll_calls s) (ll_started s).

(** *** The system *)

Definition no_lanes : LaneLocks := mkLaneLocks [] [] [].

(** The steps that are due whatever the callers do: a task that can start starts, a
    task that runs settles. *)
Inductive lane_progress : LaneLocks -> LaneLocks -> Prop :=
| lane_enters i c s :
    ll_calls s !! i = Some c -> lc_phase c = LaneWaiting ->
    previous_resolved (ll_calls s) c = true -> lane_progress s (enterLane i s)
| lane_leaves i c result s :
    ll_calls s !! i = Some c -> lc_phase c = LaneRunning ->
    lane_progress s (leaveLane i result s).

Inductive lane_step : LaneLocks -> LaneLocks -> Prop :=
| lane_called laneKey s : lane_step s (withLocalLaneLock laneKey s).2
| lane_progressed s s' : lane_progress s s' -> lane_step s s'.

Inductive lane_reachable : LaneLocks -> Prop :=
| lane_initial : lane_reachable no_lanes
| lane_next s s' : lane_reachable s -> lane_step s s' -> lane_reachable s'.

(** *** The invariant *)

(** The calls of a key made before [i] are over. *)
Definition earlier_done (calls : list LaneCall) (key : string) (i : nat) : Prop :=
  forall m c, calls !! m = Some c -> (m < i)%nat -> lc_key c = key -> is_done c = true.

(** How the calls are linked: a call follows the last call of its key, if that one was
    not over, and its task starts when all earlier ones are over. *)
Record lane_chain (calls : list LaneCall) : Prop := {
  lane_previous : forall i c j, calls !! i = Some c -> lc_previous c = Some j ->
    (j < i)%nat /\ (exists d, calls !! j = Some d /\ lc_key d = lc_key c) /\
    forall m d, calls !! m = Some d -> (j < m < i)%nat -> lc_key d <> lc_key c;
  lane_first : forall i c, calls !! i = Some c -> lc_previous c = None ->
    earlier_done calls (lc_key c) i;
  lane_started : forall i c, calls !! i = Some c -> lc_phase c <> LaneWaiting ->
    earlier_done calls (lc_key c) i;
}.

Record lanes_inv (s : LaneLocks) : Prop := {
  lane_linked : lane_chain (ll_calls s);
  lane_latest : forall k i, mget k (ll_map s) = Some i ->
    (exists c, ll_calls s !! i = Some c /\ lc_key c = k /\ is_done c = false) /\
    forall m d, ll_calls s !! m = Some d -> (i < m)%nat -> lc_key d <> k;
  lane_free : forall k, mget k (ll_map s) = None -> earlier_done (ll_calls s) k (length (ll_calls s));
  lane_log : forall i, i ∈ ll_started s <->
    exists c, ll_calls s !! i = Some c /\ lc_phase c <> LaneWaiting;
}.

(** The promise a call leaves resolves when all calls of its key up to it are over. *)
Lemma next_resolved_iff calls i c fuel :
  lane_chain calls -> calls !! i = Some c -> (i < fuel)%nat ->
  next_resolved fuel calls i = true <-> earlier_done calls (lc_key c) (S i).
Proof.
  intros I. revert i c. induction fuel as [|fuel IH]; intros i c Hi Hf; [lia|].
  simpl. rewrite Hi, andb_true_iff.
  assert (earlier_done calls (lc_key c) (S i) <->
          is_done c = true /\ earlier_done calls (lc_key c) i) as ->.
  { split.
    - intros H. split; [apply (H i c); [done|lia|done]|]. intros m d Hm ?. apply (H m d); [done|lia].
    - intros [Hd H] m d Hm Hlt Hk. destruct (decide (m = i)) as [->|]; [by simplify_eq|].
      apply (H m d); [done|lia|done]. }
  apply and_iff_compat_l. destruct (lc_previous c) as [j|] eqn:Ep.
  - destruct (lane_previous _ I _ _ _ Hi Ep) as (Hlt & (d & Hj & Hk) & Hgap).
    rewrite (IH j d Hj), Hk by lia. split; intros H m e Hm Hlt' Hke.
    + destruct (decide (m <= j)%nat); [apply (H m e); [done|lia|done]|].
      exfalso. apply (Hgap m e); [done|lia|done].
    + apply (H m e); [done|lia|done].
  - split; [intros _; exact (lane_first _ I _ _ Hi Ep)|done].
Qed.

Lemma previous_resolved_iff calls i c :
  lane_chain calls -> calls !! i = Some c ->
  previous_resolved calls c = true <-> earlier_done calls (lc_key c) i.
Proof.
  intros I Hi. unfold previous_resolved. destruct (lc_previous c) as [j|] eqn:Ep.
  - destruct (lane_previous _ I _ _ _ Hi Ep) as (Hlt & (d & Hj & Hk) & Hgap).
    rewrite (next_resolved_iff calls j d), Hk by (done || lia). split; intros H m e Hm Hlt' Hke.
    + destruct (decide (m <= j)%nat); [apply (H m e); [done|lia|done]|].
      exfalso. apply (Hgap m e); [done|lia|done].
    + apply (H m e); [done|lia|done].
  - split; [intros _; exact (lane_first _ I _ _ Hi Ep)|done].
Qed.

Lemma elem_alter_phase phase i (calls : list LaneCall) m d :
  alter (set_phase phase) i calls !! m = Some d ->
  exists c, calls !! m = Some c /\ lc_key d = lc_key c /\ lc_previous d = lc_previous c /\
    (m <> i -> d = c) /\ (m = i -> lc_phase d = phase).
Proof.
  rewrite lookup_alter_spec. case_decide; [|naive_solver].
  destruct (calls !! m) as [c|]; simpl; [|done]. intros [= <-]. exists c. naive_solver.
Qed.

Lemma alter_phase_elem phase i (calls : list LaneCall) m c :
  calls !! m = Some c ->
  alter (set_phase phase) i calls !! m =
  Some (if decide (i = m) then set_phase phase c else c).
Proof. intros H. rewrite lookup_alter_spec, H. by case_decide. Qed.

(** A change of phase that never takes a finished call back. *)
Lemma earlier_done_phase phase i calls k n :
  (forall c, calls !! i = Some c -> is_done c = true -> is_done (set_phase phase c) = true) ->
  earlier_done calls k n -> earlier_done (alter (set_phase phase) i calls) k n.
Proof.
  intros Hp H m d Hm Hlt Hk. apply elem_alter_phase in Hm as (c & Hm & Hkey & _ & Hne & Heq).
  destruct (decide (m = i)) as [->|Hm']; [|by rewrite (Hne Hm'); apply (H m c); congruence].
  assert (is_done c = true) as Hd by (apply (H i c); congruence).
  specialize (Hp c Hm Hd). unfold is_done in *. simpl in Hp. by rewrite (Heq eq_refl).
Qed.

Lemma lane_chain_phase phase i c calls :
  lane_chain calls -> calls !! i = Some c ->
  (is_done c = true -> is_done (set_phase phase c) = true) ->
  earlier_done calls (lc_key c) i -> lane_chain (alter (set_phase phase) i calls).
Proof.
  intros I Hi Hd Hearly.
  assert (forall k n, earlier_done calls k n -> earlier_done (alter (set_phase phase) i calls) k n) as Hkeep.
  { intros k n. apply earlier_done_phase. intros c' Hc'. by simplify_eq. }
  constructor.
  - intros m d j (c' & Hm & Hk & Hpr & _)%elem_alter_phase Hj. rewrite Hpr in Hj.
    destruct (lane_previous _ I _ _ _ Hm Hj) as (? & (e & He & Hke) & Hgap). split_and!; [done| |].
    + exists (if decide (i = j) then set_phase phase e else e).
      rewrite (alter_phase_elem _ _ _ _ _ He). case_decide; simpl; split; congruence.
    + intros q x (y & Hq & Hky & _)%elem_alter_phase ?. rewrite Hky, Hk. by eapply Hgap.
  - intros m d (c' & Hm & Hk & Hpr & _)%elem_alter_phase Hj. rewrite Hpr in Hj. rewrite Hk.
    by apply Hkeep, (lane_first _ I m c').
  - intros m d (c' & Hm & Hk & _ & Hne & _)%elem_alter_phase Hph. rewrite Hk. apply Hkeep.
    destruct (decide (m = i)) as [->|Hd']; [by simplify_eq|].
    apply (lane_started _ I m c'); [done|]. by rewrite <- (Hne Hd').
Qed.

(** The call with a new phase, and the calls that kept theirs. *)
Lemma alter_phase_started phase i c (calls : list LaneCall) :
  calls !! i = Some c -> phase <> LaneWaiting ->
  forall m, (exists d, alter (set_phase phase) i calls !! m = Some d /\ lc_phase d <> LaneWaiting) <->
    m = i \/ exists d, calls !! m = Some d /\ lc_phase d <> LaneWaiting.
Proof.
  intros Hi Hp m. split.
  - intros (d & (e & Hm & _ & _ & Hne & _)%elem_alter_phase & Hph).
    destruct (decide (m = i)) as [->|Hd]; [by left|right]. rewrite (Hne Hd) in Hph. by exists e.
  - intros [->|(d & Hm & Hph)].
    + rewrite (alter_phase_elem _ _ _ _ _ Hi), decide_True by done. by eexists.
    + rewrite (alter_phase_elem _ _ _ _ _ Hm). eexists; split; [done|]. by case_decide.
Qed.

Lemma enterLane_inv i c s :
  lanes_inv s -> ll_calls s !! i = Some c -> lc_phase c = LaneWaiting ->
  previous_resolved (ll_calls s) c = true -> lanes_inv (enterLane i s).
Proof.
  intros I Hi Hw Hp. unfold enterLane. rewrite Hi, Hw, Hp.
  pose proof (proj1 (previous_resolved_iff _ i c (lane_linked _ I) Hi) Hp) as Hearly.
  assert (is_done c = true -> is_done (set_phase LaneRunning c) = true) as Hd.
  { unfold is_done. by rewrite Hw. }
  constructor; simpl.
  - by apply (lane_chain_phase _ _ c), Hearly; [apply (lane_linked _ I)|..].
  - intros k n Hk. destruct (lane_latest _ I _ _ Hk) as ((d & Hn & Hkd & Hnd) & Hlast). split.
    + exists (if decide (i = n) then set_phase LaneRunning d else d).
      rewrite (alter_phase_elem _ _ _ _ _ Hn). by case_decide.
    + intros q x (y & Hq & -> & _)%elem_alter_phase ?. by eapply Hlast.
  - intros k Hk. rewrite length_alter. apply earlier_done_phase; [intros c' Hc'; by simplify_eq|]. by apply (lane_free _ I).
  - intros m. rewrite (alter_phase_started _ i c) by done.
    rewrite elem_of_app, (lane_log _ I), list_elem_of_singleton. tauto.
Qed.

Lemma leaveLane_inv i c result s :
  lanes_inv s -> ll_calls s !! i = Some c -> lc_phase c = LaneRunning ->
  lanes_inv (leaveLane i result s).
Proof.
  intros I Hi Hr. unfold leaveLane, is_running. rewrite Hi, Hr.
  assert (earlier_done (ll_calls s) (lc_key c) i) as Hearly.
  { apply (lane_started _ (lane_linked _ I) i c); [done|]. by rewrite Hr. }
  set (freed k := mget (lc_key c) (ll_map s) = Some i /\ k = lc_key c).
  set (m' := if bool_decide _ then _ else _).
  assert (forall k, (freed k -> mget k m' = None) /\ (~ freed k -> mget k m' = mget k (ll_map s))) as Hm'.
  { intros k. unfold freed. subst m'. case_bool_decide as Hb; [|naive_solver]. split.
    - intros [_ ->]. apply mget_mdel_eq.
    - intros Hk. apply mget_mdel_ne. naive_solver. }
  assert (forall k, freed k \/ ~ freed k) as Hor by (intros k; destruct (decide (freed k)); auto).
  clearbody m'. constructor; simpl.
  - by apply (lane_chain_phase _ _ c); [apply (lane_linked _ I)|..].
  - intros k n Hk. destruct (Hm' k) as [Hnone Hsame].
    destruct (Hor k) as [Hc|Hc]; [by rewrite Hnone in Hk|]. rewrite Hsame in Hk by done.
    destruct (lane_latest _ I _ _ Hk) as ((d & Hd & Hkd & Hnd) & Hlast). split.
    + exists d. rewrite (alter_phase_elem _ _ _ _ _ Hd), decide_False; [done|].
      intros <-. apply Hc. simplify_eq. done.
    + intros q x (y & Hq & -> & _)%elem_alter_phase ?. by eapply Hlast.
  - intros k Hk. rewrite length_alter. destruct (Hor k) as [Hc|Hc].
    + destruct Hc as [Hi' ->]. intros m d (e & Hm & Hke & _ & Hne & Heq)%elem_alter_phase _ Hkd.
      destruct (decide (m = i)) as [->|Hd]; [unfold is_done; by rewrite (Heq eq_refl)|].
      rewrite (Hne Hd). rewrite Hke in Hkd.
      destruct (decide (m < i)%nat); [by apply (Hearly m e)|].
      destruct (lane_latest _ I _ _ Hi') as (_ & Hlast). exfalso. apply (Hlast m e); [done|lia|done].
    + destruct (Hm' k) as [_ Hsame]. rewrite Hsame in Hk by done.
      apply earlier_done_phase; [done|]. by apply (lane_free _ I).
  - intros m. rewrite (alter_phase_started _ i c), (lane_log _ I) by done.
    split; [by right|intros [->|]; [|done]]. exists c. by rewrite Hr.
Qed.

Lemma earlier_done_snoc calls x k n :
  (n <= length calls)%nat -> earlier_done calls k n -> earlier_done (calls ++ [x]) k n.
Proof.
  intros Hn H m d Hm Hlt Hk. apply (H m d); [|done|done].
  by rewrite lookup_app_l in Hm by lia.
Qed.

Lemma withLocalLaneLock_inv k s : lanes_inv s -> lanes_inv (withLocalLaneLock k s).2.
Proof.
  intros I. pose proof (lane_linked _ I) as L. unfold withLocalLaneLock. simpl.
  set (x := mkLaneCall _ _ _).
  assert (forall m d, ll_calls s !! m = Some d -> (m < length (ll_calls s))%nat) as Hlt.
  { intros m d. apply lookup_lt_Some. }
  constructor; simpl.
  - constructor.
    + intros i c j [Hi|[-> ->]]%snoc_lookup Hj.
      * destruct (lane_previous _ L _ _ _ Hi Hj) as (? & (d & Hd & Hk) & Hgap). split_and!; [done| |].
        -- exists d. rewrite snoc_lookup. auto.
        -- intros m e [Hm|[-> ->]]%snoc_lookup ?; [by eapply Hgap|]. specialize (Hlt _ _ Hi). lia.
      * simpl in Hj |- *. destruct (lane_latest _ I _ _ Hj) as ((d & Hd & Hk & _) & Hlast).
        split_and!; [by eapply Hlt| |].
        -- exists d. rewrite snoc_lookup. auto.
        -- intros m e [Hm|[-> ->]]%snoc_lookup ?; [apply (Hlast m e); [done|lia]|lia].
    + intros i c [Hi|[-> ->]]%snoc_lookup Hj.
      * apply earlier_done_snoc; [by apply Nat.lt_le_incl, (Hlt i c)|]. exact (lane_first _ L _ _ Hi Hj).
      * apply earlier_done_snoc; [lia|]. exact (lane_free _ I _ Hj).
    + intros i c [Hi|[-> ->]]%snoc_lookup Hj; [|done].
      apply earlier_done_snoc; [by apply Nat.lt_le_incl, (Hlt i c)|]. exact (lane_started _ L _ _ Hi Hj).
  - intros k' n. rewrite mget_mset. case_decide as Hk.
    + intros [= <-]. split.
      * exists x. rewrite snoc_lookup. subst. auto.
      * intros m d [Hm|[-> ->]]%snoc_lookup ?; [|lia]. specialize (Hlt _ _ Hm). lia.
    + intros Hn. destruct (lane_latest _ I _ _ Hn) as ((d & Hd & Hkd & Hnd) & Hlast). split.
      * exists d. rewrite snoc_lookup. auto.
      * intros m e [Hm|[-> ->]]%snoc_lookup ?; [by eapply Hlast|]. simpl. congruence.
  - intros k'. rewrite mget_mset. case_decide as Hk; [done|]. intros Hn.
    intros m d [Hm|[-> ->]]%snoc_lookup _ Hkd.
    + apply (lane_free _ I _ Hn m d); [done|by eapply Hlt|done].
    + simpl in Hkd. congruence.
  - intros i. rewrite (lane_log _ I). split.
    + intros (c & Hi & Hp). exists c. rewrite snoc_lookup. auto.
    + intros (c & [Hi|[-> ->]]%snoc_lookup & Hp); [eauto|done].
Qed.

Lemma no_lanes_inv : lanes_inv no_lanes.
Proof.
  constructor; [constructor; by intros [|?]|done|by intros ? ? [|?]|].
  intros i. split; [by intros ?%not_elem_of_nil|]. intros (c & Hc & _). by destruct i.
Qed.

Lemma lane_step_inv s s' : lanes_inv s -> lane_step s s' -> lanes_inv s'.
Proof.
  intros I Hs. destruct Hs as [k s|s s' Hs]; [by apply withLocalLaneLock_inv|].
  destruct Hs; [by eapply enterLane_inv|by eapply leaveLane_inv].
Qed.

Lemma lane_reachable_inv s : lane_reachable s -> lanes_inv s.
Proof. induction 1; [apply no_lanes_inv|by eapply lane_step_inv]. Qed.

(** *** What the lock promises *)

(** Steps that are due in a state: two for a call that waits, one for one that runs. *)
Definition call_weight (c : LaneCall) : nat :=
  match lc_phase c with LaneWaiting => 2 | LaneRunning => 1 | LaneDone _ => 0 end.
Definition lanes_weight (s : LaneLocks) : nat := sum_list_with call_weight (ll_calls s).

Lemma weight_phase phase i c calls :
  calls !! i = Some c -> (call_weight (set_phase phase c) < call_weight c)%nat ->
  (sum_list_with call_weight (alter (set_phase phase) i calls) < sum_list_with call_weight calls)%nat.
Proof.
  intros Hi Hw. pose proof (sum_list_with_alter call_weight (set_phase phase) _ _ _ Hi). lia.
Qed.

Lemma lane_progress_weight s s' : lane_progress s s' -> (lanes_weight s' < lanes_weight s)%nat.
Proof.
  intros [i c s0 Hi Hw Hp|i c r s0 Hi Hr]; unfold lanes_weight, enterLane, leaveLane, is_running;
    rewrite Hi.
  - rewrite Hw, Hp. apply (weight_phase _ _ c); [done|]. unfold call_weight. rewrite Hw. simpl. lia.
  - rewrite Hr. apply (weight_phase _ _ c); [done|]. unfold call_weight. rewrite Hr. simpl. lia.
Qed.

(** The first call of a key that is not over. *)
Lemma first_open s k i c :
  ll_calls s !! i = Some c -> lc_key c = k -> is_done c = false ->
  exists j d, (j <= i)%nat /\ ll_calls s !! j = Some d /\ lc_key d = k /\ is_done d = false /\
    earlier_done (ll_calls s) k j.
Proof.
  revert c. induction (lt_wf i) as [i _ IH]. intros c Hi Hk Hd.
  destruct (decide (Exists (fun d => lc_key d = k /\ is_done d = false) (take i (ll_calls s)))) as [He|He].
  - apply Exists_exists in He as (d & [m Hm]%list_elem_of_lookup & Hkd & Hnd).
    apply lookup_take_Some in Hm as [Hm Hlt].
    destruct (IH m Hlt d Hm Hkd Hnd) as (j & e & ? & ?). exists j, e. split; [lia|done].
  - exists i, c. split_and!; [done..|]. intros m d Hm Hlt Hkd. apply not_false_is_true. intros Hnd.
    apply He, Exists_exists. exists d. split; [|done]. apply list_elem_of_lookup. exists m.
    by rewrite lookup_take_lt.
Qed.

(** The tasks of a key, in the order in which they were started. *)
Definition started_of (k : string) (s : LaneLocks) : list nat :=
  List.filter (fun i => bool_decide (lc_key <$> ll_calls s !! i = Some k)) (ll_started s).

Lemma started_of_same k s s' :
  ll_started s' = ll_started s ->
  (forall i c, ll_calls s !! i = Some c -> exists c', ll_calls s' !! i = Some c' /\ lc_key c' = lc_key c) ->
  (forall i, i ∈ ll_started s -> is_Some (ll_calls s !! i)) ->
  started_of k s' = started_of k s.
Proof.
  intros Hs Hk Hd. unfold started_of. rewrite Hs. apply filter_ext_in. intros i [c Hi]%Hd.
  destruct (Hk _ _ Hi) as (c' & Hi' & Hkc). by rewrite Hi, Hi'; simpl; rewrite Hkc.
Qed.

(** The log: each task once, and those of a key in the order of the calls. *)
Definition log_ok (s : LaneLocks) : Prop :=
  NoDup (ll_started s) /\ forall k, StronglySorted lt (started_of k s).

Lemma lane_step_keys s s' i c :
  lane_step s s' -> ll_calls s !! i = Some c ->
  exists c', ll_calls s' !! i = Some c' /\ lc_key c' = lc_key c /\
    (is_done c = true -> c' = c).
Proof.
  intros Hs Hi. destruct Hs as [k s|s s' Hs]; simpl.
  { exists c. by rewrite lookup_app_l by (by eapply lookup_lt_Some). }
  destruct Hs as [j d s Hj Hw Hp|j d r s Hj Hr]; unfold enterLane, leaveLane, is_running; rewrite Hj.
  - rewrite Hw, Hp. simpl. rewrite (alter_phase_elem _ _ _ _ _ Hi). eexists; split; [done|].
    case_decide; simplify_eq; split; try done. unfold is_done. by rewrite Hw.
  - rewrite Hr. simpl. rewrite (alter_phase_elem _ _ _ _ _ Hi). eexists; split; [done|].
    case_decide; simplify_eq; split; try done. unfold is_done. by rewrite Hr.
Qed.

Lemma lane_started_calls s i : lanes_inv s -> i ∈ ll_started s -> is_Some (ll_calls s !! i).
Proof. intros I (c & -> & _)%(lane_log _ I). by eexists. Qed.

Lemma lane_step_log s s' : lanes_inv s -> log_ok s -> lane_step s s' -> log_ok s'.
Proof.
  intros I [Hn Hsort] Hs. pose proof (lane_step_keys s s') as Hkeys.
  assert (ll_started s' = ll_started s -> log_ok s') as Hsame.
  { intros He. split; [by rewrite He|]. intros k. rewrite (started_of_same k s s' He); [done| |].
    - intros i c Hi. destruct (Hkeys i c Hs Hi) as (c' & ? & ? & _). by exists c'.
    - intros i. by apply lane_started_calls. }
  destruct Hs as [k s|s s' [i c s0 Hi Hw Hp|i c r s0 Hi Hr]]; [by apply Hsame| |].
  2: { apply Hsame. unfold leaveLane, is_running. by rewrite Hi, Hr. }
  clear Hsame. unfold log_ok, started_of, enterLane in *. rewrite Hi, Hw, Hp in *. simpl in *. split.
  - apply NoDup_app. split_and!; [done| |apply NoDup_singleton].
    intros j Hj ->%list_elem_of_singleton. apply (lane_log _ I) in Hj as (d & Hd & Hph). congruence.
  - intros k. rewrite List.filter_app. simpl.
    rewrite (filter_ext_in _ (fun j => bool_decide (lc_key <$> ll_calls s0 !! j = Some k))).
    2: { intros j [d Hj]%lane_started_calls; [|done]. rewrite (alter_phase_elem _ _ _ _ _ Hj), Hj.
         by case_decide. }
    rewrite (alter_phase_elem _ _ _ _ _ Hi), decide_True by done. simpl. case_bool_decide as Hk; [|by rewrite app_nil_r].
    apply StronglySorted_snoc; [done|]. intros j [Hj Hkj]%list_elem_of_In%List.filter_In.
    apply bool_decide_eq_true, fmap_Some in Hkj as (d & Hd & ->).
    apply list_elem_of_In, (lane_log _ I) in Hj as (d' & Hd' & Hph). simplify_eq.
    destruct (decide (j = i)) as [->|]; [congruence|]. destruct (decide (j < i)%nat); [done|].
    assert (is_done c = true) as Hdone.
    { apply (lane_started _ (lane_linked _ I) j d' Hd' Hph i c); [done|lia|done]. }
    unfold is_done in Hdone. by rewrite Hw in Hdone.
Qed.

Lemma lane_reachable_log s : lane_reachable s -> log_ok s.
Proof.
  induction 1 as [|s s' Hr IH Hs]; [by repeat constructor|].
  by eapply lane_step_log; [apply lane_reachable_inv|..].
Qed.

(** C37. As long as the lanes are not cleared, tasks of a lane never overlap.  In every
    state that calls, starts and ends of tasks reach, however those of all lanes
    interleave: at most one call of a key runs its task; a task that was started found
    every earlier call of its key over, with a result or an error; tasks are started
    once, and those of a key in the order of their calls; and what a call ended with is
    never changed.  [clearAll] of the coordinator takes the first of these away:
    [clear_lets_lane_tasks_overlap]. *)
Theorem lane_lock_exclusive s :
  lane_reachable s ->
  (forall i j c d, ll_calls s !! i = Some c -> ll_calls s !! j = Some d ->
     lc_key c = lc_key d -> is_running c = true -> is_running d = true -> i = j) /\
  (forall i c, i ∈ ll_started s -> ll_calls s !! i = Some c ->
     earlier_done (ll_calls s) (lc_key c) i) /\
  NoDup (ll_started s) /\ (forall k, StronglySorted lt (started_of k s)) /\
  (forall s' i c, lane_step s s' -> ll_calls s !! i = Some c -> is_done c = true ->
     ll_calls s' !! i = Some c).
Proof.
  intros Hr. pose proof (lane_reachable_inv s Hr) as I.
  destruct (lane_reachable_log s Hr) as [Hn Hsort]. split_and!; [| |done|done|].
  - assert (forall i j c d, ll_calls s !! i = Some c -> ll_calls s !! j = Some d ->
      lc_key c = lc_key d -> is_running c = true -> is_running d = true -> ~ (i < j)%nat) as Hlt.
    { intros i j c d Hi Hj Hk Hc Hd Hij. unfold is_running in *.
      assert (is_done c = true) as Hdone.
      { refine (lane_started _ (lane_linked _ I) j d Hj _ i c Hi Hij Hk). by destruct (lc_phase d). }
      unfold is_done in Hdone. by destruct (lc_phase c). }
    intros i j c d Hi Hj Hk Hc Hd. destruct (Nat.lt_trichotomy i j) as [?|[?|?]]; [|done|];
      exfalso; [apply (Hlt i j c d)|apply (Hlt j i d c)]; done.
  - intros i c (c' & Hi & Hp)%(lane_log _ I) ?. simplify_eq. by apply (lane_started _ (lane_linked _ I)).
  - intros s' i c Hs Hi Hd. destruct (lane_step_keys _ _ _ _ Hs Hi) as (c' & Hi' & _ & Heq). by rewrite <- (Heq Hd).
Qed.

(** No call waits for ever: while a call of a key is not over, the first such call of
    its key has a step that is due, whatever happens on other lanes; there are never
    more than two such steps per call; and when every call is over, the map of the
    lock is empty. *)
Theorem lane_lock_live s :
  lane_reachable s ->
  (forall i c, ll_calls s !! i = Some c -> is_done c = false ->
     exists j d s', (j <= i)%nat /\ ll_calls s !! j = Some d /\ lc_key d = lc_key c /\
       lane_progress s s' /\ (s' = enterLane j s \/ exists r, s' = leaveLane j r s)) /\
  (forall k s', nsteps lane_progress k s s' -> (k <= lanes_weight s)%nat) /\
  ((forall i c, ll_calls s !! i = Some c -> is_done c = true) -> ll_map s = []).
Proof.
  intros Hr. pose proof (lane_reachable_inv s Hr) as I. split_and!.
  - intros i c Hi Hd. destruct (first_open s _ i c Hi eq_refl Hd) as (j & d & ? & Hj & Hk & Hnd & Hearly).
    unfold is_done in Hnd. destruct (lc_phase d) eqn:Ep; [| |done].
    + exists j, d, (enterLane j s). split_and!; [done..| |by left]. apply (lane_enters j d); [done..|].
      apply (previous_resolved_iff _ j); [apply (lane_linked _ I)|done|by rewrite Hk].
    + exists j, d, (leaveLane j (Ok JUndefined) s). split_and!; [done..| |right; by eexists].
      by apply (lane_leaves j d).
  - intros k s' Hs. clear I Hr. induction Hs as [|k s s1 s2 H1 H2 IH]; [lia|].
    apply lane_progress_weight in H1. lia.
  - intros Hall. destruct (ll_map s) as [|[k i] m] eqn:Em; [done|].
    destruct (lane_latest _ I k i) as ((c & Hc & _ & Hnd) & _).
    { rewrite Em. simpl. by rewrite decide_True. }
    rewrite (Hall _ _ Hc) in Hnd. done.
Qed.

(** Two calls on one lane and one on another: the first has failed, the second runs,
    and the other lane's runs beside it. *)
Definition two_lanes : LaneLocks :=
  enterLane 1 (leaveLane 0 (Throw (JsError "rpc down"))
    (enterLane 2 (enterLane 0
      (withLocalLaneLock "b" (withLocalLaneLock "a" (withLocalLaneLock "a" no_lanes).2).2).2))).

Lemma two_lanes_reachable : lane_reachable two_lanes.
Proof.
  unfold two_lanes.
  eapply lane_next; [|eapply lane_progressed, lane_enters; by vm_compute].
  eapply lane_next; [|eapply lane_progressed, lane_leaves; by vm_compute].
  eapply lane_next; [|eapply lane_progressed, lane_enters; by vm_compute].
  eapply lane_next; [|eapply lane_progressed, lane_enters; by vm_compute].
  repeat (eapply lane_next; [|apply lane_called]). constructor.
Qed.

Lemma lane_lock_exclusive_witness :
  map lc_phase (ll_calls two_lanes) =
    [LaneDone (Throw (JsError "rpc down")); LaneRunning; LaneRunning] /\
  ll_started two_lanes = [0; 2; 1]%nat /\ StronglySorted lt (started_of "a" two_lanes).
Proof.
  split; [reflexivity|]. split; [reflexivity|].
  apply (lane_lock_exclusive two_lanes two_lanes_reachable).
Defined.

Lemma lane_lock_live_witness :
  lanes_weight two_lanes = 2%nat /\
  forall k s', nsteps lane_progress k two_lanes s' -> (k <= lanes_weight two_lanes)%nat.
Proof.
  split; [reflexivity|]. apply (lane_lock_live two_lanes two_lanes_reachable).
Defined.

(** After [clearAll] the next call of a lane does not wait for the task that runs. *)
Definition cleared_lane : LaneLocks :=
  let s := enterLane 0 (withLocalLaneLock "lane" no_lanes).2 in
  enterLane 1 (withLocalLaneLock "lane" (clearLanes s)).2.

Lemma clear_lets_lane_tasks_overlap :
  lc_key <$> ll_calls cleared_lane = ["lane"; "lane"] /\
  forallb is_running (ll_calls cleared_lane) = true.
Proof. split; vm_compute; reflexivity. Qed.
