(* ===== verification/IdbTables.v ===== *)
(** * Object stores

    What the wallet database uses of IndexedDB: an object store holds rows under their
    primary keys, in the order of the keys; an index is the rows with a value in a
    field; a unique index refuses a second row with the same values. *)

From S2P Require Import Prelude JsValues.

(** ** Tables *)

(** The order of primary keys. *)
Class KeyOrder (K : Type) := key_before : K -> K -> bool.

#[global] Instance string_key_order : KeyOrder string := String.ltb.

(** The key path [wallet_id, near_account_id, signer_slot]. *)
#[global] Instance triple_key_order : KeyOrder (string * string * Z) := fun a b =>
  let '(a1, a2, a3) := a in
  let '(b1, b2, b3) := b in
  String.ltb a1 b1 || bool_decide (a1 = b1) &&
    (String.ltb a2 b2 || bool_decide (a2 = b2) && (a3 <? b3)%Z).

Section Table.
Context {K V : Type} `{EqDecision K} `{!KeyOrder K}.
Implicit Types (t : list (K * V)) (k : K) (v : V).

Definition Table : Type := list (K * V).

Fixpoint tget (k : K) (t : list (K * V)) : option V :=
  match t with
  | [] => None
  | (k', v) :: t' => if decide (k' = k) then Some v else tget k t'
  end.

Definition tdel (k : K) (t : list (K * V)) : list (K * V) :=
  List.filter (fun e => negb (bool_decide (e.1 = k))) t.

Fixpoint tinsert (k : K) (v : V) (t : list (K * V)) : list (K * V) :=
  match t with
  | [] => [(k, v)]
  | (k', v') :: t' =>
      if key_before k k' then (k, v) :: (k', v') :: t' else (k', v') :: tinsert k v t'
  end.

(** [store.put(row)]. *)
Definition tput (k : K) (v : V) (t : list (K * V)) : list (K * V) := tinsert k v (tdel k t).

(** [store.getAll()]. *)
Definition tvalues (t : list (K * V)) : list V := map snd t.

(** The primary keys are distinct. *)
Definition twf (t : list (K * V)) : Prop := NoDup t.*1.

Lemma elem_tinsert k v t e : e ∈ tinsert k v t <-> e = (k, v) \/ e ∈ t.
Proof. induction t as [|[k' v'] t IH]; simpl; [set_solver|]. case_match; set_solver. Qed.

Lemma elem_tdel k t k' v' : (k', v') ∈ tdel k t <-> k' <> k /\ (k', v') ∈ t.
Proof.
  unfold tdel. rewrite list_elem_of_In, filter_In, <- list_elem_of_In. simpl.
  rewrite negb_true_iff, bool_decide_eq_false. tauto.
Qed.

Lemma elem_tput k v t k' v' :
  (k', v') ∈ tput k v t <-> (k' = k /\ v' = v) \/ (k' <> k /\ (k', v') ∈ t).
Proof. unfold tput. rewrite elem_tinsert, elem_tdel. naive_solver. Qed.

Lemma elem_tvalues v t : v ∈ tvalues t <-> exists k, (k, v) ∈ t.
Proof.
  unfold tvalues. rewrite list_elem_of_fmap. split.
  - intros ([k ?] & -> & ?). by exists k.
  - intros (k & ?). by exists (k, v).
Qed.

Lemma tget_elem k v t : tget k t = Some v -> (k, v) ∈ t.
Proof. induction t as [|[k' v'] t IH]; simpl; [done|]. case_decide; intros; simplify_eq; set_solver. Qed.

Lemma elem_tget k v t : twf t -> (k, v) ∈ t -> tget k t = Some v.
Proof.
  unfold twf. induction t as [|[k' v'] t IH]; simpl; [set_solver|].
  intros [Hk Hn]%NoDup_cons [?|Hin]%elem_of_cons; simplify_eq; case_decide; try done.
  - subst. exfalso. apply Hk. apply list_elem_of_fmap. by exists (k, v).
  - by apply IH.
Qed.

Lemma tdel_wf k t : twf t -> twf (tdel k t).
Proof.
  unfold twf, tdel. induction t as [|[k1 v1] t IH]; simpl; [done|].
  intros [Hk Hn]%NoDup_cons. case_bool_decide; simpl; [auto|].
  apply NoDup_cons. split; [|auto]. intros ((?&?)&->&Hin)%list_elem_of_fmap.
  apply Hk. apply list_elem_of_In, filter_In in Hin as [Hin _].
  apply list_elem_of_fmap. eexists; split; [|by apply list_elem_of_In]. done.
Qed.

Lemma tinsert_wf k v t : k ∉ t.*1 -> twf t -> twf (tinsert k v t).
Proof.
  unfold twf. induction t as [|[k1 v1] t IH]; simpl; intros Hk H; [apply NoDup_singleton|].
  apply NoDup_cons in H as [H1 H2]. case_match; simpl.
  - apply NoDup_cons. split; [done|]. by apply NoDup_cons.
  - apply NoDup_cons. split; [|apply IH; set_solver].
    intros ([k2 v2] & -> & Hin)%list_elem_of_fmap. apply elem_tinsert in Hin as [?|Hin]; simplify_eq/=.
    + set_solver.
    + apply H1. apply list_elem_of_fmap. by exists (k2, v2).
Qed.

Lemma tput_wf k v t : twf t -> twf (tput k v t).
Proof.
  intros H. apply tinsert_wf; [|by apply tdel_wf].
  intros ([k1 v1] & -> & Hin)%list_elem_of_fmap. by apply elem_tdel in Hin as [? _].
Qed.

Lemma tget_none k v t : tget k t = None -> (k, v) ∉ t.
Proof. induction t as [|[k' v'] t IH]; simpl; [set_solver|]. case_decide; set_solver. Qed.

Lemma tget_iff k v t : twf t -> tget k t = Some v <-> (k, v) ∈ t.
Proof. intros H. split; [apply tget_elem|by apply elem_tget]. Qed.

Lemma tget_tput k v k' t :
  twf t -> tget k' (tput k v t) = if decide (k' = k) then Some v else tget k' t.
Proof.
  intros H. apply option_eq. intros v'. rewrite tget_iff by by apply tput_wf.
  rewrite elem_tput. case_decide.
  - subst. naive_solver.
  - rewrite tget_iff by done. naive_solver.
Qed.

Lemma tget_tdel k k' t : twf t -> tget k' (tdel k t) = if decide (k' = k) then None else tget k' t.
Proof.
  intros H. apply option_eq. intros v'. rewrite tget_iff by by apply tdel_wf.
  rewrite elem_tdel. case_decide; [naive_solver|]. rewrite tget_iff by done. naive_solver.
Qed.
End Table.
Arguments Table K V : clear implicits.

#[export] Hint Resolve tput_wf tdel_wf : js.

(** ** Indexes *)

(** [store.index(field).getAll(value)]. *)
Definition index_all {K} (field value : string) (t : Table K JsVal) : list JsVal :=
  List.filter (fun row => strict_eq (jget field row) (JString value)) (tvalues t).

(** The key of a row in an index over several fields; a row without one of them is not
    in the index.  The rows hold texts and integers there. *)
Definition valid_key (v : JsVal) : bool :=
  match v with JString _ | JNumber (NInt _) => true | _ => false end.

Definition in_index (fields : list string) (row : JsVal) : bool :=
  forallb (fun f => valid_key (jget f row)) fields.

Definition same_index_key (fields : list string) (a b : JsVal) : bool :=
  in_index fields a && in_index fields b &&
  forallb (fun f => strict_eq (jget f a) (jget f b)) fields.

(** [store.put(row)] on a store with unique indexes. *)
Definition put_unique {K} `{EqDecision K} `{!KeyOrder K} (indexes : list (list string)) (k : K)
    (row : JsVal) (t : Table K JsVal) : Result (Table K JsVal) :=
  if existsb (fun e => negb (bool_decide (e.1 = k)) &&
                       existsb (fun fields => same_index_key fields e.2 row) indexes) t
  then Throw (JsError "ConstraintError")
  else Ok (tput k row t).

(** No two rows have the same key in one of the indexes. *)
Definition indexes_unique {K} (indexes : list (list string)) (t : Table K JsVal) : Prop :=
  forall k1 r1 k2 r2 fields,
    (k1, r1) ∈ t -> (k2, r2) ∈ t -> fields ∈ indexes -> same_index_key fields r1 r2 = true -> k1 = k2.

Lemma index_all_elem {K} field value (t : Table K JsVal) row :
  row ∈ index_all field value t <-> (exists k, (k, row) ∈ t) /\ jget field row = JString value.
Proof.
  unfold index_all. rewrite list_elem_of_In, filter_In, <- list_elem_of_In, elem_tvalues.
  split; intros [? H]; (split; [done|]).
  - destruct (jget field row) as [| | |[]| | | |]; simpl in H; try done. by apply bool_decide_eq_true in H as ->.
  - rewrite H. apply strict_eq_string.
Qed.

Lemma same_index_key_sym fields a b : same_index_key fields a b = same_index_key fields b a.
Proof.
  unfold same_index_key. rewrite (andb_comm (in_index fields a)). f_equal.
  induction fields as [|f fields IH]; simpl; [done|]. rewrite IH. f_equal.
  destruct (jget f a) as [| | |[]| | | |], (jget f b) as [| | |[]| | | |]; simpl; try done;
    rewrite 1?Z.eqb_sym; try done.
  - by destruct b0, b1.
  - f_equal. case_bool_decide; case_bool_decide; congruence.
  - by destruct negative, negative0.
  - case_bool_decide; case_bool_decide; congruence.
Qed.

Lemma put_unique_ok {K} `{EqDecision K} `{!KeyOrder K} indexes (k : K) row t t' :
  put_unique indexes k row t = Ok t' -> t' = tput k row t.
Proof. unfold put_unique. case_match; congruence. Qed.

Lemma put_unique_unique {K} `{EqDecision K} `{!KeyOrder K} indexes (k : K) row t t' :
  indexes_unique indexes t -> put_unique indexes k row t = Ok t' -> indexes_unique indexes t'.
Proof.
  unfold put_unique. intros Hu. destruct (existsb _ t) eqn:E; [done|]. intros [= <-].
  assert (Hno : forall k' r' fields, k' <> k -> (k', r') ∈ t -> fields ∈ indexes ->
    same_index_key fields r' row = true -> False).
  { intros k' r' fields Hne Hin Hf Hs. enough (existsb (fun e => negb (bool_decide (e.1 = k)) &&
      existsb (fun fields => same_index_key fields e.2 row) indexes) t = true) by congruence.
    apply existsb_exists. exists (k', r'). split; [by apply list_elem_of_In|]. simpl.
    rewrite bool_decide_false by done. simpl. apply existsb_exists. exists fields.
    split; [by apply list_elem_of_In|done]. }
  intros k1 r1 k2 r2 fields [[-> ->]|[H1 H1']]%elem_tput [[-> ->]|[H2 H2']]%elem_tput Hf Hs; [done|..].
  - exfalso. rewrite same_index_key_sym in Hs. by eapply Hno.
  - exfalso. by eapply Hno.
  - by eapply Hu.
Qed.
