(* ===== verification/VersionedRecords.v ===== *)
(** * Versioned records

    [packages/wallet-server/src/router/cloudflare/d1/versionedJson/d1VersionedJsonRecordStore.ts]:
    JSON records under a key with a version that every write compares and raises.  A
    store sees the rows of its own scope only; the columns of the scope are left out.
    What the database relies on is the documented behaviour of D1: a statement is
    atomic, a batch is a transaction that is rolled back when one of its statements
    fails, and [changes()] is the number of rows the last statement changed. *)

From S2P Require Import Prelude JsValues IdbTables.
Local Open Scope Z_scope.
Local Open Scope js_scope.

(** ** The database *)

(** A row.  [record_json] is the value the stored text stands for: a text is only ever
    written for a value that passed [isJsonObject], and such a value reads back as it is. *)
Record StoredRow : Type := mkStoredRow { version : Z; record_json : JsVal }.

(** The rows of the table and the other tables of the database. *)
Record D1 (X : Type) : Type := mkD1 { records : Table string StoredRow; others : X }.
Arguments mkD1 {X} _ _.
Arguments records {X} _.
Arguments others {X} _.

(** A statement, given the rows the statement before it changed: a constraint that
    fails, or the database after it and the number of rows it changed. *)
Definition Statement (X : Type) : Type := D1 X -> Z -> string + D1 X * Z.

(** What can go wrong with a request: its answer is lost, and it was carried out or not. *)
Inductive Fault : Type := NoFault | AnswerLost (effect : bool).

Definition lost_error : string := "Network connection lost.".

Fixpoint run_statements {X} (statements : list (Statement X)) (db : D1 X) (changes : Z) : string + D1 X :=
  match statements with
  | [] => inr db
  | s :: statements =>
      match s db changes with
      | inl e => inl e
      | inr (db, changes) => run_statements statements db changes
      end
  end.

(** [database.batch(statements)]. *)
Definition batch {X} (fault : Fault) (statements : list (Statement X)) (db : D1 X) : option string * D1 X :=
  match fault with
  | AnswerLost false => (Some lost_error, db)
  | _ =>
      match run_statements statements db 0 with
      | inl e => (Some e, db)
      | inr db' => (match fault with NoFault => None | _ => Some lost_error end, db')
      end
  end.

Definition set_records {X} (t : Table string StoredRow) (db : D1 X) : D1 X := mkD1 t (others db).

(** [D1_BATCH_CAS_GUARD_SQL]: fails when the statement before it changed no row. *)
Definition D1_BATCH_CAS_GUARD_SQL {X} : Statement X := fun db changes =>
  if changes =? 0 then inl "UNIQUE constraint failed: router_ab_yao_versioned_json_cas_guard.guard_id"
  else inr (db, 0).

(** ** Keys, versions and values *)

Inductive StoreError : Type := StoreError_invalid_record | StoreError_request_failed.

Definition store_error (code : StoreError) (message : string) : Exn :=
  JsCodedError (match code with
    | StoreError_invalid_record => "invalid_record"
    | StoreError_request_failed => "request_failed" end) message.

Fixpoint containsControlCharacter (value : string) : bool :=
  match value with
  | EmptyString => false
  | String a t => let n := N_of_ascii a in ((n <=? 31) || (n =? 127))%N || containsControlCharacter t
  end.

Definition normalizeRecordKey (value : string) : Result string :=
  let key := trim value in
  if negb (nonempty key) then Throw (JsError "Cloudflare D1 versioned JSON record key is required")
  else if (512 <? String.length key)%nat || containsControlCharacter key
  then Throw (JsError "Cloudflare D1 versioned JSON record key is invalid")
  else Ok key.

(** [text.endsWith(':')]. *)
Fixpoint ends_with_colon (s : string) : bool :=
  match s with
  | EmptyString => false
  | String a EmptyString => bool_decide (a = ":"%char)
  | String _ t => ends_with_colon t
  end.

Definition normalizeKeyPrefix (value : JsVal) : Result string :=
  let prefix := normalizeOptionalTrimmedString value in
  if negb (nonempty prefix) then Ok "router-ab-yao:"
  else if (128 <? String.length prefix)%nat || containsControlCharacter prefix
  then Throw (JsError "Cloudflare D1 versioned JSON keyPrefix is invalid")
  else Ok (if ends_with_colon prefix then prefix else prefix +:+ ":").

Definition parseVersion (value : JsVal) : option Z :=
  let text := match value with JNumber _ => js_String value | _ => normalizeOptionalTrimmedString value end in
  if nonempty text && all_chars is_digit text
  then match safe_integer_value (Number_of_string text) with
       | Some z => if 0 <? z then Some z else None
       | None => None
       end
  else None.

(** [isJsonValue] and [isJsonObject]. *)
Fixpoint isJsonValue (value : JsVal) : bool :=
  match value with
  | JNull | JString _ | JBool _ => true
  | JNumber (NInt _) | JNumber (NFraction _ _) => true
  | JArray elems => forallb isJsonValue elems
  | JObject fields => forallb (fun e => isJsonValue e.2) fields
  | _ => false
  end.

Definition isJsonObject (value : JsVal) : bool := isPlainObject value && isJsonValue value.

(** ** The store *)

Inductive ReadResult (T : Type) : Type := Missing | Present (value : T) (storeVersion : string).
Arguments Missing {T}.
Arguments Present {T} _ _.

Inductive PutResult : Type := Stored (storeVersion : string) | VersionMismatch.

Record Mutation (T : Type) : Type := mkMutation {
  m_key : string;
  m_value : T;
  m_expectedVersion : option string;
}.
Arguments mkMutation {T} _ _ _.
Arguments m_key {T} _.
Arguments m_value {T} _.
Arguments m_expectedVersion {T} _.

Record PreparedMutation : Type := mkPreparedMutation {
  pm_key : string;
  pm_storageKey : string;
  pm_recordJson : JsVal;
  pm_expectedVersion : option Z;
}.

Inductive BatchPutResult : Type :=
| BatchStored (versions : list (string * string))
| BatchVersionMismatch (key : string).

Section Store.
Context {X T : Type} (encode : T -> JsVal) (parse : JsVal -> option T) (keyPrefix : string).

Definition storageKey (key : string) : Result string :=
  let* key := normalizeRecordKey key in Ok (keyPrefix +:+ key).

(** [INSERT OR IGNORE ... VALUES (..., 1, ?6)]. *)
Definition insert_statement (storageKey : string) (recordJson : JsVal) : Statement X := fun db _ =>
  match tget storageKey (records db) with
  | Some _ => inr (db, 0)
  | None => inr (set_records (tput storageKey (mkStoredRow 1 recordJson) (records db)) db, 1)
  end.

(** [UPDATE ... SET version = version + 1 ... WHERE record_key = ?5 AND version = ?8]. *)
Definition update_statement (storageKey : string) (recordJson : JsVal) (expectedVersion : Z) : Statement X :=
  fun db _ =>
    match tget storageKey (records db) with
    | Some row =>
        if version row =? expectedVersion
        then inr (set_records (tput storageKey (mkStoredRow (version row + 1) recordJson) (records db)) db, 1)
        else inr (db, 0)
    | None => inr (db, 0)
    end.

(** One statement by itself: [prepare(...).bind(...).run()]. *)
Definition run_statement (fault : Fault) (s : Statement X) : M (D1 X) Z := fun db =>
  match fault with
  | AnswerLost false => (Throw (store_error StoreError_request_failed lost_error), db)
  | _ =>
      match s db 0 with
      | inl e => (Throw (store_error StoreError_request_failed e), db)
      | inr (db', changes) =>
          (match fault with
           | NoFault => Ok changes
           | _ => Throw (store_error StoreError_request_failed lost_error)
           end, db')
      end
  end.

Definition insert (fault : Fault) (storageKey : string) (recordJson : JsVal) : M (D1 X) PutResult :=
  changes <- run_statement fault (insert_statement storageKey recordJson) ;;
  ret (if changes =? 1 then Stored "1" else VersionMismatch).

Definition update (fault : Fault) (storageKey : string) (recordJson : JsVal) (expectedVersion : Z)
  : M (D1 X) PutResult :=
  changes <- run_statement fault (update_statement storageKey recordJson expectedVersion) ;;
  ret (if changes =? 1 then Stored (Z_to_string (expectedVersion + 1)) else VersionMismatch).

Definition put (fault : Fault) (key : string) (value : T) (expectedVersion : option string)
  : M (D1 X) PutResult :=
  storageKey <- lift (storageKey key) ;;
  let encoded := encode value in
  if negb (isJsonObject encoded)
  then throw (JsError "Cloudflare D1 versioned JSON encoder returned a non-object value")
  else
    match expectedVersion with
    | None => insert fault storageKey encoded
    | Some v =>
        match parseVersion (JString v) with
        | None => throw (JsError "Cloudflare D1 versioned JSON expectedVersion must be null or non-empty")
        | Some parsed => update fault storageKey encoded parsed
        end
    end.

(** [parseReadResult]; a stored [null] is no record. *)
Definition parseReadResult (row : option StoredRow) : Result (ReadResult T) :=
  match row with
  | None => Ok Missing
  | Some row =>
      match parseVersion (JInt (version row)) with
      | None => Throw (store_error StoreError_invalid_record "Stored D1 versioned JSON record envelope is invalid")
      | Some v =>
          match (match record_json row with JNull => None | json => parse json end) with
          | None => Throw (store_error StoreError_invalid_record "Stored D1 versioned JSON record is invalid")
          | Some value => Ok (Present value (Z_to_string v))
          end
      end
  end.

(** [prepareReadKeys]: normalised keys with their storage keys, all different. *)
Fixpoint prepareReadKeys (seen : list string) (keys : list string) : Result (list (string * string)) :=
  match keys with
  | [] => Ok []
  | rawKey :: keys =>
      let* key := normalizeRecordKey rawKey in
      let storageKey := keyPrefix +:+ key in
      if shas storageKey seen
      then Throw (JsError "Cloudflare D1 versioned JSON read batch contains duplicate keys")
      else let* rest := prepareReadKeys (sadd storageKey seen) keys in Ok ((key, storageKey) :: rest)
  end.

Fixpoint parse_rows (rows : list (string * option StoredRow)) : Result (list (string * ReadResult T)) :=
  match rows with
  | [] => Ok []
  | (key, row) :: rows =>
      let* result := parseReadResult row in
      let* rest := parse_rows rows in Ok ((key, result) :: rest)
  end.

(** [readMany]: all rows from one snapshot.  A read has no effect to lose. *)
Definition readMany (fault : Fault) (keys : list string) : M (D1 X) (list (string * ReadResult T)) :=
  match keys with
  | [] => throw (JsError "Cloudflare D1 versioned JSON read batch requires at least one key")
  | _ =>
      preparedKeys <- lift (prepareReadKeys [] keys) ;;
      match fault with
      | NoFault =>
          db <- gets id ;;
          lift (parse_rows (map (fun '(key, storageKey) => (key, tget storageKey (records db))) preparedKeys))
      | AnswerLost _ => throw (store_error StoreError_request_failed lost_error)
      end
  end.

Definition read (fault : Fault) (key : string) : M (D1 X) (ReadResult T) :=
  entries <- readMany fault [key] ;;
  match entries with
  | (_, result) :: _ => ret result
  | [] => throw (JsError "Cloudflare D1 versioned JSON read returned no entry")
  end.

Fixpoint prepareBatchMutations (seenKeys : list string) (mutations : list (Mutation T))
  : Result (list PreparedMutation) :=
  match mutations with
  | [] => Ok []
  | mutation :: mutations =>
      let* key := normalizeRecordKey (m_key mutation) in
      let* sk := storageKey key in
      if shas sk seenKeys
      then Throw (JsError "Cloudflare D1 versioned JSON batch contains duplicate keys")
      else
        let encoded := encode (m_value mutation) in
        if negb (isJsonObject encoded)
        then Throw (JsError "Cloudflare D1 versioned JSON encoder returned a non-object value")
        else
          let* expectedVersion :=
            match m_expectedVersion mutation with
            | None => Ok None
            | Some v =>
                match parseVersion (JString v) with
                | None => Throw (JsError "Cloudflare D1 versioned JSON expectedVersion must be null or non-empty")
                | Some z => Ok (Some z)
                end
            end in
          let* rest := prepareBatchMutations (sadd sk seenKeys) mutations in
          Ok (mkPreparedMutation key sk encoded expectedVersion :: rest)
  end.

Definition prepareMutationStatement (m : PreparedMutation) : Statement X :=
  match pm_expectedVersion m with
  | None => insert_statement (pm_storageKey m) (pm_recordJson m)
  | Some v => update_statement (pm_storageKey m) (pm_recordJson m) v
  end.

Definition matchesExpectedVersion (current : ReadResult T) (expectedVersion : option Z) : bool :=
  match expectedVersion, current with
  | None, Missing => true
  | None, Present _ _ => false
  | Some v, Present _ stored => match Number_of_string stored with NInt z => z =? v | _ => false end
  | Some _, Missing => false
  end.

(** [findBatchConflict]; [fault] is the fault of the first of its reads. *)
Fixpoint findBatchConflict (fault : Fault) (prepared : list PreparedMutation) : M (D1 X) (option string) :=
  match prepared with
  | [] => ret None
  | m :: prepared =>
      current <- read fault (pm_key m) ;;
      if negb (matchesExpectedVersion current (pm_expectedVersion m)) then ret (Some (pm_key m))
      else findBatchConflict NoFault prepared
  end.

(** The version a mutation gives its record. *)
Definition next_version (m : PreparedMutation) : string :=
  Z_to_string (default 0 (pm_expectedVersion m) + 1).

Definition mutation_statements (prepared : list PreparedMutation) : list (Statement X) :=
  concat (map (fun m => [prepareMutationStatement m; D1_BATCH_CAS_GUARD_SQL]) prepared).

Definition putManyWithAdditionalStatements (fault readFault : Fault) (mutations : list (Mutation T))
    (additionalStatements : list (Statement X)) : M (D1 X) BatchPutResult :=
  match mutations with
  | [] => throw (JsError "Cloudflare D1 versioned JSON batch requires at least one mutation")
  | _ =>
      prepared <- lift (prepareBatchMutations [] mutations) ;;
      failure <- (fun db =>
        let '(failure, db) := batch fault (mutation_statements prepared ++ additionalStatements) db in
        (Ok failure, db)) ;;
      match failure with
      | None => ret (BatchStored (map (fun m => (pm_key m, next_version m)) prepared))
      | Some e =>
          conflictKey <- findBatchConflict readFault prepared ;;
          match conflictKey with
          | Some key => ret (BatchVersionMismatch key)
          | None => throw (store_error StoreError_request_failed e)
          end
      end
  end.

Definition putMany (fault readFault : Fault) (mutations : list (Mutation T)) : M (D1 X) BatchPutResult :=
  putManyWithAdditionalStatements fault readFault mutations [].

(** [listByKeyPrefix]: the readable rows among the first [limit] with the prefix. *)
Definition listByKeyPrefix (keyStartsWith : string) (limit : Z) : M (D1 X) (list (string * ReadResult T)) :=
  prefix <- lift (let* key := normalizeRecordKey keyStartsWith in Ok (keyPrefix +:+ key)) ;;
  let limit := Z.min (Z.max limit 1) 1000 in
  rows <- gets (fun db => take (Z.to_nat limit)
    (List.filter (fun e => starts_with prefix e.1) (records db))) ;;
  ret (omap (fun '(record_key, row) =>
    value ← (match record_json row with JNull => None | json => parse json end);
    Some (String.substring (String.length keyPrefix) (String.length record_key) record_key,
          Present value (js_String (JInt (version row))))) rows).
End Store.
