(* ===== verification/VersionedWrites.v ===== *)
(** * Writes of versioned records

    What [VersionedRecords] promises: a write is a compare-and-set on the rows it names,
    and a batch of them is carried out as a whole or not at all. *)

From S2P Require Import Prelude JsValues IdbTables VersionedRecords.
Local Open Scope Z_scope.
Local Open Scope js_scope.

(** ** Compare and set

    The reference is compare-and-set on the rows: a mutation applies to a database when
    the row of its key is as it expects, and then replaces that row alone. *)

Definition row_matches (expected : option Z) (row : option StoredRow) : bool :=
  match expected, row with
  | None, None => true
  | Some v, Some row => version row =? v
  | _, _ => false
  end.

Definition new_row (m : PreparedMutation) : StoredRow :=
  mkStoredRow (default 0 (pm_expectedVersion m) + 1) (pm_recordJson m).

Definition applies {X} (db : D1 X) (m : PreparedMutation) : bool :=
  row_matches (pm_expectedVersion m) (tget (pm_storageKey m) (records db)).

Definition apply_mutation {X} (db : D1 X) (m : PreparedMutation) : D1 X :=
  set_records (tput (pm_storageKey m) (new_row m) (records db)) db.

Definition apply_mutations {X} (db : D1 X) (prepared : list PreparedMutation) : D1 X :=
  foldl apply_mutation db prepared.

Definition d1_wf {X} (db : D1 X) : Prop := twf (records db).

Section Laws.
Context {X T : Type}.
Implicit Types (db : D1 X) (m : PreparedMutation) (extra : list (Statement X)).

Lemma mutation_statement_run m db c :
  prepareMutationStatement m db c =
    inr (if applies db m then (apply_mutation db m, 1) else (db, 0)).
Proof.
  unfold prepareMutationStatement, applies, apply_mutation, new_row.
  destruct (pm_expectedVersion m) as [v|]; simpl.
  - unfold update_statement. destruct (tget _ _) as [row|]; [|done].
    destruct (Z.eqb_spec (version row) v) as [->|]; done.
  - unfold insert_statement. by destruct (tget _ _).
Qed.

Lemma guard_run db c :
  D1_BATCH_CAS_GUARD_SQL db c =
    if c =? 0 then inl "UNIQUE constraint failed: router_ab_yao_versioned_json_cas_guard.guard_id"
    else inr (db, 0).
Proof. done. Qed.

Lemma applies_other db m m' : d1_wf db -> pm_storageKey m' <> pm_storageKey m ->
  applies (apply_mutation db m) m' = applies db m'.
Proof. intros Hwf Hne. unfold applies, apply_mutation. simpl. rewrite tget_tput by done. by rewrite decide_False. Qed.

Lemma apply_mutation_wf db m : d1_wf db -> d1_wf (apply_mutation db m).
Proof. apply tput_wf. Qed.

Lemma apply_mutations_wf prepared : forall db, d1_wf db -> d1_wf (apply_mutations db prepared).
Proof. induction prepared as [|m l IH]; intros db H; [done|]. by apply IH, apply_mutation_wf. Qed.

Lemma apply_mutations_others prepared : forall db, others (apply_mutations db prepared) = others db.
Proof. induction prepared as [|m l IH]; intros db; [done|]. exact (IH (apply_mutation db m)). Qed.

(** The statements of a batch find every row as they expect, or one of them fails. *)
Lemma run_mutations prepared extra : forall db c,
  d1_wf db -> NoDup (map pm_storageKey prepared) ->
  run_statements (mutation_statements prepared ++ extra) db c =
    if forallb (applies db) prepared
    then run_statements extra (apply_mutations db prepared) (match prepared with [] => c | _ => 0 end)
    else inl "UNIQUE constraint failed: router_ab_yao_versioned_json_cas_guard.guard_id".
Proof.
  unfold mutation_statements.
  induction prepared as [|m l IH]; intros db c Hwf Hnd; [done|].
  simpl in Hnd. apply NoDup_cons in Hnd as [Hm Hnd].
  cbn [map concat app run_statements]. rewrite mutation_statement_run.
  cbn [forallb]. destruct (applies db m) eqn:Ha; simpl; [|done].
  rewrite IH by (by try apply apply_mutation_wf). simpl.
  assert (forallb (applies (apply_mutation db m)) l = forallb (applies db) l) as ->.
  { clear -Hwf Hm. induction l as [|m' l IH]; [done|]. simpl in Hm |- *.
    rewrite IH by set_solver. f_equal. apply applies_other; [done|set_solver]. }
  destruct (forallb _ l); [|done]. by destruct l.
Qed.

(** The rows a batch leaves. *)
Lemma apply_mutations_other prepared : forall db k, d1_wf db -> k ∉ map pm_storageKey prepared ->
  tget k (records (apply_mutations db prepared)) = tget k (records db).
Proof.
  induction prepared as [|m l IH]; intros db k Hwf Hk; [done|]. simpl in Hk.
  etrans; [apply (IH (apply_mutation db m)); [by apply apply_mutation_wf|set_solver]|].
  simpl. rewrite tget_tput by done. by rewrite decide_False by set_solver.
Qed.

Lemma apply_mutations_get prepared : forall db m, d1_wf db -> NoDup (map pm_storageKey prepared) ->
  m ∈ prepared -> tget (pm_storageKey m) (records (apply_mutations db prepared)) = Some (new_row m).
Proof.
  induction prepared as [|m' l IH]; intros db m Hwf Hnd Hin; [set_solver|].
  simpl in Hnd. apply NoDup_cons in Hnd as [Hm Hnd].
  apply elem_of_cons in Hin as [->|Hin].
  - etrans; [apply (apply_mutations_other l (apply_mutation db m')); [by apply apply_mutation_wf|done]|].
    simpl. rewrite tget_tput by done. by rewrite decide_True.
  - apply (IH (apply_mutation db m')); [by apply apply_mutation_wf|done..].
Qed.
End Laws.

(** ** Prepared mutations *)

Section Prepared.
Context {T : Type} (encode : T -> JsVal) (keyPrefix : string).

(** The mutation a caller's mutation is prepared into. *)
Definition prepares (mutation : Mutation T) (m : PreparedMutation) : Prop :=
  normalizeRecordKey (m_key mutation) = Ok (pm_key m) /\
  pm_storageKey m = keyPrefix +:+ pm_key m /\
  pm_recordJson m = encode (m_value mutation) /\ isJsonObject (pm_recordJson m) = true /\
  match m_expectedVersion mutation with
  | None => pm_expectedVersion m = None
  | Some v => pm_expectedVersion m = parseVersion (JString v) /\ is_Some (pm_expectedVersion m)
  end.

Lemma normalizeRecordKey_idem value key : normalizeRecordKey value = Ok key -> normalizeRecordKey key = Ok key.
Proof.
  unfold normalizeRecordKey. cbv zeta. destruct (negb (nonempty (trim value))) eqn:E1; [done|].
  destruct (_ || _) eqn:E2; [done|]. intros [= <-]. by rewrite trim_idem, E1, E2.
Qed.

Lemma prepare_spec mutations : forall seen prepared,
  prepareBatchMutations encode keyPrefix seen mutations = Ok prepared ->
  Forall2 prepares mutations prepared /\ NoDup (map pm_storageKey prepared) /\
  Forall (fun m => pm_storageKey m ∉ seen) prepared.
Proof.
  induction mutations as [|mu mus IH]; intros seen prepared; simpl.
  { intros [= <-]. split_and!; constructor. }
  destruct (normalizeRecordKey (m_key mu)) as [key|] eqn:Hkey; [|done]. simpl. unfold storageKey.
  rewrite (normalizeRecordKey_idem _ _ Hkey). simpl.
  unfold shas. case_bool_decide as Hseen; [done|].
  destruct (isJsonObject (encode (m_value mu))) eqn:Hjson; [|done]. simpl.
  destruct (match m_expectedVersion mu with None => Ok None | Some _ => _ end) as [ev|] eqn:Hev; [|done]. simpl.
  destruct (prepareBatchMutations _ _ _ mus) as [rest|] eqn:Hrest; [|done]. simpl. intros [= <-].
  destruct (IH _ _ Hrest) as (H2 & Hnd & Hf). split_and!.
  - constructor; [|done]. unfold prepares. simpl. split_and!; [done..|].
    destruct (m_expectedVersion mu) as [v|]; [|by simplify_eq].
    destruct (parseVersion (JString v)); simplify_eq. by split; [|eexists].
  - simpl. apply NoDup_cons. split; [|done]. intros (m & Hm & Hin)%list_elem_of_fmap.
    rewrite Forall_forall in Hf. specialize (Hf m Hin). rewrite elem_sadd in Hf. naive_solver.
  - constructor; [done|]. eapply Forall_impl; [exact Hf|]. intros m Hm ?. apply Hm, elem_sadd. by right.
Qed.
End Prepared.

(** ** Batches and single writes *)

Lemma digits_nonneg z : all_chars is_digit (Z_to_string z) = true -> 0 <= z.
Proof.
  unfold Z_to_string. destruct (to_int_cases z) as (d & _ & [E|[Hneg E]]).
  - apply (f_equal Z.of_int) in E. rewrite DecimalZ.of_to in E. simpl in E. unfold Z.of_uint in E. lia.
  - by rewrite E.
Qed.

Section Writes.
Context {X T : Type} (encode : T -> JsVal) (parse : JsVal -> option T) (keyPrefix : string).
Implicit Types (db : D1 X) (m : PreparedMutation).

Lemma version_text v : 0 < v <= MAX_SAFE_INTEGER -> parseVersion (JInt v) = Some v.
Proof.
  intros Hv. unfold parseVersion, JInt. cbn [js_String].
  rewrite Z_to_string_nonempty, Z_to_string_digits, Number_to_string by lia. simpl.
  unfold is_safe_integer. assert ((- MAX_SAFE_INTEGER <=? v) && (v <=? MAX_SAFE_INTEGER) = true) as -> by lia.
  by rewrite (proj2 (Z.ltb_lt 0 v)) by lia.
Qed.

Lemma parseVersion_pos value v : parseVersion value = Some v -> 0 < v <= MAX_SAFE_INTEGER.
Proof.
  unfold parseVersion. destruct (_ && _); [|done].
  destruct (safe_integer_value _) as [z|] eqn:E; [|done]. destruct (Z.ltb_spec 0 z); [|done].
  intros [= <-]. split; [done|]. destruct (Number_of_string _); simpl in E; try done.
  unfold is_safe_integer in E. destruct (_ && _) eqn:E'; [|done]. simplify_eq. lia.
Qed.

(** Reading one record. *)
Definition read_row (row : option StoredRow) : Result (ReadResult T) := parseReadResult parse row.

Lemma read_run key k db : normalizeRecordKey key = Ok k ->
  read parse keyPrefix NoFault key db = (read_row (tget (keyPrefix +:+ k) (records db)), db).
Proof.
  intros Hk. unfold read, readMany, bind, lift, gets, prepareReadKeys. rewrite Hk. simpl. unfold read_row.
  by destruct (parseReadResult parse _).
Qed.

Lemma read_keeps fault key db : (read parse keyPrefix fault key db).2 = db.
Proof.
  unfold read, readMany, bind, lift, gets. destruct (prepareReadKeys _ _ _) as [ks|]; [|done].
  destruct fault; [|done]. destruct (parse_rows _ _) as [[|[]]|]; done.
Qed.

Lemma read_row_version row value v : read_row (Some row) = Ok (Present value v) ->
  v = Z_to_string (version row) /\ 0 < version row <= MAX_SAFE_INTEGER.
Proof.
  unfold read_row, parseReadResult. destruct (parseVersion (JInt (version row))) as [z|] eqn:Hv; [|done].
  destruct (match record_json row with JNull => None | _ => _ end); [|done]. intros [= _ <-].
  pose proof (parseVersion_pos _ _ Hv). assert (z = version row) as ->; [|done].
  unfold parseVersion, JInt in Hv. cbn [js_String] in Hv.
  destruct (_ && _) eqn:Hd; [|done]. apply andb_true_iff in Hd as [_ Hd%digits_nonneg].
  rewrite Number_to_string in Hv by done. simpl in Hv. destruct (is_safe_integer _); [|done].
  destruct (0 <? version row); congruence.
Qed.

(** A lost or refused batch leaves the database as it was, or as the batch leaves it. *)
Lemma batch_cases fault (statements : list (Statement X)) db failure db' :
  batch fault statements db = (failure, db') ->
  match run_statements statements db 0 with
  | inl e => db' = db /\ failure = Some (match fault with AnswerLost false => lost_error | _ => e end)
  | inr out =>
      match fault with
      | NoFault => failure = None /\ db' = out
      | AnswerLost effect => failure = Some lost_error /\ db' = (if effect then out else db)
      end
  end.
Proof. unfold batch. destruct fault as [|[]], (run_statements statements db 0); intros; by simplify_eq. Qed.

(** [matchesExpectedVersion] on what is read is [row_matches] on the row. *)
Lemma matches_read row current expected :
  read_row row = Ok current -> matchesExpectedVersion current expected = row_matches expected row.
Proof.
  destruct row as [row|]; [|intros [= <-]; by destruct expected].
  destruct current as [|value v]; intros Hr.
  { unfold read_row, parseReadResult in Hr. destruct (parseVersion _); [|done].
    by destruct (match record_json row with JNull => None | _ => _ end). }
  destruct (read_row_version _ _ _ Hr) as [-> Hv]. destruct expected as [e|]; [|done].
  simpl. by rewrite Number_to_string by lia.
Qed.

(** The conflict a failed batch reports. *)
Lemma conflict_spec prepared : forall fault db,
  Forall (fun m => normalizeRecordKey (pm_key m) = Ok (pm_key m) /\ pm_storageKey m = keyPrefix +:+ pm_key m) prepared ->
  let '(r, db') := findBatchConflict parse keyPrefix fault prepared db in
  db' = db /\
  match r with
  | Ok (Some key) => exists m, m ∈ prepared /\ pm_key m = key /\ applies db m = false
  | Ok None => forallb (applies db) prepared = true
  | Throw _ => True
  end.
Proof.
  induction prepared as [|m prepared IH]; intros fault db Hall; [done|].
  apply Forall_cons in Hall as [[Hk Hs] Hall]. cbn [findBatchConflict]. unfold bind.
  pose proof (read_keeps fault (pm_key m) db) as Hkeep.
  destruct (read parse keyPrefix fault (pm_key m) db) as [[current|e] db1] eqn:Hread; simpl in Hkeep; subst db1; [|done].
  assert (read_row (tget (pm_storageKey m) (records db)) = Ok current) as Hrow.
  { rewrite Hs. destruct fault; [rewrite (read_run _ _ _ Hk) in Hread; congruence|].
    unfold read, readMany, bind, lift in Hread. simpl in Hread. rewrite Hk in Hread. done. }
  rewrite (matches_read _ _ _ Hrow). fold (applies db m).
  destruct (applies db m) eqn:Ha; simpl.
  - specialize (IH NoFault db Hall). destruct (findBatchConflict _ _ _ _ _) as [r db'].
    destruct IH as [-> IH]. split; [done|]. destruct r as [[key|]|]; [|by rewrite Ha|done].
    destruct IH as (m' & ? & ? & ?). exists m'. split_and!; [set_solver|done..].
  - split; [done|]. exists m. split_and!; [set_solver|done..].
Qed.

(** A batch is carried out when every row is as its mutation expects and the further
    statements go through. *)
Definition carried_out (prepared : list PreparedMutation) (extra : list (Statement X)) db : string + D1 X :=
  if forallb (applies db) prepared then run_statements extra (apply_mutations db prepared) 0
  else inl "UNIQUE constraint failed: router_ab_yao_versioned_json_cas_guard.guard_id".

(** A result that reports no write: it names a record only if its row differs from what
    was expected, in the database that the write leaves. *)
Definition not_stored (prepared : list PreparedMutation) db (r : Result BatchPutResult) : Prop :=
  match r with
  | Ok (BatchStored _) => False
  | Ok (BatchVersionMismatch key) => exists m, m ∈ prepared /\ pm_key m = key /\ applies db m = false
  | Throw _ => True
  end.

Lemma prepared_keys mutations prepared : Forall2 (prepares encode keyPrefix) mutations prepared ->
  Forall (fun m => normalizeRecordKey (pm_key m) = Ok (pm_key m) /\ pm_storageKey m = keyPrefix +:+ pm_key m) prepared.
Proof.
  induction 1 as [|mu m mus ms (Hk & Hs & _) _ IH]; constructor; [|done].
  split; [|done]. by eapply normalizeRecordKey_idem.
Qed.

Lemma putMany_spec fault readFault mutations extra db r db' prepared :
  d1_wf db -> mutations <> [] -> prepareBatchMutations encode keyPrefix [] mutations = Ok prepared ->
  putManyWithAdditionalStatements encode parse keyPrefix fault readFault mutations extra db = (r, db') ->
  match fault, carried_out prepared extra db with
  | NoFault, inr out => r = Ok (BatchStored (map (fun m => (pm_key m, next_version m)) prepared)) /\ db' = out
  | AnswerLost true, inr out => db' = out /\ not_stored prepared db' r
  | _, _ => db' = db /\ not_stored prepared db' r
  end.
Proof.
  intros Hwf Hne Hp Hput. destruct (prepare_spec encode keyPrefix _ _ _ Hp) as (H2 & Hnd & _).
  pose proof (prepared_keys _ _ H2) as Hkeys.
  assert (match prepared with [] => 0 | _ => 0 end = 0) as H0 by by destruct prepared.
  unfold putManyWithAdditionalStatements in Hput. destruct mutations as [|mu mus]; [done|].
  unfold bind, lift in Hput. rewrite Hp in Hput. cbv beta iota in Hput.
  destruct (batch fault _ db) as [failure db1] eqn:Hb. apply batch_cases in Hb.
  rewrite run_mutations, H0 in Hb by done. fold (carried_out prepared extra db) in Hb.
  assert (Hconf : forall e, failure = Some e -> db' = db1 /\ not_stored prepared db' r).
  { intros e ->. pose proof (conflict_spec prepared readFault db1 Hkeys) as Hc.
    destruct (findBatchConflict _ _ _ _ _) as [res db2]. destruct Hc as [-> Hc].
    destruct res as [[key|]|]; unfold ret, throw in Hput; simplify_eq; done. }
  destruct (carried_out prepared extra db) as [e|out].
  - destruct Hb as [-> ->]. destruct (Hconf _ eq_refl) as [-> Hn]. by destruct fault as [|[]].
  - destruct fault as [|[]]; destruct Hb as [-> ->]; [|by destruct (Hconf _ eq_refl)..].
    unfold ret in Hput. by simplify_eq.
Qed.

(** A single write is a batch of one mutation whose conflict is not read again. *)
Lemma put_spec fault key value expectedVersion db :
  put encode keyPrefix fault key value expectedVersion db =
  match prepareBatchMutations encode keyPrefix [] [mkMutation key value expectedVersion] with
  | Ok (m :: _) =>
      let out := if applies db m then apply_mutation db m else db in
      match fault with
      | NoFault => (Ok (if applies db m then Stored (next_version m) else VersionMismatch), out)
      | AnswerLost effect =>
          (Throw (store_error StoreError_request_failed lost_error), if effect then out else db)
      end
  | Ok [] => (Throw OutOfFuel, db)
  | Throw e => (Throw e, db)
  end.
Proof.
  unfold put, bind, lift, storageKey. simpl. unfold storageKey.
  destruct (normalizeRecordKey key) as [k|] eqn:Hk; [|done]. simpl.
  rewrite (normalizeRecordKey_idem _ _ Hk). simpl.
  destruct (isJsonObject (encode value)); [|done]. simpl.
  set (m := fun ev => mkPreparedMutation k (keyPrefix +:+ k) (encode value) ev).
  assert (Hrun : forall ev, run_statement fault (prepareMutationStatement (m ev)) db =
    match fault with
    | NoFault => (Ok (if applies db (m ev) then 1 else 0), if applies db (m ev) then apply_mutation db (m ev) else db)
    | AnswerLost effect => (Throw (store_error StoreError_request_failed lost_error),
        if effect then if applies db (m ev) then apply_mutation db (m ev) else db else db)
    end).
  { intros ev. unfold run_statement. rewrite mutation_statement_run.
    by destruct fault as [|[]], (applies db (m ev)). }
  destruct expectedVersion as [v|]; [destruct (parseVersion (JString v)) as [z|]; [|done]|]; simpl.
  - unfold update, bind. specialize (Hrun (Some z)). unfold prepareMutationStatement in Hrun. simpl in Hrun.
    rewrite Hrun. fold (m (Some z)). by destruct fault as [|[]], (applies db (m (Some z))).
  - unfold insert, bind. specialize (Hrun None). unfold prepareMutationStatement in Hrun. simpl in Hrun.
    rewrite Hrun. fold (m None). by destruct fault as [|[]], (applies db (m None)).
Qed.

(** C14. A batch of versioned records and further statements is atomic: it is carried out as
    a whole when every row has the version its mutation expects (or is absent, when the
    mutation expects none) and the further statements go through, and then the records
    have their new values at the next versions; otherwise nothing is changed.  When the
    answer of the database is lost, the batch was carried out as a whole or not at all.
    It reports a write that was carried out unless the answer was lost, never reports one
    that was not, and names as a conflict only a record that is not as expected. *)
Theorem versioned_batch_atomic fault readFault mutations extra db :
  d1_wf db -> mutations <> [] ->
  let '(r, db') := putManyWithAdditionalStatements encode parse keyPrefix fault readFault mutations extra db in
  match prepareBatchMutations encode keyPrefix [] mutations with
  | Throw e => r = Throw e /\ db' = db
  | Ok prepared =>
      Forall2 (prepares encode keyPrefix) mutations prepared /\ NoDup (map pm_storageKey prepared) /\
      match fault, carried_out prepared extra db with
      | NoFault, inr out => r = Ok (BatchStored (map (fun m => (pm_key m, next_version m)) prepared)) /\ db' = out
      | AnswerLost true, inr out => db' = out /\ not_stored prepared db' r
      | _, _ => db' = db /\ not_stored prepared db' r
      end
  end.
Proof.
  intros Hwf Hne. destruct (putManyWithAdditionalStatements _ _ _ _ _ _ _ _) as [r db'] eqn:Hput.
  destruct (prepareBatchMutations encode keyPrefix [] mutations) as [prepared|e] eqn:Hp.
  - destruct (prepare_spec encode keyPrefix _ _ _ Hp) as (H2 & Hnd & _). split_and!; [done..|].
    by eapply putMany_spec.
  - unfold putManyWithAdditionalStatements, bind, lift in Hput. destruct mutations; [done|].
    rewrite Hp in Hput. by simplify_eq.
Qed.
End Writes.

Definition sample_encode (value : Z) : JsVal := JObject [("value", JInt value)].
Definition sample_parse (raw : JsVal) : option Z :=
  match jget "value" raw with JNumber (NInt z) => Some z | _ => None end.
Definition sample_db : D1 unit := mkD1 [("p:a", mkStoredRow 4 (sample_encode 10))] tt.
Definition sample_mutations : list (Mutation Z) :=
  [mkMutation "a" 11 (Some "4"); mkMutation "b" 20 None].

Lemma versioned_batch_atomic_witness :
  let db' := mkD1 [("p:a", mkStoredRow 5 (sample_encode 11)); ("p:b", mkStoredRow 1 (sample_encode 20))] tt in
  let stored := BatchStored [("a", "5"); ("b", "1")] in
  d1_wf sample_db /\ sample_mutations <> [] /\
  putManyWithAdditionalStatements sample_encode sample_parse "p:" NoFault NoFault sample_mutations [] sample_db
    = (Ok stored, db') /\
  putManyWithAdditionalStatements sample_encode sample_parse "p:" (AnswerLost true) NoFault sample_mutations [] sample_db
    = (Ok (BatchVersionMismatch "a"), db').
Proof.
  intros db' stored.
  assert (d1_wf sample_db) as Hwf by (apply NoDup_singleton).
  assert (sample_mutations <> []) as Hne by done. split_and!; [done..| |].
  - pose proof (versioned_batch_atomic sample_encode sample_parse "p:" NoFault NoFault sample_mutations [] sample_db Hwf Hne) as H.
    destruct (putManyWithAdditionalStatements _ _ _ _ _ _ _ _) as [r db1]. destruct H as (_ & _ & -> & ->). by vm_compute.
  - pose proof (versioned_batch_atomic sample_encode sample_parse "p:" (AnswerLost true) NoFault sample_mutations [] sample_db Hwf Hne) as H.
    destruct (putManyWithAdditionalStatements _ _ _ _ _ _ _ _) as [r db1] eqn:E. vm_compute in E. destruct H as (_ & _ & -> & _).
    by injection E as <-.
Defined.
