(* ===== verification/RecoverySets.v ===== *)
(** * Wallet recovery sets

    [packages/shared-ts/src/wallet-recovery]: the record of a wallet's ten recovery
    codes ([walletRecoveryEnvelopeSet.ts]), the lifecycle of a code
    ([recoveryEnvelopes.ts], [recoveryCodeReservation.ts]) and the acknowledgement of a
    backup ([backupAcknowledgement.ts]), with the exact-shape checks of
    [packages/shared-ts/src/utils/exactRecord.ts]. *)

From S2P Require Import Prelude JsValues RecoveryKeys Base64.
Local Open Scope Z_scope.
Local Open Scope js_scope.

(** ** [utils/validation.ts] and [utils/exactRecord.ts] *)

Definition requireRecord (value : JsVal) (label : string) : Result JsVal :=
  if negb (isPlainObject value) then Throw (JsError (label +:+ " must be an object")) else Ok value.

Definition SECRET_BEARING_FIELD_SUBSTRINGS : list string :=
  ["prf"; "kek"; "seed"; "scalar"; "secretkey"; "privatekey"; "plaintext"; "recoverycode";
   "clientroot"; "holdershare"].

Definition object_keys (v : JsVal) : list string :=
  match v with JObject fields => map fst fields | _ => [] end.

Definition unknown_field_error (field label : string) (knownOnOtherBranches : list string) : Exn :=
  if shas field knownOnOtherBranches then JsError (label +:+ "." +:+ field +:+ " is not part of " +:+ label)
  else
    let normalized := filter_chars (fun a => negb (bool_decide (a = "_"%char))) (to_lower field) in
    let namesAPublicKey := includes "publickey" normalized in
    if negb namesAPublicKey && existsb (fun substring => includes substring normalized) SECRET_BEARING_FIELD_SUBSTRINGS
    then JsError (label +:+ "." +:+ field +:+ " must never carry plaintext custody material")
    else JsError (label +:+ "." +:+ field +:+ " is not part of " +:+ label).

Fixpoint reject_fields (fields allowed : list string) (label : string) (knownOnOtherBranches : list string)
  : Result unit :=
  match fields with
  | [] => Ok tt
  | field :: fields =>
      if shas field allowed then reject_fields fields allowed label knownOnOtherBranches
      else Throw (unknown_field_error field label knownOnOtherBranches)
  end.

Definition rejectUnknownFields (record : JsVal) (allowed : list string) (label : string)
    (knownOnOtherBranches : list string) : Result unit :=
  reject_fields (object_keys record) allowed label knownOnOtherBranches.

(** ** The lifecycle of a code *)

Inductive RecoveryCodeLifecycleState : Type :=
| CodeActive (issuedAtMs : Z)
| CodeReserved (issuedAtMs : Z) (reservationId : string) (reservedAtMs reservationExpiresAtMs : Z)
| CodeConsumed (issuedAtMs : Z) (reservationId : string) (consumedAtMs : Z)
| CodeRevoked (issuedAtMs revokedAtMs : Z).

#[global] Instance lifecycle_eq_dec : EqDecision RecoveryCodeLifecycleState.
Proof. solve_decision. Defined.

Definition lifecycle_issuedAtMs (l : RecoveryCodeLifecycleState) : Z :=
  match l with
  | CodeActive i | CodeReserved i _ _ _ | CodeConsumed i _ _ | CodeRevoked i _ => i
  end.

Inductive RecoveryCodeTransitionRejection : Type :=
| AlreadyConsumed | Revoked | AlreadyReserved | NotReserved | ReservationExpired | ReservationMismatch.

(** [RecoveryCodeTransitionResult]: the next lifecycle or a rejection. *)
Definition TransitionResult : Type :=
  RecoveryCodeLifecycleState + RecoveryCodeTransitionRejection * string.

Definition reserveRecoveryCode (lifecycle : RecoveryCodeLifecycleState) (reservationId : string)
    (nowMs reservationTtlMs : Z) : TransitionResult :=
  let reserve :=
    inl (CodeReserved (lifecycle_issuedAtMs lifecycle) reservationId nowMs (nowMs + reservationTtlMs)) in
  match lifecycle with
  | CodeConsumed _ _ _ => inr (AlreadyConsumed, "recovery code has already been consumed")
  | CodeRevoked _ _ => inr (Revoked, "recovery code has been revoked")
  | _ =>
      if reservationTtlMs <=? 0 then inr (ReservationExpired, "reservation ttl must be positive")
      else
        match lifecycle with
        | CodeReserved _ holder _ reservationExpiresAtMs =>
            if (nowMs <? reservationExpiresAtMs) && negb (bool_decide (holder = reservationId))
            then inr (AlreadyReserved, "recovery code is reserved by another recovery")
            else reserve
        | _ => reserve
        end
  end.

Definition consumeReservedRecoveryCode (lifecycle : RecoveryCodeLifecycleState) (reservationId : string)
    (nowMs : Z) : TransitionResult :=
  match lifecycle with
  | CodeConsumed _ _ _ => inr (AlreadyConsumed, "recovery code has already been consumed")
  | CodeRevoked _ _ => inr (Revoked, "recovery code has been revoked")
  | CodeActive _ => inr (NotReserved, "recovery code must be reserved before it is consumed")
  | CodeReserved issuedAtMs holder _ reservationExpiresAtMs =>
      if negb (bool_decide (holder = reservationId))
      then inr (ReservationMismatch, "reservation id does not hold this recovery code")
      else if reservationExpiresAtMs <=? nowMs
      then inr (ReservationExpired, "recovery code reservation expired before commit")
      else inl (CodeConsumed issuedAtMs reservationId nowMs)
  end.

Definition parseRecoveryCodeReservationId (value : JsVal) : Result string :=
  let invalid := JsError "recovery code reservation id must be a compact opaque identifier" in
  match value with
  | JString s =>
      if (String.length s =? 0)%nat || (512 <? String.length s)%nat || negb (bool_decide (trim s = s))
         || hasWhitespaceOrControlCharacters s
      then Throw invalid else Ok s
  | _ => Throw invalid
  end.

(** ** Records *)

Definition WALLET_RECOVERY_KEY_ID_PREFIX_V1 : string := "wallet-rkid-v1-".

(** [/^wallet-rkid-v1-[A-Za-z0-9_-]{43}$/]. *)
Definition is_recovery_key_id (s : string) : bool :=
  starts_with WALLET_RECOVERY_KEY_ID_PREFIX_V1 s &&
  (let rest := String.substring 15 (String.length s) s in
   (String.length rest =? 43)%nat && all_chars is_base64url_char rest).

Definition parseDerivedWalletRecoveryKeyId (value : JsVal) (label : string) : Result string :=
  match value with
  | JString s =>
      if is_recovery_key_id s then Ok s
      else Throw (JsError (label +:+ " must be a derived wallet recovery key id"))
  | _ => Throw (JsError (label +:+ " must be a derived wallet recovery key id"))
  end.

(** [WalletRecoveryEnvelopeEntry]; its kind is always [wallet_custody_seed_v1]. *)
Record Entry : Type := mkEntry {
  entry_nonceB64u : string;
  wrappedCustodySecretB64u : string;
  entry_aadHashB64u : string;
}.

(** [WalletRecoveryManifestKekWrap]. *)
Record Wrap : Type := mkWrap {
  recoveryKeyId : string;
  wrap_nonceB64u : string;
  wrappedManifestKekB64u : string;
  wrap_aadHashB64u : string;
  lifecycle : RecoveryCodeLifecycleState;
}.

(** [WalletRecoveryEnvelopeSetRecord]. *)
Record EnvelopeSet : Type := mkEnvelopeSet {
  set_walletId : string;
  manifestKekWraps : list Wrap;
  entries : list Entry;
  issuedAtMs : Z;
  updatedAtMs : Z;
}.

(** [WalletRecoverySetRotationWireV1]: wraps without a lifecycle, and one entry. *)
Record RotationWrap : Type := mkRotationWrap {
  rw_recoveryKeyId : string;
  rw_nonceB64u : string;
  rw_ciphertextB64u : string;
  rw_aadHashB64u : string;
}.

Record RotationWire : Type := mkRotationWire {
  rotation_walletId : string;
  rotation_wraps : list RotationWrap;
  rotation_entry : Entry;
}.

#[global] Instance Entry_eq_dec : EqDecision Entry.
Proof. solve_decision. Defined.
#[global] Instance Wrap_eq_dec : EqDecision Wrap.
Proof. solve_decision. Defined.
#[global] Instance EnvelopeSet_eq_dec : EqDecision EnvelopeSet.
Proof. solve_decision. Defined.

(** *** The objects that stand for them *)

Definition lifecycle_json (l : RecoveryCodeLifecycleState) : JsVal :=
  JObject match l with
  | CodeActive i => [("state", JString "active"); ("issuedAtMs", JInt i)]
  | CodeReserved i r at_ expires =>
      [("state", JString "reserved"); ("issuedAtMs", JInt i); ("reservationId", JString r);
       ("reservedAtMs", JInt at_); ("reservationExpiresAtMs", JInt expires)]
  | CodeConsumed i r at_ =>
      [("state", JString "consumed"); ("issuedAtMs", JInt i); ("reservationId", JString r); ("consumedAtMs", JInt at_)]
  | CodeRevoked i at_ => [("state", JString "revoked"); ("issuedAtMs", JInt i); ("revokedAtMs", JInt at_)]
  end.

Definition entry_json (e : Entry) : JsVal :=
  JObject [("custodySecretKind", JString "wallet_custody_seed_v1"); ("nonceB64u", JString (entry_nonceB64u e));
           ("wrappedCustodySecretB64u", JString (wrappedCustodySecretB64u e));
           ("aadHashB64u", JString (entry_aadHashB64u e))].

Definition wrap_json (w : Wrap) : JsVal :=
  JObject [("recoveryKeyId", JString (recoveryKeyId w)); ("nonceB64u", JString (wrap_nonceB64u w));
           ("wrappedManifestKekB64u", JString (wrappedManifestKekB64u w));
           ("aadHashB64u", JString (wrap_aadHashB64u w)); ("lifecycle", lifecycle_json (lifecycle w))].

Definition set_json (r : EnvelopeSet) : JsVal :=
  JObject [("kind", JString "wallet_recovery_envelope_set_v1"); ("walletId", JString (set_walletId r));
           ("manifestKekWraps", JArray (map wrap_json (manifestKekWraps r)));
           ("entries", JArray (map entry_json (entries r)));
           ("issuedAtMs", JInt (issuedAtMs r)); ("updatedAtMs", JInt (updatedAtMs r))].

(** ** Parsers *)

Definition RECOVERY_LIFECYCLE_FIELDS : list string :=
  ["state"; "issuedAtMs"; "reservationId"; "reservedAtMs"; "reservationExpiresAtMs"; "consumedAtMs"; "revokedAtMs"].
Definition RECOVERY_ENTRY_FIELDS : list string :=
  ["custodySecretKind"; "nonceB64u"; "wrappedCustodySecretB64u"; "aadHashB64u"].
Definition ROTATION_WRAP_FIELDS : list string := ["recoveryKeyId"; "nonceB64u"; "ciphertextB64u"; "aadHashB64u"].
Definition ROTATION_SET_FIELDS : list string := ["walletId"; "manifestKekWraps"; "entries"].
Definition MANIFEST_KEK_WRAP_FIELDS : list string :=
  ["recoveryKeyId"; "nonceB64u"; "wrappedManifestKekB64u"; "aadHashB64u"; "lifecycle"].
Definition RECOVERY_SET_FIELDS : list string :=
  ["kind"; "walletId"; "manifestKekWraps"; "entries"; "issuedAtMs"; "updatedAtMs"].

Definition require (ok : bool) (message : string) : Result unit :=
  if ok then Ok tt else Throw (JsError message).

Definition nonempty_string (v : JsVal) : bool := match v with JString s => nonempty s | _ => false end.

Definition is_string (s : string) (v : JsVal) : bool := match v with JString t => bool_decide (t = s) | _ => false end.

Definition parse_reserved (record : JsVal) (label : string) (issuedAtMs : Z) : Result RecoveryCodeLifecycleState :=
  let* _ := require (is_undefined (jget "consumedAtMs" record) && is_undefined (jget "revokedAtMs" record))
              (label +:+ " cannot be reserved and carry a consumed or revoked timestamp") in
  let* _ := require (nonempty_string (jget "reservationId" record))
              (label +:+ ".reservationId is required while reserved") in
  let* reservedAtMs := parseUnixMs (jget "reservedAtMs" record) (label +:+ ".reservedAtMs") in
  let* reservationExpiresAtMs :=
    parseUnixMs (jget "reservationExpiresAtMs" record) (label +:+ ".reservationExpiresAtMs") in
  let* _ := require (negb (reservedAtMs <? issuedAtMs)) (label +:+ ".reservedAtMs cannot precede issuance") in
  let* _ := require (negb (reservationExpiresAtMs <=? reservedAtMs))
              (label +:+ ".reservationExpiresAtMs must follow reservedAtMs") in
  let* reservationId := parseRecoveryCodeReservationId (jget "reservationId" record) in
  Ok (CodeReserved issuedAtMs reservationId reservedAtMs reservationExpiresAtMs).

Definition parse_consumed (record : JsVal) (label : string) (issuedAtMs : Z) : Result RecoveryCodeLifecycleState :=
  let* _ := require (is_undefined (jget "revokedAtMs" record))
              (label +:+ " cannot be consumed and carry a revoked timestamp") in
  let* _ := require (nonempty_string (jget "reservationId" record))
              (label +:+ ".reservationId is required after consumption") in
  let* consumedAtMs := parseUnixMs (jget "consumedAtMs" record) (label +:+ ".consumedAtMs") in
  let* _ := require (negb (consumedAtMs <? issuedAtMs)) (label +:+ ".consumedAtMs cannot precede issuance") in
  let* reservationId := parseRecoveryCodeReservationId (jget "reservationId" record) in
  Ok (CodeConsumed issuedAtMs reservationId consumedAtMs).

Definition parse_revoked (record : JsVal) (label : string) (issuedAtMs : Z) : Result RecoveryCodeLifecycleState :=
  let* _ := require (is_undefined (jget "consumedAtMs" record))
              (label +:+ " cannot be revoked and carry a consumed timestamp") in
  let* revokedAtMs := parseUnixMs (jget "revokedAtMs" record) (label +:+ ".revokedAtMs") in
  let* _ := require (negb (revokedAtMs <? issuedAtMs)) (label +:+ ".revokedAtMs cannot precede issuance") in
  Ok (CodeRevoked issuedAtMs revokedAtMs).

Definition parseRecoveryCodeLifecycleState (raw : JsVal) (label : string) : Result RecoveryCodeLifecycleState :=
  let* record := requireRecord raw label in
  let* _ := rejectUnknownFields record RECOVERY_LIFECYCLE_FIELDS label [] in
  let* issuedAtMs := parseUnixMs (jget "issuedAtMs" record) (label +:+ ".issuedAtMs") in
  let state := jget "state" record in
  if is_string "active" state then
    let* _ := require (is_undefined (jget "consumedAtMs" record) && is_undefined (jget "revokedAtMs" record))
                (label +:+ " cannot be active and carry a consumed or revoked timestamp") in
    let* _ := require (is_undefined (jget "reservationId" record))
                (label +:+ " cannot be active and hold a reservation") in
    Ok (CodeActive issuedAtMs)
  else if is_string "reserved" state then parse_reserved record label issuedAtMs
  else if is_string "consumed" state then parse_consumed record label issuedAtMs
  else if is_string "revoked" state then parse_revoked record label issuedAtMs
  else Throw (JsError (label +:+ ".state must be active, reserved, consumed, or revoked")).

Definition parseWalletRecoveryEnvelopeEntry (raw : JsVal) (label : string) : Result Entry :=
  let* record := requireRecord raw label in
  let* _ := rejectUnknownFields record RECOVERY_ENTRY_FIELDS label [] in
  let* _ := require (is_string "wallet_custody_seed_v1" (jget "custodySecretKind" record))
    (label +:+ ".custodySecretKind must be wallet_custody_seed_v1; lane holder shares are reprovisioned, not recovered") in
  let* nonceB64u := parseEnvelopeNonceB64u (jget "nonceB64u" record) (label +:+ ".nonceB64u") in
  let* wrapped := parseEnvelopeCiphertextB64u (jget "wrappedCustodySecretB64u" record)
                    (label +:+ ".wrappedCustodySecretB64u") in
  let* aadHashB64u := parseDigestField (jget "aadHashB64u" record) (label +:+ ".aadHashB64u") in
  Ok (mkEntry nonceB64u wrapped aadHashB64u).

Definition parseWalletRecoveryManifestKekWrap (raw : JsVal) (label : string) : Result Wrap :=
  let* record := requireRecord raw label in
  let* _ := rejectUnknownFields record MANIFEST_KEK_WRAP_FIELDS label [] in
  let* recoveryKeyId := parseDerivedWalletRecoveryKeyId (jget "recoveryKeyId" record) (label +:+ ".recoveryKeyId") in
  let* nonceB64u := parseEnvelopeNonceB64u (jget "nonceB64u" record) (label +:+ ".nonceB64u") in
  let* wrapped := parseEnvelopeCiphertextB64u (jget "wrappedManifestKekB64u" record)
                    (label +:+ ".wrappedManifestKekB64u") in
  let* aadHashB64u := parseDigestField (jget "aadHashB64u" record) (label +:+ ".aadHashB64u") in
  let* lifecycle := parseRecoveryCodeLifecycleState (jget "lifecycle" record) (label +:+ ".lifecycle") in
  Ok (mkWrap recoveryKeyId nonceB64u wrapped aadHashB64u lifecycle).

(** [values.map((value, index) => parse(value, `${label}[${index}]`))]. *)
Fixpoint parse_list {A} (parse : JsVal -> string -> Result A) (label : string) (index : Z) (values : list JsVal)
  : Result (list A) :=
  match values with
  | [] => Ok []
  | value :: values =>
      let* a := parse value (label +:+ "[" +:+ Z_to_string index +:+ "]") in
      let* rest := parse_list parse label (index + 1) values in
      Ok (a :: rest)
  end.

(** The check for duplicates, with a set of the identifiers seen before. *)
Fixpoint reject_duplicate_ids (label : string) (seen ids : list string) : Result unit :=
  match ids with
  | [] => Ok tt
  | id :: ids =>
      if shas id seen
      then Throw (JsError (label +:+ ".manifestKekWraps has duplicate recoveryKeyId " +:+ id))
      else reject_duplicate_ids label (sadd id seen) ids
  end.

Definition parse_set_walletId (record : JsVal) (expectedWalletId label : string) : Result string :=
  let* walletId :=
    match parseWalletId (jget "walletId" record) with
    | Ok w => Ok w
    | Throw e => Throw (JsError (label +:+ ".walletId " +:+ errorMessage e))
    end in
  let* _ := require (bool_decide (walletId = expectedWalletId))
              (label +:+ ".walletId is outside the authenticated wallet") in
  Ok walletId.

Definition require_array (v : JsVal) (message : string) : Result (list JsVal) :=
  match v with JArray l => Ok l | _ => Throw (JsError message) end.

Definition parse_set_wraps {A} (parse : JsVal -> string -> Result A) (record : JsVal) (label : string)
  : Result (list A) :=
  let* raws := require_array (jget "manifestKekWraps" record) (label +:+ ".manifestKekWraps must be an array") in
  let* _ := require (length raws =? EMAIL_OTP_RECOVERY_KEY_COUNT)%nat
    (label +:+ ".manifestKekWraps must carry exactly " +:+
     Z_to_string (Z.of_nat EMAIL_OTP_RECOVERY_KEY_COUNT) +:+ " recovery-code wraps") in
  parse_list parse (label +:+ ".manifestKekWraps") 0 raws.

Definition parseWalletRecoveryEnvelopeSetRecord (raw : JsVal) (expectedWalletId : string) (label : string)
  : Result EnvelopeSet :=
  let label := if nonempty label then label else "walletRecoveryEnvelopeSet" in
  let* record := requireRecord raw label in
  let* _ := require (is_string "wallet_recovery_envelope_set_v1" (jget "kind" record))
              (label +:+ ".kind must be wallet_recovery_envelope_set_v1") in
  let* _ := rejectUnknownFields record RECOVERY_SET_FIELDS label [] in
  let* walletId := parse_set_walletId record expectedWalletId label in
  let* manifestKekWraps := parse_set_wraps parseWalletRecoveryManifestKekWrap record label in
  let* _ := reject_duplicate_ids label [] (map recoveryKeyId manifestKekWraps) in
  let* rawEntries := require_array (jget "entries" record) (label +:+ ".entries must be an array") in
  let* _ := require (negb (length rawEntries =? 0)%nat) (label +:+ ".entries must cover at least one wallet key") in
  let* entries := parse_list parseWalletRecoveryEnvelopeEntry (label +:+ ".entries") 0 rawEntries in
  let* _ := require (length entries =? 1)%nat
    (label +:+ ".entries must contain exactly one wallet_custody_seed_v1 entry, found "
     +:+ Z_to_string (Z.of_nat (length entries))) in
  let* issuedAtMs := parseUnixMs (jget "issuedAtMs" record) (label +:+ ".issuedAtMs") in
  let* updatedAtMs := parseUnixMs (jget "updatedAtMs" record) (label +:+ ".updatedAtMs") in
  let* _ := require (negb (updatedAtMs <? issuedAtMs)) (label +:+ ".updatedAtMs cannot precede issuedAtMs") in
  Ok (mkEnvelopeSet walletId manifestKekWraps entries issuedAtMs updatedAtMs).

Definition parse_rotation_wrap (raw : JsVal) (label : string) : Result RotationWrap :=
  let* wrap := requireRecord raw label in
  let* _ := rejectUnknownFields wrap ROTATION_WRAP_FIELDS label [] in
  let* recoveryKeyId := parseDerivedWalletRecoveryKeyId (jget "recoveryKeyId" wrap) (label +:+ ".recoveryKeyId") in
  let* nonceB64u := parseEnvelopeNonceB64u (jget "nonceB64u" wrap) (label +:+ ".nonceB64u") in
  let* ciphertextB64u := parseEnvelopeCiphertextB64u (jget "ciphertextB64u" wrap) (label +:+ ".ciphertextB64u") in
  let* aadHashB64u := parseDigestField (jget "aadHashB64u" wrap) (label +:+ ".aadHashB64u") in
  Ok (mkRotationWrap recoveryKeyId nonceB64u ciphertextB64u aadHashB64u).

(** [Set.prototype.add] returns the set, which is truthy. *)
Definition set_add (seen : list string) (id : string) : JsVal * list string := (JObject [], sadd id seen).

(** The loop [for (const wrap of manifestKekWraps) if (!seen.add(id)) throw ...]. *)
Fixpoint reject_duplicate_rotation_ids (label : string) (seen ids : list string) : Result unit :=
  match ids with
  | [] => Ok tt
  | id :: ids =>
      let '(added, seen) := set_add seen id in
      if negb (truthy added) then Throw (JsError (label +:+ " contains duplicate recovery key ids"))
      else reject_duplicate_rotation_ids label seen ids
  end.

Definition parseWalletRecoverySetRotationWireV1 (raw : JsVal) (expectedWalletId : string) (label : string)
  : Result RotationWire :=
  let label := if nonempty label then label else "walletRecoverySetRotation" in
  let* record := requireRecord raw label in
  let* _ := rejectUnknownFields record ROTATION_SET_FIELDS label [] in
  let* walletId := parse_set_walletId record expectedWalletId label in
  let* manifestKekWraps := parse_set_wraps parse_rotation_wrap record label in
  let* _ := reject_duplicate_rotation_ids label [] (map rw_recoveryKeyId manifestKekWraps) in
  let entriesError := label +:+ ".entries must carry exactly one wallet custody seed entry" in
  let* rawEntries := require_array (jget "entries" record) entriesError in
  let* _ := require (length rawEntries =? 1)%nat entriesError in
  let* entry := parseWalletRecoveryEnvelopeEntry (nth 0 rawEntries JUndefined) (label +:+ ".entries[0]") in
  Ok (mkRotationWire walletId manifestKekWraps entry).

(** ** The acknowledgement of a backup *)

Record Acknowledgement : Type := mkAcknowledgement {
  ack_walletId : string;
  ack_issuedAtMs : NumVal;
  ack_acknowledgedAtMs : NumVal;
}.

Definition ack_json (a : Acknowledgement) : JsVal :=
  JObject [("kind", JString "wallet_recovery_backup_acknowledgement_v1"); ("walletId", JString (ack_walletId a));
           ("issuedAtMs", JNumber (ack_issuedAtMs a)); ("acknowledgedAtMs", JNumber (ack_acknowledgedAtMs a))].

(** [a < b] on positive finite numbers.  Fractions between the same integers have the
    same digits before the point, and are in the order of their texts (which have no
    exponent from a millionth on). *)
Definition num_lt (a b : NumVal) : bool :=
  match a, b with
  | NInt x, NInt y => x <? y
  | NInt x, NFraction y _ => x <=? y
  | NFraction x _, NInt y => x <? y
  | NFraction x p, NFraction y q => (x <? y) || (x =? y) && String.ltb p q
  | _, _ => false
  end.

Definition timestamp (value : JsVal) : option NumVal :=
  match value with
  | JNumber (NInt z) => if 0 <? z then Some (NInt z) else None
  | JNumber (NFraction floor printed) => if 0 <=? floor then Some (NFraction floor printed) else None
  | _ => None
  end.

Definition parseWalletRecoveryBackupAcknowledgementV1 (raw : JsVal) (expectedWalletId : string)
  : option Acknowledgement :=
  if negb (isPlainObject raw) then None
  else if negb (is_string "wallet_recovery_backup_acknowledgement_v1" (jget "kind" raw)) then None
  else
    let walletId := stringOrEmptyTrimmed (jget "walletId" raw) in
    if negb (nonempty walletId) then None
    else if negb (bool_decide (walletId = trim expectedWalletId)) then None
    else
      issuedAtMs ← timestamp (jget "issuedAtMs" raw);
      acknowledgedAtMs ← timestamp (jget "acknowledgedAtMs" raw);
      if num_lt acknowledgedAtMs issuedAtMs then None
      else Some (mkAcknowledgement walletId issuedAtMs acknowledgedAtMs).

Definition num_same (a b : NumVal) : bool := strict_eq (JNumber a) (JNumber b).

Definition walletRecoveryBackupIsOutstanding (setIssuedAtMs : Z) (acknowledgement : option Acknowledgement) : bool :=
  match acknowledgement with
  | None => true
  | Some a => negb (num_same (ack_issuedAtMs a) (NInt setIssuedAtMs))
  end.

Definition buildWalletRecoveryBackupAcknowledgementV1 (walletId : string) (issuedAtMs acknowledgedAtMs : NumVal)
  : Acknowledgement :=
  mkAcknowledgement (trim walletId) issuedAtMs acknowledgedAtMs.
