(* ===== verification/RecoverySetLaws.v ===== *)
(** * Laws of recovery sets

    Which records the parser of [RecoverySets] accepts, and how the transitions of a
    code act on them. *)

From S2P Require Import Prelude JsValues RecoveryKeys Base64 RecoverySets.
Local Open Scope Z_scope.
Local Open Scope js_scope.

(** ** Valid records *)

Definition is_ms (z : Z) : bool := (0 <? z) && (z <=? MAX_SAFE_INTEGER).

Definition is_reservation_id (s : string) : bool :=
  negb (String.length s =? 0)%nat && negb (512 <? String.length s)%nat && bool_decide (trim s = s)
  && negb (hasWhitespaceOrControlCharacters s).

Definition valid_lifecycle (l : RecoveryCodeLifecycleState) : bool :=
  is_ms (lifecycle_issuedAtMs l) &&
  match l with
  | CodeActive _ => true
  | CodeReserved i r at_ expires =>
      is_reservation_id r && is_ms at_ && is_ms expires && (i <=? at_) && (at_ <? expires)
  | CodeConsumed i r at_ => is_reservation_id r && is_ms at_ && (i <=? at_)
  | CodeRevoked i at_ => is_ms at_ && (i <=? at_)
  end.

(** A canonical base64url text of some bytes that [p] holds of. *)
Definition is_ok {A} (r : Result A) : bool := match r with Ok _ => true | Throw _ => false end.

Definition valid_nonce (s : string) : bool := is_ok (parseEnvelopeNonceB64u (JString s) "").
Definition valid_ciphertext (s : string) : bool := is_ok (parseEnvelopeCiphertextB64u (JString s) "").
Definition valid_digest (s : string) : bool := is_ok (parseDigestB64u (JString s)).

Definition valid_entry (e : Entry) : bool :=
  valid_nonce (entry_nonceB64u e) && valid_ciphertext (wrappedCustodySecretB64u e)
  && valid_digest (entry_aadHashB64u e).

Definition valid_wrap (w : Wrap) : bool :=
  is_recovery_key_id (recoveryKeyId w) && valid_nonce (wrap_nonceB64u w)
  && valid_ciphertext (wrappedManifestKekB64u w) && valid_digest (wrap_aadHashB64u w)
  && valid_lifecycle (lifecycle w).

Definition valid_walletId (w : string) : bool :=
  match parseWalletId (JString w) with Ok w' => bool_decide (w' = w) | Throw _ => false end.

Definition valid_set (r : EnvelopeSet) : bool :=
  valid_walletId (set_walletId r)
  && (length (manifestKekWraps r) =? EMAIL_OTP_RECOVERY_KEY_COUNT)%nat && forallb valid_wrap (manifestKekWraps r)
  && bool_decide (NoDup (map recoveryKeyId (manifestKekWraps r)))
  && (length (entries r) =? 1)%nat && forallb valid_entry (entries r)
  && is_ms (issuedAtMs r) && is_ms (updatedAtMs r) && (issuedAtMs r <=? updatedAtMs r).

(** ** Parsers and validity *)

Lemma requireCanonical_label v l1 l2 :
  is_ok (requireCanonicalBase64Url v l1) = is_ok (requireCanonicalBase64Url v l2) /\
  (forall b, requireCanonicalBase64Url v l1 = Ok b -> requireCanonicalBase64Url v l2 = Ok b).
Proof.
  unfold requireCanonicalBase64Url. destruct v; try done. destruct (negb _); [done|].
  destruct (base64UrlDecode s); [|done]. by case_bool_decide.
Qed.

Lemma nonce_parses s label : parseEnvelopeNonceB64u (JString s) label = Ok s <-> valid_nonce s = true.
Proof.
  unfold valid_nonce, parseEnvelopeNonceB64u. destruct (requireCanonical_label (JString s) label "") as [H1 H2].
  destruct (requireCanonicalBase64Url (JString s) label) as [b|] eqn:E.
  - rewrite (H2 b eq_refl). simpl. by case_match.
  - by destruct (requireCanonicalBase64Url (JString s) "").
Qed.

Lemma ciphertext_parses s label : parseEnvelopeCiphertextB64u (JString s) label = Ok s <-> valid_ciphertext s = true.
Proof.
  unfold valid_ciphertext, parseEnvelopeCiphertextB64u. destruct (requireCanonical_label (JString s) label "") as [H1 H2].
  destruct (requireCanonicalBase64Url (JString s) label) as [b|] eqn:E.
  - rewrite (H2 b eq_refl). simpl. by case_match.
  - by destruct (requireCanonicalBase64Url (JString s) "").
Qed.

Lemma digest_parses s label : parseDigestField (JString s) label = Ok s <-> valid_digest s = true.
Proof.
  unfold valid_digest, parseDigestField. destruct (parseDigestB64u (JString s)) as [t|] eqn:E; [|done]. simpl.
  unfold parseDigestB64u in E. destruct (negb _); [done|]. destruct (base64UrlDecode s); [|done].
  destruct (_ || _); [done|]. by simplify_eq.
Qed.

Lemma reservationId_parses v s :
  parseRecoveryCodeReservationId v = Ok s <-> v = JString s /\ is_reservation_id s = true.
Proof.
  unfold parseRecoveryCodeReservationId, is_reservation_id. split.
  - destruct v as [| | | | |t| |]; try done. destruct (_ || _) eqn:E; [done|]. intros [= <-]. split; [done|].
    apply orb_false_iff in E as [[[-> ->]%orb_false_iff Ht]%orb_false_iff ->].
    apply negb_false_iff in Ht. by rewrite Ht.
  - intros [-> H]. apply andb_true_iff in H as [[[H1 H2]%andb_true_iff H3]%andb_true_iff H4].
    apply negb_true_iff in H1, H2, H4. by rewrite H1, H2, H3, H4.
Qed.

Lemma unixMs_parses v label z : parseUnixMs v label = Ok z <-> v = JInt z /\ is_ms z = true.
Proof. rewrite parseUnixMs_spec. unfold is_ms. split; intros [-> H]; (split; [done|lia]). Qed.

Lemma keyId_parses v label s :
  parseDerivedWalletRecoveryKeyId v label = Ok s <-> v = JString s /\ is_recovery_key_id s = true.
Proof.
  unfold parseDerivedWalletRecoveryKeyId. split.
  - destruct v; try done. destruct (is_recovery_key_id _) eqn:E; [|done]. intros [= <-]. done.
  - by intros [-> ->].
Qed.

Lemma nonce_spec v label s : parseEnvelopeNonceB64u v label = Ok s <-> v = JString s /\ valid_nonce s = true.
Proof.
  split; [intros H; pose proof (parseEnvelopeNonceB64u_string _ _ _ H) as ->; split; [done|]|intros [-> ?]];
    by eapply nonce_parses.
Qed.

Lemma ciphertext_spec v label s :
  parseEnvelopeCiphertextB64u v label = Ok s <-> v = JString s /\ valid_ciphertext s = true.
Proof.
  split; [intros H; pose proof (parseEnvelopeCiphertextB64u_string _ _ _ H) as ->; split; [done|]|intros [-> ?]];
    by eapply ciphertext_parses.
Qed.

Lemma digest_spec v label s : parseDigestField v label = Ok s <-> v = JString s /\ valid_digest s = true.
Proof.
  split; [intros H; pose proof (parseDigestField_string _ _ _ H) as ->; split; [done|]|intros [-> ?]];
    by eapply digest_parses.
Qed.

(** ** Steps of a parser *)

Lemma require_ok b m u : require b m = Ok u <-> b = true.
Proof. destruct b, u; simpl; split; congruence. Qed.

Lemma requireRecord_ok v label r : requireRecord v label = Ok r <-> r = v /\ isPlainObject v = true.
Proof. unfold requireRecord. destruct (isPlainObject v); naive_solver. Qed.

Lemma require_array_ok v m l : require_array v m = Ok l <-> v = JArray l.
Proof. destruct v; simpl; split; try done; naive_solver. Qed.

Lemma is_string_ok s v : is_string s v = true <-> v = JString s.
Proof.
  destruct v; simpl; try done. rewrite bool_decide_eq_true. split; [by intros ->|by intros [= ->]].
Qed.

(** One step of a parse that succeeded. *)
Ltac parse_step H :=
  lazymatch type of H with
  | result_bind _ _ = Ok _ =>
      let a := fresh "a" in let E := fresh "E" in
      apply result_bind_ok in H as (a & E & H);
      first
        [ apply require_ok in E; clear a
        | apply requireRecord_ok in E; let Ho := fresh "Ho" in destruct E as [-> Ho]
        | apply require_array_ok in E
        | apply nonce_spec in E; let V := fresh "V" in destruct E as [E V]
        | apply ciphertext_spec in E; let V := fresh "V" in destruct E as [E V]
        | apply digest_spec in E; let V := fresh "V" in destruct E as [E V]
        | apply keyId_parses in E; let V := fresh "V" in destruct E as [E V]
        | apply reservationId_parses in E; let V := fresh "V" in destruct E as [E V]
        | apply unixMs_parses in E; let V := fresh "V" in destruct E as [E V]
        | idtac ]
  end.
Ltac parse_steps H := repeat parse_step H; cbv beta zeta in H.

(** One step of a parse that is to succeed. *)
Ltac parse_forward :=
  repeat (apply result_bind_ok; eexists; split;
    [first
      [ apply requireRecord_ok; by split
      | apply (require_ok _ _ tt); assumption
      | apply (require_ok _ _ tt); simpl; first [by auto|lia|by rewrite ?bool_decide_true]
      | apply require_array_ok; reflexivity
      | apply nonce_spec; by split
      | apply ciphertext_spec; by split
      | apply digest_spec; by split
      | apply keyId_parses; by split
      | apply reservationId_parses; by split
      | apply unixMs_parses; by split
      | eassumption
      | reflexivity ]
    | cbv beta zeta]).

Lemma reservation_id_nonempty s : is_reservation_id s = true -> nonempty s = true.
Proof. by destruct s. Qed.

(** Tests on closed values. *)
Ltac eval_ifs :=
  repeat match goal with
  | |- (if ?b then _ else _) = _ => let v := eval vm_compute in b in change b with v; cbv iota
  end.

Lemma entry_parses v label e :
  parseWalletRecoveryEnvelopeEntry v label = Ok e -> valid_entry e = true.
Proof.
  unfold parseWalletRecoveryEnvelopeEntry. intros H. parse_steps H. injection H as <-.
  unfold valid_entry. simpl. by rewrite V, V0, V1.
Qed.

Lemma entry_roundtrip e label : valid_entry e = true -> parseWalletRecoveryEnvelopeEntry (entry_json e) label = Ok e.
Proof.
  unfold valid_entry. intros [[V V0]%andb_true_iff V1]%andb_true_iff. unfold parseWalletRecoveryEnvelopeEntry.
  parse_forward. by destruct e.
Qed.

Lemma lifecycle_parses v label l :
  parseRecoveryCodeLifecycleState v label = Ok l -> valid_lifecycle l = true.
Proof.
  unfold parseRecoveryCodeLifecycleState. intros H. parse_steps H.
  destruct (is_string "active" _); [|destruct (is_string "reserved" _);
    [|destruct (is_string "consumed" _); [|destruct (is_string "revoked" _); [|done]]]].
  - parse_steps H. injection H as <-. unfold valid_lifecycle. simpl. by rewrite V.
  - unfold parse_reserved in H. parse_steps H. injection H as <-. unfold valid_lifecycle. simpl.
    rewrite V, V0, V1, V2. simpl. lia.
  - unfold parse_consumed in H. parse_steps H. injection H as <-. unfold valid_lifecycle. simpl.
    rewrite V, V0, V1. simpl. lia.
  - unfold parse_revoked in H. parse_steps H. injection H as <-. unfold valid_lifecycle. simpl.
    rewrite V, V0. simpl. lia.
Qed.

Lemma lifecycle_roundtrip l label : valid_lifecycle l = true ->
  parseRecoveryCodeLifecycleState (lifecycle_json l) label = Ok l.
Proof.
  unfold valid_lifecycle. intros [Hi H]%andb_true_iff. unfold parseRecoveryCodeLifecycleState.
  destruct l; simpl in Hi, H; unfold lifecycle_json.
  - parse_forward. eval_ifs. parse_forward. reflexivity.
  - apply andb_true_iff in H as [[[[? ?]%andb_true_iff ?]%andb_true_iff ?]%andb_true_iff ?].
    pose proof (reservation_id_nonempty reservationId). parse_forward. eval_ifs. unfold parse_reserved. parse_forward. reflexivity.
  - apply andb_true_iff in H as [[? ?]%andb_true_iff ?].
    pose proof (reservation_id_nonempty reservationId). parse_forward. eval_ifs. unfold parse_consumed. parse_forward. reflexivity.
  - apply andb_true_iff in H as [? ?].
    parse_forward. eval_ifs. unfold parse_revoked. parse_forward. reflexivity.
Qed.

Lemma wrap_parses v label w : parseWalletRecoveryManifestKekWrap v label = Ok w -> valid_wrap w = true.
Proof.
  unfold parseWalletRecoveryManifestKekWrap. intros H. parse_steps H. injection H as <-.
  apply lifecycle_parses in E4. unfold valid_wrap. simpl. by rewrite V, V0, V1, V2, E4.
Qed.

Lemma wrap_roundtrip w label : valid_wrap w = true -> parseWalletRecoveryManifestKekWrap (wrap_json w) label = Ok w.
Proof.
  unfold valid_wrap. intros [[[[V V0]%andb_true_iff V1]%andb_true_iff V2]%andb_true_iff V3]%andb_true_iff.
  unfold parseWalletRecoveryManifestKekWrap.
  pose proof (lifecycle_roundtrip _ (label +:+ ".lifecycle") V3).
  parse_forward. by destruct w.
Qed.

Lemma list_parses {A} (parse : JsVal -> string -> Result A) (valid : A -> bool) label :
  (forall v label a, parse v label = Ok a -> valid a = true) ->
  forall vs i l, parse_list parse label i vs = Ok l -> forallb valid l = true /\ length l = length vs.
Proof.
  intros Hp. induction vs as [|v vs IH]; intros i l H; simpl in H; [by injection H as <-|].
  parse_steps H. injection H as <-. apply Hp in E. apply IH in E0 as [E0 El]. simpl. by rewrite E, E0, El.
Qed.

Lemma list_roundtrip {A} (parse : JsVal -> string -> Result A) (json : A -> JsVal) (valid : A -> bool) label :
  (forall a label, valid a = true -> parse (json a) label = Ok a) ->
  forall l i, forallb valid l = true -> parse_list parse label i (map json l) = Ok l.
Proof.
  intros Hp. induction l as [|a l IH]; intros i H; simpl in *; [done|].
  apply andb_true_iff in H as [Ha Hl]. by rewrite (Hp _ _ Ha), (IH _ Hl).
Qed.

(** The check for duplicates refuses exactly the lists with one. *)
Lemma duplicate_ids label ids : forall seen u,
  reject_duplicate_ids label seen ids = Ok u <-> NoDup ids /\ (forall id, id ∈ ids -> id ∉ seen).
Proof.
  induction ids as [|id ids IH]; intros seen []; simpl.
  { split; [|done]. split; [constructor|set_solver]. }
  unfold shas. case_bool_decide as Hs.
  - split; [done|]. intros [_ H]. exfalso. eapply H; [|exact Hs]. set_solver.
  - rewrite IH, NoDup_cons. split.
    + intros [Hnd H]. split_and!; [|done|].
      * intros Hin. apply (H id Hin), elem_sadd. by left.
      * intros id' [->|Hin]%elem_of_cons; [done|]. intros ?. apply (H id' Hin), elem_sadd. by right.
    + intros [[Hid Hnd] H]. split; [done|]. intros id' Hin [->|?]%elem_sadd; [done|]. apply (H id'); [set_solver|done].
Qed.

Lemma walletId_parses record w label r :
  parse_set_walletId record w label = Ok r -> r = w /\ valid_walletId w = true.
Proof.
  unfold parse_set_walletId. intros H. parse_steps H. injection H as <-.
  apply bool_decide_eq_true in E0 as ->. split; [done|]. unfold valid_walletId.
  destruct (parseWalletId (jget "walletId" record)) as [w'|] eqn:Hw; [|done]. injection E as ->.
  destruct (toWalletId_inv _ _ Hw) as [Hn Hs]. clear Hw.
  enough (parseWalletId (JString w) = Ok w) as -> by by rewrite bool_decide_true.
  by apply (toWalletId_ok w).
Qed.

(** The record of a set is accepted exactly when it is valid and the caller's wallet's:
    a parse gives a valid set of that wallet, and the object that is stored for a valid
    set parses to that set. *)
Lemma set_parses v w label r :
  parseWalletRecoveryEnvelopeSetRecord v w label = Ok r -> valid_set r = true /\ set_walletId r = w.
Proof.
  unfold parseWalletRecoveryEnvelopeSetRecord. cbv zeta. intros H. parse_steps H. injection H as <-.
  apply walletId_parses in E1 as [-> Hw].
  unfold parse_set_wraps in E2. parse_steps E2.
  apply (list_parses _ valid_wrap) in E2 as [E2 El]; [|apply wrap_parses].
  apply (list_parses _ valid_entry) in E6 as [E6 _]; [|apply entry_parses].
  apply duplicate_ids in E3 as [E3 _].
  split; [|done]. unfold valid_set. simpl. rewrite Hw, El, E11, E2, E6, E7, V, V0, bool_decide_true by done.
  simpl. lia.
Qed.

Lemma set_roundtrip r label : valid_set r = true ->
  parseWalletRecoveryEnvelopeSetRecord (set_json r) (set_walletId r) label = Ok r.
Proof.
  unfold valid_set. intros H.
  apply andb_true_iff in H as [[[[[[[[Hw Hn]%andb_true_iff Hv]%andb_true_iff Hd]%andb_true_iff Hl]%andb_true_iff
    He]%andb_true_iff Hi]%andb_true_iff Hu]%andb_true_iff Hle].
  unfold parseWalletRecoveryEnvelopeSetRecord. cbv zeta.
  set (l := if nonempty label then label else _).
  assert (parse_set_walletId (set_json r) (set_walletId r) l = Ok (set_walletId r)) as HW.
  { unfold parse_set_walletId. change (jget "walletId" (set_json r)) with (JString (set_walletId r)).
    unfold valid_walletId in Hw. destruct (parseWalletId _) as [w|]; [|done].
    apply bool_decide_eq_true in Hw as ->. simpl. by rewrite bool_decide_true. }
  assert (parse_set_wraps parseWalletRecoveryManifestKekWrap (set_json r) l = Ok (manifestKekWraps r)) as HWr.
  { unfold parse_set_wraps. assert ((length (map wrap_json (manifestKekWraps r)) =? EMAIL_OTP_RECOVERY_KEY_COUNT)%nat = true)
      by (by rewrite length_map).
    parse_forward. apply (list_roundtrip _ wrap_json valid_wrap); [apply wrap_roundtrip|done]. }
  assert (parse_list parseWalletRecoveryEnvelopeEntry (l +:+ ".entries") 0 (map entry_json (entries r)) = Ok (entries r)) as HE.
  { apply (list_roundtrip _ entry_json valid_entry); [apply entry_roundtrip|done]. }
  assert (reject_duplicate_ids l [] (map recoveryKeyId (manifestKekWraps r)) = Ok tt) as HD.
  { apply duplicate_ids. split; [by apply bool_decide_eq_true in Hd|set_solver]. }
  assert (negb (length (map entry_json (entries r)) =? 0)%nat = true) by (by destruct (entries r)).
  parse_forward. by destruct r.
Qed.

(** A parse of the object for a record gives no other record. *)
Lemma entry_json_inv e e' label : parseWalletRecoveryEnvelopeEntry (entry_json e) label = Ok e' -> e' = e.
Proof.
  unfold parseWalletRecoveryEnvelopeEntry. intros H. parse_steps H. injection H as <-.
  injection E1 as <-. injection E2 as <-. injection E3 as <-. by destruct e.
Qed.

Lemma lifecycle_json_inv l l' label : parseRecoveryCodeLifecycleState (lifecycle_json l) label = Ok l' -> l' = l.
Proof.
  unfold parseRecoveryCodeLifecycleState. intros H. parse_steps H. unfold lifecycle_json in *.
  destruct l; injection E0 as <-;
    repeat match type of H with
    | (if ?b then _ else _) = _ => let v := eval vm_compute in b in change b with v in H; cbv iota in H
    end;
    unfold parse_reserved, parse_consumed, parse_revoked in H; parse_steps H; injection H as <-;
    repeat match goal with E : jget _ _ = _ |- _ => injection E as <- end; done.
Qed.

Lemma wrap_json_inv w w' label : parseWalletRecoveryManifestKekWrap (wrap_json w) label = Ok w' -> w' = w.
Proof.
  unfold parseWalletRecoveryManifestKekWrap. intros H. parse_steps H. injection H as <-.
  injection E0 as <-. injection E1 as <-. injection E2 as <-. injection E3 as <-.
  apply lifecycle_json_inv in E4 as ->. by destruct w.
Qed.

Lemma list_json_inv {A} (parse : JsVal -> string -> Result A) (json : A -> JsVal) label :
  (forall a a' label, parse (json a) label = Ok a' -> a' = a) ->
  forall l i l', parse_list parse label i (map json l) = Ok l' -> l' = l.
Proof.
  intros Hp. induction l as [|a l IH]; intros i l' H; simpl in H; [by injection H as <-|].
  parse_steps H. injection H as <-. apply Hp in E as ->. by apply IH in E0 as ->.
Qed.

Lemma set_json_inv r w label r' : valid_walletId (set_walletId r) = true ->
  parseWalletRecoveryEnvelopeSetRecord (set_json r) w label = Ok r' -> r' = r /\ set_walletId r = w.
Proof.
  intros Hw H. destruct (set_parses _ _ _ _ H) as [_ Hw']. revert H.
  unfold parseWalletRecoveryEnvelopeSetRecord. cbv zeta. intros H. parse_steps H. injection H as <-.
  simpl in Hw'. subst a0. unfold parse_set_wraps in E2. parse_steps E2.
  injection E11 as <-. apply (list_json_inv _ wrap_json) in E2 as ->; [|apply wrap_json_inv].
  injection E4 as <-. apply (list_json_inv _ entry_json) in E6 as ->; [|apply entry_json_inv].
  injection E8 as <-. injection E9 as <-.
  assert (set_walletId r = w) as <-; [|split; [by destruct r|done]].
  unfold parse_set_walletId in E1.
  change (jget "walletId" (set_json r)) with (JString (set_walletId r)) in E1.
  unfold valid_walletId in Hw. destruct (parseWalletId (JString (set_walletId r))) as [w'|]; [|done].
  apply bool_decide_eq_true in Hw as ->. simpl in E1. by case_bool_decide.
Qed.

(** ** Acknowledgements *)

Definition is_timestamp (n : NumVal) : bool :=
  match timestamp (JNumber n) with Some _ => true | None => false end.

(** A trimmed wallet identifier, and an acknowledgement that does not precede the
    issuance. *)
Definition valid_acknowledgement (a : Acknowledgement) : bool :=
  nonempty (ack_walletId a) && bool_decide (trim (ack_walletId a) = ack_walletId a) &&
  is_timestamp (ack_issuedAtMs a) && is_timestamp (ack_acknowledgedAtMs a) &&
  negb (num_lt (ack_acknowledgedAtMs a) (ack_issuedAtMs a)).

Lemma timestamp_ok v n : timestamp v = Some n -> v = JNumber n /\ is_timestamp n = true.
Proof.
  unfold is_timestamp. intros H. enough (v = JNumber n) as -> by by rewrite H.
  unfold timestamp in H. by repeat case_match; simplify_eq.
Qed.

Lemma timestamp_number n : is_timestamp n = true -> timestamp (JNumber n) = Some n.
Proof.
  unfold is_timestamp. destruct (timestamp (JNumber n)) as [m|] eqn:H; [|done]. intros _.
  by apply timestamp_ok in H as [[= ->] _].
Qed.

Lemma acknowledgement_parses v w a :
  parseWalletRecoveryBackupAcknowledgementV1 v w = Some a ->
  valid_acknowledgement a = true /\ ack_walletId a = trim w.
Proof.
  unfold parseWalletRecoveryBackupAcknowledgementV1. destruct (negb _); [done|]. destruct (negb _); [done|].
  cbv zeta. set (id := stringOrEmptyTrimmed _). assert (trim id = id) as Hid.
  { subst id. unfold stringOrEmptyTrimmed. by rewrite trim_idem. }
  destruct (nonempty id) eqn:Hn; [|done]. case_bool_decide as Hw; [|done]. cbn [negb].
  destruct (timestamp (jget "issuedAtMs" v)) as [i|] eqn:Hi; [|done].
  destruct (timestamp (jget "acknowledgedAtMs" v)) as [k|] eqn:Hk; [|done]. cbn [mbind option_bind].
  apply timestamp_ok in Hi as [_ Hi], Hk as [_ Hk].
  destruct (num_lt k i) eqn:Hlt; [done|]. intros [= <-]. split; [|done].
  unfold valid_acknowledgement. simpl. by rewrite Hn, Hi, Hk, Hlt, bool_decide_true.
Qed.

Lemma acknowledgement_roundtrip a w :
  valid_acknowledgement a = true -> trim w = ack_walletId a ->
  parseWalletRecoveryBackupAcknowledgementV1 (ack_json a) w = Some a.
Proof.
  intros H Hw. unfold valid_acknowledgement in H.
  apply andb_true_iff in H as [[[[Hn Ht]%andb_true_iff Hi]%andb_true_iff Hk]%andb_true_iff Hlt].
  apply bool_decide_eq_true in Ht. apply timestamp_number in Hi, Hk. apply negb_true_iff in Hlt.
  unfold parseWalletRecoveryBackupAcknowledgementV1.
  assert (stringOrEmptyTrimmed (jget "walletId" (ack_json a)) = ack_walletId a) as ->.
  { change (jget "walletId" (ack_json a)) with (JString (ack_walletId a)). unfold stringOrEmptyTrimmed.
    simpl. unfold nonempty in Hn. by destruct (ack_walletId a). }
  change (jget "issuedAtMs" (ack_json a)) with (JNumber (ack_issuedAtMs a)).
  change (jget "acknowledgedAtMs" (ack_json a)) with (JNumber (ack_acknowledgedAtMs a)).
  rewrite Hn, Hi, Hk, Hw, bool_decide_true by done. simpl. rewrite Hlt. by destruct a.
Qed.

(** C31. What is stored for a valid recovery set (ten wraps with distinct key
    identifiers, one seed entry, canonical texts, timestamps in order) reads back as that
    set, and what is stored for another set (under a well-formed wallet identifier) is
    refused, as it is for another wallet.  A
    value that is accepted gives a valid set of the wallet it is read for, which reads
    back when it is stored in its turn.  The same holds of the acknowledgements of a
    backup. *)
Theorem recovery_set_roundtrip :
  (forall r label, valid_set r = true -> parseWalletRecoveryEnvelopeSetRecord (set_json r) (set_walletId r) label = Ok r) /\
  (forall r w label r', valid_walletId (set_walletId r) = true ->
     parseWalletRecoveryEnvelopeSetRecord (set_json r) w label = Ok r' -> r' = r /\ valid_set r = true /\ set_walletId r = w) /\
  (forall v w label r, parseWalletRecoveryEnvelopeSetRecord v w label = Ok r ->
     valid_set r = true /\ set_walletId r = w /\
     forall label', parseWalletRecoveryEnvelopeSetRecord (set_json r) w label' = Ok r) /\
  (forall a w, valid_acknowledgement a = true -> trim w = ack_walletId a ->
     parseWalletRecoveryBackupAcknowledgementV1 (ack_json a) w = Some a) /\
  (forall v w a, parseWalletRecoveryBackupAcknowledgementV1 v w = Some a ->
     valid_acknowledgement a = true /\ ack_walletId a = trim w /\
     parseWalletRecoveryBackupAcknowledgementV1 (ack_json a) w = Some a).
Proof.
  split_and!; [apply set_roundtrip| | |apply acknowledgement_roundtrip|].
  - intros r w label r' Hw H. destruct (set_json_inv _ _ _ _ Hw H) as [-> <-]. split_and!; [done| |done].
    by apply set_parses in H as [? _].
  - intros v w label r H. apply set_parses in H as [H <-]. split_and!; [done..|]. intros label'. by apply set_roundtrip.
  - intros v w a H. apply acknowledgement_parses in H as [H Hw]. split_and!; [done..|]. by apply acknowledgement_roundtrip.
Qed.

(** ** Transitions *)

(** A hold on a valid code is a valid code, when the clock is not behind its issuance. *)
Lemma reserve_valid l rid now ttl l' :
  reserveRecoveryCode l rid now ttl = inl l' -> valid_lifecycle l = true -> is_reservation_id rid = true ->
  is_ms now = true -> is_ms (now + ttl) = true ->
  valid_lifecycle l' = (lifecycle_issuedAtMs l <=? now).
Proof.
  intros H Hv Hr Hn Ht. unfold valid_lifecycle in *.
  apply andb_true_iff in Hv as [Hi _].
  assert (0 < ttl /\ l' = CodeReserved (lifecycle_issuedAtMs l) rid now (now + ttl)) as [Hp ->].
  { unfold reserveRecoveryCode in H.
    destruct l; try done; (destruct (Z.leb_spec ttl 0); [done|]); (split; [lia|]);
      [by injection H as <-|]. destruct (_ && _); [done|]. by injection H as <-. }
  simpl. rewrite Hi, Hr, Hn, Ht. simpl. lia.
Qed.

Lemma consume_valid l rid now l' :
  consumeReservedRecoveryCode l rid now = inl l' -> valid_lifecycle l = true -> is_ms now = true ->
  valid_lifecycle l' = (lifecycle_issuedAtMs l <=? now).
Proof.
  intros H Hv Hn. unfold valid_lifecycle in *. apply andb_true_iff in Hv as [Hi Hl].
  destruct l as [|i r at_ expires| |]; try done. unfold consumeReservedRecoveryCode in H.
  case_bool_decide; [|done]. subst r. simpl in H. destruct (Z.leb_spec expires now); [done|].
  injection H as <-. simpl in *. rewrite Hi, Hn.
  apply andb_true_iff in Hl as [[[[-> _]%andb_true_iff _]%andb_true_iff _]%andb_true_iff _]. done.
Qed.

(** The loop that is to refuse a rotation with a repeated key identifier refuses none. *)
Lemma rotation_ids_never_refused label ids : forall seen,
  reject_duplicate_rotation_ids label seen ids = Ok tt.
Proof. induction ids as [|id ids IH]; intros seen; [done|]. apply IH. Qed.
