(* ===== verification/RecoveryStore.v ===== *)
(** * The store of recovery sets

    The recovery part of
    [packages/wallet-server/src/router/cloudflare/d1/passkeyCustody/d1WalletCustodyCommitStore.ts]:
    a wallet's recovery set, the acknowledgement of its backup and the custody envelopes
    are versioned records under one prefix, and the locators of its codes are rows of
    their own table.  Custody envelopes are of any type with an encoder, a parser and
    the parts of their key; the tables that are not modelled are of any type [Y], and
    the statements on them are given. *)

From S2P Require Import Prelude JsValues IdbTables RecoveryKeys Base64 VersionedRecords RecoverySets.
Local Open Scope Z_scope.
Local Open Scope js_scope.

(** ** The tables *)

(** A row of [wallet_recovery_code_locators]. *)
Record Locator : Type := mkLocator {
  locatorB64u : string;
  loc_walletId : string;
  loc_recoveryKeyId : string;
}.

#[global] Instance Locator_eq_dec : EqDecision Locator.
Proof. solve_decision. Defined.

Record Tables (Y : Type) : Type := mkTables { locators : list Locator; rest : Y }.
Arguments mkTables {Y} _ _.
Arguments locators {Y} _.
Arguments rest {Y} _.

(** A statement on one of the other tables. *)
Definition on_rest {Y} (s : Y -> Z -> string + Y * Z) : Statement (Tables Y) := fun db changes =>
  match s (rest (others db)) changes with
  | inl e => inl e
  | inr (y, n) => inr (mkD1 (records db) (mkTables (locators (others db)) y), n)
  end.

Definition on_locators {Y} (f : list Locator -> string + list Locator * Z) : Statement (Tables Y) := fun db _ =>
  match f (locators (others db)) with
  | inl e => inl e
  | inr (l, n) => inr (mkD1 (records db) (mkTables l (rest (others db))), n)
  end.

Definition locator_unique_error : string := "UNIQUE constraint failed: wallet_recovery_code_locators.locator_b64u".
Definition locator_key_unique_error : string := "UNIQUE constraint failed: wallet_recovery_code_locators.recovery_key_id".
Definition locator_check_error : string := "CHECK constraint failed: length(locator_b64u) > 0".

Definition of_key (walletId recoveryKeyId : string) (l : Locator) : bool :=
  bool_decide (loc_walletId l = walletId) && bool_decide (loc_recoveryKeyId l = recoveryKeyId).

(** [prepareRecoveryCodeLocatorInsertStatement], with the constraints of the table. *)
Definition insert_locator (l : Locator) (rows : list Locator) : string + list Locator * Z :=
  if negb (nonempty (locatorB64u l) && nonempty (loc_walletId l) && nonempty (loc_recoveryKeyId l))
  then inl locator_check_error
  else if existsb (fun r => bool_decide (locatorB64u r = locatorB64u l)) rows then inl locator_unique_error
  else if existsb (of_key (loc_walletId l) (loc_recoveryKeyId l)) rows then inl locator_key_unique_error
  else inr (rows ++ [l], 1).

(** [prepareRecoveryCodeLocatorsDeleteForWalletStatement]. *)
Definition delete_locators (walletId : string) (rows : list Locator) : string + list Locator * Z :=
  let kept := List.filter (fun r => negb (bool_decide (loc_walletId r = walletId))) rows in
  inr (kept, Z.of_nat (length rows - length kept)).

(** [prepareRecoveryCodeLocatorCollisionGuardStatement]: inserts again the rows that
    have one of the locators. *)
Definition collision_guard (ls : list Locator) (rows : list Locator) : string + list Locator * Z :=
  if existsb (fun r => existsb (fun l => bool_decide (locatorB64u r = locatorB64u l)) ls) rows
  then inl locator_unique_error else inr (rows, 0).

Definition collision_guard_statement {Y} (ls : list Locator) : Result (Statement (Tables Y)) :=
  match ls with
  | [] => Throw (JsError "recovery code locator collision guard requires locators")
  | _ => Ok (on_locators (collision_guard ls))
  end.

(** [prepareRecoveryCodeLocatorConsumeStatement]: leaves the rows and counts them. *)
Definition consume_locator (walletId recoveryKeyId : string) (rows : list Locator) : string + list Locator * Z :=
  inr (rows, Z.of_nat (length (List.filter (of_key walletId recoveryKeyId) rows))).

Definition isRecoveryCodeLocatorCollision (error : Exn) : bool :=
  let message := errorMessage error in
  includes "wallet_recovery_code_locators" message &&
  (includes "unique" (to_lower message) || includes "constraint" (to_lower message)).

(** ** The records *)

Inductive CommitRecord (E : Type) : Type :=
| SetRecord (r : EnvelopeSet)
| AckRecord (a : Acknowledgement)
| EnvelopeRecord (e : E).
Arguments SetRecord {E} _.
Arguments AckRecord {E} _.
Arguments EnvelopeRecord {E} _.

Definition PASSKEY_ENVELOPE_KEY_PREFIX : string := "passkey-envelope:".

Definition walletRecoveryEnvelopeSetRecordKey (walletId : string) : string := "recovery-set:" +:+ walletId.
Definition walletRecoveryBackupAcknowledgementRecordKey (walletId : string) : string :=
  "wallet-recovery-backup-ack/" +:+ walletId.

Definition json_text (v : JsVal) : string := default EmptyString (JSON_stringify v).

Section Store.
Context {E Y : Type} (encodeEnvelope : E -> JsVal) (parseEnvelope : JsVal -> option E)
  (envelopeKeyParts : E -> list string).
Notation DB := (D1 (Tables Y)).
Implicit Types (f : Fault) (walletId : string).

(** [passkeyCustodyEnvelopeRecordKey]. *)
Definition envelopeKey (e : E) : string := json_text (JArray (map JString (envelopeKeyParts e))).

Definition encodeRecord (record : CommitRecord E) : JsVal :=
  match record with
  | SetRecord r => set_json r
  | AckRecord a => ack_json a
  | EnvelopeRecord e => encodeEnvelope e
  end.

Definition parseRecordOrNull (raw : JsVal) : option (CommitRecord E) :=
  if negb (isPlainObject raw) then None
  else
    let kind := jget "kind" raw in
    if is_string "wallet_recovery_envelope_set_v1" kind then
      match parseWalletId (jget "walletId" raw) with
      | Throw _ => None
      | Ok walletId =>
          match parseWalletRecoveryEnvelopeSetRecord raw walletId "walletRecoveryEnvelopeSet" with
          | Ok r => Some (SetRecord r)
          | Throw _ => None
          end
      end
    else if is_string "wallet_recovery_backup_acknowledgement_v1" kind then
      match parseWalletId (jget "walletId" raw) with
      | Throw _ => None
      | Ok walletId => AckRecord <$> parseWalletRecoveryBackupAcknowledgementV1 raw walletId
      end
    else EnvelopeRecord <$> parseEnvelope raw.

Definition readRecord f (key : string) : M DB (ReadResult (CommitRecord E)) :=
  read parseRecordOrNull PASSKEY_ENVELOPE_KEY_PREFIX f key.

Definition readRecoveryEnvelopeSet f walletId : M DB (option (EnvelopeSet * string)) :=
  result <- readRecord f (walletRecoveryEnvelopeSetRecordKey walletId) ;;
  match result with
  | Present (SetRecord r) version =>
      match parseWalletRecoveryEnvelopeSetRecord (set_json r) walletId "walletRecoveryEnvelopeSet" with
      | Ok record => ret (Some (record, version))
      | Throw _ => ret None
      end
  | _ => ret None
  end.

Definition readBackupAcknowledgement f walletId : M DB (option Acknowledgement) :=
  result <- readRecord f (walletRecoveryBackupAcknowledgementRecordKey walletId) ;;
  match result with
  | Missing => ret None
  | Present value _ => ret (parseWalletRecoveryBackupAcknowledgementV1 (encodeRecord value) walletId)
  end.

(** What a write came to: the new version or [None] for a conflict. *)
Definition writeRecoveryEnvelopeSet f (record : EnvelopeSet) (expectedStoreVersion : string) : M DB (option string) :=
  result <- put encodeRecord PASSKEY_ENVELOPE_KEY_PREFIX f
              (walletRecoveryEnvelopeSetRecordKey (set_walletId record)) (SetRecord record) (Some expectedStoreVersion) ;;
  ret (match result with Stored version => Some version | VersionMismatch => None end).

(** [writeBackupAcknowledgement]: whether it was stored. *)
Definition writeBackupAcknowledgement (readFault f : Fault) (record : Acknowledgement) : M DB bool :=
  walletId <- lift (parseWalletId (JString (ack_walletId record))) ;;
  let key := walletRecoveryBackupAcknowledgementRecordKey walletId in
  existing <- readRecord readFault key ;;
  result <- put encodeRecord PASSKEY_ENVELOPE_KEY_PREFIX f key (AckRecord record)
              (match existing with Missing => None | Present _ version => Some version end) ;;
  ret (match result with Stored _ => true | VersionMismatch => false end).

(** ** Locators *)

Definition parse_locator_row (row : Locator) : option Locator :=
  match parseWalletId (JString (loc_walletId row)), parseDigestB64u (JString (locatorB64u row)),
        parseDerivedWalletRecoveryKeyId (JString (loc_recoveryKeyId row)) "recoveryKeyId" with
  | Ok walletId, Ok locator, Ok recoveryKeyId => Some (mkLocator locator walletId recoveryKeyId)
  | _, _, _ => None
  end.

(** A statement that only reads. *)
Definition query {A} f (read : DB -> A) : M DB A :=
  match f with NoFault => gets read | AnswerLost _ => throw (JsError lost_error) end.

Definition readRecoveryCodeLocator f (locator : string) : M DB (option Locator) :=
  row <- query f (fun db => find (fun r => bool_decide (locatorB64u r = locator)) (locators (others db))) ;;
  ret (row ← row; l ← parse_locator_row row; if bool_decide (locatorB64u l = locator) then Some l else None).

Definition readRecoveryCodeLocatorByRecoveryKey f walletId (recoveryKeyId : string) : M DB (option Locator) :=
  row <- query f (fun db => find (of_key walletId recoveryKeyId) (locators (others db))) ;;
  ret (row ← row; l ← parse_locator_row row; if bool_decide (loc_walletId l = walletId) then Some l else None).

(** [claimRecoveryCodeRoutes]; [routing] is the directory's answer, if there is one. *)
Definition claimRecoveryCodeRoutes (routing : option (Result bool)) walletId (ls : list Locator) : Result bool :=
  match routing with
  | None => Ok true
  | Some answer =>
      if forallb (fun l => bool_decide (loc_walletId l = walletId)) ls then answer
      else Throw (JsError "Recovery code routing wallet differs")
  end.

(** ** Replacing a set *)

Inductive ReplaceResult : Type := ReplaceStored (storeVersion : string) | ReplaceConflict | ReplaceCollision.

(** [replaceRecoveryEnvelopeSetAndPreserveBackupAcknowledgement] up to its batch: the
    mutations, or a collision. *)
Definition replace_prepare (routing : option (Result bool)) f (record : EnvelopeSet) (expectedRecoverySetVersion : string)
    (ls : list Locator) : M DB (option (list (Mutation (CommitRecord E)))) :=
  claimed <- lift (claimRecoveryCodeRoutes routing (set_walletId record) ls) ;;
  if negb claimed then ret None
  else
    let acknowledgementKey := walletRecoveryBackupAcknowledgementRecordKey (set_walletId record) in
    existingAcknowledgement <- readRecord f acknowledgementKey ;;
    ret (Some (mkMutation (walletRecoveryEnvelopeSetRecordKey (set_walletId record)) (SetRecord record)
                 (Some expectedRecoverySetVersion) ::
               match existingAcknowledgement with
               | Present value version => [mkMutation acknowledgementKey value (Some version)]
               | Missing => []
               end)).

Definition locator_statements walletId (ls : list Locator) (guard : Statement (Tables Y)) : list (Statement (Tables Y)) :=
  guard :: on_locators (delete_locators walletId) :: map (fun l => on_locators (insert_locator l)) ls.

(** Its batch and what it makes of the outcome. *)
Definition replace_write f (readFault : Fault) (record : EnvelopeSet) (ls : list Locator)
    (mutations : list (Mutation (CommitRecord E))) : M DB ReplaceResult :=
  let walletId := set_walletId record in
  stored <- try_catch
    (guard <- lift (collision_guard_statement ls) ;;
     result <- putManyWithAdditionalStatements encodeRecord parseRecordOrNull PASSKEY_ENVELOPE_KEY_PREFIX f readFault
                 mutations (locator_statements walletId ls guard) ;;
     ret (Some result))
    (fun e => if isRecoveryCodeLocatorCollision e then ret None else throw e) ;;
  match stored with
  | None => ret ReplaceCollision
  | Some (BatchVersionMismatch _) => ret ReplaceConflict
  | Some (BatchStored versions) =>
      match mget (walletRecoveryEnvelopeSetRecordKey walletId) versions with
      | Some version => ret (ReplaceStored version)
      | None => throw (JsError "recovery-set rotation did not report its store version")
      end
  end.

Definition replaceRecoveryEnvelopeSetAndPreserveBackupAcknowledgement (routing : option (Result bool))
    (ackFault f readFault : Fault) (record : EnvelopeSet) (expectedRecoverySetVersion : string) (ls : list Locator)
  : M DB ReplaceResult :=
  mutations <- replace_prepare routing ackFault record expectedRecoverySetVersion ls ;;
  match mutations with
  | None => ret ReplaceCollision
  | Some mutations => replace_write f readFault record ls mutations
  end.

(** ** Installing a recovered authority *)

Inductive InstallResult : Type :=
| Committed (envelopeStoreVersion : string)
| AlreadyCommitted (envelopeStoreVersion : string)
| InstallConflict
| Inconsistent (reason : string).

(** What a finalization brings to its commit besides the recovery set.
    [install_inconsistency] is what the checks on the authority, its method, envelope
    and authenticator find; [install_claim] the claim of the credential;
    [install_statements] the statements for the authority, the method, the authenticator
    and its binding, and the deletion of the challenge; [same_target] whether the
    database holds the same envelope, authority and method. *)
Record Install : Type := mkInstall {
  install_inconsistency : option string;
  replacementEnvelope : E;
  install_claim : Result unit;
  install_statements : list (Y -> Z -> string + Y * Z);
  same_target : E -> Y -> bool;
}.

Definition is_consumption (reservationId : string) (w : Wrap) : bool :=
  match lifecycle w with CodeConsumed _ holder _ => bool_decide (holder = reservationId) | _ => false end.

Definition install_batch (install : Install) (recoverySet : EnvelopeSet) (recoveryKeyId : string)
  : list (Statement (Tables Y)) :=
  map on_rest (install_statements install) ++
  [D1_BATCH_CAS_GUARD_SQL;
   on_locators (consume_locator (set_walletId recoverySet) recoveryKeyId);
   D1_BATCH_CAS_GUARD_SQL].

(** What a finalization finds after a conflict: its own commit, or another's. *)
Definition resolve_install (readFault : Fault) (install : Install) walletId (reservationId recoveryKeyId : string)
  : M DB InstallResult :=
  recoveryRead <- readRecoveryEnvelopeSet readFault walletId ;;
  envelopeRead <- readRecord readFault (envelopeKey (replacementEnvelope install)) ;;
  locatorRead <- readRecoveryCodeLocatorByRecoveryKey readFault walletId recoveryKeyId ;;
  db <- gets id ;;
  let alreadyConsumed :=
    match recoveryRead with
    | Some (record, _) => existsb (is_consumption reservationId) (manifestKekWraps record)
    | None => false
    end in
  match envelopeRead, locatorRead with
  | Present (EnvelopeRecord e) version, Some _ =>
      if alreadyConsumed && same_target install e (rest (others db)) then ret (AlreadyCommitted version)
      else ret InstallConflict
  | _, _ => ret InstallConflict
  end.

Definition commitRecoveryAuthorityInstall f (conflictFault readFault : Fault) (install : Install)
    (recoverySet : EnvelopeSet) (expectedRecoverySetVersion reservationId recoveryKeyId : string)
  : M DB InstallResult :=
  let walletId := set_walletId recoverySet in
  match install_inconsistency install with
  | Some reason => ret (Inconsistent reason)
  | None =>
      if negb (length (List.filter (is_consumption reservationId) (manifestKekWraps recoverySet)) =? 1)%nat
      then ret (Inconsistent "recovery install must consume exactly its reserved recovery code")
      else
        let key := envelopeKey (replacementEnvelope install) in
        lift (install_claim install) ;;
        stored <- try_catch
          (result <- putManyWithAdditionalStatements encodeRecord parseRecordOrNull PASSKEY_ENVELOPE_KEY_PREFIX f conflictFault
             [mkMutation (walletRecoveryEnvelopeSetRecordKey walletId) (SetRecord recoverySet) (Some expectedRecoverySetVersion);
              mkMutation key (EnvelopeRecord (replacementEnvelope install)) None]
             (install_batch install recoverySet recoveryKeyId) ;;
           ret (Some result))
          (fun _ => ret None) ;;
        match stored with
        | None => ret InstallConflict
        | Some (BatchVersionMismatch _) => resolve_install readFault install walletId reservationId recoveryKeyId
        | Some (BatchStored versions) =>
            match mget key versions with
            | Some version => ret (Committed version)
            | None => throw (JsError "wallet recovery install did not report the envelope version")
            end
        end
  end.

(** ** Registration *)

Record RegistrationCommit : Type := mkRegistrationCommit {
  rc_envelope : E;
  rc_recoverySet : EnvelopeSet;
  rc_acknowledgement : Acknowledgement;
  rc_locators : list Locator;
}.

Context (envelopeWalletId : E -> string) (envelopeIsSeed : E -> bool).

(** The loop over the locators, with the key identifiers and locators seen before. *)
Fixpoint locators_inconsistency (walletId : string) (recoveryKeyIds keyIds values : list string) (ls : list Locator)
  : option string :=
  match ls with
  | [] => None
  | l :: ls =>
      if negb (bool_decide (loc_walletId l = walletId)) then Some "recovery code locator names a different wallet"
      else if negb (shas (loc_recoveryKeyId l) recoveryKeyIds) || shas (loc_recoveryKeyId l) keyIds
              || shas (locatorB64u l) values
      then Some "recovery code locators do not match the recovery wraps"
      else locators_inconsistency walletId recoveryKeyIds (sadd (loc_recoveryKeyId l) keyIds)
             (sadd (locatorB64u l) values) ls
  end.

Definition commitInconsistency (commit : RegistrationCommit) : option string :=
  let set := rc_recoverySet commit in
  let wraps := manifestKekWraps set in
  let recoveryKeyIds := foldl (fun s w => sadd (recoveryKeyId w) s) [] wraps in
  if negb (bool_decide (envelopeWalletId (rc_envelope commit) = set_walletId set))
  then Some "envelope and recovery set describe different wallets"
  else if negb (envelopeIsSeed (rc_envelope commit)) then Some "registration commits a wallet custody seed envelope"
  else if negb (length (entries set) =? 1)%nat then Some "a recovery set carries exactly one custody entry"
  else if negb (length (rc_locators commit) =? length wraps)%nat
  then Some "recovery code locators do not match the recovery wraps"
  else if negb (length recoveryKeyIds =? length wraps)%nat then Some "recovery wraps must have distinct key ids"
  else
    match locators_inconsistency (set_walletId set) recoveryKeyIds [] [] (rc_locators commit) with
    | Some reason => Some reason
    | None =>
        if negb (bool_decide (ack_walletId (rc_acknowledgement commit) = set_walletId set))
           || negb (num_same (ack_issuedAtMs (rc_acknowledgement commit)) (NInt (issuedAtMs set)))
        then Some "recovery backup acknowledgement does not match the issued recovery set"
        else None
    end.

Fixpoint same_key_ids (l r : list Wrap) : bool :=
  match l, r with
  | [], [] => true
  | a :: l, b :: r => bool_decide (recoveryKeyId a = recoveryKeyId b) && same_key_ids l r
  | _, _ => false
  end.

Definition sameRecoveryCodeKeys (l r : EnvelopeSet) : bool :=
  bool_decide (set_walletId l = set_walletId r) && same_key_ids (manifestKekWraps l) (manifestKekWraps r).

(** [records.prepareMutationStatements]. *)
Definition prepareMutationStatements (mutations : list (Mutation (CommitRecord E))) : Result (list (Statement (Tables Y))) :=
  match mutations with
  | [] => Throw (JsError "Cloudflare D1 versioned JSON batch requires at least one mutation")
  | _ =>
      let* prepared := prepareBatchMutations encodeRecord PASSKEY_ENVELOPE_KEY_PREFIX [] mutations in
      Ok (mutation_statements prepared)
  end.

Inductive RegistrationReservation : Type :=
| RegistrationReserved (issuedAtMs : Z) (statements : list (Statement (Tables Y)))
| AlreadyExists (issuedAtMs : Z)
| CustodyAlreadyEstablished
| RegistrationInconsistent (reason : string).

Definition present {T} (r : ReadResult T) : bool := match r with Present _ _ => true | Missing => false end.

(** [reserveRegistration]; the results of the read are in the order of its keys. *)
Definition reserveRegistration (routing : option (Result bool)) f (commit : RegistrationCommit)
  : M DB RegistrationReservation :=
  match commitInconsistency commit with
  | Some reason => ret (RegistrationInconsistent reason)
  | None =>
      let set := rc_recoverySet commit in
      let key := envelopeKey (rc_envelope commit) in
      let recoverySetKey := walletRecoveryEnvelopeSetRecordKey (set_walletId set) in
      let acknowledgementKey := walletRecoveryBackupAcknowledgementRecordKey (set_walletId set) in
      claimed <- lift (claimRecoveryCodeRoutes routing (set_walletId set) (rc_locators commit)) ;;
      existing <- readMany parseRecordOrNull PASSKEY_ENVELOPE_KEY_PREFIX f [key; recoverySetKey; acknowledgementKey] ;;
      if negb claimed then ret (RegistrationInconsistent "recovery code locator already exists")
      else
        let envelopeExists := existsb (fun e => present e.2 && bool_decide (e.1 = key)) existing in
        let existingRecoverySet :=
          match List.filter (fun e => present e.2 && bool_decide (e.1 = recoverySetKey)) existing with
          | (_, Present (SetRecord r) _) :: _ => Some r
          | _ => None
          end in
        if envelopeExists then
          match existingRecoverySet with
          | Some r => if sameRecoveryCodeKeys r set then ret (AlreadyExists (issuedAtMs r)) else ret CustodyAlreadyEstablished
          | None => ret CustodyAlreadyEstablished
          end
        else if existsb (fun e => present e.2) existing then ret CustodyAlreadyEstablished
        else
          statements <- lift (prepareMutationStatements
            [mkMutation key (EnvelopeRecord (rc_envelope commit)) None;
             mkMutation recoverySetKey (SetRecord set) None;
             mkMutation acknowledgementKey (AckRecord (rc_acknowledgement commit)) None]) ;;
          ret (RegistrationReserved (issuedAtMs set)
                 (statements ++ map (fun l => on_locators (insert_locator l)) (rc_locators commit)))
  end.
End Store.
