(* ===== verification/RecoveryFlow.v ===== *)
(** * Recovery with a code, rotation, finalization

    [packages/wallet-server/src/router/domains/passkeyCustody]:
    [prepareWalletRecoveryWithCodeV1] of [walletRecoveryAttempt.ts],
    [rotateWalletRecoveryCodesV1] of [walletRecoveryRotation.ts], the commit of
    [finalizeRecoveredWalletCredentialV1] in [walletRecoveryFinalization.ts] from where it
    reads the recovery set, and the recovery set of
    [buildWalletCustodyRegistrationRecords] in [walletCustodyRegistrationCommit.ts].
    Each is split between what it reads and what it writes, where other requests can
    come in between. *)

From S2P Require Import Prelude JsValues IdbTables RecoveryKeys Base64 VersionedRecords RecoverySets RecoveryStore.
Local Open Scope Z_scope.
Local Open Scope js_scope.

(** [list.findIndex(p)] with the element. *)
Fixpoint find_index {A} (p : A -> bool) (l : list A) : option (nat * A) :=
  match l with
  | [] => None
  | a :: l => if p a then Some (O, a) else (fun '(i, b) => (S i, b)) <$> find_index p l
  end.

Definition with_lifecycle (l : RecoveryCodeLifecycleState) (w : Wrap) : Wrap :=
  mkWrap (recoveryKeyId w) (wrap_nonceB64u w) (wrappedManifestKekB64u w) (wrap_aadHashB64u w) l.

(** The set with the lifecycle of one code changed, as [prepareWalletRecoveryWithCodeV1]
    and [buildConsumedRecoverySet] build it. *)
Definition set_code (record : EnvelopeSet) (index : nat) (l : RecoveryCodeLifecycleState) (nowMs : Z) : EnvelopeSet :=
  mkEnvelopeSet (set_walletId record) (alter (with_lifecycle l) index (manifestKekWraps record)) (entries record)
    (issuedAtMs record) nowMs.

Section Flow.
Context {E Y : Type} (encodeEnvelope : E -> JsVal) (parseEnvelope : JsVal -> option E)
  (envelopeKeyParts : E -> list string).
(** [deriveWalletRecoveryKeyIdFromBytes]: a SHA-256 digest of a code and a wallet. *)
Context (deriveKeyId : list Z -> string -> Result string).
Notation DB := (D1 (Tables Y)).
Notation readSet := (readRecoveryEnvelopeSet (Y:=Y) parseEnvelope).
Notation writeSet := (writeRecoveryEnvelopeSet (Y:=Y) encodeEnvelope).

(** ** Preparing a recovery with a code *)

Record PrepareInput : Type := mkPrepareInput {
  p_walletId : string;
  p_expectedRecoveryKeyId : string;
  p_recoveryCodeBytes : list Z;
  p_reservationId : string;
  p_nowMs : Z;
  p_reservationTtlMs : Z;
}.

Inductive PreparationResult : Type :=
| Prepared (walletId nonceB64u wrappedManifestKekB64u aadHashB64u : string) (set_entries : list Entry)
    (reservationId : string) (reservationExpiresAtMs : Z) (storeVersion : string)
| Refused
| HeldByOther
| CodeAlreadyConsumed
| PreparationConflict.

(** What the write of a hold knows of the set that was read. *)
Record Hold : Type := mkHold {
  h_record : EnvelopeSet;
  h_storeVersion : string;
  h_index : nat;
  h_wrap : Wrap;
  h_lifecycle : RecoveryCodeLifecycleState;
  h_expiresAtMs : Z;
}.

Definition prepare_read (f : Fault) (input : PrepareInput) : M DB (PreparationResult + Hold) :=
  stored <- readSet f (p_walletId input) ;;
  match stored with
  | None => ret (inl Refused)
  | Some (record, storeVersion) =>
      recoveryKeyId <- lift (deriveKeyId (p_recoveryCodeBytes input) (p_walletId input)) ;;
      if negb (bool_decide (recoveryKeyId = p_expectedRecoveryKeyId input)) then ret (inl Refused)
      else
        match find_index (fun w => bool_decide (RecoverySets.recoveryKeyId w = recoveryKeyId)) (manifestKekWraps record) with
        | None => ret (inl Refused)
        | Some (index, wrap) =>
            match lifecycle wrap with
            | CodeConsumed _ _ _ => ret (inl CodeAlreadyConsumed)
            | _ =>
                match reserveRecoveryCode (lifecycle wrap) (p_reservationId input) (p_nowMs input)
                        (p_reservationTtlMs input) with
                | inr (AlreadyReserved, _) => ret (inl HeldByOther)
                | inr _ => ret (inl Refused)
                | inl (CodeReserved _ _ _ expires as l) =>
                    ret (inr (mkHold record storeVersion index wrap l expires))
                | inl _ => ret (inl Refused)
                end
            end
        end
  end.

Definition hold_set (input : PrepareInput) (hold : Hold) : EnvelopeSet :=
  set_code (h_record hold) (h_index hold) (h_lifecycle hold) (p_nowMs input).

Definition prepare_write (f : Fault) (input : PrepareInput) (hold : Hold) : M DB PreparationResult :=
  written <- writeSet f (hold_set input hold) (h_storeVersion hold) ;;
  ret (match written with
       | None => PreparationConflict
       | Some storeVersion =>
           Prepared (p_walletId input) (wrap_nonceB64u (h_wrap hold)) (wrappedManifestKekB64u (h_wrap hold))
             (wrap_aadHashB64u (h_wrap hold)) (entries (h_record hold)) (p_reservationId input)
             (h_expiresAtMs hold) storeVersion
       end).

Definition prepareWalletRecoveryWithCodeV1 (readFault writeFault : Fault) (input : PrepareInput) : M DB PreparationResult :=
  r <- prepare_read readFault input ;;
  match r with
  | inl result => ret result
  | inr hold => prepare_write writeFault input hold
  end.

(** ** Rotation *)

Record RotateInput : Type := mkRotateInput {
  r_walletId : string;
  r_replacement : RotationWire;
  r_locators : list Locator;
  r_expectedStoreVersion : string;
  r_nowMs : Z;
}.

Inductive RotationResult : Type :=
| Rotated (issuedAtMs : Z) (storeVersion : string)
| NoRecoverySet
| RotationRejected (reason : string)
| RotationConflict.

Definition buildReplacementRecord (walletId : string) (replacement : RotationWire) (nowMs : Z) : EnvelopeSet :=
  mkEnvelopeSet walletId
    (map (fun w => mkWrap (rw_recoveryKeyId w) (rw_nonceB64u w) (rw_ciphertextB64u w) (rw_aadHashB64u w)
                     (CodeActive nowMs)) (rotation_wraps replacement))
    [rotation_entry replacement] nowMs nowMs.

(** The loop over the locators, with the locators seen before. *)
Fixpoint locators_follow_wraps (walletId : string) (seen : list string) (ls : list Locator) (wraps : list RotationWrap)
  : bool :=
  match ls with
  | [] => true
  | l :: ls =>
      match wraps with
      | [] => false
      | w :: wraps =>
          bool_decide (loc_walletId l = walletId) && bool_decide (loc_recoveryKeyId l = rw_recoveryKeyId w)
          && negb (shas (locatorB64u l) seen)
          && locators_follow_wraps walletId (sadd (locatorB64u l) seen) ls wraps
      end
  end.

Definition locators_mismatch : string := "recovery code locators do not match the recovery wraps".

(** Up to the replacement: the record to write and the version to replace. *)
Definition rotate_read (f : Fault) (input : RotateInput) : M DB (RotationResult + EnvelopeSet * string) :=
  stored <- readSet f (r_walletId input) ;;
  ret (match stored with
  | None => inl NoRecoverySet
  | Some (record, storeVersion) =>
      let replacement := r_replacement input in
      if negb (bool_decide (storeVersion = r_expectedStoreVersion input)) then inl RotationConflict
      else if r_nowMs input <=? issuedAtMs record
      then inl (RotationRejected "a rotation must be newer than the issuance it replaces")
      else if negb (bool_decide (rotation_walletId replacement = r_walletId input))
      then inl (RotationRejected "replacement recovery set names a different wallet")
      else if negb (length (r_locators input) =? length (rotation_wraps replacement))%nat
              || negb (locators_follow_wraps (r_walletId input) [] (r_locators input) (rotation_wraps replacement))
      then inl (RotationRejected locators_mismatch)
      else
        let next := buildReplacementRecord (r_walletId input) replacement (r_nowMs input) in
        match parseWalletRecoveryEnvelopeSetRecord (set_json next) (r_walletId input) "walletRecoveryEnvelopeSetRotation" with
        | Throw e => inl (RotationRejected (errorMessage e))
        | Ok _ => inr (next, storeVersion)
        end
  end).

Definition rotation_outcome (input : RotateInput) (written : ReplaceResult) : RotationResult :=
  match written with
  | ReplaceConflict => RotationConflict
  | ReplaceCollision => RotationRejected "recovery code locator already exists"
  | ReplaceStored storeVersion => Rotated (r_nowMs input) storeVersion
  end.

Definition rotateWalletRecoveryCodesV1 (routing : option (Result bool)) (readFault ackFault f conflictFault : Fault)
    (input : RotateInput) : M DB RotationResult :=
  r <- rotate_read readFault input ;;
  match r with
  | inl result => ret result
  | inr (next, storeVersion) =>
      written <- replaceRecoveryEnvelopeSetAndPreserveBackupAcknowledgement encodeEnvelope parseEnvelope routing
                   ackFault f conflictFault next storeVersion (r_locators input) ;;
      ret (rotation_outcome input written)
  end.

(** ** Finalization *)

Record FinalizeInput : Type := mkFinalizeInput {
  f_walletId : string;
  f_reservationId : string;
  f_nowMs : Z;
  f_install : Install (E:=E) (Y:=Y);
}.

Inductive FinalizationResult : Type :=
| Promoted (storeVersion : string)
| FinalizationRefused (reason : string)
| FinalizationConflict
| RegistrationRejected (reason : string).

Definition reservation_unavailable : string := "the recovery reservation is unavailable".

Definition is_held_by (reservationId : string) (w : Wrap) : bool :=
  match lifecycle w with CodeReserved _ holder _ _ => bool_decide (holder = reservationId) | _ => false end.

(** What a finalization is about to commit. *)
Record Consumption : Type := mkConsumption {
  c_record : EnvelopeSet;
  c_storeVersion : string;
  c_index : nat;
  c_lifecycle : RecoveryCodeLifecycleState;
  c_recoveryKeyId : string;
}.

Definition consumed_set (input : FinalizeInput) (c : Consumption) : EnvelopeSet :=
  set_code (c_record c) (c_index c) (c_lifecycle c) (f_nowMs input).

Definition finalize_read (f : Fault) (input : FinalizeInput) : M DB (FinalizationResult + Consumption) :=
  stored <- readSet f (f_walletId input) ;;
  ret (match stored with
  | None => inl (FinalizationRefused reservation_unavailable)
  | Some (record, storeVersion) =>
      match find_index (is_held_by (f_reservationId input)) (manifestKekWraps record) with
      | None => inl (FinalizationRefused reservation_unavailable)
      | Some (reservedIndex, selected) =>
          match consumeReservedRecoveryCode (lifecycle selected) (f_reservationId input) (f_nowMs input) with
          | inr (_, message) => inl (FinalizationRefused message)
          | inl (CodeConsumed _ _ _ as l) =>
              inr (mkConsumption record storeVersion reservedIndex l (recoveryKeyId selected))
          | inl _ => inl (FinalizationRefused "the recovery code was not consumed")
          end
      end
  end).

Definition finalize_write (f conflictFault readFault : Fault) (input : FinalizeInput) (c : Consumption)
  : M DB FinalizationResult :=
  committed <- commitRecoveryAuthorityInstall encodeEnvelope parseEnvelope envelopeKeyParts f conflictFault readFault
                 (f_install input) (consumed_set input c) (c_storeVersion c) (f_reservationId input) (c_recoveryKeyId c) ;;
  ret (match committed with
       | InstallConflict => FinalizationConflict
       | Inconsistent reason => RegistrationRejected reason
       | Committed version | AlreadyCommitted version => Promoted version
       end).

Definition finalize_commit (setFault f conflictFault readFault : Fault) (input : FinalizeInput) : M DB FinalizationResult :=
  r <- finalize_read setFault input ;;
  match r with
  | inl result => ret result
  | inr c => finalize_write f conflictFault readFault input c
  end.
End Flow.

(** ** The records of a registration *)

Definition requireNonEmpty (value : JsVal) (label : string) : Result string :=
  let text := normalizeTrimmedString value in
  if nonempty text then Ok text else Throw (JsError (label +:+ " is required")).

Fixpoint registration_wraps (nowMs : Z) (recoveryKeyIds : list string) (wraps : list JsVal) : Result (list Wrap) :=
  match wraps with
  | [] => Ok []
  | wrap :: wraps =>
      let* recoveryKeyId := requireNonEmpty (jget "recoveryKeyId" wrap) "recoveryKeyId" in
      if shas recoveryKeyId recoveryKeyIds
      then Throw (JsError ("duplicate recovery key id " +:+ recoveryKeyId))
      else
        let* id := parseDerivedWalletRecoveryKeyId (JString recoveryKeyId) "recoveryKeyId" in
        let* nonceB64u := parseEnvelopeNonceB64u (jget "nonceB64u" wrap) "recoveryWrap.nonceB64u" in
        let* wrapped := parseEnvelopeCiphertextB64u (jget "ciphertextB64u" wrap) "recoveryWrap.ciphertextB64u" in
        let* aadHashB64u := parseDigestField (jget "aadHashB64u" wrap) "recoveryWrap.aadHashB64u" in
        let* rest := registration_wraps nowMs (sadd recoveryKeyId recoveryKeyIds) wraps in
        Ok (mkWrap id nonceB64u wrapped aadHashB64u (CodeActive nowMs) :: rest)
  end.

Fixpoint registration_locators (walletId : string) (index : Z) (raws : list JsVal) (wraps : list Wrap) : Result (list Locator) :=
  match raws, wraps with
  | raw :: raws, wrap :: wraps =>
      let label := "recoveryCodeLocator[" +:+ Z_to_string index +:+ "]" in
      let* locator := parseDigestField (jget "locatorB64u" raw) (label +:+ ".locatorB64u") in
      let* id := parseDerivedWalletRecoveryKeyId (jget "recoveryKeyId" raw) (label +:+ ".recoveryKeyId") in
      let* _ := require (bool_decide (id = recoveryKeyId wrap)) "a recovery code locator does not match its code wrap" in
      let* rest := registration_locators walletId (index + 1) raws wraps in
      Ok (mkLocator locator walletId id :: rest)
  | _, _ => Ok []
  end.

(** What a ceremony's payload brings for the recovery set. *)
Record CeremonyRecovery : Type := mkCeremonyRecovery {
  cr_wraps : list JsVal;
  cr_locators : list JsVal;
  cr_entryNonceB64u : JsVal;
  cr_entryCiphertextB64u : JsVal;
  cr_entryAadHashB64u : JsVal;
}.

(** [buildWalletCustodyRegistrationRecords] from the wraps on, with the check of its clock. *)
Definition registration_recovery_records (walletId : string) (nowMs : Z) (custody : CeremonyRecovery)
  : Result (EnvelopeSet * list Locator * Acknowledgement) :=
  let* _ := require (is_safe_integer nowMs && negb (nowMs <=? 0)) "nowMs must be a positive integer" in
  let* _ := require (length (cr_wraps custody) =? EMAIL_OTP_RECOVERY_KEY_COUNT)%nat
    ("a recovery set carries exactly " +:+ Z_to_string (Z.of_nat EMAIL_OTP_RECOVERY_KEY_COUNT) +:+ " code wraps") in
  let* manifestKekWraps := registration_wraps nowMs [] (cr_wraps custody) in
  let* _ := require (length (cr_locators custody) =? length (cr_wraps custody))%nat
    "a recovery set carries one locator for every code wrap" in
  let* ls := registration_locators walletId 0 (cr_locators custody) manifestKekWraps in
  let* nonceB64u := parseEnvelopeNonceB64u (cr_entryNonceB64u custody) "recoveryEntryNonceB64u" in
  let* wrapped := parseEnvelopeCiphertextB64u (cr_entryCiphertextB64u custody) "recoveryEntryCiphertextB64u" in
  let* aadHashB64u := parseDigestField (cr_entryAadHashB64u custody) "recoveryEntryAadHashB64u" in
  Ok (mkEnvelopeSet walletId manifestKekWraps [mkEntry nonceB64u wrapped aadHashB64u] nowMs nowMs, ls,
      buildWalletRecoveryBackupAcknowledgementV1 walletId (NInt nowMs) (NInt nowMs)).
