(* ===== verification/RecoveryWrites.v ===== *)
(** * What the steps of a recovery write

    The effect of each write of [RecoveryStore] and [RecoveryFlow] on the rows of the
    recovery sets and on the locators, and what a read of a set says about its row. *)

From S2P Require Import Prelude JsValues IdbTables RecoveryKeys Base64 VersionedRecords VersionedWrites RecoverySets RecoverySetLaws RecoveryStore RecoveryFlow.
Local Open Scope Z_scope.
Local Open Scope js_scope.

(** ** Keys *)

Definition set_key (walletId : string) : string :=
  PASSKEY_ENVELOPE_KEY_PREFIX +:+ walletRecoveryEnvelopeSetRecordKey walletId.

Definition set_row {X} (walletId : string) (db : D1 X) : option StoredRow := tget (set_key walletId) (records db).

Lemma set_key_inj w w' : set_key w = set_key w' -> w = w'.
Proof.
  unfold set_key, walletRecoveryEnvelopeSetRecordKey. intros H.
  by do 2 apply string_app_inv_head in H.
Qed.

Lemma normalized_key key k : normalizeRecordKey key = Ok k -> k = trim key.
Proof. unfold normalizeRecordKey. cbv zeta. destruct (negb _); [done|]. destruct (_ || _); [done|]. congruence. Qed.

Lemma walletId_plain w : valid_walletId w = true -> all_chars (fun a => negb (is_js_space a)) w = true /\ w <> EmptyString.
Proof.
  unfold valid_walletId. destruct (parseWalletId (JString w)) as [w'|] eqn:H; [|done].
  intros ->%bool_decide_eq_true. destruct (toWalletId_inv _ _ H) as [Hn Hs]. split; [|by destruct w].
  unfold hasWhitespaceOrControlCharacters in Hs. by apply orb_false_iff in Hs as [?%negb_false_iff _].
Qed.

Lemma set_record_key w k : valid_walletId w = true ->
  normalizeRecordKey (walletRecoveryEnvelopeSetRecordKey w) = Ok k -> k = walletRecoveryEnvelopeSetRecordKey w.
Proof.
  intros [Hw _]%walletId_plain ->%normalized_key. apply trim_no_space.
  unfold walletRecoveryEnvelopeSetRecordKey. by rewrite all_chars_app, Hw.
Qed.

(** The record keys of envelopes and acknowledgements are not those of sets. *)
Lemma trim_first a s : is_js_space a = false -> exists s', trim (String a s) = String a s'.
Proof.
  intros Ha. unfold trim. simpl trim_start. rewrite Ha. rewrite trim_end_cons by done. by eexists.
Qed.

Lemma other_key a s k w : is_js_space a = false -> a <> "r"%char ->
  normalizeRecordKey (String a s) = Ok k -> PASSKEY_ENVELOPE_KEY_PREFIX +:+ k <> set_key w.
Proof.
  intros Ha Hr ->%normalized_key H. unfold set_key in H. apply string_app_inv_head in H.
  destruct (trim_first a s Ha) as [s' E]. rewrite E in H. by injection H.
Qed.

(** ** Statements on the other tables *)

Section Writes.
Context {E Y : Type} (encodeEnvelope : E -> JsVal) (parseEnvelope : JsVal -> option E)
  (envelopeKeyParts : E -> list string).
Notation DB := (D1 (Tables Y)).
Implicit Types (db : DB) (s : Statement (Tables Y)).

Definition db_locators db : list Locator := locators (others db).

(** A statement that leaves the records, and one that leaves the locators too. *)
Definition keeps_records s : Prop := forall db c db' c', s db c = inr (db', c') -> records db' = records db.
Definition keeps_locators s : Prop := forall db c db' c', s db c = inr (db', c') -> db_locators db' = db_locators db.

Lemma run_keeps_records l : Forall keeps_records l -> forall db c db',
  run_statements l db c = inr db' -> records db' = records db.
Proof.
  induction 1 as [|s l Hs _ IH]; intros db c db'; simpl; [by intros [= ->]|].
  destruct (s db c) as [e|[db1 c1]] eqn:E1; [done|]. intros H. rewrite (IH _ _ _ H). by eapply Hs.
Qed.

Lemma run_keeps_locators l : Forall keeps_locators l -> forall db c db',
  run_statements l db c = inr db' -> db_locators db' = db_locators db.
Proof.
  induction 1 as [|s l Hs _ IH]; intros db c db'; simpl; [by intros [= ->]|].
  destruct (s db c) as [e|[db1 c1]] eqn:E1; [done|]. intros H. rewrite (IH _ _ _ H). by eapply Hs.
Qed.

Lemma run_statements_app l1 l2 : forall db c db', run_statements (l1 ++ l2) db c = inr db' ->
  exists db1 c1, run_statements l1 db c = inr db1 /\ run_statements l2 db1 c1 = inr db'.
Proof.
  induction l1 as [|s l1 IH]; intros db c db' H; simpl in *; [eauto|].
  destruct (s db c) as [e|[db1 c1]]; [done|]. by apply IH in H.
Qed.

Lemma on_rest_keeps (s : Y -> Z -> string + Y * Z) : keeps_records (on_rest s) /\ keeps_locators (on_rest s).
Proof.
  split; intros db c db' c'; unfold on_rest; destruct (s _ _) as [|[y n]]; try done; by intros [= <- _].
Qed.

Lemma on_locators_keeps (f : list Locator -> string + list Locator * Z) : keeps_records (on_locators (Y:=Y) f).
Proof. intros db c db' c'. unfold on_locators. destruct (f _) as [|[l n]]; [done|]. by intros [= <- _]. Qed.

Lemma guard_keeps : keeps_records D1_BATCH_CAS_GUARD_SQL /\ keeps_locators D1_BATCH_CAS_GUARD_SQL.
Proof. split; intros db c db' c'; unfold D1_BATCH_CAS_GUARD_SQL; destruct (_ =? _); try done; by intros [= <- _]. Qed.

Lemma consume_keeps w id : keeps_locators (on_locators (Y:=Y) (consume_locator w id)).
Proof. intros db c db' c'. unfold on_locators, consume_locator. by intros [= <- _]. Qed.

Lemma on_rest_all_keep (l : list (Y -> Z -> string + Y * Z)) :
  Forall keeps_records (map on_rest l) /\ Forall keeps_locators (map on_rest l).
Proof. induction l as [|s l [IH1 IH2]]; simpl; split; constructor; auto; apply on_rest_keeps. Qed.

Lemma run_inserts ls : forall db c db',
  run_statements (map (fun l => on_locators (insert_locator l)) ls) db c = inr db' ->
  records db' = records db /\ db_locators db' = db_locators db ++ ls /\
  (NoDup (map locatorB64u (db_locators db)) -> NoDup (map locatorB64u (db_locators db'))).
Proof.
  induction ls as [|l ls IH]; intros db c db'; simpl.
  { intros [= ->]. by rewrite app_nil_r. }
  unfold on_locators at 1, insert_locator at 1. destruct (negb _); [done|].
  destruct (existsb _ (locators (others db))) eqn:Hex; [done|]. destruct (existsb (of_key _ _) _); [done|].
  intros H. apply IH in H as (Hr & Hl & Hnd). split_and!; [done| |].
  - rewrite Hl. unfold db_locators. simpl. by rewrite <- app_assoc.
  - intros Hn. apply Hnd. unfold db_locators in *. simpl. rewrite map_app. apply NoDup_app. split_and!; [done| |].
    + simpl. intros t Ht ->%list_elem_of_singleton. apply list_elem_of_fmap in Ht as (r & Hr' & Hin).
      enough (existsb (fun r => bool_decide (locatorB64u r = locatorB64u l)) (locators (others db)) = true) by congruence.
      apply existsb_exists. exists r. split; [by apply list_elem_of_In|]. by apply bool_decide_eq_true.
    + simpl. apply NoDup_singleton.
Qed.

(** The statements of a rotation replace the wallet's locators. *)
Lemma run_locator_statements w ls guard db c db' :
  collision_guard_statement ls = Ok guard -> run_statements (locator_statements w ls guard) db c = inr db' ->
  records db' = records db /\
  db_locators db' = List.filter (fun r => negb (bool_decide (loc_walletId r = w))) (db_locators db) ++ ls /\
  (NoDup (map locatorB64u (db_locators db)) -> NoDup (map locatorB64u (db_locators db'))).
Proof.
  unfold collision_guard_statement, locator_statements. destruct ls as [|l ls]; [done|]. intros [= <-].
  cbn [run_statements]. unfold on_locators at 1, collision_guard. destruct (existsb _ _); [done|].
  unfold on_locators at 1, delete_locators. intros H. apply run_inserts in H as (Hr & Hl & Hnd).
  split_and!; [done|done|]. intros Hn. apply Hnd. unfold db_locators in *. simpl.
  clear -Hn. induction (locators (others db)) as [|r rows IH]; simpl in *; [constructor|].
  apply NoDup_cons in Hn as [Hr Hn]. case_match; simpl; [|by apply IH].
  apply NoDup_cons. split; [|by apply IH]. intros (r' & Hr' & Hin)%list_elem_of_fmap. apply Hr.
  apply list_elem_of_fmap. exists r'. split; [done|]. apply list_elem_of_In, filter_In in Hin as [Hin _].
  by apply list_elem_of_In.
Qed.

(** ** Reading a set *)

Notation readSet := (readRecoveryEnvelopeSet (Y:=Y) parseEnvelope).

Lemma readRecord_keeps f key db : (readRecord parseEnvelope f key db).2 = db.
Proof. apply read_keeps. Qed.

Lemma parsed_record_valid raw r : parseRecordOrNull parseEnvelope raw = Some (SetRecord r) ->
  valid_set r = true /\ forall r0, raw = set_json r0 -> valid_walletId (set_walletId r0) = true -> r = r0.
Proof.
  unfold parseRecordOrNull. destruct (isPlainObject raw); [|done]. cbn [negb].
  destruct (is_string "wallet_recovery_envelope_set_v1" _).
  - destruct (parseWalletId _) as [w|]; [|done].
    destruct (parseWalletRecoveryEnvelopeSetRecord raw w _) as [r'|] eqn:H; [|done]. intros [= ->].
    split; [by apply set_parses in H as [? _]|]. intros r0 -> Hw. by apply set_json_inv in H as [-> _].
  - destruct (is_string _ _).
    + destruct (parseWalletId _); [|done]. by destruct (parseWalletRecoveryBackupAcknowledgementV1 _ _).
    + by destruct (parseEnvelope raw).
Qed.

(** A set that was read is the valid one of its wallet that the row stands for. *)
Lemma readSet_spec f w db r v db' : valid_walletId w = true -> readSet f w db = (Ok (Some (r, v)), db') ->
  db' = db /\ valid_set r = true /\ set_walletId r = w /\
  exists row, set_row w db = Some row /\ v = Z_to_string (version row) /\ 0 < version row <= MAX_SAFE_INTEGER /\
    forall r0, record_json row = set_json r0 -> valid_walletId (set_walletId r0) = true -> r = r0.
Proof.
  intros Hw. unfold readRecoveryEnvelopeSet, bind.
  pose proof (readRecord_keeps f (walletRecoveryEnvelopeSetRecordKey w) db) as Hkeep.
  destruct (readRecord _ f _ db) as [[result|e] db1] eqn:Hread; simpl in Hkeep; subst db1; [|done].
  destruct result as [|value version]; [done|]. destruct value as [r1| |]; try done.
  destruct (parseWalletRecoveryEnvelopeSetRecord (set_json r1) w _) as [r'|] eqn:Hp; [|done].
  unfold ret. intros [= <- <- <-]. split; [done|].
  unfold readRecord in Hread. destruct f; [|unfold read, readMany, bind, lift in Hread; simpl in Hread;
    by destruct (normalizeRecordKey _)].
  destruct (normalizeRecordKey (walletRecoveryEnvelopeSetRecordKey w)) as [k|] eqn:Hk;
    [|unfold read, readMany, bind, lift in Hread; simpl in Hread; by rewrite Hk in Hread].
  rewrite (read_run _ _ _ _ _ Hk) in Hread. apply set_record_key in Hk as ->; [|done].
  change (tget _ (records db)) with (set_row w db) in Hread. injection Hread as Hrow.
  destruct (set_row w db) as [row|] eqn:Hsr; [|done].
  destruct (read_row_version _ _ _ _ Hrow) as [-> Hv].
  unfold read_row, parseReadResult in Hrow. destruct (parseVersion _); [|done].
  assert (parseRecordOrNull parseEnvelope (record_json row) = Some (SetRecord r1)) as Hparse.
  { destruct (record_json row) as [| | | | | | |]; try done;
      match type of Hrow with context [parseRecordOrNull _ ?j] => destruct (parseRecordOrNull parseEnvelope j); congruence end. }
  apply parsed_record_valid in Hparse as [Hvalid Huniq].
  assert (valid_walletId (set_walletId r1) = true) as Hw1.
  { unfold valid_set in Hvalid. do 8 apply andb_true_iff in Hvalid as [Hvalid _]. done. }
  apply set_json_inv in Hp as [-> <-]; [|done]. split_and!; [done|done|]. by exists row.
Qed.

Lemma readSet_keeps f w db : (readSet f w db).2 = db.
Proof.
  unfold readRecoveryEnvelopeSet, bind. pose proof (readRecord_keeps f (walletRecoveryEnvelopeSetRecordKey w) db) as Hk.
  destruct (readRecord _ f _ db) as [[[|[]]|] db1]; simpl in *; try done. by case_match.
Qed.

(** ** Writing a set *)

(** The row of a wallet's set had version [v], and now has the next one and the record;
    the sets of other wallets are as they were. *)
Definition cas_write w (v : Z) (r : EnvelopeSet) db db' : Prop :=
  (exists row, set_row w db = Some row /\ version row = v) /\
  set_row w db' = Some (mkStoredRow (v + 1) (set_json r)) /\
  (forall w', w' <> w -> set_row w' db' = set_row w' db) /\ d1_wf db'.

Lemma parseVersion_text v : 0 < v <= MAX_SAFE_INTEGER -> parseVersion (JString (Z_to_string v)) = Some v.
Proof.
  intros Hv. unfold parseVersion, normalizeOptionalTrimmedString, normalizeOptionalString.
  rewrite trim_Z_to_string, Z_to_string_nonempty, Z_to_string_digits, Number_to_string by lia. simpl.
  unfold is_safe_integer. assert ((- MAX_SAFE_INTEGER <=? v) && (v <=? MAX_SAFE_INTEGER) = true) as -> by lia.
  by rewrite (proj2 (Z.ltb_lt 0 v)) by lia.
Qed.

(** The mutation that a set and its expected version are prepared into. *)
Lemma prepares_set w r (v : Z) m : valid_walletId w = true -> 0 < v <= MAX_SAFE_INTEGER ->
  prepares (encodeRecord encodeEnvelope) PASSKEY_ENVELOPE_KEY_PREFIX
    (mkMutation (walletRecoveryEnvelopeSetRecordKey w) (SetRecord r) (Some (Z_to_string v))) m ->
  m = mkPreparedMutation (walletRecoveryEnvelopeSetRecordKey w) (set_key w) (set_json r) (Some v).
Proof.
  intros Hw Hv (Hk & Hs & Hj & _ & He & _). simpl in *. apply set_record_key in Hk; [|done].
  rewrite parseVersion_text in He by done. destruct m. simpl in *. by subst.
Qed.

Lemma cas_write_apply w (v : Z) r db m : d1_wf db ->
  m = mkPreparedMutation (walletRecoveryEnvelopeSetRecordKey w) (set_key w) (set_json r) (Some v) ->
  applies db m = true -> cas_write w v r db (apply_mutation db m).
Proof.
  intros Hwf -> Ha. unfold applies in Ha. simpl in Ha. fold (set_row w db) in Ha.
  destruct (set_row w db) as [row|] eqn:Hrow; [|done]. apply Z.eqb_eq in Ha.
  split_and!; [by exists row| | |by apply apply_mutation_wf].
  - unfold set_row, apply_mutation, new_row. simpl. rewrite tget_tput by done. by rewrite decide_True.
  - intros w' Hne. unfold set_row, apply_mutation. simpl. rewrite tget_tput by done.
    rewrite decide_False; [done|]. by intros ?%set_key_inj.
Qed.

Lemma writeSet_spec f r (v : Z) db res db' :
  d1_wf db -> valid_walletId (set_walletId r) = true -> 0 < v <= MAX_SAFE_INTEGER ->
  writeRecoveryEnvelopeSet encodeEnvelope f r (Z_to_string v) db = (res, db') ->
  db' = db /\ (forall version, res <> Ok (Some version)) \/
  cas_write (set_walletId r) v r db db' /\ db_locators db' = db_locators db /\
    (forall version, res = Ok (Some version) -> version = Z_to_string (v + 1)).
Proof.
  intros Hwf Hw Hv. unfold writeRecoveryEnvelopeSet, bind. rewrite put_spec.
  destruct (prepareBatchMutations _ _ _ _) as [[|m l]|] eqn:Hp; [intros [= <- <-]; by left..| |intros [= <- <-]; by left].
  apply prepare_spec in Hp as (H2 & _ & _). apply Forall2_cons_inv_l in H2 as (m' & l' & Hm & _ & [= <- <-]).
  apply (prepares_set _ _ _ _ Hw Hv) in Hm. cbv zeta.
  destruct (applies db m) eqn:Ha.
  - pose proof (cas_write_apply _ _ _ _ _ Hwf Hm Ha) as Hc.
    destruct f as [|[]]; intros [= <- <-]; [right|right|left]; try done.
    split_and!; [done|done|]. intros version [= <-]. by subst m.
  - destruct f as [|[]]; intros [= <- <-]; by left.
Qed.

(** *** Batches with a set *)

(** A mutation of an envelope or an acknowledgement. *)
Definition other_record (mu : Mutation (CommitRecord E)) : Prop :=
  exists a text, m_key mu = String a text /\ is_js_space a = false /\ a <> "r"%char.

Notation prepares' := (prepares (encodeRecord encodeEnvelope) PASSKEY_ENVELOPE_KEY_PREFIX).

Lemma other_records_keys mus ms w : Forall other_record mus -> Forall2 prepares' mus ms ->
  set_key w ∉ map pm_storageKey ms.
Proof.
  intros Ho H2. revert Ho. induction H2 as [|mu m mus ms (Hk & Hs & _) _ IH]; intros Ho; [set_solver|].
  apply Forall_cons in Ho as [(a & s & Ha & Hsp & Hr) Ho]. simpl. apply not_elem_of_cons. split; [|by apply IH].
  rewrite Hs. intros H. rewrite Ha in Hk. by eapply other_key; [..|symmetry].
Qed.

Lemma set_row_others w db db' (prepared : list PreparedMutation) : d1_wf db ->
  records db' = records (apply_mutations db prepared) -> set_key w ∉ map pm_storageKey prepared ->
  set_row w db' = set_row w db.
Proof. intros Hwf Hr Hk. unfold set_row. rewrite Hr. by apply apply_mutations_other. Qed.

Lemma batch_set_spec f rf w r (v : Z) mus extra db res db' :
  d1_wf db -> valid_walletId w = true -> 0 < v <= MAX_SAFE_INTEGER ->
  Forall other_record mus -> Forall keeps_records extra ->
  putManyWithAdditionalStatements (encodeRecord encodeEnvelope) (parseRecordOrNull parseEnvelope)
    PASSKEY_ENVELOPE_KEY_PREFIX f rf
    (mkMutation (walletRecoveryEnvelopeSetRecordKey w) (SetRecord r) (Some (Z_to_string v)) :: mus) extra db = (res, db') ->
  db' = db /\ (forall vs, res <> Ok (BatchStored vs)) \/
  cas_write w v r db db' /\
  (exists db1, db_locators db1 = db_locators db /\ run_statements extra db1 0 = inr db') /\
  (forall vs, res = Ok (BatchStored vs) ->
     mget (walletRecoveryEnvelopeSetRecordKey w) vs = Some (Z_to_string (v + 1))).
Proof.
  intros Hwf Hw Hv Hmus Hextra Hput.
  set (mutations := _ :: mus) in *.
  destruct (prepareBatchMutations (encodeRecord encodeEnvelope) PASSKEY_ENVELOPE_KEY_PREFIX [] mutations)
    as [prepared|e] eqn:Hp.
  2:{ left. unfold putManyWithAdditionalStatements, bind, lift, mutations in Hput. fold mutations in Hput.
      rewrite Hp in Hput. by injection Hput as <- <-. }
  assert (mutations <> []) as Hne by done.
  pose proof (putMany_spec _ _ _ _ _ _ _ _ _ _ prepared Hwf Hne Hp Hput) as Hspec.
  destruct (prepare_spec _ _ _ _ _ Hp) as (H2 & Hnd & _).
  apply Forall2_cons_inv_l in H2 as (m & ms & Hm & H2 & ->).
  apply (prepares_set _ _ _ _ Hw Hv) in Hm as Hm'.
  assert (Hout : forall out, carried_out (m :: ms) extra db = inr out ->
    cas_write w v r db out /\ exists db1, db_locators db1 = db_locators db /\ run_statements extra db1 0 = inr out).
  { intros out. unfold carried_out. destruct (forallb (applies db) (m :: ms)) eqn:Ha; [|done]. intros Hrun.
    cbn [forallb] in Ha. apply andb_true_iff in Ha as [Ha _].
    pose proof (run_keeps_records _ Hextra _ _ _ Hrun) as Hrec.
    pose proof (cas_write_apply _ _ _ _ _ Hwf Hm' Ha) as (Hrow & _ & _ & _).
    split; [|eexists; split; [|exact Hrun]; unfold db_locators; by rewrite apply_mutations_others].
    split_and!; [done| | |].
    - unfold set_row. rewrite Hrec. replace (set_key w) with (pm_storageKey m) by by rewrite Hm'.
      etrans; [apply apply_mutations_get; [done|done|set_solver]|]. by rewrite Hm'.
    - intros w' Hne'. apply (set_row_others _ _ _ (m :: ms)); [done|done|]. simpl. apply not_elem_of_cons. split.
      + rewrite Hm'. simpl. by intros ?%set_key_inj.
      + by eapply other_records_keys.
    - unfold d1_wf. rewrite Hrec. by apply apply_mutations_wf. }
  destruct (carried_out (m :: ms) extra db) as [e|out] eqn:Hc.
  - left. assert (db' = db /\ not_stored (m :: ms) db' res) as [-> Hn] by by destruct f as [|[]].
    split; [done|]. by intros vs ->.
  - destruct (Hout out eq_refl) as [Hcas Hrun]. destruct f as [|[]]; destruct Hspec as [H1 H2'].
    + subst db'. right. split_and!; [done..|]. intros vs Hvs. rewrite Hvs in H1. injection H1 as ->.
      rewrite Hm'. simpl. by rewrite decide_True.
    + subst db'. right. split_and!; [done..|]. by intros vs ->.
    + left. split; [done|]. by intros vs ->.
Qed.

(** *** Rotation *)

Notation SetMutation w r v :=
  (mkMutation (walletRecoveryEnvelopeSetRecordKey w) (SetRecord (E:=E) r) (Some (Z_to_string v))).

Lemma replace_prepare_spec routing f r (v : Z) ls db mutations db' :
  replace_prepare parseEnvelope routing f r (Z_to_string v) ls db = (Ok (Some mutations), db') ->
  db' = db /\ exists mus, mutations = SetMutation (set_walletId r) r v :: mus /\ Forall other_record mus.
Proof.
  unfold replace_prepare, bind, lift. destruct (claimRecoveryCodeRoutes _ _ _) as [[]|]; try done. simpl.
  set (key := walletRecoveryBackupAcknowledgementRecordKey _).
  pose proof (readRecord_keeps f key db) as Hk. destruct (readRecord _ f key db) as [[e|] db1]; simpl in Hk; [|done].
  subst db1. unfold ret. intros [= <- <-]. split; [done|]. eexists. split; [done|].
  destruct e; repeat constructor. by eexists _, _.
Qed.

Lemma replace_prepare_keeps routing f r version ls db : (replace_prepare parseEnvelope routing f r version ls db).2 = db.
Proof.
  unfold replace_prepare, bind, lift. destruct (claimRecoveryCodeRoutes _ _ _) as [[]|]; try done. simpl.
  set (key := walletRecoveryBackupAcknowledgementRecordKey _).
  pose proof (readRecord_keeps f key db) as Hk. by destruct (readRecord _ f key db) as [[e|] db1].
Qed.

Lemma locator_statements_keep w ls guard : collision_guard_statement (Y:=Y) ls = Ok guard ->
  Forall keeps_records (locator_statements w ls guard).
Proof.
  unfold collision_guard_statement, locator_statements. destruct ls as [|l0 ls0]; [done|]. intros [= <-].
  constructor; [apply on_locators_keeps|]. constructor; [apply on_locators_keeps|].
  apply Forall_fmap, Forall_true. intros l. apply on_locators_keeps.
Qed.

Lemma replace_write_spec f rf r (v : Z) mus ls db res db' :
  d1_wf db -> valid_walletId (set_walletId r) = true -> 0 < v <= MAX_SAFE_INTEGER -> Forall other_record mus ->
  replace_write encodeEnvelope parseEnvelope f rf r ls (SetMutation (set_walletId r) r v :: mus) db = (res, db') ->
  db' = db /\ (forall version, res <> Ok (ReplaceStored version)) \/
  cas_write (set_walletId r) v r db db' /\
  db_locators db' = List.filter (fun l => negb (bool_decide (loc_walletId l = set_walletId r))) (db_locators db) ++ ls /\
  (NoDup (map locatorB64u (db_locators db)) -> NoDup (map locatorB64u (db_locators db'))) /\
  (forall version, res = Ok (ReplaceStored version) -> version = Z_to_string (v + 1)).
Proof.
  intros Hwf Hw Hv Hmus. unfold replace_write, bind, try_catch, lift.
  destruct (collision_guard_statement ls) as [guard|e] eqn:Hg.
  2:{ destruct (isRecoveryCodeLocatorCollision e); unfold ret, throw; intros [= <- <-]; by left. }
  pose proof (locator_statements_keep (set_walletId r) _ _ Hg) as Hkeep.
  destruct (putManyWithAdditionalStatements _ _ _ _ _ _ _ _) as [stored db1] eqn:Hput.
  destruct (batch_set_spec _ _ _ _ _ _ _ _ _ _ Hwf Hw Hv Hmus Hkeep Hput) as [[-> Hn]|(Hcas & (db2 & Hl & Hrun) & Hver)].
  - destruct stored as [[vs|key]|e]; [by destruct (Hn vs)| |].
    + unfold ret. intros [= <- <-]. by left.
    + destruct (isRecoveryCodeLocatorCollision e); unfold ret, throw; intros [= <- <-]; by left.
  - apply (run_locator_statements _ _ _ _ _ _ Hg) in Hrun as (_ & Hl' & Hnd). rewrite Hl in Hl', Hnd.
    destruct stored as [[vs|key]|e].
    + unfold ret. rewrite (Hver vs) by done. intros [= <- <-]. right. split_and!; [done..|]. by intros version [= <-].
    + unfold ret. intros [= <- <-]. by right.
    + destruct (isRecoveryCodeLocatorCollision e); unfold ret, throw; intros [= <- <-]; by right.
Qed.

(** *** Finalization *)

Lemma query_keeps {A} f (q : DB -> A) db : (query f q db).2 = db.
Proof. by destruct f. Qed.

Lemma resolve_keeps rf install w rid id db :
  (resolve_install parseEnvelope envelopeKeyParts rf install w rid id db).2 = db.
Proof.
  unfold resolve_install, bind. pose proof (readSet_keeps rf w db) as H1.
  destruct (readRecoveryEnvelopeSet _ rf w db) as [[a|] db1]; simpl in H1; subst db1; [|done].
  set (key := envelopeKey _ _). pose proof (readRecord_keeps rf key db) as H2.
  destruct (readRecord _ rf key db) as [[b|] db1]; simpl in H2; subst db1; [|done].
  unfold readRecoveryCodeLocatorByRecoveryKey, bind.
  set (q := fun _ => _). pose proof (query_keeps rf q db) as H3.
  destruct (query rf q db) as [[c|] db1]; simpl in H3; subst db1; [|done]. unfold gets, ret.
  repeat case_match; done.
Qed.

Lemma json_array_first parts : exists text, json_text (JArray (map JString parts)) = String "["%char text.
Proof.
  assert (mapM (fun e => if has_json e then JSON_stringify e else Some "null") (map JString parts)
    = Some (map json_string parts)) as H by (induction parts as [|p parts IH]; simpl in *; [done|by rewrite IH]).
  unfold json_text. simpl JSON_stringify. rewrite H. by eexists.
Qed.

Lemma install_keeps (install : Install (E:=E) (Y:=Y)) r id :
  Forall keeps_records (install_batch install r id) /\ Forall keeps_locators (install_batch install r id).
Proof.
  unfold install_batch. destruct (on_rest_all_keep (install_statements install)) as [H1 H2].
  split; (apply Forall_app; split; [done|]); repeat constructor; try apply guard_keeps;
    [apply on_locators_keeps|apply consume_keeps].
Qed.

Lemma commit_spec f cf rf install r (v : Z) rid id db res db' :
  d1_wf db -> valid_walletId (set_walletId r) = true -> 0 < v <= MAX_SAFE_INTEGER ->
  commitRecoveryAuthorityInstall encodeEnvelope parseEnvelope envelopeKeyParts f cf rf install r (Z_to_string v) rid id db
    = (res, db') ->
  db' = db /\ (forall version, res <> Ok (Committed version)) \/
  cas_write (set_walletId r) v r db db' /\ db_locators db' = db_locators db.
Proof.
  intros Hwf Hw Hv. unfold commitRecoveryAuthorityInstall, bind, try_catch, lift.
  destruct (install_inconsistency install); [intros [= <- <-]; by left|].
  destruct (negb _); [intros [= <- <-]; by left|].
  destruct (install_claim install); [|intros [= <- <-]; by left].
  destruct (putManyWithAdditionalStatements _ _ _ _ _ _ _ _) as [stored db1] eqn:Hput.
  destruct (install_keeps install r id) as [Hkr Hkl].
  assert (Forall other_record [mkMutation (envelopeKey envelopeKeyParts (replacementEnvelope install))
    (EnvelopeRecord (replacementEnvelope install)) None]) as Hmus.
  { repeat constructor. destruct (json_array_first (envelopeKeyParts (replacementEnvelope install))) as [text Ht].
    by exists "["%char, text. }
  destruct (batch_set_spec _ _ _ _ _ _ _ _ _ _ Hwf Hw Hv Hmus Hkr Hput) as [[-> Hn]|(Hcas & (db2 & Hl & Hrun) & _)].
  - destruct stored as [[vs|key]|e]; [by destruct (Hn vs)| |unfold ret; intros [= <- <-]; by left].
    unfold ret. pose proof (resolve_keeps rf install (set_walletId r) rid id db) as Hres. intros H. left.
    rewrite H in Hres. simpl in Hres. split; [done|]. intros version ->.
    revert H. unfold resolve_install, bind, gets, ret. repeat case_match; congruence.
  - intros H. right. assert (db_locators db1 = db_locators db) as Hl1 by (rewrite <- Hl; by eapply run_keeps_locators).
    assert (db' = db1) as ->; [|done]. destruct stored as [[vs|key]|e]; unfold ret, throw in H; cbv beta iota in H.
    + destruct (mget _ vs) in H; by injection H.
    + pose proof (resolve_keeps rf install (set_walletId r) rid id db1) as Hres. by rewrite H in Hres.
    + by injection H.
Qed.

(** The replacement envelope of an install is stored, and this is its version. *)
Definition envelope_at (install : Install (E:=E) (Y:=Y)) db (v : string) : Prop :=
  exists k row, normalizeRecordKey (envelopeKey envelopeKeyParts (replacementEnvelope install)) = Ok k /\
    tget (PASSKEY_ENVELOPE_KEY_PREFIX +:+ k) (records db) = Some row /\ v = Z_to_string (version row).

Lemma resolve_version rf install w rid id db v db' :
  resolve_install parseEnvelope envelopeKeyParts rf install w rid id db = (Ok (AlreadyCommitted v), db') ->
  envelope_at install db v.
Proof.
  unfold resolve_install, bind. pose proof (readSet_keeps rf w db) as H1.
  destruct (readRecoveryEnvelopeSet _ rf w db) as [[a|] db1]; simpl in H1; subst db1; [|done].
  set (key := envelopeKey _ _). pose proof (readRecord_keeps rf key db) as H2.
  destruct (readRecord _ rf key db) as [[b|] db1] eqn:Hread; simpl in H2; subst db1; [|done].
  destruct (readRecoveryCodeLocatorByRecoveryKey _ _ _ db) as [[c|] db1]; [|done]. unfold gets, ret.
  destruct b as [|value version]; [done|]. destruct value as [|e|]; try done.
  destruct c; [|done]. destruct (_ && _); [|done]. intros [= <- _].
  unfold readRecord in Hread. unfold envelope_at. fold key.
  destruct rf; [|unfold read, readMany, bind, lift in Hread; simpl in Hread;
    by destruct (normalizeRecordKey _)].
  destruct (normalizeRecordKey key) as [k|] eqn:Hk;
    [|unfold read, readMany, bind, lift in Hread; simpl in Hread; by rewrite Hk in Hread].
  rewrite (read_run _ _ _ _ _ Hk) in Hread.
  destruct (tget _ (records db)) as [row|] eqn:Hrow; [|done].
  injection Hread as Hread. destruct (read_row_version _ _ _ _ Hread) as [-> _]. by exists k, row.
Qed.

(** The version that a batch answers with for a key is that of the record it wrote. *)
Lemma batch_version f rf mutations extra db vs db' key v :
  d1_wf db -> mutations <> [] -> Forall keeps_records extra ->
  putManyWithAdditionalStatements (encodeRecord encodeEnvelope) (parseRecordOrNull parseEnvelope)
    PASSKEY_ENVELOPE_KEY_PREFIX f rf mutations extra db = (Ok (BatchStored vs), db') ->
  mget key vs = Some v ->
  exists k row, normalizeRecordKey key = Ok k /\
    tget (PASSKEY_ENVELOPE_KEY_PREFIX +:+ k) (records db') = Some row /\ v = Z_to_string (version row).
Proof.
  intros Hwf Hne Hextra Hput Hv.
  destruct (prepareBatchMutations (encodeRecord encodeEnvelope) PASSKEY_ENVELOPE_KEY_PREFIX [] mutations)
    as [prepared|e] eqn:Hp.
  2:{ destruct mutations as [|mu0 mus]; [done|].
      unfold putManyWithAdditionalStatements, bind, lift in Hput. by rewrite Hp in Hput. }
  pose proof (putMany_spec _ _ _ _ _ _ _ _ _ _ prepared Hwf Hne Hp Hput) as Hspec.
  destruct (prepare_spec _ _ _ _ _ Hp) as (H2 & Hnd & _). apply prepared_keys in H2.
  rewrite Forall_forall in H2.
  destruct f as [|[]], (carried_out prepared extra db) as [e|out] eqn:Hc; destruct Hspec as [H H']; try done.
  injection H as ->. subst out. unfold carried_out in Hc. destruct (forallb (applies db) prepared); [|done].
  pose proof (run_keeps_records _ Hextra _ _ _ Hc) as Hrec.
  apply mget_elem, list_elem_of_fmap in Hv as (m & [= -> ->] & Hm). destruct (H2 m Hm) as [Hk Hs].
  exists (pm_key m), (new_row m). split; [done|]. split; [|done].
  rewrite <- Hs, Hrec. by apply apply_mutations_get.
Qed.

Lemma commit_version f cf rf install r (v : Z) rid id db ver db' :
  d1_wf db ->
  commitRecoveryAuthorityInstall encodeEnvelope parseEnvelope envelopeKeyParts f cf rf install r (Z_to_string v) rid id db
    = (Ok (Committed ver), db') \/
  commitRecoveryAuthorityInstall encodeEnvelope parseEnvelope envelopeKeyParts f cf rf install r (Z_to_string v) rid id db
    = (Ok (AlreadyCommitted ver), db') ->
  envelope_at install db' ver.
Proof.
  intros Hwf. unfold commitRecoveryAuthorityInstall, bind, try_catch, lift.
  destruct (install_inconsistency install); [by intros []|].
  destruct (negb _); [by intros []|].
  destruct (install_claim install); [|by intros []].
  destruct (putManyWithAdditionalStatements _ _ _ _ _ _ _ _) as [stored db1] eqn:Hput.
  destruct (install_keeps install r id) as [Hkr _].
  destruct stored as [[vs|key]|e]; unfold ret, throw; [| |by intros []].
  - destruct (mget _ vs) as [version|] eqn:Hv; [|by intros []]. intros [[= <- <-]|[=]].
    eapply batch_version; [exact Hwf| |exact Hkr|exact Hput|exact Hv]. discriminate.
  - pose proof (resolve_keeps rf install (set_walletId r) rid id db1) as Hres.
    intros [H|H]; rewrite H in Hres; simpl in Hres; subst db'.
    + exfalso. revert H. unfold resolve_install, bind, gets, ret. repeat case_match; congruence.
    + by eapply resolve_version.
Qed.
End Writes.
