(* ===== verification/RecoveryRegistration.v ===== *)
(** * What a registration writes

    The statements that [reserveRegistration] leaves for the transaction of a
    registration: they insert the wallet's first recovery set with its locators, and
    fail when there is one already. *)

From S2P Require Import Prelude JsValues IdbTables RecoveryKeys Base64 VersionedRecords VersionedWrites RecoverySets RecoverySetLaws RecoveryStore RecoveryFlow RecoveryWrites.
Local Open Scope Z_scope.
Local Open Scope js_scope.

Section Registration.
Context {E Y : Type} (encodeEnvelope : E -> JsVal) (parseEnvelope : JsVal -> option E)
  (envelopeKeyParts : E -> list string) (envelopeWalletId : E -> string) (envelopeIsSeed : E -> bool).
Notation DB := (D1 (Tables Y)).
Implicit Types (db : DB).

(** ** Locators and wraps *)

Lemma locators_consistent w ids ls : forall keys values,
  locators_inconsistency w ids keys values ls = None ->
  Forall (fun l => loc_walletId l = w) ls /\ NoDup (map loc_recoveryKeyId ls) /\
  Forall (fun l => loc_recoveryKeyId l ∈ ids /\ loc_recoveryKeyId l ∉ keys) ls.
Proof.
  induction ls as [|l ls IH]; intros keys values; simpl.
  { intros _. split_and!; constructor. }
  case_bool_decide as Hw; [|done]. simpl. unfold shas. case_bool_decide as Hin; [|done]. simpl.
  case_bool_decide as Hk; [done|]. simpl. case_bool_decide; [done|]. simpl. intros Hrest. apply IH in Hrest as (H1 & H2 & H3).
  rewrite Forall_forall in H3. split_and!.
  - by constructor.
  - apply NoDup_cons. split; [|done]. intros (l' & Hl & Hl')%list_elem_of_fmap.
    destruct (H3 l' Hl') as [_ Hn]. apply Hn, elem_sadd. by left.
  - constructor; [done|]. apply Forall_forall. intros l' Hl'. destruct (H3 l' Hl') as [? Hn]. split; [done|].
    intros ?. apply Hn, elem_sadd. by right.
Qed.

Lemma fold_sadd (ws : list Wrap) : forall ids, NoDup ids ->
  NoDup (foldl (fun s w => sadd (recoveryKeyId w) s) ids ws) /\
  (forall id, id ∈ foldl (fun s w => sadd (recoveryKeyId w) s) ids ws -> id ∈ ids \/ id ∈ map recoveryKeyId ws).
Proof.
  induction ws as [|w ws IH]; intros ids Hnd; simpl; [by split; [|left]|].
  destruct (IH (sadd (recoveryKeyId w) ids)) as [H1 H2].
  { unfold sadd. case_decide; [done|]. apply NoDup_app. split_and!; [done| |apply NoDup_singleton].
    intros x Hx ->%list_elem_of_singleton. done. }
  split; [done|]. intros id Hid. destruct (H2 id Hid) as [[->|?]%elem_sadd|?]; set_solver.
Qed.

Lemma NoDup_perm {A} (l k : list A) : NoDup l -> (forall x, x ∈ l -> x ∈ k) -> length l = length k -> l ≡ₚ k.
Proof.
  intros Hnd Hin Hlen. apply submseteq_length_Permutation; [|lia]. by apply NoDup_submseteq.
Qed.

(** The locators of a consistent commit are the wallet's, one for each wrap. *)
Lemma commit_locators commit : commitInconsistency envelopeWalletId envelopeIsSeed commit = None ->
  Forall (fun l => loc_walletId l = set_walletId (rc_recoverySet commit)) (rc_locators commit) /\
  map loc_recoveryKeyId (rc_locators commit) ≡ₚ map recoveryKeyId (manifestKekWraps (rc_recoverySet commit)).
Proof.
  unfold commitInconsistency. cbv zeta. set (ids := foldl _ [] _).
  do 3 (case_match; [done|]). destruct (length (rc_locators commit) =? _)%nat eqn:E1; [|done]. cbn [negb].
  destruct (length ids =? _)%nat eqn:E2; [|done]. cbn [negb].
  destruct (locators_inconsistency _ _ _ _ _) eqn:E3; [done|]. intros _.
  apply Nat.eqb_eq in E1, E2. apply locators_consistent in E3 as (L1 & L2 & L3). split; [done|].
  destruct (fold_sadd (manifestKekWraps (rc_recoverySet commit)) [] (NoDup_nil_2)) as [Hn Hi]. fold ids in Hn, Hi.
  transitivity ids.
  - apply NoDup_perm; [done| |by rewrite length_map, E1, E2]. intros id (l & -> & Hl)%list_elem_of_fmap.
    rewrite Forall_forall in L3. by destruct (L3 l Hl).
  - apply NoDup_perm; [done| |by rewrite length_map]. intros id Hid. destruct (Hi id Hid); [set_solver|done].
Qed.

(** ** The transaction *)

(** A statement that is about neither recovery sets nor locators. *)
Definition neutral (s : Statement (Tables Y)) : Prop := forall db c db' c', d1_wf db -> s db c = inr (db', c') ->
  d1_wf db' /\ (forall w, set_row w db' = set_row w db) /\ db_locators db' = db_locators db.

Lemma run_neutral l : Forall neutral l -> forall db c db', d1_wf db -> run_statements l db c = inr db' ->
  d1_wf db' /\ (forall w, set_row w db' = set_row w db) /\ db_locators db' = db_locators db.
Proof.
  induction 1 as [|s l Hs _ IH]; intros db c db' Hwf; simpl; [by intros [= ->]|].
  destruct (s db c) as [e|[db1 c1]] eqn:E1; [done|]. intros Hrun.
  destruct (Hs _ _ _ _ Hwf E1) as (Hwf1 & Hr1 & Hl1). destruct (IH _ _ _ Hwf1 Hrun) as (Hwf2 & Hr2 & Hl2).
  split_and!; [done| |congruence]. intros w. by rewrite Hr2.
Qed.

Definition registration_mutations (commit : RegistrationCommit) : list (Mutation (CommitRecord E)) :=
  let set := rc_recoverySet commit in
  [mkMutation (envelopeKey envelopeKeyParts (rc_envelope commit)) (EnvelopeRecord (rc_envelope commit)) None;
   mkMutation (walletRecoveryEnvelopeSetRecordKey (set_walletId set)) (SetRecord set) None;
   mkMutation (walletRecoveryBackupAcknowledgementRecordKey (set_walletId set)) (AckRecord (rc_acknowledgement commit)) None].

Lemma reserved_spec routing f commit db issued statements db' :
  reserveRegistration encodeEnvelope parseEnvelope envelopeKeyParts envelopeWalletId envelopeIsSeed routing f commit db
    = (Ok (RegistrationReserved issued statements), db') ->
  commitInconsistency envelopeWalletId envelopeIsSeed commit = None /\
  exists prepared,
    prepareBatchMutations (encodeRecord encodeEnvelope) PASSKEY_ENVELOPE_KEY_PREFIX [] (registration_mutations commit) = Ok prepared /\
    statements = mutation_statements prepared ++ map (fun l => on_locators (insert_locator l)) (rc_locators commit).
Proof.
  unfold reserveRegistration. destruct (commitInconsistency _ _ commit); [done|]. unfold bind at 1, lift at 1.
  destruct (claimRecoveryCodeRoutes _ _ _) as [claimed|]; [|done]. unfold bind at 1.
  destruct (readMany _ _ _ _ _) as [[existing|] db1]; [|done]. destruct (negb claimed); [done|].
  destruct (existsb _ existing); [by repeat case_match|]. destruct (existsb _ existing); [done|].
  unfold bind, lift, prepareMutationStatements, registration_mutations. cbv beta iota zeta.
  destruct (prepareBatchMutations _ _ _ _) as [prepared|]; cbn [result_bind]; [|done]. unfold ret.
  intros [= _ <- _]. split; [done|]. by exists prepared.
Qed.

Lemma reserve_keeps routing f commit db :
  (reserveRegistration (Y:=Y) encodeEnvelope parseEnvelope envelopeKeyParts envelopeWalletId envelopeIsSeed routing f commit db).2 = db.
Proof.
  unfold reserveRegistration. destruct (commitInconsistency _ _ commit); [done|]. unfold bind at 1, lift at 1.
  destruct (claimRecoveryCodeRoutes _ _ _) as [claimed|]; [|done]. unfold bind at 1.
  assert (forall keys, (readMany (X:=Tables Y) (parseRecordOrNull parseEnvelope) PASSKEY_ENVELOPE_KEY_PREFIX f keys db).2 = db) as Hk.
  { intros keys. unfold readMany, bind, lift, gets. destruct keys; [done|].
    destruct (prepareReadKeys _ _ _); [|done]. by destruct f. }
  match goal with |- context [readMany _ _ _ ?keys db] => specialize (Hk keys) end.
  destruct (readMany _ _ _ _ _) as [[existing|] db1]; simpl in Hk; subst db1; [|done].
  destruct (negb claimed); [done|]. destruct (existsb _ existing); [by repeat case_match|].
  destruct (existsb _ existing); [done|]. unfold bind, lift. by destruct (prepareMutationStatements _ _).
Qed.

(** What the transaction of a registration leaves when it goes through. *)
Lemma registration_run commit prepared pre post db c db' :
  d1_wf db -> valid_walletId (set_walletId (rc_recoverySet commit)) = true -> Forall neutral pre -> Forall neutral post ->
  prepareBatchMutations (encodeRecord encodeEnvelope) PASSKEY_ENVELOPE_KEY_PREFIX [] (registration_mutations commit) = Ok prepared ->
  run_statements (pre ++ (mutation_statements prepared ++ map (fun l => on_locators (insert_locator l)) (rc_locators commit)) ++ post)
    db c = inr db' ->
  let w := set_walletId (rc_recoverySet commit) in
  set_row w db = None /\ set_row w db' = Some (mkStoredRow 1 (set_json (rc_recoverySet commit))) /\
  (forall w', w' <> w -> set_row w' db' = set_row w' db) /\ d1_wf db' /\
  db_locators db' = db_locators db ++ rc_locators commit /\
  (NoDup (map locatorB64u (db_locators db)) -> NoDup (map locatorB64u (db_locators db'))).
Proof.
  intros Hwf Hw Hpre Hpost Hp Hrun w.
  apply run_statements_app in Hrun as (db1 & c1 & Hrun1 & Hrun). apply run_statements_app in Hrun as (db2 & c2 & Hrun2 & Hrun3).
  destruct (run_neutral _ Hpre _ _ _ Hwf Hrun1) as (Hwf1 & Hr1 & Hl1).
  destruct (prepare_spec _ _ _ _ _ Hp) as (H2 & Hnd & _). rewrite run_mutations in Hrun2 by done.
  destruct (forallb (applies db1) prepared) eqn:Ha; [|done].
  apply run_inserts in Hrun2 as (Hrec & Hl2 & Hu).
  assert (d1_wf db2) as Hwf2 by (unfold d1_wf; rewrite Hrec; by apply apply_mutations_wf).
  destruct (run_neutral _ Hpost _ _ _ Hwf2 Hrun3) as (Hwf3 & Hr3 & Hl3).
  unfold db_locators at 2 in Hl2. rewrite apply_mutations_others in Hl2. fold (db_locators db1) in Hl2.
  unfold registration_mutations in H2. cbv zeta in H2.
  apply Forall2_cons_inv_l in H2 as (m1 & ms1 & Hm1 & H2 & ->).
  apply Forall2_cons_inv_l in H2 as (m2 & ms2 & Hm2 & H2 & ->).
  apply Forall2_cons_inv_l in H2 as (m3 & ms3 & Hm3 & H2 & ->). apply Forall2_nil_inv_l in H2 as ->.
  destruct Hm2 as (Hk2 & Hs2 & Hj2 & _ & He2). simpl in Hk2, Hj2, He2. apply set_record_key in Hk2; [|done].
  assert (pm_storageKey m2 = set_key w) as Hkey by (by rewrite Hs2, Hk2).
  assert (forall w', w' <> w -> set_key w' ∉ map pm_storageKey [m1; m2; m3]) as Hother.
  { intros w' Hne. simpl. destruct Hm1 as (Hk1 & Hs1 & _). destruct Hm3 as (Hk3 & Hs3 & _).
    simpl in Hk1, Hk3. destruct (json_array_first (envelopeKeyParts (rc_envelope commit))) as [text Ht].
    unfold envelopeKey in Hk1. rewrite Ht in Hk1. rewrite Hs1, Hs3, Hkey.
    apply not_elem_of_cons. split; [symmetry in Hk1; intros H; symmetry in H; revert H; by eapply (other_key "["%char)|].
    apply not_elem_of_cons. split; [by intros ?%set_key_inj|].
    apply not_elem_of_cons. split; [intros H; symmetry in H; revert H; by eapply (other_key "w"%char)|set_solver]. }
  assert (set_row w db1 = None) as Hnone.
  { cbn [forallb] in Ha. apply andb_true_iff in Ha as [_ [Ha _]%andb_true_iff]. unfold applies in Ha.
    rewrite He2, Hkey in Ha. fold (set_row w db1) in Ha. by destruct (set_row w db1). }
  split_and!.
  - by rewrite <- Hr1.
  - rewrite Hr3. unfold set_row. rewrite Hrec, <- Hkey.
    etrans; [apply apply_mutations_get; [done|done|set_solver]|]. unfold new_row. by rewrite He2, Hj2.
  - intros w' Hne. rewrite Hr3. etrans; [|apply Hr1]. unfold set_row. rewrite Hrec.
    apply apply_mutations_other; [done|by apply Hother].
  - done.
  - by rewrite Hl3, Hl2, Hl1.
  - rewrite Hl3. intros Hn. apply Hu. unfold db_locators. rewrite apply_mutations_others. fold (db_locators db1). by rewrite Hl1.
Qed.
End Registration.
