(* ===== verification/RecoverySystem.v ===== *)
(** * Recoveries that interleave

    Any number of recoveries, rotations, finalizations and registrations on the store of
    recovery sets.  A request reads in one step and writes in another, and steps of
    others come in between; a statement or a batch is one step, and its answer can be
    lost.  The reference is a state machine per wallet, whose state is the set and its
    version and whose transitions are atomic. *)

From S2P Require Import Prelude JsValues IdbTables RecoveryKeys Base64 VersionedRecords VersionedWrites RecoverySets RecoverySetLaws RecoveryStore RecoveryFlow RecoveryWrites RecoveryRegistration.
Local Open Scope Z_scope.
Local Open Scope js_scope.

(** ** The reference *)

Inductive SetEvent : Type :=
| EvEstablished (r : EnvelopeSet)
| EvReserved (index : nat) (reservationId : string) (nowMs ttlMs : Z)
| EvConsumed (index : nat) (reservationId : string) (nowMs : Z)
| EvReplaced (r : EnvelopeSet).

(** A wallet's set and its version, or none. *)
Definition SetState : Type := option (Z * EnvelopeSet).

(** Every code is active since the set was issued. *)
Definition fresh (r : EnvelopeSet) : bool :=
  forallb (fun w => bool_decide (lifecycle w = CodeActive (issuedAtMs r))) (manifestKekWraps r).

Definition apply_transition (v : Z) (r : EnvelopeSet) (index : nat) (nowMs : Z)
    (transition : RecoveryCodeLifecycleState -> TransitionResult) : option SetState :=
  if valid_set r then
    wrap ← manifestKekWraps r !! index;
    match transition (lifecycle wrap) with
    | inl l => Some (Some (v + 1, set_code r index l nowMs))
    | inr _ => None
    end
  else None.

Definition apply_event (walletId : string) (e : SetEvent) (st : SetState) : option SetState :=
  match e, st with
  | EvEstablished r, None => if bool_decide (set_walletId r = walletId) && fresh r then Some (Some (1, r)) else None
  | EvReserved i rid nowMs ttlMs, Some (v, r) =>
      apply_transition v r i nowMs (fun l => reserveRecoveryCode l rid nowMs ttlMs)
  | EvConsumed i rid nowMs, Some (v, r) =>
      apply_transition v r i nowMs (fun l => consumeReservedRecoveryCode l rid nowMs)
  | EvReplaced r', Some (v, r) =>
      if valid_set r && valid_set r' && fresh r' && bool_decide (set_walletId r' = walletId)
         && (issuedAtMs r <? issuedAtMs r')
      then Some (Some (v + 1, r')) else None
  | _, _ => None
  end.

Fixpoint replay (walletId : string) (es : list SetEvent) (st : SetState) : option SetState :=
  match es with
  | [] => Some st
  | e :: es => st ← apply_event walletId e st; replay walletId es st
  end.

Definition row_of (st : SetState) : option StoredRow := (fun '(v, r) => mkStoredRow v (set_json r)) <$> st.

Definition key_ids_of (st : SetState) : list string :=
  match st with Some (_, r) => map recoveryKeyId (manifestKekWraps r) | None => [] end.

(** ** The system *)

Section System.
Context {E Y : Type} (encodeEnvelope : E -> JsVal) (parseEnvelope : JsVal -> option E)
  (envelopeKeyParts : E -> list string) (envelopeWalletId : E -> string) (envelopeIsSeed : E -> bool)
  (deriveKeyId : list Z -> string -> Result string).
Notation DB := (D1 (Tables Y)).

(** A request between two of its steps. *)
Inductive Pending : Type :=
| PWriteHold (input : PrepareInput) (hold : Hold)
| PPrepareReplace (input : RotateInput) (next : EnvelopeSet) (storeVersion : string)
| PWriteRotation (input : RotateInput) (next : EnvelopeSet) (mutations : list (Mutation (CommitRecord E)))
| PCommitInstall (input : FinalizeInput (E:=E) (Y:=Y)) (c : Consumption)
| PCompleteRegistration (commit : RegistrationCommit (E:=E)) (statements : list (Statement (Tables Y))).

Record System : Type := mkSystem {
  s_db : DB;
  s_pending : list Pending;
  s_trace : list (string * SetEvent);  (** what the writes were, in their order *)
}.

Definition version_of (walletId : string) (db : DB) : option Z := version <$> set_row walletId db.

(** The trace after a write: one entry longer if the version of the set is another. *)
Definition record_event (walletId : string) (e : SetEvent) (db db' : DB) (trace : list (string * SetEvent)) :=
  if bool_decide (version_of walletId db = version_of walletId db') then trace else trace ++ [(walletId, e)].

Inductive step : System -> System -> Prop :=
| step_prepare f input hold db db' ps tr :
    valid_walletId (p_walletId input) = true ->
    prepare_read parseEnvelope deriveKeyId f input db = (Ok (inr hold), db') ->
    step (mkSystem db ps tr) (mkSystem db' (PWriteHold input hold :: ps) tr)
| step_rotate f input next storeVersion db db' ps tr :
    valid_walletId (r_walletId input) = true ->
    rotate_read parseEnvelope f input db = (Ok (inr (next, storeVersion)), db') ->
    step (mkSystem db ps tr) (mkSystem db' (PPrepareReplace input next storeVersion :: ps) tr)
| step_finalize f input c db db' ps tr :
    valid_walletId (f_walletId input) = true ->
    finalize_read parseEnvelope f input db = (Ok (inr c), db') ->
    step (mkSystem db ps tr) (mkSystem db' (PCommitInstall input c :: ps) tr)
| step_register routing f walletId nowMs custody set ls ack envelope issued statements db db' ps tr :
    valid_walletId walletId = true ->
    registration_recovery_records walletId nowMs custody = Ok (set, ls, ack) ->
    let commit := mkRegistrationCommit envelope set ack ls in
    reserveRegistration encodeEnvelope parseEnvelope envelopeKeyParts envelopeWalletId envelopeIsSeed routing f commit db
      = (Ok (RegistrationReserved issued statements), db') ->
    step (mkSystem db ps tr) (mkSystem db' (PCompleteRegistration commit statements :: ps) tr)
| step_write_hold f input hold db db' res ps1 ps2 tr :
    prepare_write encodeEnvelope f input hold db = (res, db') ->
    step (mkSystem db (ps1 ++ PWriteHold input hold :: ps2) tr)
      (mkSystem db' (ps1 ++ ps2) (record_event (p_walletId input)
        (EvReserved (h_index hold) (p_reservationId input) (p_nowMs input) (p_reservationTtlMs input)) db db' tr))
| step_prepare_replace routing f input next storeVersion mutations db db' ps1 ps2 tr :
    replace_prepare parseEnvelope routing f next storeVersion (r_locators input) db = (Ok (Some mutations), db') ->
    step (mkSystem db (ps1 ++ PPrepareReplace input next storeVersion :: ps2) tr)
      (mkSystem db' (ps1 ++ PWriteRotation input next mutations :: ps2) tr)
| step_write_rotation f rf input next mutations db db' res ps1 ps2 tr :
    replace_write encodeEnvelope parseEnvelope f rf next (r_locators input) mutations db = (res, db') ->
    step (mkSystem db (ps1 ++ PWriteRotation input next mutations :: ps2) tr)
      (mkSystem db' (ps1 ++ ps2) (record_event (set_walletId next) (EvReplaced next) db db' tr))
| step_commit_install f cf rf input c db db' res ps1 ps2 tr :
    finalize_write encodeEnvelope parseEnvelope envelopeKeyParts f cf rf input c db = (res, db') ->
    step (mkSystem db (ps1 ++ PCommitInstall input c :: ps2) tr)
      (mkSystem db' (ps1 ++ ps2) (record_event (f_walletId input)
        (EvConsumed (c_index c) (f_reservationId input) (f_nowMs input)) db db' tr))
| step_complete_registration f commit statements before after failure db db' ps1 ps2 tr :
    Forall neutral before -> Forall neutral after ->
    batch f (before ++ statements ++ after) db = (failure, db') ->
    step (mkSystem db (ps1 ++ PCompleteRegistration commit statements :: ps2) tr)
      (mkSystem db' (ps1 ++ ps2) (record_event (set_walletId (rc_recoverySet commit))
        (EvEstablished (rc_recoverySet commit)) db db' tr))
| step_end p db ps1 ps2 tr :
    step (mkSystem db (ps1 ++ p :: ps2) tr) (mkSystem db (ps1 ++ ps2) tr)
| step_other db db' ps tr :
    d1_wf db' -> (forall w, set_row w db' = set_row w db) -> db_locators db' = db_locators db ->
    step (mkSystem db ps tr) (mkSystem db' ps tr).

(** A database without recovery sets and locators. *)
Definition empty_store (db : DB) : Prop := d1_wf db /\ (forall w, set_row w db = None) /\ db_locators db = [].

Inductive reachable : System -> Prop :=
| reachable_init db : empty_store db -> reachable (mkSystem db [] [])
| reachable_step s s' : reachable s -> step s s' -> reachable s'.

(** The events of a wallet in a trace. *)
Definition events_of (walletId : string) (trace : list (string * SetEvent)) : list SetEvent :=
  map snd (List.filter (fun e => bool_decide (e.1 = walletId)) trace).

(** The key identifiers that a wallet has locators for. *)
Definition located_key_ids (walletId : string) (db : DB) : list string :=
  map loc_recoveryKeyId (List.filter (fun l => bool_decide (loc_walletId l = walletId)) (db_locators db)).
End System.
