(* ===== verification/RecoveryRefinement.v ===== *)
(** * Recoveries refine their reference

    The invariant of [RecoverySystem]: the row of every wallet's set is what the
    reference machine comes to by the wallet's events, a request that is about to write
    knows the set of the version it is to replace, and the locators are those of the
    wraps of the sets. *)

From S2P Require Import Prelude JsValues IdbTables RecoveryKeys Base64 VersionedRecords VersionedWrites RecoverySets RecoverySetLaws RecoveryStore RecoveryFlow RecoveryWrites RecoveryRegistration RecoverySystem.
Local Open Scope Z_scope.
Local Open Scope js_scope.

(** ** The reference machine *)

Lemma replay_app w es1 : forall es2 st,
  replay w (es1 ++ es2) st = (st' ← replay w es1 st; replay w es2 st').
Proof.
  induction es1 as [|e es1 IH]; intros es2 st; [done|]. simpl. destruct (apply_event w e st); [apply IH|done].
Qed.

Lemma apply_transition_some v r i now tr st : apply_transition v r i now tr = Some st ->
  valid_set r = true /\ exists wrap l, manifestKekWraps r !! i = Some wrap /\ tr (lifecycle wrap) = inl l /\
    st = Some (v + 1, set_code r i l now).
Proof.
  unfold apply_transition. destruct (valid_set r); [|done]. split; [done|].
  destruct (manifestKekWraps r !! i) as [wrap|] eqn:E; [|done]. simpl in H.
  destruct (tr (lifecycle wrap)) as [l|] eqn:El; [|done]. injection H as <-. eauto.
Qed.

Definition state_wallet (st : SetState) (w : string) : Prop :=
  match st with Some (_, r) => set_walletId r = w | None => True end.

Lemma apply_event_wallet w e st st' : state_wallet st w -> apply_event w e st = Some st' ->
  state_wallet st' w /\ is_Some st'.
Proof.
  intros Hw. destruct e, st as [[v r0]|]; try done; simpl.
  - case_bool_decide; [|done]. simpl. destruct (fresh r); [|done]. by intros [= <-].
  - intros (_ & ? & ? & _ & _ & ->)%apply_transition_some. done.
  - intros (_ & ? & ? & _ & _ & ->)%apply_transition_some. done.
  - destruct (_ && _) eqn:E; [|done]. intros [= <-]. simpl. split; [|done].
    apply andb_true_iff in E as [[_ E%bool_decide_eq_true]%andb_true_iff _]. done.
Qed.

Lemma replay_wallet w es : forall st st', state_wallet st w -> replay w es st = Some st' -> state_wallet st' w.
Proof.
  induction es as [|e es IH]; intros st st' Hw; simpl; [by intros [= <-]|].
  destruct (apply_event w e st) as [st1|] eqn:E; [|done]. apply IH. by eapply apply_event_wallet.
Qed.

(** Changing a lifecycle leaves the key identifiers. *)
Lemma set_code_key_ids r i l now : map recoveryKeyId (manifestKekWraps (set_code r i l now)) = map recoveryKeyId (manifestKekWraps r).
Proof.
  unfold set_code. simpl. revert i. induction (manifestKekWraps r) as [|w ws IH]; intros [|i]; [done..|].
  simpl. f_equal. apply IH.
Qed.

Lemma find_index_lookup {A} (p : A -> bool) l : forall i a, find_index p l = Some (i, a) -> l !! i = Some a /\ p a = true.
Proof.
  induction l as [|b l IH]; intros i a; simpl; [done|]. destruct (p b) eqn:E; [by intros [= <- <-]|].
  destruct (find_index p l) as [[j c]|]; [|done]. intros [= <- <-]. by apply IH.
Qed.

(** The set that a row stands for. *)
Lemma valid_set_wallet r : valid_set r = true -> valid_walletId (set_walletId r) = true.
Proof. unfold valid_set. intros H. do 8 apply andb_true_iff in H as [H _]. done. Qed.

Lemma set_json_valid_inj r r0 : valid_set r = true -> valid_walletId (set_walletId r0) = true ->
  set_json r = set_json r0 -> r = r0.
Proof.
  intros Hr H0 H. pose proof (set_roundtrip r "" Hr) as Hp. rewrite H in Hp. by apply set_json_inv in Hp as [-> _].
Qed.

Section Refinement.
Context {E Y : Type} (encodeEnvelope : E -> JsVal) (parseEnvelope : JsVal -> option E)
  (envelopeKeyParts : E -> list string) (envelopeWalletId : E -> string) (envelopeIsSeed : E -> bool)
  (deriveKeyId : list Z -> string -> Result string).
Notation DB := (D1 (Tables Y)).
Implicit Types (db : DB).

(** ** What a request knows *)

(** The wallet's set has been [r] at version [v]; it may have moved on. *)
Definition saw w (v : Z) (r : EnvelopeSet) db : Prop :=
  valid_set r = true /\ set_walletId r = w /\ 0 < v <= MAX_SAFE_INTEGER /\
  exists row, set_row w db = Some row /\
    (v < version row \/ version row = v /\ forall r0, record_json row = set_json r0 -> valid_walletId (set_walletId r0) = true -> r = r0).

(** Versions only go up. *)
Definition advances db db' : Prop := forall w row, set_row w db = Some row ->
  exists row', set_row w db' = Some row' /\ (version row < version row' \/ row' = row).

Lemma saw_advances w v r db db' : advances db db' -> saw w v r db -> saw w v r db'.
Proof.
  intros Ha (H1 & H2 & H3 & row & Hrow & Hor). destruct (Ha w row Hrow) as (row' & Hrow' & Hv).
  split_and!; [done|done|lia|lia|]. exists row'. split; [done|]. destruct Hv as [Hv| ->]; [|done].
  left. destruct Hor as [|[? _]]; lia.
Qed.

Lemma saw_read f w db r version db' : valid_walletId w = true ->
  readRecoveryEnvelopeSet (Y:=Y) parseEnvelope f w db = (Ok (Some (r, version)), db') ->
  db' = db /\ exists v, version = Z_to_string v /\ saw w v r db.
Proof.
  intros Hw Hread. apply readSet_spec in Hread as (-> & Hv & Hwr & row & Hrow & -> & Hb & Hu); [|done].
  split; [done|]. eexists. split; [done|]. split_and!; [done|done|lia|lia|]. exists row. split; [done|]. by right.
Qed.

(** A compare-and-set on a set that was seen finds the very set. *)
Lemma saw_current w v r r' db db' (st : SetState) :
  saw w v r db -> cas_write w v r' db db' -> set_row w db = row_of st -> state_wallet st w -> st = Some (v, r).
Proof.
  intros (Hr & Hw & _ & row & Hrow & Hor) ((row1 & Hrow1 & Hv) & _) Hst Hwst.
  rewrite Hrow in Hrow1. injection Hrow1 as <-. destruct Hor as [?|[_ Huniq]]; [lia|].
  rewrite Hrow in Hst. destruct st as [[v0 r0]|]; [|done]. injection Hst as ->. simpl in *. subst v0.
  rewrite (Huniq r0) by (try done; rewrite Hwst, <- Hw; by apply valid_set_wallet). done.
Qed.

Definition pending_ok db (p : Pending (E:=E) (Y:=Y)) : Prop :=
  match p with
  | PWriteHold input hold =>
      exists v wrap, h_storeVersion hold = Z_to_string v /\ saw (p_walletId input) v (h_record hold) db /\
        manifestKekWraps (h_record hold) !! h_index hold = Some wrap /\
        reserveRecoveryCode (lifecycle wrap) (p_reservationId input) (p_nowMs input) (p_reservationTtlMs input)
          = inl (h_lifecycle hold)
  | PPrepareReplace input next storeVersion =>
      exists v r, storeVersion = Z_to_string v /\ saw (set_walletId next) v r db /\ issuedAtMs r < issuedAtMs next /\
        valid_set next = true /\ fresh next = true /\
        Forall (fun l => loc_walletId l = set_walletId next) (r_locators input) /\
        map loc_recoveryKeyId (r_locators input) ≡ₚ map recoveryKeyId (manifestKekWraps next)
  | PWriteRotation input next mutations =>
      exists v r mus, saw (set_walletId next) v r db /\ issuedAtMs r < issuedAtMs next /\
        valid_set next = true /\ fresh next = true /\
        Forall (fun l => loc_walletId l = set_walletId next) (r_locators input) /\
        map loc_recoveryKeyId (r_locators input) ≡ₚ map recoveryKeyId (manifestKekWraps next) /\
        mutations = mkMutation (walletRecoveryEnvelopeSetRecordKey (set_walletId next)) (SetRecord next) (Some (Z_to_string v)) :: mus /\
        Forall other_record mus
  | PCommitInstall input c =>
      exists v wrap, c_storeVersion c = Z_to_string v /\ saw (f_walletId input) v (c_record c) db /\
        manifestKekWraps (c_record c) !! c_index c = Some wrap /\
        consumeReservedRecoveryCode (lifecycle wrap) (f_reservationId input) (f_nowMs input) = inl (c_lifecycle c)
  | PCompleteRegistration commit statements =>
      valid_walletId (set_walletId (rc_recoverySet commit)) = true /\ fresh (rc_recoverySet commit) = true /\
      Forall (fun l => loc_walletId l = set_walletId (rc_recoverySet commit)) (rc_locators commit) /\
      map loc_recoveryKeyId (rc_locators commit) ≡ₚ map recoveryKeyId (manifestKekWraps (rc_recoverySet commit)) /\
      exists prepared,
        prepareBatchMutations (encodeRecord encodeEnvelope) PASSKEY_ENVELOPE_KEY_PREFIX [] (registration_mutations envelopeKeyParts commit)
          = Ok prepared /\
        statements = mutation_statements prepared ++ map (fun l => on_locators (insert_locator l)) (rc_locators commit)
  end.

Lemma pending_advances db db' p : advances db db' -> pending_ok db p -> pending_ok db' p.
Proof. intros Ha. destruct p; simpl; [naive_solver eauto using saw_advances..|done]. Qed.

(** ** The invariant *)

Definition wallet_ok (s : System (E:=E) (Y:=Y)) (w : string) (st : SetState) : Prop :=
  replay w (events_of w (s_trace s)) None = Some st /\ set_row w (s_db s) = row_of st /\
  state_wallet st w /\ (is_Some st -> valid_walletId w = true) /\
  located_key_ids w (s_db s) ≡ₚ key_ids_of st.

Definition system_ok (s : System (E:=E) (Y:=Y)) : Prop :=
  d1_wf (s_db s) /\ (forall w, exists st, wallet_ok s w st) /\
  NoDup (map locatorB64u (db_locators (s_db s))) /\ Forall (pending_ok (s_db s)) (s_pending s).

(** *** Requests that have read *)

Lemma prepare_read_ok f input hold db db' : valid_walletId (p_walletId input) = true ->
  prepare_read parseEnvelope deriveKeyId f input db = (Ok (inr hold), db') ->
  db' = db /\ pending_ok db (PWriteHold input hold).
Proof.
  intros Hw. unfold prepare_read, bind at 1.
  destruct (readRecoveryEnvelopeSet _ f _ db) as [[[[r version]|]|] db1] eqn:Hread; try done.
  destruct (saw_read _ _ _ _ _ _ Hw Hread) as (-> & v & -> & Hsaw). unfold bind, lift.
  destruct (deriveKeyId _ _) as [id|]; [|done]. destruct (negb _); [done|].
  destruct (find_index _ _) as [[i wrap]|] eqn:Hfind; [|done]. apply find_index_lookup in Hfind as [Hi _].
  destruct (reserveRecoveryCode (lifecycle wrap) _ _ _) as [l|[[] m]] eqn:Hres;
    destruct (lifecycle wrap) as [| | |] eqn:Hl; try done;
    (destruct l; [done| |done..]); intros [= <- <-]; (split; [done|]); simpl; exists v, wrap; by rewrite Hl.
Qed.

Lemma finalize_read_ok f input c db db' : valid_walletId (f_walletId input) = true ->
  finalize_read parseEnvelope f input db = (Ok (inr c), db') -> db' = db /\ pending_ok db (PCommitInstall input c).
Proof.
  intros Hw. unfold finalize_read, bind.
  destruct (readRecoveryEnvelopeSet _ f _ db) as [[[[r version]|]|] db1] eqn:Hread; try done.
  destruct (saw_read _ _ _ _ _ _ Hw Hread) as (-> & v & -> & Hsaw). unfold ret.
  destruct (find_index _ _) as [[i wrap]|] eqn:Hfind; [|done]. apply find_index_lookup in Hfind as [Hi _].
  destruct (consumeReservedRecoveryCode (lifecycle wrap) _ _) as [l|[? m]] eqn:Hres; [|done].
  destruct l; try done. intros [= <- <-]. split; [done|]. simpl. by exists v, wrap.
Qed.

Lemma follow_wraps w ls : forall seen wraps, length ls = length wraps -> locators_follow_wraps w seen ls wraps = true ->
  Forall (fun l => loc_walletId l = w) ls /\ map loc_recoveryKeyId ls = map rw_recoveryKeyId wraps.
Proof.
  induction ls as [|l ls IH]; intros seen [|wr wraps] Hlen H; try done. simpl in H.
  apply andb_true_iff in H as [[[H1%bool_decide_eq_true H2%bool_decide_eq_true]%andb_true_iff _]%andb_true_iff H].
  apply IH in H as [IH1 IH2]; [|by injection Hlen]. split; [by constructor|]. simpl. by rewrite H2, IH2.
Qed.

Lemma replacement_fresh w replacement now : fresh (buildReplacementRecord w replacement now) = true.
Proof.
  unfold fresh, buildReplacementRecord. simpl. induction (rotation_wraps replacement) as [|wr wraps IH]; [done|].
  simpl. by rewrite bool_decide_true, IH.
Qed.

Lemma rotate_read_ok f input next version db db' : valid_walletId (r_walletId input) = true ->
  rotate_read parseEnvelope f input db = (Ok (inr (next, version)), db') ->
  db' = db /\ pending_ok db (PPrepareReplace input next version).
Proof.
  intros Hw. unfold rotate_read, bind.
  destruct (readRecoveryEnvelopeSet _ f _ db) as [[[[r version']|]|] db1] eqn:Hread; try done.
  destruct (saw_read _ _ _ _ _ _ Hw Hread) as (-> & v & -> & Hsaw). unfold ret.
  destruct (negb (bool_decide (Z_to_string v = _))); [done|]. destruct (Z.leb_spec (r_nowMs input) (issuedAtMs r)); [done|].
  destruct (negb (bool_decide (rotation_walletId _ = _))); [done|].
  destruct (length (r_locators input) =? _)%nat eqn:Hlen; [|done]. apply Nat.eqb_eq in Hlen.
  destruct (locators_follow_wraps _ _ _ _) eqn:Hfollow; [|done]. simpl.
  apply follow_wraps in Hfollow as [Hf1 Hf2]; [|done].
  destruct (parseWalletRecoveryEnvelopeSetRecord _ _ _) as [r'|] eqn:Hp; [|done]. intros [= <- <- <-].
  assert (valid_set (buildReplacementRecord (r_walletId input) (r_replacement input) (r_nowMs input)) = true) as Hvalid.
  { pose proof Hp as Hp'. apply set_json_inv in Hp as [-> _]; [|done]. by apply set_parses in Hp' as [? _]. }
  split; [done|]. exists v, r. split_and!; [done..| | |].
  - apply replacement_fresh.
  - done.
  - rewrite Hf2. unfold buildReplacementRecord. simpl. by rewrite map_map.
Qed.

Lemma registration_wraps_fresh now wraps : forall seen ws, registration_wraps now seen wraps = Ok ws ->
  forallb (fun w => bool_decide (lifecycle w = CodeActive now)) ws = true.
Proof.
  induction wraps as [|wrap wraps IH]; intros seen ws H; simpl in H; [by injection H as <-|].
  apply result_bind_ok in H as (id & _ & H). destruct (shas id seen); [done|].
  do 5 (apply result_bind_ok in H as (? & ? & H)). injection H as <-. simpl. rewrite bool_decide_true by done. by eapply IH.
Qed.

Lemma registration_records_fresh w now custody set ls ack : registration_recovery_records w now custody = Ok (set, ls, ack) ->
  set_walletId set = w /\ fresh set = true.
Proof.
  unfold registration_recovery_records. intros H. do 2 (apply result_bind_ok in H as (? & _ & H)).
  apply result_bind_ok in H as (ws & Hws & H). do 5 (apply result_bind_ok in H as (? & _ & H)).
  injection H as <- _ _. split; [done|]. unfold fresh. simpl. by eapply registration_wraps_fresh.
Qed.

Lemma register_ok routing f w now custody set ls ack envelope issued statements db db' :
  valid_walletId w = true -> registration_recovery_records w now custody = Ok (set, ls, ack) ->
  reserveRegistration encodeEnvelope parseEnvelope envelopeKeyParts envelopeWalletId envelopeIsSeed routing f
    (mkRegistrationCommit envelope set ack ls) db = (Ok (RegistrationReserved issued statements), db') ->
  db' = db /\ pending_ok db (PCompleteRegistration (mkRegistrationCommit envelope set ack ls) statements).
Proof.
  intros Hw Hrec Hres. destruct (registration_records_fresh _ _ _ _ _ _ Hrec) as [<- Hfresh].
  pose proof (reserve_keeps encodeEnvelope parseEnvelope envelopeKeyParts envelopeWalletId envelopeIsSeed routing f
    (mkRegistrationCommit envelope set ack ls) db) as Hk. rewrite Hres in Hk. simpl in Hk. split; [done|].
  apply reserved_spec in Hres as (Hc & prepared & Hp & ->). apply commit_locators in Hc as [Hl1 Hl2].
  simpl. split_and!; [done..|]. by exists prepared.
Qed.

(** *** Writes *)

Lemma cas_advances w v r db db' : cas_write w v r db db' -> advances db db'.
Proof.
  intros ((row & Hrow & Hv) & Hrow' & Ho & _) w1 row1 Hrow1. destruct (decide (w1 = w)) as [->|Hne].
  - rewrite Hrow in Hrow1. injection Hrow1 as <-. eexists. split; [done|]. left. simpl. lia.
  - exists row1. rewrite Ho by done. split; [done|by right].
Qed.

Lemma events_of_app w tr w' e : events_of w (tr ++ [(w', e)]) = events_of w tr ++ (if bool_decide (w' = w) then [e] else []).
Proof. unfold events_of. rewrite List.filter_app, map_app. simpl. by case_bool_decide. Qed.

Lemma unchanged_ok w e db ps1 p ps2 tr :
  system_ok (mkSystem db (ps1 ++ p :: ps2) tr) -> system_ok (mkSystem db (ps1 ++ ps2) (record_event w e db db tr)).
Proof.
  intros (Hwf & Hw & Hnd & Hp). unfold record_event. rewrite bool_decide_true by done. split_and!; [done..|]. simpl in *.
  apply Forall_app in Hp as [H1 [_ H2]%Forall_cons]. by apply Forall_app.
Qed.

(** The write of one event. *)
Lemma changed_ok w e db db' ps1 p ps2 tr st st' :
  system_ok (mkSystem db (ps1 ++ p :: ps2) tr) -> wallet_ok (mkSystem db (ps1 ++ p :: ps2) tr) w st ->
  apply_event w e st = Some st' -> valid_walletId w = true -> d1_wf db' -> advances db db' ->
  version_of w db <> version_of w db' -> set_row w db' = row_of st' ->
  (forall w', w' <> w -> set_row w' db' = set_row w' db) ->
  (forall w', w' <> w -> located_key_ids w' db' = located_key_ids w' db) -> located_key_ids w db' ≡ₚ key_ids_of st' ->
  NoDup (map locatorB64u (db_locators db')) ->
  system_ok (mkSystem db' (ps1 ++ ps2) (record_event w e db db' tr)).
Proof.
  intros (Hwf & Hall & Hnd & Hp) (Hrep & Hrow & Hwst & Hval & Hloc) He Hw Hwf' Hadv Hver Hrow' Hoth Hlo Hl' Hnd'.
  unfold record_event. rewrite bool_decide_false by done. split_and!; simpl in *; [done| |done|].
  - intros w'. destruct (decide (w' = w)) as [->|Hne].
    + exists st'. unfold wallet_ok. simpl. rewrite events_of_app, bool_decide_true by done. rewrite replay_app, Hrep. simpl.
      rewrite He. destruct (apply_event_wallet _ _ _ _ Hwst He) as [? ?]. done.
    + destruct (Hall w') as (st1 & H1 & H2 & H3 & H4 & H5). exists st1. unfold wallet_ok. simpl in *.
      rewrite events_of_app, bool_decide_false, app_nil_r by done. rewrite Hoth, Hlo by done. done.
  - apply Forall_app in Hp as [H1 [_ H2]%Forall_cons]. apply Forall_app.
    split; (eapply Forall_impl; [eassumption|]); intros q Hq; by eapply pending_advances.
Qed.

(** A compare-and-set that carries out one transition of the set that was seen. *)
Lemma cas_ok w e v r r' db db' ps1 p ps2 tr :
  system_ok (mkSystem db (ps1 ++ p :: ps2) tr) -> saw w v r db -> cas_write w v r' db db' ->
  apply_event w e (Some (v, r)) = Some (Some (v + 1, r')) ->
  (forall w', w' <> w -> located_key_ids w' db' = located_key_ids w' db) ->
  (located_key_ids w db ≡ₚ map recoveryKeyId (manifestKekWraps r) ->
   located_key_ids w db' ≡ₚ map recoveryKeyId (manifestKekWraps r')) ->
  (NoDup (map locatorB64u (db_locators db)) -> NoDup (map locatorB64u (db_locators db'))) ->
  system_ok (mkSystem db' (ps1 ++ ps2) (record_event w e db db' tr)).
Proof.
  intros Hok Hsaw Hcas He Hlo Hl Hnd. pose proof Hok as (_ & Hall & Hn & _). destruct (Hall w) as (st & Hst).
  pose proof Hst as (_ & Hrow & Hwst & _ & Hloc). simpl in *.
  rewrite (saw_current _ _ _ _ _ _ _ Hsaw Hcas Hrow Hwst) in *.
  pose proof (cas_advances _ _ _ _ _ Hcas) as Hadv. destruct Hcas as ((row & Hr & Hv) & Hr' & Ho & Hwf').
  apply (changed_ok w e db db' ps1 p ps2 tr (Some (v, r)) (Some (v + 1, r'))); auto.
  - destruct Hsaw as (Hv1 & <- & _). by apply valid_set_wallet.
  - unfold version_of. rewrite Hr, Hr'. simpl. intros [= ?]. lia.
Qed.

(** *** Locators *)

Lemma located_none w w' ls : w' <> w -> Forall (fun l => loc_walletId l = w) ls ->
  List.filter (fun l => bool_decide (loc_walletId l = w')) ls = [].
Proof.
  intros Hne. induction 1 as [|l ls Hw _ IH]; [done|]. simpl. rewrite bool_decide_false by congruence. done.
Qed.

Lemma located_rest w w' ls db db' : w' <> w -> Forall (fun l => loc_walletId l = w) ls ->
  db_locators db' = List.filter (fun l => negb (bool_decide (loc_walletId l = w))) (db_locators db) ++ ls ->
  located_key_ids (Y:=Y) w' db' = located_key_ids w' db.
Proof.
  intros Hne Hls Hl. unfold located_key_ids. rewrite Hl, List.filter_app.
  rewrite (located_none w w' ls), app_nil_r by done. f_equal. clear Hl. induction (db_locators db) as [|l rows IH]; [done|]. simpl.
  case_bool_decide as H1; simpl; [rewrite bool_decide_false by congruence; done|]. by rewrite IH.
Qed.

Lemma located_all w ls : Forall (fun l => loc_walletId l = w) ls ->
  List.filter (fun l => bool_decide (loc_walletId l = w)) ls = ls.
Proof. induction 1 as [|l ls Hw _ IH]; [done|]. simpl. by rewrite bool_decide_true, IH. Qed.

Lemma located_replaced w ls db db' : Forall (fun l => loc_walletId l = w) ls ->
  db_locators db' = List.filter (fun l => negb (bool_decide (loc_walletId l = w))) (db_locators db) ++ ls ->
  located_key_ids (Y:=Y) w db' = map loc_recoveryKeyId ls.
Proof.
  intros Hls Hl. unfold located_key_ids. rewrite Hl, List.filter_app, (located_all _ _ Hls).
  assert (List.filter (fun l => bool_decide (loc_walletId l = w))
    (List.filter (fun l => negb (bool_decide (loc_walletId l = w))) (db_locators db)) = []) as ->; [|done].
  clear Hl. induction (db_locators db) as [|l rows IH]; [done|]. simpl. case_bool_decide as H; simpl; [done|].
  by rewrite bool_decide_false.
Qed.

Lemma located_same w db db' : db_locators db' = db_locators db -> located_key_ids (Y:=Y) w db' = located_key_ids w db.
Proof. unfold located_key_ids. by intros ->. Qed.

(** *** Every step keeps the invariant *)

Lemma write_hold_ok f input hold db db' res ps1 ps2 tr :
  system_ok (mkSystem db (ps1 ++ PWriteHold input hold :: ps2) tr) ->
  prepare_write encodeEnvelope f input hold db = (res, db') ->
  system_ok (mkSystem db' (ps1 ++ ps2) (record_event (p_walletId input)
    (EvReserved (h_index hold) (p_reservationId input) (p_nowMs input) (p_reservationTtlMs input)) db db' tr)).
Proof.
  intros Hok. pose proof Hok as (Hwf & _ & _ & Hp). simpl in Hp, Hwf.
  apply Forall_app in Hp as [_ [(v & wrap & Hver & Hsaw & Hi & Hres) _]%Forall_cons].
  unfold prepare_write, bind. rewrite Hver.
  destruct (writeRecoveryEnvelopeSet _ _ _ _ db) as [r1 db1] eqn:Hwrite. intros Hout.
  assert (db1 = db') as -> by (destruct r1; unfold ret in Hout; congruence).
  pose proof Hsaw as (Hvalid & Hw & Hv & _).
  assert (set_walletId (hold_set input hold) = p_walletId input) as Hws by done.
  apply writeSet_spec in Hwrite as [[-> _]|(Hcas & Hl & _)]; [by eapply unchanged_ok| |done|rewrite Hws, <- Hw; by apply valid_set_wallet|done].
  rewrite Hws in Hcas. eapply cas_ok; [done|exact Hsaw|exact Hcas| | | |].
  - simpl. unfold apply_transition. rewrite Hvalid, Hi. simpl. rewrite Hres. done.
  - intros. by apply located_same.
  - intros H. unfold hold_set. rewrite set_code_key_ids. by rewrite (located_same _ _ _ Hl).
  - by rewrite Hl.
Qed.

Lemma commit_install_ok f cf rf input c db db' res ps1 ps2 tr :
  system_ok (mkSystem db (ps1 ++ PCommitInstall input c :: ps2) tr) ->
  finalize_write encodeEnvelope parseEnvelope envelopeKeyParts f cf rf input c db = (res, db') ->
  system_ok (mkSystem db' (ps1 ++ ps2) (record_event (f_walletId input)
    (EvConsumed (c_index c) (f_reservationId input) (f_nowMs input)) db db' tr)).
Proof.
  intros Hok. pose proof Hok as (Hwf & _ & _ & Hp). simpl in Hp, Hwf.
  apply Forall_app in Hp as [_ [(v & wrap & Hver & Hsaw & Hi & Hres) _]%Forall_cons].
  unfold finalize_write, bind. rewrite Hver.
  destruct (commitRecoveryAuthorityInstall _ _ _ _ _ _ _ _ _ _ _ db) as [r1 db1] eqn:Hwrite. intros Hout.
  assert (db1 = db') as -> by (destruct r1; unfold ret in Hout; congruence).
  pose proof Hsaw as (Hvalid & Hw & Hv & _).
  assert (set_walletId (consumed_set input c) = f_walletId input) as Hws by done.
  apply commit_spec in Hwrite as [[-> _]|(Hcas & Hl)]; [by eapply unchanged_ok| |done|rewrite Hws, <- Hw; by apply valid_set_wallet|done].
  rewrite Hws in Hcas. eapply cas_ok; [done|exact Hsaw|exact Hcas| | | |].
  - simpl. unfold apply_transition. rewrite Hvalid, Hi. simpl. rewrite Hres. done.
  - intros. by apply located_same.
  - intros H. unfold consumed_set. rewrite set_code_key_ids. by rewrite (located_same _ _ _ Hl).
  - by rewrite Hl.
Qed.

Lemma write_rotation_ok f rf input next mutations db db' res ps1 ps2 tr :
  system_ok (mkSystem db (ps1 ++ PWriteRotation input next mutations :: ps2) tr) ->
  replace_write encodeEnvelope parseEnvelope f rf next (r_locators input) mutations db = (res, db') ->
  system_ok (mkSystem db' (ps1 ++ ps2) (record_event (set_walletId next) (EvReplaced next) db db' tr)).
Proof.
  intros Hok. pose proof Hok as (Hwf & _ & _ & Hp). simpl in Hp, Hwf.
  apply Forall_app in Hp as [_ [(v & r & mus & Hsaw & Hlt & Hvn & Hfn & Hls & Hperm & -> & Hmus) _]%Forall_cons].
  pose proof Hsaw as (Hvalid & Hw & Hv & _). intros Hwrite.
  apply replace_write_spec in Hwrite as [[-> _]|(Hcas & Hl & Hnd & _)];
    [by eapply unchanged_ok| |done|by apply valid_set_wallet|done|done].
  eapply cas_ok; [done|exact Hsaw|exact Hcas| | | |done].
  - simpl. rewrite Hvalid, Hvn, Hfn, bool_decide_true by done. simpl. by rewrite (proj2 (Z.ltb_lt _ _) Hlt).
  - intros. by eapply located_rest.
  - intros _. by rewrite (located_replaced _ _ _ _ Hls Hl).
Qed.

Lemma complete_registration_ok f commit statements before after failure db db' ps1 ps2 tr :
  system_ok (mkSystem db (ps1 ++ PCompleteRegistration commit statements :: ps2) tr) ->
  Forall neutral before -> Forall neutral after ->
  batch f (before ++ statements ++ after) db = (failure, db') ->
  system_ok (mkSystem db' (ps1 ++ ps2) (record_event (set_walletId (rc_recoverySet commit))
    (EvEstablished (rc_recoverySet commit)) db db' tr)).
Proof.
  intros Hok Hb Ha Hbatch. pose proof Hok as (Hwf & Hall & Hn & Hp). simpl in Hp, Hwf, Hall, Hn.
  apply Forall_app in Hp as [_ [(Hw & Hf & Hls & Hperm & prepared & Hprep & ->) _]%Forall_cons].
  apply batch_cases in Hbatch. set (w := set_walletId (rc_recoverySet commit)) in *.
  assert (db' = db \/ run_statements (before ++ (mutation_statements prepared ++
    map (fun l => on_locators (insert_locator l)) (rc_locators commit)) ++ after) db 0 = inr db') as [->|Hrun];
    [|by eapply unchanged_ok|].
  { destruct (run_statements _ db 0) as [e|out]; [by left; destruct Hbatch|]. destruct f as [|[]]; destruct Hbatch as [_ ->]; auto. }
  destruct (registration_run _ _ _ _ _ _ _ _ _ Hwf Hw Hb Ha Hprep Hrun) as (Hnone & Hsome & Hoth & Hwf' & Hl & Hnd).
  fold w in Hnone, Hsome, Hoth.
  destruct (Hall w) as (st & Hst). pose proof Hst as (_ & Hrow & _ & _ & Hloc). simpl in *.
  rewrite Hnone in Hrow. destruct st as [[]|]; [done|]. simpl in Hloc.
  refine (changed_ok w _ db db' ps1 _ ps2 tr None (Some (1, rc_recoverySet commit)) Hok Hst _ Hw Hwf' _ _ Hsome Hoth _ _ (Hnd Hn)).
  - simpl. by rewrite bool_decide_true, Hf.
  - intros w1 row1 Hrow1. destruct (decide (w1 = w)) as [->|Hne]; [congruence|].
    exists row1. rewrite Hoth by done. split; [done|by right].
  - unfold version_of. by rewrite Hnone, Hsome.
  - intros w' Hne. unfold located_key_ids. rewrite Hl, List.filter_app.
    by rewrite (located_none w w' (rc_locators commit)), app_nil_r.
  - unfold located_key_ids. rewrite Hl, List.filter_app, map_app, (located_all _ _ Hls). fold (located_key_ids w db).
    apply Permutation_nil_r in Hloc. rewrite Hloc. simpl. done.
Qed.

Lemma read_step_ok db ps p tr : system_ok (mkSystem db ps tr) -> pending_ok db p -> system_ok (mkSystem db (p :: ps) tr).
Proof. intros (Hwf & Hall & Hnd & Hp) Hq. split_and!; [done..|]. by constructor. Qed.

Notation step' := (step (Y:=Y) encodeEnvelope parseEnvelope envelopeKeyParts envelopeWalletId envelopeIsSeed deriveKeyId).

Lemma step_ok s s' : system_ok s -> step' s s' -> system_ok s'.
Proof.
  intros Hok Hstep. destruct Hstep.
  - destruct (prepare_read_ok _ _ _ _ _ H H0) as [-> ?]. by apply read_step_ok.
  - destruct (rotate_read_ok _ _ _ _ _ _ H H0) as [-> ?]. by apply read_step_ok.
  - destruct (finalize_read_ok _ _ _ _ _ H H0) as [-> ?]. by apply read_step_ok.
  - destruct (register_ok _ _ _ _ _ _ _ _ _ _ _ _ _ H H0 H1) as [-> ?]. by apply read_step_ok.
  - by eapply write_hold_ok.
  - destruct Hok as (Hwf & Hall & Hnd & Hp). simpl in *.
    apply Forall_app in Hp as [H1 [(v & r & -> & Hsaw & Hrest) H2]%Forall_cons].
    apply replace_prepare_spec in H as (-> & mus & -> & Hmus). split_and!; simpl; [done..|].
    apply Forall_app. split; [done|]. constructor; [|done]. simpl. exists v, r, mus. naive_solver.
  - by eapply write_rotation_ok.
  - by eapply commit_install_ok.
  - exact (complete_registration_ok _ _ _ _ _ _ _ _ _ _ _ Hok H H0 H1).
  - destruct Hok as (Hwf & Hall & Hnd & Hp). simpl in *. split_and!; simpl; [done..|].
    apply Forall_app in Hp as [H1 [_ H2]%Forall_cons]. by apply Forall_app.
  - destruct Hok as (Hwf & Hall & Hnd & Hp). simpl in *. split_and!; simpl; [done| |by rewrite H1|].
    + intros w. destruct (Hall w) as (st & Hst). exists st. unfold wallet_ok in *. simpl in *.
      by rewrite H0, (located_same _ _ _ H1).
    + eapply Forall_impl; [exact Hp|]. intros p. apply pending_advances. intros w row Hrow. exists row. rewrite H0. auto.
Qed.

Lemma reachable_ok s :
  reachable (Y:=Y) encodeEnvelope parseEnvelope envelopeKeyParts envelopeWalletId envelopeIsSeed deriveKeyId s -> system_ok s.
Proof.
  induction 1 as [db (Hwf & Hrow & Hl)|s s' _ IH Hstep]; [|by eapply step_ok].
  split; [done|]. split; [|simpl; rewrite Hl; split; constructor].
  intros w. exists None. unfold wallet_ok, located_key_ids. simpl. rewrite Hrow, Hl. split_and!; try done.
Qed.
End Refinement.
