(* ===== verification/RecoverySafety.v ===== *)
(** * What recoveries promise

    Theorems about every run of [RecoverySystem]: the stored sets are linearizable, a
    code is spent at most once and only by the request that holds it, locators and sets
    agree, and an answer says what was done. *)

From S2P Require Import Prelude JsValues IdbTables RecoveryKeys Base64 VersionedRecords VersionedWrites RecoverySets RecoverySetLaws RecoveryStore RecoveryFlow RecoveryWrites RecoveryRegistration RecoverySystem RecoveryRefinement.
Local Open Scope Z_scope.
Local Open Scope js_scope.

(** ** Codes in the reference machine *)

(** The events that change code [i], and those that use it. *)
Definition touches (i : nat) (e : SetEvent) : bool :=
  match e with
  | EvReserved j _ _ _ | EvConsumed j _ _ => Nat.eqb i j
  | EvEstablished _ | EvReplaced _ => true
  end.

Definition uses (i : nat) (e : SetEvent) : bool :=
  match e with EvReserved j _ _ _ | EvConsumed j _ _ => Nat.eqb i j | _ => false end.

Definition code_of (i : nat) (st : SetState) : option RecoveryCodeLifecycleState :=
  '(_, r) ← st; lifecycle <$> manifestKekWraps r !! i.

Lemma fresh_code r i l : fresh r = true -> lifecycle <$> manifestKekWraps r !! i = Some l -> l = CodeActive (issuedAtMs r).
Proof.
  unfold fresh. intros Hf Hl. destruct (manifestKekWraps r !! i) as [w|] eqn:Hi; [|done]. injection Hl as <-.
  apply list_elem_of_lookup_2 in Hi. rewrite forallb_forall in Hf. apply list_elem_of_In in Hi.
  specialize (Hf _ Hi). by apply bool_decide_eq_true in Hf.
Qed.

Lemma set_code_at v r i l now : is_Some (manifestKekWraps r !! i) -> code_of i (Some (v, set_code r i l now)) = Some l.
Proof. intros [w Hw]. unfold code_of, set_code. simpl. by rewrite list_lookup_alter_eq, Hw. Qed.

Lemma set_code_other v v' r i j l now : i <> j -> code_of i (Some (v', set_code r j l now)) = code_of i (Some (v, r)).
Proof. intros Hne. unfold code_of, set_code. simpl. by rewrite list_lookup_alter_ne. Qed.

(** An event that does not touch a code leaves it. *)
Lemma untouched w e st st' i : apply_event w e st = Some st' -> touches i e = false -> code_of i st' = code_of i st.
Proof.
  intros He Ht. destruct e, st as [[v r0]|]; try done; simpl in He, Ht;
    apply apply_transition_some in He as (_ & wrap & l & Hi & _ & ->);
    apply set_code_other; by apply Nat.eqb_neq.
Qed.

Lemma reserve_result l rid now ttl l' : reserveRecoveryCode l rid now ttl = inl l' ->
  l' = CodeReserved (lifecycle_issuedAtMs l) rid now (now + ttl).
Proof. unfold reserveRecoveryCode. destruct l; try done; destruct (ttl <=? 0); try done; [|destruct (_ && _)]; congruence. Qed.

Lemma consume_result l rid now l' : consumeReservedRecoveryCode l rid now = inl l' ->
  exists iss at_ exp, l = CodeReserved iss rid at_ exp /\ now < exp /\ l' = CodeConsumed iss rid now.
Proof.
  unfold consumeReservedRecoveryCode. destruct l as [|iss holder at_ exp| |]; try done. case_bool_decide; [|done]. subst. simpl.
  destruct (Z.leb_spec exp now); [done|]. intros [= <-]. by exists iss, at_, exp.
Qed.

(** What an event leaves of the code it touches. *)
Lemma touched w e st st' i l : apply_event w e st = Some st' -> touches i e = true -> code_of i st' = Some l ->
  match e with
  | EvEstablished r | EvReplaced r => l = CodeActive (issuedAtMs r)
  | EvReserved _ rid now ttl => exists iss, l = CodeReserved iss rid now (now + ttl)
  | EvConsumed _ rid now =>
      exists iss at_ exp, code_of i st = Some (CodeReserved iss rid at_ exp) /\ now < exp /\ l = CodeConsumed iss rid now
  end.
Proof.
  intros He Ht Hl. destruct e, st as [[v r0]|]; try done; simpl in He.
  - case_bool_decide; [|done]. simpl in He. destruct (fresh r) eqn:Hf; [|done]. injection He as <-.
    by eapply fresh_code.
  - apply apply_transition_some in He as (_ & wrap & l' & Hi & Hr & ->). simpl in Ht. apply Nat.eqb_eq in Ht as <-.
    rewrite set_code_at in Hl by by eexists. injection Hl as <-. apply reserve_result in Hr. by eexists.
  - apply apply_transition_some in He as (_ & wrap & l' & Hi & Hr & ->). simpl in Ht. apply Nat.eqb_eq in Ht as <-.
    rewrite set_code_at in Hl by by eexists. injection Hl as <-. apply consume_result in Hr as (iss & at_ & exp & Hw & Hlt & ->).
    exists iss, at_, exp. unfold code_of. simpl. by rewrite Hi, <- Hw.
  - destruct (_ && _) eqn:Hc; [|done]. injection He as <-.
    apply andb_true_iff in Hc as [[[_ Hf]%andb_true_iff _]%andb_true_iff _]. by eapply fresh_code.
Qed.

(** A held code was held by the last event that touched it. *)
Lemma held_since w es st i iss rid at_ exp : replay w es None = Some st ->
  code_of i st = Some (CodeReserved iss rid at_ exp) ->
  exists p1 p2 ttl, es = p1 ++ EvReserved i rid at_ ttl :: p2 /\ exp = at_ + ttl /\ Forall (fun e => touches i e = false) p2.
Proof.
  revert st. induction es as [|e es IH] using rev_ind; intros st Hrep Hc; [by injection Hrep as <-|].
  rewrite replay_app in Hrep. destruct (replay w es None) as [st0|] eqn:E0; [|done]. simpl in Hrep.
  destruct (apply_event w e st0) as [st1|] eqn:He; [|done]. injection Hrep as <-.
  destruct (touches i e) eqn:Ht.
  - pose proof (touched _ _ _ _ _ _ He Ht Hc) as H. destruct e; [done| | |done].
    + destruct H as [iss' [= -> -> -> ->]]. simpl in Ht. apply Nat.eqb_eq in Ht as <-. exists es, [], ttlMs. by split_and!.
    + by destruct H as (? & ? & ? & _ & _ & ?).
  - rewrite (untouched _ _ _ _ _ He Ht) in Hc. destruct (IH _ eq_refl Hc) as (p1 & p2 & ttl & -> & -> & Hf).
    exists p1, (p2 ++ [e]), ttl. split_and!; [by rewrite <- app_assoc|done|]. apply Forall_app. split; [done|by constructor].
Qed.

(** A spent code is not used again before its set is replaced. *)
Lemma spent_stays w es st st' i iss rid at_ : replay w es st = Some st' -> code_of i st = Some (CodeConsumed iss rid at_) ->
  forall q1 e q2, es = q1 ++ e :: q2 -> uses i e = true -> exists r, EvReplaced r ∈ q1.
Proof.
  revert st. induction es as [|e0 es IH]; intros st Hrep Hc q1 e q2 Heq Hu; [by destruct q1|].
  simpl in Hrep. destruct (apply_event w e0 st) as [st1|] eqn:He; [|done]. simpl in Hrep.
  assert (Huse : uses i e0 = true -> False).
  { intros Hu0. destruct e0, st as [[v r0]|]; try done; simpl in He, Hu0; apply Nat.eqb_eq in Hu0 as <-;
      apply apply_transition_some in He as (_ & wrap & l & Hi & Hr & _); unfold code_of in Hc; simpl in Hc;
      rewrite Hi in Hc; injection Hc as Hc; by rewrite Hc in Hr. }
  destruct q1 as [|e1 q1]; [injection Heq as <- _; by destruct Huse|]. injection Heq as <- Heq.
  destruct (touches i e0) eqn:Ht.
  - destruct e0; simpl in Ht, Huse; [by destruct st as [[]|]|by rewrite Ht in Huse; destruct Huse..|]. exists r. set_solver.
  - rewrite <- (untouched _ _ _ _ _ He Ht) in Hc. destruct (IH _ Hrep Hc _ _ _ Heq Hu) as [r Hr]. exists r. set_solver.
Qed.

Lemma consumption_spec w pre i rid now post st : replay w (pre ++ EvConsumed i rid now :: post) None = Some st ->
  (exists p1 p2 at_ ttl, pre = p1 ++ EvReserved i rid at_ ttl :: p2 /\ now < at_ + ttl /\
     Forall (fun e => touches i e = false) p2) /\
  (forall q1 e q2, post = q1 ++ e :: q2 -> uses i e = true -> exists r, EvReplaced r ∈ q1).
Proof.
  rewrite replay_app. destruct (replay w pre None) as [st0|] eqn:E0; [|done]. cbn [mbind option_bind replay].
  destruct (apply_event w (EvConsumed i rid now) st0) as [st1|] eqn:He; [|done]. cbn [mbind option_bind]. intros Hrep.
  assert (exists iss at_ exp, code_of i st0 = Some (CodeReserved iss rid at_ exp) /\ now < exp /\
    code_of i st1 = Some (CodeConsumed iss rid now)) as (iss & at_ & exp & H0 & Hlt & H1).
  { destruct st0 as [[v r]|]; [|done]. simpl in He. apply apply_transition_some in He as (_ & wrap & l & Hi & Hr & ->).
    apply consume_result in Hr as (iss & at_ & exp & Hw & Hlt & ->). exists iss, at_, exp.
    rewrite set_code_at by by eexists. unfold code_of. simpl. by rewrite Hi, <- Hw. }
  split; [|by eapply spent_stays].
  destruct (held_since _ _ _ _ _ _ _ _ E0 H0) as (p1 & p2 & ttl & -> & -> & Hf). by exists p1, p2, at_, ttl.
Qed.

Section Safety.
Context {E Y : Type} (encodeEnvelope : E -> JsVal) (parseEnvelope : JsVal -> option E)
  (envelopeKeyParts : E -> list string) (envelopeWalletId : E -> string) (envelopeIsSeed : E -> bool)
  (deriveKeyId : list Z -> string -> Result string).
Notation reachable' := (reachable (Y:=Y) encodeEnvelope parseEnvelope envelopeKeyParts envelopeWalletId envelopeIsSeed deriveKeyId).

(** C3. However the steps of recoveries, rotations, finalizations and registrations
    interleave, and whatever answers of the database are lost, the recovery set that is
    stored for a wallet is what the reference machine comes to when it applies the
    wallet's writes one after the other, each as an atomic transition of the set that is
    stored at that point; and the set's version counts them. *)
Theorem recovery_sets_linearizable s w : reachable' s ->
  exists st, replay w (events_of w (s_trace s)) None = Some st /\ set_row w (s_db s) = row_of st.
Proof. intros (_ & Hall & _)%reachable_ok. destruct (Hall w) as (st & Hrep & Hrow & _). by exists st. Qed.

(** C4. A recovery code is spent at most once in the lifetime of its set: in the writes of a
    wallet's set, a code that is spent had been reserved by the same request, whose hold
    has not run out, and nothing has changed the code in between; and afterwards the code
    is neither reserved nor spent again unless the whole set has been replaced. *)
Theorem recovery_code_single_use s w pre i rid now post : reachable' s ->
  events_of w (s_trace s) = pre ++ EvConsumed i rid now :: post ->
  (exists p1 p2 at_ ttl, pre = p1 ++ EvReserved i rid at_ ttl :: p2 /\ now < at_ + ttl /\
     Forall (fun e => touches i e = false) p2) /\
  (forall q1 e q2, post = q1 ++ e :: q2 -> uses i e = true -> exists r, EvReplaced r ∈ q1).
Proof.
  intros (_ & Hall & _)%reachable_ok Hev. destruct (Hall w) as (st & Hrep & _). rewrite Hev in Hrep.
  by eapply consumption_spec.
Qed.

(** C10. The locators of recovery codes and the recovery sets agree: no locator is listed
    twice, and the locators of a wallet are for exactly the codes of its stored set, one
    for each, and none when it has no set. *)
Theorem locators_match_sets s : reachable' s ->
  NoDup (map locatorB64u (db_locators (s_db s))) /\
  forall w, exists st, set_row w (s_db s) = row_of st /\ located_key_ids w (s_db s) ≡ₚ key_ids_of st.
Proof.
  intros (_ & Hall & Hnd & _)%reachable_ok. split; [done|]. intros w. destruct (Hall w) as (st & _ & Hrow & _ & _ & Hl).
  by exists st.
Qed.

(** ** Answers *)

(** The event that a request is about to write. *)
Definition event_of (p : Pending (E:=E) (Y:=Y)) : option (string * SetEvent) :=
  match p with
  | PWriteHold input hold => Some (p_walletId input,
      EvReserved (h_index hold) (p_reservationId input) (p_nowMs input) (p_reservationTtlMs input))
  | PWriteRotation _ next _ => Some (set_walletId next, EvReplaced next)
  | PCommitInstall input c => Some (f_walletId input, EvConsumed (c_index c) (f_reservationId input) (f_nowMs input))
  | _ => None
  end.

(** The write carried out the event on the set that was stored, giving it version [version]. *)
Definition carried_out_event (p : Pending (E:=E) (Y:=Y)) (db db' : D1 (Tables Y)) (version : string) : Prop :=
  exists w e st v r, event_of p = Some (w, e) /\ set_row w db = row_of st /\
    apply_event w e st = Some (Some (v, r)) /\ set_row w db' = row_of (Some (v, r)) /\ version = Z_to_string v.

(** A request's event applies to the set it has seen. *)
Lemma event_applies (db : D1 (Tables Y)) p w e : pending_ok encodeEnvelope envelopeKeyParts db p -> event_of p = Some (w, e) ->
  exists v r r', saw w v r db /\ apply_event w e (Some (v, r)) = Some (Some (v + 1, r')) /\ set_walletId r' = w /\
    match p with
    | PWriteHold input hold => h_storeVersion hold = Z_to_string v /\ r' = hold_set input hold
    | PCommitInstall input c => c_storeVersion c = Z_to_string v /\ r' = consumed_set input c
    | PWriteRotation _ next mutations => r' = next /\ exists mus, Forall other_record mus /\
        mutations = mkMutation (walletRecoveryEnvelopeSetRecordKey (set_walletId next)) (SetRecord next) (Some (Z_to_string v)) :: mus
    | _ => False
    end.
Proof.
  destruct p as [input hold| |input next mutations|input c|]; try done; intros Hp [= <- <-].
  - destruct Hp as (v & wrap & Hver & Hsaw & Hi & Hres). exists v, (h_record hold), (hold_set input hold).
    pose proof Hsaw as (Hvalid & Hw & _). split_and!; [done| |done..]. simpl. unfold apply_transition.
    rewrite Hvalid, Hi. simpl. by rewrite Hres.
  - destruct Hp as (v & r & mus & Hsaw & Hlt & Hvn & Hfn & Hls & Hperm & -> & Hmus). exists v, r, next.
    split_and!; [done| |done|done|by exists mus]. destruct Hsaw as (Hvalid & _). simpl.
    rewrite Hvalid, Hvn, Hfn, bool_decide_true by done. simpl. by rewrite (proj2 (Z.ltb_lt _ _) Hlt).
  - destruct Hp as (v & wrap & Hver & Hsaw & Hi & Hres). exists v, (c_record c), (consumed_set input c).
    pose proof Hsaw as (Hvalid & Hw & _). split_and!; [done| |done..]. simpl. unfold apply_transition.
    rewrite Hvalid, Hi. simpl. by rewrite Hres.
Qed.

Lemma cas_carried_out s p w e v r r' db' : system_ok encodeEnvelope envelopeKeyParts s -> event_of p = Some (w, e) ->
  saw w v r (s_db s) -> apply_event w e (Some (v, r)) = Some (Some (v + 1, r')) -> cas_write w v r' (s_db s) db' ->
  carried_out_event p (s_db s) db' (Z_to_string (v + 1)).
Proof.
  intros (_ & Hall & _) Hev Hsaw He Hcas. destruct (Hall w) as (st & _ & Hrow & Hw & _).
  rewrite (saw_current _ _ _ _ _ _ _ Hsaw Hcas Hrow Hw) in Hrow. destruct Hcas as (_ & Hrow' & _).
  exists w, e, (Some (v, r)), (v + 1), r'. by split_and!.
Qed.

Lemma resolve_already rf install w rid id (db db' : D1 (Tables Y)) version :
  resolve_install parseEnvelope envelopeKeyParts rf install w rid id db = (Ok (AlreadyCommitted version), db') ->
  exists r v, readRecoveryEnvelopeSet parseEnvelope rf w db = (Ok (Some (r, v)), db) /\
    existsb (is_consumption rid) (manifestKekWraps r) = true.
Proof.
  unfold resolve_install, bind. pose proof (readSet_keeps parseEnvelope rf w db) as H1.
  destruct (readRecoveryEnvelopeSet _ rf w db) as [[a|] db1]; simpl in H1; subst db1; [|done].
  unfold gets, ret. destruct a as [[r v]|]; simpl; [|by repeat case_match].
  destruct (existsb (is_consumption rid) (manifestKekWraps r)) eqn:Hc; [|by repeat case_match]. intros _. by exists r, v.
Qed.

(** The set that a wallet has contains a code that the request spent. *)
Definition spent_by (db : D1 (Tables Y)) (w rid : string) : Prop :=
  exists r v wrap, set_row w db = Some (mkStoredRow v (set_json r)) /\ wrap ∈ manifestKekWraps r /\ is_consumption rid wrap = true.

Lemma read_spent s rf w rid r v : system_ok encodeEnvelope envelopeKeyParts s -> valid_walletId w = true ->
  readRecoveryEnvelopeSet parseEnvelope rf w (s_db s) = (Ok (Some (r, v)), s_db s) ->
  existsb (is_consumption rid) (manifestKekWraps r) = true -> spent_by (s_db s) w rid.
Proof.
  intros (_ & Hall & _) Hw Hread Hc. destruct (Hall w) as (st & _ & Hrow & Hwst & _).
  apply readSet_spec in Hread as (_ & _ & Hwr & row & Hr & _ & _ & Huniq); [|done].
  rewrite Hrow in Hr. destruct st as [[v0 r0]|]; [|done]. injection Hr as <-. simpl in Hwst.
  apply existsb_exists in Hc as (wrap & Hin & Hc). exists r0, v0, wrap. split; [done|].
  rewrite <- (Huniq r0) by (try done; by rewrite Hwst). split; [by apply list_elem_of_In|done].
Qed.


(** ** A clock that is behind *)

Lemma unparsed_row_throws f w (db : D1 (Tables Y)) row : set_row w db = Some row -> valid_walletId w = true ->
  parseRecordOrNull parseEnvelope (record_json row) = None ->
  exists e, readRecoveryEnvelopeSet parseEnvelope f w db = (Throw e, db).
Proof.
  intros Hrow Hw Hp. unfold readRecoveryEnvelopeSet, bind, readRecord.
  destruct (normalizeRecordKey (walletRecoveryEnvelopeSetRecordKey w)) as [k|e] eqn:Hk.
  2:{ exists e. unfold read, readMany, bind, lift. simpl. by rewrite Hk. }
  destruct f; [|eexists; unfold read, readMany, bind, lift; simpl; by rewrite Hk].
  rewrite (read_run _ _ _ _ _ Hk). apply set_record_key in Hk as ->; [|done].
  change (tget _ (records db)) with (set_row w db). rewrite Hrow. unfold read_row, parseReadResult.
  destruct (parseVersion _); [|by eexists]. destruct (record_json row); rewrite ?Hp; by eexists.
Qed.

(** C30. A recovery that is prepared by a clock behind the issuance of the set (the clock of
    another server, say) takes the set away: the hold is written and reported, and
    every read of the set it leaves fails, so that no code of the wallet can be used
    and the codes cannot be rotated. *)
Theorem backdated_hold_unreadable input (db db' : D1 (Tables Y)) v r w nonce wrapped aad es rid exp version :
  d1_wf db -> valid_walletId (p_walletId input) = true ->
  set_row (p_walletId input) db = Some (mkStoredRow v (set_json r)) -> set_walletId r = p_walletId input ->
  p_nowMs input < issuedAtMs r ->
  prepareWalletRecoveryWithCodeV1 encodeEnvelope parseEnvelope deriveKeyId NoFault NoFault input db
    = (Ok (Prepared w nonce wrapped aad es rid exp version), db') ->
  forall f, exists e, readRecoveryEnvelopeSet parseEnvelope f (p_walletId input) db' = (Throw e, db').
Proof.
  intros Hwf Hw Hrow Hr Hlt. unfold prepareWalletRecoveryWithCodeV1, bind at 1.
  destruct (prepare_read _ _ _ _ _) as [[[res|hold]|] db1] eqn:Hread; [| |done].
  { unfold ret. intros [= -> _]. revert Hread. unfold prepare_read, bind, lift, ret. repeat case_match; congruence. }
  destruct (prepare_read_ok encodeEnvelope parseEnvelope envelopeKeyParts deriveKeyId _ _ _ _ _ Hw Hread) as [-> (v' & wrap & Hver & Hsaw & Hi & Hres)].
  assert (h_record hold = r) as Hhr.
  { destruct Hsaw as (Hvalid & Hwr & _ & row & Hrow' & Hor). rewrite Hrow in Hrow'. injection Hrow' as <-.
    unfold prepare_read, bind in Hread.
    destruct (readRecoveryEnvelopeSet _ _ _ db) as [[[[r1 ver]|]|] db1] eqn:Hrs; try done.
    apply readSet_spec in Hrs as (-> & _ & _ & row & Hrow1 & _ & _ & Huniq); [|done]. rewrite Hrow in Hrow1. injection Hrow1 as <-.
    rewrite <- (Huniq r) by (try done; by rewrite Hr). revert Hread. unfold lift, ret. repeat case_match; intros; simplify_eq; done. }
  unfold prepare_write, bind. rewrite Hver.
  destruct (writeRecoveryEnvelopeSet _ _ _ _ db) as [[[ver|]|] db2] eqn:Hwrite; try done. unfold ret. intros Hout f.
  injection Hout as _ _ _ _ _ _ _ _ <-. pose proof Hsaw as (Hvalid & Hwr & Hv & _).
  assert (set_walletId (hold_set input hold) = p_walletId input) as Hws by done.
  apply writeSet_spec in Hwrite as [[_ Hn]|(Hcas & _)]; [by destruct (Hn ver)| |done|by rewrite Hws|done].
  destruct Hcas as (_ & Hrow' & _). rewrite Hws in Hrow'. eapply unparsed_row_throws; [exact Hrow'|done|]. simpl.
  destruct (parseRecordOrNull parseEnvelope (set_json (hold_set input hold))) as [rec|] eqn:Hp; [|done]. exfalso.
  unfold parseRecordOrNull in Hp. simpl in Hp. destruct (parseWalletId _); [|done].
  destruct (parseWalletRecoveryEnvelopeSetRecord _ _ _) as [r2|] eqn:Hparse; [|done].
  pose proof Hparse as Hps. apply set_json_inv in Hparse as [-> _]; [|by rewrite Hws]. apply set_parses in Hps as [Hvs _].
  unfold valid_set in Hvs. apply andb_true_iff in Hvs as [_ Hle]. unfold hold_set in Hle. simpl in Hle. rewrite Hhr in Hle. lia.
Qed.
End Safety.

(** ** A run *)

Definition trial_text (c : string) (n : nat) : string := c +:+ repeat_text n "A".
Definition trial_letters : list string := ["A"; "B"; "C"; "D"; "E"; "F"; "G"; "H"; "I"; "J"].
Definition trial_key_id (c : string) : string := WALLET_RECOVERY_KEY_ID_PREFIX_V1 +:+ trial_text c 42.

Definition trial_custody : CeremonyRecovery := mkCeremonyRecovery
  (map (fun c => JObject [("recoveryKeyId", JString (trial_key_id c)); ("nonceB64u", JString (trial_text "A" 15));
                          ("ciphertextB64u", JString (trial_text "A" 22)); ("aadHashB64u", JString (trial_text "A" 42))])
     trial_letters)
  (map (fun c => JObject [("locatorB64u", JString (trial_text c 42)); ("recoveryKeyId", JString (trial_key_id c))])
     trial_letters)
  (JString (trial_text "A" 15)) (JString (trial_text "A" 22)) (JString (trial_text "A" 42)).

(** An envelope is its identifier. *)
Definition trial_encode (id : string) : JsVal :=
  JObject [("kind", JString "wallet_custody_envelope_v2"); ("envelopeId", JString id)].
Definition trial_parse (raw : JsVal) : option string :=
  match jget "envelopeId" raw with JString id => Some id | _ => None end.
Definition trial_parts (id : string) : list string := ["w1"; "passkey"; id].
Definition trial_derive (code : list Z) (_ : string) : Result string := Ok (trial_key_id "C").

Definition trial_install : Install (E:=string) (Y:=unit) :=
  mkInstall None "second" (Ok tt) [fun y _ => inr (y, 1)] (fun _ _ => true).

Definition trial_db : D1 (Tables unit) := mkD1 [] (mkTables [] tt).

Notation trial_run :=
  (reachable (Y:=unit) trial_encode trial_parse trial_parts (fun _ => "w1") (fun _ => true) trial_derive).

(** The wallet is registered at 1000, a code is held at 2000 and spent at 2500. *)
Definition trial_prepare (nowMs : Z) : PrepareInput :=
  mkPrepareInput "w1" (trial_key_id "C") [1; 2; 3] "recovery-1" nowMs 600.
Definition trial_finalize : FinalizeInput (E:=string) (Y:=unit) := mkFinalizeInput "w1" "recovery-1" 2500 trial_install.

Definition no_set : EnvelopeSet := mkEnvelopeSet "" [] [] 0 0.

Definition set_of_records (records : Result (EnvelopeSet * list Locator * Acknowledgement)) : EnvelopeSet :=
  match records with Ok (set, _, _) => set | Throw _ => no_set end.

Definition commit_of_records (records : Result (EnvelopeSet * list Locator * Acknowledgement))
  : RegistrationCommit (E:=string) :=
  match records with
  | Ok (set, ls, ack) => mkRegistrationCommit "first" set ack ls
  | Throw _ => mkRegistrationCommit "" no_set (mkAcknowledgement "" (NInt 0) (NInt 0)) []
  end.

Definition complete_registration (r : Result (RegistrationReservation (Y:=unit)) * D1 (Tables unit)) : D1 (Tables unit) :=
  match r with
  | (Ok (RegistrationReserved _ statements), db) => (batch NoFault statements db).2
  | (_, db) => db
  end.

Definition trial_set : EnvelopeSet := Eval vm_compute in
  set_of_records (registration_recovery_records "w1" 1000 trial_custody).

Definition trial_commit : RegistrationCommit (E:=string) :=
  commit_of_records (registration_recovery_records "w1" 1000 trial_custody).

Definition trial_registered : D1 (Tables unit) := Eval vm_compute in
  complete_registration (reserveRegistration trial_encode trial_parse trial_parts (fun _ => "w1") (fun _ => true)
    None NoFault trial_commit trial_db).

Lemma trial_registered_reachable : trial_run (mkSystem trial_registered [] [("w1", EvEstablished trial_set)]).
Proof.
  eapply reachable_step; [eapply reachable_step; [apply (reachable_init _ _ _ _ _ _ trial_db)|]|].
  - split; [constructor|by split].
  - eapply (step_register _ _ _ _ _ _ None NoFault "w1" 1000 trial_custody _ _ _ "first"); [by vm_compute|vm_compute; reflexivity|].
    vm_compute. reflexivity.
  - assert (forall c sts failure db db' tr', batch NoFault ([] ++ sts ++ []) db = (failure, db') ->
      record_event (set_walletId (rc_recoverySet c)) (EvEstablished (rc_recoverySet c)) db db' [] = tr' ->
      step (Y:=unit) trial_encode trial_parse trial_parts (fun _ => "w1") (fun _ => true) trial_derive
        (mkSystem db ([] ++ PCompleteRegistration c sts :: []) []) (mkSystem db' ([] ++ []) tr')) as H.
    { intros; subst. by eapply step_complete_registration; [constructor..|]. }
    eapply H; [vm_compute; reflexivity|vm_compute; reflexivity].
Qed.

Lemma trial_held : exists hold w nonce wrapped aad es rid exp version db',
  trial_run (mkSystem trial_registered [PWriteHold (trial_prepare 2000) hold] [("w1", EvEstablished trial_set)]) /\
  prepare_write trial_encode NoFault (trial_prepare 2000) hold trial_registered
    = (Ok (Prepared w nonce wrapped aad es rid exp version), db').
Proof.
  do 10 eexists. split.
  - eapply reachable_step; [exact trial_registered_reachable|].
    eapply (step_prepare _ _ _ _ _ _ NoFault (trial_prepare 2000)); [by vm_compute|vm_compute; reflexivity].
  - vm_compute. reflexivity.
Qed.

Lemma trial_reachable : exists s,
  trial_run s /\
  events_of "w1" (s_trace s) = [EvEstablished trial_set; EvReserved 2 "recovery-1" 2000 600] ++ EvConsumed 2 "recovery-1" 2500 :: [].
Proof.
  eexists. split.
  - eapply reachable_step; [eapply reachable_step; [eapply reachable_step; [eapply reachable_step;
      [exact trial_registered_reachable|]|]|]|].
    + eapply (step_prepare _ _ _ _ _ _ NoFault (trial_prepare 2000)); [by vm_compute|vm_compute; reflexivity].
    + eapply (step_write_hold _ _ _ _ _ _ NoFault _ _ _ _ _ [] []). vm_compute; reflexivity.
    + eapply (step_finalize _ _ _ _ _ _ NoFault trial_finalize); [by vm_compute|vm_compute; reflexivity].
    + eapply (step_commit_install _ _ _ _ _ _ NoFault NoFault NoFault _ _ _ _ _ [] []). vm_compute; reflexivity.
  - vm_compute. reflexivity.
Qed.

(** A hold at 500, before the set was issued. *)
Lemma trial_backdated : exists db' w nonce wrapped aad es rid exp version,
  d1_wf trial_registered /\ set_row "w1" trial_registered = Some (mkStoredRow 1 (set_json trial_set)) /\
  prepareWalletRecoveryWithCodeV1 trial_encode trial_parse trial_derive NoFault NoFault (trial_prepare 500) trial_registered
    = (Ok (Prepared w nonce wrapped aad es rid exp version), db').
Proof.
  do 9 eexists. split; [exact (proj1 (reachable_ok _ _ _ _ _ _ _ trial_registered_reachable))|].
  split; vm_compute; reflexivity.
Qed.

Lemma recovery_sets_linearizable_witness : exists s,
  trial_run s /\ exists st, replay "w1" (events_of "w1" (s_trace s)) None = Some st /\ set_row "w1" (s_db s) = row_of st.
Proof.
  destruct trial_reachable as (s & Hs & _). exists s. split; [exact Hs|].
  exact (recovery_sets_linearizable trial_encode trial_parse trial_parts (fun _ => "w1") (fun _ => true) trial_derive s "w1" Hs).
Defined.

Lemma recovery_code_single_use_witness : exists s pre,
  trial_run s /\ events_of "w1" (s_trace s) = pre ++ EvConsumed 2 "recovery-1" 2500 :: [] /\
  exists p1 p2 at_ ttl, pre = p1 ++ EvReserved 2 "recovery-1" at_ ttl :: p2 /\ 2500 < at_ + ttl /\
    Forall (fun e => touches 2 e = false) p2.
Proof.
  destruct trial_reachable as (s & Hs & Hev). exists s. eexists. split; [exact Hs|]. split; [exact Hev|].
  exact (proj1 (recovery_code_single_use trial_encode trial_parse trial_parts (fun _ => "w1") (fun _ => true) trial_derive
    s "w1" _ _ _ _ _ Hs Hev)).
Defined.

Lemma locators_match_sets_witness : exists s,
  trial_run s /\ NoDup (map locatorB64u (db_locators (s_db s))) /\
  exists st, set_row "w1" (s_db s) = row_of st /\ located_key_ids "w1" (s_db s) ≡ₚ key_ids_of st.
Proof.
  destruct trial_reachable as (s & Hs & _). exists s. split; [exact Hs|].
  destruct (locators_match_sets trial_encode trial_parse trial_parts (fun _ => "w1") (fun _ => true) trial_derive s Hs) as [H1 H2].
  split; [exact H1|exact (H2 "w1")].
Defined.


Lemma backdated_hold_unreadable_witness : exists db' answer,
  prepareWalletRecoveryWithCodeV1 trial_encode trial_parse trial_derive NoFault NoFault (trial_prepare 500) trial_registered
    = (Ok answer, db') /\
  forall f, exists e, readRecoveryEnvelopeSet trial_parse f "w1" db' = (Throw e, db').
Proof.
  destruct trial_backdated as (db' & w & nonce & wrapped & aad & es & rid & exp & version & Hwf & Hrow & Hp).
  exists db', (Prepared w nonce wrapped aad es rid exp version). split; [exact Hp|].
  exact (backdated_hold_unreadable trial_encode trial_parse trial_parts trial_derive (trial_prepare 500) trial_registered db'
    1 trial_set _ _ _ _ _ _ _ _ Hwf eq_refl Hrow eq_refl eq_refl Hp).
Defined.
