(* ===== verification/Capabilities.v ===== *)
(** * Capabilities and operation fingerprints

    [packages/shared-ts/src/authorization/capabilityKinds.ts] and
    [operationFingerprint.ts], with the digests of [utils/digests.ts] they use: what an
    operation is, which identifiers it carries, and the text whose digest names it. *)

From S2P Require Import Prelude JsValues Base64.
Local Open Scope Z_scope.
Local Open Scope js_scope.

(** ** Kinds *)

Inductive CapabilityKind : Type := vaultAccess | nearEd25519MpcSigning | evmEcdsaMpcSigning.

Inductive VaultOperationKind : Type := proxyUse | reveal.

Inductive NearEd25519MpcOperationKind : Type :=
| nearSignTransaction
| nearSignDelegateAction
| nearSignNep413Message
| nearExportKey.

Inductive EvmEcdsaMpcOperationKind : Type := evmSignTransaction | evmExportKey.

(** A capability with one of its own operations. *)
Inductive CapabilityOperationRef : Type :=
| VaultOperation (operationKind : VaultOperationKind)
| NearOperation (operationKind : NearEd25519MpcOperationKind)
| EvmOperation (operationKind : EvmEcdsaMpcOperationKind).

Inductive AuthorizationEvidenceKind : Type := seamsSession | passkeyAssertion | emailOtp | voiceIdDevice.

#[global] Instance CapabilityKind_eq_dec : EqDecision CapabilityKind.
Proof. solve_decision. Defined.
#[global] Instance VaultOperationKind_eq_dec : EqDecision VaultOperationKind.
Proof. solve_decision. Defined.
#[global] Instance NearEd25519MpcOperationKind_eq_dec : EqDecision NearEd25519MpcOperationKind.
Proof. solve_decision. Defined.
#[global] Instance EvmEcdsaMpcOperationKind_eq_dec : EqDecision EvmEcdsaMpcOperationKind.
Proof. solve_decision. Defined.
#[global] Instance CapabilityOperationRef_eq_dec : EqDecision CapabilityOperationRef.
Proof. solve_decision. Defined.
#[global] Instance AuthorizationEvidenceKind_eq_dec : EqDecision AuthorizationEvidenceKind.
Proof. solve_decision. Defined.

Definition CAPABILITY_KINDS (k : CapabilityKind) : string :=
  match k with
  | vaultAccess => "vault_access"
  | nearEd25519MpcSigning => "near_ed25519_mpc_signing"
  | evmEcdsaMpcSigning => "evm_ecdsa_mpc_signing"
  end.

Definition VAULT_OPERATION_KINDS (k : VaultOperationKind) : string :=
  match k with proxyUse => "vault.proxy_use" | reveal => "vault.reveal" end.

Definition NEAR_ED25519_MPC_OPERATION_KINDS (k : NearEd25519MpcOperationKind) : string :=
  match k with
  | nearSignTransaction => "near.sign_transaction"
  | nearSignDelegateAction => "near.sign_delegate_action"
  | nearSignNep413Message => "near.sign_nep413_message"
  | nearExportKey => "near.export_key"
  end.

Definition EVM_ECDSA_MPC_OPERATION_KINDS (k : EvmEcdsaMpcOperationKind) : string :=
  match k with evmSignTransaction => "evm.sign_transaction" | evmExportKey => "evm.export_key" end.

Definition AUTHORIZATION_EVIDENCE_KINDS (k : AuthorizationEvidenceKind) : string :=
  match k with
  | seamsSession => "seams_session"
  | passkeyAssertion => "passkey_assertion"
  | emailOtp => "email_otp"
  | voiceIdDevice => "voiceid_device"
  end.

(** [ref.capabilityKind] and [ref.operationKind]. *)
Definition capabilityKind (ref : CapabilityOperationRef) : CapabilityKind :=
  match ref with
  | VaultOperation _ => vaultAccess
  | NearOperation _ => nearEd25519MpcSigning
  | EvmOperation _ => evmEcdsaMpcSigning
  end.

Definition operationKind (ref : CapabilityOperationRef) : string :=
  match ref with
  | VaultOperation k => VAULT_OPERATION_KINDS k
  | NearOperation k => NEAR_ED25519_MPC_OPERATION_KINDS k
  | EvmOperation k => EVM_ECDSA_MPC_OPERATION_KINDS k
  end.

(** The kind of a list whose text a value is: [VALUES.includes(value)]. *)
Definition kind_of {K} (text : K -> string) (kinds : list K) (value : JsVal) : option K :=
  match value with
  | JString s => List.find (fun k => bool_decide (text k = s)) kinds
  | _ => None
  end.

Definition isCapabilityKind : JsVal -> option CapabilityKind :=
  kind_of CAPABILITY_KINDS [vaultAccess; nearEd25519MpcSigning; evmEcdsaMpcSigning].
Definition isVaultOperationKind : JsVal -> option VaultOperationKind :=
  kind_of VAULT_OPERATION_KINDS [proxyUse; reveal].
Definition isNearEd25519MpcOperationKind : JsVal -> option NearEd25519MpcOperationKind :=
  kind_of NEAR_ED25519_MPC_OPERATION_KINDS
    [nearSignTransaction; nearSignDelegateAction; nearSignNep413Message; nearExportKey].
Definition isEvmEcdsaMpcOperationKind : JsVal -> option EvmEcdsaMpcOperationKind :=
  kind_of EVM_ECDSA_MPC_OPERATION_KINDS [evmSignTransaction; evmExportKey].
Definition isAuthorizationEvidenceKind : JsVal -> option AuthorizationEvidenceKind :=
  kind_of AUTHORIZATION_EVIDENCE_KINDS [seamsSession; passkeyAssertion; emailOtp; voiceIdDevice].

(** ** Parse results

    [AuthorizationParseResult]: the error of a rejected value carries a code. *)

Definition parse_error (code message : string) : Exn := JsCodedError code message.

Definition invalidResult {A} (message : string) : Result A := Throw (parse_error "invalid" message).

(** [Object.keys(value)] when [value] is an object and no array. *)
Definition record_keys (value : JsVal) : option (list string) :=
  match value with JObject fields => Some fields.*1 | _ => None end.

(** The keys of a record are these, in any order. *)
Definition has_exact_keys (expected : list string) (value : JsVal) : bool :=
  match record_keys value with
  | Some keys => (length keys =? length expected)%nat && forallb (fun k => shas k keys) expected
  | None => false
  end.

Definition isExactOperationRefRecord (value : JsVal) : option CapabilityKind :=
  if has_exact_keys ["capabilityKind"; "operationKind"] value
  then isCapabilityKind (jget "capabilityKind" value) else None.

Definition parseCapabilityOperationRef (value : JsVal) : Result CapabilityOperationRef :=
  match isExactOperationRefRecord value with
  | None => invalidResult "capability operation must contain exact capabilityKind and operationKind"
  | Some vaultAccess =>
      match isVaultOperationKind (jget "operationKind" value) with
      | Some k => Ok (VaultOperation k)
      | None => invalidResult "vault capability operation is unsupported"
      end
  | Some nearEd25519MpcSigning =>
      match isNearEd25519MpcOperationKind (jget "operationKind" value) with
      | Some k => Ok (NearOperation k)
      | None => invalidResult "NEAR Ed25519 MPC capability operation is unsupported"
      end
  | Some evmEcdsaMpcSigning =>
      match isEvmEcdsaMpcOperationKind (jget "operationKind" value) with
      | Some k => Ok (EvmOperation k)
      | None => invalidResult "EVM ECDSA MPC capability operation is unsupported"
      end
  end.

Definition parseAuthorizationId (value : JsVal) (fieldName : string) : Result string :=
  match value with
  | JString s =>
      let normalized := trim s in
      if negb (nonempty normalized) then Throw (parse_error "missing" (fieldName +:+ " is required"))
      else if (512 <? String.length normalized)%nat || hasWhitespaceOrControlCharacters normalized
      then Throw (parse_error "invalid" (fieldName +:+ " must be a compact opaque identifier"))
      else Ok normalized
  | _ => Throw (parse_error (if is_nullish value then "missing" else "invalid")
           (fieldName +:+ " must be a nonempty string"))
  end.

Definition parseTenantId (value : JsVal) := parseAuthorizationId value "tenantId".
Definition parsePrincipalId (value : JsVal) := parseAuthorizationId value "principalId".
Definition parseCapabilityId (value : JsVal) := parseAuthorizationId value "capabilityId".
Definition parseCapabilityOperationId (value : JsVal) := parseAuthorizationId value "capabilityOperationId".
Definition parseWalletSessionAuthorizationId (value : JsVal) := parseAuthorizationId value "walletSessionAuthorizationId".
Definition parseAuthorizedOperationId (value : JsVal) := parseAuthorizationId value "authorizedOperationId".
Definition parseWalletSessionId (value : JsVal) := parseAuthorizationId value "walletSessionId".
Definition parseMpcWalletSigningQuotaId (value : JsVal) := parseAuthorizationId value "mpcWalletSigningQuotaId".
Definition parseWalletSessionMintId (value : JsVal) := parseAuthorizationId value "walletSessionMintId".
Definition parseAuthorizationAuditEventId (value : JsVal) := parseAuthorizationId value "authorizationAuditEventId".

(** [AuthorizationGrantRef]: the authorization of a wallet session, by its identifier. *)
Definition parseAuthorizationGrantRef (value : JsVal) : Result string :=
  match record_keys value with
  | None => invalidResult "authorizationGrantRef must be an object"
  | Some _ =>
      if negb (has_exact_keys ["kind"; "authorizationId"] value)
      then invalidResult "authorizationGrantRef contains unexpected fields"
      else if strict_eq (jget "kind" value) (JString "wallet_session_authorization")
      then parseWalletSessionAuthorizationId (jget "authorizationId" value)
      else invalidResult "authorizationGrantRef.kind is unsupported"
  end.

(** ** Evidence requirements *)

Inductive RequirementMode : Type := ModeAll | ModeAny.

Record AuthorizationEvidenceRequirement : Type := mkRequirement {
  rq_mode : RequirementMode;
  rq_evidenceKinds : list AuthorizationEvidenceKind;
}.

(** [texts.sort()] of kinds, by their texts. *)
Fixpoint insert_kind (k : AuthorizationEvidenceKind) (l : list AuthorizationEvidenceKind) :=
  match l with
  | [] => [k]
  | k' :: l' =>
      if String.ltb (AUTHORIZATION_EVIDENCE_KINDS k') (AUTHORIZATION_EVIDENCE_KINDS k)
      then k' :: insert_kind k l' else k :: l
  end.

Definition sort_kinds (l : list AuthorizationEvidenceKind) : list AuthorizationEvidenceKind :=
  fold_right insert_kind [] l.

(** [[...new Set(kinds)]]. *)
Definition distinct_kinds (l : list AuthorizationEvidenceKind) : list AuthorizationEvidenceKind :=
  fold_left (fun set k => if bool_decide (k ∈ set) then set else set ++ [k]) l [].

Definition buildAuthorizationEvidenceRequirement (mode : RequirementMode)
    (evidenceKinds : list AuthorizationEvidenceKind) : Result AuthorizationEvidenceRequirement :=
  match sort_kinds (distinct_kinds evidenceKinds) with
  | [] => Throw (JsError "authorization evidence requirement must contain at least one evidence kind")
  | canonicalKinds => Ok (mkRequirement mode canonicalKinds)
  end.

(** ** Digests of [utils/digests.ts] *)


(** The fields of an object in the order of their keys, none of which is an array
    index. *)
Fixpoint insert_field (f : string * JsVal) (l : list (string * JsVal)) : list (string * JsVal) :=
  match l with
  | [] => [f]
  | f' :: l' => if String.ltb f'.1 f.1 then f' :: insert_field f l' else f :: l
  end.

Fixpoint normalizeAlphabetizedValue (value : JsVal) : JsVal :=
  match value with
  | JArray elems => JArray (map normalizeAlphabetizedValue elems)
  | JObject fields =>
      JObject ((fix go (fs : list (string * JsVal)) : list (string * JsVal) :=
        match fs with
        | [] => []
        | (k, v) :: fs => insert_field (k, normalizeAlphabetizedValue v) (go fs)
        end) fields)
  | _ => value
  end.

Definition alphabetizeStringify (input : JsVal) : option string := JSON_stringify (normalizeAlphabetizedValue input).

(** [`${domain}|${alphabetizeStringify(value)}`]. *)
Definition digest_preimage (domain : string) (value : JsVal) : string :=
  domain +:+ "|" +:+ default "undefined" (alphabetizeStringify value).

(** ** The envelope of an operation *)

Record CapabilityOperationEnvelope : Type := mkEnvelope {
  e_tenantId : string;
  e_principalId : string;
  e_capabilityId : string;
  e_operationId : string;
  e_operation : CapabilityOperationRef;
  laneDigest : string;
  intentDigest : string;
  displayDigest : string;
}.

#[global] Instance CapabilityOperationEnvelope_eq_dec : EqDecision CapabilityOperationEnvelope.
Proof. solve_decision. Defined.

Definition CAPABILITY_OPERATION_FINGERPRINT_DOMAIN_V1 : string :=
  "seams:authorization:capability-operation-fingerprint:v1".

Definition operation_value (ref : CapabilityOperationRef) : JsVal :=
  JObject [("capabilityKind", JString (CAPABILITY_KINDS (capabilityKind ref)));
           ("operationKind", JString (operationKind ref))].

Definition envelope_value (e : CapabilityOperationEnvelope) : JsVal :=
  JObject [("tenantId", JString (e_tenantId e));
           ("principalId", JString (e_principalId e));
           ("capabilityId", JString (e_capabilityId e));
           ("operationId", JString (e_operationId e));
           ("operation", operation_value (e_operation e));
           ("digests", JObject [("laneDigest", JString (laneDigest e));
                                ("intentDigest", JString (intentDigest e));
                                ("displayDigest", JString (displayDigest e))])].

Definition canonicalCapabilityOperationFingerprintPreimageV1 (e : CapabilityOperationEnvelope) : string :=
  digest_preimage CAPABILITY_OPERATION_FINGERPRINT_DOMAIN_V1 (envelope_value e).

Definition parseCapabilityOperationFingerprintDigest (value : JsVal) : Result string := parseDigestB64u value.

(** [parseSigningOperationFingerprintDigest]. *)
Definition parseSigningOperationFingerprintDigest (value : JsVal) : Result string :=
  match value with
  | JString s =>
      if starts_with "sha256:" s
      then parseDigestB64u (JString (String.substring 7 (String.length s - 7) s))
      else Throw (JsError "signing operation fingerprint must use the sha256: prefix")
  | _ => Throw (JsError "signing operation fingerprint must use the sha256: prefix")
  end.

Section Fingerprint.
(** [sha256BytesUtf8]: SHA-256, of the host's [crypto.subtle], of the text as UTF-8. *)
Context (sha256 : string -> list Z).

Definition computeCapabilityOperationFingerprintDigest (e : CapabilityOperationEnvelope) : Result string :=
  parseCapabilityOperationFingerprintDigest
    (JString (base64UrlEncode (sha256 (canonicalCapabilityOperationFingerprintPreimageV1 e)))).
End Fingerprint.

(** ** Laws *)

Lemma kind_of_text {K} (text : K -> string) kinds k :
  (forall k', k' ∈ kinds -> text k' = text k -> k' = k) -> k ∈ kinds -> kind_of text kinds (JString (text k)) = Some k.
Proof.
  intros Hinj Hin. unfold kind_of. induction kinds as [|k0 kinds IH]; [set_solver|]. simpl.
  case_bool_decide as Ht; [f_equal; apply Hinj; set_solver|]. apply IH; set_solver.
Qed.

Lemma kind_of_inv {K} (text : K -> string) kinds v k : kind_of text kinds v = Some k -> v = JString (text k).
Proof.
  unfold kind_of. destruct v; try done. intros [_ H]%find_some. by apply bool_decide_eq_true in H as <-.
Qed.

Lemma evidence_kind_text k : isAuthorizationEvidenceKind (JString (AUTHORIZATION_EVIDENCE_KINDS k)) = Some k.
Proof. by destruct k. Qed.

Lemma operation_ref_inj r r' : capabilityKind r = capabilityKind r' -> operationKind r = operationKind r' -> r = r'.
Proof. by destruct r as [[]|[]|[]], r' as [[]|[]|[]]. Qed.

Lemma capability_text_inj k k' : CAPABILITY_KINDS k = CAPABILITY_KINDS k' -> k = k'.
Proof. by destruct k, k'. Qed.

Lemma operation_value_parses r : parseCapabilityOperationRef (operation_value r) = Ok r.
Proof. by destruct r as [[]|[]|[]]. Qed.

Lemma parseAuthorizationId_spec v field s : parseAuthorizationId v field = Ok s ->
  exists t, v = JString t /\ s = trim t /\ s <> EmptyString /\ (String.length s <= 512)%nat /\
    hasWhitespaceOrControlCharacters s = false.
Proof.
  unfold parseAuthorizationId. destruct v as [| | | | |t| |]; try done. cbv zeta.
  destruct (nonempty (trim t)) eqn:Hn; [|done]. simpl negb. cbv iota.
  destruct (_ || _) eqn:Hb; [done|]. intros [= <-]. apply orb_false_iff in Hb as [Hl Hw]. apply Nat.ltb_ge in Hl.
  exists t. split_and!; try done. by destruct (trim t).
Qed.

(** A text that every identifier parser returns as it is. *)
Definition opaque_id (s : string) : bool :=
  nonempty s && (String.length s <=? 512)%nat && negb (hasWhitespaceOrControlCharacters s).

Lemma opaque_id_trim s : opaque_id s = true -> trim s = s.
Proof.
  intros [[Hn _]%andb_true_iff Hw%negb_true_iff]%andb_true_iff. apply trim_no_space.
  unfold hasWhitespaceOrControlCharacters in Hw. by apply orb_false_iff in Hw as [?%negb_false_iff _].
Qed.

Lemma parseAuthorizationId_ok field s : opaque_id s = true -> parseAuthorizationId (JString s) field = Ok s.
Proof.
  intros Ho. unfold parseAuthorizationId. rewrite (opaque_id_trim _ Ho). cbv zeta.
  apply andb_true_iff in Ho as [[-> Hl%Nat.leb_le]%andb_true_iff ->%negb_true_iff]. simpl.
  by rewrite (proj2 (Nat.ltb_ge _ _) Hl).
Qed.

Lemma parseAuthorizationId_opaque v field s : parseAuthorizationId v field = Ok s -> opaque_id s = true.
Proof.
  intros (t & _ & _ & Hn & Hl & Hw)%parseAuthorizationId_spec. unfold opaque_id. rewrite Hw. simpl.
  rewrite (proj2 (Nat.leb_le _ _) Hl), !andb_true_r. by destruct s.
Qed.

(** *** Fingerprints name their operations *)

Definition json_code_apart (a b : ascii) : bool :=
  Ascii.eqb a b || negb (starts_with (json_unit a) (json_unit b)).

Definition json_code_open (a : ascii) : bool :=
  match json_unit a with String c _ => negb (Ascii.eqb c quote) | EmptyString => false end.

Lemma json_codes_apart : forallb (fun a => forallb (json_code_apart a) all_ascii) all_ascii = true.
Proof. vm_compute. reflexivity. Qed.

Lemma json_codes_open : forallb json_code_open all_ascii = true.
Proof. vm_compute. reflexivity. Qed.

Lemma json_unit_prefix a b : starts_with (json_unit a) (json_unit b) = true -> a = b.
Proof.
  pose proof (forallb_elem _ _ _ json_codes_apart (all_ascii_elem a)) as H. cbv beta in H.
  pose proof (forallb_elem _ _ _ H (all_ascii_elem b)) as [H'|H']%orb_prop; [intros _; by apply Ascii.eqb_eq|].
  intros Hp. by rewrite Hp in H'.
Qed.

Lemma json_unit_no_quote a t t' : json_unit a +:+ t <> String quote t'.
Proof.
  pose proof (forallb_elem _ _ _ json_codes_open (all_ascii_elem a)) as H. unfold json_code_open in H.
  destruct (json_unit a) as [|c u]; [done|]. simpl. intros [= -> _]. by rewrite Ascii.eqb_refl in H.
Qed.

Lemma json_units_inj s : forall s' t t',
  json_units s +:+ String quote t = json_units s' +:+ String quote t' -> s = s' /\ t = t'.
Proof.
  induction s as [|a s IH]; intros [|b s'] t t'; cbn [json_units]; rewrite ?append_assoc; simpl; intros H.
  - by injection H as ->.
  - symmetry in H. by apply json_unit_no_quote in H.
  - by apply json_unit_no_quote in H.
  - assert (a = b) as <-.
    { destruct (app_eq_prefix _ _ _ _ H) as [Hp|Hp]; [|symmetry]; by apply json_unit_prefix. }
    apply string_app_inv_head in H. by apply IH in H as [-> ->].
Qed.

Lemma append_cons a s t : String a s +:+ t = String a (s +:+ t).
Proof. done. Qed.

Lemma json_string_app s t : json_string s +:+ t = String quote (json_units s +:+ String quote t).
Proof. unfold json_string. by rewrite append_cons, append_assoc, append_cons. Qed.

(** The text of a string ends where its JSON form ends. *)
Lemma json_string_inj s s' t t' : json_string s +:+ t = json_string s' +:+ t' -> s = s' /\ t = t'.
Proof. rewrite !json_string_app. intros [= H]. by apply json_units_inj in H. Qed.

Definition fingerprint_text (e : CapabilityOperationEnvelope) : string :=
  CAPABILITY_OPERATION_FINGERPRINT_DOMAIN_V1 +:+ "|{" +:+
  json_string "capabilityId" +:+ ":" +:+ json_string (e_capabilityId e) +:+ "," +:+
  json_string "digests" +:+ ":{" +:+
    json_string "displayDigest" +:+ ":" +:+ json_string (displayDigest e) +:+ "," +:+
    json_string "intentDigest" +:+ ":" +:+ json_string (intentDigest e) +:+ "," +:+
    json_string "laneDigest" +:+ ":" +:+ json_string (laneDigest e) +:+ "}," +:+
  json_string "operation" +:+ ":{" +:+
    json_string "capabilityKind" +:+ ":" +:+ json_string (CAPABILITY_KINDS (capabilityKind (e_operation e))) +:+ "," +:+
    json_string "operationKind" +:+ ":" +:+ json_string (operationKind (e_operation e)) +:+ "}," +:+
  json_string "operationId" +:+ ":" +:+ json_string (e_operationId e) +:+ "," +:+
  json_string "principalId" +:+ ":" +:+ json_string (e_principalId e) +:+ "," +:+
  json_string "tenantId" +:+ ":" +:+ json_string (e_tenantId e) +:+ "}".

Lemma envelope_value_sorted e : normalizeAlphabetizedValue (envelope_value e) =
  JObject [("capabilityId", JString (e_capabilityId e));
    ("digests", JObject [("displayDigest", JString (displayDigest e)); ("intentDigest", JString (intentDigest e));
                         ("laneDigest", JString (laneDigest e))]);
    ("operation", operation_value (e_operation e));
    ("operationId", JString (e_operationId e)); ("principalId", JString (e_principalId e));
    ("tenantId", JString (e_tenantId e))].
Proof. reflexivity. Qed.

Lemma fingerprint_text_eq e : canonicalCapabilityOperationFingerprintPreimageV1 e = fingerprint_text e.
Proof.
  unfold canonicalCapabilityOperationFingerprintPreimageV1, digest_preimage, alphabetizeStringify, fingerprint_text.
  rewrite envelope_value_sorted.
  cbn -[json_string CAPABILITY_KINDS operationKind capabilityKind String.append CAPABILITY_OPERATION_FINGERPRINT_DOMAIN_V1].
  by rewrite !append_assoc.
Qed.

(** Operations with the same preimage are the same operation. *)
Lemma preimage_inj e e' : canonicalCapabilityOperationFingerprintPreimageV1 e =
  canonicalCapabilityOperationFingerprintPreimageV1 e' -> e = e'.
Proof.
  rewrite !fingerprint_text_eq. unfold fingerprint_text. intros H.
  repeat match type of H with
  | json_string ?s +:+ _ = json_string ?s +:+ _ => apply string_app_inv_head in H
  | json_string _ +:+ _ = json_string _ +:+ _ => apply json_string_inj in H as [? H]
  | _ +:+ _ = _ +:+ _ => apply string_app_inv_head in H
  end.
  destruct e, e'; simpl in *; subst. f_equal.
  by apply operation_ref_inj; [apply capability_text_inj|].
Qed.
