(* ===== verification/CapabilityPolicy.v ===== *)
(** * Which evidence an operation needs

    [packages/wallet-server/src/authorization/capabilityPolicy.ts]: a requirement names
    kinds of evidence of which all, or any one, have to be present. *)

From S2P Require Import Prelude JsValues Base64 Capabilities.
Local Open Scope Z_scope.
Local Open Scope js_scope.

(** ** Parsing *)

Inductive RequirementRejection : Type :=
| invalid_requirement (message : string)
| unsupported_evidence_kind (evidenceKind : string).

Definition rejectInvalidRequirement {A} (message : string) : A + RequirementRejection :=
  inr (invalid_requirement message).

Definition isExactRequirementRecord (value : JsVal) : bool := has_exact_keys ["mode"; "evidenceKinds"] value.

Definition requirement_mode (value : JsVal) : option RequirementMode :=
  if strict_eq value (JString "all") then Some ModeAll
  else if strict_eq value (JString "any") then Some ModeAny
  else None.

(** The loop over [value.evidenceKinds]. *)
Fixpoint parse_evidence_kinds (values : list JsVal) (evidenceKinds : list AuthorizationEvidenceKind)
  : list AuthorizationEvidenceKind + RequirementRejection :=
  match values with
  | [] => inl evidenceKinds
  | JString text :: values =>
      match isAuthorizationEvidenceKind (JString text) with
      | None => inr (unsupported_evidence_kind text)
      | Some kind => parse_evidence_kinds values (evidenceKinds ++ [kind])
      end
  | _ :: _ => rejectInvalidRequirement "authorization evidence kinds must be strings"
  end.

Definition no_evidence_kinds : string := "authorization evidence requirement must contain evidence kinds".

Definition parseAuthorizationEvidenceRequirement (value : JsVal)
  : Result (AuthorizationEvidenceRequirement + RequirementRejection) :=
  if negb (isExactRequirementRecord value)
  then Ok (rejectInvalidRequirement "authorization evidence requirement must contain exact mode and evidenceKinds fields")
  else
    match requirement_mode (jget "mode" value) with
    | None => Ok (rejectInvalidRequirement "authorization evidence requirement mode must be all or any")
    | Some mode =>
        match jget "evidenceKinds" value with
        | JArray (first :: rest) =>
            match parse_evidence_kinds (first :: rest) [] with
            | inr rejection => Ok (inr rejection)
            | inl [] => Ok (rejectInvalidRequirement no_evidence_kinds)
            | inl evidenceKinds =>
                let* requirement := buildAuthorizationEvidenceRequirement mode evidenceKinds in Ok (inl requirement)
            end
        | _ => Ok (rejectInvalidRequirement no_evidence_kinds)
        end
    end.

(** ** Evaluation *)

Record VerifiedAuthorizationEvidence : Type := mkEvidence {
  evidenceId : string;
  evidenceKind : AuthorizationEvidenceKind;
  evidenceDigest : string;
}.

Inductive RequirementEvaluation : Type :=
| Satisfied (mode : RequirementMode) (matchedEvidenceKinds : list AuthorizationEvidenceKind)
| UnsatisfiedAll (missingEvidenceKinds : list AuthorizationEvidenceKind)
| UnsatisfiedAny (acceptableEvidenceKinds : list AuthorizationEvidenceKind).

Definition collectEvidenceKinds (evidence : list VerifiedAuthorizationEvidence) : list AuthorizationEvidenceKind :=
  distinct_kinds (map evidenceKind evidence).

Definition has_kind (kinds : list AuthorizationEvidenceKind) (k : AuthorizationEvidenceKind) : bool :=
  bool_decide (k ∈ kinds).

Definition evaluateAllEvidenceRequirement (requiredKinds availableKinds : list AuthorizationEvidenceKind)
  : RequirementEvaluation :=
  match List.filter (fun k => negb (has_kind availableKinds k)) requiredKinds with
  | [] => Satisfied ModeAll requiredKinds
  | missingKinds => UnsatisfiedAll missingKinds
  end.

Definition evaluateAnyEvidenceRequirement (acceptableKinds availableKinds : list AuthorizationEvidenceKind)
  : RequirementEvaluation :=
  match List.filter (has_kind availableKinds) acceptableKinds with
  | [] => UnsatisfiedAny acceptableKinds
  | matchedKinds => Satisfied ModeAny matchedKinds
  end.

Definition evaluateAuthorizationEvidenceRequirement (requirement : AuthorizationEvidenceRequirement)
    (evidence : list VerifiedAuthorizationEvidence) : RequirementEvaluation :=
  let availableKinds := collectEvidenceKinds evidence in
  match rq_mode requirement with
  | ModeAll => evaluateAllEvidenceRequirement (rq_evidenceKinds requirement) availableKinds
  | ModeAny => evaluateAnyEvidenceRequirement (rq_evidenceKinds requirement) availableKinds
  end.

(** ** What a requirement means *)

Definition satisfied (r : RequirementEvaluation) : bool :=
  match r with Satisfied _ _ => true | _ => false end.

(** The plain meaning of a requirement on a list of kinds, as it was written. *)
Definition requirement_holds (mode : RequirementMode) (kinds : list AuthorizationEvidenceKind)
    (evidence : list VerifiedAuthorizationEvidence) : bool :=
  let present k := existsb (fun e => bool_decide (evidenceKind e = k)) evidence in
  match mode with ModeAll => forallb present kinds | ModeAny => existsb present kinds end.

Lemma distinct_kinds_from l : forall (set : list AuthorizationEvidenceKind) k,
  k ∈ fold_left (fun set k => if bool_decide (k ∈ set) then set else set ++ [k]) l set <-> k ∈ set \/ k ∈ l.
Proof.
  induction l as [|x l IH]; intros set k; simpl; [set_solver|]. rewrite IH.
  case_bool_decide; set_solver.
Qed.

Lemma elem_distinct_kinds k l : k ∈ distinct_kinds l <-> k ∈ l.
Proof. unfold distinct_kinds. rewrite distinct_kinds_from. set_solver. Qed.

Lemma elem_insert_kind k x l : x ∈ insert_kind k l <-> x = k \/ x ∈ l.
Proof. induction l as [|y l IH]; simpl; [set_solver|]. destruct (String.ltb _ _); set_solver. Qed.

Lemma elem_sort_kinds x l : x ∈ sort_kinds l <-> x ∈ l.
Proof. induction l as [|y l IH]; simpl; [done|]. rewrite elem_insert_kind. set_solver. Qed.

Lemma elem_available k evidence : k ∈ collectEvidenceKinds evidence <-> exists e, e ∈ evidence /\ evidenceKind e = k.
Proof.
  unfold collectEvidenceKinds. rewrite elem_distinct_kinds, list_elem_of_fmap. split; intros (e & ? & ?); by exists e.
Qed.

Lemma has_kind_present evidence k :
  has_kind (collectEvidenceKinds evidence) k = existsb (fun e => bool_decide (evidenceKind e = k)) evidence.
Proof.
  apply eq_true_iff_eq. unfold has_kind. rewrite bool_decide_eq_true, elem_available, existsb_exists.
  setoid_rewrite <- list_elem_of_In. by setoid_rewrite bool_decide_eq_true.
Qed.

Lemma forallb_same {A} (f : A -> bool) l k : (forall x, x ∈ l <-> x ∈ k) -> forallb f l = forallb f k.
Proof.
  intros H. apply eq_true_iff_eq. rewrite !forallb_forall. setoid_rewrite <- list_elem_of_In.
  split; intros Hf x Hx; by apply Hf, H.
Qed.

Lemma existsb_negb_forallb {A} (f : A -> bool) l : existsb f l = negb (forallb (fun x => negb (f x)) l).
Proof. induction l as [|x l IH]; simpl; [done|]. rewrite IH. by destruct (f x). Qed.

Lemma existsb_same {A} (f : A -> bool) l k : (forall x, x ∈ l <-> x ∈ k) -> existsb f l = existsb f k.
Proof. intros H. by rewrite !existsb_negb_forallb, (forallb_same _ l k H). Qed.

Lemma filter_nil_forallb {A} (f : A -> bool) l :
  match List.filter f l with [] => true | _ => false end = forallb (fun x => negb (f x)) l.
Proof. induction l as [|x l IH]; simpl; [done|]. by destruct (f x). Qed.

Lemma built_requirement mode kinds requirement :
  buildAuthorizationEvidenceRequirement mode kinds = Ok requirement ->
  rq_mode requirement = mode /\ (forall k, k ∈ rq_evidenceKinds requirement <-> k ∈ kinds).
Proof.
  unfold buildAuthorizationEvidenceRequirement. destruct (sort_kinds _) as [|k0 l] eqn:E; [done|]. intros [= <-].
  split; [done|]. intros k. simpl. by rewrite <- E, elem_sort_kinds, elem_distinct_kinds.
Qed.

Lemma evaluate_holds requirement evidence :
  satisfied (evaluateAuthorizationEvidenceRequirement requirement evidence) =
  requirement_holds (rq_mode requirement) (rq_evidenceKinds requirement) evidence.
Proof.
  unfold evaluateAuthorizationEvidenceRequirement, requirement_holds. destruct requirement as [[] kinds]; simpl.
  - unfold evaluateAllEvidenceRequirement.
    transitivity (match List.filter (fun k => negb (has_kind (collectEvidenceKinds evidence) k)) kinds with
      [] => true | _ => false end); [by destruct (List.filter _ _)|].
    rewrite filter_nil_forallb. induction kinds as [|k kinds IH]; simpl; [done|]. by rewrite negb_involutive, has_kind_present, IH.
  - unfold evaluateAnyEvidenceRequirement.
    transitivity (negb (match List.filter (has_kind (collectEvidenceKinds evidence)) kinds with [] => true | _ => false end));
      [by destruct (List.filter _ _)|].
    rewrite filter_nil_forallb, <- existsb_negb_forallb.
    induction kinds as [|k kinds IH]; simpl; [done|]. by rewrite has_kind_present, IH.
Qed.

(** The kinds a report names. *)
Lemma evaluate_report requirement evidence k :
  match evaluateAuthorizationEvidenceRequirement requirement evidence with
  | Satisfied ModeAll matched => k ∈ matched <-> k ∈ rq_evidenceKinds requirement
  | Satisfied ModeAny matched =>
      k ∈ matched <-> k ∈ rq_evidenceKinds requirement /\ exists e, e ∈ evidence /\ evidenceKind e = k
  | UnsatisfiedAll missing =>
      k ∈ missing <-> k ∈ rq_evidenceKinds requirement /\ ~ exists e, e ∈ evidence /\ evidenceKind e = k
  | UnsatisfiedAny acceptable => k ∈ acceptable <-> k ∈ rq_evidenceKinds requirement
  end.
Proof.
  unfold evaluateAuthorizationEvidenceRequirement, evaluateAllEvidenceRequirement, evaluateAnyEvidenceRequirement.
  pose proof (elem_available k evidence) as Ha.
  destruct (rq_mode requirement); destruct (List.filter _ _) eqn:E; try done; rewrite <- E, <- Ha;
    rewrite list_elem_of_In, filter_In, <- list_elem_of_In; unfold has_kind;
    by rewrite ?negb_true_iff, ?bool_decide_eq_false, ?bool_decide_eq_true.
Qed.

Lemma parse_kinds_texts kinds : forall acc,
  parse_evidence_kinds (map (fun k => JString (AUTHORIZATION_EVIDENCE_KINDS k)) kinds) acc = inl (acc ++ kinds).
Proof.
  induction kinds as [|k kinds IH]; intros acc; cbn [map parse_evidence_kinds]; [by rewrite app_nil_r|].
  rewrite evidence_kind_text, IH. by rewrite <- app_assoc.
Qed.

Lemma parse_kinds_inv values : forall acc kinds, parse_evidence_kinds values acc = inl kinds ->
  exists parsed, kinds = acc ++ parsed /\ values = map (fun k => JString (AUTHORIZATION_EVIDENCE_KINDS k)) parsed.
Proof.
  induction values as [|v values IH]; intros acc kinds; cbn [parse_evidence_kinds].
  - intros [= <-]. exists []. by rewrite app_nil_r.
  - destruct v as [| | | | |s| |]; try done. destruct (isAuthorizationEvidenceKind (JString s)) as [k|] eqn:Hk; [|done].
    intros (parsed & -> & ->)%IH. apply kind_of_inv in Hk as [= ->]. exists (k :: parsed). by rewrite <- app_assoc.
Qed.

(** The texts of a requirement as it arrives. *)
Definition requirement_value (mode : RequirementMode) (kinds : list AuthorizationEvidenceKind) : JsVal :=
  JObject [("mode", JString (match mode with ModeAll => "all" | ModeAny => "any" end));
           ("evidenceKinds", JArray (map (fun k => JString (AUTHORIZATION_EVIDENCE_KINDS k)) kinds))].

Lemma requirement_mode_text value mode kinds : requirement_mode value = Some mode ->
  value = jget "mode" (requirement_value mode kinds).
Proof.
  unfold requirement_mode. destruct value as [| | |[]| |s| |]; cbn [strict_eq]; try done.
  case_bool_decide; [intros [= <-]; by subst|]. case_bool_decide; [intros [= <-]; by subst|done].
Qed.

Lemma sort_kinds_nonempty mode k kinds : exists requirement,
  buildAuthorizationEvidenceRequirement mode (k :: kinds) = Ok requirement.
Proof.
  unfold buildAuthorizationEvidenceRequirement. destruct (sort_kinds _) as [|k0 l] eqn:E; [|by eexists].
  assert (k ∈ sort_kinds (distinct_kinds (k :: kinds))) as H; [|rewrite E in H; by apply not_elem_of_nil in H].
  rewrite elem_sort_kinds, elem_distinct_kinds. set_solver.
Qed.

(** C33. A parsed requirement means what its text says: it is satisfied exactly when all, or
    any one, of the kinds written in it are among the evidence, whatever their order and
    however often they are written; the report names the missing or the present ones.
    Every non-empty requirement of known kinds parses. *)
Theorem evidence_requirement_spec :
  (forall value requirement, parseAuthorizationEvidenceRequirement value = Ok (inl requirement) ->
     exists kinds, kinds <> [] /\
       jget "mode" value = jget "mode" (requirement_value (rq_mode requirement) kinds) /\
       jget "evidenceKinds" value = jget "evidenceKinds" (requirement_value (rq_mode requirement) kinds) /\
       forall evidence,
         satisfied (evaluateAuthorizationEvidenceRequirement requirement evidence) =
           requirement_holds (rq_mode requirement) kinds evidence /\
         (forall missing k, evaluateAuthorizationEvidenceRequirement requirement evidence = UnsatisfiedAll missing ->
            k ∈ missing <-> k ∈ kinds /\ ~ exists e, e ∈ evidence /\ evidenceKind e = k)) /\
  (forall mode kinds, kinds <> [] -> exists requirement,
     parseAuthorizationEvidenceRequirement (requirement_value mode kinds) = Ok (inl requirement) /\
     rq_mode requirement = mode).
Proof.
  split.
  - intros value requirement. unfold parseAuthorizationEvidenceRequirement.
    destruct (negb _); [done|]. destruct (requirement_mode (jget "mode" value)) as [mode|] eqn:Hm; [|done].
    destruct (jget "evidenceKinds" value) as [| | | | | |[|v values]|] eqn:Hk; try done.
    destruct (parse_evidence_kinds (v :: values) []) as [[|k kinds]|] eqn:Hp; try done.
    destruct (buildAuthorizationEvidenceRequirement mode (k :: kinds)) as [r|] eqn:Hb; [|done]. intros [= <-].
    apply built_requirement in Hb as [<- Hin]. apply parse_kinds_inv in Hp as (parsed & Hp & Hv). simpl in Hp. subst parsed.
    exists (k :: kinds). split_and!; [done|by apply requirement_mode_text|by rewrite Hv|].
    intros evidence. split.
    + rewrite evaluate_holds. unfold requirement_holds. destruct (rq_mode r); [by apply forallb_same|by apply existsb_same].
    + intros missing k' E. pose proof (evaluate_report r evidence k') as H. rewrite E in H. by rewrite H, Hin.
  - intros mode [|k kinds] Hne; [done|]. destruct (sort_kinds_nonempty mode k kinds) as [r Hr]. exists r.
    split; [|by apply built_requirement in Hr as [? _]].
    unfold parseAuthorizationEvidenceRequirement. change (jget "evidenceKinds" _) with
      (JArray (map (fun k => JString (AUTHORIZATION_EVIDENCE_KINDS k)) (k :: kinds))).
    replace (requirement_mode (jget "mode" _)) with (Some mode) by by destruct mode.
    pose proof (parse_kinds_texts (k :: kinds) []) as Hp. cbn [map app] in Hp |- *.
    replace (negb _) with false by by destruct mode. cbv iota. rewrite Hp. by rewrite Hr.
Qed.

Lemma evidence_requirement_spec_witness :
  let value := requirement_value ModeAll [passkeyAssertion; emailOtp; passkeyAssertion] in
  exists requirement, parseAuthorizationEvidenceRequirement value = Ok (inl requirement) /\
    evaluateAuthorizationEvidenceRequirement requirement [mkEvidence "e" emailOtp "d"] = UnsatisfiedAll [passkeyAssertion] /\
    (passkeyAssertion ∈ [passkeyAssertion] <-> passkeyAssertion ∈ [passkeyAssertion; emailOtp; passkeyAssertion] /\
      ~ exists e, e ∈ [mkEvidence "e" emailOtp "d"] /\ evidenceKind e = passkeyAssertion).
Proof.
  set (value := requirement_value ModeAll [passkeyAssertion; emailOtp; passkeyAssertion]).
  exists (mkRequirement ModeAll [emailOtp; passkeyAssertion]).
  assert (parseAuthorizationEvidenceRequirement value = Ok (inl (mkRequirement ModeAll [emailOtp; passkeyAssertion]))) as H
    by reflexivity.
  split_and!; [done|reflexivity|].
  destruct (proj1 evidence_requirement_spec _ _ H) as (kinds & _ & _ & Hk & He).
  destruct (He [mkEvidence "e" emailOtp "d"]) as [_ Hmissing].
  specialize (Hmissing [passkeyAssertion] passkeyAssertion eq_refl). rewrite Hmissing.
  injection Hk as Hk. destruct kinds as [|[] [|[] [|[] [|]]]]; done.
Defined.
