(* ===== verification/AuthorizationDomain.v ===== *)
(** * Authorized operations

    The operations of [packages/wallet-server/src/authorization/domain.ts]: what an
    operation was authorized by, what it uses up, and the answer that is kept for it;
    and the column readers of
    [router/cloudflare/d1/authorization/authorizationStore/rowValues.ts]. *)

From S2P Require Import Prelude JsValues BitPacking Base64 Capabilities.
Local Open Scope Z_scope.
Local Open Scope js_scope.

(** ** Column values *)

(** A text column that can be [NULL]. *)
Definition sql_text (column : option string) : JsVal :=
  match column with Some s => JString s | None => JNull end.

Definition sql_integer (column : option Z) : JsVal :=
  match column with Some z => JInt z | None => JNull end.

Definition requiredText (value : JsVal) (label : string) : Result string :=
  match value with JString s => Ok s | _ => Throw (JsError (label +:+ " must be text")) end.

Definition requireParsed {A} (value : JsVal) (parser : JsVal -> Result A) (label : string) : Result A :=
  match parser value with
  | Ok a => Ok a
  | Throw e => Throw (JsError (label +:+ ": " +:+ errorMessage e))
  end.

Definition integerColumn (value : JsVal) (label : string) : Result Z :=
  match safe_integer_value (js_Number value) with
  | Some z => Ok z
  | None => Throw (JsError (label +:+ " must be a safe integer"))
  end.

Definition requirePositiveInteger (value : JsVal) (label : string) : Result Z :=
  let* parsed := integerColumn value label in
  if parsed <=? 0 then Throw (JsError (label +:+ " must be positive")) else Ok parsed.

(** [requireOpaqueString] and [requireString]. *)
Definition requireString (value : JsVal) (label : string) : Result string :=
  match value with
  | JString s =>
      if negb (bool_decide (trim s = s)) || negb (nonempty s) || (512 <? String.length s)%nat
         || hasWhitespaceOrControlCharacters s
      then Throw (JsError (label +:+ " must be a compact opaque identifier"))
      else Ok s
  | _ => Throw (JsError (label +:+ " must be a compact opaque identifier"))
  end.

(** ** The answer of an operation *)

Record AuthorizedOperationReplayResponse : Type := mkReplayResponse {
  rr_status : Z;
  rr_contentType : string;
  rr_bodyText : string;
}.

#[global] Instance AuthorizedOperationReplayResponse_eq_dec : EqDecision AuthorizedOperationReplayResponse.
Proof. solve_decision. Defined.

Definition AUTHORIZED_OPERATION_REPLAY_BODY_MAX_BYTES : Z := 64 * 1024.

Definition AUTHORIZED_OPERATION_RESULT_DIGEST_DOMAIN_V1 : string :=
  "seams:authorization:authorized-operation-result:v1".

Definition responseStatusHasNoBody (status : Z) : bool := (status =? 204) || (status =? 205) || (status =? 304).

(** [new TextEncoder().encode(text).byteLength] on Latin-1 text. *)
Fixpoint utf8_length (text : string) : Z :=
  match text with
  | EmptyString => 0
  | String a t => (if (N_of_ascii a <? 128)%N then 1 else 2) + utf8_length t
  end.

Definition parseAuthorizedOperationReplayResponse (value : JsVal) : Result AuthorizedOperationReplayResponse :=
  if negb (has_exact_keys ["bodyText"; "contentType"; "status"] value)
  then Throw (JsError "authorized operation replay response must be an object")
  else
    let* status :=
      match jget "status" value with
      | JNumber n =>
          match safe_integer_value n with
          | Some z => if (z <? 200) || (599 <? z)
                      then Throw (JsError "authorized operation replay response status must be an HTTP status")
                      else Ok z
          | None => Throw (JsError "authorized operation replay response status must be an HTTP status")
          end
      | _ => Throw (JsError "authorized operation replay response status must be an HTTP status")
      end in
    let* contentType :=
      match jget "contentType" value with
      | JString s =>
          if negb (nonempty s) || negb (bool_decide (trim s = s)) || (255 <? String.length s)%nat
             || hasControlCharacter s
          then Throw (JsError "authorized operation replay response contentType is invalid")
          else Ok s
      | _ => Throw (JsError "authorized operation replay response contentType is invalid")
      end in
    match jget "bodyText" value with
    | JString bodyText =>
        if AUTHORIZED_OPERATION_REPLAY_BODY_MAX_BYTES <? utf8_length bodyText
        then Throw (JsError "authorized operation replay response bodyText is too large")
        else if responseStatusHasNoBody status && nonempty bodyText
        then Throw (JsError "authorized operation replay response status cannot carry a body")
        else Ok (mkReplayResponse status contentType bodyText)
    | _ => Throw (JsError "authorized operation replay response bodyText must be text")
    end.

Definition response_value (r : AuthorizedOperationReplayResponse) : JsVal :=
  JObject [("status", JInt (rr_status r)); ("contentType", JString (rr_contentType r));
           ("bodyText", JString (rr_bodyText r))].

(** The body of the HTTP answer; [None] is [null]. *)
Definition authorizedOperationReplayBodyInit (response : JsVal) : Result (option string) :=
  let* parsed := parseAuthorizedOperationReplayResponse response in
  Ok (if responseStatusHasNoBody (rr_status parsed) then None else Some (rr_bodyText parsed)).

(** ** Operations *)

(** What an operation was authorized by: the authorization of a wallet session, or the
    evidence of a step-up for this one operation. *)
Inductive OperationAuthorizationSource : Type :=
| AuthorizationGrant (authorizationId : string)
| VerifiedStepUp (evidenceSetDigest : string).

Inductive OperationQuota : Type := ConsumeReusableWalletSession (quotaId : string) | QuotaNeutral.

Inductive CompletedCapabilityOperationResult : Type :=
| succeeded
| failed_before_side_effect
| failed_after_side_effect.

Inductive AuthorizedOperationLifecycle : Type :=
| LifecycleClaimed
| LifecycleCompleted (result : CompletedCapabilityOperationResult) (response : AuthorizedOperationReplayResponse)
    (resultDigest : string) (completedAtMs : Z).

#[global] Instance OperationAuthorizationSource_eq_dec : EqDecision OperationAuthorizationSource.
Proof. solve_decision. Defined.
#[global] Instance OperationQuota_eq_dec : EqDecision OperationQuota.
Proof. solve_decision. Defined.
#[global] Instance CompletedCapabilityOperationResult_eq_dec : EqDecision CompletedCapabilityOperationResult.
Proof. solve_decision. Defined.
#[global] Instance AuthorizedOperationLifecycle_eq_dec : EqDecision AuthorizedOperationLifecycle.
Proof. solve_decision. Defined.

Record AuthorizedOperation : Type := mkAuthorizedOperation {
  ao_tenantId : string;
  authorizedOperationId : string;
  auditEventId : string;
  claimedAtMs : Z;
  ao_operation : CapabilityOperationEnvelope;
  operationFingerprintDigest : string;
  authorization : OperationAuthorizationSource;
  quota : OperationQuota;
  ao_lifecycle : AuthorizedOperationLifecycle;
}.

#[global] Instance AuthorizedOperation_eq_dec : EqDecision AuthorizedOperation.
Proof. solve_decision. Defined.

Record AuthorizedOperationInput : Type := mkAuthorizedOperationInput {
  oi_tenantId : string;
  oi_authorizedOperationId : string;
  oi_auditEventId : string;
  oi_claimedAtMs : Z;
  oi_operation : CapabilityOperationEnvelope;
  oi_authorization : OperationAuthorizationSource;
  oi_quota : OperationQuota;
}.

Definition result_text (r : CompletedCapabilityOperationResult) : string :=
  match r with
  | succeeded => "succeeded"
  | failed_before_side_effect => "failed_before_side_effect"
  | failed_after_side_effect => "failed_after_side_effect"
  end.

Definition result_of_text (s : string) : option CompletedCapabilityOperationResult :=
  List.find (fun r => bool_decide (result_text r = s)) [succeeded; failed_before_side_effect; failed_after_side_effect].

Section Digests.
Context (sha256 : string -> list Z).

Definition buildAuthorizedOperation (input : AuthorizedOperationInput) : Result AuthorizedOperation :=
  if negb (bool_decide (oi_tenantId input = e_tenantId (oi_operation input)))
  then Throw (JsError "authorized operation tenant must match its operation envelope")
  else
    let* fingerprint := computeCapabilityOperationFingerprintDigest sha256 (oi_operation input) in
    Ok (mkAuthorizedOperation (oi_tenantId input) (oi_authorizedOperationId input) (oi_auditEventId input)
          (oi_claimedAtMs input) (oi_operation input) fingerprint (oi_authorization input) (oi_quota input)
          LifecycleClaimed).

Definition computeAuthorizedOperationResultDigest (response : JsVal) : Result string :=
  let* parsed := parseAuthorizedOperationReplayResponse response in
  parseDigestB64u (JString (base64UrlEncode
    (sha256 (digest_preimage AUTHORIZED_OPERATION_RESULT_DIGEST_DOMAIN_V1 (response_value parsed))))).
End Digests.

(** ** Laws *)

Lemma requireString_ok s label : opaque_id s = true -> requireString (JString s) label = Ok s.
Proof.
  intros Ho. unfold requireString. rewrite bool_decide_eq_true_2 by by apply opaque_id_trim.
  apply andb_true_iff in Ho as [[-> Hl%Nat.leb_le]%andb_true_iff ->%negb_true_iff]. simpl.
  by rewrite (proj2 (Nat.ltb_ge _ _) Hl).
Qed.

Lemma requireParsed_ok {A} v (parser : JsVal -> Result A) label a : parser v = Ok a -> requireParsed v parser label = Ok a.
Proof. unfold requireParsed. by intros ->. Qed.

Lemma safe_integer_ok z : 0 < z <= MAX_SAFE_INTEGER -> safe_integer_value (NInt z) = Some z.
Proof.
  intros H. unfold safe_integer_value. replace (is_safe_integer z) with true; [done|].
  unfold is_safe_integer. lia.
Qed.

Lemma requirePositiveInteger_ok z label : 0 < z <= MAX_SAFE_INTEGER -> requirePositiveInteger (JInt z) label = Ok z.
Proof.
  intros H. unfold requirePositiveInteger, integerColumn. change (js_Number (JInt z)) with (NInt z).
  rewrite safe_integer_ok by done. simpl. destruct (Z.leb_spec z 0); [lia|done].
Qed.

Lemma result_text_of r : result_of_text (result_text r) = Some r.
Proof. by destruct r. Qed.

Lemma parsed_response_status value r : parseAuthorizedOperationReplayResponse value = Ok r -> 200 <= rr_status r <= 599.
Proof.
  unfold parseAuthorizedOperationReplayResponse. destruct (negb _); [done|].
  intros (status & Hs & (contentType & _ & Hb)%result_bind_ok)%result_bind_ok.
  destruct (jget "status" value) as [| | |n| | | |]; try done. destruct (safe_integer_value n) as [z|]; [|done].
  destruct ((z <? 200) || (599 <? z)) eqn:Hz; [done|]. injection Hs as <-.
  destruct (jget "bodyText" value) as [| | | | |t| |]; try done. destruct (_ <? utf8_length t); [done|].
  destruct (_ && _); [done|]. injection Hb as <-. simpl. lia.
Qed.

(** An answer that was accepted is accepted again as it is. *)
Lemma parsed_response_value value r : parseAuthorizedOperationReplayResponse value = Ok r ->
  parseAuthorizedOperationReplayResponse (response_value r) = Ok r.
Proof.
  intros H. pose proof (parsed_response_status _ _ H) as Hst. revert H.
  unfold parseAuthorizedOperationReplayResponse at 1. destruct (negb _); [done|].
  intros (status & Hs & (contentType & Hc & Hb)%result_bind_ok)%result_bind_ok.
  destruct (jget "contentType" value) as [| | | | |c| |]; try done.
  destruct (negb (nonempty c) || _ || _ || _) eqn:Hcc; [done|]. injection Hc as <-.
  destruct (jget "bodyText" value) as [| | | | |t| |]; try done.
  destruct (_ <? utf8_length t) eqn:Hl; [done|]. destruct (_ && _) eqn:Hn; [done|]. injection Hb as <-. simpl in Hst.
  unfold parseAuthorizedOperationReplayResponse, response_value. cbn [rr_status rr_contentType rr_bodyText].
  replace (negb (has_exact_keys _ _)) with false by done. cbv iota.
  change (jget "status" _) with (JInt status). change (jget "contentType" _) with (JString c).
  change (jget "bodyText" _) with (JString t). unfold JInt. cbv iota beta.
  rewrite safe_integer_ok by (unfold MAX_SAFE_INTEGER; lia).
  replace ((status <? 200) || (599 <? status)) with false by lia. cbn [result_bind].
  rewrite Hcc. cbn [result_bind]. by rewrite Hl, Hn.
Qed.

(** Bytes of SHA-256 make a digest. *)
Lemma digest_of_bytes bytes : digits 256 bytes -> length bytes = 32%nat ->
  parseDigestB64u (JString (base64UrlEncode bytes)) = Ok (base64UrlEncode bytes).
Proof.
  intros Hb Hl. destruct (decode_encode bytes Hb) as (Hd & Hc & Hn).
  unfold parseDigestB64u, UNPADDED_BASE64URL. rewrite Hd, Hc, Hl, Hn by by destruct bytes.
  simpl. by rewrite bool_decide_true.
Qed.

Lemma digest_fields s v : parseDigestB64u v = Ok s -> v = JString s.
Proof.
  unfold parseDigestB64u. destruct v as [| | | | |t| |]; try done. destruct (negb _); [done|].
  destruct (base64UrlDecode t); [|done]. destruct (_ || _); [done|]. by intros [= ->].
Qed.

(** A text that [parseDigestB64u] accepts. *)
Definition is_digest (s : string) : bool :=
  match parseDigestB64u (JString s) with Ok _ => true | Throw _ => false end.

Lemma is_digest_parses s : is_digest s = true -> parseDigestB64u (JString s) = Ok s.
Proof.
  unfold is_digest. destruct (parseDigestB64u (JString s)) as [t|] eqn:E; [|done].
  by pose proof (digest_fields _ _ E) as [= ->].
Qed.

Lemma parsed_is_digest v s : parseDigestB64u v = Ok s -> is_digest s = true.
Proof. intros H. pose proof (digest_fields _ _ H) as ->. unfold is_digest. by rewrite H. Qed.

(** *** The length of a digest *)

Lemma base64UrlEncode_text bytes : base64UrlEncode bytes = to_url (text_of base64_char (sextets bytes)).
Proof.
  set (s := text_of base64_char (sextets bytes)). unfold base64UrlEncode, base64Encode, btoa. fold s. fold (padding s).
  change (to_url (s +:+ padding s) = to_url s). rewrite to_url_app. unfold padding.
  rewrite to_url_padding. apply append_nil_r.
Qed.

Lemma filter_chars_length p s : (String.length (filter_chars p s) <= String.length s)%nat.
Proof. induction s as [|a s IH]; simpl; [done|]. destruct (p a); simpl; lia. Qed.

Lemma replace_char_length a b s : String.length (replace_char a b s) = String.length s.
Proof. induction s as [|c s IH]; simpl; [done|]. by rewrite IH. Qed.

Lemma to_url_length s : (String.length (to_url s) <= String.length s)%nat.
Proof.
  unfold to_url. etrans; [apply filter_chars_length|]. by rewrite !replace_char_length.
Qed.

Lemma text_of_base64_length l : (String.length (text_of base64_char l) <= length l)%nat.
Proof.
  induction l as [|d l IH]; [done|]. rewrite text_of_cons, string_length_app. simpl.
  unfold base64_char at 1. destruct (String.get _ _); simpl; lia.
Qed.

Lemma sextets_32 bytes : length bytes = 32%nat -> length (sextets bytes) = 43%nat.
Proof.
  intros Hl. do 32 (destruct bytes as [|? bytes]; [done|]). destruct bytes; [|done]. vm_compute. reflexivity.
Qed.

Lemma digest_length bytes : length bytes = 32%nat -> (String.length (base64UrlEncode bytes) <= 43)%nat.
Proof.
  intros Hl. rewrite base64UrlEncode_text. etrans; [apply to_url_length|].
  etrans; [apply text_of_base64_length|]. by rewrite sextets_32.
Qed.

Lemma url_chars_opaque s : all_chars is_base64url_char s = true -> hasWhitespaceOrControlCharacters s = false.
Proof.
  intros H. unfold hasWhitespaceOrControlCharacters, hasControlCharacter. apply orb_false_iff.
  split; apply negb_false_iff; eapply all_chars_impl; try exact H; intros c Hc; unfold is_base64url_char, is_js_space in *;
    cbv zeta in *; lia.
Qed.

(** A digest is an opaque text for every reader. *)
Lemma digest_opaque s : is_digest s = true -> opaque_id s = true.
Proof.
  intros H%is_digest_parses. unfold parseDigestB64u in H.
  destruct (negb (UNPADDED_BASE64URL s)) eqn:Hu; [done|]. apply negb_false_iff, andb_true_iff in Hu as [Hn Hc].
  destruct (base64UrlDecode s) as [bytes|]; [|done]. destruct (negb (_ =? 32)%nat || _) eqn:Hb; [done|].
  apply orb_false_iff in Hb as [Hl%negb_false_iff%Nat.eqb_eq He%negb_false_iff%bool_decide_eq_true].
  unfold opaque_id. rewrite Hn, url_chars_opaque by done. simpl. rewrite andb_true_r. apply Nat.leb_le.
  rewrite <- He. pose proof (digest_length bytes Hl). lia.
Qed.
