(* ===== verification/WalletSessionValues.v ===== *)
(** * Wallet session authorizations

    The sessions of [packages/wallet-server/src/authorization/domain.ts]: what a session
    may do, how long, and with which quota; and the references to activated key material
    of [packages/shared-ts/src/utils/domainIds.ts] that its subjects carry. *)

From S2P Require Import Prelude JsValues BitPacking Base64 Capabilities AuthorizationDomain.
Local Open Scope Z_scope.
Local Open Scope js_scope.

(** ** References to key material *)

Record MpcMaterialActivationRef : Type := mkActivationRef {
  activationId : string;
  capability : string;
  materialOwner : string;
  keyBinding : string;
  lifecycleBinding : string;
  signingWorker : string;
}.

#[global] Instance MpcMaterialActivationRef_eq_dec : EqDecision MpcMaterialActivationRef.
Proof. solve_decision. Defined.

Definition mpcMaterialActivationRefsEqual (left right : MpcMaterialActivationRef) : bool :=
  bool_decide (activationId left = activationId right) && bool_decide (capability left = capability right) &&
  bool_decide (materialOwner left = materialOwner right) && bool_decide (keyBinding left = keyBinding right) &&
  bool_decide (lifecycleBinding left = lifecycleBinding right) &&
  bool_decide (signingWorker left = signingWorker right).

Definition activation_ref_fields : list string :=
  ["kind"; "activationId"; "capability"; "materialOwner"; "keyBinding"; "lifecycleBinding"; "signingWorker"].

Definition isMpcMaterialActivationRefField (field : string) : bool := shas field activation_ref_fields.

Definition parseMpcMaterialActivationRef (raw : JsVal) : Result MpcMaterialActivationRef :=
  if is_nullish raw then Throw (JsError "mpcMaterialActivationRef is required")
  else
    match record_keys raw with
    | None => Throw (JsError "mpcMaterialActivationRef must be an object")
    | Some fields =>
        if negb (length fields =? 7)%nat || negb (forallb isMpcMaterialActivationRefField fields)
        then Throw (JsError "mpcMaterialActivationRef has invalid fields")
        else if negb (strict_eq (jget "kind" raw) (JString "mpc_material_activation_ref"))
        then Throw (JsError "mpcMaterialActivationRef.kind is invalid")
        else
          let* activationId := parseDomainId (jget "activationId" raw) "mpcMaterialActivationId" in
          let* capability := parseDomainId (jget "capability" raw) "capabilityInstanceRef" in
          let* materialOwner := parseDomainId (jget "materialOwner" raw) "mpcMaterialOwnerRef" in
          let* keyBinding := parseDomainId (jget "keyBinding" raw) "mpcKeyBindingRef" in
          let* lifecycleBinding := parseDomainId (jget "lifecycleBinding" raw) "mpcLifecycleBindingRef" in
          let* signingWorker := parseDomainId (jget "signingWorker" raw) "mpcSigningWorkerRef" in
          Ok (mkActivationRef activationId capability materialOwner keyBinding lifecycleBinding signingWorker)
    end.

Definition activation_ref_value (r : MpcMaterialActivationRef) : JsVal :=
  JObject [("kind", JString "mpc_material_activation_ref"); ("activationId", JString (activationId r));
           ("capability", JString (capability r)); ("materialOwner", JString (materialOwner r));
           ("keyBinding", JString (keyBinding r)); ("lifecycleBinding", JString (lifecycleBinding r));
           ("signingWorker", JString (signingWorker r))].

(** ** Capability subjects *)

Inductive KeyFamily : Type := ed25519 | ecdsa_secp256k1.

Inductive SignerSubjectKind : Type := SubjectSign | SubjectExportKeys.

Inductive AdministrationKind : Type := SubjectLinkDevices | SubjectRevokeDevices.

Inductive WalletSessionCapabilitySubjectV1 : Type :=
| SignerSubject (kind : SignerSubjectKind) (keyFamily : KeyFamily) (materialActivation : MpcMaterialActivationRef)
| AdministrationSubject (kind : AdministrationKind) (authorityId : string).

#[global] Instance KeyFamily_eq_dec : EqDecision KeyFamily.
Proof. solve_decision. Defined.
#[global] Instance SignerSubjectKind_eq_dec : EqDecision SignerSubjectKind.
Proof. solve_decision. Defined.
#[global] Instance AdministrationKind_eq_dec : EqDecision AdministrationKind.
Proof. solve_decision. Defined.
#[global] Instance WalletSessionCapabilitySubjectV1_eq_dec : EqDecision WalletSessionCapabilitySubjectV1.
Proof. solve_decision. Defined.

Definition family_text (f : KeyFamily) : string :=
  match f with ed25519 => "ed25519" | ecdsa_secp256k1 => "ecdsa_secp256k1" end.
Definition signer_kind_text (k : SignerSubjectKind) : string :=
  match k with SubjectSign => "sign" | SubjectExportKeys => "export_keys" end.
Definition administration_kind_text (k : AdministrationKind) : string :=
  match k with SubjectLinkDevices => "link_devices" | SubjectRevokeDevices => "revoke_devices" end.

Definition subject_value (s : WalletSessionCapabilitySubjectV1) : JsVal :=
  match s with
  | SignerSubject kind keyFamily materialActivation =>
      JObject [("kind", JString (signer_kind_text kind)); ("keyFamily", JString (family_text keyFamily));
               ("materialActivation", activation_ref_value materialActivation)]
  | AdministrationSubject kind authorityId =>
      JObject [("kind", JString (administration_kind_text kind)); ("authorityId", JString authorityId)]
  end.

(** [walletSessionCapabilitySubjectsV1Equal] on two subjects. *)
Definition subjects_equal (left right : WalletSessionCapabilitySubjectV1) : bool :=
  match left, right with
  | SignerSubject k f m, SignerSubject k' f' m' =>
      bool_decide (k = k') && bool_decide (f = f') && mpcMaterialActivationRefsEqual m m'
  | AdministrationSubject k a, AdministrationSubject k' a' => bool_decide (k = k') && bool_decide (a = a')
  | _, _ => false
  end.

Fixpoint walletSessionCapabilitySubjectsV1Equal (left right : list WalletSessionCapabilitySubjectV1) : bool :=
  match left, right with
  | [], [] => true
  | s :: lefts, s' :: rights => subjects_equal s s' && walletSessionCapabilitySubjectsV1Equal lefts rights
  | _, _ => false
  end.

Definition parse_signer_subject (kind : SignerSubjectKind) (value : JsVal) : Result WalletSessionCapabilitySubjectV1 :=
  if negb (has_exact_keys ["keyFamily"; "kind"; "materialActivation"] value)
  then Throw (JsError "Wallet Session signer capability subject contains unexpected fields")
  else
    match kind_of family_text [ed25519; ecdsa_secp256k1] (jget "keyFamily" value) with
    | None => Throw (JsError "Wallet Session signer capability subject key family is invalid")
    | Some family =>
        let* materialActivation := parseMpcMaterialActivationRef (jget "materialActivation" value) in
        Ok (SignerSubject kind family materialActivation)
    end.

Definition parse_administration_subject (kind : AdministrationKind) (value : JsVal)
  : Result WalletSessionCapabilitySubjectV1 :=
  if negb (has_exact_keys ["authorityId"; "kind"] value)
  then Throw (JsError "Wallet Session administration capability subject contains unexpected fields")
  else
    let* authorityId := parseDomainId (jget "authorityId" value) "walletAuthorityId" in
    Ok (AdministrationSubject kind authorityId).

Definition parseWalletSessionCapabilitySubject (value : JsVal) : Result WalletSessionCapabilitySubjectV1 :=
  match record_keys value, jget "kind" value with
  | Some _, JString kind =>
      match kind_of signer_kind_text [SubjectSign; SubjectExportKeys] (JString kind) with
      | Some k => parse_signer_subject k value
      | None =>
          match kind_of administration_kind_text [SubjectLinkDevices; SubjectRevokeDevices] (JString kind) with
          | Some k => parse_administration_subject k value
          | None => Throw (JsError "Wallet Session capability subject kind is unsupported")
          end
      end
  | _, _ => Throw (JsError "Wallet Session capability subject must be an object")
  end.

Fixpoint parse_subjects (values : list JsVal) : Result (list WalletSessionCapabilitySubjectV1) :=
  match values with
  | [] => Ok []
  | v :: values =>
      let* subject := parseWalletSessionCapabilitySubject v in
      let* subjects := parse_subjects values in
      Ok (subject :: subjects)
  end.

Definition parseWalletSessionCapabilitySubjects (value : JsVal) : Result (list WalletSessionCapabilitySubjectV1) :=
  match value with
  | JArray (v :: values) => parse_subjects (v :: values)
  | _ => Throw (JsError "Wallet Session capability subjects must be non-empty")
  end.

(** ** The subjects of an authority *)

Inductive Permission : Type := PermSign | PermExportKeys | PermLinkDevices | PermRevokeDevices.

#[global] Instance Permission_eq_dec : EqDecision Permission.
Proof. solve_decision. Defined.

(** [WalletSignerActivationSetV1]: the material of each activated key family. *)
Inductive WalletSignerActivationSetV1 : Type :=
| OnlyEd25519 (ed25519 : MpcMaterialActivationRef)
| OnlyEcdsa (ecdsa : MpcMaterialActivationRef)
| BothFamilies (ed25519 ecdsa : MpcMaterialActivationRef).

Definition set_ed25519 (s : WalletSignerActivationSetV1) : option MpcMaterialActivationRef :=
  match s with OnlyEd25519 m | BothFamilies m _ => Some m | OnlyEcdsa _ => None end.
Definition set_ecdsa (s : WalletSignerActivationSetV1) : option MpcMaterialActivationRef :=
  match s with OnlyEcdsa m | BothFamilies _ m => Some m | OnlyEd25519 _ => None end.

(** What of an active authority a session is made from. *)
Record ActiveWalletAuthorityV1 : Type := mkActiveAuthority {
  aa_authorityId : string;
  aa_permissions : list Permission;
  aa_signerActivations : WalletSignerActivationSetV1;
}.

(** The subjects that [appendWalletSessionSignerSubjects] appends. *)
Definition appendWalletSessionSignerSubjects (subjects : list WalletSessionCapabilitySubjectV1)
    (kind : SignerSubjectKind) (signerActivations : WalletSignerActivationSetV1) : list WalletSessionCapabilitySubjectV1 :=
  match signerActivations with
  | OnlyEd25519 m => subjects ++ [SignerSubject kind ed25519 m]
  | OnlyEcdsa m => subjects ++ [SignerSubject kind ecdsa_secp256k1 m]
  | BothFamilies m m' => subjects ++ [SignerSubject kind ed25519 m; SignerSubject kind ecdsa_secp256k1 m']
  end.

Definition buildWalletSessionCapabilitySubjectsV1 (authority : ActiveWalletAuthorityV1)
  : Result (list WalletSessionCapabilitySubjectV1) :=
  let has p := bool_decide (p ∈ aa_permissions authority) in
  let subjects := [] in
  let subjects := if has PermSign
    then appendWalletSessionSignerSubjects subjects SubjectSign (aa_signerActivations authority) else subjects in
  let subjects := if has PermExportKeys
    then appendWalletSessionSignerSubjects subjects SubjectExportKeys (aa_signerActivations authority) else subjects in
  let subjects := if has PermLinkDevices
    then subjects ++ [AdministrationSubject SubjectLinkDevices (aa_authorityId authority)] else subjects in
  let subjects := if has PermRevokeDevices
    then subjects ++ [AdministrationSubject SubjectRevokeDevices (aa_authorityId authority)] else subjects in
  match subjects with
  | [] => Throw (JsError "active wallet authority must produce capability subjects")
  | _ => Ok subjects
  end.

(** [exactWalletSessionCapabilitySubjectsResolveAuthority]. *)
Definition exactWalletSessionCapabilitySubjectsResolveAuthority (sessionAuthorityId : string)
    (capabilitySubjects : list WalletSessionCapabilitySubjectV1) (signerActivations : WalletSignerActivationSetV1) : bool :=
  forallb (fun subject =>
    match subject with
    | SignerSubject _ keyFamily materialActivation =>
        match (match keyFamily with ed25519 => set_ed25519 signerActivations
                                  | ecdsa_secp256k1 => set_ecdsa signerActivations end) with
        | Some activation => mpcMaterialActivationRefsEqual activation materialActivation
        | None => false
        end
    | AdministrationSubject _ authorityId => bool_decide (authorityId = sessionAuthorityId)
    end) capabilitySubjects.

(** ** Sessions and quotas *)

Record ActiveWalletSessionQuota : Type := mkActiveQuota {
  aq_tenantId : string;
  aq_principalId : string;
  aq_walletSessionId : string;
  aq_quotaId : string;
  aq_remainingUses : Z;
  aq_expiresAtMs : Z;
}.

Record WalletSessionAuthorizationV2 : Type := mkSession {
  tenantId : string;
  principalId : string;
  walletId : string;
  authorityId : string;
  walletAuthMethodId : string;
  authorityDigestB64u : string;
  authorityRevocationEpoch : Z;
  mintId : string;
  authorizationId : string;
  walletSessionId : string;
  quotaId : string;
  capabilitySubjects : list WalletSessionCapabilitySubjectV1;
  createdAtMs : Z;
  expiresAtMs : Z;
}.

#[global] Instance WalletSessionAuthorizationV2_eq_dec : EqDecision WalletSessionAuthorizationV2.
Proof. solve_decision. Defined.

(** Numbers here are the numbers a value was parsed to. *)
Definition requirePositive (value : Z) (message : string) : Result unit :=
  if is_safe_integer value && (0 <? value) then Ok tt else Throw (JsError message).

Definition requireNonnegative (value : Z) (message : string) : Result unit :=
  if is_safe_integer value && (0 <=? value) then Ok tt else Throw (JsError message).

Definition requireOrderedTimes (createdAtMs expiresAtMs : Z) (label : string) : Result unit :=
  let* _ := requirePositive createdAtMs (label +:+ " creation must be a positive timestamp") in
  let* _ := requirePositive expiresAtMs (label +:+ " expiry must be a positive timestamp") in
  if expiresAtMs <=? createdAtMs then Throw (JsError (label +:+ " expiry must follow creation")) else Ok tt.

Definition buildActiveWalletSessionQuota (fields : ActiveWalletSessionQuota) : Result ActiveWalletSessionQuota :=
  let* _ := requirePositive (aq_remainingUses fields) "Wallet Session quota remaining uses must be a positive safe integer" in
  let* _ := requirePositive (aq_expiresAtMs fields) "Wallet Session quota expiry must be a positive timestamp" in
  Ok fields.

Definition buildWalletSessionAuthorizationV2 (fields : WalletSessionAuthorizationV2)
  : Result WalletSessionAuthorizationV2 :=
  let* _ := requireNonnegative (authorityRevocationEpoch fields)
    "Wallet Session authority revocation epoch must be a nonnegative safe integer" in
  let* _ := parseDigestB64u (JString (authorityDigestB64u fields)) in
  match capabilitySubjects fields with
  | [] => Throw (JsError "Wallet Session capability subjects are required")
  | _ =>
      let* _ := requireOrderedTimes (createdAtMs fields) (expiresAtMs fields) "Wallet Session authorization" in
      if bool_decide (NoDup [authorizationId fields; walletSessionId fields; quotaId fields]) then Ok fields
      else Throw (JsError "Wallet Session authorization identities must be pairwise distinct")
  end.

Definition walletSessionAuthorizationV2RecordsEqual (left right : WalletSessionAuthorizationV2) : bool :=
  bool_decide (tenantId left = tenantId right) && bool_decide (principalId left = principalId right) &&
  bool_decide (walletId left = walletId right) && bool_decide (authorityId left = authorityId right) &&
  bool_decide (walletAuthMethodId left = walletAuthMethodId right) &&
  bool_decide (authorityDigestB64u left = authorityDigestB64u right) &&
  (authorityRevocationEpoch left =? authorityRevocationEpoch right) &&
  bool_decide (mintId left = mintId right) && bool_decide (authorizationId left = authorizationId right) &&
  bool_decide (walletSessionId left = walletSessionId right) && bool_decide (quotaId left = quotaId right) &&
  walletSessionCapabilitySubjectsV1Equal (capabilitySubjects left) (capabilitySubjects right) &&
  (createdAtMs left =? createdAtMs right) && (expiresAtMs left =? expiresAtMs right).

Definition session_fields : list string :=
  ["authorityDigestB64u"; "authorityId"; "authorityRevocationEpoch"; "authorizationId"; "capabilitySubjects";
   "createdAtMs"; "expiresAtMs"; "kind"; "mintId"; "principalId"; "quotaId"; "tenantId"; "walletAuthMethodId";
   "walletId"; "walletSessionId"].

Definition isWalletSessionAuthorizationRecordV2 (value : JsVal) : bool := has_exact_keys session_fields value.

(** [requireNonnegativeInteger] and [requirePositiveTimestamp] on a value. *)
Definition requireInteger (from : Z) (value : JsVal) (message : string) : Result Z :=
  match value with
  | JNumber n =>
      match safe_integer_value n with
      | Some z => if z <? from then Throw (JsError message) else Ok z
      | None => Throw (JsError message)
      end
  | _ => Throw (JsError message)
  end.

(** A parse error with the field it belongs to before it. *)
Definition prefixed {A} (label : string) (r : Result A) : Result A :=
  match r with Ok a => Ok a | Throw e => Throw (JsError (label +:+ errorMessage e)) end.

Definition parseWalletSessionAuthorizationV2 (value : JsVal) : Result WalletSessionAuthorizationV2 :=
  if negb (isWalletSessionAuthorizationRecordV2 value)
  then Throw (JsError "Wallet Session authorization V2 contains unexpected fields")
  else if negb (strict_eq (jget "kind" value) (JString "wallet_session_authorization_v2"))
  then Throw (JsError "Wallet Session authorization V2 kind is invalid")
  else
    let* tenantId := prefixed "linked-device authorization tenantId: " (parseTenantId (jget "tenantId" value)) in
    let* principalId := prefixed "linked-device authorization principalId: " (parsePrincipalId (jget "principalId" value)) in
    let* walletId := prefixed "linked-device authorization walletId: " (parseWalletId (jget "walletId" value)) in
    let* authorityId := parseDomainId (jget "authorityId" value) "walletAuthorityId" in
    let* walletAuthMethodId := parseDomainId (jget "walletAuthMethodId" value) "walletAuthMethodId" in
    let* authorityDigestB64u := parseDigestB64u (jget "authorityDigestB64u" value) in
    let* mintId := prefixed "" (parseWalletSessionMintId (jget "mintId" value)) in
    let* authorizationId := prefixed "" (parseWalletSessionAuthorizationId (jget "authorizationId" value)) in
    let* walletSessionId := prefixed "linked-device authorization walletSessionId: "
      (parseWalletSessionId (jget "walletSessionId" value)) in
    let* quotaId := prefixed "linked-device authorization quotaId: " (parseMpcWalletSigningQuotaId (jget "quotaId" value)) in
    let* authorityRevocationEpoch := requireInteger 0 (jget "authorityRevocationEpoch" value)
      "Wallet Session authority revocation epoch must be a nonnegative safe integer" in
    let* capabilitySubjects := parseWalletSessionCapabilitySubjects (jget "capabilitySubjects" value) in
    let* createdAtMs := requireInteger 1 (jget "createdAtMs" value)
      "Wallet Session createdAtMs must be a positive safe integer" in
    let* expiresAtMs := requireInteger 1 (jget "expiresAtMs" value)
      "Wallet Session expiresAtMs must be a positive safe integer" in
    buildWalletSessionAuthorizationV2 (mkSession tenantId principalId walletId authorityId walletAuthMethodId
      authorityDigestB64u authorityRevocationEpoch mintId authorizationId walletSessionId quotaId capabilitySubjects
      createdAtMs expiresAtMs).

(** The record a session is, [JSON.stringify(session)] of which is stored. *)
Definition session_value (s : WalletSessionAuthorizationV2) : JsVal :=
  JObject [("kind", JString "wallet_session_authorization_v2"); ("tenantId", JString (tenantId s));
           ("principalId", JString (principalId s)); ("walletId", JString (walletId s));
           ("authorityId", JString (authorityId s)); ("walletAuthMethodId", JString (walletAuthMethodId s));
           ("authorityDigestB64u", JString (authorityDigestB64u s));
           ("authorityRevocationEpoch", JInt (authorityRevocationEpoch s)); ("mintId", JString (mintId s));
           ("authorizationId", JString (authorizationId s)); ("walletSessionId", JString (walletSessionId s));
           ("quotaId", JString (quotaId s));
           ("capabilitySubjects", JArray (map subject_value (capabilitySubjects s)));
           ("createdAtMs", JInt (createdAtMs s)); ("expiresAtMs", JInt (expiresAtMs s))].

(** [parsePersistedWalletSessionAuthorizationV2]: a field of older records is dropped. *)
Definition parsePersistedWalletSessionAuthorizationV2 (value : JsVal) : Result WalletSessionAuthorizationV2 :=
  match value with
  | JObject fields =>
      if shas "laneContext" fields.*1
      then parseWalletSessionAuthorizationV2 (JObject (List.filter (fun f => negb (bool_decide (f.1 = "laneContext"))) fields))
      else parseWalletSessionAuthorizationV2 value
  | _ => parseWalletSessionAuthorizationV2 value
  end.

Record PersistedActiveWalletSession : Type := mkPersisted {
  ps_session : WalletSessionAuthorizationV2;
  ps_quota : ActiveWalletSessionQuota;
  ps_credentialDigest : string;
}.

(** The comparison of [buildPersistedActiveWalletSessionAuthorizationV2] and of
    [requireExactWalletSessionAuthorizationV2Quota]. *)
Definition quota_of_session (session : WalletSessionAuthorizationV2) (quota : ActiveWalletSessionQuota) : bool :=
  bool_decide (tenantId session = aq_tenantId quota) && bool_decide (principalId session = aq_principalId quota) &&
  bool_decide (walletSessionId session = aq_walletSessionId quota) && bool_decide (quotaId session = aq_quotaId quota) &&
  (expiresAtMs session =? aq_expiresAtMs quota).

Definition buildPersistedActiveWalletSessionAuthorizationV2 (fields : PersistedActiveWalletSession)
  : Result PersistedActiveWalletSession :=
  if negb (quota_of_session (ps_session fields) (ps_quota fields))
  then Throw (JsError "V2 persisted active authorization and quota must have one exact identity")
  else let* _ := parseDigestB64u (JString (ps_credentialDigest fields)) in Ok fields.

Inductive QuotaLifecycle : Type := QuotaActive | QuotaExhausted.

#[global] Instance QuotaLifecycle_eq_dec : EqDecision QuotaLifecycle.
Proof. solve_decision. Defined.

(** [buildExactWalletSessionQuotaProjectionV1]: the lifecycle with the quota it belongs to. *)
Definition buildExactWalletSessionQuotaProjectionV1 (lifecycle : QuotaLifecycle) (fields : ActiveWalletSessionQuota)
  : Result (QuotaLifecycle * ActiveWalletSessionQuota) :=
  let* _ := requireNonnegative (aq_remainingUses fields)
    "Wallet Session quota remaining uses must be a nonnegative safe integer" in
  let* _ := requirePositive (aq_expiresAtMs fields) "Wallet Session quota expiry must be a positive timestamp" in
  if negb (Bool.eqb (bool_decide (lifecycle = QuotaExhausted)) (aq_remainingUses fields =? 0))
  then Throw (JsError "Wallet Session quota lifecycle disagrees with its remaining uses")
  else Ok (lifecycle, fields).

(** ** Laws *)

Lemma activation_refs_equal_spec m m' : mpcMaterialActivationRefsEqual m m' = true <-> m = m'.
Proof.
  unfold mpcMaterialActivationRefsEqual. rewrite !andb_true_iff, !bool_decide_eq_true.
  destruct m, m'; simpl. split; [by intros [[[[[-> ->] ->] ->] ->] ->]|by intros [= -> -> -> -> -> ->]].
Qed.

Lemma subjects_equal_spec s s' : subjects_equal s s' = true <-> s = s'.
Proof.
  destruct s, s'; simpl; try done; rewrite ?andb_true_iff, ?bool_decide_eq_true, ?activation_refs_equal_spec;
    naive_solver.
Qed.

Lemma subject_lists_equal_spec l : forall l', walletSessionCapabilitySubjectsV1Equal l l' = true <-> l = l'.
Proof.
  induction l as [|s l IH]; intros [|s' l']; simpl; try done.
  rewrite andb_true_iff, subjects_equal_spec, IH. naive_solver.
Qed.

Lemma sessions_equal_spec s s' : walletSessionAuthorizationV2RecordsEqual s s' = true <-> s = s'.
Proof.
  unfold walletSessionAuthorizationV2RecordsEqual.
  rewrite !andb_true_iff, !bool_decide_eq_true, !Z.eqb_eq, subject_lists_equal_spec.
  destruct s, s'; simpl. split; [intros H; destruct_and!; by subst|intros E; injection E; intros; subst; by split_and!].
Qed.

(** What every parser of a domain identifier returns as it is. *)
Definition domain_id (s : string) : bool := nonempty s && bool_decide (trim s = s).

Lemma parseDomainId_ok field s : domain_id s = true -> parseDomainId (JString s) field = Ok s.
Proof. intros [Hn Ht%bool_decide_eq_true]%andb_true_iff. unfold parseDomainId. by rewrite Ht, Hn. Qed.

Lemma parsed_domain_id v field s : parseDomainId v field = Ok s -> domain_id s = true.
Proof.
  unfold parseDomainId. destruct v as [| | | | |t| |]; try done. destruct (nonempty (trim t)) eqn:Hn; [|done].
  intros [= <-]. unfold domain_id. by rewrite Hn, trim_idem, bool_decide_true.
Qed.

Definition activation_ref_ok (m : MpcMaterialActivationRef) : bool :=
  domain_id (activationId m) && domain_id (capability m) && domain_id (materialOwner m) && domain_id (keyBinding m) &&
  domain_id (lifecycleBinding m) && domain_id (signingWorker m).

Definition subject_ok (s : WalletSessionCapabilitySubjectV1) : bool :=
  match s with
  | SignerSubject _ _ m => activation_ref_ok m
  | AdministrationSubject _ a => domain_id a
  end.

(** What the type of a session stands for. *)
Record session_wf (s : WalletSessionAuthorizationV2) : Prop := mkSessionWf {
  wf_ids : Forall (fun id => opaque_id id = true)
    [tenantId s; principalId s; mintId s; authorizationId s; walletSessionId s; quotaId s];
  wf_walletId : parseWalletId (JString (walletId s)) = Ok (walletId s);
  wf_authorityId : domain_id (authorityId s) = true;
  wf_methodId : domain_id (walletAuthMethodId s) = true;
  wf_digest : is_digest (authorityDigestB64u s) = true;
  wf_epoch : 0 <= authorityRevocationEpoch s <= MAX_SAFE_INTEGER;
  wf_subjects : capabilitySubjects s <> [] /\ forallb subject_ok (capabilitySubjects s) = true;
  wf_times : 0 < createdAtMs s < expiresAtMs s /\ expiresAtMs s <= MAX_SAFE_INTEGER;
  wf_distinct : NoDup [authorizationId s; walletSessionId s; quotaId s];
}.

#[local] Arguments parseDomainId : simpl never.
#[local] Arguments parseAuthorizationId : simpl never.
#[local] Arguments parseMpcMaterialActivationRef : simpl never.

Lemma activation_ref_roundtrip m : activation_ref_ok m = true -> parseMpcMaterialActivationRef (activation_ref_value m) = Ok m.
Proof.
  unfold activation_ref_ok. rewrite !andb_true_iff. intros [[[[[? ?] ?] ?] ?] ?].
  unfold parseMpcMaterialActivationRef. simpl. rewrite !parseDomainId_ok by done. simpl.
  repeat (rewrite parseDomainId_ok by done; simpl). by destruct m.
Qed.

Lemma parsed_activation_ref v m : parseMpcMaterialActivationRef v = Ok m -> activation_ref_ok m = true.
Proof.
  unfold parseMpcMaterialActivationRef. destruct (is_nullish v); [done|]. destruct (record_keys v); [|done].
  destruct (_ || _); [done|]. destruct (negb _); [done|].
  intros (? & ?%parsed_domain_id & (? & ?%parsed_domain_id & (? & ?%parsed_domain_id & (? & ?%parsed_domain_id &
    (? & ?%parsed_domain_id & (? & ?%parsed_domain_id & [= <-])%result_bind_ok)%result_bind_ok)%result_bind_ok)%result_bind_ok
    )%result_bind_ok)%result_bind_ok.
  unfold activation_ref_ok. simpl. by rewrite !andb_true_iff.
Qed.

Lemma subject_roundtrip s : subject_ok s = true -> parseWalletSessionCapabilitySubject (subject_value s) = Ok s.
Proof.
  destruct s as [k f m|k a]; cbn [subject_ok]; intros Hok.
  - destruct k, f; unfold parseWalletSessionCapabilitySubject, parse_signer_subject; simpl;
      change (jget "materialActivation" _) with (activation_ref_value m); by rewrite activation_ref_roundtrip.
  - destruct k; unfold parseWalletSessionCapabilitySubject, parse_administration_subject; simpl;
      change (jget "authorityId" _) with (JString a); by rewrite parseDomainId_ok.
Qed.

Lemma parsed_subject v s : parseWalletSessionCapabilitySubject v = Ok s -> subject_ok s = true.
Proof.
  unfold parseWalletSessionCapabilitySubject. destruct (record_keys v); [|done]. destruct (jget "kind" v); try done.
  destruct (kind_of signer_kind_text _ _); [|destruct (kind_of administration_kind_text _ _); [|done]].
  - unfold parse_signer_subject. destruct (negb _); [done|]. destruct (kind_of family_text _ _); [|done].
    by intros (? & ?%parsed_activation_ref & [= <-])%result_bind_ok.
  - unfold parse_administration_subject. destruct (negb _); [done|].
    by intros (? & ?%parsed_domain_id & [= <-])%result_bind_ok.
Qed.

Lemma subjects_roundtrip l : forallb subject_ok l = true -> parse_subjects (map subject_value l) = Ok l.
Proof.
  induction l as [|s l IH]; [done|]. simpl. intros [Hs Hl]%andb_true_iff. rewrite subject_roundtrip by done.
  simpl. by rewrite IH.
Qed.

Lemma parsed_subjects values : forall l, parse_subjects values = Ok l -> forallb subject_ok l = true /\ length l = length values.
Proof.
  induction values as [|v values IH]; simpl; intros l; [by intros [= <-]|].
  intros (s & Hs%parsed_subject & (l' & [Hl Hn]%IH & [= <-])%result_bind_ok)%result_bind_ok. simpl. by rewrite Hs, Hl, Hn.
Qed.

Lemma prefixed_ok {A} label (r : Result A) a : prefixed label r = Ok a <-> r = Ok a.
Proof. destruct r; simpl; split; congruence. Qed.

Lemma requireInteger_spec from v message z : requireInteger from v message = Ok z <->
  v = JInt z /\ from <= z /\ is_safe_integer z = true.
Proof.
  unfold requireInteger, safe_integer_value. split.
  - destruct v as [| | |[x| | |]| | | |]; try done. destruct (is_safe_integer x) eqn:Hs; [|done].
    destruct (Z.ltb_spec x from); [done|]. intros [= <-]. by split_and!.
  - intros (-> & Hf & Hs). simpl. rewrite Hs. destruct (Z.ltb_spec z from); [lia|done].
Qed.

Lemma requireInteger_ok from z message : 0 <= from <= z -> z <= MAX_SAFE_INTEGER ->
  requireInteger from (JInt z) message = Ok z.
Proof. intros. apply requireInteger_spec. split_and!; [done|lia|]. unfold is_safe_integer. lia. Qed.

Lemma requirePositive_spec z message : requirePositive z message = Ok tt <-> 0 < z <= MAX_SAFE_INTEGER.
Proof.
  unfold requirePositive, is_safe_integer. split.
  - destruct ((_ && _) && _) eqn:E; [intros _; lia|done].
  - intros H. replace ((_ && _) && _) with true by lia. done.
Qed.

#[local] Arguments parseDigestB64u : simpl never.
#[local] Arguments is_safe_integer : simpl never.

Lemma positive_unit z message u : requirePositive z message = Ok u -> 0 < z <= MAX_SAFE_INTEGER.
Proof. destruct u. apply requirePositive_spec. Qed.

Lemma built_session s s' : buildWalletSessionAuthorizationV2 s = Ok s' <->
  s' = s /\ is_digest (authorityDigestB64u s) = true /\ 0 <= authorityRevocationEpoch s <= MAX_SAFE_INTEGER /\
  (0 < createdAtMs s < expiresAtMs s /\ expiresAtMs s <= MAX_SAFE_INTEGER) /\
  NoDup [authorizationId s; walletSessionId s; quotaId s] /\ capabilitySubjects s <> [].
Proof.
  unfold buildWalletSessionAuthorizationV2, requireNonnegative, requireOrderedTimes. split.
  - intros (u & He & (d & Hd & H)%result_bind_ok)%result_bind_ok.
    pose proof (digest_fields _ _ Hd) as [= <-]. apply parsed_is_digest in Hd.
    destruct (capabilitySubjects s) eqn:Hc; [done|].
    apply result_bind_ok in H as (t & (? & Hp%positive_unit & (? & Hq%positive_unit & Ht)%result_bind_ok)%result_bind_ok & H).
    destruct (Z.leb_spec (expiresAtMs s) (createdAtMs s)); [done|]. case_bool_decide; [|done]. injection H as <-.
    destruct (is_safe_integer _ && _) eqn:Hn; [|done]. unfold is_safe_integer in Hn.
    unfold MAX_SAFE_INTEGER in *. split_and!; try done; lia.
  - intros (-> & Hd & He & [Ht Hm] & Hnd & Hc).
    replace (is_safe_integer _ && _) with true by (unfold is_safe_integer; unfold MAX_SAFE_INTEGER in *; lia).
    cbn [result_bind]. rewrite is_digest_parses by done. cbn [result_bind].
    destruct (capabilitySubjects s) eqn:Hcs; [done|].
    rewrite (proj2 (requirePositive_spec (createdAtMs s) _)), (proj2 (requirePositive_spec (expiresAtMs s) _)) by lia.
    cbn [result_bind]. destruct (Z.leb_spec (expiresAtMs s) (createdAtMs s)); [lia|]. cbn [result_bind].
    by rewrite bool_decide_true.
Qed.

Lemma parsed_opaque v field s : parseAuthorizationId v field = Ok s -> opaque_id s = true.
Proof. apply parseAuthorizationId_opaque. Qed.

Lemma parsed_walletId v w : parseWalletId v = Ok w -> parseWalletId (JString w) = Ok w.
Proof.
  unfold parseWalletId, parseDomainId. destruct v as [| | | | |t| |]; try done.
  destruct (nonempty (trim t)) eqn:Hn; [|done]. destruct (hasWhitespaceOrControlCharacters (trim t)) eqn:Hw; [done|].
  intros [= <-]. by rewrite trim_idem, Hn, Hw.
Qed.

#[local] Arguments parseWalletId : simpl never.
#[local] Arguments buildWalletSessionAuthorizationV2 : simpl never.
#[local] Arguments requireInteger : simpl never.
#[local] Arguments parseWalletSessionCapabilitySubjects : simpl never.

Lemma session_roundtrip s : session_wf s -> parseWalletSessionAuthorizationV2 (session_value s) = Ok s.
Proof.
  intros [Hids Hw Ha Hm Hd He [Hne Hs] Ht Hnd]. repeat (apply Forall_cons_1 in Hids as [? Hids]).
  unfold parseWalletSessionAuthorizationV2, parseTenantId, parsePrincipalId, parseWalletSessionMintId,
    parseWalletSessionAuthorizationId, parseWalletSessionId, parseMpcWalletSigningQuotaId. simpl.
  rewrite Hw. repeat (rewrite ?parseAuthorizationId_ok, ?parseDomainId_ok, ?is_digest_parses by done; simpl).
  rewrite (requireInteger_ok 0 (authorityRevocationEpoch s)), (requireInteger_ok 1 (createdAtMs s)),
    (requireInteger_ok 1 (expiresAtMs s)) by lia.
  replace (parseWalletSessionCapabilitySubjects _) with (Ok (capabilitySubjects s)).
  2:{ unfold parseWalletSessionCapabilitySubjects. rewrite <- (subjects_roundtrip _ Hs).
      by destruct (capabilitySubjects s). }
  simpl. apply built_session. by destruct s.
Qed.

Lemma parsed_session v s : parseWalletSessionAuthorizationV2 v = Ok s -> session_wf s.
Proof.
  unfold parseWalletSessionAuthorizationV2. destruct (negb _); [done|]. destruct (negb _); [done|].
  intros (t & Ht%prefixed_ok%parsed_opaque & (p & Hp%prefixed_ok%parsed_opaque & (w & Hw%prefixed_ok%parsed_walletId &
    (a & Ha%parsed_domain_id & (m & Hm%parsed_domain_id & (d & Hd & (mi & Hmi%prefixed_ok%parsed_opaque &
    (au & Hau%prefixed_ok%parsed_opaque & (ws & Hws%prefixed_ok%parsed_opaque & (q & Hq%prefixed_ok%parsed_opaque &
    (e & He & (cs & Hcs & (c & Hc & (x & Hx & H)%result_bind_ok)%result_bind_ok)%result_bind_ok)%result_bind_ok
    )%result_bind_ok)%result_bind_ok)%result_bind_ok)%result_bind_ok)%result_bind_ok)%result_bind_ok)%result_bind_ok
    )%result_bind_ok)%result_bind_ok)%result_bind_ok.
  apply built_session in H as (-> & Hdig & Hep & Htimes & Hnd & Hne). simpl in *.
  split; simpl; try done; [by repeat constructor|]. split; [done|].
  unfold parseWalletSessionCapabilitySubjects in Hcs. destruct (jget "capabilitySubjects" v) as [| | | | | |[|]|]; try done.
  by apply parsed_subjects in Hcs as [? _].
Qed.

(** A session that was parsed is well formed; its stored form, also with the field that
    older records have, parses to it; and building it again changes nothing. *)
Theorem wallet_session_roundtrip :
  (forall v s, parseWalletSessionAuthorizationV2 v = Ok s -> session_wf s) /\
  (forall s, session_wf s ->
     parsePersistedWalletSessionAuthorizationV2 (session_value s) = Ok s /\
     buildWalletSessionAuthorizationV2 s = Ok s /\
     forall fields x, session_value s = JObject fields ->
       parsePersistedWalletSessionAuthorizationV2 (JObject (fields ++ [("laneContext", x)])) = Ok s) /\
  (forall s s', walletSessionAuthorizationV2RecordsEqual s s' = true <-> s = s').
Proof.
  split_and!; [apply parsed_session| |apply sessions_equal_spec].
  intros s Hs. pose proof (session_roundtrip s Hs) as Hr. split_and!.
  - exact Hr.
  - destruct Hs as [_ _ _ _ Hd He [Hne _] Ht Hnd]. apply built_session.
    exact (conj eq_refl (conj Hd (conj He (conj Ht (conj Hnd Hne))))).
  - intros fields x [= <-]. exact Hr.
Qed.

(** A session to try the theorems on. *)
Definition example_digest : string := "AAAAAAAAAAAAAAAAAAAAAAAAAAAAAAAAAAAAAAAAAAA".

Definition example_session : WalletSessionAuthorizationV2 :=
  mkSession "org" "principal" "wallet" "authority" "method" example_digest 0 "mint" "auth" "session" "quota"
    [AdministrationSubject SubjectLinkDevices "authority"] 1000 61000.

Lemma example_session_wf : session_wf example_session.
Proof.
  split; try (vm_compute; done); try (by repeat constructor).
  all: try (unfold example_session, MAX_SAFE_INTEGER; simpl; lia).
  all: by eapply bool_decide_unpack; vm_compute.
Qed.

Lemma wallet_session_roundtrip_witness :
  parseWalletSessionAuthorizationV2 (session_value example_session) = Ok example_session /\
  parsePersistedWalletSessionAuthorizationV2 (session_value example_session) = Ok example_session.
Proof.
  destruct wallet_session_roundtrip as (_ & H & _). destruct (H _ example_session_wf) as (H1 & _ & _).
  split; [vm_compute; reflexivity|exact H1].
Defined.
