(* ===== verification/AuthorizationTables.v ===== *)
(** * The tables of the authorization store

    The D1 tables behind authorized operations, with the constraints and triggers of
    [packages/wallet-server/migrations/d1-signer]: rows as records, tables as lists of
    rows, a statement as a function that fails with a message or gives the next database.
    A store reads and writes the rows of its own namespace; that column is left out.  No
    wallet of the database is being relocated, so the triggers that guard a relocation
    do not fire.  SQLite does not promise an order of the triggers of one event; they run
    here as SQLite does it, the newest first. *)

From S2P Require Import Prelude JsValues Capabilities AuthorizationDomain WalletSessionValues.
Local Open Scope Z_scope.
Local Open Scope js_scope.

(** ** Rows *)

(** [D1WalletStoreScope]. *)
Record WalletScope : Type := mkScope { orgId : string; projectId : string; envId : string }.

#[global] Instance WalletScope_eq_dec : EqDecision WalletScope.
Proof. solve_decision. Defined.

(** The columns by which a hosted session names the session it came from. *)
Record SessionIdentity : Type := mkSessionIdentity {
  si_scope : WalletScope;
  si_tenantId : string;
  si_authorizationId : string;
  si_walletSessionId : string;
  si_quotaId : string;
  si_principalId : string;
  si_walletId : string;
  si_authorityId : string;
  si_walletAuthMethodId : string;
}.

#[global] Instance SessionIdentity_eq_dec : EqDecision SessionIdentity.
Proof. solve_decision. Defined.

(** [wallet_session_authorizations_v2].  The two JSON columns are the values their texts
    stand for. *)
Record SessionRow : Type := mkSessionRow {
  sr_identity : SessionIdentity;
  sr_mintId : string;
  sr_authorityDigest : string;
  sr_revocationEpoch : Z;
  sr_capabilitySubjects : JsVal;
  sr_issuedAtMs : Z;
  sr_expiresAtMs : Z;
  sr_retiredAtMs : option Z;
  sr_record : JsVal;
  sr_credentialHash : option string;
}.

(** [authorization_wallet_session_quotas]. *)
Record QuotaRow : Type := mkQuotaRow {
  qr_tenantId : string;
  qr_quotaId : string;
  qr_walletSessionId : string;
  qr_principalId : string;
  qr_remainingUses : Z;
  qr_lifecycle : QuotaLifecycle;
  qr_expiresAtMs : Z;
}.

(** [wallet_authorities] and [wallet_auth_methods]. *)
Record AuthorityRow : Type := mkAuthorityRow {
  ar_scope : WalletScope;
  ar_authorityId : string;
  ar_walletId : string;
  ar_lifecycleState : string;
  ar_authorityDigest : string;
  ar_revocationEpoch : Z;
}.

Record MethodRow : Type := mkMethodRow {
  mr_scope : WalletScope;
  mr_walletAuthMethodId : string;
  mr_walletId : string;
  mr_authorityId : string;
  mr_status : string;
}.

(** [verified_wallet_operation_evidence_sets]. *)
Record EvidenceRow : Type := mkEvidenceRow {
  ev_scope : WalletScope;
  ev_tenantId : string;
  ev_digest : string;
  ev_principalId : string;
  ev_walletId : string;
  ev_capabilityKind : string;
  ev_operationKind : string;
  ev_laneDigest : string;
  ev_intentDigest : string;
  ev_displayDigest : string;
  ev_assurance : string;
  ev_expiresAtMs : Z;
}.

(** [wallet_execution_generations]. *)
Record GenerationRow : Type := mkGenerationRow {
  gr_scope : WalletScope;
  gr_walletId : string;
  gr_generation : Z;
  gr_origin : string;
  gr_originId : string;
  gr_state : string;
  gr_registrationCompletion : string;
}.

(** [wallet_signing_credit_policies]: a policy has a grant exactly in the mode [credit]. *)
Inductive CreditMode : Type := ModeIncluded | ModeCredit (grantId : string) | ModeBlocked.

Record CreditPolicyRow : Type := mkPolicyRow {
  cp_tenantId : string;
  cp_projectId : string;
  cp_envId : string;
  cp_mode : CreditMode;
}.

Record CreditGrantRow : Type := mkGrantRow {
  cg_tenantId : string;
  cg_grantId : string;
  cg_capacity : Z;
  cg_expiresAtMs : Z;
  cg_admittedCount : Z;
  cg_sealed : bool;
}.

Record CreditClaimRow : Type := mkClaimRow {
  cc_tenantId : string;
  cc_authorizedOperationId : string;
  cc_grantId : string;
}.

(** The columns [material_activation_*] and [owner_scope_*]. *)
Record MaterialColumns : Type := mkMaterialColumns {
  mc_activationId : option string;
  mc_capability : option string;
  mc_owner : option string;
  mc_keyBinding : option string;
  mc_lifecycleBinding : option string;
  mc_signingWorker : option string;
}.

Record ScopeColumns : Type := mkScopeColumns {
  sc_orgId : option string;
  sc_projectId : option string;
  sc_envId : option string;
}.

#[global] Instance MaterialColumns_eq_dec : EqDecision MaterialColumns.
Proof. solve_decision. Defined.
#[global] Instance ScopeColumns_eq_dec : EqDecision ScopeColumns.
Proof. solve_decision. Defined.

(** [authorized_operations]: what a claim writes once, and what a completion writes. *)
Record OperationColumns : Type := mkOperationColumns {
  oc_tenantId : string;
  oc_authorizedOperationId : string;
  oc_auditEventId : string;
  oc_principalId : string;
  oc_capabilityId : string;
  oc_capabilityKind : string;
  oc_operationKind : string;
  oc_operationId : string;
  oc_fingerprintDigest : string;
  oc_laneDigest : string;
  oc_intentDigest : string;
  oc_displayDigest : string;
  oc_sourceKind : string;
  oc_authorizationId : option string;
  oc_evidenceSetDigest : option string;
  oc_quotaId : option string;
  oc_quotaKind : string;
  oc_grantKind : option string;
  oc_claimedAtMs : Z;
  oc_material : MaterialColumns;
  oc_ownerScope : ScopeColumns;
  oc_ownershipGeneration : option Z;
}.

Record OutcomeColumns : Type := mkOutcomeColumns {
  oc_lifecycleKind : string;
  oc_resultKind : string;
  oc_resultDigest : option string;
  oc_resultStatus : option Z;
  oc_resultContentType : option string;
  oc_resultBodyText : option string;
  oc_completedAtMs : option Z;
}.

#[global] Instance OperationColumns_eq_dec : EqDecision OperationColumns.
Proof. solve_decision. Defined.
#[global] Instance OutcomeColumns_eq_dec : EqDecision OutcomeColumns.
Proof. solve_decision. Defined.

Record OperationRow : Type := mkOperationRow { op_columns : OperationColumns; op_outcome : OutcomeColumns }.

#[global] Instance OperationRow_eq_dec : EqDecision OperationRow.
Proof. solve_decision. Defined.

(** [authorized_operation_audit_events]. *)
Record AuditRow : Type := mkAuditRow {
  au_tenantId : string;
  au_auditEventId : string;
  au_authorizedOperationId : string;
  au_fingerprintDigest : string;
  au_sourceKind : string;
  au_authorizationId : option string;
  au_grantKind : option string;
  au_evidenceSetDigest : option string;
  au_quotaId : option string;
  au_material : MaterialColumns;
  au_ownerScope : ScopeColumns;
  au_resultKind : string;
  au_claimedAtMs : Z;
  au_completedAtMs : option Z;
}.

#[global] Instance AuditRow_eq_dec : EqDecision AuditRow.
Proof. solve_decision. Defined.

(** [wallet_signature_completions]. *)
Record CompletionRow : Type := mkCompletionRow {
  cr_tenantId : string;
  cr_authorizedOperationId : string;
  cr_operationKind : string;
  cr_scope : ScopeColumns;
  cr_completedAtMs : option Z;
  cr_walletId : option string;
  cr_creditGrantId : option string;
  cr_outcome : string;
}.

(** [wallet_signers], [linked_device_authority_installations], and the two tables of
    hosted sessions. *)
Record SignerRow : Type := mkSignerRow { sg_scope : WalletScope; sg_walletId : string; sg_family : string; sg_record : JsVal }.

Record InstallationRow : Type := mkInstallationRow {
  in_scope : WalletScope;
  in_walletId : string;
  in_columns : list JsVal;
}.

Record HostedExchangeRow : Type := mkExchangeRow {
  he_parent : SessionIdentity;
  he_exchangeCodeId : string;
  he_codeHash : string;
  he_nonceDigest : string;
  he_appOrigin : string;
  he_walletOrigin : string;
  he_issuedAtMs : Z;
  he_expiresAtMs : Z;
  he_lifecycleKind : string;
  he_hostedCredentialId : option string;
  he_consumedAtMs : option Z;
}.

Record HostedCredentialRow : Type := mkCredentialRow {
  hc_parent : SessionIdentity;
  hc_hostedCredentialId : string;
  hc_credentialDigest : string;
  hc_appOrigin : string;
  hc_walletOrigin : string;
  hc_issuedAtMs : Z;
  hc_expiresAtMs : Z;
  hc_lifecycleKind : string;
  hc_retiredAtMs : option Z;
}.

#[global] Instance HostedExchangeRow_eq_dec : EqDecision HostedExchangeRow.
Proof. solve_decision. Defined.
#[global] Instance HostedCredentialRow_eq_dec : EqDecision HostedCredentialRow.
Proof. solve_decision. Defined.

(** The tables that the operations here only read. *)
Record Surroundings : Type := mkSurroundings {
  authorities : list AuthorityRow;
  authMethods : list MethodRow;
  evidenceSets : list EvidenceRow;
  creditPolicies : list CreditPolicyRow;
  walletSigners : list SignerRow;
  installations : list InstallationRow;
}.

Record AuthDb : Type := mkAuthDb {
  operations : list OperationRow;
  audits : list AuditRow;
  completions : list CompletionRow;
  quotas : list QuotaRow;
  sessions : list SessionRow;
  creditGrants : list CreditGrantRow;
  creditClaims : list CreditClaimRow;
  generations : list GenerationRow;
  exchanges : list HostedExchangeRow;
  credentials : list HostedCredentialRow;
  around : Surroundings;
}.

Definition set_operations l (db : AuthDb) := mkAuthDb l (audits db) (completions db) (quotas db) (sessions db)
  (creditGrants db) (creditClaims db) (generations db) (exchanges db) (credentials db) (around db).
Definition set_audits l (db : AuthDb) := mkAuthDb (operations db) l (completions db) (quotas db) (sessions db)
  (creditGrants db) (creditClaims db) (generations db) (exchanges db) (credentials db) (around db).
Definition set_completions l (db : AuthDb) := mkAuthDb (operations db) (audits db) l (quotas db) (sessions db)
  (creditGrants db) (creditClaims db) (generations db) (exchanges db) (credentials db) (around db).
Definition set_quotas l (db : AuthDb) := mkAuthDb (operations db) (audits db) (completions db) l (sessions db)
  (creditGrants db) (creditClaims db) (generations db) (exchanges db) (credentials db) (around db).
Definition set_sessions l (db : AuthDb) := mkAuthDb (operations db) (audits db) (completions db) (quotas db) l
  (creditGrants db) (creditClaims db) (generations db) (exchanges db) (credentials db) (around db).
Definition set_credits grants claims (db : AuthDb) := mkAuthDb (operations db) (audits db) (completions db) (quotas db)
  (sessions db) grants claims (generations db) (exchanges db) (credentials db) (around db).
Definition set_generations l (db : AuthDb) := mkAuthDb (operations db) (audits db) (completions db) (quotas db)
  (sessions db) (creditGrants db) (creditClaims db) l (exchanges db) (credentials db) (around db).
Definition set_hosted exchanges credentials (db : AuthDb) := mkAuthDb (operations db) (audits db) (completions db)
  (quotas db) (sessions db) (creditGrants db) (creditClaims db) (generations db) exchanges credentials (around db).

(** ** Conditions that several statements share *)

(** [column = text]: [NULL] is equal to nothing. *)
Definition sql_eq (column : option string) (text : string) : bool := bool_decide (column = Some text).

(** [owner_scope_org_id = ... AND owner_scope_project_id = ... AND owner_scope_env_id = ...]. *)
Definition scope_is (c : ScopeColumns) (s : WalletScope) : bool :=
  sql_eq (sc_orgId c) (orgId s) && sql_eq (sc_projectId c) (projectId s) && sql_eq (sc_envId c) (envId s).

Definition same (a b : string) : bool := bool_decide (a = b).

(** [wallet_operation_authorizations]: what operations are authorized by. *)
Record Owner : Type := mkOwner {
  ow_scope : WalletScope;
  ow_walletId : string;
  ow_tenantId : string;
  ow_sourceKind : string;
  ow_sourceId : string;
}.

Definition owners (db : AuthDb) : list Owner :=
  map (fun s => let i := sr_identity s in
         mkOwner (si_scope i) (si_walletId i) (si_tenantId i) "authorization_grant" (si_authorizationId i)) (sessions db) ++
  map (fun e => mkOwner (ev_scope e) (ev_walletId e) (ev_tenantId e) "verified_step_up" (ev_digest e))
    (evidenceSets (around db)).

(** [CASE authorization_source_kind WHEN 'authorization_grant' THEN authorization_id ELSE evidence_set_digest END]. *)
Definition source_id (c : OperationColumns) : option string :=
  if same (oc_sourceKind c) "authorization_grant" then oc_authorizationId c else oc_evidenceSetDigest c.

Definition owner_of (c : OperationColumns) (o : Owner) : bool :=
  same (ow_tenantId o) (oc_tenantId c) && same (ow_sourceKind o) (oc_sourceKind c) &&
  sql_eq (source_id c) (ow_sourceId o) &&
  (same (oc_sourceKind c) "verified_step_up" ||
   sql_eq (oc_grantKind c) "wallet_session_authorization" && scope_is (oc_ownerScope c) (ow_scope o)).

(** The authority and the method of a session as the session knows them. *)
Definition authority_current (db : AuthDb) (s : SessionRow) : bool :=
  let i := sr_identity s in
  existsb (fun a => bool_decide (ar_scope a = si_scope i) && same (ar_authorityId a) (si_authorityId i) &&
    same (ar_walletId a) (si_walletId i) && same (ar_lifecycleState a) "active" &&
    same (ar_authorityDigest a) (sr_authorityDigest s) && (ar_revocationEpoch a =? sr_revocationEpoch s))
    (authorities (around db)).

Definition method_active (db : AuthDb) (i : SessionIdentity) : bool :=
  existsb (fun m => bool_decide (mr_scope m = si_scope i) && same (mr_walletAuthMethodId m) (si_walletAuthMethodId i) &&
    same (mr_walletId m) (si_walletId i) && same (mr_authorityId m) (si_authorityId i) && same (mr_status m) "active")
    (authMethods (around db)).

(** The session that the columns of an operation name. *)
Definition session_of (c : OperationColumns) (s : SessionRow) : bool :=
  let i := sr_identity s in
  scope_is (oc_ownerScope c) (si_scope i) && same (si_tenantId i) (oc_tenantId c) &&
  sql_eq (oc_authorizationId c) (si_authorizationId i) && same (si_principalId i) (oc_principalId c) &&
  (same (oc_quotaKind c) "quota_neutral" || sql_eq (oc_quotaId c) (si_quotaId i)).

(** The step-up evidence for exactly the operation of these columns. *)
Definition evidence_of (c : OperationColumns) (e : EvidenceRow) : bool :=
  same (ev_tenantId e) (oc_tenantId c) && sql_eq (oc_evidenceSetDigest c) (ev_digest e) &&
  same (ev_principalId e) (oc_principalId c) && same (ev_capabilityKind e) (oc_capabilityKind c) &&
  same (ev_operationKind e) (oc_operationKind c) && same (ev_laneDigest e) (oc_laneDigest c) &&
  same (ev_intentDigest e) (oc_intentDigest c) && same (ev_displayDigest e) (oc_displayDigest c) &&
  same (ev_assurance e) "step_up".

(** ** Triggers before an insert *)

Definition BeforeTrigger : Type := AuthDb -> OperationColumns -> option string.

(** [authorized_operation_grant_shape_guard]. *)
Definition authorized_operation_grant_shape_guard : BeforeTrigger := fun _ c =>
  let present (o : option string) := match o with Some s => nonempty s | None => false end in
  let scope := oc_ownerScope c in
  let ok :=
    if same (oc_sourceKind c) "authorization_grant" then
      sql_eq (oc_grantKind c) "wallet_session_authorization" &&
      present (sc_orgId scope) && present (sc_projectId scope) && present (sc_envId scope)
    else if same (oc_sourceKind c) "verified_step_up" then
      bool_decide (oc_grantKind c = None) && bool_decide (sc_orgId scope = None) &&
      bool_decide (sc_projectId scope = None) && bool_decide (sc_envId scope = None)
    else false in
  if ok then None else Some "authorization_grant_kind_rejected".

(** [wallet_operations_owner_required]. *)
Definition wallet_operations_owner_required : BeforeTrigger := fun db c =>
  if existsb (owner_of c) (owners db) then None else Some "wallet_operation_owner_missing".

Definition source_rejected (c : OperationColumns) : string :=
  if same (oc_sourceKind c) "verified_step_up" then "authorization_evidence_claim_rejected"
  else "authorization_wallet_session_rejected".

(** [wallet_operation_execution_generation_required]. *)
Definition wallet_operation_execution_generation_required : BeforeTrigger := fun db c =>
  if existsb (fun o => owner_of c o &&
       existsb (fun g => bool_decide (gr_scope g = ow_scope o) && same (gr_walletId g) (ow_walletId o) &&
         same (gr_state g) "active" && bool_decide (oc_ownershipGeneration c = Some (gr_generation g))) (generations db))
     (owners db)
  then None else Some (source_rejected c).

(** The operation kinds that are signatures. *)
Definition is_signature (operationKind : string) : bool :=
  bool_decide (operationKind ∈ ["near.sign_transaction"; "near.sign_delegate_action"; "near.sign_nep413_message";
    "evm.sign_transaction"]).

(** [COALESCE(NEW.owner_scope_..., (SELECT ... FROM verified_wallet_operation_evidence_sets ...))]. *)
Definition credit_scope (f : WalletScope -> string) (column : ScopeColumns -> option string) (db : AuthDb)
    (c : OperationColumns) : option string :=
  match column (oc_ownerScope c) with
  | Some s => Some s
  | None =>
      (fun e => f (ev_scope e)) <$>
      List.find (fun e => same (ev_tenantId e) (oc_tenantId c) && sql_eq (oc_evidenceSetDigest c) (ev_digest e))
        (evidenceSets (around db))
  end.

(** The policy of the operation's project and environment; the key allows one. *)
Definition policy_of (db : AuthDb) (c : OperationColumns) : option CreditPolicyRow :=
  List.find (fun p => same (cp_tenantId p) (oc_tenantId c) &&
    sql_eq (credit_scope projectId sc_projectId db c) (cp_projectId p) &&
    sql_eq (credit_scope envId sc_envId db c) (cp_envId p)) (creditPolicies (around db)).

Definition grant_is (tenantId grantId : string) (g : CreditGrantRow) : bool :=
  same (cg_tenantId g) tenantId && same (cg_grantId g) grantId.

(** [wallet_signing_credit_admission]. *)
Definition wallet_signing_credit_admission : BeforeTrigger := fun db c =>
  if negb (is_signature (oc_operationKind c)) then None
  else
    match cp_mode <$> policy_of db c with
    | None | Some ModeIncluded => None
    | Some ModeBlocked => Some "billing_credit_exhausted"
    | Some (ModeCredit grantId) =>
        if existsb (fun g => grant_is (oc_tenantId c) grantId g && negb (cg_sealed g) &&
             (oc_claimedAtMs c <? cg_expiresAtMs g) && (cg_admittedCount g <? cg_capacity g)) (creditGrants db)
        then None else Some "billing_credit_exhausted"
    end.

Definition before_insert_triggers : list BeforeTrigger :=
  [wallet_signing_credit_admission; wallet_operation_execution_generation_required; wallet_operations_owner_required;
   authorized_operation_grant_shape_guard].

Fixpoint run_before (triggers : list BeforeTrigger) (db : AuthDb) (c : OperationColumns) : option string :=
  match triggers with
  | [] => None
  | t :: triggers => match t db c with Some message => Some message | None => run_before triggers db c end
  end.

(** ** Constraints of the table *)

Definition columns_check (c : OperationColumns) : bool :=
  let export := bool_decide (oc_operationKind c ∈ ["near.export_key"; "evm.export_key"]) in
  let vault := same (oc_capabilityKind c) "vault_access" in
  let grant := same (oc_sourceKind c) "authorization_grant" in
  let stepUp := same (oc_sourceKind c) "verified_step_up" in
  let consumes := same (oc_quotaKind c) "consume_reusable_wallet_session" in
  let neutral := same (oc_quotaKind c) "quota_neutral" in
  (grant && bool_decide (is_Some (oc_authorizationId c)) && bool_decide (oc_evidenceSetDigest c = None) ||
   stepUp && bool_decide (oc_authorizationId c = None) && bool_decide (is_Some (oc_evidenceSetDigest c))) &&
  (consumes && grant && negb export && negb vault || neutral && (export || vault || stepUp)) &&
  (consumes && bool_decide (is_Some (oc_quotaId c)) || neutral && bool_decide (oc_quotaId c = None)).

(** [trim(text) = text] of SQL: no space at the ends.  No statement writes a completed row
    with a [NULL] in the columns of its answer. *)
Definition sql_trimmed (text : string) : bool := bool_decide (text = EmptyString) || negb (starts_with " " text) &&
  negb (bool_decide (String.get (String.length text - 1) text = Some " "%char)).

Definition outcome_check (o : OutcomeColumns) : bool :=
  same (oc_lifecycleKind o) "claimed" && same (oc_resultKind o) "pending" && bool_decide (oc_resultDigest o = None) &&
    bool_decide (oc_resultStatus o = None) && bool_decide (oc_resultContentType o = None) &&
    bool_decide (oc_resultBodyText o = None) && bool_decide (oc_completedAtMs o = None) ||
  same (oc_lifecycleKind o) "completed" &&
    bool_decide (oc_resultKind o ∈ ["succeeded"; "failed_before_side_effect"; "failed_after_side_effect"]) &&
    bool_decide (is_Some (oc_resultDigest o)) && bool_decide (is_Some (oc_completedAtMs o)) &&
    match oc_resultStatus o with Some z => (100 <=? z) && (z <=? 599) | None => false end &&
    match oc_resultContentType o with
    | Some t => sql_trimmed t && (0 <? String.length t)%nat && (String.length t <=? 255)%nat
    | None => false
    end &&
    match oc_resultBodyText o with Some t => utf8_length t <=? 65536 | None => false end.

Definition check_failed : string := "CHECK constraint failed: authorized_operations".
Definition unique_failed (columns : string) : string := "UNIQUE constraint failed: " +:+ columns.

Definition same_id (c : OperationColumns) (r : OperationRow) : bool :=
  same (oc_tenantId (op_columns r)) (oc_tenantId c) &&
  same (oc_authorizedOperationId (op_columns r)) (oc_authorizedOperationId c).

(** [WHERE namespace = ? AND tenant_id = ? AND operation_fingerprint_digest = ?]. *)
Definition with_fingerprint (tenantId fingerprint : string) (r : OperationRow) : bool :=
  same (oc_tenantId (op_columns r)) tenantId && same (oc_fingerprintDigest (op_columns r)) fingerprint.

Definition constraints (db : AuthDb) (r : OperationRow) : option string :=
  let c := op_columns r in
  if negb (columns_check c && outcome_check (op_outcome r)) then Some check_failed
  else if existsb (same_id c) (operations db) then Some (unique_failed "authorized_operations.authorized_operation_id")
  else if existsb (with_fingerprint (oc_tenantId c) (oc_fingerprintDigest c)) (operations db)
  then Some (unique_failed "authorized_operations.operation_fingerprint_digest")
  else None.

(** ** Triggers after an insert *)

Definition AfterTrigger : Type := AuthDb -> OperationRow -> string + AuthDb.

Definition audit_of (r : OperationRow) : AuditRow :=
  let c := op_columns r in
  mkAuditRow (oc_tenantId c) (oc_auditEventId c) (oc_authorizedOperationId c) (oc_fingerprintDigest c) (oc_sourceKind c)
    (oc_authorizationId c) (oc_grantKind c) (oc_evidenceSetDigest c) (oc_quotaId c) (oc_material c) (oc_ownerScope c)
    (oc_resultKind (op_outcome r)) (oc_claimedAtMs c) (oc_completedAtMs (op_outcome r)).

Definition audit_key (a : AuditRow) : string * string := (au_tenantId a, au_auditEventId a).
Definition audit_operation (a : AuditRow) : string * string := (au_tenantId a, au_authorizedOperationId a).

(** [authorized_operation_audit_claim], with [wallet_operation_audit_parent] and the keys of
    the audit table. *)
Definition authorized_operation_audit_claim : AfterTrigger := fun db r =>
  let event := audit_of r in
  if negb (existsb (fun o => bool_decide (audit_of o = event)) (operations db))
  then inl "wallet_operation_audit_parent_conflicts"
  else if bool_decide (audit_key event ∈ map audit_key (audits db)) then
    inl (unique_failed "authorized_operation_audit_events.audit_event_id")
  else if bool_decide (audit_operation event ∈ map audit_operation (audits db)) then
    inl (unique_failed "authorized_operation_audit_events.authorized_operation_id")
  else inr (set_audits (audits db ++ [event]) db).

(** The session is open, its credential was issued, and the quota, the authority and the
    method it names are as it names them. *)
Definition session_claimable (db : AuthDb) (c : OperationColumns) (s : SessionRow) : bool :=
  let i := sr_identity s in
  session_of c s && bool_decide (is_Some (sr_credentialHash s)) && bool_decide (sr_retiredAtMs s = None) &&
  (oc_claimedAtMs c <? sr_expiresAtMs s) &&
  existsb (fun q => same (qr_tenantId q) (si_tenantId i) && same (qr_quotaId q) (si_quotaId i) &&
    same (qr_walletSessionId q) (si_walletSessionId i) && same (qr_principalId q) (si_principalId i)) (quotas db) &&
  authority_current db s && method_active db i.

(** The quota that an operation uses one of. *)
Definition quota_usable (db : AuthDb) (c : OperationColumns) (q : QuotaRow) : bool :=
  same (oc_quotaKind c) "consume_reusable_wallet_session" && same (qr_tenantId q) (oc_tenantId c) &&
  sql_eq (oc_quotaId c) (qr_quotaId q) && same (qr_principalId q) (oc_principalId c) &&
  bool_decide (qr_lifecycle q = QuotaActive) && (0 <? qr_remainingUses q) && (oc_claimedAtMs c <? qr_expiresAtMs q) &&
  match List.find (fun s => session_claimable db c s && sql_eq (oc_quotaId c) (si_quotaId (sr_identity s))) (sessions db) with
  | Some s => same (qr_walletSessionId q) (si_walletSessionId (sr_identity s))
  | None => false
  end.

(** [SET remaining_uses = remaining_uses - 1, lifecycle_kind = CASE ... END]. *)
Definition use_quota (q : QuotaRow) : QuotaRow :=
  mkQuotaRow (qr_tenantId q) (qr_quotaId q) (qr_walletSessionId q) (qr_principalId q) (qr_remainingUses q - 1)
    (if qr_remainingUses q =? 1 then QuotaExhausted else QuotaActive) (qr_expiresAtMs q).

(** [UPDATE ... SET f WHERE p] and [changes()]. *)
Definition update_where {A} (p : A -> bool) (f : A -> A) (l : list A) : list A := map (fun x => if p x then f x else x) l.
Definition changes {A} (p : A -> bool) (l : list A) : Z := Z.of_nat (length (List.filter p l)).

(** [authorized_operation_owner_grant_claim_atomic]. *)
Definition authorized_operation_owner_grant_claim_atomic : AfterTrigger := fun db r =>
  let c := op_columns r in
  if negb (same (oc_sourceKind c) "authorization_grant" && sql_eq (oc_grantKind c) "wallet_session_authorization")
  then inr db
  else if negb (existsb (session_claimable db c) (sessions db)) then inl "authorization_wallet_session_rejected"
  else if same (oc_quotaKind c) "consume_reusable_wallet_session" && negb (changes (quota_usable db c) (quotas db) =? 1)
  then inl "authorization_wallet_session_quota_rejected"
  else inr (set_quotas (update_where (quota_usable db c) use_quota (quotas db)) db).

(** [authorized_operation_step_up_claim_atomic]; [dbNow] is the clock of the database. *)
Definition authorized_operation_step_up_claim_atomic (dbNow : Z) : AfterTrigger := fun db r =>
  let c := op_columns r in
  if negb (same (oc_sourceKind c) "verified_step_up") then inr db
  else if existsb (fun e => evidence_of c e && (oc_claimedAtMs c <? ev_expiresAtMs e) && (dbNow <? ev_expiresAtMs e))
    (evidenceSets (around db))
  then inr db else inl "authorization_evidence_claim_rejected".

Definition admit_one (g : CreditGrantRow) : CreditGrantRow :=
  mkGrantRow (cg_tenantId g) (cg_grantId g) (cg_capacity g) (cg_expiresAtMs g) (cg_admittedCount g + 1) (cg_sealed g).

(** [CHECK(admitted_count>=0 AND admitted_count<=capacity)]. *)
Definition grant_check (g : CreditGrantRow) : bool := (0 <=? cg_admittedCount g) && (cg_admittedCount g <=? cg_capacity g).

(** [wallet_signing_credit_claim]. *)
Definition wallet_signing_credit_claim : AfterTrigger := fun db r =>
  let c := op_columns r in
  let claim_is (cl : CreditClaimRow) :=
    same (cc_tenantId cl) (oc_tenantId c) && same (cc_authorizedOperationId cl) (oc_authorizedOperationId c) in
  if negb (is_signature (oc_operationKind c)) then inr db
  else
    match cp_mode <$> policy_of db c with
    | Some (ModeCredit grantId) =>
        if existsb claim_is (creditClaims db)
        then inl (unique_failed "wallet_signing_credit_claims.authorized_operation_id")
        else
          let grants := update_where (grant_is (oc_tenantId c) grantId) admit_one (creditGrants db) in
          if negb (forallb grant_check (List.filter (grant_is (oc_tenantId c) grantId) grants))
          then inl "CHECK constraint failed: wallet_signing_credit_grants"
          else inr (set_credits grants
            (creditClaims db ++ [mkClaimRow (oc_tenantId c) (oc_authorizedOperationId c) grantId]) db)
    | _ =>
        match List.find claim_is (creditClaims db) with
        | None => inr db
        | Some cl =>
            let grants := update_where (grant_is (oc_tenantId c) (cc_grantId cl)) admit_one (creditGrants db) in
            if negb (forallb grant_check (List.filter (grant_is (oc_tenantId c) (cc_grantId cl)) grants))
            then inl "CHECK constraint failed: wallet_signing_credit_grants"
            else inr (set_credits grants (creditClaims db) db)
        end
    end.

Definition after_insert_triggers (dbNow : Z) : list AfterTrigger :=
  [wallet_signing_credit_claim; authorized_operation_owner_grant_claim_atomic;
   authorized_operation_step_up_claim_atomic dbNow; authorized_operation_audit_claim].

Fixpoint run_after (triggers : list AfterTrigger) (db : AuthDb) (r : OperationRow) : string + AuthDb :=
  match triggers with
  | [] => inr db
  | t :: triggers => match t db r with inl message => inl message | inr db => run_after triggers db r end
  end.

(** ** The two writes *)

Definition claimed_outcome : OutcomeColumns := mkOutcomeColumns "claimed" "pending" None None None None None.

(** [INSERT INTO authorized_operations] of a claimed row. *)
Definition insert_operation (dbNow : Z) (c : OperationColumns) (db : AuthDb) : string + AuthDb :=
  let r := mkOperationRow c claimed_outcome in
  match run_before before_insert_triggers db c with
  | Some message => inl message
  | None =>
      match constraints db r with
      | Some message => inl message
      | None => run_after (after_insert_triggers dbNow) (set_operations (operations db ++ [r]) db) r
      end
  end.

(** [authorized_operation_audit_complete], with [wallet_operation_audit_terminal_immutable]. *)
Definition authorized_operation_audit_complete (db : AuthDb) (r : OperationRow) : string + AuthDb :=
  let c := op_columns r in
  let is_event a := bool_decide (audit_operation a = (oc_tenantId c, oc_authorizedOperationId c)) in
  let complete a :=
    mkAuditRow (au_tenantId a) (au_auditEventId a) (au_authorizedOperationId a) (au_fingerprintDigest a) (au_sourceKind a)
      (au_authorizationId a) (au_grantKind a) (au_evidenceSetDigest a) (au_quotaId a) (au_material a) (au_ownerScope a)
      (oc_resultKind (op_outcome r)) (au_claimedAtMs a) (oc_completedAtMs (op_outcome r)) in
  if existsb (fun a => is_event a && negb (same (au_resultKind a) "pending")) (audits db)
  then inl "wallet_operation_terminal_immutable"
  else if negb (changes is_event (audits db) =? 1) then inl "authorized_operation_audit_completion_rejected"
  else inr (set_audits (update_where is_event complete (audits db)) db).

(** [wallet_signature_completion_record]: [ON CONFLICT DO NOTHING]. *)
Definition wallet_signature_completion_record (db : AuthDb) (r : OperationRow) : AuthDb :=
  let c := op_columns r in
  let claim := List.find (fun cl => same (cc_tenantId cl) (oc_tenantId c) &&
    same (cc_authorizedOperationId cl) (oc_authorizedOperationId c)) (creditClaims db) in
  let counted := is_signature (oc_operationKind c) &&
    (same (oc_resultKind (op_outcome r)) "succeeded" ||
     same (oc_resultKind (op_outcome r)) "failed_before_side_effect" && bool_decide (is_Some claim)) in
  let recorded := existsb (fun k => same (cr_tenantId k) (oc_tenantId c) &&
    same (cr_authorizedOperationId k) (oc_authorizedOperationId c)) (completions db) in
  if counted && negb recorded then
    let source := match oc_authorizationId c with Some s => Some s | None => oc_evidenceSetDigest c end in
    let owner := List.find (fun o => same (ow_tenantId o) (oc_tenantId c) && same (ow_sourceKind o) (oc_sourceKind c) &&
      sql_eq source (ow_sourceId o)) (owners db) in
    set_completions (completions db ++
      [mkCompletionRow (oc_tenantId c) (oc_authorizedOperationId c) (oc_operationKind c) (oc_ownerScope c)
        (oc_completedAtMs (op_outcome r)) (ow_walletId <$> owner) (cc_grantId <$> claim)
        (if same (oc_resultKind (op_outcome r)) "succeeded" then "succeeded" else "failed")]) db
  else db.

(** The row that [prepareWalletOperationCompletion] updates. *)
Definition completable (tenantId authorizedOperationId fingerprint : string) (r : OperationRow) : bool :=
  same (oc_tenantId (op_columns r)) tenantId &&
  same (oc_authorizedOperationId (op_columns r)) authorizedOperationId &&
  same (oc_fingerprintDigest (op_columns r)) fingerprint && same (oc_lifecycleKind (op_outcome r)) "claimed".

(** [UPDATE authorized_operations SET outcome WHERE ... RETURNING *]: the updated row.  The
    triggers before the update let a claimed row become completed and compare the columns
    that this update leaves alone. *)
Definition complete_operation (tenantId authorizedOperationId fingerprint : string) (outcome : OutcomeColumns)
    (db : AuthDb) : string + AuthDb * option OperationRow :=
  let p := completable tenantId authorizedOperationId fingerprint in
  let f r := mkOperationRow (op_columns r) outcome in
  match List.find p (operations db) with
  | None => inr (db, None)
  | Some r =>
      if negb (outcome_check outcome) then inl check_failed
      else
        let db := set_operations (update_where p f (operations db)) db in
        match authorized_operation_audit_complete (wallet_signature_completion_record db (f r)) (f r) with
        | inl message => inl message
        | inr db => inr (db, Some (f r))
        end
  end.
