(* ===== verification/AuthorizedOperations.v ===== *)
(** * The admission of operations

    [authorizedOperationStatements.ts], [walletOperationPersistence.ts] and
    [authorizationStore/operations.ts] of
    [packages/wallet-server/src/router/cloudflare/d1/authorization]: an operation is
    claimed once, by its fingerprint, and completed once; every later admission of the
    same fingerprint is answered from the stored row. *)

From S2P Require Import Prelude JsValues BitPacking Base64 VersionedRecords Capabilities AuthorizationDomain WalletSessionValues AuthorizationTables.
Local Open Scope Z_scope.
Local Open Scope js_scope.

(** ** Material *)

(** [RouterAbMpcMaterialActivationRefWire]. *)
Record ActivationRefWire : Type := mkActivationWire {
  aw_kind : string;
  aw_activation_id : string;
  aw_capability : string;
  aw_material_owner : string;
  aw_key_binding : string;
  aw_lifecycle_binding : string;
  aw_signing_worker : string;
}.

Record AuthorizedOperationMaterialScope : Type := mkMaterialScope {
  ms_walletId : string;
  ms_keyHandle : string;
  ms_runtimeOrgId : string;  (** [runtimePolicyScope.orgId] *)
  ms_activation : ActivationRefWire;
  ms_isEcdsa : bool;  (** [kind === 'ecdsa_material_activation'] *)
}.

(** The conditions of [packages/wallet-server/src/core/ecdsaMaterialReadSnapshot.ts]: the
    records that a resolver examined, with the table and filter it found them by. *)
Inductive SnapshotCondition : Type :=
| EcdsaSignersOfActivation (activationId : string) (rows : list JsVal)
| EcdsaSigners (rows : list JsVal)
| LinkedInstallations (rows : list (list JsVal)).

Record EcdsaMaterialReadSnapshot : Type := mkSnapshot {
  snap_walletId : string;
  snap_scope : WalletScope;
  snap_conditions : list SnapshotCondition;
}.

(** [json_extract(value, '$.path')]. *)
Fixpoint json_extract (path : list string) (value : JsVal) : JsVal :=
  match path with [] => value | key :: path => json_extract path (jget key value) end.

Definition material_activation_path (field : string) : list string :=
  ["walletKey"; "publicCapability"; "material_activation"; field].

Definition extracts (path : list string) (s : SignerRow) (text : string) : bool :=
  strict_eq (json_extract path (sg_record s)) (JString text).

#[global] Instance NumVal_eq_dec : EqDecision NumVal.
Proof. solve_decision. Defined.

(** Equality of two values as [json_array] texts. *)
Fixpoint json_eqb (a b : JsVal) : bool :=
  match a, b with
  | JUndefined, JUndefined | JNull, JNull => true
  | JBool x, JBool y => Bool.eqb x y
  | JNumber x, JNumber y => bool_decide (x = y)
  | JBigInt x, JBigInt y => x =? y
  | JString x, JString y => bool_decide (x = y)
  | JArray l, JArray k =>
      (fix go (l k : list JsVal) : bool :=
         match l, k with
         | [], [] => true
         | x :: l, y :: k => json_eqb x y && go l k
         | _, _ => false
         end) l k
  | JObject l, JObject k =>
      (fix go (l k : list (string * JsVal)) : bool :=
         match l, k with
         | [], [] => true
         | (n, x) :: l, (m, y) :: k => bool_decide (n = m) && json_eqb x y && go l k
         | _, _ => false
         end) l k
  | _, _ => false
  end.

(** [recordSetCondition]: as many rows as were read, and none that was not. *)
Definition recordSetCondition {A} (eqb : A -> A -> bool) (found rows : list A) : bool :=
  (length found =? length rows)%nat && forallb (fun v => existsb (eqb v) rows) found.

Definition tuple_eqb (l k : list JsVal) : bool := json_eqb (JArray l) (JArray k).

Definition condition_holds (db : AuthDb) (scope : WalletScope) (walletId : string) (c : SnapshotCondition) : bool :=
  let signers (p : SignerRow -> bool) :=
    map sg_record (List.filter (fun s => bool_decide (sg_scope s = scope) && same (sg_walletId s) walletId &&
      same (sg_family s) "ecdsa" && p s) (walletSigners (around db))) in
  match c with
  | EcdsaSignersOfActivation activationId rows =>
      recordSetCondition json_eqb
        (signers (fun s => extracts (material_activation_path "activation_id") s activationId)) rows
  | EcdsaSigners rows => recordSetCondition json_eqb (signers (fun _ => true)) rows
  | LinkedInstallations rows =>
      recordSetCondition tuple_eqb
        (map in_columns (List.filter (fun i => bool_decide (in_scope i = scope) && same (in_walletId i) walletId)
          (installations (around db)))) rows
  end.

(** [snapshot.condition(scope)]. *)
Definition snapshot_condition (snapshot : EcdsaMaterialReadSnapshot) (scope : WalletScope) (db : AuthDb) : bool :=
  bool_decide (scope = snap_scope snapshot) &&
  forallb (condition_holds db (snap_scope snapshot) (snap_walletId snapshot)) (snap_conditions snapshot).

(** [ECDSA_SIGNER_MATCH] with [ecdsaSignerMatchBindings]. *)
Definition ECDSA_SIGNER_MATCH (scope : WalletScope) (m : AuthorizedOperationMaterialScope) (db : AuthDb) : bool :=
  let a := ms_activation m in
  existsb (fun s => bool_decide (sg_scope s = scope) && same (sg_walletId s) (ms_walletId m) &&
    same (sg_family s) "ecdsa" && extracts (material_activation_path "material_owner") s (sg_walletId s) &&
    extracts ["walletKey"; "keyHandle"] s (ms_keyHandle m) &&
    extracts (material_activation_path "kind") s (aw_kind a) &&
    extracts (material_activation_path "activation_id") s (aw_activation_id a) &&
    extracts (material_activation_path "capability") s (aw_capability a) &&
    extracts (material_activation_path "material_owner") s (aw_material_owner a) &&
    extracts (material_activation_path "key_binding") s (aw_key_binding a) &&
    extracts (material_activation_path "lifecycle_binding") s (aw_lifecycle_binding a) &&
    extracts (material_activation_path "signing_worker") s (aw_signing_worker a)) (walletSigners (around db)).

Definition material_columns (m : option AuthorizedOperationMaterialScope) : MaterialColumns :=
  let a f := f <$> (ms_activation <$> m) in
  mkMaterialColumns (a aw_activation_id) (a aw_capability) (a aw_material_owner) (a aw_key_binding)
    (a aw_lifecycle_binding) (a aw_signing_worker).

Definition authorizedOperationMaterialScopeMatches (operation : AuthorizedOperation)
    (material : option AuthorizedOperationMaterialScope) (snapshot : option EcdsaMaterialReadSnapshot) : bool :=
  let requiresMaterial := bool_decide (capabilityKind (e_operation (ao_operation operation)) = evmEcdsaMpcSigning) in
  negb (match snapshot with
        | Some s => negb (bool_decide (Some (snap_walletId s) = ms_walletId <$> material))
        | None => false
        end) &&
  match material with
  | None => negb requiresMaterial
  | Some m =>
      requiresMaterial && same (ms_runtimeOrgId m) (ao_tenantId operation) &&
      same (aw_capability (ms_activation m)) (e_capabilityId (ao_operation operation)) &&
      same (aw_material_owner (ms_activation m)) (ms_walletId m)
  end.

(** ** Statements *)

Definition source_kind (s : OperationAuthorizationSource) : string :=
  match s with AuthorizationGrant _ => "authorization_grant" | VerifiedStepUp _ => "verified_step_up" end.
Definition source_authorization (s : OperationAuthorizationSource) : option string :=
  match s with AuthorizationGrant a => Some a | VerifiedStepUp _ => None end.
Definition source_evidence (s : OperationAuthorizationSource) : option string :=
  match s with AuthorizationGrant _ => None | VerifiedStepUp d => Some d end.
Definition source_of (s : OperationAuthorizationSource) : string :=
  match s with AuthorizationGrant a => a | VerifiedStepUp d => d end.
Definition quota_kind (q : OperationQuota) : string :=
  match q with ConsumeReusableWalletSession _ => "consume_reusable_wallet_session" | QuotaNeutral => "quota_neutral" end.
Definition quota_id (q : OperationQuota) : option string :=
  match q with ConsumeReusableWalletSession q => Some q | QuotaNeutral => None end.

(** The values the insert binds. *)
Definition operation_columns (scope : WalletScope) (operation : AuthorizedOperation)
    (material : option AuthorizedOperationMaterialScope) (generation : option Z) : OperationColumns :=
  let e := ao_operation operation in
  let source := authorization operation in
  let granted {A} (a : A) : option A := match source with AuthorizationGrant _ => Some a | VerifiedStepUp _ => None end in
  mkOperationColumns (ao_tenantId operation) (authorizedOperationId operation) (auditEventId operation)
    (e_principalId e) (e_capabilityId e) (CAPABILITY_KINDS (capabilityKind (e_operation e)))
    (operationKind (e_operation e)) (e_operationId e) (operationFingerprintDigest operation)
    (laneDigest e) (intentDigest e) (displayDigest e)
    (source_kind source) (source_authorization source) (source_evidence source)
    (quota_id (quota operation)) (quota_kind (quota operation)) (granted "wallet_session_authorization")
    (claimedAtMs operation) (material_columns material)
    (mkScopeColumns (granted (orgId scope)) (granted (projectId scope)) (granted (envId scope))) generation.

(** The sub-select of [ownership_generation]. *)
Definition active_generation (scope : WalletScope) (operation : AuthorizedOperation) (db : AuthDb) : option Z :=
  let source := authorization operation in
  let own o := same (ow_tenantId o) (ao_tenantId operation) && same (ow_sourceKind o) (source_kind source) &&
    same (ow_sourceId o) (source_of source) && bool_decide (ow_scope o = scope) in
  head (gr_generation <$> (o ← List.filter own (owners db);
    List.filter (fun g => bool_decide (gr_scope g = ow_scope o) && same (gr_walletId g) (ow_walletId o) &&
      same (gr_state g) "active") (generations db))).

Inductive ExistingOperation : Type := RejectExisting | PreserveExisting.

Definition insert_condition (scope : WalletScope) (operation : AuthorizedOperation)
    (material : option AuthorizedOperationMaterialScope) (snapshot : option EcdsaMaterialReadSnapshot) (db : AuthDb) : bool :=
  match snapshot with
  | Some s => snapshot_condition s scope db
  | None => match material with Some m => if ms_isEcdsa m then ECDSA_SIGNER_MATCH scope m db else true | None => true end
  end &&
  match authorization operation with
  | AuthorizationGrant _ => true
  | VerifiedStepUp digest =>
      existsb (fun e => same (ev_tenantId e) (ao_tenantId operation) && same (ev_digest e) digest &&
        bool_decide (ev_scope e = scope)) (evidenceSets (around db))
  end.

(** A statement: it fails, or gives the database after it and the rows it changed. *)
Definition AuthStatement : Type := AuthDb -> string + AuthDb * Z.

Definition prepareAuthorizedOperationInsert (dbNow : Z) (scope : WalletScope) (operation : AuthorizedOperation)
    (material : option AuthorizedOperationMaterialScope) (snapshot : option EcdsaMaterialReadSnapshot)
    (existing : ExistingOperation) : Result AuthStatement :=
  if negb (is_safe_integer (claimedAtMs operation)) then Throw (JsError "operation.claimedAtMs must be a safe integer")
  else if claimedAtMs operation <=? 0 then Throw (JsError "operation.claimedAtMs must be positive")
  else Ok (fun db =>
    let absent :=
      match existing with
      | PreserveExisting =>
          negb (existsb (with_fingerprint (ao_tenantId operation) (operationFingerprintDigest operation)) (operations db))
      | RejectExisting => true
      end in
    if insert_condition scope operation material snapshot db && absent then
      match insert_operation dbNow (operation_columns scope operation material (active_generation scope operation db)) db with
      | inl message => inl message
      | inr db => inr (db, 1)
      end
    else inr (db, 0)).

(** A row as an admission reads it. *)
Record AdmissionRow : Type := mkAdmissionRow {
  ad_row : OperationRow;
  ad_stepUpScope : option WalletScope;
  ad_pinnedOwnerWalletId : option string;
  ad_materialActive : bool;
  ad_sourceActive : bool;
}.

Definition evidence_joined (db : AuthDb) (c : OperationColumns) : option EvidenceRow :=
  List.find (fun e => same (ev_tenantId e) (oc_tenantId c) && sql_eq (oc_evidenceSetDigest c) (ev_digest e))
    (evidenceSets (around db)).

(** [PINNED_OWNER_WALLET]. *)
Definition PINNED_OWNER_WALLET (db : AuthDb) (c : OperationColumns) : option string :=
  if same (oc_sourceKind c) "verified_step_up" then ev_walletId <$> evidence_joined db c
  else if same (oc_sourceKind c) "authorization_grant" then
    (fun s => si_walletId (sr_identity s)) <$>
    List.find (fun s => let i := sr_identity s in
      same (si_tenantId i) (oc_tenantId c) && sql_eq (oc_authorizationId c) (si_authorizationId i) &&
      scope_is (oc_ownerScope c) (si_scope i)) (sessions db)
  else None.

(** [authorization_source_active]. *)
Definition source_active (dbNow nowMs : Z) (scope : WalletScope) (db : AuthDb) (c : OperationColumns) : bool :=
  if same (oc_sourceKind c) "authorization_grant" then
    existsb (fun s => session_of c s && bool_decide (si_scope (sr_identity s) = scope) &&
      bool_decide (sr_retiredAtMs s = None) && (nowMs <? sr_expiresAtMs s) &&
      authority_current db s && method_active db (sr_identity s)) (sessions db)
  else if same (oc_sourceKind c) "verified_step_up" then
    existsb (fun e => evidence_of c e && (Z.max nowMs dbNow <? ev_expiresAtMs e)) (evidenceSets (around db))
  else false.

Definition find_operation (db : AuthDb) (tenantId fingerprint : string) : option OperationRow :=
  List.find (with_fingerprint tenantId fingerprint) (operations db).

(** [prepareAuthorizedOperationAdmissionRead]. *)
Definition prepareAuthorizedOperationAdmissionRead (dbNow nowMs : Z) (scope : WalletScope)
    (snapshot : option EcdsaMaterialReadSnapshot) (tenantId fingerprint : string) (db : AuthDb) : option AdmissionRow :=
  (fun r => let c := op_columns r in
     mkAdmissionRow r (ev_scope <$> evidence_joined db c) (PINNED_OWNER_WALLET db c)
       (match snapshot with Some s => snapshot_condition s scope db | None => true end)
       (source_active dbNow nowMs scope db c)) <$>
  find_operation db tenantId fingerprint.

(** [prepareAuthorizedOperationCommittedRead]: the same columns without what is current. *)
Definition prepareAuthorizedOperationCommittedRead (tenantId fingerprint : string) (db : AuthDb)
  : option (OperationRow * option WalletScope * option string) :=
  (fun r => (r, ev_scope <$> evidence_joined db (op_columns r), PINNED_OWNER_WALLET db (op_columns r))) <$>
  find_operation db tenantId fingerprint.

(** ** Stored operations *)

Definition parse_source (c : OperationColumns) : Result OperationAuthorizationSource :=
  let* sourceKind := requireString (JString (oc_sourceKind c)) "operation.authorization.kind" in
  if same sourceKind "authorization_grant" then
    if bool_decide (is_Some (oc_evidenceSetDigest c))
    then Throw (JsError "operation.authorization grant row cannot contain evidenceSetDigest")
    else if negb (sql_eq (oc_grantKind c) "wallet_session_authorization")
    then Throw (JsError "operation.authorization grant kind is invalid")
    else
      let* authorizationId := requireParsed
        (JObject [("kind", JString "wallet_session_authorization"); ("authorizationId", sql_text (oc_authorizationId c))])
        parseAuthorizationGrantRef "operation.authorization.authorizationGrantRef" in
      Ok (AuthorizationGrant authorizationId)
  else if same sourceKind "verified_step_up" then
    if bool_decide (is_Some (oc_authorizationId c))
    then Throw (JsError "operation.authorization step-up row cannot contain authorizationId")
    else
      let* text := requireString (sql_text (oc_evidenceSetDigest c)) "operation.authorization.evidenceSetDigest" in
      let* digest := parseDigestB64u (JString text) in
      Ok (VerifiedStepUp digest)
  else Throw (JsError "operation.authorization.kind is invalid").

Definition parse_quota (c : OperationColumns) : Result OperationQuota :=
  let* quotaKind := requireString (JString (oc_quotaKind c)) "operation.quota.kind" in
  if same quotaKind "consume_reusable_wallet_session" then
    let* quotaId := requireParsed (sql_text (oc_quotaId c)) parseMpcWalletSigningQuotaId "operation.quotaId" in
    Ok (ConsumeReusableWalletSession quotaId)
  else if same quotaKind "quota_neutral" then
    if bool_decide (is_Some (oc_quotaId c)) then Throw (JsError "operation.quota-neutral row cannot contain quotaId")
    else Ok QuotaNeutral
  else Throw (JsError "operation.quota.kind is invalid").

(** [parseDigestB64u(requireString(column))]. *)
Definition parse_digest_column (column : option string) (label : string) : Result string :=
  let* text := requireString (sql_text column) label in parseDigestB64u (JString text).

Definition parse_envelope (c : OperationColumns) : Result CapabilityOperationEnvelope :=
  let* tenantId := requireParsed (JString (oc_tenantId c)) parseTenantId "operation.tenantId" in
  let* principalId := requireParsed (JString (oc_principalId c)) parsePrincipalId "operation.principalId" in
  let* capabilityId := requireParsed (JString (oc_capabilityId c)) parseCapabilityId "operation.capabilityId" in
  let* operationId := requireParsed (JString (oc_operationId c)) parseCapabilityOperationId "operation.operationId" in
  let* operation := requireParsed
    (JObject [("capabilityKind", JString (oc_capabilityKind c)); ("operationKind", JString (oc_operationKind c))])
    parseCapabilityOperationRef "operation.operation" in
  let* lane := parse_digest_column (Some (oc_laneDigest c)) "operation.laneDigest" in
  let* intent := parse_digest_column (Some (oc_intentDigest c)) "operation.intentDigest" in
  let* display := parse_digest_column (Some (oc_displayDigest c)) "operation.displayDigest" in
  Ok (mkEnvelope tenantId principalId capabilityId operationId operation lane intent display).

Definition parseOperationFingerprint (value : JsVal) : Result string :=
  match parseCapabilityOperationFingerprintDigest value with
  | Ok s => Ok s
  | Throw e => Throw (JsError ("operation.operationFingerprintDigest: " +:+ errorMessage e))
  end.

Section Operations.
Context (sha256 : string -> list Z).

Definition parse_lifecycle (lifecycle : string) (o : OutcomeColumns) : Result AuthorizedOperationLifecycle :=
  if same lifecycle "claimed" then Ok LifecycleClaimed
  else if negb (same lifecycle "completed") then Throw (JsError "operation.lifecycle is invalid")
  else
    let* text := requireString (JString (oc_resultKind o)) "operation.result" in
    match result_of_text text with
    | None => Throw (JsError "operation.result is invalid")
    | Some result =>
        let* status := integerColumn (sql_integer (oc_resultStatus o)) "operation.response.status" in
        let* contentType := requiredText (sql_text (oc_resultContentType o)) "operation.response.contentType" in
        let* bodyText := requiredText (sql_text (oc_resultBodyText o)) "operation.response.bodyText" in
        let* response := parseAuthorizedOperationReplayResponse (response_value (mkReplayResponse status contentType bodyText)) in
        let* resultDigest := parse_digest_column (oc_resultDigest o) "operation.resultDigest" in
        let* expected := computeAuthorizedOperationResultDigest sha256 (response_value response) in
        if negb (same expected resultDigest) then Throw (JsError "operation.resultDigest does not match replay response")
        else
          let* completedAtMs := requirePositiveInteger (sql_integer (oc_completedAtMs o)) "operation.completedAtMs" in
          Ok (LifecycleCompleted result response resultDigest completedAtMs)
    end.

Definition parseAuthorizedOperationRow (row : OperationRow) : Result AuthorizedOperation :=
  let c := op_columns row in
  let* operation := parse_envelope c in
  let* authorization := parse_source c in
  let* lifecycle := requireString (JString (oc_lifecycleKind (op_outcome row))) "operation.lifecycle" in
  let* authorizedOperationId := requireParsed (JString (oc_authorizedOperationId c)) parseAuthorizedOperationId
    "operation.authorizedOperationId" in
  let* auditEventId := requireParsed (JString (oc_auditEventId c)) parseAuthorizationAuditEventId "operation.auditEventId" in
  let* fingerprint := parseOperationFingerprint (JString (oc_fingerprintDigest c)) in
  let* claimedAtMs := requirePositiveInteger (JInt (oc_claimedAtMs c)) "operation.claimedAtMs" in
  let* quota := parse_quota c in
  let* expectedFingerprint := computeCapabilityOperationFingerprintDigest sha256 operation in
  if negb (same expectedFingerprint fingerprint)
  then Throw (JsError "operation.operationFingerprintDigest does not match operation envelope")
  else
    let* lifecycle := parse_lifecycle lifecycle (op_outcome row) in
    Ok (mkAuthorizedOperation (e_tenantId operation) authorizedOperationId auditEventId claimedAtMs operation fingerprint
          authorization quota lifecycle).

(** ** How a stored operation answers *)

Inductive AdmissionRejection : Type :=
| authorization_grant_rejected
| verified_step_up_rejected
| billing_credit_exhausted
| wallet_session_quota_exhausted
| material_mismatch.

Inductive ExistingAnswer : Type :=
| ExistingReplayed (operation : AuthorizedOperation) (row : AdmissionRow)
| ExistingInProgress (operation : AuthorizedOperation) (row : AdmissionRow)
| ExistingRejected (rejection : AdmissionRejection).

Inductive AdmissionOutcome : Type :=
| OutcomeClaimed (operation : AuthorizedOperation) (row : AdmissionRow)
| OutcomeExisting (answer : ExistingAnswer).

Record AdmissionRecord : Type := mkAdmissionRecord { rec_row : AdmissionRow; rec_operation : AuthorizedOperation }.

Definition parseAuthorizedOperationAdmissionRecord (row : AdmissionRow) : Result AdmissionRecord :=
  let* operation := parseAuthorizedOperationRow (ad_row row) in Ok (mkAdmissionRecord row operation).

Definition authorizationSourceRejected (s : OperationAuthorizationSource) : AdmissionRejection :=
  match s with VerifiedStepUp _ => verified_step_up_rejected | AuthorizationGrant _ => authorization_grant_rejected end.

Definition authorizedOperationMaterialMatches (c : OperationColumns)
    (incoming : option AuthorizedOperationMaterialScope) : bool := bool_decide (oc_material c = material_columns incoming).

Definition classifyAuthorizedOperationAdmissionError (message : string) : option AdmissionRejection :=
  if includes "billing_credit_exhausted" message then Some billing_credit_exhausted
  else if includes "authorization_wallet_session_quota_rejected" message then Some wallet_session_quota_exhausted
  else if includes "authorization_wallet_session_rejected" message then Some authorization_grant_rejected
  else if includes "authorization_evidence_claim_rejected" message then Some verified_step_up_rejected
  else None.

Definition authorizedOperationReplayMismatch (existing : AdmissionRow) (incoming : AuthorizedOperation)
    (material : option AuthorizedOperationMaterialScope) (scope : WalletScope) : Result (option AdmissionRejection) :=
  let c := op_columns (ad_row existing) in
  let rejected := authorizationSourceRejected (authorization incoming) in
  let* sourceKind := requireString (JString (oc_sourceKind c)) "operation.authorization.kind" in
  if negb (same sourceKind (source_kind (authorization incoming))) then Ok (Some rejected)
  else if negb (match authorization incoming with
    | AuthorizationGrant authorizationId =>
        scope_is (oc_ownerScope c) scope && sql_eq (oc_grantKind c) "wallet_session_authorization" &&
        sql_eq (oc_authorizationId c) authorizationId
    | VerifiedStepUp digest => sql_eq (oc_evidenceSetDigest c) digest && bool_decide (ad_stepUpScope existing = Some scope)
    end) then Ok (Some rejected)
  else
    let* existingQuotaKind := requireString (JString (oc_quotaKind c)) "operation.quota.kind" in
    if negb (same existingQuotaKind (quota_kind (quota incoming))) then Ok (Some rejected)
    else if same existingQuotaKind "consume_reusable_wallet_session" &&
      negb (bool_decide (oc_quotaId c = quota_id (quota incoming))) then Ok (Some authorization_grant_rejected)
    else if same existingQuotaKind "quota_neutral" && negb (bool_decide (oc_quotaId c = None))
    then Ok (Some authorization_grant_rejected)
    else if negb (authorizedOperationMaterialMatches c material) then Ok (Some material_mismatch)
    else Ok None.

Definition answerExistingAuthorizedOperation (scope : WalletScope) (existing : AdmissionRecord)
    (operation : AuthorizedOperation) (material : option AuthorizedOperationMaterialScope) : Result ExistingAnswer :=
  let row := rec_row existing in
  if negb (ad_materialActive row) then Ok (ExistingRejected material_mismatch)
  else
    let* mismatch := authorizedOperationReplayMismatch row operation material scope in
    match mismatch with
    | Some rejection => Ok (ExistingRejected rejection)
    | None =>
        match ao_lifecycle (rec_operation existing) with
        | LifecycleCompleted _ _ _ _ =>
            if negb (ad_sourceActive row) && match authorization (rec_operation existing) with
                                             AuthorizationGrant _ => true | VerifiedStepUp _ => false end
            then Ok (ExistingRejected authorization_grant_rejected)
            else Ok (ExistingReplayed (rec_operation existing) row)
        | LifecycleClaimed =>
            if negb (ad_sourceActive row) then Ok (ExistingRejected (authorizationSourceRejected (authorization operation)))
            else Ok (ExistingInProgress (rec_operation existing) row)
        end
    end.

(** ** Admission *)

(** What a request meets: the fault of its batch, whether the read after a fault answers,
    and the clock of the database at both. *)
Record AdmissionEnv : Type := mkAdmissionEnv {
  env_fault : Fault;
  env_readLost : bool;
  env_dbNow : Z;
  env_readNow : Z;
}.

(** One statement that reads. *)
Definition read_db {A} (lost : bool) (read : AuthDb -> A) : M AuthDb A :=
  if lost then throw (JsError lost_error) else gets read.

Definition readAuthorizedOperationForAdmission (lost : bool) (dbNow : Z) (scope : WalletScope)
    (tenantId fingerprint : string) (nowMs : Z) (snapshot : option EcdsaMaterialReadSnapshot)
  : M AuthDb (option AdmissionRecord) :=
  now <- lift (requirePositiveInteger (JInt nowMs) "operation replay time") ;;
  row <- read_db lost (prepareAuthorizedOperationAdmissionRead dbNow now scope snapshot tenantId fingerprint) ;;
  match row with
  | None => ret None
  | Some row => existing <- lift (parseAuthorizedOperationAdmissionRecord row) ;; ret (Some existing)
  end.

(** [database.batch([insert, read])]: whether a row was inserted, and what was read. *)
Definition claim_batch {A} (fault : Fault) (statement : AuthStatement) (read : AuthDb -> A) : M AuthDb (bool * A) :=
  fun db =>
    match fault with
    | AnswerLost false => (Throw (JsError lost_error), db)
    | _ =>
        match statement db with
        | inl message => (Throw (JsError message), db)
        | inr (db', changed) =>
            (match fault with NoFault => Ok (negb (changed =? 0), read db') | _ => Throw (JsError lost_error) end, db')
        end
    end.

Definition admitAuthorizedOperationRecord (env : AdmissionEnv) (scope : WalletScope) (input : AuthorizedOperationInput)
    (material : option AuthorizedOperationMaterialScope) (snapshot : option EcdsaMaterialReadSnapshot)
  : M AuthDb AdmissionOutcome :=
  operation <- lift (buildAuthorizedOperation sha256 input) ;;
  if negb (authorizedOperationMaterialScopeMatches operation material snapshot)
  then ret (OutcomeExisting (ExistingRejected material_mismatch))
  else
    let fingerprint := operationFingerprintDigest operation in
    batched <- try_catch
      (statement <- lift (prepareAuthorizedOperationInsert (env_dbNow env) scope operation material snapshot PreserveExisting) ;;
       result <- claim_batch (env_fault env) statement
         (prepareAuthorizedOperationAdmissionRead (env_dbNow env) (claimedAtMs operation) scope snapshot
            (ao_tenantId operation) fingerprint) ;;
       ret (inr result))
      (fun error =>
         raced <- readAuthorizedOperationForAdmission (env_readLost env) (env_readNow env) scope (ao_tenantId operation)
           fingerprint (claimedAtMs operation) snapshot ;;
         match raced with
         | Some raced =>
             answer <- lift (answerExistingAuthorizedOperation scope raced operation material) ;;
             ret (inl (OutcomeExisting answer))
         | None =>
             match classifyAuthorizedOperationAdmissionError (errorMessage error) with
             | Some rejection => ret (inl (OutcomeExisting (ExistingRejected rejection)))
             | None => throw error
             end
         end) ;;
    match batched with
    | inl outcome => ret outcome
    | inr (claimed, None) =>
        if negb claimed && bool_decide (is_Some material)
        then ret (OutcomeExisting (ExistingRejected material_mismatch))
        else if negb claimed && match authorization operation with VerifiedStepUp _ => true | _ => false end
        then ret (OutcomeExisting (ExistingRejected verified_step_up_rejected))
        else throw (JsError "authorized operation admission could not be read back")
    | inr (claimed, Some row) =>
        admitted <- lift (parseAuthorizedOperationAdmissionRecord row) ;;
        if claimed then ret (OutcomeClaimed (rec_operation admitted) row)
        else
          answer <- lift (answerExistingAuthorizedOperation scope admitted operation material) ;;
          ret (OutcomeExisting answer)
    end.

(** [AuthorizedOperationAdmissionResult]. *)
Inductive AdmissionResult : Type :=
| AdmissionClaimed (operation : AuthorizedOperation)
| AdmissionReplayed (operation : AuthorizedOperation)
| AdmissionInProgress (operation : AuthorizedOperation)
| AdmissionRejected (rejection : AdmissionRejection).

Definition existing_result (answer : ExistingAnswer) : AdmissionResult :=
  match answer with
  | ExistingReplayed operation _ => AdmissionReplayed operation
  | ExistingInProgress operation _ => AdmissionInProgress operation
  | ExistingRejected rejection => AdmissionRejected rejection
  end.

Definition admitAuthorizedOperation (env : AdmissionEnv) (scope : WalletScope) (input : AuthorizedOperationInput)
    (material : option AuthorizedOperationMaterialScope) : M AuthDb AdmissionResult :=
  outcome <- admitAuthorizedOperationRecord env scope input material None ;;
  ret (match outcome with
       | OutcomeClaimed operation _ => AdmissionClaimed operation
       | OutcomeExisting answer => existing_result answer
       end).

(** [prepareAuthorizedOperationAdmission]: an answer, or the statement for a batch of
    another store. *)
Definition prepareAuthorizedOperationAdmission (env : AdmissionEnv) (scope : WalletScope) (input : AuthorizedOperationInput)
  : M AuthDb (AdmissionResult + list AuthStatement) :=
  operation <- lift (buildAuthorizedOperation sha256 input) ;;
  if bool_decide (capabilityKind (e_operation (ao_operation operation)) = evmEcdsaMpcSigning)
  then ret (inl (AdmissionRejected material_mismatch))
  else
    existing <- readAuthorizedOperationForAdmission (env_readLost env) (env_readNow env) scope (ao_tenantId operation)
      (operationFingerprintDigest operation) (claimedAtMs operation) None ;;
    match existing with
    | Some existing =>
        answer <- lift (answerExistingAuthorizedOperation scope existing operation None) ;;
        ret (inl (existing_result answer))
    | None =>
        statement <- lift (prepareAuthorizedOperationInsert (env_dbNow env) scope operation None None RejectExisting) ;;
        ret (inr [statement])
    end.

(** ** Wallet session operations *)

Record PinnedOwnerWalletScope : Type := mkPinnedScope {
  pinned_ownershipGeneration : Z;
  pinned_orgId : string;
  pinned_projectId : string;
  pinned_projectEnvironmentId : string;
}.

Definition pinnedWalletSessionOwnerScope (c : OperationColumns) (pinned : option string) (walletId : string)
  : Result PinnedOwnerWalletScope :=
  if negb (sql_eq pinned walletId) then Throw (JsError "Pinned owner Wallet Session scope is unavailable")
  else
    let* generation := requirePositiveInteger (sql_integer (oc_ownershipGeneration c)) "operation.ownershipGeneration" in
    let* orgId := requireString (sql_text (sc_orgId (oc_ownerScope c))) "operation.ownerScope.orgId" in
    let* projectId := requireString (sql_text (sc_projectId (oc_ownerScope c))) "operation.ownerScope.projectId" in
    let* envId := requireString (sql_text (sc_envId (oc_ownerScope c))) "operation.ownerScope.projectEnvironmentId" in
    Ok (mkPinnedScope generation orgId projectId envId).

Definition pinned_of_row (row : AdmissionRow) (walletId : string) : Result PinnedOwnerWalletScope :=
  pinnedWalletSessionOwnerScope (op_columns (ad_row row)) (ad_pinnedOwnerWalletId row) walletId.

Inductive WalletSessionAnswer : Type :=
| SessionClaimed (operation : AuthorizedOperation) (ownerScope : PinnedOwnerWalletScope)
| SessionInProgress (operation : AuthorizedOperation) (ownerScope : PinnedOwnerWalletScope)
| SessionReplayed (operation : AuthorizedOperation)
| SessionRejected (rejection : AdmissionRejection)
| SessionOperationMissing.

Definition pinExistingWalletSessionOperation (answer : ExistingAnswer) (walletId : string) : Result WalletSessionAnswer :=
  match answer with
  | ExistingInProgress operation row => let* scope := pinned_of_row row walletId in Ok (SessionInProgress operation scope)
  | ExistingReplayed operation _ => Ok (SessionReplayed operation)
  | ExistingRejected rejection => Ok (SessionRejected rejection)
  end.

Definition pinWalletSessionAdmission (outcome : AdmissionOutcome) (walletId : string) : Result WalletSessionAnswer :=
  match outcome with
  | OutcomeExisting answer => pinExistingWalletSessionOperation answer walletId
  | OutcomeClaimed operation row => let* scope := pinned_of_row row walletId in Ok (SessionClaimed operation scope)
  end.

Definition admitEcdsaWalletSessionOperation (env : AdmissionEnv) (scope : WalletScope) (input : AuthorizedOperationInput)
    (material : AuthorizedOperationMaterialScope) (readSnapshot : EcdsaMaterialReadSnapshot) : M AuthDb WalletSessionAnswer :=
  outcome <- admitAuthorizedOperationRecord env scope input (Some material) (Some readSnapshot) ;;
  lift (pinWalletSessionAdmission outcome (ms_walletId material)).

Definition admitEd25519WalletSessionOperation (env : AdmissionEnv) (scope : WalletScope) (input : AuthorizedOperationInput)
    (walletId : string) : M AuthDb WalletSessionAnswer :=
  outcome <- admitAuthorizedOperationRecord env scope input None None ;;
  lift (pinWalletSessionAdmission outcome walletId).

Definition resolveEcdsaWalletSessionOperation (env : AdmissionEnv) (scope : WalletScope) (input : AuthorizedOperationInput)
    (material : AuthorizedOperationMaterialScope) (readSnapshot : EcdsaMaterialReadSnapshot) : M AuthDb WalletSessionAnswer :=
  operation <- lift (buildAuthorizedOperation sha256 input) ;;
  if negb (authorizedOperationMaterialScopeMatches operation (Some material) (Some readSnapshot))
  then ret (SessionRejected material_mismatch)
  else
    existing <- readAuthorizedOperationForAdmission (env_readLost env) (env_readNow env) scope (ao_tenantId operation)
      (operationFingerprintDigest operation) (claimedAtMs operation) (Some readSnapshot) ;;
    match existing with
    | None => ret SessionOperationMissing
    | Some existing =>
        answer <- lift (answerExistingAuthorizedOperation scope existing operation (Some material)) ;;
        lift (pinExistingWalletSessionOperation answer (ms_walletId material))
    end.

Definition resolveEd25519WalletSessionOperation (env : AdmissionEnv) (scope : WalletScope)
    (tenantId fingerprint walletId : string) (nowMs : Z) : M AuthDb WalletSessionAnswer :=
  existing <- readAuthorizedOperationForAdmission (env_readLost env) (env_readNow env) scope tenantId fingerprint nowMs None ;;
  match existing with
  | None => ret SessionOperationMissing
  | Some existing =>
      match authorization (rec_operation existing) with
      | VerifiedStepUp _ => ret (SessionRejected authorization_grant_rejected)
      | AuthorizationGrant _ =>
          answer <- lift (answerExistingAuthorizedOperation scope existing (rec_operation existing) None) ;;
          lift (pinExistingWalletSessionOperation answer walletId)
      end
  end.

(** ** Reads and completion *)

Definition readAuthorizedOperation (lost : bool) (tenantId fingerprint : string) : M AuthDb (option AuthorizedOperation) :=
  row <- read_db lost (fun db => find_operation db tenantId fingerprint) ;;
  match row with
  | None => ret None
  | Some row => operation <- lift (parseAuthorizedOperationRow row) ;; ret (Some operation)
  end.

Definition readAuthorizedOperationById (lost : bool) (tenantId authorizedOperationId : string)
  : M AuthDb (option AuthorizedOperation) :=
  row <- read_db lost (fun db => List.find (fun r => same (oc_tenantId (op_columns r)) tenantId &&
    same (oc_authorizedOperationId (op_columns r)) authorizedOperationId) (operations db)) ;;
  match row with
  | None => ret None
  | Some row => operation <- lift (parseAuthorizedOperationRow row) ;; ret (Some operation)
  end.

Definition readPinnedOwnerWalletScope (lost : bool) (scope : WalletScope) (operation : AuthorizedOperation)
    (walletId : string) : M AuthDb PinnedOwnerWalletScope :=
  if bool_decide (capabilityKind (e_operation (ao_operation operation)) = vaultAccess)
  then throw (JsError "Pinned owner wallet scope requires a signing operation")
  else
    found <- read_db lost
      (prepareAuthorizedOperationCommittedRead (ao_tenantId operation) (operationFingerprintDigest operation)) ;;
    match found with
    | None => throw (JsError "Pinned owner operation is not claimed")
    | Some (row, stepUpScope, pinned) =>
        let c := op_columns row in
        if negb (same (oc_authorizedOperationId c) (authorizedOperationId operation)) ||
           negb (same (oc_sourceKind c) (source_kind (authorization operation)))
        then throw (JsError "Pinned owner operation is not claimed")
        else
          match authorization operation with
          | VerifiedStepUp digest =>
              if negb (sql_eq (oc_evidenceSetDigest c) digest) || negb (sql_eq pinned walletId) ||
                 negb (bool_decide (stepUpScope = Some scope))
              then throw (JsError "Verified step-up operation is not claimed")
              else
                generation <- lift (requirePositiveInteger (sql_integer (oc_ownershipGeneration c))
                  "operation.ownershipGeneration") ;;
                ret (mkPinnedScope generation (orgId scope) (projectId scope) (envId scope))
          | AuthorizationGrant authorizationId =>
              if negb (sql_eq (oc_authorizationId c) authorizationId)
              then throw (JsError "Pinned owner Wallet Session scope is unavailable")
              else lift (pinnedWalletSessionOwnerScope c pinned walletId)
          end
    end.

(** The values [prepareWalletOperationCompletion] binds. *)
Definition completed_outcome (result : CompletedCapabilityOperationResult) (response : AuthorizedOperationReplayResponse)
    (resultDigest : string) (completedAtMs : Z) : OutcomeColumns :=
  mkOutcomeColumns "completed" (result_text result) (Some resultDigest) (Some (rr_status response))
    (Some (rr_contentType response)) (Some (rr_bodyText response)) (Some completedAtMs).

Definition prepareWalletOperationCompletion (operation : AuthorizedOperation) (result : CompletedCapabilityOperationResult)
    (response : JsVal) (completedAtMs : Z) : Result (AuthDb -> string + AuthDb * option OperationRow) :=
  let* response := parseAuthorizedOperationReplayResponse response in
  let* resultDigest := computeAuthorizedOperationResultDigest sha256 (response_value response) in
  let* completedAtMs := parseUnixMs (JInt completedAtMs) "operation.completedAtMs" in
  Ok (complete_operation (ao_tenantId operation) (authorizedOperationId operation) (operationFingerprintDigest operation)
        (completed_outcome result response resultDigest completedAtMs)).

(** [statement.first()] of an update. *)
Definition run_update {A} (fault : Fault) (statement : AuthDb -> string + AuthDb * A) : M AuthDb A := fun db =>
  match fault with
  | AnswerLost false => (Throw (JsError lost_error), db)
  | _ =>
      match statement db with
      | inl message => (Throw (JsError message), db)
      | inr (db', a) => (match fault with NoFault => Ok a | _ => Throw (JsError lost_error) end, db')
      end
  end.

Definition completeAuthorizedOperation (fault : Fault) (readLost : bool) (operation : AuthorizedOperation)
    (result : CompletedCapabilityOperationResult) (response : JsVal) (completedAtMs : Z) : M AuthDb AuthorizedOperation :=
  statement <- lift (prepareWalletOperationCompletion operation result response completedAtMs) ;;
  completed <- run_update fault statement ;;
  match completed with
  | Some row => lift (parseAuthorizedOperationRow row)
  | None =>
      existing <- readAuthorizedOperation readLost (ao_tenantId operation) (operationFingerprintDigest operation) ;;
      match existing with
      | Some existing => ret existing
      | None => throw (JsError "authorized operation completion claim is missing")
      end
  end.
End Operations.
