(* ===== verification/WalletSessionIssuance.v ===== *)
(** * Issuing and retiring wallet sessions

    [authorizationStore/issuance.ts], [retirement.ts] and the mint read of [sessions.ts] of
    [packages/wallet-server/src/router/cloudflare/d1/authorization]: a session is issued
    in one batch that ends the sessions before it, and only if none of its identifiers
    was used. *)

From S2P Require Import Prelude JsValues BitPacking Base64 VersionedRecords Capabilities AuthorizationDomain WalletSessionValues AuthorizationTables AuthorizedOperations.
Local Open Scope Z_scope.
Local Open Scope js_scope.

(** ** The row of a session *)

Definition session_identity (scope : WalletScope) (s : WalletSessionAuthorizationV2) : SessionIdentity :=
  mkSessionIdentity scope (tenantId s) (authorizationId s) (walletSessionId s) (quotaId s) (principalId s) (walletId s)
    (authorityId s) (walletAuthMethodId s).

(** The values the session insert binds. *)
Definition session_row (scope : WalletScope) (p : PersistedActiveWalletSession) : SessionRow :=
  let s := ps_session p in
  mkSessionRow (session_identity scope s) (mintId s) (authorityDigestB64u s) (authorityRevocationEpoch s)
    (JArray (map subject_value (capabilitySubjects s))) (createdAtMs s) (expiresAtMs s) None (session_value s)
    (Some (ps_credentialDigest p)).

Definition quota_row (q : ActiveWalletSessionQuota) : QuotaRow :=
  mkQuotaRow (aq_tenantId q) (aq_quotaId q) (aq_walletSessionId q) (aq_principalId q) (aq_remainingUses q) QuotaActive
    (aq_expiresAtMs q).

(** ** Conditions *)

Definition same_tenant (a b : SessionIdentity) : bool :=
  bool_decide (si_scope a = si_scope b) && same (si_tenantId a) (si_tenantId b).

(** [directV2SessionIdentityAvailabilitySql]: the authority and the method are in force, the
    wallet executes here, and the four identifiers are new. *)
Definition session_identity_available (candidate : SessionRow) (db : AuthDb) : bool :=
  let i := sr_identity candidate in
  authority_current db candidate && method_active db i &&
  existsb (fun g => bool_decide (gr_scope g = si_scope i) && same (gr_walletId g) (si_walletId i) &&
    bool_decide (gr_state g ∈ ["registering"; "active"])) (generations db) &&
  negb (existsb (fun s => let e := sr_identity s in
    same_tenant e i && (same (si_authorizationId e) (si_authorizationId i) || same (sr_mintId s) (sr_mintId candidate) ||
      same (si_walletSessionId e) (si_walletSessionId i) || same (si_quotaId e) (si_quotaId i))) (sessions db)).

(** [directV2IdentityAvailabilitySql]: and the quota is new. *)
Definition identity_available (candidate : SessionRow) (db : AuthDb) : bool :=
  session_identity_available candidate db &&
  negb (existsb (fun q => same (qr_tenantId q) (si_tenantId (sr_identity candidate)) &&
    same (qr_quotaId q) (si_quotaId (sr_identity candidate))) (quotas db)).

(** The open sessions of the same authority and method that another mint made. *)
Definition predecessor (candidate s : SessionRow) : bool :=
  let i := sr_identity candidate in
  let e := sr_identity s in
  same_tenant e i && same (si_walletId e) (si_walletId i) && same (si_authorityId e) (si_authorityId i) &&
  same (si_walletAuthMethodId e) (si_walletAuthMethodId i) && negb (same (sr_mintId s) (sr_mintId candidate)) &&
  bool_decide (sr_retiredAtMs s = None).

(** ** Statements *)

Definition retire_session (nowMs : Z) (s : SessionRow) : SessionRow :=
  mkSessionRow (sr_identity s) (sr_mintId s) (sr_authorityDigest s) (sr_revocationEpoch s) (sr_capabilitySubjects s)
    (sr_issuedAtMs s) (sr_expiresAtMs s) (Some (Z.max (sr_issuedAtMs s) nowMs)) (sr_record s) (sr_credentialHash s).

Definition exhaust_quota (q : QuotaRow) : QuotaRow :=
  mkQuotaRow (qr_tenantId q) (qr_quotaId q) (qr_walletSessionId q) (qr_principalId q) 0 QuotaExhausted (qr_expiresAtMs q).

(** Whether a quota is one of the sessions that [p] selects. *)
Definition quota_of_selected (tenantId : string) (p : SessionRow -> bool) (db : AuthDb) (q : QuotaRow) : bool :=
  same (qr_tenantId q) tenantId && existsb (fun s => p s && same (qr_quotaId q) (si_quotaId (sr_identity s))) (sessions db).

Definition exhaust_quotas (p : AuthDb -> QuotaRow -> bool) : AuthStatement := fun db =>
  inr (set_quotas (update_where (p db) exhaust_quota (quotas db)) db, changes (p db) (quotas db)).

Definition retire_sessions (nowMs : Z) (p : AuthDb -> SessionRow -> bool) : AuthStatement := fun db =>
  inr (set_sessions (update_where (p db) (retire_session nowMs) (sessions db)) db, changes (p db) (sessions db)).

(** [prepareRetireHostedChildrenForParentSelection]. *)
Definition hosted_by (p : SessionRow -> bool) (db : AuthDb) (parent : SessionIdentity) : bool :=
  existsb (fun s => bool_decide (sr_identity s = parent) && p s) (sessions db).

Definition retire_credential (nowMs : Z) (c : HostedCredentialRow) : HostedCredentialRow :=
  mkCredentialRow (hc_parent c) (hc_hostedCredentialId c) (hc_credentialDigest c) (hc_appOrigin c) (hc_walletOrigin c)
    (hc_issuedAtMs c) (hc_expiresAtMs c) "retired" (Some (Z.max (hc_issuedAtMs c) nowMs)).

Definition in_tenant (scope : WalletScope) (tenantId : string) (i : SessionIdentity) : bool :=
  bool_decide (si_scope i = scope) && same (si_tenantId i) tenantId.

Definition deleteHostedExchanges (scope : WalletScope) (tenantId : string) (p : AuthDb -> SessionRow -> bool)
  : AuthStatement := fun db =>
  let deleted x := in_tenant scope tenantId (he_parent x) && same (he_lifecycleKind x) "issued" && hosted_by (p db) db (he_parent x) in
  inr (set_hosted (List.filter (fun x => negb (deleted x)) (exchanges db)) (credentials db) db,
       changes deleted (exchanges db)).

Definition retireHostedCredentials (scope : WalletScope) (tenantId : string) (nowMs : Z) (p : AuthDb -> SessionRow -> bool)
  : AuthStatement := fun db =>
  let retired x := in_tenant scope tenantId (hc_parent x) && same (hc_lifecycleKind x) "active" &&
    bool_decide (hc_retiredAtMs x = None) && hosted_by (p db) db (hc_parent x) in
  inr (set_hosted (exchanges db) (update_where retired (retire_credential nowMs) (credentials db)) db,
       changes retired (credentials db)).

(** [INSERT OR IGNORE] of the quota. *)
Definition quota_insert (candidate : SessionRow) (q : ActiveWalletSessionQuota) : AuthStatement := fun db =>
  let conflicts e := same (qr_tenantId e) (aq_tenantId q) &&
    (same (qr_quotaId e) (aq_quotaId q) || same (qr_walletSessionId e) (aq_walletSessionId q)) in
  if identity_available candidate db && negb (existsb conflicts (quotas db)) && (0 <? aq_remainingUses q)
  then inr (set_quotas (quotas db ++ [quota_row q]) db, 1) else inr (db, 0).

(** The constraints of a session row; those on its JSON columns hold by how the row is made. *)
Definition session_check (s : SessionRow) : bool :=
  let i := sr_identity s in
  forallb nonempty [orgId (si_scope i); projectId (si_scope i); envId (si_scope i); si_tenantId i; si_authorizationId i;
    sr_mintId s; si_walletSessionId i; si_quotaId i; si_principalId i; si_walletId i; si_authorityId i;
    si_walletAuthMethodId i; sr_authorityDigest s; default "" (sr_credentialHash s)] &&
  negb (same (si_authorizationId i) (si_walletSessionId i)) && negb (same (si_authorizationId i) (si_quotaId i)) &&
  negb (same (si_walletSessionId i) (si_quotaId i)) && (0 <=? sr_revocationEpoch s) && (0 <? sr_issuedAtMs s) &&
  (sr_issuedAtMs s <? sr_expiresAtMs s) &&
  match sr_capabilitySubjects s with JArray (_ :: _) => true | _ => false end.

(** The keys of the table and its two partial indexes: a credential hash once, and one open
    session per wallet, authority and method. *)
Definition session_conflicts (candidate s : SessionRow) : bool :=
  let i := sr_identity candidate in
  let e := sr_identity s in
  same_tenant e i &&
  (same (si_authorizationId e) (si_authorizationId i) || same (sr_mintId s) (sr_mintId candidate) ||
   same (si_walletSessionId e) (si_walletSessionId i) || same (si_quotaId e) (si_quotaId i) ||
   bool_decide (is_Some (sr_credentialHash candidate)) && bool_decide (sr_credentialHash s = sr_credentialHash candidate) ||
   same (si_walletId e) (si_walletId i) && same (si_authorityId e) (si_authorityId i) &&
   same (si_walletAuthMethodId e) (si_walletAuthMethodId i) && bool_decide (sr_retiredAtMs s = None) &&
   bool_decide (sr_retiredAtMs candidate = None)).

(** [INSERT OR IGNORE] of the session, with [cancelled_registration_session_insert_fence]. *)
Definition session_insert (candidate : SessionRow) (q : ActiveWalletSessionQuota) : AuthStatement := fun db =>
  let i := sr_identity candidate in
  let quota_is e := same (qr_tenantId e) (aq_tenantId q) && same (qr_quotaId e) (aq_quotaId q) &&
    same (qr_walletSessionId e) (aq_walletSessionId q) && same (qr_principalId e) (aq_principalId q) &&
    (qr_remainingUses e =? aq_remainingUses q) && bool_decide (qr_lifecycle e = QuotaActive) &&
    (qr_expiresAtMs e =? aq_expiresAtMs q) in
  if session_identity_available candidate db && existsb quota_is (quotas db) then
    if existsb (fun g => bool_decide (gr_scope g = si_scope i) && same (gr_walletId g) (si_walletId i) &&
      same (gr_registrationCompletion g) "cancelled") (generations db)
    then inl "registration_cancelled"
    else if session_check candidate && negb (existsb (session_conflicts candidate) (sessions db)) then inr (set_sessions (sessions db ++ [candidate]) db, 1)
    else inr (db, 0)
  else inr (db, 0).

(** [prepareDirectWalletSessionAuthorizationV2Statements]. *)
Definition prepareDirectWalletSessionAuthorizationV2Statements (scope : WalletScope) (p : PersistedActiveWalletSession)
  : list AuthStatement :=
  let candidate := session_row scope p in
  let tenant := tenantId (ps_session p) in
  let now := createdAtMs (ps_session p) in
  let selected db s := predecessor candidate s && identity_available candidate db in
  [exhaust_quotas (fun db q => quota_of_selected tenant (predecessor candidate) db q && identity_available candidate db);
   deleteHostedExchanges scope tenant selected;
   retireHostedCredentials scope tenant now selected;
   retire_sessions now selected;
   quota_insert candidate (ps_quota p);
   session_insert candidate (ps_quota p)].

(** ** Issuing *)

Inductive CommitPurpose : Type := PurposeOrdinary | PurposeRegistration (ceremonyId : string).

Definition generation_of (scope : WalletScope) (walletId : string) (db : AuthDb) : option GenerationRow :=
  List.find (fun g => bool_decide (gr_scope g = scope) && same (gr_walletId g) walletId &&
    bool_decide (gr_state g ∈ ["registering"; "active"])) (generations db).

(** [readWalletSessionIssuanceGeneration]. *)
Definition readWalletSessionIssuanceGeneration (lost : bool) (scope : WalletScope) (walletId : string) : M AuthDb Z :=
  found <- read_db lost (generation_of scope walletId) ;;
  match found with
  | None => throw (JsError "Wallet session issuance requires an open execution generation")
  | Some g => lift (requirePositiveInteger (JInt (gr_generation g)) "Wallet Session ownership generation")
  end.

(** [prepareWalletSessionAuthorizationV2ByMintRead]. *)
Definition mint_read (scope : WalletScope) (s : WalletSessionAuthorizationV2) (db : AuthDb) : option SessionRow :=
  let i := session_identity scope s in
  List.find (fun r => let e := sr_identity r in
    same_tenant e i && same (si_principalId e) (si_principalId i) && same (si_walletId e) (si_walletId i) &&
    same (si_authorityId e) (si_authorityId i) && same (si_walletAuthMethodId e) (si_walletAuthMethodId i) &&
    same (sr_mintId r) (mintId s)) (sessions db).

(** The session that the columns of a row and some subjects make. *)
Definition parseWalletSessionAuthorizationV2WithSubjects (r : SessionRow) (subjects : JsVal)
  : Result WalletSessionAuthorizationV2 :=
  let i := sr_identity r in
  parseWalletSessionAuthorizationV2
    (JObject [("kind", JString "wallet_session_authorization_v2"); ("tenantId", JString (si_tenantId i));
              ("principalId", JString (si_principalId i)); ("walletId", JString (si_walletId i));
              ("authorityId", JString (si_authorityId i)); ("walletAuthMethodId", JString (si_walletAuthMethodId i));
              ("authorityDigestB64u", JString (sr_authorityDigest r));
              ("authorityRevocationEpoch", JInt (sr_revocationEpoch r)); ("mintId", JString (sr_mintId r));
              ("authorizationId", JString (si_authorizationId i)); ("walletSessionId", JString (si_walletSessionId i));
              ("quotaId", JString (si_quotaId i)); ("capabilitySubjects", subjects);
              ("createdAtMs", JInt (sr_issuedAtMs r)); ("expiresAtMs", JInt (sr_expiresAtMs r))]).

Definition walletSessionAuthorizationV2RowMatches (r : SessionRow) (s : WalletSessionAuthorizationV2) : bool :=
  let i := sr_identity r in
  same (si_tenantId i) (tenantId s) && same (si_authorizationId i) (authorizationId s) && same (sr_mintId r) (mintId s) &&
  same (si_walletSessionId i) (walletSessionId s) && same (si_quotaId i) (quotaId s) &&
  same (si_principalId i) (principalId s) && same (si_walletId i) (walletId s) && same (si_authorityId i) (authorityId s) &&
  same (si_walletAuthMethodId i) (walletAuthMethodId s) && same (sr_authorityDigest r) (authorityDigestB64u s) &&
  (sr_revocationEpoch r =? authorityRevocationEpoch s) && (sr_issuedAtMs r =? createdAtMs s) &&
  (sr_expiresAtMs r =? expiresAtMs s).

(** [WalletSessionAuthorizationV2MintRead]. *)
Record MintRead : Type := mkMintRead {
  mr_session : WalletSessionAuthorizationV2;
  mr_credentialDigest : string;
  mr_retiredAtMs : option Z;
}.

Definition parseWalletSessionAuthorizationV2MintRow (row : option SessionRow) (s : WalletSessionAuthorizationV2)
  : Result (option MintRead) :=
  match row with
  | None => Ok None
  | Some r =>
      let* session := parsePersistedWalletSessionAuthorizationV2 (sr_record r) in
      if negb (walletSessionAuthorizationV2RowMatches r session)
      then Throw (JsError "Stored V2 Wallet Session mint columns disagree with record")
      else
        let* subjectsRecord := parseWalletSessionAuthorizationV2WithSubjects r (sr_capabilitySubjects r) in
        if negb (walletSessionAuthorizationV2RecordsEqual subjectsRecord session)
        then Throw (JsError "Stored V2 Wallet Session mint subjects disagree with record")
        else if negb (same (tenantId session) (tenantId s) && same (principalId session) (principalId s) &&
          same (walletId session) (walletId s) && same (authorityId session) (authorityId s) &&
          same (walletAuthMethodId session) (walletAuthMethodId s) && same (mintId session) (mintId s))
        then Throw (JsError "Stored V2 Wallet Session mint identity does not match the request")
        else
          let* digest := parseDigestB64u (sql_text (sr_credentialHash r)) in
          let* retiredAtMs :=
            match sr_retiredAtMs r with
            | None => Ok None
            | Some z => let* z := requirePositiveInteger (JInt z) "V2 session.retiredAtMs" in Ok (Some z)
            end in
          Ok (Some (mkMintRead session digest retiredAtMs))
  end.

(** [prepareRegistrationSessionCompletion]: the update and [D1_BATCH_CAS_GUARD_SQL]. *)
Definition complete_registration (scope : WalletScope) (ceremonyId : string) (s : WalletSessionAuthorizationV2)
  : AuthStatement := fun db =>
  let p g := bool_decide (gr_scope g = scope) && same (gr_walletId g) (walletId s) && same (gr_origin g) "registration" &&
    same (gr_originId g) ceremonyId && bool_decide (gr_state g ∈ ["registering"; "active"]) &&
    bool_decide (gr_registrationCompletion g ∈ ["pending"; "established"]) && bool_decide (is_Some (mint_read scope s db)) in
  let f g := mkGenerationRow (gr_scope g) (gr_walletId g) (gr_generation g) (gr_origin g) (gr_originId g) (gr_state g)
    "established" in
  if changes p (generations db) =? 0
  then inl "UNIQUE constraint failed: router_ab_yao_versioned_json_cas_guard.guard_id"
  else inr (set_generations (update_where p f (generations db)) db, changes p (generations db)).

(** A batch, with the rows that each statement changed. *)
Fixpoint run_auth_statements (statements : list AuthStatement) (db : AuthDb) : string + AuthDb * list Z :=
  match statements with
  | [] => inr (db, [])
  | s :: statements =>
      match s db with
      | inl message => inl message
      | inr (db, n) =>
          match run_auth_statements statements db with
          | inl message => inl message
          | inr (db, ns) => inr (db, n :: ns)
          end
      end
  end.

(** The batch of an issuance: rows changed by the quota and the session insert, the row of
    the mint and the generation. *)
Definition issuance_batch (scope : WalletScope) (p : PersistedActiveWalletSession) (purpose : CommitPurpose) (db : AuthDb)
  : string + AuthDb * (Z * Z * option SessionRow * option GenerationRow) :=
  match run_auth_statements (prepareDirectWalletSessionAuthorizationV2Statements scope p) db with
  | inl message => inl message
  | inr (db, ns) =>
      let read := (ns !!! 4%nat, ns !!! 5%nat, mint_read scope (ps_session p) db,
                   generation_of scope (walletId (ps_session p)) db) in
      match purpose with
      | PurposeOrdinary => inr (db, read)
      | PurposeRegistration ceremonyId =>
          match complete_registration scope ceremonyId (ps_session p) db with
          | inl message => inl message
          | inr (db, _) => inr (db, read)
          end
      end
  end.

Inductive CommitMode : Type := Strict | Replayable.

(** [DirectV2CommitResult], without the registration decision it repeats. *)
Inductive DirectV2CommitResult : Type :=
| SessionInserted (ownershipGeneration : Z)
| SessionAlreadyCommitted (committed : MintRead).

Definition requireExactPersisted (p : PersistedActiveWalletSession) : Result unit :=
  if negb (quota_of_session (ps_session p) (ps_quota p))
  then Throw (JsError "V2 Wallet Session authorization and quota must have one exact identity")
  else let* _ := parseDigestB64u (JString (ps_credentialDigest p)) in Ok tt.

(** The numbers that the statements bind. *)
Definition require_issuance_numbers (p : PersistedActiveWalletSession) : Result unit :=
  let* _ := requirePositiveInteger (JInt (createdAtMs (ps_session p))) "Direct V2 issuance time" in
  let* _ := requirePositiveInteger (JInt (aq_remainingUses (ps_quota p))) "Direct V2 quota.remainingUses" in
  let* _ := requirePositiveInteger (JInt (aq_expiresAtMs (ps_quota p))) "Direct V2 quota.expiresAtMs" in
  let* _ := requirePositiveInteger (JInt (expiresAtMs (ps_session p))) "Direct V2 session.expiresAtMs" in
  Ok tt.

(** [commitDirectWalletSessionAuthorizationV2WithMode]. *)
Definition commitDirectWalletSessionAuthorizationV2WithMode (fault : Fault) (scope : WalletScope)
    (p : PersistedActiveWalletSession) (mode : CommitMode) (purpose : CommitPurpose) : M AuthDb DirectV2CommitResult :=
  _ <- lift (requireExactPersisted p) ;;
  _ <- lift (require_issuance_numbers p) ;;
  results <- run_update fault (issuance_batch scope p purpose) ;;
  let '(quotaChanges, sessionChanges, row, generation) := results in
  if negb (quotaChanges =? sessionChanges)
  then throw (JsError "Direct V2 Wallet Session transaction persisted an incomplete identity")
  else
    committed <- lift (parseWalletSessionAuthorizationV2MintRow row (ps_session p)) ;;
    _ <- lift (match purpose, generation with
               | PurposeRegistration _, None =>
                   Throw (JsError "Registration session commit requires an open execution generation")
               | _, _ => Ok tt
               end) ;;
    match committed with
    | None =>
        throw (JsError (match generation with
          | None => "Wallet session issuance requires an open execution generation"
          | Some _ => "Direct V2 Wallet Session authorization commit was not readable" end))
    | Some committed =>
        if (sessionChanges =? 0) && match mode with Replayable => true | Strict => false end
        then ret (SessionAlreadyCommitted committed)
        else if negb (same (walletSessionId (mr_session committed)) (walletSessionId (ps_session p)))
        then throw (JsError "Direct V2 Wallet Session commit returned a different session identity")
        else if negb (same (mr_credentialDigest committed) (ps_credentialDigest p))
        then throw (JsError "Direct V2 Wallet Session commit returned a different credential digest")
        else if sessionChanges =? 0 then ret (SessionAlreadyCommitted committed)
        else if negb (sessionChanges =? 1)
        then throw (JsError "Direct V2 Wallet Session transaction changed more than one session")
        else
          match generation with
          | None => throw (JsError "Wallet session issuance requires an open execution generation")
          | Some g =>
              z <- lift (requirePositiveInteger (JInt (gr_generation g)) "Wallet Session ownership generation") ;;
              ret (SessionInserted z)
          end
    end.

Definition commitDirectWalletSessionAuthorizationV2 (fault : Fault) (scope : WalletScope)
    (p : PersistedActiveWalletSession) : M AuthDb DirectV2CommitResult :=
  commitDirectWalletSessionAuthorizationV2WithMode fault scope p Strict PurposeOrdinary.

Definition commitDirectReplayableWalletSessionAuthorizationV2 (fault : Fault) (scope : WalletScope)
    (p : PersistedActiveWalletSession) (purpose : CommitPurpose) : M AuthDb DirectV2CommitResult :=
  commitDirectWalletSessionAuthorizationV2WithMode fault scope p Replayable purpose.

(** ** Retirement *)

Definition open_session_of (scope : WalletScope) (tenantId walletId : string) (s : SessionRow) : bool :=
  let i := sr_identity s in
  in_tenant scope tenantId i && same (si_walletId i) walletId && bool_decide (sr_retiredAtMs s = None).

(** The four statements, for the open sessions that [selected] picks. *)
Definition retirement_statements (scope : WalletScope) (tenantId : string) (nowMs : Z)
    (selected : AuthDb -> SessionRow -> bool) : list AuthStatement :=
  [exhaust_quotas (fun db q => bool_decide (qr_lifecycle q = QuotaActive) && quota_of_selected tenantId (selected db) db q);
   deleteHostedExchanges scope tenantId selected;
   retireHostedCredentials scope tenantId nowMs selected;
   retire_sessions nowMs selected].

Definition prepareRetireWalletSessionAuthorizationsForAuthMethod (scope : WalletScope)
    (tenantId walletId walletAuthMethodId : string) (nowMs : Z) : Result (list AuthStatement) :=
  let* _ := requirePositiveInteger (JInt nowMs) "auth-method session retirement time" in
  Ok (retirement_statements scope tenantId nowMs (fun _ s =>
    open_session_of scope tenantId walletId s && same (si_walletAuthMethodId (sr_identity s)) walletAuthMethodId)).

(** The sessions of an authority, when no method of it is active any more. *)
Definition prepareRetireWalletSessionAuthorizationsV2ForAuthority (scope : WalletScope)
    (tenantId walletId authorityId : string) (nowMs : Z) : Result (list AuthStatement) :=
  let* _ := requirePositiveInteger (JInt nowMs) "authority session revocation time" in
  let remaining db := existsb (fun m => bool_decide (mr_scope m = scope) && same (mr_walletId m) walletId &&
    same (mr_authorityId m) authorityId && same (mr_status m) "active") (authMethods (around db)) in
  Ok (retirement_statements scope tenantId nowMs (fun db s =>
    open_session_of scope tenantId walletId s && same (si_authorityId (sr_identity s)) authorityId && negb (remaining db))).

Definition run_batch (fault : Fault) (statements : list AuthStatement) : M AuthDb (list Z) :=
  run_update fault (run_auth_statements statements).

Definition retireWalletSessionAuthorizationsForAuthMethod (fault : Fault) (scope : WalletScope)
    (tenantId walletId walletAuthMethodId : string) (nowMs : Z) : M AuthDb unit :=
  statements <- lift (prepareRetireWalletSessionAuthorizationsForAuthMethod scope tenantId walletId walletAuthMethodId nowMs) ;;
  _ <- run_batch fault statements ;; ret tt.
