(* ===== verification/AuthorizationWrites.v ===== *)
(** * What the writes of the authorization store change

    The effect of a claim, of a completion, of an issuance and of a retirement on each
    table, read off the triggers and the batches. *)

From S2P Require Import Prelude JsValues BitPacking VersionedRecords Capabilities AuthorizationDomain WalletSessionValues AuthorizationTables AuthorizedOperations WalletSessionIssuance.
Local Open Scope Z_scope.
Local Open Scope js_scope.

(** ** Conditions *)

Lemma same_spec a b : same a b = true <-> a = b.
Proof. apply bool_decide_eq_true. Qed.

Lemma sql_eq_spec column text : sql_eq column text = true <-> column = Some text.
Proof. apply bool_decide_eq_true. Qed.

(** Splits conjunctions of conditions into equations. *)
Ltac conditions :=
  repeat match goal with
    | H : _ && _ = true |- _ => apply andb_true_iff in H as [? ?]
    | H : negb _ = true |- _ => apply negb_true_iff in H
    | H : negb _ = false |- _ => apply negb_false_iff in H
    | H : same _ _ = true |- _ => apply same_spec in H
    | H : sql_eq _ _ = true |- _ => apply sql_eq_spec in H
    | H : bool_decide _ = true |- _ => apply bool_decide_eq_true in H
    | H : bool_decide _ = false |- _ => apply bool_decide_eq_false in H
    end.

Lemma existsb_none {A} (p : A -> bool) l : existsb p l = false <-> forall x, x ∈ l -> p x = false.
Proof.
  rewrite <- not_true_iff_false, existsb_exists. setoid_rewrite <- list_elem_of_In. split.
  - intros H x Hx. apply not_true_iff_false. eauto.
  - intros H (x & Hx & Hp). by rewrite H in Hp.
Qed.

Lemma existsb_pointwise {A} (p p' : A -> bool) l : (forall x, p x = p' x) -> existsb p l = existsb p' l.
Proof. intros H. induction l as [|x l IH]; simpl; [done|]. by rewrite H, IH. Qed.

Lemma existsb_some {A} (p : A -> bool) l : existsb p l = true <-> exists x, x ∈ l /\ p x = true.
Proof. rewrite existsb_exists. by setoid_rewrite <- list_elem_of_In. Qed.

(** ** Updates of a table *)

Section Updates.
Context {A : Type} (p : A -> bool) (f : A -> A).

Lemma update_where_none l : (forall x, x ∈ l -> p x = false) -> update_where p f l = l.
Proof.
  induction l as [|x l IH]; intros H; [done|]. unfold update_where in *. simpl.
  rewrite (H x) by set_solver. f_equal. apply IH. set_solver.
Qed.

Lemma map_update_where {B} (g : A -> B) l : (forall x, g (f x) = g x) -> map g (update_where p f l) = map g l.
Proof. intros H. unfold update_where. rewrite map_map. apply map_ext. intros x. by destruct (p x). Qed.

Lemma elem_update_where l y : y ∈ update_where p f l <-> exists x, x ∈ l /\ y = if p x then f x else x.
Proof. unfold update_where. rewrite list_elem_of_fmap. naive_solver. Qed.

Lemma changes_zero l : changes p l = 0 -> forall x, x ∈ l -> p x = false.
Proof.
  unfold changes. intros H x Hx. apply not_true_iff_false. intros Hp.
  assert (List.In x (List.filter p l)) as Hin by (apply filter_In; split; [by apply list_elem_of_In|done]).
  destruct (List.filter p l); [destruct Hin|simpl in H; lia].
Qed.

Lemma changes_one l : changes p l = 1 -> exists x, x ∈ l /\ p x = true.
Proof.
  unfold changes. destruct (List.filter p l) as [|x k] eqn:E; [done|]. intros _. exists x.
  assert (List.In x (List.filter p l)) as [Hx Hp]%filter_In by (rewrite E; by left). by rewrite list_elem_of_In.
Qed.

End Updates.

Lemma find_elem {A} (p : A -> bool) l x : List.find p l = Some x -> x ∈ l /\ p x = true.
Proof. intros [Hx Hp]%find_some. by rewrite list_elem_of_In. Qed.

Lemma find_none_elem {A} (p : A -> bool) l : List.find p l = None -> forall x, x ∈ l -> p x = false.
Proof. intros H x Hx%list_elem_of_In. by eapply find_none. Qed.

(** ** A claim *)

Definition claimed_row (c : OperationColumns) : OperationRow := mkOperationRow c claimed_outcome.

(** What a claim does to the credit grants. *)
Definition credit_effect (db : AuthDb) (c : OperationColumns) (db' : AuthDb) : Prop :=
  (creditGrants db' = creditGrants db /\ creditClaims db' = creditClaims db) \/
  (exists grantId,
     let grants := update_where (grant_is (oc_tenantId c) grantId) admit_one (creditGrants db) in
     creditGrants db' = grants /\
     forallb grant_check (List.filter (grant_is (oc_tenantId c) grantId) grants) = true /\
     (creditClaims db' = creditClaims db ++ [mkClaimRow (oc_tenantId c) (oc_authorizedOperationId c) grantId] /\
      (exists g, g ∈ creditGrants db /\ grant_is (oc_tenantId c) grantId g = true) \/
      creditClaims db' = creditClaims db /\
      exists cl, cl ∈ creditClaims db /\ cc_tenantId cl = oc_tenantId c /\
        cc_authorizedOperationId cl = oc_authorizedOperationId c)).

(** What a claim does to the quotas. *)
Definition quota_effect (db : AuthDb) (c : OperationColumns) (db' : AuthDb) : Prop :=
  (oc_quotaId c = None /\ quotas db' = quotas db) \/
  (oc_quotaKind c = "consume_reusable_wallet_session" /\ is_Some (oc_quotaId c) /\
   changes (quota_usable db c) (quotas db) = 1 /\
   quotas db' = update_where (quota_usable db c) use_quota (quotas db)).

Record claim_effect (db : AuthDb) (c : OperationColumns) (db' : AuthDb) : Prop := mkClaimEffect {
  ce_operations : operations db' = operations db ++ [claimed_row c];
  ce_audits : audits db' = audits db ++ [audit_of (claimed_row c)];
  ce_quotas : quota_effect db c db';
  ce_credits : credit_effect db c db';
  ce_sessions : sessions db' = sessions db;
  ce_new_id : existsb (same_id c) (operations db) = false;
  ce_new_fingerprint : existsb (with_fingerprint (oc_tenantId c) (oc_fingerprintDigest c)) (operations db) = false;
}.

Lemma run_before_none triggers db c t : run_before triggers db c = None -> t ∈ triggers -> t db c = None.
Proof.
  induction triggers as [|u triggers IH]; simpl; [set_solver|].
  destruct (u db c) eqn:E; [done|]. intros H [->|Ht]%elem_of_cons; auto.
Qed.

Lemma constraints_none db r : constraints db r = None ->
  columns_check (op_columns r) = true /\ existsb (same_id (op_columns r)) (operations db) = false /\
  existsb (with_fingerprint (oc_tenantId (op_columns r)) (oc_fingerprintDigest (op_columns r))) (operations db) = false.
Proof.
  unfold constraints. destruct (negb _) eqn:E; [done|]. destruct (existsb (same_id _) _); [done|].
  destruct (existsb _ _); [done|]. by conditions.
Qed.

(** A row that uses no quota has none, and a row that uses one names it. *)
Lemma columns_quota c : columns_check c = true ->
  (oc_quotaId c = None /\ same (oc_quotaKind c) "consume_reusable_wallet_session" = false) \/
  (oc_quotaKind c = "consume_reusable_wallet_session" /\ is_Some (oc_quotaId c) /\ oc_sourceKind c = "authorization_grant").
Proof.
  unfold columns_check. intros [[_ Hk]%andb_true_iff Hq]%andb_true_iff.
  destruct (same (oc_quotaKind c) "consume_reusable_wallet_session") eqn:E.
  - right. conditions. rewrite E in *. simpl in *. rewrite orb_false_r in *. by conditions.
  - left. split; [|done]. simpl in Hq. by conditions.
Qed.

Lemma grant_shape db c : authorized_operation_grant_shape_guard db c = None -> oc_sourceKind c = "authorization_grant" ->
  same (oc_sourceKind c) "authorization_grant" && sql_eq (oc_grantKind c) "wallet_session_authorization" = true.
Proof.
  intros H E. unfold authorized_operation_grant_shape_guard in H. rewrite E in *. simpl in H.
  destruct (sql_eq (oc_grantKind c) "wallet_session_authorization"); [done|]. by simpl in H.
Qed.

Lemma credit_trigger_effect db r db' : wallet_signing_credit_admission db (op_columns r) = None ->
  wallet_signing_credit_claim db r = inr db' ->
  exists grants claims, db' = set_credits grants claims db /\ credit_effect db (op_columns r) db'.
Proof.
  unfold wallet_signing_credit_admission, wallet_signing_credit_claim. set (c := op_columns r).
  assert (exists grants claims, db = set_credits grants claims db /\ credit_effect db c db) as Hnone.
  { exists (creditGrants db), (creditClaims db). split; [by destruct db|by left]. }
  destruct (negb (is_signature _)); [by intros _ [= <-]|].
  destruct (cp_mode <$> policy_of db c) as [[|grantId|]|].
  2: { destruct (existsb _ (creditGrants db)) eqn:Eg; [|done]. intros _.
    destruct (existsb _ (creditClaims db)); [done|]. destruct (negb (forallb _ _)) eqn:E; [done|]. intros [= <-].
    do 2 eexists. split; [done|]. right. exists grantId. apply existsb_some in Eg as (g & Hg & Hgr). conditions.
    split_and!; [done|done|left]. eauto. }
  all: intros Hadm; try done; clear Hadm.
  all: destruct (List.find _ (creditClaims db)) as [cl|] eqn:Ef; [|by intros [= <-]].
  all: apply find_elem in Ef as [Hin Hcl]; destruct (negb (forallb _ _)) eqn:E; [done|]; intros [= <-].
  all: do 2 eexists; (split; [done|]); right; exists (cc_grantId cl); conditions; split_and!; [done|done|right].
  all: by split; [|exists cl].
Qed.

Lemma quota_trigger_effect db r db' : columns_check (op_columns r) = true ->
  authorized_operation_grant_shape_guard db (op_columns r) = None ->
  authorized_operation_owner_grant_claim_atomic db r = inr db' ->
  exists l, db' = set_quotas l db /\ quota_effect db (op_columns r) db'.
Proof.
  set (c := op_columns r). intros Hc Hg. unfold authorized_operation_owner_grant_claim_atomic. fold c.
  destruct (columns_quota c Hc) as [[Hn Hk]|(Hk & Hs & Hgrant)].
  - assert (update_where (quota_usable db c) use_quota (quotas db) = quotas db) as Hu.
    { apply update_where_none. intros q _. unfold quota_usable. by rewrite Hk. }
    destruct (negb _); [|destruct (negb _); [done|]; rewrite Hk; simpl; rewrite Hu]; intros [= <-]; exists (quotas db);
      (split; [by destruct db|]); by left.
  - rewrite (grant_shape _ _ Hg Hgrant). simpl. destruct (negb _); [done|]. rewrite Hk. simpl.
    destruct (changes _ _ =? 1) eqn:E; [|done]. intros [= <-]. eexists. split; [done|]. right.
    apply Z.eqb_eq in E. by split_and!.
Qed.

(** *** The effect of a claim *)
Lemma insert_effect dbNow c db db' : insert_operation dbNow c db = inr db' -> claim_effect db c db'.
Proof.
  unfold insert_operation. fold (claimed_row c). destruct (run_before _ _ _) eqn:Hb; [done|].
  destruct (constraints _ _) eqn:Hc; [done|]. apply constraints_none in Hc as (Hcheck & Hid & Hfp).
  pose proof (run_before_none _ _ _ authorized_operation_grant_shape_guard Hb) as Hg.
  set (db0 := set_operations _ db). simpl.
  destruct (wallet_signing_credit_claim db0 (claimed_row c)) as [|db1] eqn:E1; [done|].
  apply credit_trigger_effect in E1 as (grants & claims & -> & Hcredit);
    [|apply (run_before_none _ _ _ wallet_signing_credit_admission Hb); set_solver].
  destruct (authorized_operation_owner_grant_claim_atomic _ _) as [|db2] eqn:E2; [done|].
  apply quota_trigger_effect in E2 as (l & -> & Hquota); [|done|by apply Hg; set_solver].
  destruct (authorized_operation_step_up_claim_atomic _ _ _) as [|db3] eqn:E3; [done|].
  assert (db3 = set_quotas l (set_credits grants claims db0)) as ->.
  { revert E3. unfold authorized_operation_step_up_claim_atomic. repeat case_match; intros E; [by apply inr_inj in E..|done]. }
  destruct (authorized_operation_audit_claim _ _) as [|db4] eqn:E4; [done|]. intros [= <-].
  unfold authorized_operation_audit_claim in E4. destruct (negb _); [done|]. do 2 (destruct (bool_decide _); [done|]).
  injection E4 as <-. by split.
Qed.

(** ** A completion *)

Definition complete_row (outcome : OutcomeColumns) (r : OperationRow) : OperationRow := mkOperationRow (op_columns r) outcome.

Definition complete_audit (outcome : OutcomeColumns) (a : AuditRow) : AuditRow :=
  mkAuditRow (au_tenantId a) (au_auditEventId a) (au_authorizedOperationId a) (au_fingerprintDigest a) (au_sourceKind a)
    (au_authorizationId a) (au_grantKind a) (au_evidenceSetDigest a) (au_quotaId a) (au_material a) (au_ownerScope a)
    (oc_resultKind outcome) (au_claimedAtMs a) (oc_completedAtMs outcome).

Definition audit_is (tenantId authorizedOperationId : string) (a : AuditRow) : bool :=
  bool_decide (audit_operation a = (tenantId, authorizedOperationId)).

Record completion_effect (tenantId authorizedOperationId fingerprint : string) (outcome : OutcomeColumns)
    (db db' : AuthDb) : Prop := mkCompletionEffect {
  co_row : exists r, r ∈ operations db /\ completable tenantId authorizedOperationId fingerprint r = true;
  co_check : outcome_check outcome = true;
  co_operations : operations db' =
    update_where (completable tenantId authorizedOperationId fingerprint) (complete_row outcome) (operations db);
  co_audits : audits db' = update_where (audit_is tenantId authorizedOperationId) (complete_audit outcome) (audits db);
  co_quotas : quotas db' = quotas db;
  co_sessions : sessions db' = sessions db;
  co_grants : creditGrants db' = creditGrants db;
  co_claims : creditClaims db' = creditClaims db;
}.

Lemma completion_record_frame db r : exists l, wallet_signature_completion_record db r = set_completions l db.
Proof.
  unfold wallet_signature_completion_record. cbv zeta. case_match; [by eexists|]. exists (completions db). by destruct db.
Qed.

Lemma complete_cases tenantId authorizedOperationId fingerprint outcome db db' row :
  complete_operation tenantId authorizedOperationId fingerprint outcome db = inr (db', row) ->
  (row = None /\ db' = db /\
   forall r, r ∈ operations db -> completable tenantId authorizedOperationId fingerprint r = false) \/
  (completion_effect tenantId authorizedOperationId fingerprint outcome db db' /\
   exists r, row = Some (complete_row outcome r) /\ r ∈ operations db /\
     completable tenantId authorizedOperationId fingerprint r = true).
Proof.
  unfold complete_operation. destruct (List.find _ _) as [r|] eqn:Ef.
  2: { intros [= <- <-]. left. split_and!; [done|done|]. by apply find_none_elem. }
  apply find_elem in Ef as [Hin Hr]. destruct (negb _) eqn:Hc; [done|].
  destruct (completion_record_frame (set_operations (update_where (completable tenantId authorizedOperationId fingerprint)
    (complete_row outcome) (operations db)) db) (complete_row outcome r)) as [l Hl].
  change (mkOperationRow (op_columns r) outcome) with (complete_row outcome r).
  change (fun r0 => mkOperationRow (op_columns r0) outcome) with (complete_row outcome). rewrite Hl.
  assert (oc_tenantId (op_columns r) = tenantId /\ oc_authorizedOperationId (op_columns r) = authorizedOperationId) as [Ht Hi].
  { unfold completable in Hr. by conditions. }
  unfold authorized_operation_audit_complete. simpl. rewrite Ht, Hi. fold (audit_is tenantId authorizedOperationId).
  destruct (existsb _ (audits db)); [done|]. destruct (changes _ _ =? 1); [|done]. cbn [negb]. intros [= <- <-]. right.
  conditions. split; [split|]; eauto.
Qed.

(** ** Sessions that end *)

(** The sessions that [ended] selects are retired, and their quotas have no use left. *)
Record ending (tenantId : string) (nowMs : Z) (ended : SessionRow -> bool) (db : AuthDb) (qs : list QuotaRow)
    (ss : list SessionRow) : Prop := mkEnding {
  en_quotas : exists p, qs = update_where p exhaust_quota (quotas db) /\
    (forall q, p q = true -> quota_of_selected tenantId ended db q = true) /\
    (forall q, q ∈ quotas db -> quota_of_selected tenantId ended db q = true -> p q = true \/ qr_lifecycle q <> QuotaActive);
  en_sessions : ss = update_where ended (retire_session nowMs) (sessions db);
}.

(** A batch leaves the operations and the credits alone. *)
Definition same_claims (db db' : AuthDb) : Prop :=
  operations db' = operations db /\ audits db' = audits db /\ creditGrants db' = creditGrants db /\
  creditClaims db' = creditClaims db.

Lemma run_statements_cons s statements db db' ns : run_auth_statements (s :: statements) db = inr (db', ns) ->
  exists db1 n ns', s db = inr (db1, n) /\ run_auth_statements statements db1 = inr (db', ns') /\ ns = n :: ns'.
Proof.
  simpl. destruct (s db) as [|[db1 n]]; [done|]. destruct (run_auth_statements statements db1) as [|[db2 ns']] eqn:E; [done|].
  intros [= <- <-]. by exists db1, n, ns'.
Qed.

(** *** Retirement *)
Lemma retirement_effect scope tenantId nowMs selected db db' ns :
  (forall db0, around db0 = around db -> selected db0 = selected db) ->
  run_auth_statements (retirement_statements scope tenantId nowMs selected) db = inr (db', ns) ->
  ending tenantId nowMs (selected db) db (quotas db') (sessions db') /\ same_claims db db'.
Proof.
  intros Hs. unfold retirement_statements.
  intros (db1 & n1 & ns1 & [= <- <-] & H & ->)%run_statements_cons.
  apply run_statements_cons in H as (db2 & n2 & ns2 & [= <- <-] & H & ->).
  apply run_statements_cons in H as (db3 & n3 & ns3 & [= <- <-] & H & ->).
  apply run_statements_cons in H as (db4 & n4 & ns4 & [= <- <-] & H & ->). injection H as <- <-.
  split; [|done]. split.
  - eexists. split; [done|]. split.
    + by intros q [_ Hq]%andb_true_iff.
    + intros q _ Hq. simpl. rewrite Hq, andb_true_r. destruct (decide (qr_lifecycle q = QuotaActive)); [left|by right].
      by apply bool_decide_eq_true.
  - simpl. by rewrite Hs.
Qed.

(** *** Issuance *)

Definition quota_key (q : QuotaRow) : string * string := (qr_tenantId q, qr_quotaId q).
Definition session_key (s : SessionRow) : SessionIdentity * string := (sr_identity s, sr_mintId s).

Lemma existsb_map_ext {A B} (g : A -> B) (p : B -> bool) (f : A -> bool) l l' :
  (forall x, f x = p (g x)) -> map g l = map g l' -> existsb f l = existsb f l'.
Proof.
  intros Hf. revert l'. induction l as [|x l IH]; intros [|y l']; try done. simpl. intros [= Hx Hl].
  by rewrite !Hf, Hx, (IH l').
Qed.

(** What is available depends on the keys of the quotas and sessions. *)
Lemma session_available_ext candidate db db' : around db' = around db -> generations db' = generations db ->
  map session_key (sessions db') = map session_key (sessions db) ->
  session_identity_available candidate db' = session_identity_available candidate db.
Proof.
  intros Ha Hg Hs. unfold session_identity_available, authority_current, method_active. rewrite Ha, Hg. f_equal. f_equal.
  apply (existsb_map_ext session_key (fun '(e, mint) => let i := sr_identity candidate in
    same_tenant e i && (same (si_authorizationId e) (si_authorizationId i) || same mint (sr_mintId candidate) ||
      same (si_walletSessionId e) (si_walletSessionId i) || same (si_quotaId e) (si_quotaId i)))); done.
Qed.

Lemma available_ext candidate db db' : around db' = around db -> generations db' = generations db ->
  map session_key (sessions db') = map session_key (sessions db) -> map quota_key (quotas db') = map quota_key (quotas db) ->
  identity_available candidate db' = identity_available candidate db.
Proof.
  intros Ha Hg Hs Hq. unfold identity_available. rewrite (session_available_ext _ db db') by done. f_equal. f_equal.
  apply (existsb_map_ext quota_key (fun '(t, q) => same t (si_tenantId (sr_identity candidate)) &&
    same q (si_quotaId (sr_identity candidate)))); done.
Qed.

Lemma quota_of_selected_and tenantId (p : SessionRow -> bool) b db q :
  quota_of_selected tenantId (fun s => p s && b) db q = quota_of_selected tenantId p db q && b.
Proof.
  unfold quota_of_selected. rewrite <- andb_assoc. f_equal. destruct b.
  - rewrite andb_true_r. apply existsb_pointwise. intros s. by rewrite andb_true_r.
  - rewrite andb_false_r. apply existsb_none. intros s _. by rewrite andb_false_r.
Qed.

(** What an issuance can count on: a quota that shares an identifier with the new one
    belongs to a session of this scope that does too. *)
Definition no_foreign_quota (candidate : SessionRow) (db : AuthDb) : Prop :=
  let i := sr_identity candidate in
  forall q, q ∈ quotas db -> qr_tenantId q = si_tenantId i ->
    qr_quotaId q = si_quotaId i \/ qr_walletSessionId q = si_walletSessionId i ->
    exists s, s ∈ sessions db /\ same_tenant (sr_identity s) i = true /\
      (si_quotaId (sr_identity s) = si_quotaId i \/ si_walletSessionId (sr_identity s) = si_walletSessionId i).

(** And a credential hash that no session of another mint has. *)
Definition fresh_credential (candidate : SessionRow) (db : AuthDb) : Prop :=
  forall s, s ∈ sessions db -> same_tenant (sr_identity s) (sr_identity candidate) = true ->
    sr_credentialHash s = sr_credentialHash candidate -> sr_mintId s = sr_mintId candidate.

(** Every identifier of an available session is new in its scope. *)
Lemma available_new candidate db s : session_identity_available candidate db = true -> s ∈ sessions db ->
  same_tenant (sr_identity s) (sr_identity candidate) = true ->
  si_authorizationId (sr_identity s) <> si_authorizationId (sr_identity candidate) /\ sr_mintId s <> sr_mintId candidate /\
  si_walletSessionId (sr_identity s) <> si_walletSessionId (sr_identity candidate) /\
  si_quotaId (sr_identity s) <> si_quotaId (sr_identity candidate).
Proof.
  unfold session_identity_available. cbv zeta. intros [_ Hn%negb_true_iff]%andb_true_iff Hs Ht.
  pose proof (proj1 (existsb_none _ _) Hn s Hs) as H. simpl in H. rewrite Ht in H. simpl in H.
  repeat apply orb_false_iff in H as [H ?]. unfold same in *. by conditions.
Qed.

(** No quota stands in the way of the quota of an available session. *)
Lemma available_quota candidate db q : no_foreign_quota candidate db -> session_identity_available candidate db = true ->
  q ∈ quotas db -> qr_tenantId q = si_tenantId (sr_identity candidate) ->
  qr_quotaId q <> si_quotaId (sr_identity candidate) /\ qr_walletSessionId q <> si_walletSessionId (sr_identity candidate).
Proof.
  intros Hf Ha Hq Ht. split; intros E; (destruct (Hf q Hq Ht) as (s & Hs & Hst & Hsame); [eauto|]);
    destruct (available_new _ _ _ Ha Hs Hst) as (_ & _ & ? & ?); naive_solver.
Qed.

Lemma available_identity candidate db : no_foreign_quota candidate db ->
  identity_available candidate db = session_identity_available candidate db.
Proof.
  intros Hf. unfold identity_available. destruct (session_identity_available candidate db) eqn:E; [|done]. simpl.
  apply negb_true_iff, existsb_none. intros q Hq. apply not_true_iff_false. intros H. conditions.
  by destruct (available_quota _ _ _ Hf E Hq).
Qed.

Definition issued (scope : WalletScope) (p : PersistedActiveWalletSession) (db db' : AuthDb) : Prop :=
  let candidate := session_row scope p in
  session_identity_available candidate db = true /\
  exists qs ss, ending (tenantId (ps_session p)) (createdAtMs (ps_session p)) (predecessor candidate) db qs ss /\
    quotas db' = qs ++ [quota_row (ps_quota p)] /\ sessions db' = ss ++ [candidate].

Lemma update_where_ext {A} (p p' : A -> bool) (f : A -> A) l : (forall x, p x = p' x) -> update_where p f l = update_where p' f l.
Proof. intros H. unfold update_where. apply map_ext. intros x. by rewrite H. Qed.

Section Issuance.
Context (scope : WalletScope) (p : PersistedActiveWalletSession).
Notation candidate := (session_row scope p).
Notation tenant := (tenantId (ps_session p)).
Notation now := (createdAtMs (ps_session p)).

(** The database after the four statements that end the sessions before. *)
Lemma predecessors_end db db' ns : run_auth_statements (prepareDirectWalletSessionAuthorizationV2Statements scope p) db = inr (db', ns) ->
  exists db1 n5 db2 n6 ns4, ending tenant now (fun s => predecessor candidate s && identity_available candidate db) db (quotas db1) (sessions db1) /\
    same_claims db db1 /\ around db1 = around db /\ generations db1 = generations db /\
    quota_insert candidate (ps_quota p) db1 = inr (db2, n5) /\ session_insert candidate (ps_quota p) db2 = inr (db', n6) /\
    length ns4 = 4%nat /\ ns = ns4 ++ [n5; n6].
Proof.
  unfold prepareDirectWalletSessionAuthorizationV2Statements.
  intros (db1 & n1 & ns1 & [= <- <-] & H & ->)%run_statements_cons.
  apply run_statements_cons in H as (db2 & n2 & ns2 & [= <- <-] & H & ->).
  apply run_statements_cons in H as (db3 & n3 & ns3 & [= <- <-] & H & ->).
  apply run_statements_cons in H as (db4 & n4 & ns4 & [= <- <-] & H & ->).
  apply run_statements_cons in H as (db5 & n5 & ns5 & H5 & H & ->).
  apply run_statements_cons in H as (db6 & n6 & ns6 & H6 & H & ->). injection H as <- <-.
  do 4 eexists. eexists [_; _; _; _]. split; [|split; [|split; [|split; [|split; [exact H5|split; [exact H6|done]]]]]]; [|done..].
  split.
  - exists (fun q => quota_of_selected tenant (fun s => predecessor candidate s && identity_available candidate db) db q).
    split; [|split; [done|by left]]. simpl. apply update_where_ext. intros q. by rewrite quota_of_selected_and.
  - simpl. apply update_where_ext. intros s. f_equal. apply available_ext; try done. simpl. by apply map_update_where.
Qed.

(** The constraints of the row of a session that was built. *)
Lemma built_session_check : session_wf (ps_session p) -> is_digest (ps_credentialDigest p) = true ->
  forallb nonempty [orgId scope; projectId scope; envId scope] = true -> session_check candidate = true.
Proof.
  intros [Hids Hw Ha Hm Hd He [Hs _] Ht Hn] Hc Hsc.
  assert (forall s, opaque_id s = true -> nonempty s = true) as Ho by (unfold opaque_id; intros s Hs'; by conditions).
  assert (nonempty (walletId (ps_session p)) = true) as Hw'.
  { revert Hw. unfold parseWalletId. destruct (parseDomainId _ _) as [w|] eqn:E; [|done]. apply parsed_domain_id in E.
    destruct (hasWhitespaceOrControlCharacters w); [done|]. intros [= <-]. unfold domain_id in E. by conditions. }
  assert (forall s, domain_id s = true -> nonempty s = true) as Hdom by (unfold domain_id; intros s Hs'; by conditions).
  repeat (apply Forall_cons_1 in Hids as [?%Ho Hids]). apply Hdom in Ha, Hm. apply digest_opaque, Ho in Hd, Hc.
  unfold session_check, session_row, session_identity. simpl in Hsc |- *. conditions.
  repeat match goal with H : nonempty _ = true |- _ => rewrite H; clear H end. simpl.
  rewrite !NoDup_cons, !not_elem_of_cons in Hn. destruct Hn as ((? & ? & _) & (? & _) & _).
  unfold same. rewrite !bool_decide_eq_false_2 by done. simpl.
  destruct (capabilitySubjects (ps_session p)); [done|]. simpl. rewrite andb_true_r. lia.
Qed.

(** The quota of an available session is inserted, and no other. *)
Lemma quota_insert_cases db db' n : 0 < aq_remainingUses (ps_quota p) -> quota_of_session (ps_session p) (ps_quota p) = true ->
  no_foreign_quota candidate db -> quota_insert candidate (ps_quota p) db = inr (db', n) ->
  if session_identity_available candidate db then n = 1 /\ db' = set_quotas (quotas db ++ [quota_row (ps_quota p)]) db
  else n = 0 /\ db' = db.
Proof.
  intros Hn Hq Hf. unfold quota_insert. rewrite available_identity by done.
  destruct (session_identity_available candidate db) eqn:E; [|by intros [= <- <-]]. cbn [andb].
  rewrite (proj2 (existsb_none _ _)).
  - cbn [negb andb]. rewrite (proj2 (Z.ltb_lt _ _) Hn). by intros [= <- <-].
  - intros q Hin. apply not_true_iff_false. intros [Ht H]%andb_true_iff. unfold quota_of_session in Hq. conditions.
    destruct (available_quota _ _ q Hf E Hin) as [Hq1 Hq2]; [simpl; congruence|]. simpl in *.
    apply orb_true_iff in H as [?%same_spec|?%same_spec]; congruence.
Qed.

Lemma quota_row_found q l : existsb (fun e => same (qr_tenantId e) (aq_tenantId q) && same (qr_quotaId e) (aq_quotaId q) &&
    same (qr_walletSessionId e) (aq_walletSessionId q) && same (qr_principalId e) (aq_principalId q) &&
    (qr_remainingUses e =? aq_remainingUses q) && bool_decide (qr_lifecycle e = QuotaActive) &&
    (qr_expiresAtMs e =? aq_expiresAtMs q)) (l ++ [quota_row q]) = true.
Proof.
  apply existsb_some. exists (quota_row q). split; [set_solver|]. simpl. unfold same. by rewrite !bool_decide_eq_true_2, !Z.eqb_refl.
Qed.

(** Where the sessions before have ended, no row stands in the way of the new one. *)
Lemma ended_no_conflict t qs ss ended db db1 : fresh_credential candidate db ->
  session_identity_available candidate db = true -> (forall s, predecessor candidate s = true -> ended s = true) ->
  ending t now ended db qs ss -> sessions db1 = ss -> existsb (session_conflicts candidate) (sessions db1) = false.
Proof.
  intros Hf Ha Hp [_ Hss] ->. apply existsb_none. intros s1 Hs1. rewrite Hss in Hs1.
  apply elem_update_where in Hs1 as (s & Hs & ->). apply not_true_iff_false. unfold session_conflicts.
  assert (sr_identity (if ended s then retire_session now s else s) = sr_identity s) as -> by by destruct (ended s).
  assert (sr_mintId (if ended s then retire_session now s else s) = sr_mintId s) as -> by by destruct (ended s).
  assert (sr_credentialHash (if ended s then retire_session now s else s) = sr_credentialHash s) as -> by by destruct (ended s).
  intros [Ht H]%andb_true_iff. destruct (available_new _ _ _ Ha Hs Ht) as (? & Hm & ? & ?).
  repeat (apply orb_true_iff in H as [H|H]); conditions; try congruence.
  - by apply Hm, Hf.
  - assert (predecessor candidate s = true) as Hpred.
    { destruct (ended s) eqn:E; [done|]. unfold predecessor. rewrite Ht. unfold same.
      rewrite (bool_decide_eq_false_2 (sr_mintId s = _)) by done. by rewrite !bool_decide_eq_true_2. }
    rewrite (Hp _ Hpred) in *. done.
Qed.

Lemma session_insert_cases db db' n l : session_check candidate = true -> quotas db = l ++ [quota_row (ps_quota p)] ->
  session_identity_available candidate db = true -> existsb (session_conflicts candidate) (sessions db) = false ->
  session_insert candidate (ps_quota p) db = inr (db', n) ->
  n = 1 /\ db' = set_sessions (sessions db ++ [candidate]) db.
Proof.
  intros Hc Hq Ha Hno. unfold session_insert. rewrite Ha, Hq, quota_row_found, Hc, Hno. simpl.
  destruct (existsb _ (generations db)); [done|]. by intros [= <- <-].
Qed.

Lemma ending_no_foreign t ended db db1 : ending t now ended db (quotas db1) (sessions db1) ->
  no_foreign_quota candidate db -> no_foreign_quota candidate db1.
Proof.
  intros [(f & Hq & _) Hs] Hf q Hin Ht Hsame. rewrite Hq in Hin. apply elem_update_where in Hin as (q0 & Hin & ->).
  destruct (Hf q0) as (s & Hs0 & Hst & Hk); [done|by destruct (f q0)|by destruct (f q0)|].
  exists (if ended s then retire_session now s else s). rewrite Hs. split; [apply elem_update_where; eauto|].
  by destruct (ended s).
Qed.

Lemma nothing_ended t ended db qs ss : (forall s, ended s = false) -> ending t now ended db qs ss ->
  qs = quotas db /\ ss = sessions db.
Proof.
  intros Hn [(f & -> & Hp & _) ->]. split; apply update_where_none; [|by intros s _].
  intros q _. apply not_true_iff_false. intros H%Hp. unfold quota_of_selected in H. apply andb_true_iff in H as [_ H].
  apply existsb_some in H as (s & _ & H). by rewrite Hn in H.
Qed.

Lemma ending_ext t ended ended' db qs ss : (forall s, ended s = ended' s) -> ending t now ended db qs ss ->
  ending t now ended' db qs ss.
Proof.
  intros H [(f & Hq & H1 & H2) Hs]. assert (forall q, quota_of_selected t ended db q = quota_of_selected t ended' db q) as Hqs.
  { intros q. unfold quota_of_selected. f_equal. apply existsb_pointwise. intros s. by rewrite H. }
  setoid_rewrite Hqs in H1. setoid_rewrite Hqs in H2. split; [by exists f|]. rewrite Hs. by apply update_where_ext.
Qed.

(** *** The effect of an issuance *)
Lemma issuance_effect db db' ns : no_foreign_quota candidate db -> fresh_credential candidate db -> session_check candidate = true ->
  quota_of_session (ps_session p) (ps_quota p) = true -> 0 < aq_remainingUses (ps_quota p) ->
  run_auth_statements (prepareDirectWalletSessionAuthorizationV2Statements scope p) db = inr (db', ns) ->
  same_claims db db' /\
  ((ns !!! 5%nat = 0 /\ quotas db' = quotas db /\ sessions db' = sessions db) \/
   (ns !!! 5%nat = 1 /\ issued scope p db db')).
Proof.
  intros Hf Hfresh Hcheck Hq Hn (db1 & n5 & db2 & n6 & ns4 & He & Hc & Ha & Hg & H5 & H6 & Hl & ->)%predecessors_end.
  rewrite lookup_total_app_r, Hl by lia. simpl.
  assert (session_identity_available candidate db1 = session_identity_available candidate db) as Hs1.
  { apply session_available_ext; try done. rewrite (en_sessions _ _ _ _ _ _ He). by apply map_update_where. }
  apply quota_insert_cases in H5; [|done..|by eapply ending_no_foreign]. rewrite Hs1 in H5.
  rewrite available_identity in He by done.
  destruct (session_identity_available candidate db) eqn:E; destruct H5 as [-> ->].
  - assert (existsb (session_conflicts candidate) (sessions db1) = false) as Hno.
    { eapply (ended_no_conflict tenant (quotas db1) (sessions db1)); [done..| |exact He|done]. intros s Hs. simpl. by rewrite Hs. }
    destruct (session_insert_cases (set_quotas (quotas db1 ++ [quota_row (ps_quota p)]) db1) _ _ (quotas db1) Hcheck eq_refl Hs1 Hno H6)
      as [-> ->]. split; [done|]. right.
    split; [done|]. split; [done|]. exists (quotas db1), (sessions db1). split; [|done].
    eapply ending_ext; [|exact He]. intros s. simpl. by rewrite andb_true_r.
  - unfold session_insert in H6. rewrite Hs1 in H6. injection H6 as <- <-. split; [done|]. left. split; [done|].
    eapply nothing_ended; [|done]. intros s. apply andb_false_r.
Qed.
End Issuance.
