(* ===== verification/AuthorizationSystem.v ===== *)
(** * The authorization store over time

    The writes of the authorization store as steps on one database, in any order: claims,
    completions, issuances and retirements, each of them one statement or one batch and so
    one transaction, and the changes that other parts of the server make to the tables
    around them.  What every database that is reached satisfies. *)

From stdpp Require Import relations.
From S2P Require Import Prelude JsValues BitPacking VersionedRecords Capabilities AuthorizationDomain WalletSessionValues AuthorizationTables AuthorizedOperations WalletSessionIssuance AuthorizationWrites.
Local Open Scope Z_scope.
Local Open Scope js_scope.

(** ** Steps *)

Definition grant_key (g : CreditGrantRow) : string * string := (cg_tenantId g, cg_grantId g).

(** What the keys, the [CHECK] and the triggers of [wallet_signing_credit_grants] leave to
    the host that allocates credit: a grant stays, its capacity is fixed, and what was
    admitted is not taken back. *)
Definition grants_kept (gs gs' : list CreditGrantRow) : Prop :=
  NoDup (map grant_key gs') /\ Forall (fun g => grant_check g = true) gs' /\
  forall g, g ∈ gs -> exists g', g' ∈ gs' /\ grant_key g' = grant_key g /\ cg_capacity g' = cg_capacity g /\
    cg_admittedCount g <= cg_admittedCount g'.

(** A refresh writes the record and the subjects of a session. *)
Definition session_kept (s s' : SessionRow) : Prop :=
  sr_identity s' = sr_identity s /\ sr_mintId s' = sr_mintId s /\ sr_issuedAtMs s' = sr_issuedAtMs s /\
  sr_retiredAtMs s' = sr_retiredAtMs s.

(** What happens around the operations: authorities, methods, evidence, policies, signers,
    generations and hosted sessions change at will, and completions are delivered. *)
Record surroundings_change (db db' : AuthDb) : Prop := mkSurroundingsChange {
  su_operations : operations db' = operations db;
  su_audits : audits db' = audits db;
  su_quotas : quotas db' = quotas db;
  su_claims : creditClaims db' = creditClaims db;
  su_sessions : Forall2 session_kept (sessions db) (sessions db');
  su_grants : grants_kept (creditGrants db) (creditGrants db');
}.

(** A session that the service issues: it was built, it comes with its quota, the
    identifiers that were made for it name no session of another scope, and the digest of
    its credential, a hash of a random token, is that of no session of another mint. *)
Record issuable (scope : WalletScope) (p : PersistedActiveWalletSession) (db : AuthDb) : Prop := mkIssuable {
  is_wf : session_wf (ps_session p);
  is_credential : is_digest (ps_credentialDigest p) = true;
  is_scope : forallb nonempty [orgId scope; projectId scope; envId scope] = true;
  is_exact : requireExactPersisted p = Ok tt;
  is_numbers : require_issuance_numbers p = Ok tt;
  is_new : forall s, s ∈ sessions db -> si_tenantId (sr_identity s) = tenantId (ps_session p) ->
    si_quotaId (sr_identity s) = quotaId (ps_session p) \/ si_walletSessionId (sr_identity s) = walletSessionId (ps_session p) ->
    si_scope (sr_identity s) = scope;
  is_fresh : fresh_credential (session_row scope p) db;
}.

Inductive auth_step (db : AuthDb) : AuthDb -> Prop :=
| step_claim dbNow c db' : insert_operation dbNow c db = inr db' -> auth_step db db'
| step_complete tenantId operationId fingerprint result response resultDigest completedAtMs db' row :
    complete_operation tenantId operationId fingerprint (completed_outcome result response resultDigest completedAtMs) db
      = inr (db', row) -> auth_step db db'
| step_issue scope p db' ns : issuable scope p db ->
    run_auth_statements (prepareDirectWalletSessionAuthorizationV2Statements scope p) db = inr (db', ns) -> auth_step db db'
| step_retire_method scope tenantId walletId methodId nowMs statements db' ns :
    prepareRetireWalletSessionAuthorizationsForAuthMethod scope tenantId walletId methodId nowMs = Ok statements ->
    run_auth_statements statements db = inr (db', ns) -> auth_step db db'
| step_retire_authority scope tenantId walletId authorityId nowMs statements db' ns :
    prepareRetireWalletSessionAuthorizationsV2ForAuthority scope tenantId walletId authorityId nowMs = Ok statements ->
    run_auth_statements statements db = inr (db', ns) -> auth_step db db'
| step_surroundings db' : surroundings_change db db' -> auth_step db db'.

(** A new database: nothing was claimed or issued. *)
Definition new_db (db : AuthDb) : Prop :=
  operations db = [] /\ audits db = [] /\ quotas db = [] /\ sessions db = [] /\ creditClaims db = [] /\ creditGrants db = [].

Definition reachable (db : AuthDb) : Prop := exists db0, new_db db0 /\ rtc auth_step db0 db.

Lemma reachable_step db db' : reachable db -> auth_step db db' -> reachable db'.
Proof. intros (db0 & Hn & H) Hs. exists db0. split; [done|]. by eapply rtc_r. Qed.

Lemma reachable_steps db db' : reachable db -> rtc auth_step db db' -> reachable db'.
Proof. intros (db0 & Hn & H) Hs. exists db0. split; [done|]. by etrans. Qed.

(** ** What each step changes *)

(** A batch that ends sessions. *)
Definition ends_sessions (db db' : AuthDb) : Prop :=
  exists tenantId nowMs ended, (forall s, ended s = true -> si_tenantId (sr_identity s) = tenantId) /\
    ending tenantId nowMs ended db (quotas db') (sessions db') /\ same_claims db db'.

(** A batch that issues a session or finds that it cannot. *)
Definition issues_session (scope : WalletScope) (p : PersistedActiveWalletSession) (db db' : AuthDb) : Prop :=
  same_claims db db' /\ (quotas db' = quotas db /\ sessions db' = sessions db \/ issued scope p db db').

(** A quota row is of a session row. *)
Definition quota_of_row (q : QuotaRow) (s : SessionRow) : Prop :=
  quota_key q = (si_tenantId (sr_identity s), si_quotaId (sr_identity s)) /\
  qr_walletSessionId q = si_walletSessionId (sr_identity s).

Definition is_open (s : SessionRow) : bool := bool_decide (sr_retiredAtMs s = None).

(** What a session stands for: one authority and method of one wallet. *)
Definition slot (s : SessionRow) : WalletScope * string * string * string * string :=
  let i := sr_identity s in (si_scope i, si_tenantId i, si_walletId i, si_authorityId i, si_walletAuthMethodId i).

Record session_inv (qs : list QuotaRow) (ss : list SessionRow) : Prop := mkSessionInv {
  sv_keys : NoDup (map quota_key qs);
  sv_counts : forall q, q ∈ qs -> 0 <= qr_remainingUses q /\ (qr_lifecycle q = QuotaActive <-> 0 < qr_remainingUses q);
  sv_session : forall q, q ∈ qs -> exists s, s ∈ ss /\ quota_of_row q s;
  sv_retired : forall s q, s ∈ ss -> is_open s = false -> q ∈ qs ->
    quota_key q = (si_tenantId (sr_identity s), si_quotaId (sr_identity s)) -> qr_remainingUses q = 0;
  sv_open : NoDup (map slot (List.filter is_open ss));
}.

Lemma issuable_fields scope p db : issuable scope p db ->
  session_check (session_row scope p) = true /\ quota_of_session (ps_session p) (ps_quota p) = true /\
  0 < aq_remainingUses (ps_quota p).
Proof.
  intros [Hw Hc Hs He Hn _ _]. split; [by apply built_session_check|]. split.
  - unfold requireExactPersisted in He. destruct (quota_of_session _ _); [done|]. done.
  - unfold require_issuance_numbers in Hn. apply result_bind_ok in Hn as (? & _ & (n & Hn & _)%result_bind_ok).
    unfold requirePositiveInteger in Hn. apply result_bind_ok in Hn as (m & Hm & Hp). destruct (m <=? 0) eqn:E; [done|].
    unfold integerColumn in Hm. change (js_Number (JInt _)) with (NInt (aq_remainingUses (ps_quota p))) in Hm.
    simpl in Hm. destruct (is_safe_integer _); [|done]. injection Hm as <-. lia.
Qed.

Lemma issuable_no_foreign scope p db : issuable scope p db -> session_inv (quotas db) (sessions db) ->
  no_foreign_quota (session_row scope p) db.
Proof.
  intros Hi Hv q Hq Ht Hk. destruct (sv_session _ _ Hv q Hq) as (s & Hs & [Hkey Hw]). unfold quota_key in Hkey.
  injection Hkey as Hst Hsq. exists s. split; [done|]. simpl in *.
  assert (si_scope (sr_identity s) = scope) as Hsc.
  { apply (is_new _ _ _ Hi s Hs); [congruence|]. destruct Hk; [left|right]; congruence. }
  split; [|destruct Hk; [left|right]; congruence]. unfold same_tenant, same. simpl. rewrite Hsc, <- Hst, Ht.
  by rewrite !bool_decide_eq_true_2.
Qed.

(** *** The cases of a step *)
Lemma step_cases db db' : session_inv (quotas db) (sessions db) -> auth_step db db' ->
  (exists c, claim_effect db c db') \/
  (exists t id fp result response digest at_, completion_effect t id fp (completed_outcome result response digest at_) db db') \/
  ends_sessions db db' \/ (exists scope p, issuable scope p db /\ issues_session scope p db db') \/
  surroundings_change db db' \/ db' = db.
Proof.
  intros Hv. destruct 1 as [dbNow c db' H|t id fp result response digest at_ db' row H|scope p db' ns Hi H
    |scope t w m now sts db' ns H1 H|scope t w a now sts db' ns H1 H|db' H].
  - left. exists c. by eapply insert_effect.
  - apply complete_cases in H as [(_ & -> & _)|[H _]]; [naive_solver|]. right. left. eauto 10.
  - do 3 right. left. exists scope, p. split; [done|]. destruct (issuable_fields _ _ _ Hi) as (? & ? & ?).
    destruct (issuance_effect scope p db db' ns) as [Hc Hcases]; [by eapply issuable_no_foreign|exact (is_fresh _ _ _ Hi)|done..|].
    split; [done|]. destruct Hcases as [(_ & ? & ?)|[_ ?]]; [by left|by right].
  - right. right. left. unfold prepareRetireWalletSessionAuthorizationsForAuthMethod in H1.
    apply result_bind_ok in H1 as (z & _ & [= <-]). apply retirement_effect in H as [He Hc]; [|done].
    exists t, now, (fun s => open_session_of scope t w s && same (si_walletAuthMethodId (sr_identity s)) m).
    split; [|done]. intros s Hs. unfold open_session_of, in_tenant in Hs. by conditions.
  - right. right. left. unfold prepareRetireWalletSessionAuthorizationsV2ForAuthority in H1.
    apply result_bind_ok in H1 as (z & _ & [= <-]). apply retirement_effect in H as [He Hc]; [|by intros db0 ->].
    do 3 eexists. split; [|by split; [exact He|]]. intros s Hs. simpl in Hs. unfold open_session_of, in_tenant in Hs.
    by conditions.
  - naive_solver.
Qed.

(** ** Operations *)

Definition op_id (r : OperationRow) : string * string :=
  (oc_tenantId (op_columns r), oc_authorizedOperationId (op_columns r)).
Definition op_fingerprint (r : OperationRow) : string * string :=
  (oc_tenantId (op_columns r), oc_fingerprintDigest (op_columns r)).

Lemma same_id_spec c r : same_id c r = true <-> op_id r = (oc_tenantId c, oc_authorizedOperationId c).
Proof. unfold same_id, op_id. rewrite andb_true_iff, !same_spec. split; [by intros [-> ->]|by intros [= ? ?]]. Qed.

Lemma with_fingerprint_spec t fp r : with_fingerprint t fp r = true <-> op_fingerprint r = (t, fp).
Proof. unfold with_fingerprint, op_fingerprint. rewrite andb_true_iff, !same_spec. split; [by intros [-> ->]|by intros [= ? ?]]. Qed.

Record operations_inv (db : AuthDb) : Prop := mkOperationsInv {
  ov_ids : NoDup (map op_id (operations db));
  ov_fingerprints : NoDup (map op_fingerprint (operations db));
  ov_audits : audits db = map audit_of (operations db);
}.

Lemma nodup_snoc {A B} (g : A -> B) l x : (forall y, y ∈ l -> g y <> g x) -> NoDup (map g l) -> NoDup (map g (l ++ [x])).
Proof.
  intros H Hn. rewrite map_app. apply NoDup_app. split_and!; [done| |by apply NoDup_singleton].
  intros k (y & -> & Hy)%list_elem_of_fmap Hk. apply list_elem_of_singleton in Hk. by apply (H y).
Qed.

Lemma nodup_map_elem {A B} (g : A -> B) l x y : NoDup (map g l) -> x ∈ l -> y ∈ l -> g x = g y -> x = y.
Proof.
  induction l as [|z l IH]; simpl; [set_solver|]. intros [Hz Hn]%NoDup_cons Hx Hy E.
  apply elem_of_cons in Hx as [->|Hx], Hy as [->|Hy]; [done| | |auto].
  - exfalso. apply Hz. rewrite E. apply list_elem_of_fmap. eauto.
  - exfalso. apply Hz. rewrite <- E. apply list_elem_of_fmap. eauto.
Qed.

(** Completing a row and completing its event are one. *)
Lemma completed_audits t id fp outcome l : NoDup (map op_id l) ->
  (exists r, r ∈ l /\ completable t id fp r = true) ->
  map audit_of (update_where (completable t id fp) (complete_row outcome) l) =
  update_where (audit_is t id) (complete_audit outcome) (map audit_of l).
Proof.
  intros Hn (r0 & Hin & Hr0). unfold update_where. rewrite !map_map. apply map_ext_in. intros r Hr%list_elem_of_In.
  assert (op_id r0 = (t, id)) as Hid0 by (unfold completable in Hr0; unfold op_id; conditions; congruence).
  destruct (audit_is t id (audit_of r)) eqn:Ha.
  - assert (op_id r = (t, id)) as Hid by (unfold audit_is, audit_operation in Ha; by conditions).
    rewrite (nodup_map_elem op_id l r r0); [|done..|congruence]. by rewrite Hr0.
  - destruct (completable t id fp r) eqn:Hc; [|done]. unfold audit_is, audit_operation in Ha. unfold completable in Hc.
    conditions. simpl in Ha. congruence.
Qed.

Lemma operations_inv_step db db' : session_inv (quotas db) (sessions db) -> operations_inv db -> auth_step db db' ->
  operations_inv db'.
Proof.
  intros Hv [Hi Hf Ha] Hs. apply step_cases in Hs; [|done].
  destruct Hs as [(c & Hc)|[(t & id & fp & result & response & digest & at_ & Hc)|[(t & n & e & _ & _ & Hc)|
    [(scope & p & _ & Hc & _)|[Hc| ->]]]]]; [| | | | |done].
  - destruct Hc as [Ho Hau _ _ _ Hid Hfp]. split; rewrite Ho.
    + apply nodup_snoc; [|done]. intros r Hr E. pose proof (proj1 (existsb_none _ _) Hid r Hr) as Hno.
      apply not_true_iff_false in Hno. apply Hno. by apply same_id_spec.
    + apply nodup_snoc; [|done]. intros r Hr E. pose proof (proj1 (existsb_none _ _) Hfp r Hr) as Hno.
      apply not_true_iff_false in Hno. apply Hno. by apply with_fingerprint_spec.
    + by rewrite Hau, Ha, map_app.
  - destruct Hc as [Hr _ Ho Hau _ _ _ _]. split; rewrite Ho.
    + by rewrite map_update_where.
    + by rewrite map_update_where.
    + by rewrite completed_audits, Hau, Ha.
  - destruct Hc as (Ho & Hau & _). split; by rewrite ?Hau, Ho.
  - destruct Hc as (Ho & Hau & _). split; by rewrite ?Hau, Ho.
  - destruct Hc as [Ho Hau _ _ _ _]. split; by rewrite ?Hau, Ho.
Qed.

(** What an operation row can become: the columns stay, and a completed row is final. *)
Definition row_kept (r r' : OperationRow) : Prop :=
  op_columns r' = op_columns r /\ (same (oc_lifecycleKind (op_outcome r)) "claimed" = false -> r' = r).

Lemma rows_kept_step db db' : session_inv (quotas db) (sessions db) -> auth_step db db' ->
  forall r, r ∈ operations db -> exists r', r' ∈ operations db' /\ row_kept r r'.
Proof.
  intros Hv Hs r Hr. apply step_cases in Hs; [|done].
  destruct Hs as [(c & Hc)|[(t & id & fp & result & response & digest & at_ & Hc)|[(t & n & e & _ & _ & Hc)|
    [(scope & p & _ & Hc & _)|[Hc| ->]]]]]; [| | | | |by exists r].
  - exists r. rewrite (ce_operations _ _ _ Hc). split; [|done]. apply elem_of_app. by left.
  - set (f := completable t id fp). exists (if f r then complete_row (completed_outcome result response digest at_) r else r).
    rewrite (co_operations _ _ _ _ _ _ Hc). split; [apply elem_update_where; eauto|].
    destruct (f r) eqn:E; [|done]. split; [done|]. intros Hl. unfold f, completable in E. rewrite Hl in E.
    by rewrite andb_false_r in E.
  - exists r. destruct Hc as [-> _]. done.
  - exists r. destruct Hc as [-> _]. done.
  - exists r. rewrite (su_operations _ _ Hc). done.
Qed.

Lemma row_kept_trans r1 r2 r3 : row_kept r1 r2 -> row_kept r2 r3 -> row_kept r1 r3.
Proof. intros [E1 H1] [E2 H2]. split; [congruence|]. intros H. specialize (H1 H) as ->. auto. Qed.

(** ** Sessions and quotas *)

Lemma elem_filter {A} (p : A -> bool) l x : x ∈ List.filter p l <-> x ∈ l /\ p x = true.
Proof. by rewrite !list_elem_of_In, filter_In. Qed.

Lemma open_slots_sublist ended now l :
  map slot (List.filter is_open (update_where ended (retire_session now) l)) `sublist_of` map slot (List.filter is_open l).
Proof.
  unfold update_where. induction l as [|s l IH]; simpl; [done|].
  destruct (ended s); [|destruct (is_open s); simpl; [by constructor|done]].
  change (is_open (retire_session now s)) with false. cbv iota. destruct (is_open s); simpl; [by constructor|done].
Qed.

(** An ending leaves a sound state: what it retires has no use left. *)
Lemma ending_session_inv t now ended db qs ss : (forall s, ended s = true -> si_tenantId (sr_identity s) = t) ->
  ending t now ended db qs ss -> session_inv (quotas db) (sessions db) -> session_inv qs ss.
Proof.
  intros Ht [(p & -> & Hp & Hall) ->] [Hk Hc Hs Hr Ho]. split.
  - by rewrite map_update_where.
  - intros q (q0 & Hq0 & ->)%elem_update_where. destruct (p q0); [|by apply Hc]. simpl. split; [done|]. split; [done|lia].
  - intros q (q0 & Hq0 & ->)%elem_update_where. destruct (Hs q0 Hq0) as (s & Hin & Hof).
    exists (if ended s then retire_session now s else s). split; [apply elem_update_where; eauto|].
    by destruct (p q0), (ended s).
  - intros s q (s0 & Hs0 & ->)%elem_update_where Hopen (q0 & Hq0 & ->)%elem_update_where Hkey.
    destruct (p q0) eqn:Hpq; [done|].
    assert (quota_key q0 = (si_tenantId (sr_identity s0), si_quotaId (sr_identity s0))) as Hkey0 by by destruct (ended s0).
    destruct (ended s0) eqn:He; [|by eapply Hr].
    destruct (Hall q0 Hq0) as [?|Hl]; [|congruence|].
    + unfold quota_key in Hkey0. injection Hkey0 as E1 E2. unfold quota_of_selected.
      rewrite (proj2 (same_spec _ _)) by by rewrite E1, Ht. simpl. apply existsb_some. exists s0. split; [done|].
      by rewrite He, (proj2 (same_spec _ _)).
    + destruct (Hc q0 Hq0) as [Hn Hact]. destruct (decide (0 < qr_remainingUses q0)); [|lia]. tauto.
  - eapply sublist_NoDup; [|by apply open_slots_sublist]. exact Ho.
Qed.

Lemma issued_session_inv scope p db db' : issuable scope p db -> session_inv (quotas db) (sessions db) ->
  issued scope p db db' -> session_inv (quotas db') (sessions db').
Proof.
  intros Hi Hv (Ha & qs & ss & He & -> & ->). pose proof (issuable_no_foreign _ _ _ Hi Hv) as Hf.
  destruct (issuable_fields _ _ _ Hi) as (_ & Hq & Hn). unfold quota_of_session in Hq. conditions.
  set (candidate := session_row scope p) in *.
  assert (session_inv qs ss) as [Hk Hc Hs Hr Ho].
  { eapply ending_session_inv; [|exact He|exact Hv]. intros s Hp. unfold predecessor, same_tenant in Hp. by conditions. }
  destruct He as [(f & -> & _) ->].
  assert (forall q, q ∈ update_where f exhaust_quota (quotas db) -> quota_key q <> quota_key (quota_row (ps_quota p))) as Hnew.
  { intros q (q0 & Hq0 & ->)%elem_update_where E.
    assert (quota_key q0 = quota_key (quota_row (ps_quota p))) as [= E1 E2] by by destruct (f q0).
    simpl in *. destruct (available_quota candidate db q0 Hf Ha Hq0) as [Hno _]; simpl in *; congruence. }
  assert (forall s, s ∈ update_where (predecessor candidate) (retire_session (createdAtMs (ps_session p))) (sessions db) ->
    (si_tenantId (sr_identity s), si_quotaId (sr_identity s)) <> quota_key (quota_row (ps_quota p))) as Hnone.
  { intros s (s0 & Hs0 & ->)%elem_update_where E.
    assert ((si_tenantId (sr_identity s0), si_quotaId (sr_identity s0)) = quota_key (quota_row (ps_quota p)))
      as [= E1 E2] by by destruct (predecessor candidate s0).
    destruct (available_new candidate db s0) as (_ & _ & _ & Hno); [done|done| |simpl in *; congruence].
    unfold same_tenant. rewrite bool_decide_eq_true_2, (proj2 (same_spec _ _)); [done|simpl; congruence|].
    apply (is_new _ _ _ Hi); [done|congruence|left; congruence]. }
  split.
  - apply nodup_snoc; auto.
  - intros q [Hin| ->%list_elem_of_singleton]%elem_of_app; [auto|]. simpl. split; [lia|done].
  - intros q [Hin| ->%list_elem_of_singleton]%elem_of_app.
    + destruct (Hs q Hin) as (s & Hin' & Hof). exists s. split; [|done]. apply elem_of_app. by left.
    + exists candidate. split; [set_solver|]. unfold quota_of_row, quota_key. simpl. split; congruence.
  - intros s q [Hin| ->%list_elem_of_singleton]%elem_of_app Hopen [Hqin| ->%list_elem_of_singleton]%elem_of_app Hkey; try done.
    + by eapply Hr.
    + exfalso. by eapply Hnone.
  - rewrite List.filter_app. simpl. apply nodup_snoc; [|done].
    intros s [(s0 & Hs0 & ->)%elem_update_where Hop]%elem_filter E. destruct (predecessor candidate s0) eqn:Hp; [done|].
    unfold slot in E. injection E as E1 E2 E3 E4 E5.
    assert (same_tenant (sr_identity s0) (sr_identity candidate) = true) as Hst.
    { unfold same_tenant, same. simpl. by rewrite !bool_decide_eq_true_2. }
    destruct (available_new candidate db s0) as (_ & Hm & _); [done..|].
    apply not_true_iff_false in Hp. apply Hp. unfold predecessor. cbv zeta. rewrite Hst. unfold same in *. simpl.
    unfold is_open in Hop. rewrite !bool_decide_eq_true_2, (bool_decide_eq_false_2 (_ = mintId _)) by done. by rewrite Hop.
Qed.

(** Using a quota leaves its key. *)
Lemma claim_session_inv db c db' : claim_effect db c db' -> session_inv (quotas db) (sessions db) ->
  session_inv (quotas db') (sessions db').
Proof.
  intros [_ _ [[_ ->]|(_ & _ & _ & ->)] _ -> _ _] Hv; [done|]. destruct Hv as [Hk Hc Hs Hr Ho].
  assert (forall q, quota_usable db c q = true -> qr_lifecycle q = QuotaActive /\ 0 < qr_remainingUses q) as Hu.
  { intros q Hq. unfold quota_usable in Hq. conditions. split; [done|lia]. }
  split.
  - by rewrite map_update_where.
  - intros q (q0 & Hq0 & ->)%elem_update_where. destruct (quota_usable db c q0) eqn:E; [|auto].
    apply Hu in E as [_ Hpos]. simpl. destruct (Z.eqb_spec (qr_remainingUses q0) 1); split; try lia; split; try done; lia.
  - intros q (q0 & Hq0 & ->)%elem_update_where. destruct (Hs q0 Hq0) as (s & Hin & Hof). exists s. split; [done|].
    by destruct (quota_usable db c q0).
  - intros s q Hs0 Hopen (q0 & Hq0 & ->)%elem_update_where Hkey.
    assert (qr_remainingUses q0 = 0) as H0 by (eapply Hr; [done..|by destruct (quota_usable db c q0)]).
    destruct (quota_usable db c q0) eqn:E; [|done]. apply Hu in E. lia.
  - done.
Qed.

Lemma kept_sessions_inv qs ss ss' : Forall2 session_kept ss ss' -> session_inv qs ss -> session_inv qs ss'.
Proof.
  intros Hall [Hk Hc Hs Hr Ho]. split; [done|done| | |].
  - intros q Hq. destruct (Hs q Hq) as (s & Hin & Hof). apply list_elem_of_lookup in Hin as [i Hin].
    destruct (Forall2_lookup_l _ _ _ _ _ Hall Hin) as (s' & Hin' & Hi & _). exists s'.
    split; [by eapply list_elem_of_lookup_2|]. unfold quota_of_row. by rewrite Hi.
  - intros s' q Hin Hop Hq Hkey. apply list_elem_of_lookup in Hin as [i Hin].
    destruct (Forall2_lookup_r _ _ _ _ _ Hall Hin) as (s & Hin' & Hi & _ & _ & Hret). eapply Hr; [by eapply list_elem_of_lookup_2| |done|].
    + unfold is_open in *. by rewrite <- Hret.
    + by rewrite <- Hi.
  - replace (map slot (List.filter is_open ss')) with (map slot (List.filter is_open ss)); [done|].
    clear - Hall. induction Hall as [|s s' ss ss' (Hi & _ & _ & Hret) _ IH]; [done|]. simpl.
    replace (is_open s') with (is_open s) by (unfold is_open; by rewrite Hret).
    destruct (is_open s); simpl; [|done]. replace (slot s') with (slot s) by (unfold slot; by rewrite Hi). by f_equal.
Qed.

Lemma session_inv_step db db' : session_inv (quotas db) (sessions db) -> auth_step db db' ->
  session_inv (quotas db') (sessions db').
Proof.
  intros Hv Hs. apply step_cases in Hs; [|done].
  destruct Hs as [(c & Hc)|[(t & id & fp & result & response & digest & at_ & Hc)|[(t & n & e & Ht & He & Hc)|
    [(scope & p & Hi & _ & [[-> ->]|Hc])|[Hc| ->]]]]]; try done.
  - by eapply claim_session_inv.
  - by rewrite (co_quotas _ _ _ _ _ _ Hc), (co_sessions _ _ _ _ _ _ Hc).
  - by eapply ending_session_inv.
  - by eapply issued_session_inv.
  - rewrite (su_quotas _ _ Hc). eapply kept_sessions_inv; [exact (su_sessions _ _ Hc)|done].
Qed.

(** ** What quotas allow *)

(** The operations that used a quota. *)
Definition uses_quota (tenantId quotaId : string) (r : OperationRow) : bool :=
  same (oc_tenantId (op_columns r)) tenantId && sql_eq (oc_quotaId (op_columns r)) quotaId.

Definition uses (k : string * string) (db : AuthDb) : Z :=
  Z.of_nat (length (List.filter (uses_quota k.1 k.2) (operations db))).

Definition quotas_known (db : AuthDb) : Prop :=
  forall r k, r ∈ operations db -> oc_quotaId (op_columns r) = Some k ->
    exists q, q ∈ quotas db /\ quota_key q = (oc_tenantId (op_columns r), k).

(** A quota can only be used up: what a later operation uses is missing from what is left. *)
Definition quota_spent (db db' : AuthDb) : Prop :=
  forall q, q ∈ quotas db -> exists q', q' ∈ quotas db' /\ quota_key q' = quota_key q /\ 0 <= qr_remainingUses q' /\
    uses (quota_key q) db' + qr_remainingUses q' <= uses (quota_key q) db + qr_remainingUses q /\
    (qr_lifecycle q' = QuotaActive -> qr_lifecycle q = QuotaActive /\
     uses (quota_key q) db' + qr_remainingUses q' = uses (quota_key q) db + qr_remainingUses q).

Lemma uses_same_operations k db db' : map op_columns (operations db') = map op_columns (operations db) -> uses k db' = uses k db.
Proof.
  unfold uses. intros H. f_equal. revert H. generalize (operations db') as l. generalize (operations db) as m.
  induction m as [|r m IH]; intros [|r' l]; try done. simpl. intros [= Hr Hl]. replace (uses_quota k.1 k.2 r') with (uses_quota k.1 k.2 r) by (unfold uses_quota; by rewrite Hr).
  destruct (uses_quota _ _ r); simpl; [|by apply IH]. f_equal. by apply IH.
Qed.

Lemma spent_same db db' : (forall k, uses k db' = uses k db) -> session_inv (quotas db) (sessions db) ->
  (forall q, q ∈ quotas db -> exists q', q' ∈ quotas db' /\ quota_key q' = quota_key q /\
     (q' = q \/ qr_remainingUses q' = 0 /\ qr_lifecycle q' = QuotaExhausted)) -> quota_spent db db'.
Proof.
  intros Hu Hv H q Hq. destruct (H q Hq) as (q' & Hq' & Hkey & Hcase). exists q'. rewrite Hu.
  destruct (sv_counts _ _ Hv q Hq) as [Hn _]. destruct Hcase as [->|[-> Hl]]; split_and!; try done; try lia; by rewrite ?Hl.
Qed.

Lemma uses_claim k db db' c : operations db' = operations db ++ [claimed_row c] ->
  uses k db' = uses k db + (if uses_quota k.1 k.2 (claimed_row c) then 1 else 0).
Proof. unfold uses. intros ->. rewrite List.filter_app, length_app. simpl. destruct (uses_quota _ _ _); simpl; lia. Qed.

(** The one quota that a claim uses is the one it names. *)
Lemma claim_spent db c db' : claim_effect db c db' -> session_inv (quotas db) (sessions db) -> quota_spent db db'.
Proof.
  intros [Ho _ Hq _ _ _ _] Hv. destruct Hq as [[Hn Hq]|(Hk & Hs & Hone & Hq)].
  - intros q Hin. exists q. rewrite Hq, (uses_claim _ _ _ _ Ho). unfold uses_quota. simpl. rewrite Hn, andb_false_r.
    destruct (sv_counts _ _ Hv q Hin). split_and!; try done; try lia. intros ?. split; [done|lia].
  - apply changes_one in Hone as (q0 & Hin0 & Hu0). intros q Hin.
    exists (if quota_usable db c q then use_quota q else q). rewrite Hq, (uses_claim _ _ _ _ Ho).
    split; [apply elem_update_where; eauto|]. split; [by destruct (quota_usable db c q)|].
    assert (forall q', quota_usable db c q' = true -> uses_quota (quota_key q').1 (quota_key q').2 (claimed_row c) = true /\
      0 < qr_remainingUses q') as Hu.
    { intros q' Hq'. unfold quota_usable in Hq'. conditions. unfold uses_quota. simpl.
      rewrite (proj2 (same_spec _ _)), (proj2 (sql_eq_spec _ _)) by done. split; [done|lia]. }
    destruct (sv_counts _ _ Hv q Hin) as [Hpos _]. destruct (quota_usable db c q) eqn:E.
    + destruct (Hu q E) as [-> ?]. simpl. split_and!; try lia. intros _. split; [|lia].
      unfold quota_usable in E. by conditions.
    + assert (uses_quota (quota_key q).1 (quota_key q).2 (claimed_row c) = false) as ->;
        [|split_and!; try done; try lia; intros ?; split; [done|lia]].
      apply not_true_iff_false. intros Huse. destruct (Hu q0 Hu0) as [Huse0 _].
      assert (quota_key q = quota_key q0) as Ekey.
      { unfold uses_quota in Huse, Huse0. conditions. unfold quota_key in *. simpl in *. congruence. }
      by rewrite (nodup_map_elem quota_key _ q q0 (sv_keys _ _ Hv) Hin Hin0 Ekey), Hu0 in E.
Qed.

Lemma quota_spent_step db db' : session_inv (quotas db) (sessions db) -> auth_step db db' -> quota_spent db db'.
Proof.
  intros Hv Hs. apply step_cases in Hs; [|done].
  destruct Hs as [(c & Hc)|[(t & id & fp & result & response & digest & at_ & Hc)|[(t & n & e & Ht & He & Hc)|
    [(scope & p & Hi & Hsame & Hc)|[Hc| ->]]]]].
  - by eapply claim_spent.
  - apply spent_same; [|done|].
    + intros k. apply uses_same_operations. rewrite (co_operations _ _ _ _ _ _ Hc). by apply map_update_where.
    + rewrite (co_quotas _ _ _ _ _ _ Hc). eauto.
  - apply spent_same; [|done|].
    + intros k. apply uses_same_operations. by destruct Hc as [-> _].
    + destruct He as [(f & -> & _) _]. intros q Hq. exists (if f q then exhaust_quota q else q).
      split; [apply elem_update_where; eauto|]. destruct (f q); eauto.
  - apply spent_same; [|done|].
    + intros k. apply uses_same_operations. by destruct Hsame as [-> _].
    + destruct Hc as [[-> _]|(_ & qs & ss & [(f & -> & _) _] & -> & _)]; [eauto|].
      intros q Hq. exists (if f q then exhaust_quota q else q). split; [|destruct (f q); eauto].
      apply elem_of_app. left. apply elem_update_where. eauto.
  - apply spent_same; [|done|].
    + intros k. apply uses_same_operations. by rewrite (su_operations _ _ Hc).
    + rewrite (su_quotas _ _ Hc). eauto.
  - apply spent_same; [done|done|]. eauto.
Qed.

Lemma quota_spent_trans db1 db2 db3 : quota_spent db1 db2 -> quota_spent db2 db3 -> quota_spent db1 db3.
Proof.
  intros H1 H2 q Hq. destruct (H1 q Hq) as (q2 & Hq2 & K2 & N2 & L2 & A2).
  destruct (H2 q2 Hq2) as (q3 & Hq3 & K3 & N3 & L3 & A3). exists q3. rewrite K2 in L3, A3. rewrite K3, K2.
  split_and!; [done|done|done|lia|]. intros [Ha E]%A3. apply A2 in Ha as [Ha E2]. split; [done|lia].
Qed.

(** Every quota that an operation used is a row. *)
Lemma quotas_known_step db db' : session_inv (quotas db) (sessions db) -> quotas_known db -> auth_step db db' -> quotas_known db'.
Proof.
  intros Hv Hk Hs.
  assert (forall r k, r ∈ operations db -> oc_quotaId (op_columns r) = Some k ->
    exists q', q' ∈ quotas db' /\ quota_key q' = (oc_tenantId (op_columns r), k)) as Hold.
  { intros r k Hr E. destruct (Hk r k Hr E) as (q & Hq & Hkey).
    destruct (quota_spent_step _ _ Hv Hs q Hq) as (q' & Hq' & Hkey' & _). exists q'. by rewrite Hkey'. }
  apply step_cases in Hs; [|done].
  destruct Hs as [(c & Hc)|[(t & id & fp & result & response & digest & at_ & Hc)|[(t & n & e & _ & _ & [Ho _])|
    [(scope & p & _ & [Ho _] & _)|[Hc| ->]]]]]; intros r k Hr E.
  - rewrite (ce_operations _ _ _ Hc) in Hr. apply elem_of_app in Hr as [Hr|Hr]; [eauto|].
    apply list_elem_of_singleton in Hr as ->. simpl in E.
    destruct (ce_quotas _ _ _ Hc) as [[Hn _]|(_ & _ & (q & Hq & Hu)%changes_one & Hqs)]; [congruence|].
    exists (use_quota q). rewrite Hqs. split; [apply elem_update_where; exists q; by rewrite Hu|].
    unfold quota_usable in Hu. conditions. unfold quota_key. simpl. congruence.
  - rewrite (co_operations _ _ _ _ _ _ Hc) in Hr. apply elem_update_where in Hr as (r0 & Hr0 & ->).
    destruct (completable t id fp r0); by apply (Hold r0).
  - rewrite Ho in Hr. eauto.
  - rewrite Ho in Hr. eauto.
  - rewrite (su_operations _ _ Hc) in Hr. eauto.
  - eauto.
Qed.

(** ** What credits allow *)

Definition claim_key (cl : CreditClaimRow) : string * string := (cc_tenantId cl, cc_authorizedOperationId cl).

Definition claim_of_grant (k : string * string) (cl : CreditClaimRow) : bool :=
  same (cc_tenantId cl) k.1 && same (cc_grantId cl) k.2.

Definition claims_on (k : string * string) (db : AuthDb) : Z :=
  Z.of_nat (length (List.filter (claim_of_grant k) (creditClaims db))).

Record credit_inv (db : AuthDb) : Prop := mkCreditInv {
  cv_grants : NoDup (map grant_key (creditGrants db));
  cv_checks : forall g, g ∈ creditGrants db -> grant_check g = true;
  cv_claims : NoDup (map claim_key (creditClaims db));
  cv_operations : forall cl, cl ∈ creditClaims db -> claim_key cl ∈ map op_id (operations db);
  cv_known : forall cl, cl ∈ creditClaims db ->
    exists g, g ∈ creditGrants db /\ grant_key g = (cc_tenantId cl, cc_grantId cl);
  cv_counts : forall g, g ∈ creditGrants db -> claims_on (grant_key g) db <= cg_admittedCount g;
}.

Lemma claims_on_same k db db' : creditClaims db' = creditClaims db -> claims_on k db' = claims_on k db.
Proof. unfold claims_on. by intros ->. Qed.

Lemma grant_is_spec t id g : grant_is t id g = true <-> grant_key g = (t, id).
Proof. unfold grant_is, grant_key. rewrite andb_true_iff, !same_spec. split; [by intros [-> ->]|by intros [= ? ?]]. Qed.

Lemma claim_credit_inv db c db' : claim_effect db c db' -> credit_inv db -> credit_inv db'.
Proof.
  intros [Ho _ _ Hc _ Hid _] [Hg Hch Hcl Hop Hk Hn].
  assert (forall cl, cl ∈ creditClaims db -> claim_key cl <> (oc_tenantId c, oc_authorizedOperationId c)) as Hfresh.
  { intros cl Hin E. apply Hop, list_elem_of_fmap in Hin as (r & Er & Hr).
    pose proof (proj1 (existsb_none _ _) Hid r Hr) as Hno. apply not_true_iff_false in Hno. apply Hno.
    apply same_id_spec. congruence. }
  assert (forall k, k ∈ map op_id (operations db) -> k ∈ map op_id (operations db')) as Hold.
  { intros k Hin. rewrite Ho, map_app. apply elem_of_app. by left. }
  destruct Hc as [[Egr Ecl]|(id & Egr & Hf & Hcase)].
  { split; rewrite ?Egr, ?Ecl; auto; intros g Hin. rewrite (claims_on_same _ db) by done. auto. }
  destruct Hcase as [[Ecl (g1 & Hg1 & Eg1)]|(_ & cl & Hin & E1 & E2)]; [|destruct (Hfresh cl Hin); unfold claim_key; congruence].
  set (t := oc_tenantId c) in *. set (cl := mkClaimRow t (oc_authorizedOperationId c) id) in *. split.
  - rewrite Egr. by rewrite map_update_where.
  - intros g Hin. rewrite Egr in Hin. pose proof Hin as (g0 & Hg0 & E)%elem_update_where.
    destruct (grant_is t id g0) eqn:Ei; [|subst g; auto].
    apply (proj1 (forallb_forall _ _) Hf). apply filter_In. split; [by apply list_elem_of_In|]. by rewrite E.
  - rewrite Ecl. by apply nodup_snoc.
  - intros cl0 Hin. rewrite Ecl in Hin. apply elem_of_app in Hin as [Hin|Hin]; [auto|].
    apply list_elem_of_singleton in Hin as ->. rewrite Ho, map_app. apply elem_of_app. right. by apply list_elem_of_singleton.
  - assert (forall g, g ∈ creditGrants db -> exists g', g' ∈ creditGrants db' /\ grant_key g' = grant_key g) as Hkept.
    { intros g Hin. exists (if grant_is t id g then admit_one g else g). rewrite Egr.
      split; [apply elem_update_where; eauto|]. by destruct (grant_is t id g). }
    intros cl0 Hin. rewrite Ecl in Hin. apply elem_of_app in Hin as [Hin|Hin].
    + destruct (Hk cl0 Hin) as (g & Hin' & Eg). destruct (Hkept g Hin') as (g' & Hin2 & Eg'). exists g'. by rewrite Eg'.
    + apply list_elem_of_singleton in Hin as ->. destruct (Hkept g1 Hg1) as (g' & Hin2 & Eg'). exists g'.
      rewrite Eg'. split; [done|]. by apply grant_is_spec.
  - intros g Hin. rewrite Egr in Hin. apply elem_update_where in Hin as (g0 & Hg0 & ->).
    assert (forall k, claims_on k db' = claims_on k db + (if claim_of_grant k cl then 1 else 0)) as Hcount.
    { intros k. unfold claims_on. rewrite Ecl, List.filter_app, length_app. simpl. destruct (claim_of_grant k cl); simpl; lia. }
    rewrite Hcount. specialize (Hn g0 Hg0). destruct (grant_is t id g0) eqn:Ei.
    + change (grant_key (admit_one g0)) with (grant_key g0). simpl. destruct (claim_of_grant _ _); lia.
    + replace (claim_of_grant (grant_key g0) cl) with false; [lia|]. symmetry. apply not_true_iff_false. intros H.
      apply not_true_iff_false in Ei. apply Ei. unfold claim_of_grant in H. conditions. apply grant_is_spec. simpl in *.
      unfold grant_key. congruence.
Qed.

Lemma same_credit_inv db db' : map op_id (operations db') = map op_id (operations db) ->
  creditClaims db' = creditClaims db -> creditGrants db' = creditGrants db -> credit_inv db -> credit_inv db'.
Proof.
  intros Ho Ec Eg [Hg Hch Hcl Hop Hk Hn]. split; rewrite ?Eg, ?Ec, ?Ho; auto. intros g Hin.
  rewrite (claims_on_same _ db) by done. auto.
Qed.

Lemma kept_credit_inv db db' : surroundings_change db db' -> credit_inv db -> credit_inv db'.
Proof.
  intros [Ho _ _ Ec _ (Hk & Hc & Hg)] [Hgk _ Hcl Hop Hkn Hn]. split; rewrite ?Ec, ?Ho; auto.
  - by apply Forall_forall.
  - intros cl Hin. destruct (Hkn cl Hin) as (g & Hin' & Eg). destruct (Hg g Hin') as (g' & Hin2 & Eg' & _).
    exists g'. by rewrite Eg'.
  - intros g' Hin'. rewrite (claims_on_same _ db) by done. pose proof (proj1 (Forall_forall _ _) Hc g' Hin') as Hck.
    unfold grant_check in Hck. unfold claims_on. destruct (List.filter _ (creditClaims db)) as [|cl l] eqn:E; [simpl; lia|].
    rewrite <- E. fold (claims_on (grant_key g') db).
    assert (cl ∈ creditClaims db /\ claim_of_grant (grant_key g') cl = true) as [Hin Hcg].
    { apply elem_filter. rewrite E. by left. }
    destruct (Hkn cl Hin) as (g & Hing & Eg). destruct (Hg g Hing) as (g2 & Hin2 & Eg2 & _ & Hle).
    assert (grant_key g2 = grant_key g') as Ekey.
    { rewrite Eg2, Eg. unfold claim_of_grant in Hcg. conditions. simpl in *. unfold grant_key. congruence. }
    rewrite <- (nodup_map_elem grant_key _ g2 g' Hk Hin2 Hin' Ekey). rewrite Eg2. specialize (Hn g Hing). lia.
Qed.

Lemma credit_inv_step db db' : session_inv (quotas db) (sessions db) -> credit_inv db -> auth_step db db' -> credit_inv db'.
Proof.
  intros Hv Hi Hs. apply step_cases in Hs; [|done].
  destruct Hs as [(c & Hc)|[(t & id & fp & result & response & digest & at_ & Hc)|[(t & n & e & _ & _ & Hc)|
    [(scope & p & _ & Hc & _)|[Hc| ->]]]]].
  - by eapply claim_credit_inv.
  - eapply same_credit_inv; [|exact (co_claims _ _ _ _ _ _ Hc)|exact (co_grants _ _ _ _ _ _ Hc)|done].
    rewrite (co_operations _ _ _ _ _ _ Hc). by apply map_update_where.
  - destruct Hc as (Ho & _ & Hg & Hcl). apply (same_credit_inv db); try done. by rewrite Ho.
  - destruct Hc as (Ho & _ & Hg & Hcl). apply (same_credit_inv db); try done. by rewrite Ho.
  - by eapply kept_credit_inv.
  - done.
Qed.

(** ** Every database that is reached *)

Record auth_inv (db : AuthDb) : Prop := mkAuthInv {
  av_sessions : session_inv (quotas db) (sessions db);
  av_operations : operations_inv db;
  av_quotas : quotas_known db;
  av_credits : credit_inv db;
}.

Lemma new_db_inv db : new_db db -> auth_inv db.
Proof.
  intros (Ho & Ha & Hq & Hs & Hc & Hg). split.
  - rewrite Hq, Hs. split; try set_solver; apply NoDup_nil_2.
  - split; rewrite ?Ha, Ho; try done; apply NoDup_nil_2.
  - intros r k. rewrite Ho. set_solver.
  - split; rewrite ?Hc, ?Hg, ?Ho; try set_solver; apply NoDup_nil_2.
Qed.

Lemma auth_inv_step db db' : auth_inv db -> auth_step db db' -> auth_inv db'.
Proof.
  intros [Hs Ho Hq Hc] H. split;
    [by eapply session_inv_step|by eapply operations_inv_step|by eapply quotas_known_step|by eapply credit_inv_step].
Qed.

Lemma auth_inv_steps db db' : auth_inv db -> rtc auth_step db db' -> auth_inv db'.
Proof. intros Hi H. induction H; [done|]. apply IHrtc. by eapply auth_inv_step. Qed.

Lemma auth_reachable_inv db : reachable db -> auth_inv db.
Proof. intros (db0 & Hn%new_db_inv & H). by eapply auth_inv_steps. Qed.

Lemma rows_kept_steps db db' : auth_inv db -> rtc auth_step db db' ->
  forall r, r ∈ operations db -> exists r', r' ∈ operations db' /\ row_kept r r'.
Proof.
  intros Hi H. induction H as [db|db1 db2 db3 H12 H23 IH]; [intros r Hr; by exists r|].
  intros r Hr. destruct (rows_kept_step _ _ (av_sessions _ Hi) H12 r Hr) as (r2 & Hr2 & K2).
  destruct (IH (auth_inv_step _ _ Hi H12) r2 Hr2) as (r3 & Hr3 & K3). exists r3. split; [done|]. by eapply row_kept_trans.
Qed.

Lemma quota_spent_refl db : auth_inv db -> quota_spent db db.
Proof. intros Hi q Hq. exists q. destruct (sv_counts _ _ (av_sessions _ Hi) q Hq). split_and!; try done; lia. Qed.

Lemma quota_spent_steps db db' : auth_inv db -> rtc auth_step db db' -> quota_spent db db'.
Proof.
  intros Hi H. induction H as [db|db1 db2 db3 H12 H23 IH]; [by apply quota_spent_refl|].
  eapply quota_spent_trans; [eapply quota_spent_step; [exact (av_sessions _ Hi)|exact H12]|].
  apply IH. by eapply auth_inv_step.
Qed.
