(* ===== verification/AuthorizationRuns.v ===== *)
(** * Calls on the authorization store

    What one admission, one completion and one issuance do and answer, and how a stored
    row reads. *)

From stdpp Require Import relations.
From S2P Require Import Prelude JsValues BitPacking Base64 VersionedRecords Capabilities AuthorizationDomain WalletSessionValues AuthorizationTables AuthorizedOperations WalletSessionIssuance AuthorizationWrites AuthorizationSystem.
Local Open Scope Z_scope.
Local Open Scope js_scope.

(** ** Rows and operations *)

Definition source_ok (source : OperationAuthorizationSource) : bool :=
  match source with AuthorizationGrant a => opaque_id a | VerifiedStepUp d => is_digest d end.

Definition quota_ok (q : OperationQuota) : bool :=
  match q with ConsumeReusableWalletSession q => opaque_id q | QuotaNeutral => true end.

(** What the types of an operation stand for: parsed identifiers and digests, and a time. *)
Record input_wf (i : AuthorizedOperationInput) : Prop := mkInputWf {
  iw_ids : Forall (fun id => opaque_id id = true)
    [oi_tenantId i; oi_authorizedOperationId i; oi_auditEventId i; e_principalId (oi_operation i);
     e_capabilityId (oi_operation i); e_operationId (oi_operation i)];
  iw_digests : Forall (fun d => is_digest d = true)
    [laneDigest (oi_operation i); intentDigest (oi_operation i); displayDigest (oi_operation i)];
  iw_source : source_ok (oi_authorization i) = true;
  iw_quota : quota_ok (oi_quota i) = true;
  iw_time : 0 < oi_claimedAtMs i <= MAX_SAFE_INTEGER;
}.

Definition with_lifecycle (operation : AuthorizedOperation) (l : AuthorizedOperationLifecycle) : AuthorizedOperation :=
  mkAuthorizedOperation (ao_tenantId operation) (authorizedOperationId operation) (auditEventId operation)
    (claimedAtMs operation) (ao_operation operation) (operationFingerprintDigest operation) (authorization operation)
    (quota operation) l.

#[local] Arguments requireString : simpl never.
#[local] Arguments requireParsed : simpl never.
#[local] Arguments requirePositiveInteger : simpl never.
#[local] Arguments parseAuthorizationId : simpl never.
#[local] Arguments parseDigestB64u : simpl never.
#[local] Arguments parseAuthorizedOperationReplayResponse : simpl never.
#[local] Arguments computeAuthorizedOperationResultDigest : simpl never.
#[local] Arguments computeCapabilityOperationFingerprintDigest : simpl never.

Lemma integerColumn_ok z label : 0 < z <= MAX_SAFE_INTEGER -> integerColumn (JInt z) label = Ok z.
Proof. intros H. unfold integerColumn. change (js_Number (JInt z)) with (NInt z). by rewrite safe_integer_ok. Qed.

Lemma digest_column_ok d label : is_digest d = true -> parse_digest_column (Some d) label = Ok d.
Proof.
  intros H. unfold parse_digest_column. simpl. rewrite requireString_ok by by apply digest_opaque. simpl.
  by apply is_digest_parses.
Qed.

Lemma parse_source_ok scope operation material generation : source_ok (authorization operation) = true ->
  parse_source (operation_columns scope operation material generation) = Ok (authorization operation).
Proof.
  intros H. unfold parse_source. simpl. destruct (authorization operation) as [a|d]; simpl in H |- *.
  - unfold requireParsed. change (parseAuthorizationGrantRef _) with (parseAuthorizationId (JString a) "walletSessionAuthorizationId").
    by rewrite parseAuthorizationId_ok.
  - rewrite requireString_ok by by apply digest_opaque. simpl.
    by rewrite is_digest_parses.
Qed.

Lemma parse_quota_ok scope operation material generation : quota_ok (quota operation) = true ->
  parse_quota (operation_columns scope operation material generation) = Ok (quota operation).
Proof.
  intros H. unfold parse_quota. cbn [operation_columns oc_quotaKind oc_quotaId].
  destruct (quota operation) as [q|]; [|done]. cbn [quota_ok quota_kind quota_id] in *. rewrite requireString_ok by done.
  cbn [result_bind]. unfold requireParsed, parseMpcWalletSigningQuotaId. cbn [sql_text].
  by rewrite (parseAuthorizationId_ok _ q).
Qed.

Lemma parse_envelope_ok scope operation material generation :
  let e := ao_operation operation in
  e_tenantId e = ao_tenantId operation ->
  Forall (fun id => opaque_id id = true) [ao_tenantId operation; e_principalId e; e_capabilityId e; e_operationId e] ->
  Forall (fun d => is_digest d = true) [laneDigest e; intentDigest e; displayDigest e] ->
  parse_envelope (operation_columns scope operation material generation) = Ok e.
Proof.
  intros e Ht Hids Hd. repeat (apply Forall_cons_1 in Hids as [? Hids]). repeat (apply Forall_cons_1 in Hd as [? Hd]).
  unfold parse_envelope. simpl. fold e. unfold requireParsed, parseTenantId, parsePrincipalId, parseCapabilityId, parseCapabilityOperationId.
  rewrite !parseAuthorizationId_ok by done. fold (operation_value (e_operation e)). rewrite operation_value_parses. simpl.
  rewrite !digest_column_ok by done. simpl. rewrite <- Ht. by destruct e.
Qed.

Section Admission.
Context (sha256 : string -> list Z).

(** The fields of an operation that was built. *)
Lemma built_operation input operation : buildAuthorizedOperation sha256 input = Ok operation ->
  oi_tenantId input = e_tenantId (oi_operation input) /\
  computeCapabilityOperationFingerprintDigest sha256 (oi_operation input) = Ok (operationFingerprintDigest operation) /\
  operation = mkAuthorizedOperation (oi_tenantId input) (oi_authorizedOperationId input) (oi_auditEventId input)
    (oi_claimedAtMs input) (oi_operation input) (operationFingerprintDigest operation) (oi_authorization input)
    (oi_quota input) LifecycleClaimed.
Proof.
  unfold buildAuthorizedOperation. destruct (negb _) eqn:E; [done|]. intros (fp & Hfp & [= <-])%result_bind_ok.
  by conditions.
Qed.

(** A row with the columns of an operation reads as the operation, with what was made of it. *)
Lemma operation_row_reads input operation scope material generation outcome l : input_wf input ->
  buildAuthorizedOperation sha256 input = Ok operation -> opaque_id (oc_lifecycleKind outcome) = true ->
  parse_lifecycle sha256 (oc_lifecycleKind outcome) outcome = Ok l ->
  parseAuthorizedOperationRow sha256 (mkOperationRow (operation_columns scope operation material generation) outcome) =
    Ok (with_lifecycle operation l).
Proof.
  intros [Hids Hd Hs Hq Ht] (Hten & Hfp & Hop)%built_operation Ho Hl. repeat (apply Forall_cons_1 in Hids as [? Hids]).
  assert (is_digest (operationFingerprintDigest operation) = true) as Hdig.
  { eapply parsed_is_digest. exact Hfp. }
  set (fp := operationFingerprintDigest operation) in *. unfold parseAuthorizedOperationRow. cbn [op_columns op_outcome].
  rewrite parse_envelope_ok, parse_source_ok, parse_quota_ok by (rewrite Hop; simpl; auto). rewrite Hop. simpl.
  rewrite requireString_ok by done. simpl. unfold requireParsed, parseAuthorizedOperationId, parseAuthorizationAuditEventId.
  rewrite !parseAuthorizationId_ok by done. simpl. unfold parseOperationFingerprint, parseCapabilityOperationFingerprintDigest.
  rewrite is_digest_parses by done. simpl. rewrite requirePositiveInteger_ok by done. simpl. rewrite Hfp. simpl.
  unfold same. rewrite bool_decide_eq_true_2 by done. simpl. rewrite Hl. simpl. by rewrite Hten.
Qed.

(** The outcome of a completion reads as it was written. *)
Lemma completed_outcome_reads value result response digest completedAtMs :
  parseAuthorizedOperationReplayResponse value = Ok response ->
  computeAuthorizedOperationResultDigest sha256 (response_value response) = Ok digest ->
  0 < completedAtMs <= MAX_SAFE_INTEGER ->
  parse_lifecycle sha256 "completed" (completed_outcome result response digest completedAtMs) =
    Ok (LifecycleCompleted result response digest completedAtMs).
Proof.
  intros Hr Hd Ht. pose proof (parsed_response_status _ _ Hr) as Hst. apply parsed_response_value in Hr.
  assert (is_digest digest = true) as Hdig.
  { unfold computeAuthorizedOperationResultDigest in Hd. apply result_bind_ok in Hd as (r & _ & Hd). by eapply parsed_is_digest. }
  unfold parse_lifecycle, completed_outcome.
  cbn [oc_resultKind oc_resultStatus oc_resultContentType oc_resultBodyText oc_resultDigest oc_completedAtMs].
  change (same "completed" "claimed") with false. change (negb (same "completed" "completed")) with false. cbv iota.
  rewrite requireString_ok by by destruct result. cbn [result_bind]. rewrite result_text_of. cbv iota. cbn [sql_integer].
  rewrite integerColumn_ok by (unfold MAX_SAFE_INTEGER; lia). cbn [result_bind requiredText sql_text].
  replace (mkReplayResponse _ _ _) with response by by destruct response. rewrite Hr. cbn [result_bind].
  rewrite digest_column_ok by done. cbn [result_bind]. rewrite Hd. cbn [result_bind]. unfold same.
  rewrite bool_decide_eq_true_2 by done. cbn [negb sql_integer]. by rewrite requirePositiveInteger_ok.
Qed.

(** ** One admission *)

(** The columns a claim of this operation writes here. *)
Definition claim_columns (scope : WalletScope) (operation : AuthorizedOperation)
    (material : option AuthorizedOperationMaterialScope) (db : AuthDb) : OperationColumns :=
  operation_columns scope operation material (active_generation scope operation db).

(** The row of the operation was inserted, the first of its fingerprint. *)
Definition claims_here (env : AdmissionEnv) (scope : WalletScope) (operation : AuthorizedOperation)
    (material : option AuthorizedOperationMaterialScope) (db db' : AuthDb) : Prop :=
  insert_operation (env_dbNow env) (claim_columns scope operation material db) db = inr db'.

Lemma insert_statement_run dbNow scope operation material snapshot existing statement db :
  prepareAuthorizedOperationInsert dbNow scope operation material snapshot existing = Ok statement ->
  match statement db with
  | inl _ => True
  | inr (db', n) => n = 0 /\ db' = db \/
      n = 1 /\ insert_operation dbNow (claim_columns scope operation material db) db = inr db'
  end.
Proof.
  unfold prepareAuthorizedOperationInsert. destruct (negb _); [done|]. destruct (_ <=? 0); [done|]. intros [= <-].
  fold (claim_columns scope operation material db).
  destruct (insert_condition _ _ _ _ _ && _); [|by left]. by destruct (insert_operation _ _ _) eqn:E; [|right].
Qed.

Lemma admission_read_keeps lost dbNow scope t fp nowMs snapshot db :
  (readAuthorizedOperationForAdmission sha256 lost dbNow scope t fp nowMs snapshot db).2 = db.
Proof.
  unfold readAuthorizedOperationForAdmission, bind, lift, read_db. destruct (requirePositiveInteger _ _); [|done].
  destruct lost; [done|]. simpl. destruct (prepareAuthorizedOperationAdmissionRead _ _ _ _ _ _ _); [|done].
  by destruct (parseAuthorizedOperationAdmissionRecord _ _).
Qed.

(** After a failed batch an admission only reads. *)
Definition recovers (env : AdmissionEnv) (scope : WalletScope) (operation : AuthorizedOperation)
    (material : option AuthorizedOperationMaterialScope) (snapshot : option EcdsaMaterialReadSnapshot) (error : Exn)
  : M AuthDb (AdmissionOutcome + bool * option AdmissionRow) :=
  raced <- readAuthorizedOperationForAdmission sha256 (env_readLost env) (env_readNow env) scope (ao_tenantId operation)
    (operationFingerprintDigest operation) (claimedAtMs operation) snapshot ;;
  match raced with
  | Some raced =>
      answer <- lift (answerExistingAuthorizedOperation scope raced operation material) ;;
      ret (inl (OutcomeExisting answer))
  | None =>
      match classifyAuthorizedOperationAdmissionError (errorMessage error) with
      | Some rejection => ret (inl (OutcomeExisting (ExistingRejected rejection)))
      | None => throw error
      end
  end.

Lemma recovers_run env scope operation material snapshot error db :
  exists r, recovers env scope operation material snapshot error db = (r, db) /\
    match r with Ok (inl (OutcomeExisting _)) | Throw _ => True | _ => False end.
Proof.
  unfold recovers, bind. pose proof (admission_read_keeps (env_readLost env) (env_readNow env) scope (ao_tenantId operation)
    (operationFingerprintDigest operation) (claimedAtMs operation) snapshot db) as H.
  destruct (readAuthorizedOperationForAdmission _ _ _ _ _ _ _ _ _) as [[raced|e] db1]; simpl in H; subst db1; [|by eexists].
  destruct raced as [raced|]; [|destruct (classifyAuthorizedOperationAdmissionError _); by eexists].
  unfold lift, ret. destruct (answerExistingAuthorizedOperation _ _ _ _); by eexists.
Qed.

Lemma find_inserted scope operation material db db' : claim_effect db (claim_columns scope operation material db) db' ->
  find_operation db' (ao_tenantId operation) (operationFingerprintDigest operation) =
    Some (claimed_row (claim_columns scope operation material db)).
Proof.
  intros [Ho _ _ _ _ _ Hf]. unfold find_operation. rewrite Ho.
  change (oc_tenantId _) with (ao_tenantId operation) in Hf.
  change (oc_fingerprintDigest _) with (operationFingerprintDigest operation) in Hf.
  revert Hf. generalize (operations db) as l. induction l as [|r l IH]; simpl.
  - intros _. rewrite (proj2 (with_fingerprint_spec _ _ _)); done.
  - destruct (with_fingerprint _ _ r); [done|]. apply IH.
Qed.

(** The batch of a claim, and the answer from what it read. *)
Definition claims (env : AdmissionEnv) (scope : WalletScope) (operation : AuthorizedOperation)
    (material : option AuthorizedOperationMaterialScope) (snapshot : option EcdsaMaterialReadSnapshot)
  : M AuthDb (AdmissionOutcome + bool * option AdmissionRow) :=
  statement <- lift (prepareAuthorizedOperationInsert (env_dbNow env) scope operation material snapshot PreserveExisting) ;;
  result <- claim_batch (env_fault env) statement
    (prepareAuthorizedOperationAdmissionRead (env_dbNow env) (claimedAtMs operation) scope snapshot
       (ao_tenantId operation) (operationFingerprintDigest operation)) ;;
  ret (inr result).

Definition answers (scope : WalletScope) (operation : AuthorizedOperation)
    (material : option AuthorizedOperationMaterialScope) (batched : AdmissionOutcome + bool * option AdmissionRow)
  : M AuthDb AdmissionOutcome :=
  match batched with
  | inl outcome => ret outcome
  | inr (claimed, None) =>
      if negb claimed && bool_decide (is_Some material)
      then ret (OutcomeExisting (ExistingRejected material_mismatch))
      else if negb claimed && match authorization operation with VerifiedStepUp _ => true | _ => false end
      then ret (OutcomeExisting (ExistingRejected verified_step_up_rejected))
      else throw (JsError "authorized operation admission could not be read back")
  | inr (claimed, Some row) =>
      admitted <- lift (parseAuthorizedOperationAdmissionRecord sha256 row) ;;
      if claimed then ret (OutcomeClaimed (rec_operation admitted) row)
      else
        answer <- lift (answerExistingAuthorizedOperation scope admitted operation material) ;;
        ret (OutcomeExisting answer)
  end.

Lemma admission_parts env scope input material snapshot :
  admitAuthorizedOperationRecord sha256 env scope input material snapshot =
  bind (lift (buildAuthorizedOperation sha256 input)) (fun operation =>
    if negb (authorizedOperationMaterialScopeMatches operation material snapshot)
    then ret (OutcomeExisting (ExistingRejected material_mismatch))
    else bind (try_catch (claims env scope operation material snapshot) (recovers env scope operation material snapshot))
           (answers scope operation material)).
Proof. reflexivity. Qed.

(** What the batch of a claim leaves: an answer with or without a new row, or a failure. *)
Lemma claims_run env scope operation material snapshot db :
  match claims env scope operation material snapshot db with
  | (Ok (inr (claimed, row)), db') =>
      (claimed = false /\ db' = db) \/
      (claimed = true /\ env_fault env = NoFault /\ claims_here env scope operation material db db' /\
       ad_row <$> row = Some (claimed_row (claim_columns scope operation material db)))
  | (Ok (inl _), _) => False
  | (Throw _, db') => db' = db \/ env_fault env = AnswerLost true /\ claims_here env scope operation material db db'
  end.
Proof.
  unfold claims. unfold bind at 1, lift at 1.
  destruct (prepareAuthorizedOperationInsert _ _ _ _ _ _) as [statement|e] eqn:Hp; [|by left].
  pose proof (insert_statement_run _ _ _ _ _ _ _ db Hp) as Hrun. unfold bind at 1, claim_batch, ret.
  destruct (env_fault env) as [|[|]] eqn:Hfault; [| |by left].
  - destruct (statement db) as [m|[db' n]]; [by left|].
    destruct Hrun as [[-> ->]|[-> Hi]]; simpl; [by left|]. right. split_and!; try done.
    unfold prepareAuthorizedOperationAdmissionRead.
    rewrite (find_inserted scope operation material db db'); [done|]. by eapply insert_effect.
  - destruct (statement db) as [m|[db' n]]; [by left|]. destruct Hrun as [[-> ->]|[-> Hi]]; [by left|by right].
Qed.

(** What one admission does: the row is new and the answer is the operation of the row,
    or the answer of the insert was lost, or nothing is written and nothing is claimed. *)
Lemma admission_run env scope input material snapshot db res db' :
  admitAuthorizedOperationRecord sha256 env scope input material snapshot db = (res, db') ->
  (exists operation row, buildAuthorizedOperation sha256 input = Ok operation /\ env_fault env = NoFault /\
     claims_here env scope operation material db db' /\
     ad_row row = claimed_row (claim_columns scope operation material db) /\
     res = match parseAuthorizedOperationRow sha256 (ad_row row) with
           | Ok admitted => Ok (OutcomeClaimed admitted row)
           | Throw e => Throw e
           end) \/
  (match res with Ok (OutcomeClaimed _ _) => False | _ => True end /\
   (db' = db \/
    env_fault env = AnswerLost true /\ exists operation, buildAuthorizedOperation sha256 input = Ok operation /\
      claims_here env scope operation material db db')).
Proof.
  rewrite admission_parts. unfold bind at 1, lift at 1.
  destruct (buildAuthorizedOperation sha256 input) as [operation|e] eqn:Hb; [|intros [= <- <-]; right; by auto].
  destruct (negb _); [intros [= <- <-]; right; by auto|].
  pose proof (claims_run env scope operation material snapshot db) as Hrun. unfold bind at 1, try_catch at 1.
  destruct (claims _ _ _ _ _ _) as [[[out|[claimed row]]|e] db1]; [done| |].
  - destruct Hrun as [[-> ->]|(-> & Hf & Hi & Hrow)].
    + intros H. right. revert H. unfold answers. destruct row as [row|].
      * unfold bind, lift, ret. destruct (parseAuthorizedOperationAdmissionRecord _ _); [|intros [= <- <-]; by auto].
        destruct (answerExistingAuthorizedOperation _ _ _ _); intros [= <- <-]; by auto.
      * destruct (_ && _); [intros [= <- <-]; by auto|]. destruct (_ && _); intros [= <- <-]; by auto.
    + destruct row as [row|]; [|done]. injection Hrow as Hrow. intros H. left. exists operation, row.
      revert H. unfold answers, parseAuthorizedOperationAdmissionRecord, bind, lift, ret.
      destruct (parseAuthorizedOperationRow sha256 (ad_row row)); simpl; intros [= <- <-]; by split_and!.
  - destruct (recovers_run env scope operation material snapshot e db1) as (r & -> & Hr).
    intros H. right. assert (db' = db1 /\ match res with Ok (OutcomeClaimed _ _) => False | _ => True end) as [-> Hres].
    { destruct r as [[[]|]|]; try done; simpl in H; injection H as <- <-; done. }
    split; [done|]. destruct Hrun as [->|[Hf Hi]]; [by left|right]. eauto.
Qed.

(** *** What the stored operation says of the request *)

(** The row that an admission reads is the row of the fingerprint. *)
Lemma admission_read_row dbNow nowMs scope snapshot t fp db row :
  prepareAuthorizedOperationAdmissionRead dbNow nowMs scope snapshot t fp db = Some row ->
  with_fingerprint t fp (ad_row row) = true.
Proof.
  unfold prepareAuthorizedOperationAdmissionRead. destruct (find_operation db t fp) as [r|] eqn:E; [|done].
  intros [= <-]. simpl. by apply find_elem in E as [_ ?].
Qed.

(** The operation of an answer is read from a row of the fingerprint that was asked for,
    and nothing in that row speaks against the request. *)
Definition answer_sound (scope : WalletScope) (operation : AuthorizedOperation)
    (material : option AuthorizedOperationMaterialScope) (answer : ExistingAnswer) : Prop :=
  match answer with
  | ExistingReplayed stored row | ExistingInProgress stored row =>
      with_fingerprint (ao_tenantId operation) (operationFingerprintDigest operation) (ad_row row) = true /\
      parseAuthorizedOperationRow sha256 (ad_row row) = Ok stored /\
      authorizedOperationReplayMismatch row operation material scope = Ok None
  | ExistingRejected _ => True
  end.

Lemma answer_existing_sound scope operation material row existing answer :
  with_fingerprint (ao_tenantId operation) (operationFingerprintDigest operation) (ad_row row) = true ->
  parseAuthorizedOperationAdmissionRecord sha256 row = Ok existing ->
  answerExistingAuthorizedOperation scope existing operation material = Ok answer ->
  answer_sound scope operation material answer.
Proof.
  intros Hf (stored & Hp & [= <-])%result_bind_ok. unfold answerExistingAuthorizedOperation. cbn [rec_row rec_operation].
  destruct (negb (ad_materialActive row)); [by intros [= <-]|].
  intros ([rejection|] & Hm & Ha)%result_bind_ok; [by injection Ha as <-|].
  destruct (ao_lifecycle stored); [|destruct (_ && _)]; [destruct (negb _)| |]; by injection Ha as <-.
Qed.

Lemma recovers_sound env scope operation material snapshot error db :
  match (recovers env scope operation material snapshot error db).1 with
  | Ok (inl (OutcomeExisting answer)) => answer_sound scope operation material answer
  | _ => True
  end.
Proof.
  unfold recovers, readAuthorizedOperationForAdmission, bind, lift, read_db, gets, throw, ret.
  destruct (requirePositiveInteger _ _) as [now|]; [|done]. destruct (env_readLost env); [done|].
  destruct (prepareAuthorizedOperationAdmissionRead _ _ _ _ _ _ _) as [row|] eqn:Er.
  - destruct (parseAuthorizedOperationAdmissionRecord sha256 row) as [existing|] eqn:Ep; [|done].
    destruct (answerExistingAuthorizedOperation _ _ _ _) as [answer|] eqn:Ea; [|done]. simpl.
    eapply answer_existing_sound; [by eapply admission_read_row|done..].
  - by destruct (classifyAuthorizedOperationAdmissionError _).
Qed.

Lemma claims_read env scope operation material snapshot db claimed row db' :
  claims env scope operation material snapshot db = (Ok (inr (claimed, Some row)), db') ->
  with_fingerprint (ao_tenantId operation) (operationFingerprintDigest operation) (ad_row row) = true.
Proof.
  unfold claims, bind, lift, claim_batch, ret. destruct (prepareAuthorizedOperationInsert _ _ _ _ _ _) as [statement|]; [|done].
  destruct (env_fault env) as [|[|]]; [| |done]; (destruct (statement db) as [|[db1 n]]; [done|]); [|done].
  intros [= _ Hr _]. by eapply admission_read_row.
Qed.

Lemma admission_answer_sound env scope input material snapshot db answer db' :
  admitAuthorizedOperationRecord sha256 env scope input material snapshot db = (Ok (OutcomeExisting answer), db') ->
  exists operation, buildAuthorizedOperation sha256 input = Ok operation /\ answer_sound scope operation material answer.
Proof.
  rewrite admission_parts. unfold bind at 1, lift at 1.
  destruct (buildAuthorizedOperation sha256 input) as [operation|e]; [|done].
  destruct (negb _); [intros [= <- _]; by exists operation|].
  pose proof (claims_read env scope operation material snapshot db) as Hread. unfold bind at 1, try_catch at 1.
  destruct (claims _ _ _ _ _ _) as [[[out|[claimed row]]|e] db1] eqn:E.
  - pose proof (claims_run env scope operation material snapshot db) as Hrun. by rewrite E in Hrun.
  - intros H. exists operation. split; [done|]. revert H. unfold answers. destruct row as [row|].
    + unfold bind, lift, ret. destruct (parseAuthorizedOperationAdmissionRecord _ _) as [existing|] eqn:Ep; [|done].
      destruct claimed; [done|]. destruct (answerExistingAuthorizedOperation _ _ _ _) as [a|] eqn:Ea; [|done].
      intros [= <- _]. eapply answer_existing_sound; [by eapply Hread|done..].
    + destruct (_ && _); [by intros [= <- _]|]. destruct (_ && _); [by intros [= <- _]|done].
  - pose proof (recovers_sound env scope operation material snapshot e db1) as Hs.
    destruct (recovers_run env scope operation material snapshot e db1) as (r & Er & Hr). rewrite Er in *. simpl in Hs.
    destruct r as [[[? ?|a]|]|]; try done. intros [= <- _]. by exists operation.
Qed.

(** *** The same operation, or a collision *)

Lemma requireString_same s label t : requireString (JString s) label = Ok t -> t = s.
Proof. unfold requireString. destruct (_ || _); [done|]. by intros [= ->]. Qed.

(** What a request and the row that answers it agree on. *)
Lemma mismatch_none row operation material scope :
  authorizedOperationReplayMismatch row operation material scope = Ok None ->
  let c := op_columns (ad_row row) in
  oc_sourceKind c = source_kind (authorization operation) /\
  match authorization operation with
  | AuthorizationGrant a => oc_authorizationId c = Some a
  | VerifiedStepUp d => oc_evidenceSetDigest c = Some d
  end /\
  oc_quotaKind c = quota_kind (quota operation) /\ oc_quotaId c = quota_id (quota operation).
Proof.
  unfold authorizedOperationReplayMismatch. cbv zeta. intros (k & ->%requireString_same & H)%result_bind_ok.
  destruct (same (oc_sourceKind _) _) eqn:Ek; [|done]. simpl in H.
  destruct (negb _) eqn:Es in H; [done|]. apply result_bind_ok in H as (qk & ->%requireString_same & H).
  destruct (same (oc_quotaKind _) _) eqn:Eq; [|done]. simpl in H. apply same_spec in Ek, Eq.
  destruct (_ && _) eqn:Ec in H; [done|]. destruct (_ && _) eqn:En in H; [done|].
  split_and!; [done| |done|].
  - destruct (authorization operation); by conditions.
  - rewrite Eq in Ec, En. destruct (quota operation); simpl in *; by conditions.
Qed.

Lemma stored_fields row stored : parseAuthorizedOperationRow sha256 row = Ok stored ->
  let c := op_columns row in
  parse_source c = Ok (authorization stored) /\ parse_quota c = Ok (quota stored) /\
  computeCapabilityOperationFingerprintDigest sha256 (ao_operation stored) = Ok (oc_fingerprintDigest c).
Proof.
  unfold parseAuthorizedOperationRow. intros (e & _ & (src & Hsrc & (l & _ & H)%result_bind_ok)%result_bind_ok)%result_bind_ok.
  apply result_bind_ok in H as (? & _ & H). apply result_bind_ok in H as (? & _ & H).
  apply result_bind_ok in H as (fp & Hfp & H). apply result_bind_ok in H as (? & _ & H).
  apply result_bind_ok in H as (q & Hq & H). apply result_bind_ok in H as (expected & He & H).
  destruct (same expected fp) eqn:E; [|done]. simpl in H. apply result_bind_ok in H as (life & _ & [= <-]). simpl.
  split_and!; [done|done|]. apply same_spec in E as ->. rewrite He. unfold parseOperationFingerprint in Hfp.
  destruct (parseCapabilityOperationFingerprintDigest _) as [f|] eqn:Ef; [|done]. injection Hfp as ->.
  apply digest_fields in Ef. by injection Ef as ->.
Qed.

Lemma stored_source c source src : source_ok source = true -> oc_sourceKind c = source_kind source ->
  match source with
  | AuthorizationGrant a => oc_authorizationId c = Some a
  | VerifiedStepUp d => oc_evidenceSetDigest c = Some d
  end -> parse_source c = Ok src -> src = source.
Proof.
  intros Hok Hk Hid. unfold parse_source. intros (k & ->%requireString_same & H)%result_bind_ok. rewrite Hk in H.
  destruct source as [a|d]; simpl in Hok, Hid, H.
  - destruct (bool_decide _); [done|]. destruct (negb _); [done|]. rewrite Hid in H. unfold requireParsed in H.
    change (parseAuthorizationGrantRef _) with (parseAuthorizationId (JString a) "walletSessionAuthorizationId") in H.
    rewrite parseAuthorizationId_ok in H by done. by injection H.
  - destruct (bool_decide _); [done|]. rewrite Hid in H.
    apply result_bind_ok in H as (t & ->%requireString_same & (d' & Hd & [= <-])%result_bind_ok).
    rewrite is_digest_parses in Hd by done. by injection Hd as ->.
Qed.

Lemma stored_quota c q q' : quota_ok q = true -> oc_quotaKind c = quota_kind q -> oc_quotaId c = quota_id q ->
  parse_quota c = Ok q' -> q' = q.
Proof.
  intros Hok Hk Hid. unfold parse_quota. intros (k & ->%requireString_same & H)%result_bind_ok. rewrite Hk, Hid in H.
  destruct q as [q|]; simpl in Hok, H; [|by injection H]. unfold requireParsed, parseMpcWalletSigningQuotaId in H.
  rewrite (parseAuthorizationId_ok _ q) in H by done. by injection H.
Qed.

(** Two operations with one fingerprint are one, or they are a collision of the hash. *)
Lemma fingerprint_collision e e' f : (forall t, digits 256 (sha256 t)) ->
  computeCapabilityOperationFingerprintDigest sha256 e = Ok f ->
  computeCapabilityOperationFingerprintDigest sha256 e' = Ok f ->
  e = e' \/ exists t t', t <> t' /\ sha256 t = sha256 t'.
Proof.
  intros Hb H H'. unfold computeCapabilityOperationFingerprintDigest, parseCapabilityOperationFingerprintDigest in *.
  apply digest_fields in H, H'. rewrite <- H' in H. injection H as H.
  assert (sha256 (canonicalCapabilityOperationFingerprintPreimageV1 e) =
    sha256 (canonicalCapabilityOperationFingerprintPreimageV1 e')) as Hs.
  { destruct (decode_encode _ (Hb (canonicalCapabilityOperationFingerprintPreimageV1 e))) as [Hd _].
    destruct (decode_encode _ (Hb (canonicalCapabilityOperationFingerprintPreimageV1 e'))) as [Hd' _]. congruence. }
  destruct (decide (canonicalCapabilityOperationFingerprintPreimageV1 e = canonicalCapabilityOperationFingerprintPreimageV1 e')).
  - left. by apply preimage_inj.
  - right. eauto.
Qed.

(** ** Reads and completions *)

Lemma find_unique t fp l r : NoDup (map op_fingerprint l) -> r ∈ l -> op_fingerprint r = (t, fp) ->
  List.find (with_fingerprint t fp) l = Some r.
Proof.
  intros Hn Hr Hk. destruct (List.find _ _) as [r'|] eqn:E.
  - apply find_elem in E as [Hr' Hk'%with_fingerprint_spec]. f_equal. eapply nodup_map_elem; [done..|congruence].
  - pose proof (find_none_elem _ _ E r Hr) as Hno. apply not_true_iff_false in Hno. destruct Hno.
    by apply with_fingerprint_spec.
Qed.

(** A row that reads as a completed operation is completed. *)
Lemma completed_lifecycle row operation : parseAuthorizedOperationRow sha256 row = Ok operation ->
  ao_lifecycle operation <> LifecycleClaimed -> same (oc_lifecycleKind (op_outcome row)) "claimed" = false.
Proof.
  unfold parseAuthorizedOperationRow. intros (e & _ & (src & _ & (l & Hl & H)%result_bind_ok)%result_bind_ok)%result_bind_ok.
  do 6 apply result_bind_ok in H as (? & _ & H). destruct (negb _); [done|]. apply result_bind_ok in H as (life & Hlife & [= <-]).
  intros Hne. cbn [ao_lifecycle] in Hne. unfold parse_lifecycle in Hlife.
  assert (l = oc_lifecycleKind (op_outcome row)) as ->.
  { unfold requireString in Hl. destruct (_ || _); [done|]. by injection Hl. }
  destruct (same _ "claimed"); [|done]. by injection Hlife as <-.
Qed.

Lemma completion_run fault lost operation result response completedAtMs db done_ db' :
  operations_inv db ->
  completeAuthorizedOperation sha256 fault lost operation result response completedAtMs db = (Ok done_, db') ->
  (db' = db \/ auth_step db db') /\
  exists row, row ∈ operations db' /\ op_fingerprint row = (ao_tenantId operation, operationFingerprintDigest operation) /\
    parseAuthorizedOperationRow sha256 row = Ok done_.
Proof.
  intros Hi. unfold completeAuthorizedOperation, prepareWalletOperationCompletion. unfold bind at 1, lift at 1.
  destruct (parseAuthorizedOperationReplayResponse response) as [parsed|]; [|done]. cbn [result_bind].
  destruct (computeAuthorizedOperationResultDigest sha256 (response_value parsed)) as [digest|]; [|done]. cbn [result_bind].
  destruct (parseUnixMs _ _) as [at_|]; [|done]. cbn [result_bind]. unfold bind at 1, run_update at 1.
  destruct fault as [|[|]]; [| |done];
    (destruct (complete_operation _ _ _ _ db) as [m|[db1 row]] eqn:Hc; [done|]); [|done].
  pose proof Hc as Hstep. apply complete_cases in Hc as [(-> & -> & _)|(Heff & r & -> & Hr & Hcr)].
  - unfold readAuthorizedOperation, bind, read_db, gets, lift, ret. destruct lost; [done|].
    destruct (find_operation _ _ _) as [row|] eqn:Ef; [|done].
    destruct (parseAuthorizedOperationRow sha256 row) as [op|] eqn:Ep; [|done]. intros [= <- <-].
    split; [by left|]. exists row. apply find_elem in Ef as [? ?%with_fingerprint_spec]. done.
  - unfold lift. destruct (parseAuthorizedOperationRow _ _) as [op|] eqn:Ep; [|done]. intros [= <- <-].
    split; [right; by eapply step_complete|]. exists (complete_row (completed_outcome result parsed digest at_) r).
    split_and!; [|unfold completable in Hcr; unfold op_fingerprint; simpl; conditions; congruence|done].
    rewrite (co_operations _ _ _ _ _ _ Heff). apply elem_update_where. exists r. by rewrite Hcr.
Qed.

(** A completed operation is read and completed again as it is. *)
Lemma final_completion operation done_ row db : operations_inv db -> row ∈ operations db ->
  op_fingerprint row = (ao_tenantId operation, operationFingerprintDigest operation) ->
  parseAuthorizedOperationRow sha256 row = Ok done_ -> same (oc_lifecycleKind (op_outcome row)) "claimed" = false ->
  readAuthorizedOperation sha256 false (ao_tenantId operation) (operationFingerprintDigest operation) db = (Ok (Some done_), db) /\
  forall result response completedAtMs res db', completeAuthorizedOperation sha256 NoFault false operation result response completedAtMs db = (res, db') ->
    db' = db /\ (forall statement, prepareWalletOperationCompletion sha256 operation result response completedAtMs = Ok statement ->
      res = Ok done_).
Proof.
  intros [_ Hn _] Hr Hk Hp Hl.
  assert (readAuthorizedOperation sha256 false (ao_tenantId operation) (operationFingerprintDigest operation) db = (Ok (Some done_), db)) as Hread.
  { unfold readAuthorizedOperation, bind, read_db, gets, lift, ret. unfold find_operation.
    rewrite (find_unique _ _ _ row) by done. by rewrite Hp. }
  split; [done|]. intros result response completedAtMs res db'. unfold completeAuthorizedOperation. unfold bind at 1, lift at 1.
  destruct (prepareWalletOperationCompletion _ _ _ _ _) as [statement|e] eqn:Hprep; [|by intros [= <- <-]].
  assert (statement db = inr (db, None)) as Hnone.
  { unfold prepareWalletOperationCompletion in Hprep.
    apply result_bind_ok in Hprep as (? & _ & (? & _ & (? & _ & [= <-])%result_bind_ok)%result_bind_ok).
    unfold complete_operation. destruct (List.find _ _) as [r|] eqn:Ef; [|done]. exfalso.
    apply find_elem in Ef as [Hin Hc]. unfold completable in Hc. conditions.
    assert (r = row) as ->; [|by rewrite (proj2 (same_spec _ _)) in Hl].
    eapply nodup_map_elem; [exact Hn|done..|]. unfold op_fingerprint in *. congruence. }
  unfold bind at 1, run_update at 1. rewrite Hnone. unfold bind at 1. rewrite Hread. unfold ret.
  intros [= <- <-]. by split.
Qed.

(** ** Issuance *)

Lemma generations_change db l : auth_inv db -> surroundings_change db (set_generations l db).
Proof.
  intros Hi. split; try done.
  - simpl. apply Forall2_same_length_lookup_2; [done|]. intros i s s' E E'. by simplify_eq.
  - destruct (av_credits _ Hi) as [Hg Hc _ _ _ _]. split; [done|]. split; [by apply Forall_forall|].
    intros g Hin. by exists g.
Qed.

(** A session that an issuance inserted, and the database with it. *)
Lemma issuance_run fault scope p mode purpose db generation db' :
  issuable scope p db -> auth_inv db ->
  commitDirectWalletSessionAuthorizationV2WithMode fault scope p mode purpose db = (Ok (SessionInserted generation), db') ->
  exists db1, auth_step db db1 /\ issued scope p db db1 /\ same_claims db db1 /\ (db' = db1 \/ surroundings_change db1 db').
Proof.
  intros Hi Hinv. pose proof (av_sessions _ Hinv) as Hv. destruct (issuable_fields _ _ _ Hi) as (Hcheck & Hq & Hn).
  unfold commitDirectWalletSessionAuthorizationV2WithMode. unfold bind at 1, lift at 1. rewrite (is_exact _ _ _ Hi).
  unfold bind at 1, lift at 1. rewrite (is_numbers _ _ _ Hi). unfold bind at 1, run_update at 1.
  destruct fault as [|[|]]; [| |done]; (destruct (issuance_batch scope p purpose db) as [m|[db2 r]] eqn:Hb; [done|]); [|done].
  destruct r as [[[quotaChanges sessionChanges] row] found]. intros H.
  assert (sessionChanges <> 0 /\ db' = db2) as [Hchanged ->].
  { revert H. destruct (negb _); [done|]. unfold bind, lift, ret, throw.
    destruct (parseWalletSessionAuthorizationV2MintRow _ _) as [committed|]; [|done].
    destruct (match purpose with PurposeOrdinary => _ | PurposeRegistration _ => _ end); [|done].
    destruct committed as [committed|]; [|done]. destruct ((sessionChanges =? 0) && _); [done|].
    do 2 (destruct (negb _); [done|]). destruct (sessionChanges =? 0) eqn:E; [done|]. destruct (negb _); [done|].
    destruct found; [|done]. destruct (requirePositiveInteger _ _); [|done]. intros [= _ <-]. split; [lia|done]. }
  clear H. unfold issuance_batch in Hb. destruct (run_auth_statements _ db) as [m|[db1 ns]] eqn:Hrun; [done|].
  assert (auth_step db db1) as Hstep by by eapply step_issue. exists db1. split; [done|].
  destruct (issuance_effect scope p db db1 ns) as [Hsame Hcases]; [by eapply issuable_no_foreign|exact (is_fresh _ _ _ Hi)|done..|].
  assert (sessionChanges = ns !!! 5%nat /\ (db2 = db1 \/ surroundings_change db1 db2)) as [-> Hdb].
  { destruct purpose as [|ceremonyId].
    - injection Hb as <- _ <- _ _. by split; [|left].
    - unfold complete_registration in Hb. destruct (changes _ _ =? 0); [done|]. injection Hb as <- _ <- _ _. split; [done|].
      right. apply generations_change. by eapply auth_inv_step. }
  destruct Hcases as [(H0 & _)|[_ ?]]; [by rewrite H0 in Hchanged|]. done.
Qed.
End Admission.
