(* ===== verification/AuthorizationSafety.v ===== *)
(** * What the authorization store promises

    Over any interleaving of claims, completions, issuances and retirements: an operation
    is claimed once and completed once, a session is never used more often than it was
    issued for, a grant of credit never pays for more than its capacity, and an answer
    from the store is about the operation that was asked for. *)

From stdpp Require Import relations.
From S2P Require Import Prelude JsValues BitPacking Base64 VersionedRecords Capabilities AuthorizationDomain WalletSessionValues AuthorizationTables AuthorizedOperations WalletSessionIssuance AuthorizationWrites AuthorizationSystem AuthorizationRuns.
Local Open Scope Z_scope.
Local Open Scope js_scope.

Section Safety.
Context (sha256 : string -> list Z).
Notation admission := (admitAuthorizedOperationRecord sha256).

(** ** Claims *)

(** A claim of an operation leaves its row, and no later claim gets past it. *)
Lemma claim_blocks env1 scope1 operation1 material1 db0 db1 env2 scope2 operation2 material2 db2 db3 :
  auth_inv db0 -> claims_here env1 scope1 operation1 material1 db0 db1 -> rtc auth_step db1 db2 ->
  claims_here env2 scope2 operation2 material2 db2 db3 ->
  ao_tenantId operation1 = ao_tenantId operation2 ->
  operationFingerprintDigest operation1 <> operationFingerprintDigest operation2.
Proof.
  intros Hi H1 Hs H2 Ht Hf. pose proof (step_claim _ _ _ _ H1) as Hstep. apply insert_effect in H1, H2.
  destruct (rows_kept_steps db1 db2 (auth_inv_step _ _ Hi Hstep) Hs (claimed_row (claim_columns scope1 operation1 material1 db0)))
    as (r & Hr & Hk & _).
  { rewrite (ce_operations _ _ _ H1). set_solver. }
  pose proof (proj1 (existsb_none _ _) (ce_new_fingerprint _ _ _ H2) r Hr) as Hno.
  apply not_true_iff_false in Hno. apply Hno. apply with_fingerprint_spec. unfold op_fingerprint. rewrite Hk. simpl. congruence.
Qed.

(** C5. An operation is claimed at most once.  After an admission claimed an operation, and
    whatever happened to the store since, another admission of the same operation, by any
    caller, authorization, identifiers, material and clock and with any fault, does not
    claim it again and writes nothing. *)
Theorem claimed_once env1 scope1 input1 material1 snapshot1 env2 scope2 input2 material2 snapshot2
    db0 operation row db1 db2 res db3 :
  reachable db0 ->
  admission env1 scope1 input1 material1 snapshot1 db0 = (Ok (OutcomeClaimed operation row), db1) ->
  rtc auth_step db1 db2 -> oi_operation input2 = oi_operation input1 ->
  admission env2 scope2 input2 material2 snapshot2 db2 = (res, db3) ->
  db3 = db2 /\ forall operation' row', res <> Ok (OutcomeClaimed operation' row').
Proof.
  intros Hr%auth_reachable_inv H1 Hs He H2.
  apply admission_run in H1 as [(op1 & row1 & Hb1 & _ & Hc1 & _)|[[] _]].
  assert (forall op2, buildAuthorizedOperation sha256 input2 = Ok op2 -> ~ claims_here env2 scope2 op2 material2 db2 db3) as Hno.
  { intros op2 Hb2 Hc2. apply built_operation in Hb1 as (Ht1 & Hf1 & Eo1), Hb2 as (Ht2 & Hf2 & Eo2).
    eapply claim_blocks; [exact Hr|exact Hc1|exact Hs|exact Hc2| |].
    - rewrite Eo1, Eo2. simpl. by rewrite Ht1, Ht2, He.
    - rewrite He, Hf1 in Hf2. by injection Hf2. }
  apply admission_run in H2 as [(op2 & row2 & Hb2 & _ & Hc2 & _)|[Hres [->|(_ & op2 & Hb2 & Hc2)]]];
    [destruct (Hno op2 Hb2 Hc2)| |destruct (Hno op2 Hb2 Hc2)].
  split; [done|]. intros operation' row' ->. done.
Qed.

(** C16. An admission writes a claim or nothing.  It answers [claimed] exactly when its own row
    was inserted and the answer arrived, and then with the operation it was asked to admit;
    any other answer or error leaves the store as it was, unless the answer of the insert
    was lost. *)
Theorem admission_effect env scope input material snapshot db res db' :
  input_wf input -> admission env scope input material snapshot db = (res, db') ->
  (exists operation row, buildAuthorizedOperation sha256 input = Ok operation /\ res = Ok (OutcomeClaimed operation row) /\
     env_fault env = NoFault /\ claim_effect db (claim_columns scope operation material db) db') \/
  ((forall operation row, res <> Ok (OutcomeClaimed operation row)) /\
   (db' = db \/ env_fault env = AnswerLost true /\ exists operation, buildAuthorizedOperation sha256 input = Ok operation /\
      claim_effect db (claim_columns scope operation material db) db')).
Proof.
  intros Hw [(op & row & Hb & Hf & Hc & Hrow & Hres)|[Hres Hcases]]%admission_run.
  - left. exists op, row. rewrite Hrow in Hres. unfold claimed_row, claim_columns in Hres.
    rewrite (operation_row_reads sha256 _ _ _ _ _ _ LifecycleClaimed Hw Hb) in Hres by done.
    apply insert_effect in Hc. split_and!; try done. rewrite Hres. apply built_operation in Hb as (_ & _ & ->). done.
  - right. split; [by intros op row ->|]. destruct Hcases as [->|(Hf & op & Hb & Hc)]; [by left|right].
    split; [done|]. exists op. split; [done|]. by eapply insert_effect.
Qed.

(** C12. An answer from the store is about the operation that was asked for.  When an admission
    is answered with a stored operation, replayed or still in progress, the stored
    operation has the very envelope of the request, was authorized by the same source and
    was charged to the same quota; the only other possibility is that two texts collide
    under SHA-256. *)
Theorem answered_operation env scope input material snapshot db stored row answer db' :
  (forall t, digits 256 (sha256 t)) -> input_wf input ->
  admission env scope input material snapshot db = (Ok (OutcomeExisting answer), db') ->
  answer = ExistingReplayed stored row \/ answer = ExistingInProgress stored row ->
  (ao_operation stored = oi_operation input \/ exists t t', t <> t' /\ sha256 t = sha256 t') /\
  authorization stored = oi_authorization input /\ quota stored = oi_quota input.
Proof.
  intros Hb Hw (operation & Hop & Hs)%admission_answer_sound Ha.
  assert (with_fingerprint (ao_tenantId operation) (operationFingerprintDigest operation) (ad_row row) = true /\
    parseAuthorizedOperationRow sha256 (ad_row row) = Ok stored /\
    authorizedOperationReplayMismatch row operation material scope = Ok None) as (Hf & Hp & Hm).
  { by destruct Ha as [-> | ->]. }
  apply built_operation in Hop as (Ht & Hfp & Eop). apply stored_fields in Hp as (Hsrc & Hq & Hc).
  apply mismatch_none in Hm as (Hk & Hid & Hqk & Hqid). rewrite Eop in Hk, Hid, Hqk, Hqid. simpl in Hk, Hid, Hqk, Hqid.
  apply with_fingerprint_spec in Hf. unfold op_fingerprint in Hf. injection Hf as _ Hf. rewrite Hf in Hc.
  split_and!.
  - eapply fingerprint_collision; [done|exact Hc|exact Hfp].
  - eapply stored_source; [exact (iw_source _ Hw)|done|done|exact Hsrc].
  - eapply stored_quota; [exact (iw_quota _ Hw)|done|done|exact Hq].
Qed.

(** ** Completions *)

(** C11. A completion is final.  Once an operation is completed, then however the store changes
    it is read as the same completed operation, and a second completion of it, with
    whatever result, writes nothing and returns the first. *)
Theorem completed_final fault lost operation result response completedAtMs db0 completed db1 db2 :
  reachable db0 ->
  completeAuthorizedOperation sha256 fault lost operation result response completedAtMs db0 = (Ok completed, db1) ->
  ao_lifecycle completed <> LifecycleClaimed -> rtc auth_step db1 db2 ->
  readAuthorizedOperation sha256 false (ao_tenantId operation) (operationFingerprintDigest operation) db2 = (Ok (Some completed), db2) /\
  forall result' response' completedAtMs' res db3,
    completeAuthorizedOperation sha256 NoFault false operation result' response' completedAtMs' db2 = (res, db3) ->
    db3 = db2 /\ forall statement,
      prepareWalletOperationCompletion sha256 operation result' response' completedAtMs' = Ok statement -> res = Ok completed.
Proof.
  intros Hi%auth_reachable_inv Hc Hl Hs. destruct (completion_run sha256 _ _ _ _ _ _ _ _ _ (av_operations _ Hi) Hc) as (Hstep & row & Hr & Hk & Hp).
  assert (auth_inv db1) as Hi1 by (destruct Hstep as [->|?]; [done|by eapply auth_inv_step]).
  pose proof (completed_lifecycle sha256 _ _ Hp Hl) as Hfinal.
  destruct (rows_kept_steps _ _ Hi1 Hs row Hr) as (row' & Hr' & _ & Hsame). rewrite (Hsame Hfinal) in Hr'.
  eapply final_completion; [exact (av_operations _ (auth_inv_steps _ _ Hi1 Hs))|done..].
Qed.

(** A stored row reads as the operation that was claimed: the row of a well-formed
    operation, whatever its material and generation, and after a completion the same
    operation with the result, the answer, its digest and the time it was completed with. *)
Theorem operation_row_roundtrip input operation scope material generation :
  input_wf input -> buildAuthorizedOperation sha256 input = Ok operation ->
  let columns := operation_columns scope operation material generation in
  parseAuthorizedOperationRow sha256 (mkOperationRow columns claimed_outcome) = Ok operation /\
  forall value result response digest completedAtMs,
    parseAuthorizedOperationReplayResponse value = Ok response ->
    computeAuthorizedOperationResultDigest sha256 (response_value response) = Ok digest ->
    0 < completedAtMs <= MAX_SAFE_INTEGER ->
    parseAuthorizedOperationRow sha256 (mkOperationRow columns (completed_outcome result response digest completedAtMs)) =
      Ok (with_lifecycle operation (LifecycleCompleted result response digest completedAtMs)).
Proof.
  intros Hw Hb columns. split.
  - unfold columns. rewrite (operation_row_reads sha256 _ _ _ _ _ _ LifecycleClaimed Hw Hb) by done.
    apply built_operation in Hb as (_ & _ & ->). done.
  - intros value result response digest at_ Hr Hd Ht. apply (operation_row_reads sha256 input); try done.
    by eapply completed_outcome_reads.
Qed.

(** ** Sessions, credits and audits *)

(** C6. A session is used as often as it was issued for and no more.  From the issuance of a
    session with some uses on, the operations that its quota paid for and the uses that
    are left make up no more than those uses, and exactly those as long as the quota is
    active. *)
Theorem session_uses_bounded fault scope p mode purpose db0 generation db1 db2 :
  reachable db0 -> issuable scope p db0 ->
  commitDirectWalletSessionAuthorizationV2WithMode fault scope p mode purpose db0 = (Ok (SessionInserted generation), db1) ->
  rtc auth_step db1 db2 ->
  let k := (tenantId (ps_session p), quotaId (ps_session p)) in
  exists q, q ∈ quotas db2 /\ quota_key q = k /\ 0 <= qr_remainingUses q /\
    uses k db2 + qr_remainingUses q <= aq_remainingUses (ps_quota p) /\
    (qr_lifecycle q = QuotaActive -> uses k db2 + qr_remainingUses q = aq_remainingUses (ps_quota p)).
Proof.
  intros Hi%auth_reachable_inv Hiss Hrun Hs k.
  destruct (issuance_run fault scope p mode purpose db0 generation db1 Hiss Hi Hrun) as (dbi & Hstep & Hissued & Hsame & Hdb).
  pose proof (auth_inv_step _ _ Hi Hstep) as Hinvi.
  destruct (issuable_fields _ _ _ Hiss) as (_ & Hq & _). unfold quota_of_session in Hq. conditions.
  assert (quota_key (quota_row (ps_quota p)) = k) as Hkey by (unfold quota_key, k; simpl; congruence).
  assert (rtc auth_step dbi db2) as Hsi by (destruct Hdb as [->|?]; [done|eapply rtc_l; [by apply step_surroundings|done]]).
  assert (uses k dbi = 0) as Hzero.
  { rewrite (uses_same_operations _ db0) by by destruct Hsame as [-> _].
    unfold uses. destruct (List.filter _ (operations db0)) as [|r l] eqn:E; [done|]. exfalso.
    assert (r ∈ operations db0 /\ uses_quota k.1 k.2 r = true) as [Hr Hu] by (apply elem_filter; rewrite E; by left).
    unfold uses_quota in Hu. conditions. destruct (av_quotas _ Hi r k.2) as (q & Hin & Ek); [done|done|].
    destruct (available_quota (session_row scope p) db0 q) as [Hno _].
    - eapply issuable_no_foreign; [done|exact (av_sessions _ Hi)].
    - by destruct Hissued.
    - done.
    - unfold quota_key in Ek. simpl in *. congruence.
    - unfold quota_key in Ek. simpl in *. congruence. }
  destruct Hissued as (_ & qs & ss & _ & Hqs & _).
  destruct (quota_spent_steps _ _ Hinvi Hsi (quota_row (ps_quota p))) as (q & Hin & Ek & Hpos & Hle & Hact).
  { rewrite Hqs. set_solver. }
  rewrite Hkey, Hzero in *. exists q. simpl in *. split_and!; [done|done|done|lia|]. intros Ha. destruct (Hact Ha). lia.
Qed.

(** C19. One open session per authority and method.  In every database that is reached by
    issuing sessions under identifiers and credential digests of their own ([issuable]), by
    claims, completions and retirements and by changes around them: no two open sessions
    are of the same wallet, authority and method in one scope and tenant, and a quota with
    uses left is of an open session. *)
Theorem open_session_unique db : reachable db ->
  NoDup (map slot (List.filter is_open (sessions db))) /\
  forall q, q ∈ quotas db -> 0 < qr_remainingUses q -> exists s, s ∈ sessions db /\ is_open s = true /\ quota_of_row q s.
Proof.
  intros Hi%auth_reachable_inv. destruct (av_sessions _ Hi) as [_ _ Hs Hr Ho]. split; [done|].
  intros q Hq Hpos. destruct (Hs q Hq) as (s & Hin & Hof). exists s. split; [done|]. split; [|done].
  destruct (is_open s) eqn:E; [done|]. destruct Hof as [Hk _]. rewrite (Hr s q Hin E Hq Hk) in Hpos. lia.
Qed.

(** C27. The audit log is the operations.  In every database that is reached there is exactly
    one event per operation, in the order of the claims, with the outcome of the
    operation, and no two operations share an identifier or a fingerprint. *)
Theorem audits_agree db : reachable db ->
  audits db = map audit_of (operations db) /\ NoDup (map op_id (operations db)) /\ NoDup (map op_fingerprint (operations db)).
Proof. intros Hi%auth_reachable_inv. by destruct (av_operations _ Hi). Qed.

(** C28. Credit is not overdrawn.  In every database that is reached, the operations that a
    grant of credit paid for, each of them counted once, are no more than its capacity. *)
Theorem credit_within_capacity db g : reachable db -> g ∈ creditGrants db ->
  NoDup (map claim_key (creditClaims db)) /\
  (forall cl, cl ∈ creditClaims db -> claim_key cl ∈ map op_id (operations db)) /\
  claims_on (grant_key g) db <= cg_admittedCount g <= cg_capacity g.
Proof.
  intros Hi%auth_reachable_inv Hg. destruct (av_credits _ Hi) as [_ Hch Hcl Hop _ Hn]. split_and!; try done; [by apply Hn|].
  specialize (Hch g Hg). unfold grant_check in Hch. lia.
Qed.
End Safety.

(** ** An example *)

Definition example_hash (text : string) : list Z := repeat (Z.of_nat (String.length text) mod 256) 32.

Definition example_scope : WalletScope := mkScope "organization" "project" "development".

(** A session of two uses. *)
Definition example_persisted : PersistedActiveWalletSession :=
  mkPersisted example_session (mkActiveQuota "org" "principal" "session" "quota" 2 61000) example_digest.

(** A wallet that executes here, with its authority and method, that pays with a grant. *)
Definition example_empty : AuthDb :=
  mkAuthDb [] [] [] [] [] [] [] [mkGenerationRow example_scope "wallet" 1 "registration" "ceremony" "active" "established"] [] []
    (mkSurroundings [mkAuthorityRow example_scope "authority" "wallet" "active" example_digest 0]
       [mkMethodRow example_scope "method" "wallet" "authority" "active"] []
       [mkPolicyRow "org" "project" "development" (ModeCredit "grant")] [] []).

Definition example_grant : CreditGrantRow := mkGrantRow "org" "grant" 5 90000 0 false.
Definition example_start : AuthDb := set_credits [example_grant] [] example_empty.

Definition example_issued : AuthDb :=
  (commitDirectWalletSessionAuthorizationV2WithMode NoFault example_scope example_persisted Strict PurposeOrdinary example_start).2.

Definition example_env : AdmissionEnv := mkAdmissionEnv NoFault false 2000 2000.

Definition example_envelope : CapabilityOperationEnvelope :=
  mkEnvelope "org" "principal" "capability" "operation" (NearOperation nearSignTransaction) example_digest example_digest
    example_digest.

Definition example_input (authorizedOperationId auditEventId : string) : AuthorizedOperationInput :=
  mkAuthorizedOperationInput "org" authorizedOperationId auditEventId 2000 example_envelope (AuthorizationGrant "auth")
    (ConsumeReusableWalletSession "quota").

Notation example_admission id event := (admitAuthorizedOperationRecord example_hash example_env example_scope
  (example_input id event) None None).

Definition example_claimed : AuthDb := (example_admission "claim-1" "event-1" example_issued).2.

Definition example_operation : AuthorizedOperation :=
  mkAuthorizedOperation "org" "claim-1" "event-1" 2000 example_envelope
    (base64UrlEncode (example_hash (canonicalCapabilityOperationFingerprintPreimageV1 example_envelope)))
    (AuthorizationGrant "auth") (ConsumeReusableWalletSession "quota") LifecycleClaimed.

Definition example_response : JsVal := response_value (mkReplayResponse 200 "application/json" "{}").

Notation example_completion at_ := (completeAuthorizedOperation example_hash NoFault false example_operation succeeded
  example_response at_).

Definition example_completed : AuthDb := (example_completion 3000 example_claimed).2.

Lemma example_start_reachable : reachable example_start.
Proof.
  exists example_empty. split; [done|]. apply rtc_once, step_surroundings. split; try done. split_and!.
  - by apply NoDup_singleton.
  - by repeat constructor.
  - intros g Hg. by apply elem_of_nil in Hg.
Qed.

Lemma example_issuable : issuable example_scope example_persisted example_start.
Proof.
  split; [exact example_session_wf|vm_compute; done..| |]; intros s Hs; by apply elem_of_nil in Hs.
Qed.

Lemma example_issuance : exists generation,
  commitDirectWalletSessionAuthorizationV2WithMode NoFault example_scope example_persisted Strict PurposeOrdinary example_start =
    (Ok (SessionInserted generation), example_issued).
Proof. eexists. vm_compute. reflexivity. Qed.

(** A next session under the credential of the last. *)
Definition example_repeated : PersistedActiveWalletSession :=
  mkPersisted
    (mkSession "org" "principal" "wallet" "authority" "method" example_digest 0 "mint-2" "auth-2" "session-2" "quota-2"
       (capabilitySubjects example_session) (createdAtMs example_session) (expiresAtMs example_session))
    (mkActiveQuota "org" "principal" "session-2" "quota-2" 2 61000) example_digest.

(** The insert of the session is ignored and its quota stays, without a session, while the
    session before has ended: what [is_fresh] keeps out. *)
Example repeated_credential_leaves_quota : exists message db,
  commitDirectWalletSessionAuthorizationV2WithMode NoFault example_scope example_repeated Strict PurposeOrdinary example_issued =
    (Throw (JsError message), db) /\
  message = "Direct V2 Wallet Session transaction persisted an incomplete identity" /\
  map qr_quotaId (List.filter (fun q => 0 <? qr_remainingUses q) (quotas db)) = ["quota-2"] /\
  List.filter is_open (sessions db) = [].
Proof. do 2 eexists. split; [vm_compute; reflexivity|]. vm_compute. done. Qed.

Lemma example_input_wf id event : opaque_id id = true -> opaque_id event = true -> input_wf (example_input id event).
Proof.
  intros Hi He. split; simpl; [|by repeat constructor|done|done|unfold MAX_SAFE_INTEGER; lia].
  repeat constructor; done.
Qed.

Lemma example_claim : exists operation row,
  example_admission "claim-1" "event-1" example_issued = (Ok (OutcomeClaimed operation row), example_claimed).
Proof. do 2 eexists. vm_compute. reflexivity. Qed.

Lemma example_issued_reachable : reachable example_issued.
Proof.
  eapply reachable_step; [exact example_start_reachable|].
  eapply (step_issue _ example_scope example_persisted); [exact example_issuable|]. vm_compute. reflexivity.
Qed.

Lemma example_claim_step : auth_step example_issued example_claimed.
Proof.
  apply (step_claim _ 2000 (claim_columns example_scope example_operation None example_issued)). vm_compute. reflexivity.
Qed.

Lemma example_claimed_reachable : reachable example_claimed.
Proof. eapply reachable_step; [exact example_issued_reachable|exact example_claim_step]. Qed.

Lemma example_bytes text : digits 256 (example_hash text).
Proof.
  unfold digits, example_hash. apply Forall_forall. intros z Hz. apply list_elem_of_In, repeat_spec in Hz as ->.
  apply Z.mod_pos_bound. lia.
Qed.

(** A second request for the claimed operation, with identifiers of its own. *)
Lemma claimed_once_witness :
  reachable example_issued /\
  (example_admission "claim-2" "event-2" example_claimed).2 = example_claimed /\
  forall operation row, (example_admission "claim-2" "event-2" example_claimed).1 <> Ok (OutcomeClaimed operation row).
Proof.
  split; [exact example_issued_reachable|]. destruct example_claim as (operation & row & Hc).
  destruct (example_admission "claim-2" "event-2" example_claimed) as [res db3] eqn:E.
  exact (claimed_once example_hash example_env example_scope (example_input "claim-1" "event-1") None None
    example_env example_scope (example_input "claim-2" "event-2") None None example_issued operation row example_claimed
    example_claimed res db3 example_issued_reachable Hc (rtc_refl _ _) eq_refl E).
Defined.

Lemma admission_effect_witness : exists operation row,
  example_admission "claim-1" "event-1" example_issued = (Ok (OutcomeClaimed operation row), example_claimed) /\
  operation = example_operation.
Proof.
  destruct example_claim as (operation & row & Hc). exists operation, row. split; [exact Hc|].
  destruct (admission_effect example_hash example_env example_scope (example_input "claim-1" "event-1") None None
    example_issued _ _ (example_input_wf "claim-1" "event-1" eq_refl eq_refl) Hc) as [(op & r & Hb & Hr & _)|[Hn _]].
  - injection Hr as <- _. vm_compute in Hb. injection Hb as <-. vm_compute. reflexivity.
  - by destruct (Hn operation row).
Defined.

Lemma answered_operation_witness : exists stored row,
  (example_admission "claim-2" "event-2" example_claimed).1 = Ok (OutcomeExisting (ExistingInProgress stored row)) /\
  quota stored = ConsumeReusableWalletSession "quota".
Proof.
  assert (exists stored row, example_admission "claim-2" "event-2" example_claimed =
    (Ok (OutcomeExisting (ExistingInProgress stored row)), example_claimed)) as (stored & row & H).
  { do 2 eexists. vm_compute. reflexivity. }
  exists stored, row. split; [by rewrite H|].
  exact (proj2 (proj2 (answered_operation example_hash example_env example_scope (example_input "claim-2" "event-2") None None
    example_claimed stored row _ _ example_bytes (example_input_wf "claim-2" "event-2" eq_refl eq_refl) H (or_intror eq_refl)))).
Defined.

(** A second completion with another time returns the first. *)
Lemma completed_final_witness : exists completed,
  (example_completion 3000 example_claimed).1 = Ok completed /\ (example_completion 4000 example_completed).1 = Ok completed.
Proof.
  assert (exists completed, example_completion 3000 example_claimed = (Ok completed, example_completed) /\
    ao_lifecycle completed <> LifecycleClaimed) as (completed & Hc & Hl).
  { eexists. split; [vm_compute; reflexivity|done]. }
  exists completed. split; [by rewrite Hc|].
  destruct (completed_final example_hash _ _ _ _ _ _ _ _ _ example_completed example_claimed_reachable Hc Hl (rtc_refl _ _))
    as [_ Hagain].
  destruct (example_completion 4000 example_completed) as [res db3] eqn:E.
  destruct (Hagain _ _ _ _ _ E) as [_ Hres]. simpl. eapply Hres. vm_compute. reflexivity.
Defined.

Lemma operation_row_roundtrip_witness :
  parseAuthorizedOperationRow example_hash
    (mkOperationRow (operation_columns example_scope example_operation None (Some 1)) claimed_outcome) = Ok example_operation.
Proof.
  assert (buildAuthorizedOperation example_hash (example_input "claim-1" "event-1") = Ok example_operation) as Hb.
  { vm_compute. reflexivity. }
  exact (proj1 (operation_row_roundtrip example_hash (example_input "claim-1" "event-1") example_operation example_scope None
    (Some 1) (example_input_wf "claim-1" "event-1" eq_refl eq_refl) Hb)).
Defined.

(** One of the two uses is gone. *)
Lemma session_uses_bounded_witness : exists q, q ∈ quotas example_claimed /\ qr_remainingUses q = 1 /\
  uses ("org", "quota") example_claimed = 1 /\ uses ("org", "quota") example_claimed + qr_remainingUses q = 2.
Proof.
  destruct example_issuance as (generation & Hi).
  destruct (session_uses_bounded NoFault example_scope example_persisted Strict PurposeOrdinary example_start generation
    example_issued example_claimed example_start_reachable example_issuable Hi (rtc_once _ _ example_claim_step))
    as (q & Hq & _ & _ & _ & Hact).
  assert (qr_remainingUses q = 1 /\ qr_lifecycle q = QuotaActive) as [Hone Ha].
  { vm_compute in Hq. apply list_elem_of_singleton in Hq as ->. split; reflexivity. }
  exists q. split; [exact Hq|]. split; [exact Hone|]. split; [vm_compute; reflexivity|]. exact (Hact Ha).
Defined.

Lemma open_session_unique_witness : length (List.filter is_open (sessions example_claimed)) = 1%nat /\
  NoDup (map slot (List.filter is_open (sessions example_claimed))).
Proof. split; [vm_compute; reflexivity|]. exact (proj1 (open_session_unique example_claimed example_claimed_reachable)). Defined.

Lemma audits_agree_witness : length (operations example_claimed) = 1%nat /\
  audits example_claimed = map audit_of (operations example_claimed).
Proof. split; [vm_compute; reflexivity|]. exact (proj1 (audits_agree example_claimed example_claimed_reachable)). Defined.

Lemma credit_within_capacity_witness : claims_on ("org", "grant") example_claimed = 1 /\ exists g,
  g ∈ creditGrants example_claimed /\ cg_capacity g = 5 /\ claims_on (grant_key g) example_claimed <= cg_admittedCount g <= cg_capacity g.
Proof.
  split; [vm_compute; reflexivity|]. exists (admit_one example_grant).
  assert (admit_one example_grant ∈ creditGrants example_claimed) as Hg by (vm_compute; constructor).
  split; [exact Hg|]. split; [reflexivity|].
  exact (proj2 (proj2 (credit_within_capacity example_claimed (admit_one example_grant) example_claimed_reachable Hg))).
Defined.
