(* ===== verification/WalletSessionReads.v ===== *)
(** * Reading wallet sessions

    The reads of [authorizationStore/sessions.ts] of
    [packages/wallet-server/src/router/cloudflare/d1/authorization] that give a session with
    its quota: one joined row, checked against its own record and against the authority
    and the method it names. *)

From S2P Require Import Prelude JsValues Base64 VersionedRecords Capabilities AuthorizationDomain WalletSessionValues AuthorizationTables AuthorizedOperations WalletSessionIssuance.
Local Open Scope Z_scope.
Local Open Scope js_scope.

(** ** The joined row *)

(** A session with the authority, the method and the quota that the [LEFT JOIN]s find for
    it.  The columns that only other reads use are left out. *)
Record JoinedRow : Type := mkJoined {
  j_session : SessionRow;
  j_authority : option AuthorityRow;
  j_method : option MethodRow;
  j_quota : option QuotaRow;
}.

Definition joined_row (scope : WalletScope) (db : AuthDb) (s : SessionRow) : JoinedRow :=
  let i := sr_identity s in
  mkJoined s
    (List.find (fun a => bool_decide (ar_scope a = scope) && same (ar_authorityId a) (si_authorityId i) &&
      same (ar_walletId a) (si_walletId i)) (authorities (around db)))
    (List.find (fun m => bool_decide (mr_scope m = scope) && same (mr_walletAuthMethodId m) (si_walletAuthMethodId i) &&
      same (mr_walletId m) (si_walletId i) && same (mr_authorityId m) (si_authorityId i)) (authMethods (around db)))
    (List.find (fun q => same (qr_tenantId q) (si_tenantId i) && same (qr_quotaId q) (si_quotaId i)) (quotas db)).

Inductive LookupColumn : Type := MintId | AuthorizationId | OperationCredentialHash.

Definition lookup_is (column : LookupColumn) (value : string) (s : SessionRow) : bool :=
  match column with
  | MintId => same (sr_mintId s) value
  | AuthorizationId => same (si_authorizationId (sr_identity s)) value
  | OperationCredentialHash => sql_eq (sr_credentialHash s) value
  end.

Definition readJoinedWalletSessionAuthorizationV2Row (scope : WalletScope) (column : LookupColumn)
    (tenantId value : string) (db : AuthDb) : option JoinedRow :=
  joined_row scope db <$>
    List.find (fun s => in_tenant scope tenantId (sr_identity s) && lookup_is column value s) (sessions db).

(** ** Parsing it *)

(** [WalletSessionAuthorizationV2Read]: what the caller knows of the session. *)
Inductive WalletSessionAuthorizationV2Read : Type :=
| ReadExpected (expected : WalletSessionAuthorizationV2)
| ReadIdentity (tenantId walletId walletSessionId authorizationId : string)
| ReadCredential (operationCredentialHash tenantId : string).

(** The authority and the method that were joined are the session's own and in force. *)
Definition provenance_active (row : JoinedRow) (s : WalletSessionAuthorizationV2) : Result bool :=
  match j_authority row with
  | None => Ok false
  | Some a =>
      if same (ar_authorityId a) (authorityId s) && same (ar_walletId a) (walletId s) &&
         same (ar_lifecycleState a) "active" && same (ar_authorityDigest a) (authorityDigestB64u s)
      then
        let* epoch := integerColumn (JInt (ar_revocationEpoch a)) "authority.revocationEpoch" in
        Ok ((epoch =? authorityRevocationEpoch s) &&
            match j_method row with
            | Some m => same (mr_walletAuthMethodId m) (walletAuthMethodId s) && same (mr_walletId m) (walletId s) &&
                same (mr_authorityId m) (authorityId s) && same (mr_status m) "active"
            | None => false
            end)
      else Ok false
  end.

(** Whether a session is the one the caller asked for. *)
Definition read_matches (input : WalletSessionAuthorizationV2Read) (s : WalletSessionAuthorizationV2) : Result unit :=
  match input with
  | ReadIdentity _ wallet walletSession authorization =>
      if same (walletId s) wallet && same (walletSessionId s) walletSession && same (authorizationId s) authorization
      then Ok tt else Throw (JsError "Stored V2 Wallet Session identity does not match the request")
  | ReadExpected expected =>
      if walletSessionAuthorizationV2RecordsEqual s expected then Ok tt
      else Throw (JsError "Stored V2 Wallet Session authorization replay does not match")
  | ReadCredential _ _ => Ok tt
  end.

Definition parseLiveWalletSessionAuthorizationV2Row (row : JoinedRow) (input : WalletSessionAuthorizationV2Read)
    (nowMs : Z) : Result WalletSessionAuthorizationV2 :=
  let r := j_session row in
  match sr_retiredAtMs r with
  | Some _ => Throw (JsError "Stored V2 Wallet Session authorization is retired")
  | None =>
      let* session := parsePersistedWalletSessionAuthorizationV2 (sr_record r) in
      if negb (walletSessionAuthorizationV2RowMatches r session)
      then Throw (JsError "Stored V2 Wallet Session authorization columns disagree with record")
      else
        let* subjectsRecord := parseWalletSessionAuthorizationV2WithSubjects r (sr_capabilitySubjects r) in
        if negb (walletSessionAuthorizationV2RecordsEqual subjectsRecord session)
        then Throw (JsError "Stored V2 Wallet Session capability subjects disagree with record")
        else
          let* active := provenance_active row session in
          if negb active
          then Throw (JsError "Stored V2 Wallet Session authority provenance is no longer active")
          else
            let* _ := read_matches input session in
            let* now := requirePositiveInteger (JInt nowMs) "V2 authorization read time" in
            if expiresAtMs session <=? now
            then Throw (JsError "Stored V2 Wallet Session authorization has expired")
            else Ok session
  end.

(** The quota columns of a row: parsed, and of the session. *)
Definition quota_columns (q : QuotaRow) (remaining : JsVal -> string -> Result Z) (s : WalletSessionAuthorizationV2)
  : Result ActiveWalletSessionQuota :=
  let* tenant := requireParsed (JString (qr_tenantId q)) parseTenantId "V2 quota.tenantId" in
  let* principal := requireParsed (JString (qr_principalId q)) parsePrincipalId "V2 quota.principalId" in
  let* walletSession := requireParsed (JString (qr_walletSessionId q)) parseWalletSessionId "V2 quota.walletSessionId" in
  let* quota := requireParsed (JString (qr_quotaId q)) parseMpcWalletSigningQuotaId "V2 quota.quotaId" in
  let* remainingUses := remaining (JInt (qr_remainingUses q)) "V2 quota.remainingUses" in
  let* expires := requirePositiveInteger (JInt (qr_expiresAtMs q)) "V2 quota.expiresAtMs" in
  let fields := mkActiveQuota tenant principal walletSession quota remainingUses expires in
  if negb (quota_of_session s fields)
  then Throw (JsError "Stored V2 Wallet Session quota identity does not match")
  else Ok fields.

Definition parseWalletSessionAuthorizationV2QuotaRow (row : JoinedRow) (s : WalletSessionAuthorizationV2)
  : Result ActiveWalletSessionQuota :=
  match j_quota row with
  | Some q =>
      if bool_decide (qr_lifecycle q = QuotaActive)
      then let* fields := quota_columns q requirePositiveInteger s in buildActiveWalletSessionQuota fields
      else Throw (JsError "Stored V2 Wallet Session quota is no longer active")
  | None => Throw (JsError "Stored V2 Wallet Session quota is no longer active")
  end.

Definition parseExactWalletSessionQuotaProjectionRow (row : JoinedRow) (s : WalletSessionAuthorizationV2)
  : Result (QuotaLifecycle * ActiveWalletSessionQuota) :=
  match j_quota row with
  | Some q => let* fields := quota_columns q integerColumn s in buildExactWalletSessionQuotaProjectionV1 (qr_lifecycle q) fields
  | None => Throw (JsError "Stored V2 Wallet Session quota row is missing")
  end.

(** ** Reads *)

(** [IssuedWalletSessionAuthorizationV2]. *)
Record IssuedWalletSessionAuthorizationV2 : Type := mkIssued {
  iw_session : WalletSessionAuthorizationV2;
  iw_quotaRow : ActiveWalletSessionQuota;
}.

(** The tenant and the value a read looks up. *)
Definition lookup_tenant (input : WalletSessionAuthorizationV2Read) : string :=
  match input with
  | ReadExpected expected => tenantId expected
  | ReadIdentity tenant _ _ _ => tenant
  | ReadCredential _ tenant => tenant
  end.

Definition lookup_value (column : LookupColumn) (input : WalletSessionAuthorizationV2Read) : string :=
  match input, column with
  | ReadExpected expected, MintId => mintId expected
  | ReadExpected expected, _ => authorizationId expected
  | ReadIdentity _ _ _ authorization, _ => authorization
  | ReadCredential hash _, _ => hash
  end.

Definition readWalletSessionAuthorizationV2 (lost : bool) (scope : WalletScope) (input : WalletSessionAuthorizationV2Read)
    (nowMs : Z) (column : LookupColumn) : M AuthDb (option IssuedWalletSessionAuthorizationV2) :=
  row <- read_db lost (readJoinedWalletSessionAuthorizationV2Row scope column (lookup_tenant input) (lookup_value column input)) ;;
  match row with
  | None => ret None
  | Some row =>
      session <- lift (parseLiveWalletSessionAuthorizationV2Row row input nowMs) ;;
      quota <- lift (parseWalletSessionAuthorizationV2QuotaRow row session) ;;
      ret (Some (mkIssued session quota))
  end.

Definition readWalletSessionAuthorizationV2ByAuthorizationId (lost : bool) (scope : WalletScope)
    (expected : WalletSessionAuthorizationV2) (nowMs : Z) : M AuthDb (option IssuedWalletSessionAuthorizationV2) :=
  readWalletSessionAuthorizationV2 lost scope (ReadExpected expected) nowMs AuthorizationId.

Definition readWalletSessionAuthorizationV2ByIdentity (lost : bool) (scope : WalletScope)
    (tenantId walletId walletSessionId authorizationId : string) (nowMs : Z)
  : M AuthDb (option IssuedWalletSessionAuthorizationV2) :=
  readWalletSessionAuthorizationV2 lost scope (ReadIdentity tenantId walletId walletSessionId authorizationId) nowMs AuthorizationId.

Definition readWalletSessionAuthorizationV2ByOperationCredential (lost : bool) (scope : WalletScope)
    (tenantId tokenHash : string) (nowMs : Z) : M AuthDb (option IssuedWalletSessionAuthorizationV2) :=
  readWalletSessionAuthorizationV2 lost scope (ReadCredential tokenHash tenantId) nowMs OperationCredentialHash.

(** The session with its quota, used up or not. *)
Definition readLiveWalletSessionAuthorizationProjectionV2 (lost : bool) (scope : WalletScope)
    (expected : WalletSessionAuthorizationV2) (nowMs : Z)
  : M AuthDb (option (WalletSessionAuthorizationV2 * (QuotaLifecycle * ActiveWalletSessionQuota))) :=
  row <- read_db lost (readJoinedWalletSessionAuthorizationV2Row scope AuthorizationId (tenantId expected) (authorizationId expected)) ;;
  match row with
  | None => ret None
  | Some row =>
      session <- lift (parseLiveWalletSessionAuthorizationV2Row row (ReadExpected expected) nowMs) ;;
      quota <- lift (parseExactWalletSessionQuotaProjectionRow row session) ;;
      ret (Some (session, quota))
  end.

(** The record of an open session, whatever became of its quota and authority. *)
Definition readActiveWalletSessionAuthorizationV2ByIdentity (lost : bool) (scope : WalletScope)
    (tenant wallet walletSession authorization : string) (nowMs : Z) : M AuthDb (option WalletSessionAuthorizationV2) :=
  row <- read_db lost (fun db => List.find (fun s => let i := sr_identity s in
    in_tenant scope tenant i && same (si_walletId i) wallet && same (si_walletSessionId i) walletSession &&
    same (si_authorizationId i) authorization) (sessions db)) ;;
  match row with
  | None => ret None
  | Some r =>
      match sr_retiredAtMs r with
      | Some _ => ret None
      | None =>
          session <- lift (parsePersistedWalletSessionAuthorizationV2 (sr_record r)) ;;
          if negb (same (tenantId session) tenant && same (walletId session) wallet &&
            same (walletSessionId session) walletSession && same (authorizationId session) authorization)
          then throw (JsError "Stored V2 Wallet Session identity does not match the request")
          else
            now <- lift (requirePositiveInteger (JInt nowMs) "V2 authorization read time") ;;
            ret (if now <? expiresAtMs session then Some session else None)
      end
  end.
