(* ===== verification/HostedSessions.v ===== *)
(** * Hosted wallet sessions

    [authorizationStore/hostedSessions.ts] of
    [packages/wallet-server/src/router/cloudflare/d1/authorization]: a session of the wallet
    hands an application a code that can be exchanged once for a credential of its own.
    The credential works as long as the session does. *)

From S2P Require Import Prelude JsValues Base64 VersionedRecords Capabilities AuthorizationDomain WalletSessionValues AuthorizationTables AuthorizedOperations WalletSessionIssuance WalletSessionReads.
Local Open Scope Z_scope.
Local Open Scope js_scope.

(** ** Values *)

Definition parseAuthorizationDomainId (value : JsVal) (fieldName : string) : Result string :=
  match value with
  | JString s =>
      if negb (bool_decide (trim s = s)) || negb (nonempty s) || (512 <? String.length s)%nat
         || hasWhitespaceOrControlCharacters s
      then Throw (JsError (fieldName +:+ " must be a compact opaque identifier"))
      else Ok s
  | _ => Throw (JsError (fieldName +:+ " must be a compact opaque identifier"))
  end.

Definition parseHostedWalletSessionCredentialId (value : JsVal) : Result string :=
  parseAuthorizationDomainId value "hostedWalletSessionCredentialId".

(** The parts of a [URL] that are looked at. *)
Record Url : Type := mkUrl {
  url_protocol : string;
  url_origin : string;
  url_pathname : string;
  url_search : string;
  url_hash : string;
}.

(** [parseSessionOrigin]; [parseUrl] is [new URL(value)], [None] its error. *)
Definition parseSessionOrigin (parseUrl : string -> option Url) (value : JsVal) : Result string :=
  let invalid := Throw (JsError "session origin must be a canonical HTTP origin") in
  match value with
  | JString s =>
      if negb (bool_decide (trim s = s)) then invalid
      else
        match parseUrl s with
        | None => invalid
        | Some url =>
            if negb (same (url_protocol url) "https:") && negb (same (url_protocol url) "http:") ||
               negb (same (url_origin url) s) || negb (same (url_pathname url) "/") ||
               nonempty (url_search url) || nonempty (url_hash url)
            then invalid else Ok s
        end
  | _ => invalid
  end.

(** [IssuedHostedWalletSeamsSessionExchangeV2]: the code with the session it is for. *)
Record IssuedHostedExchange : Type := mkIssuedExchange {
  ix_tenantId : string;
  ix_exchangeCodeId : string;
  ix_authorizationId : string;
  ix_walletSessionId : string;
  ix_quotaId : string;
  ix_principalId : string;
  ix_walletId : string;
  ix_authorityId : string;
  ix_walletAuthMethodId : string;
  ix_codeHash : string;
  ix_nonceDigest : string;
  ix_appOrigin : string;
  ix_walletOrigin : string;
  ix_issuedAtMs : Z;
  ix_expiresAtMs : Z;
}.

(** [RedeemHostedWalletSeamsSessionExchangeV2Input]. *)
Record RedeemInput : Type := mkRedeemInput {
  ri_codeHash : string;
  ri_nonceDigest : string;
  ri_appOrigin : string;
  ri_walletOrigin : string;
  ri_tokenHash : string;
  ri_hostedCredentialId : string;
  ri_redeemedAtMs : Z;
}.

(** [HostedWalletSeamsSessionExchangeRejectionV2]. *)
Inductive HostedRejection : Type :=
| invalid_code | expired | already_consumed | nonce_mismatch | app_origin_mismatch | wallet_origin_mismatch
| wallet_session_unavailable.

#[global] Instance HostedRejection_eq_dec : EqDecision HostedRejection.
Proof. solve_decision. Defined.

(** [PersistedHostedWalletSeamsSessionExchangeV2Result]. *)
Inductive HostedExchangeResult : Type :=
| Redeemed (tenantId authorizationId walletSessionId hostedCredentialId : string) (expiresAtMs : Z)
| Rejected (rejection : HostedRejection).

(** ** Conditions of the statements *)

(** [ACTIVE_V2_HOSTED_PARENT_PROVENANCE_SQL]. *)
Definition hosted_provenance (db : AuthDb) (s : SessionRow) : bool :=
  authority_current db s && method_active db (sr_identity s).

(** The session of this identity: open, with a credential of its own, not ending earlier
    than [expires], its authority and method in force. *)
Definition hosted_session (db : AuthDb) (parent : SessionIdentity) (expires : Z) (s : SessionRow) : bool :=
  bool_decide (sr_identity s = parent) && bool_decide (is_Some (sr_credentialHash s)) &&
  bool_decide (sr_retiredAtMs s = None) && (expires <=? sr_expiresAtMs s) && hosted_provenance db s.

(** Its quota: active, with a use left, not ending earlier than [expires]. *)
Definition hosted_quota (parent : SessionIdentity) (expires : Z) (q : QuotaRow) : bool :=
  same (qr_tenantId q) (si_tenantId parent) && same (qr_quotaId q) (si_quotaId parent) &&
  same (qr_walletSessionId q) (si_walletSessionId parent) && same (qr_principalId q) (si_principalId parent) &&
  bool_decide (qr_lifecycle q = QuotaActive) && (0 <? qr_remainingUses q) && (expires <=? qr_expiresAtMs q).

Definition hosted_parent (db : AuthDb) (parent : SessionIdentity) (expires : Z) : bool :=
  existsb (hosted_session db parent expires) (sessions db) && existsb (hosted_quota parent expires) (quotas db).

(** An exchange code that was not used yet. *)
Definition unused (x : HostedExchangeRow) : bool :=
  same (he_lifecycleKind x) "issued" && bool_decide (he_hostedCredentialId x = None) && bool_decide (he_consumedAtMs x = None).

(** The exchange that a redemption asks for, not expired. *)
Definition redeemable (scope : WalletScope) (tenantId : string) (input : RedeemInput) (x : HostedExchangeRow) : bool :=
  in_tenant scope tenantId (he_parent x) && same (he_codeHash x) (ri_codeHash input) &&
  same (he_nonceDigest x) (ri_nonceDigest input) && same (he_appOrigin x) (ri_appOrigin input) &&
  same (he_walletOrigin x) (ri_walletOrigin input) && unused x && (ri_redeemedAtMs input <? he_expiresAtMs x).

(** ** Constraints *)

(** [length(trim(text)) > 0] of SQL. *)
Definition not_blank (text : string) : bool := negb (all_chars (fun a => Ascii.eqb a " ") text).

Definition parent_check (i : SessionIdentity) : bool :=
  forallb nonempty [orgId (si_scope i); projectId (si_scope i); envId (si_scope i); si_tenantId i; si_authorizationId i;
    si_walletSessionId i; si_quotaId i; si_principalId i; si_walletId i; si_authorityId i; si_walletAuthMethodId i].

(** The [CHECK]s of [wallet_session_hosted_exchange_codes_v2]. *)
Definition exchange_check (x : HostedExchangeRow) : bool :=
  parent_check (he_parent x) && forallb nonempty [he_exchangeCodeId x; he_codeHash x; he_nonceDigest x] &&
  not_blank (he_appOrigin x) && not_blank (he_walletOrigin x) && (0 <? he_issuedAtMs x) &&
  (he_issuedAtMs x <? he_expiresAtMs x) &&
  (unused x ||
   same (he_lifecycleKind x) "consumed" && bool_decide (is_Some (he_hostedCredentialId x)) &&
   match he_consumedAtMs x with
   | Some z => (he_issuedAtMs x <=? z) && (z <=? he_expiresAtMs x)
   | None => false
   end).

(** The [CHECK]s of [wallet_session_hosted_credentials_v2]. *)
Definition credential_check (c : HostedCredentialRow) : bool :=
  parent_check (hc_parent c) && forallb nonempty [hc_hostedCredentialId c; hc_credentialDigest c] &&
  not_blank (hc_appOrigin c) && not_blank (hc_walletOrigin c) && (0 <? hc_issuedAtMs c) &&
  (hc_issuedAtMs c <? hc_expiresAtMs c) &&
  (same (hc_lifecycleKind c) "active" && bool_decide (hc_retiredAtMs c = None) ||
   same (hc_lifecycleKind c) "retired" &&
   match hc_retiredAtMs c with Some z => hc_issuedAtMs c <=? z | None => false end).

(** The keys of the two tables. *)
Definition exchange_conflicts (x e : HostedExchangeRow) : bool :=
  in_tenant (si_scope (he_parent x)) (si_tenantId (he_parent x)) (he_parent e) &&
  (same (he_exchangeCodeId e) (he_exchangeCodeId x) || same (he_codeHash e) (he_codeHash x) ||
   same (he_nonceDigest e) (he_nonceDigest x)).

Definition credential_conflicts (c e : HostedCredentialRow) : bool :=
  in_tenant (si_scope (hc_parent c)) (si_tenantId (hc_parent c)) (hc_parent e) &&
  (same (hc_hostedCredentialId e) (hc_hostedCredentialId c) || same (hc_credentialDigest e) (hc_credentialDigest c)).

(** ** Statements *)

Definition exchange_parent (scope : WalletScope) (x : IssuedHostedExchange) : SessionIdentity :=
  mkSessionIdentity scope (ix_tenantId x) (ix_authorizationId x) (ix_walletSessionId x) (ix_quotaId x) (ix_principalId x)
    (ix_walletId x) (ix_authorityId x) (ix_walletAuthMethodId x).

Definition exchange_row (scope : WalletScope) (x : IssuedHostedExchange) : HostedExchangeRow :=
  mkExchangeRow (exchange_parent scope x) (ix_exchangeCodeId x) (ix_codeHash x) (ix_nonceDigest x) (ix_appOrigin x) (ix_walletOrigin x)
    (ix_issuedAtMs x) (ix_expiresAtMs x) "issued" None None.

(** [INSERT ... SELECT] of an exchange; the guards of the insert ask for what the [SELECT]
    asks for. *)
Definition insert_exchange (scope : WalletScope) (x : IssuedHostedExchange) : AuthStatement := fun db =>
  let row := exchange_row scope x in
  if negb (hosted_parent db (exchange_parent scope x) (ix_expiresAtMs x)) then inr (db, 0)
  else if negb (exchange_check row) then inl "CHECK constraint failed: wallet_session_hosted_exchange_codes_v2"
  else if existsb (exchange_conflicts row) (exchanges db)
  then inl (unique_failed "wallet_session_hosted_exchange_codes_v2.exchange_code_id")
  else inr (set_hosted (exchanges db ++ [row]) (credentials db) db, 1).

Definition credential_of (input : RedeemInput) (x : HostedExchangeRow) : HostedCredentialRow :=
  mkCredentialRow (he_parent x) (ri_hostedCredentialId input) (ri_tokenHash input) (he_appOrigin x) (he_walletOrigin x)
    (he_issuedAtMs x) (he_expiresAtMs x) "active" None.

(** The exchanges that the [SELECT] of the insert finds. *)
Definition exchangeable (scope : WalletScope) (tenantId : string) (input : RedeemInput) (db : AuthDb) (x : HostedExchangeRow)
  : bool := redeemable scope tenantId input x && hosted_parent db (he_parent x) (he_expiresAtMs x).

(** [insertCredential]: one row per exchange that is selected, and so at most one. *)
Definition insertCredential (scope : WalletScope) (tenantId : string) (input : RedeemInput) : AuthStatement := fun db =>
  match List.filter (exchangeable scope tenantId input db) (exchanges db) with
  | [] => inr (db, 0)
  | [x] =>
      let c := credential_of input x in
      if negb (credential_check c) then inl "CHECK constraint failed: wallet_session_hosted_credentials_v2"
      else if existsb (credential_conflicts c) (credentials db)
      then inl (unique_failed "wallet_session_hosted_credentials_v2.hosted_credential_id")
      else inr (set_hosted (exchanges db) (credentials db ++ [c]) db, 1)
  | _ => inl (unique_failed "wallet_session_hosted_credentials_v2.hosted_credential_id")
  end.

(** The credential that an exchange is being consumed for. *)
Definition consumed_by (input : RedeemInput) (x : HostedExchangeRow) (c : HostedCredentialRow) : bool :=
  bool_decide (hc_parent c = he_parent x) && same (hc_hostedCredentialId c) (ri_hostedCredentialId input) &&
  same (hc_credentialDigest c) (ri_tokenHash input) && same (hc_lifecycleKind c) "active" &&
  bool_decide (hc_retiredAtMs c = None) && (he_expiresAtMs x <=? hc_expiresAtMs c).

Definition consume (input : RedeemInput) (x : HostedExchangeRow) : HostedExchangeRow :=
  mkExchangeRow (he_parent x) (he_exchangeCodeId x) (he_codeHash x) (he_nonceDigest x) (he_appOrigin x) (he_walletOrigin x)
    (he_issuedAtMs x) (he_expiresAtMs x) "consumed" (Some (ri_hostedCredentialId input)) (Some (ri_redeemedAtMs input)).

(** The [WHERE] of the update. *)
Definition consumable (scope : WalletScope) (tenantId : string) (input : RedeemInput) (db : AuthDb) (x : HostedExchangeRow)
  : bool :=
  redeemable scope tenantId input x &&
  existsb (fun s => hosted_session db (he_parent x) (he_expiresAtMs x) s && (ri_redeemedAtMs input <? sr_expiresAtMs s))
    (sessions db) &&
  existsb (hosted_quota (he_parent x) (he_expiresAtMs x)) (quotas db) && existsb (consumed_by input x) (credentials db).

(** [updateStatement]; the guards of the update ask for what its [WHERE] asks for, besides
    the [CHECK]s. *)
Definition consumeExchange (scope : WalletScope) (tenantId : string) (input : RedeemInput) : AuthStatement := fun db =>
  let p := consumable scope tenantId input db in
  if negb (forallb (fun x => exchange_check (consume input x)) (List.filter p (exchanges db)))
  then inl "CHECK constraint failed: wallet_session_hosted_exchange_codes_v2"
  else inr (set_hosted (update_where p (consume input) (exchanges db)) (credentials db) db, changes p (exchanges db)).

(** The [WHERE] of the deletion: the credential of this redemption, while its code is unused. *)
Definition orphaned (scope : WalletScope) (parent : SessionIdentity) (input : RedeemInput) (db : AuthDb)
    (c : HostedCredentialRow) : bool :=
  in_tenant scope (si_tenantId parent) (hc_parent c) && same (hc_hostedCredentialId c) (ri_hostedCredentialId input) &&
  bool_decide (hc_parent c = parent) && same (hc_credentialDigest c) (ri_tokenHash input) &&
  existsb (fun x => in_tenant (si_scope (hc_parent c)) (si_tenantId (hc_parent c)) (he_parent x) &&
    same (he_codeHash x) (ri_codeHash input) && unused x) (exchanges db).

(** The foreign key of the exchanges. *)
Definition referenced (db : AuthDb) (c : HostedCredentialRow) : bool :=
  existsb (fun x => bool_decide (he_parent x = hc_parent c) &&
    bool_decide (he_hostedCredentialId x = Some (hc_hostedCredentialId c))) (exchanges db).

Definition deleteOrphanedCredential (scope : WalletScope) (parent : SessionIdentity) (input : RedeemInput)
  : AuthStatement := fun db =>
  let p := orphaned scope parent input db in
  if existsb (fun c => p c && referenced db c) (credentials db) then inl "FOREIGN KEY constraint failed"
  else inr (set_hosted (exchanges db) (List.filter (fun c => negb (p c)) (credentials db)) db, changes p (credentials db)).

Definition redeem_statements (scope : WalletScope) (parent : SessionIdentity) (input : RedeemInput) : list AuthStatement :=
  [insertCredential scope (si_tenantId parent) input; consumeExchange scope (si_tenantId parent) input;
   deleteOrphanedCredential scope parent input].

(** ** Issuing a code *)

Definition putIssuedHostedWalletSeamsSessionExchange (fault : Fault) (scope : WalletScope) (x : IssuedHostedExchange)
  : M AuthDb unit :=
  _ <- lift (requirePositiveInteger (JInt (ix_issuedAtMs x)) "exchange.issuedAtMs") ;;
  _ <- lift (requirePositiveInteger (JInt (ix_expiresAtMs x)) "exchange.expiresAtMs") ;;
  changed <- run_update fault (insert_exchange scope x) ;;
  if changed =? 1 then ret tt
  else throw (JsError "hosted-wallet Seams session exchange code was not persisted").

(** ** Redeeming it *)

(** The row of [readHostedWalletExchangeV2]. *)
Record ExchangeRead : Type := mkExchangeRead {
  xr_exchange : HostedExchangeRow;
  xr_session : option SessionRow;
  xr_quota : option QuotaRow;
}.

Definition session_of_parent (parent : SessionIdentity) (db : AuthDb) : option SessionRow :=
  List.find (fun s => bool_decide (sr_identity s = parent)) (sessions db).

Definition quota_of_parent (parent : SessionIdentity) (db : AuthDb) : option QuotaRow :=
  List.find (fun q => same (qr_tenantId q) (si_tenantId parent) && same (qr_quotaId q) (si_quotaId parent) &&
    same (qr_walletSessionId q) (si_walletSessionId parent) && same (qr_principalId q) (si_principalId parent)) (quotas db).

Definition readHostedWalletExchangeV2 (scope : WalletScope) (codeHash : string) (db : AuthDb) : option ExchangeRead :=
  (fun x => mkExchangeRead x (session_of_parent (he_parent x) db) (quota_of_parent (he_parent x) db)) <$>
    List.find (fun x => bool_decide (si_scope (he_parent x) = scope) && same (he_codeHash x) codeHash) (exchanges db).

(** [a || b || ...] of conditions that can throw. *)
Fixpoint first_true (conditions : list (Result bool)) : Result bool :=
  match conditions with
  | [] => Ok false
  | c :: conditions => let* b := c in if b then Ok true else first_true conditions
  end.

(** What a session and its quota miss at [now] for a code or a credential that ends at
    [expires]; [label] is how the columns are called. *)
Definition parent_unusable (now expires : Z) (session : option SessionRow) (quota : option QuotaRow)
    (remainingLabel sessionLabel quotaLabel expiresLabel : string) (before : list (Result bool)) : Result bool :=
  match session with
  | None => Ok true
  | Some s =>
      if negb (bool_decide (is_Some (sr_credentialHash s))) || negb (bool_decide (sr_retiredAtMs s = None)) then Ok true
      else
        match quota with
        | None => Ok true
        | Some q =>
            if negb (bool_decide (qr_lifecycle q = QuotaActive)) then Ok true
            else
              let column z label (k : Z -> bool) := let* v := integerColumn (JInt z) label in Ok (k v) in
              let two z1 l1 z2 l2 := let* a := integerColumn (JInt z1) l1 in let* b := integerColumn (JInt z2) l2 in Ok (a <? b) in
              first_true ([column (qr_remainingUses q) remainingLabel (fun v => v <=? 0)] ++ before ++
                [column (sr_expiresAtMs s) sessionLabel (fun v => v <=? now);
                 two (sr_expiresAtMs s) sessionLabel expires expiresLabel;
                 column (qr_expiresAtMs q) quotaLabel (fun v => v <=? now);
                 two (qr_expiresAtMs q) quotaLabel expires expiresLabel])
        end
  end.

Definition classifyHostedWalletExchangeV2 (row : option ExchangeRead) (input : RedeemInput) : Result (option HostedRejection) :=
  match row with
  | None => Ok (Some invalid_code)
  | Some r =>
      let x := xr_exchange r in
      if same (he_lifecycleKind x) "consumed" then Ok (Some already_consumed)
      else if negb (same (he_lifecycleKind x) "issued") then Ok (Some invalid_code)
      else
        let* expires := integerColumn (JInt (he_expiresAtMs x)) "exchange.expiresAtMs" in
        if expires <=? ri_redeemedAtMs input then Ok (Some expired)
        else if negb (same (he_nonceDigest x) (ri_nonceDigest input)) then Ok (Some nonce_mismatch)
        else if negb (same (he_appOrigin x) (ri_appOrigin input)) then Ok (Some app_origin_mismatch)
        else if negb (same (he_walletOrigin x) (ri_walletOrigin input)) then Ok (Some wallet_origin_mismatch)
        else
          let* missing := parent_unusable (ri_redeemedAtMs input) (he_expiresAtMs x) (xr_session r) (xr_quota r)
            "exchange.quotaRemainingUses" "exchange.sessionExpiresAtMs" "exchange.quotaExpiresAtMs" "exchange.expiresAtMs" [] in
          Ok (if missing then Some wallet_session_unavailable else None)
  end.

(** What a redemption meets: whether its first read answers, the fault of its batch, and
    whether the read after it answers. *)
Record RedeemEnv : Type := mkRedeemEnv { re_readLost : bool; re_fault : Fault; re_rereadLost : bool }.

(** The body of the [try]: [None] when the code was consumed. *)
Definition redeem_batch (env : RedeemEnv) (scope : WalletScope) (parent : SessionIdentity) (input : RedeemInput)
  : M AuthDb (option HostedRejection) :=
  _ <- lift (requirePositiveInteger (JInt (ri_redeemedAtMs input)) "exchange.redeemedAtMs") ;;
  results <- run_update (re_fault env) (run_auth_statements (redeem_statements scope parent input)) ;;
  if negb (results !!! 0%nat =? 1) || negb (results !!! 1%nat =? 1) then
    row <- read_db (re_rereadLost env) (readHostedWalletExchangeV2 scope (ri_codeHash input)) ;;
    rejected <- lift (classifyHostedWalletExchangeV2 row input) ;;
    ret (Some (default wallet_session_unavailable rejected))
  else ret None.

(** The answer when the exchange that was read is consumed. *)
Definition redeemed_result (x : HostedExchangeRow) (input : RedeemInput) : Result HostedExchangeResult :=
  let i := he_parent x in
  let* tenant := requireParsed (JString (si_tenantId i)) parseTenantId "exchange.tenantId" in
  let* authorization := requireParsed (JString (si_authorizationId i)) parseWalletSessionAuthorizationId
    "exchange.authorizationId" in
  let* walletSession := requireParsed (JString (si_walletSessionId i)) parseWalletSessionId "exchange.walletSessionId" in
  let* credential := parseHostedWalletSessionCredentialId (JString (ri_hostedCredentialId input)) in
  let* expires := integerColumn (JInt (he_expiresAtMs x)) "exchange.expiresAtMs" in
  Ok (Redeemed tenant authorization walletSession credential expires).

(** [redeemHostedWalletSeamsSessionExchange] after its first read gave [current] and nothing
    spoke against it; [publish] is what [publishCredentialLocator] answers, [Ok tt] when
    there is none. *)
Definition finish_redemption (env : RedeemEnv) (scope : WalletScope) (current : ExchangeRead) (input : RedeemInput)
    (publish : Result unit) : M AuthDb HostedExchangeResult :=
  let x := xr_exchange current in
  _ <- lift publish ;;
  outcome <- try_catch (redeem_batch env scope (he_parent x) input) (fun _ => ret (Some wallet_session_unavailable)) ;;
  match outcome with
  | Some rejection => ret (Rejected rejection)
  | None => lift (redeemed_result x input)
  end.

Definition redeemHostedWalletSeamsSessionExchange (env : RedeemEnv) (scope : WalletScope) (input : RedeemInput)
    (publish : Result unit) : M AuthDb HostedExchangeResult :=
  current <- read_db (re_readLost env) (readHostedWalletExchangeV2 scope (ri_codeHash input)) ;;
  rejected <- lift (classifyHostedWalletExchangeV2 current input) ;;
  match rejected, current with
  | Some rejection, _ => ret (Rejected rejection)
  | None, None => throw (JsError "hosted-wallet exchange disappeared")
  | None, Some current => finish_redemption env scope current input publish
  end.

(** ** Using the credential *)

(** [ResolvedHostedWalletSessionOperationCredentialV2]. *)
Record ResolvedHostedCredential : Type := mkResolvedHosted {
  rh_authorization : IssuedWalletSessionAuthorizationV2;
  rh_hostedCredentialId : string;
  rh_appOrigin : string;
  rh_walletOrigin : string;
  rh_expiresAtMs : Z;
}.

Record CredentialRead : Type := mkCredentialRead {
  cr_credential : HostedCredentialRow;
  cr_session : option SessionRow;
  cr_quota : option QuotaRow;
}.

Definition credential_read (scope : WalletScope) (tenantId tokenHash : string) (db : AuthDb) : option CredentialRead :=
  (fun c => mkCredentialRead c (session_of_parent (hc_parent c) db) (quota_of_parent (hc_parent c) db)) <$>
    List.find (fun c => in_tenant scope tenantId (hc_parent c) && same (hc_credentialDigest c) tokenHash &&
      same (hc_lifecycleKind c) "active" && bool_decide (hc_retiredAtMs c = None)) (credentials db).

Definition readHostedWalletSessionOperationCredentialV2 (parseUrl : string -> option Url) (readLost sessionLost : bool)
    (scope : WalletScope) (tenantId tokenHash requestOrigin : string) (nowMs : Z)
  : M AuthDb (option ResolvedHostedCredential) :=
  row <- read_db readLost (credential_read scope tenantId tokenHash) ;;
  match row with
  | None => ret None
  | Some r =>
      let c := cr_credential r in
      appOrigin <- lift (parseSessionOrigin parseUrl (JString (hc_appOrigin c))) ;;
      walletOrigin <- lift (parseSessionOrigin parseUrl (JString (hc_walletOrigin c))) ;;
      if negb (same walletOrigin requestOrigin) then ret None
      else
        missing <- lift (parent_unusable nowMs (hc_expiresAtMs c) (cr_session r) (cr_quota r)
          "hosted credential quota remaining uses" "hosted parent expiry" "hosted quota expiry" "hosted credential expiry"
          [let* v := integerColumn (JInt (hc_expiresAtMs c)) "hosted credential expiry" in Ok (v <=? nowMs)]) ;;
        match missing, cr_session r with
        | true, _ | _, None => ret None
        | false, Some s =>
            expected <- lift (parsePersistedWalletSessionAuthorizationV2 (sr_record s)) ;;
            authorization <- try_catch (readWalletSessionAuthorizationV2ByAuthorizationId sessionLost scope expected nowMs)
              (fun _ => ret None) ;;
            match authorization with
            | None => ret None
            | Some authorization =>
                credentialId <- lift (parseHostedWalletSessionCredentialId (JString (hc_hostedCredentialId c))) ;;
                expires <- lift (integerColumn (JInt (hc_expiresAtMs c)) "hosted credential expiry") ;;
                ret (Some (mkResolvedHosted authorization credentialId appOrigin walletOrigin expires))
            end
        end
  end.
