(* ===== verification/HostedSystem.v ===== *)
(** * Hosted sessions over time

    Codes that are issued and redeemed while the authorization store goes on: the effect of
    each batch on the two hosted tables, the steps in any order, and what every database
    that is reached satisfies. *)

From stdpp Require Import relations.
From S2P Require Import Prelude JsValues BitPacking Base64 VersionedRecords Capabilities AuthorizationDomain WalletSessionValues AuthorizationTables AuthorizedOperations WalletSessionIssuance AuthorizationWrites AuthorizationSystem AuthorizationRuns WalletSessionReads HostedSessions.
Local Open Scope Z_scope.
Local Open Scope js_scope.

(** ** Keys *)

Definition code_key (x : HostedExchangeRow) : WalletScope * string := (si_scope (he_parent x), he_codeHash x).

Definition credential_key (c : HostedCredentialRow) : WalletScope * string * string :=
  (si_scope (hc_parent c), si_tenantId (hc_parent c), hc_hostedCredentialId c).

Lemma in_tenant_spec scope t i : in_tenant scope t i = true <-> si_scope i = scope /\ si_tenantId i = t.
Proof. unfold in_tenant. by rewrite andb_true_iff, bool_decide_eq_true, same_spec. Qed.

Lemma set_hosted_same db : set_hosted (exchanges db) (credentials db) db = db.
Proof. by destruct db. Qed.

Lemma update_where_ext_in {A} (p p' : A -> bool) (f : A -> A) l : (forall x, x ∈ l -> p x = p' x) ->
  update_where p f l = update_where p' f l.
Proof. intros H. unfold update_where. apply map_ext_in. intros x Hx%list_elem_of_In. by rewrite H. Qed.

(** *** A filter that keeps one or none *)
Lemma filter_none {A} (p : A -> bool) l : (forall x, x ∈ l -> p x = false) -> List.filter p l = [].
Proof.
  induction l as [|x l IH]; intros H; simpl; [done|]. rewrite H by set_solver. apply IH. set_solver.
Qed.

Lemma filter_one {A B} (g : A -> B) (p : A -> bool) l x k : NoDup (map g l) -> x ∈ l -> p x = true ->
  (forall y, y ∈ l -> p y = true -> g y = k) -> List.filter p l = [x].
Proof.
  intros Hn Hx Hp Hk. induction l as [|y l IH]; [by apply elem_of_nil in Hx|]. simpl in *.
  apply NoDup_cons in Hn as [Hy Hn].
  assert (g x = k) as Hgx by by apply Hk.
  assert (forall z, z ∈ l -> p z = true -> g z = k) as Hkl by (intros z Hz; apply Hk; by right).
  apply elem_of_cons in Hx as [<-|Hx].
  - rewrite Hp. f_equal. apply filter_none. intros z Hz. apply not_true_iff_false. intros Hpz. apply Hy.
    apply list_elem_of_fmap. exists z. split; [|done]. by rewrite Hgx, (Hkl z).
  - destruct (p y) eqn:Hpy; [|by apply IH]. exfalso. apply Hy. apply list_elem_of_fmap. exists x. split; [|done].
    rewrite Hgx. apply Hk; [by left|done].
Qed.

Lemma filter_all {A} (p : A -> bool) l : (forall x, x ∈ l -> p x = true) -> List.filter p l = l.
Proof.
  induction l as [|x l IH]; intros H; simpl; [done|]. rewrite H by set_solver. f_equal. apply IH. set_solver.
Qed.

(** ** The invariant *)

(** An exchange names the credential it was consumed for. *)
Definition names (x : HostedExchangeRow) (c : HostedCredentialRow) : Prop :=
  he_parent x = hc_parent c /\ he_hostedCredentialId x = Some (hc_hostedCredentialId c).

(** A credential has what its exchange has. *)
Definition copied (x : HostedExchangeRow) (c : HostedCredentialRow) : Prop :=
  he_appOrigin x = hc_appOrigin c /\ he_walletOrigin x = hc_walletOrigin c /\ he_issuedAtMs x = hc_issuedAtMs c /\
  he_expiresAtMs x = hc_expiresAtMs c.

Definition live (c : HostedCredentialRow) : bool := bool_decide (hc_retiredAtMs c = None).

Definition open_parent (parent : SessionIdentity) (db : AuthDb) : Prop :=
  exists s, s ∈ sessions db /\ sr_identity s = parent /\ is_open s = true.

Definition exchange_ids_ok (x : HostedExchangeRow) : Prop :=
  opaque_id (si_tenantId (he_parent x)) = true /\ opaque_id (si_authorizationId (he_parent x)) = true /\
  opaque_id (si_walletSessionId (he_parent x)) = true /\ 0 < he_expiresAtMs x <= MAX_SAFE_INTEGER.

Record hosted_inv (db : AuthDb) : Prop := mkHostedInv {
  hv_codes : NoDup (map code_key (exchanges db));
  hv_credentials : NoDup (map credential_key (credentials db));
  hv_state : forall x, x ∈ exchanges db -> unused x = true \/
    same (he_lifecycleKind x) "consumed" = true /\ exists c, c ∈ credentials db /\ names x c;
  hv_named : forall c, c ∈ credentials db -> exists x, x ∈ exchanges db /\ names x c /\ copied x c;
  hv_one : forall x y c, x ∈ exchanges db -> y ∈ exchanges db -> names x c -> names y c -> x = y;
  hv_lifecycle : forall c, c ∈ credentials db -> same (hc_lifecycleKind c) "active" = live c;
  hv_open_exchange : forall x, x ∈ exchanges db -> unused x = true -> open_parent (he_parent x) db;
  hv_open_credential : forall c, c ∈ credentials db -> live c = true -> open_parent (hc_parent c) db;
  hv_ids : forall x, x ∈ exchanges db -> exchange_ids_ok x;
}.

Lemma unused_issued x : unused x = true -> same (he_lifecycleKind x) "issued" = true /\ he_hostedCredentialId x = None.
Proof. unfold unused. intros H. apply andb_true_iff in H as [[H1 H2]%andb_true_iff _]. by apply bool_decide_eq_true in H2. Qed.

Lemma consumed_not_issued x : same (he_lifecycleKind x) "consumed" = true -> same (he_lifecycleKind x) "issued" = false.
Proof. by intros ->%same_spec. Qed.

Lemma names_not_unused x c : names x c -> unused x = false.
Proof. intros [_ H]. apply not_true_iff_false. intros [_ H']%unused_issued. congruence. Qed.

(** ** A redemption *)

Record redemption (scope : WalletScope) (tenantId : string) (input : RedeemInput) (x : HostedExchangeRow)
    (db db' : AuthDb) : Prop := mkRedemption {
  rd_exchange : x ∈ exchanges db;
  rd_redeemable : redeemable scope tenantId input x = true;
  rd_parent : hosted_parent db (he_parent x) (he_expiresAtMs x) = true;
  rd_new : existsb (credential_conflicts (credential_of input x)) (credentials db) = false;
  rd_check : exchange_check (consume input x) = true;
  rd_db : db' = set_hosted (update_where (fun y => bool_decide (y = x)) (consume input) (exchanges db))
    (credentials db ++ [credential_of input x]) db;
}.

Lemma redeemable_key scope t input x : redeemable scope t input x = true ->
  code_key x = (scope, ri_codeHash input) /\ si_tenantId (he_parent x) = t /\ unused x = true /\
  ri_redeemedAtMs input < he_expiresAtMs x.
Proof.
  unfold redeemable. intros H. conditions.
  match goal with H : in_tenant _ _ _ = true |- _ => apply in_tenant_spec in H as [Hs Ht] end.
  unfold code_key. split_and!; [congruence|done|done|lia].
Qed.

Section Redemption.
Context (scope : WalletScope) (parent : SessionIdentity) (input : RedeemInput).
Notation t := (si_tenantId parent).
Notation statements := (redeem_statements scope parent input).

(** No exchange of the code is left to be used. *)
Definition code_gone (db : AuthDb) : Prop :=
  forall x, x ∈ exchanges db -> code_key x = (scope, ri_codeHash input) -> unused x = false.

(** Where the code is gone or the session cannot be used, a redemption changes nothing: the
    credentials that it might delete are named by the exchanges they came from. *)
Lemma delete_nothing db : hosted_inv db -> forall db' n, deleteOrphanedCredential scope parent input db = inr (db', n) -> db' = db.
Proof.
  intros Hi db' n. unfold deleteOrphanedCredential. destruct (existsb _ (credentials db)) eqn:E; [done|]. intros [= <- _].
  rewrite filter_all; [apply set_hosted_same|]. intros c Hc. apply negb_true_iff, not_true_iff_false. intros Hp.
  pose proof (proj1 (existsb_none _ _) E c Hc) as Hno. simpl in Hno. rewrite Hp in Hno. cbn [andb] in Hno.
  destruct (hv_named _ Hi c Hc) as (x & Hx & [Hn1 Hn2] & _).
  pose proof (proj1 (existsb_none _ _) Hno x Hx) as Hno'. apply not_true_iff_false in Hno'. apply Hno'.
  by rewrite !bool_decide_eq_true_2.
Qed.

Lemma delete_gone db : code_gone db -> forall db' n, deleteOrphanedCredential scope parent input db = inr (db', n) -> db' = db.
Proof.
  intros Hg db' n. unfold deleteOrphanedCredential.
  assert (forall c, orphaned scope parent input db c = false) as Hp.
  { intros c. unfold orphaned. apply not_true_iff_false. intros H. conditions.
    match goal with H : existsb _ _ = true |- _ => apply existsb_some in H as (x & Hx & H) end. conditions.
    repeat match goal with H : in_tenant _ _ _ = true |- _ => apply in_tenant_spec in H as [? _] end.
    assert (unused x = false) as Hu; [|congruence]. apply Hg; [done|]. unfold code_key. congruence. }
  destruct (existsb _ (credentials db)); [done|]. intros [= <- _].
  rewrite filter_all; [apply set_hosted_same|]. intros c _. by rewrite Hp.
Qed.

(** What an update consumes is what was inserted for. *)
Lemma consume_selects db x c : exchangeable scope t input db x = true -> c ∈ credentials db -> consumed_by input x c = true ->
  consumable scope t input db x = true.
Proof.
  unfold exchangeable. intros [Hr Hp]%andb_true_iff Hc Hcx. apply redeemable_key in Hr as Hk.
  destruct Hk as (_ & _ & _ & Ht). unfold consumable. rewrite Hr.
  unfold hosted_parent in Hp. apply andb_true_iff in Hp as [Hs Hq]. rewrite Hq.
  apply existsb_some in Hs as (s & Hs & Hss).
  rewrite (proj2 (existsb_some _ (sessions db))), (proj2 (existsb_some _ (credentials db))); [done|by exists c|].
  exists s. split; [done|]. rewrite Hss. unfold hosted_session in Hss. conditions. apply Z.ltb_lt. lia.
Qed.

Lemma consumable_exchangeable db x : consumable scope t input db x = true -> exchangeable scope t input db x = true.
Proof.
  unfold consumable, exchangeable, hosted_parent. intros H. conditions.
  match goal with H : existsb _ (sessions db) = true |- _ => apply existsb_some in H as (s & Hs & H) end. conditions.
  repeat match goal with H : _ = true |- _ => rewrite H; clear H end. rewrite andb_true_r. simpl.
  apply existsb_some. by exists s.
Qed.

Lemma consumed_by_own x : consumed_by input x (credential_of input x) = true.
Proof. unfold consumed_by, credential_of, same. simpl. by rewrite !bool_decide_eq_true_2, Z.leb_refl. Qed.

(** The one exchange that a redemption can consume. *)
Lemma consumable_one db c x : hosted_inv db -> x ∈ exchanges db -> let db1 := set_hosted (exchanges db) (credentials db ++ [c]) db in
  consumable scope t input db1 x = true ->
  List.filter (consumable scope t input db1) (exchanges db) = [x] /\
  update_where (consumable scope t input db1) (consume input) (exchanges db) =
    update_where (fun y => bool_decide (y = x)) (consume input) (exchanges db).
Proof.
  intros Hi Hx db1 Hc.
  assert (forall y, consumable scope t input db1 y = true -> code_key y = (scope, ri_codeHash input)) as Hkey.
  { intros y Hy. unfold consumable in Hy. conditions. by eapply redeemable_key. }
  split; [apply (filter_one code_key _ _ _ (scope, ri_codeHash input) (hv_codes _ Hi) Hx Hc); auto|].
  apply update_where_ext_in. intros y Hy. destruct (consumable scope t input db1 y) eqn:Hpy; symmetry.
  - apply bool_decide_eq_true. apply (nodup_map_elem code_key _ _ _ (hv_codes _ Hi) Hy Hx). by rewrite !Hkey.
  - apply bool_decide_eq_false. congruence.
Qed.

Lemma redeem_cases db db' ns : hosted_inv db -> run_auth_statements statements db = inr (db', ns) ->
  (ns !!! 0%nat = 1 /\ ns !!! 1%nat = 1 /\ exists x, redemption scope t input x db db') \/ (ns !!! 0%nat <> 1 /\ db' = db).
Proof.
  intros Hi. unfold redeem_statements.
  intros (db1 & n1 & ns1 & H1 & H & ->)%run_statements_cons.
  apply run_statements_cons in H as (db2 & n2 & ns2 & H2 & H & ->).
  apply run_statements_cons in H as (db3 & n3 & ns3 & H3 & H & ->). injection H as <- <-. simpl.
  unfold insertCredential in H1.
  destruct (List.filter _ (exchanges db)) as [|x [|]] eqn:Ef; [| |done].
  - injection H1 as <- <-. right. split; [done|]. unfold consumeExchange in H2.
    assert (forall x, x ∈ exchanges db -> consumable scope t input db x = false) as Hp2.
    { intros x Hx. apply not_true_iff_false. intros Hp%consumable_exchangeable.
      assert (List.In x (List.filter (exchangeable scope t input db) (exchanges db))) as Hin; [|by rewrite Ef in Hin].
      apply filter_In. split; [by apply list_elem_of_In|done]. }
    rewrite filter_none in H2 by done. simpl in H2. rewrite update_where_none, set_hosted_same in H2 by done.
    injection H2 as <- _. by eapply delete_nothing.
  - assert (x ∈ exchanges db /\ exchangeable scope t input db x = true) as [Hx Hex].
    { rewrite list_elem_of_In. apply filter_In. rewrite Ef. by left. }
    destruct (negb (credential_check _)); [done|]. destruct (existsb (credential_conflicts _) _) eqn:Hnew; [done|].
    injection H1 as <- <-. left. unfold consumeExchange in H2. simpl in H2.
    destruct (consumable_one db (credential_of input x) x Hi Hx) as [Hf Hu].
    { apply (consume_selects _ x (credential_of input x)); [exact Hex|simpl; set_solver|apply consumed_by_own]. }
    unfold changes in H2. rewrite Hf, Hu in H2. simpl in H2. rewrite andb_true_r in H2.
    destruct (exchange_check (consume input x)) eqn:Hcheck; [|done]. injection H2 as <- <-.
    unfold exchangeable in Hex. apply andb_true_iff in Hex as [Hr Hp].
    split; [done|]. split; [done|]. exists x. split; try done. eapply delete_gone; [|exact H3].
    intros y Hy Hk. simpl in Hy. apply elem_update_where in Hy as (y0 & Hy0 & ->).
    destruct (bool_decide (y0 = x)) eqn:Ey; [done|]. exfalso. apply bool_decide_eq_false in Ey. apply Ey.
    apply (nodup_map_elem code_key _ _ _ (hv_codes _ Hi) Hy0 Hx). rewrite Hk. symmetry. by eapply redeemable_key.
Qed.
End Redemption.

(** ** What keeps the invariant *)

Lemma credential_conflicts_spec c e : credential_conflicts c e = false -> credential_key e <> credential_key c.
Proof.
  intros H [= E1 E2 E3]. apply not_true_iff_false in H. apply H. unfold credential_conflicts.
  by rewrite (proj2 (in_tenant_spec _ _ _)), (proj2 (same_spec _ _) E3).
Qed.

Lemma redemption_inv scope t input x db db' : redemption scope t input x db db' -> hosted_inv db -> hosted_inv db'.
Proof.
  intros [Hx Hr Hp Hnew _ ->] [Hco Hcr Hst Hna Hone Hli Hox Hoc Hid].
  assert (unused x = true) as Hu by by eapply redeemable_key.
  assert (forall e, e ∈ credentials db -> credential_key e <> credential_key (credential_of input x)) as Hfresh.
  { intros e He. by apply credential_conflicts_spec, (proj1 (existsb_none _ _) Hnew). }
  assert (forall y c, y ∈ exchanges db -> names y c -> y <> x) as Hother.
  { intros y c _ Hn ->. by rewrite (names_not_unused _ _ Hn) in Hu. }
  assert (forall y c, y ∈ exchanges db -> names y c -> names (consume input x) c -> False) as Hclash.
  { intros y c Hy [Hy1 Hy2] [Hn1 Hn2]. destruct (Hst y Hy) as [Hu'|(_ & c1 & Hc1 & H1 & H2)].
    - by apply unused_issued in Hu' as [_ ?]; congruence.
    - apply (Hfresh c1 Hc1). unfold credential_key. simpl in *. congruence. }
  split; simpl.
  - by rewrite map_update_where.
  - by apply nodup_snoc.
  - intros y (y0 & Hy0 & ->)%elem_update_where. case_bool_decide as E.
    + subst y0. right. split; [done|]. exists (credential_of input x). split; [set_solver|done].
    + destruct (Hst y0 Hy0) as [?|(? & c & ? & ?)]; [by left|]. right. split; [done|]. exists c. set_solver.
  - intros c [Hc|Hc%list_elem_of_singleton]%elem_of_app.
    + destruct (Hna c Hc) as (y & Hy & Hn & Hcp). exists y. split; [|done]. apply elem_update_where. exists y.
      by rewrite bool_decide_eq_false_2 by by eapply Hother.
    + subst c. exists (consume input x). split; [|done]. apply elem_update_where. exists x. by rewrite bool_decide_eq_true_2.
  - intros y1 y2 c (z1 & Hz1 & ->)%elem_update_where (z2 & Hz2 & ->)%elem_update_where.
    case_bool_decide as E1; case_bool_decide as E2; intros H1 H2; subst; try done.
    + by destruct (Hclash z2 c).
    + by destruct (Hclash z1 c).
    + by eapply Hone.
  - intros c [Hc|Hc%list_elem_of_singleton]%elem_of_app; [auto|by subst].
  - intros y (y0 & Hy0 & ->)%elem_update_where. case_bool_decide; [done|]. by apply Hox.
  - intros c [Hc|Hc%list_elem_of_singleton]%elem_of_app Hl; [by apply Hoc|]. subst c. simpl.
    unfold hosted_parent in Hp. apply andb_true_iff in Hp as [(s & Hs & Hss)%existsb_some _].
    unfold hosted_session in Hss. conditions. exists s. split_and!; [done|done|]. by apply bool_decide_eq_true.
  - intros y (y0 & Hy0 & ->)%elem_update_where. case_bool_decide; exact (Hid y0 Hy0).
Qed.

(** What a code comes with: identifiers and times that were parsed, and a hash that no
    other tenant of the scope has. *)
Record exchange_wf (scope : WalletScope) (x : IssuedHostedExchange) (db : AuthDb) : Prop := mkExchangeWf {
  xw_ids : Forall (fun id => opaque_id id = true) [ix_tenantId x; ix_authorizationId x; ix_walletSessionId x];
  xw_expires : 0 < ix_expiresAtMs x <= MAX_SAFE_INTEGER;
  xw_code : forall e, e ∈ exchanges db -> code_key e = (scope, ix_codeHash x) -> si_tenantId (he_parent e) = ix_tenantId x;
}.

(** Inserting a code. *)
Lemma insert_exchange_cases scope x db db' n : insert_exchange scope x db = inr (db', n) ->
  (n = 0 /\ db' = db) \/
  (n = 1 /\ hosted_parent db (exchange_parent scope x) (ix_expiresAtMs x) = true /\
   existsb (exchange_conflicts (exchange_row scope x)) (exchanges db) = false /\
   db' = set_hosted (exchanges db ++ [exchange_row scope x]) (credentials db) db).
Proof.
  unfold insert_exchange. destruct (hosted_parent _ _ _); [|by intros [= <- <-]; left].
  destruct (negb (exchange_check _)); [done|]. destruct (existsb _ _) eqn:E; [done|]. intros [= <- <-]. by right.
Qed.

Lemma insert_exchange_inv scope x db db' n : exchange_wf scope x db -> insert_exchange scope x db = inr (db', n) ->
  hosted_inv db -> hosted_inv db'.
Proof.
  intros [Hids Hexp Hcode] [[_ ->]|(_ & Hp & Hnew & ->)]%insert_exchange_cases; [done|].
  intros [Hco Hcr Hst Hna Hone Hli Hox Hoc Hid]. set (row := exchange_row scope x) in *.
  assert (forall c, ~ names row c) as Hno by (intros c [_ ?]; done).
  split; simpl.
  - apply nodup_snoc; [|done]. intros e He E. pose proof (proj1 (existsb_none _ _) Hnew e He) as Hc.
    apply not_true_iff_false in Hc. apply Hc. unfold exchange_conflicts. injection E as E1 E2.
    rewrite (proj2 (in_tenant_spec _ _ _)), (proj2 (same_spec (he_codeHash e) _)); [by rewrite orb_true_r|done|].
    split; [done|]. apply Hcode; [done|]. unfold code_key. simpl. congruence.
  - done.
  - intros y [Hy| ->%list_elem_of_singleton]%elem_of_app; [auto|by left].
  - intros c Hc. destruct (Hna c Hc) as (y & Hy & ?). exists y. split; [set_solver|done].
  - intros y1 y2 c [H1| ->%list_elem_of_singleton]%elem_of_app [H2| ->%list_elem_of_singleton]%elem_of_app N1 N2;
      [by eapply Hone|by destruct (Hno c)|by destruct (Hno c)|done].
  - done.
  - intros y [Hy| ->%list_elem_of_singleton]%elem_of_app Hu; [by apply Hox|].
    unfold hosted_parent in Hp. apply andb_true_iff in Hp as [(s & Hs & Hss)%existsb_some _].
    unfold hosted_session in Hss. conditions. exists s. split_and!; [done|done|]. by apply bool_decide_eq_true.
  - done.
  - intros y [Hy| ->%list_elem_of_singleton]%elem_of_app; [auto|].
    rewrite !Forall_cons in Hids. destruct Hids as (H1 & H2 & H3 & _). exact (conj H1 (conj H2 (conj H3 Hexp))).
Qed.

(** Where the hosted tables stay and no session ends. *)
Lemma hosted_inv_frame db db' : exchanges db' = exchanges db -> credentials db' = credentials db ->
  (forall parent, open_parent parent db -> open_parent parent db') -> hosted_inv db -> hosted_inv db'.
Proof. intros He Hc Ho [? ? ? ? ? ? Hx Hk ?]. split; rewrite ?He, ?Hc; auto. Qed.

(** *** Sessions that end *)

(** The hosted rows of the sessions that [ended] selects go with them. *)
Record hosted_ending (scope : WalletScope) (t : string) (nowMs : Z) (ended : SessionRow -> bool) (db db' : AuthDb) : Prop :=
  mkHostedEnding {
  he_exchanges : exchanges db' = List.filter (fun x => negb (in_tenant scope t (he_parent x) &&
    same (he_lifecycleKind x) "issued" && hosted_by ended db (he_parent x))) (exchanges db);
  he_credentials : credentials db' = update_where (fun c => in_tenant scope t (hc_parent c) &&
    same (hc_lifecycleKind c) "active" && bool_decide (hc_retiredAtMs c = None) && hosted_by ended db (hc_parent c))
    (retire_credential nowMs) (credentials db);
  he_sessions : sessions db' = update_where ended (retire_session nowMs) (sessions db);
}.

Lemma ending_open scope t nowMs ended db db' parent : hosted_ending scope t nowMs ended db db' ->
  open_parent parent db -> hosted_by ended db parent = false -> open_parent parent db'.
Proof.
  intros [_ _ Hs] (s & Hin & Hi & Ho) Hn. exists s. split; [|done]. rewrite Hs. apply elem_update_where. exists s.
  split; [done|]. unfold hosted_by in Hn. pose proof (proj1 (existsb_none _ _) Hn s Hin) as H. simpl in H.
  rewrite bool_decide_eq_true_2 in H by done. simpl in H. by rewrite H.
Qed.

Lemma hosted_in_tenant scope t ended db parent : (forall s, ended s = true -> in_tenant scope t (sr_identity s) = true) ->
  hosted_by ended db parent = true -> in_tenant scope t parent = true.
Proof. intros H (s & _ & Hs)%existsb_some. conditions. subst parent. auto. Qed.

Lemma nodup_map_filter {A B} (g : A -> B) (p : A -> bool) l : NoDup (map g l) -> NoDup (map g (List.filter p l)).
Proof.
  induction l as [|x l IH]; simpl; [done|]. intros [Hx Hn]%NoDup_cons. destruct (p x); [|by apply IH]. simpl.
  apply NoDup_cons. split; [|by apply IH]. intros (y & Hy & [Hin _]%elem_filter)%list_elem_of_fmap. apply Hx.
  rewrite Hy. apply list_elem_of_fmap. by exists y.
Qed.

Lemma hosted_ending_inv scope t nowMs ended db db' :
  (forall s, ended s = true -> in_tenant scope t (sr_identity s) = true) ->
  hosted_ending scope t nowMs ended db db' -> hosted_inv db -> hosted_inv db'.
Proof.
  intros Ht He [Hco Hcr Hst Hna Hone Hli Hox Hoc Hid].
  pose proof (fun parent => ending_open _ _ _ _ _ _ parent He) as Hopen. destruct He as [Hx Hc _].
  assert (forall x, x ∈ exchanges db' -> x ∈ exchanges db /\
    (same (he_lifecycleKind x) "issued" = true -> hosted_by ended db (he_parent x) = false)) as Hold.
  { intros x. rewrite Hx. intros [Hin Hp%negb_true_iff]%elem_filter. split; [done|]. intros Hl. apply not_true_iff_false.
    intros Hh. by rewrite (hosted_in_tenant _ _ _ _ _ Ht Hh), Hl, Hh in Hp. }
  assert (forall x c, x ∈ exchanges db -> names x c -> x ∈ exchanges db') as Hkeep.
  { intros x c Hin Hn. rewrite Hx. apply elem_filter. split; [done|]. destruct (Hst x Hin) as [Hu|[Hl _]].
    - by rewrite (names_not_unused _ _ Hn) in Hu.
    - by rewrite (consumed_not_issued _ Hl), andb_false_r. }
  assert (forall c', c' ∈ credentials db' -> exists c, c ∈ credentials db /\
    (c' = c /\ (live c = true -> hosted_by ended db (hc_parent c) = false) \/ c' = retire_credential nowMs c)) as Hcred.
  { intros c'. rewrite Hc. intros (c & Hin & ->)%elem_update_where. exists c. split; [done|].
    destruct (_ && _ && _ && _) eqn:E; [by right|left]. split; [done|]. intros Hl. apply not_true_iff_false. intros Hh.
    rewrite (hosted_in_tenant _ _ _ _ _ Ht Hh), (Hli c Hin), Hh, Hl in E. unfold live in Hl. by rewrite Hl in E. }
  assert (forall c, c ∈ credentials db -> exists c', c' ∈ credentials db' /\ (c' = c \/ c' = retire_credential nowMs c)) as Hstay.
  { intros c Hin. rewrite Hc. eexists. split; [apply elem_update_where; by exists c|]. case_match; [by right|by left]. }
  split.
  - rewrite Hx. by apply nodup_map_filter.
  - rewrite Hc. by rewrite map_update_where.
  - intros x [Hin _]%Hold. destruct (Hst x Hin) as [?|(? & c & Hcin & Hn)]; [by left|right]. split; [done|].
    destruct (Hstay c Hcin) as (c' & Hc' & [->| ->]); eauto.
  - intros c' (c & Hcin & Hcase)%Hcred. destruct (Hna c Hcin) as (x & Hin & Hn & Hcp). exists x.
    split; [by eapply Hkeep|]. by destruct Hcase as [[-> _]| ->].
  - intros x y c' [Hin1 _]%Hold [Hin2 _]%Hold. by apply Hone.
  - intros c' (c & Hcin & [[-> _]| ->])%Hcred; [auto|done].
  - intros x [Hin Hn]%Hold Hu. apply Hopen; [by apply Hox|]. apply Hn. by apply unused_issued.
  - intros c' (c & Hcin & [[-> Hn]| ->])%Hcred Hl; [|done]. apply Hopen; [by apply Hoc|auto].
  - intros x [Hin _]%Hold. auto.
Qed.

(** ** The other writes of the store *)

Lemma hosted_by_ext sel sel' db db' parent : (forall s, sel s = sel' s) -> sessions db' = sessions db ->
  hosted_by sel' db' parent = hosted_by sel db parent.
Proof. intros H E. unfold hosted_by. rewrite E. apply existsb_pointwise. intros s. by rewrite H. Qed.

(** The statements that end sessions. *)
Lemma ending_statements scope t nowMs (sel : AuthDb -> SessionRow -> bool) p rest db db' ns :
  (forall db0, around db0 = around db -> generations db0 = generations db -> sessions db0 = sessions db ->
     map quota_key (quotas db0) = map quota_key (quotas db) -> forall s, sel db0 s = sel db s) ->
  run_auth_statements (exhaust_quotas p :: deleteHostedExchanges scope t sel :: retireHostedCredentials scope t nowMs sel ::
    retire_sessions nowMs sel :: rest) db = inr (db', ns) ->
  exists db1 ns1, hosted_ending scope t nowMs (sel db) db db1 /\ run_auth_statements rest db1 = inr (db', ns1).
Proof.
  intros Hs (db1 & n1 & ns1 & [= <- <-] & H & ->)%run_statements_cons.
  apply run_statements_cons in H as (db2 & n2 & ns2 & [= <- <-] & H & ->).
  apply run_statements_cons in H as (db3 & n3 & ns3 & [= <- <-] & H & ->).
  apply run_statements_cons in H as (db4 & n4 & ns4 & [= <- <-] & H & ->).
  eexists _, ns4. split; [|exact H].
  assert (map quota_key (update_where (p db) exhaust_quota (quotas db)) = map quota_key (quotas db)) as Hq
    by by apply map_update_where.
  split; simpl.
  - apply filter_ext. intros x. do 2 f_equal. apply hosted_by_ext; [|done]. intros s. symmetry. by apply Hs.
  - apply update_where_ext. intros c. f_equal. apply hosted_by_ext; [|done]. intros s. symmetry. by apply Hs.
  - apply update_where_ext. intros s. by apply Hs.
Qed.

(** A claim and a completion leave the hosted tables alone. *)
Definition same_hosted (db db' : AuthDb) : Prop := exchanges db' = exchanges db /\ credentials db' = credentials db.

Lemma run_after_hosted triggers r : Forall (fun t : AfterTrigger => forall db db', t db r = inr db' -> same_hosted db db') triggers ->
  forall db db', run_after triggers db r = inr db' -> same_hosted db db'.
Proof.
  induction 1 as [|t triggers Ht _ IH]; simpl; intros db db'; [by intros [= <-]|].
  destruct (t db r) as [|db1] eqn:E; [done|]. intros [H1 H2]%IH. apply Ht in E as [H3 H4]. split; congruence.
Qed.

Lemma insert_operation_hosted dbNow c db db' : insert_operation dbNow c db = inr db' -> same_hosted db db'.
Proof.
  unfold insert_operation. destruct (run_before _ _ _); [done|]. destruct (constraints _ _); [done|].
  intros H. eapply run_after_hosted in H; [exact H|].
  repeat (apply Forall_cons; split); [intros d d' H'..|by apply Forall_nil].
  - unfold wallet_signing_credit_claim in H'. repeat (case_match; simplify_eq/=); done.
  - unfold authorized_operation_owner_grant_claim_atomic in H'. repeat (case_match; simplify_eq/=); done.
  - unfold authorized_operation_step_up_claim_atomic in H'. repeat (case_match; simplify_eq/=); done.
  - unfold authorized_operation_audit_claim in H'. repeat (case_match; simplify_eq/=); done.
Qed.

Lemma complete_operation_hosted t id fp outcome db db' row : complete_operation t id fp outcome db = inr (db', row) ->
  exchanges db' = exchanges db /\ credentials db' = credentials db.
Proof.
  unfold complete_operation. destruct (List.find _ _) as [r|]; [|by intros [= <- _]]. destruct (negb _); [done|].
  unfold authorized_operation_audit_complete, wallet_signature_completion_record. intros H.
  repeat (case_match; simplify_eq/=); done.
Qed.

(** An issuance inserts at most a quota and a session. *)
Lemma session_inserts_hosted candidate q db db' ns :
  run_auth_statements [quota_insert candidate q; session_insert candidate q] db = inr (db', ns) ->
  exchanges db' = exchanges db /\ credentials db' = credentials db /\ forall s, s ∈ sessions db -> s ∈ sessions db'.
Proof.
  intros (db1 & n1 & ns1 & H1 & H & ->)%run_statements_cons.
  apply run_statements_cons in H as (db2 & n2 & ns2 & H2 & H & ->). injection H as <- _.
  unfold quota_insert in H1. unfold session_insert in H2.
  repeat (case_match; simplify_eq/=); split_and!; try done; set_solver.
Qed.

(** ** Steps *)

Inductive hosted_step (db : AuthDb) : AuthDb -> Prop :=
| hosted_put scope x db' n : exchange_wf scope x db -> insert_exchange scope x db = inr (db', n) -> hosted_step db db'
| hosted_redeem scope parent input db' ns :
    run_auth_statements (redeem_statements scope parent input) db = inr (db', ns) -> hosted_step db db'
| hosted_claim dbNow c db' : insert_operation dbNow c db = inr db' -> hosted_step db db'
| hosted_complete tenantId operationId fingerprint result response resultDigest completedAtMs db' row :
    complete_operation tenantId operationId fingerprint (completed_outcome result response resultDigest completedAtMs) db
      = inr (db', row) -> hosted_step db db'
| hosted_issue scope p db' ns : issuable scope p db ->
    run_auth_statements (prepareDirectWalletSessionAuthorizationV2Statements scope p) db = inr (db', ns) -> hosted_step db db'
| hosted_retire_method scope tenantId walletId methodId nowMs statements db' ns :
    prepareRetireWalletSessionAuthorizationsForAuthMethod scope tenantId walletId methodId nowMs = Ok statements ->
    run_auth_statements statements db = inr (db', ns) -> hosted_step db db'
| hosted_retire_authority scope tenantId walletId authorityId nowMs statements db' ns :
    prepareRetireWalletSessionAuthorizationsV2ForAuthority scope tenantId walletId authorityId nowMs = Ok statements ->
    run_auth_statements statements db = inr (db', ns) -> hosted_step db db'
| hosted_around db' : surroundings_change db db' -> exchanges db' = exchanges db -> credentials db' = credentials db ->
    hosted_step db db'.

(** No session was hosted yet. *)
Definition hosted_reachable (db : AuthDb) : Prop :=
  exists db0, new_db db0 /\ exchanges db0 = [] /\ credentials db0 = [] /\ rtc hosted_step db0 db.

Lemma same_open_parent db db' parent : (forall s, s ∈ sessions db -> s ∈ sessions db') -> open_parent parent db -> open_parent parent db'.
Proof. intros H (s & Hs & ?). exists s. auto. Qed.

Lemma kept_open_parent db db' parent : Forall2 session_kept (sessions db) (sessions db') -> open_parent parent db -> open_parent parent db'.
Proof.
  intros Hall (s & [i Hin]%list_elem_of_lookup & Hi & Ho). destruct (Forall2_lookup_l _ _ _ _ _ Hall Hin) as (s' & Hin' & Hi' & _ & _ & Hr).
  exists s'. split; [by eapply list_elem_of_lookup_2|]. split; [congruence|]. unfold is_open in *. by rewrite Hr.
Qed.

Lemma predecessor_in_tenant scope p s : predecessor (session_row scope p) s = true ->
  in_tenant scope (tenantId (ps_session p)) (sr_identity s) = true.
Proof. unfold predecessor, same_tenant. intros H. conditions. by apply in_tenant_spec. Qed.

Lemma hosted_inv_step db db' : auth_inv db -> hosted_inv db -> hosted_step db db' -> hosted_inv db'.
Proof.
  intros Ha Hi. destruct 1 as [scope x db' n Hw H|scope parent input db' ns H|dbNow c db' H
    |t id fp result response digest at_ db' row H|scope p db' ns Hiss H|scope t w m now sts db' ns H1 H
    |scope t w a now sts db' ns H1 H|db' H He Hc].
  - by eapply insert_exchange_inv.
  - apply redeem_cases in H as [(_ & _ & x & H)|[_ ->]]; [by eapply redemption_inv|done|done].
  - pose proof (insert_operation_hosted _ _ _ _ H) as [He Hc]. apply insert_effect in H.
    apply (hosted_inv_frame db); [done|done| |done]. intros parent. apply same_open_parent. by rewrite (ce_sessions _ _ _ H).
  - pose proof (complete_operation_hosted _ _ _ _ _ _ _ H) as [He Hc]. apply complete_cases in H as [(_ & -> & _)|[H _]]; [done|].
    apply (hosted_inv_frame db); [done|done| |done]. intros parent. apply same_open_parent.
    by rewrite (co_sessions _ _ _ _ _ _ H).
  - apply ending_statements in H as (db1 & ns1 & Hend & H).
    + apply session_inserts_hosted in H as (He & Hc & Hs).
      apply (hosted_inv_frame db1); [done|done|intros parent; by apply same_open_parent|].
      eapply hosted_ending_inv; [|exact Hend|done]. intros s [Hp _]%andb_true_iff. by apply predecessor_in_tenant.
    + intros db0 Har Hg Hs Hq s. f_equal. apply available_ext; try done. by rewrite Hs.
  - unfold prepareRetireWalletSessionAuthorizationsForAuthMethod in H1. apply result_bind_ok in H1 as (z & _ & [= <-]).
    apply ending_statements in H as (db1 & ns1 & Hend & [= <- _]); [|done].
    eapply hosted_ending_inv; [|exact Hend|done]. intros s Hs. unfold open_session_of in Hs. by conditions.
  - unfold prepareRetireWalletSessionAuthorizationsV2ForAuthority in H1. apply result_bind_ok in H1 as (z & _ & [= <-]).
    apply ending_statements in H as (db1 & ns1 & Hend & [= <- _]); [|by intros db0 ->].
    eapply hosted_ending_inv; [|exact Hend|done]. intros s Hs. simpl in Hs. unfold open_session_of in Hs. by conditions.
  - apply (hosted_inv_frame db); [done|done| |done]. intros parent. apply kept_open_parent. exact (su_sessions _ _ H).
Qed.

Lemma hosted_change db xs cs : auth_inv db -> surroundings_change db (set_hosted xs cs db).
Proof.
  intros Hi. split; try done.
  - simpl. apply Forall2_same_length_lookup_2; [done|]. intros i s s' E E'. by simplify_eq.
  - destruct (av_credits _ Hi) as [Hg Hc _ _ _ _]. split; [done|]. split; [by apply Forall_forall|].
    intros g Hin. by exists g.
Qed.

(** The steps are steps of the store. *)
Lemma hosted_auth_step db db' : auth_inv db -> hosted_inv db -> hosted_step db db' -> db' = db \/ auth_step db db'.
Proof.
  intros Ha Hi. destruct 1 as [scope x db' n _ H|scope parent input db' ns H| | | | | |];
    [| |right; by econstructor|right; by econstructor|right; by econstructor|right; by eapply step_retire_method
     |right; by eapply step_retire_authority|right; by constructor].
  - apply insert_exchange_cases in H as [[_ ->]|(_ & _ & _ & ->)]; [by left|right]. by apply step_surroundings, hosted_change.
  - apply redeem_cases in H as [(_ & _ & x & H)|[_ ->]]; [|by left|done]. right. rewrite (rd_db _ _ _ _ _ _ H).
    by apply step_surroundings, hosted_change.
Qed.

Lemma hosted_step_inv db db' : auth_inv db /\ hosted_inv db -> hosted_step db db' -> auth_inv db' /\ hosted_inv db'.
Proof.
  intros [Ha Hi] H. split; [|by eapply hosted_inv_step].
  destruct (hosted_auth_step _ _ Ha Hi H) as [->|?]; [done|by eapply auth_inv_step].
Qed.

Lemma hosted_steps_inv db db' : rtc hosted_step db db' -> auth_inv db /\ hosted_inv db -> auth_inv db' /\ hosted_inv db'.
Proof. induction 1 as [|x y z H _ IH]; [done|]. intros Hi. apply IH. by eapply hosted_step_inv. Qed.

Lemma hosted_reachable_inv db : hosted_reachable db -> auth_inv db /\ hosted_inv db.
Proof.
  intros (db0 & Hn & Hx & Hc & H). eapply hosted_steps_inv; [done|]. split; [by apply new_db_inv|].
  split; rewrite ?Hx, ?Hc; try set_solver; apply NoDup_nil_2.
Qed.

(** *** A consumed exchange stays *)

Lemma ending_keeps_used scope t nowMs ended db db' x : hosted_inv db -> hosted_ending scope t nowMs ended db db' ->
  x ∈ exchanges db -> unused x = false -> x ∈ exchanges db'.
Proof.
  intros Hi [-> _ _] Hx Hu. apply elem_filter. split; [done|].
  destruct (hv_state _ Hi x Hx) as [?|[Hl _]]; [congruence|]. by rewrite (consumed_not_issued _ Hl), andb_false_r.
Qed.

Lemma used_kept db db' x : hosted_inv db -> hosted_step db db' -> x ∈ exchanges db -> unused x = false -> x ∈ exchanges db'.
Proof.
  intros Hi H Hx Hu. destruct H as [scope i db' n Hw H|scope parent input db' ns H|dbNow c db' H
    |t id fp result response digest at_ db' row H|scope p db' ns Hiss H|scope t w m now sts db' ns H1 H
    |scope t w a now sts db' ns H1 H|db' H He Hc].
  - apply insert_exchange_cases in H as [[_ ->]|(_ & _ & _ & ->)]; [done|]. simpl. set_solver.
  - apply redeem_cases in H as [(_ & _ & y & [_ Hr _ _ _ ->])|[_ ->]]; [|done|done]. simpl. apply elem_update_where.
    exists x. split; [done|]. apply redeemable_key in Hr as (_ & _ & Hy & _). rewrite bool_decide_eq_false_2; congruence.
  - by destruct (insert_operation_hosted _ _ _ _ H) as [-> _].
  - by destruct (complete_operation_hosted _ _ _ _ _ _ _ H) as [-> _].
  - apply ending_statements in H as (db1 & ns1 & Hend & H).
    + apply session_inserts_hosted in H as (-> & _ & _). by eapply ending_keeps_used.
    + intros db0 Har Hg Hs Hq s. f_equal. apply available_ext; try done. by rewrite Hs.
  - unfold prepareRetireWalletSessionAuthorizationsForAuthMethod in H1. apply result_bind_ok in H1 as (z & _ & [= <-]).
    apply ending_statements in H as (db1 & ns1 & Hend & [= <- _]); [|done]. by eapply ending_keeps_used.
  - unfold prepareRetireWalletSessionAuthorizationsV2ForAuthority in H1. apply result_bind_ok in H1 as (z & _ & [= <-]).
    apply ending_statements in H as (db1 & ns1 & Hend & [= <- _]); [|by intros db0 ->]. by eapply ending_keeps_used.
  - by rewrite He.
Qed.

Lemma used_kept_steps db db' x : rtc hosted_step db db' -> auth_inv db /\ hosted_inv db -> x ∈ exchanges db -> unused x = false ->
  x ∈ exchanges db'.
Proof.
  induction 1 as [|db db1 db2 H _ IH]; [done|]. intros Hi Hx Hu. apply IH; [by eapply hosted_step_inv| |done].
  destruct Hi. by eapply used_kept.
Qed.

(** ** A whole redemption *)

(** The read of a code finds the exchange of the code. *)
Lemma read_exchange_spec scope code db r : readHostedWalletExchangeV2 scope code db = Some r ->
  xr_exchange r ∈ exchanges db /\ code_key (xr_exchange r) = (scope, code).
Proof.
  unfold readHostedWalletExchangeV2. destruct (List.find _ _) as [x|] eqn:E; [|done]. intros [= <-].
  apply find_elem in E as [Hx Hk]. conditions. split; [done|]. unfold code_key. simpl. congruence.
Qed.

Lemma read_used scope code db x : hosted_inv db -> x ∈ exchanges db -> code_key x = (scope, code) -> exists r,
  readHostedWalletExchangeV2 scope code db = Some r /\ xr_exchange r = x.
Proof.
  intros Hi Hx Hk. destruct (readHostedWalletExchangeV2 scope code db) as [r|] eqn:E.
  - exists r. split; [done|]. apply read_exchange_spec in E as [Hr Hkr].
    apply (nodup_map_elem code_key _ _ _ (hv_codes _ Hi) Hr Hx). congruence.
  - exfalso. unfold readHostedWalletExchangeV2 in E. destruct (List.find _ _) eqn:Ef; [done|].
    pose proof (find_none_elem _ _ Ef x Hx) as Hno. apply not_true_iff_false in Hno. apply Hno.
    injection Hk as <- <-. by rewrite bool_decide_eq_true_2, (proj2 (same_spec _ _)).
Qed.

(** The answer that is given for the exchange that was read. *)
Definition redeemed_answer (x : HostedExchangeRow) (input : RedeemInput) : HostedExchangeResult :=
  Redeemed (si_tenantId (he_parent x)) (si_authorizationId (he_parent x)) (si_walletSessionId (he_parent x))
    (ri_hostedCredentialId input) (he_expiresAtMs x).

#[local] Arguments parseAuthorizationId : simpl never.

Lemma redeemed_result_ok x input : exchange_ids_ok x -> opaque_id (ri_hostedCredentialId input) = true ->
  redeemed_result x input = Ok (redeemed_answer x input).
Proof.
  intros (H1 & H2 & H3 & H4) Hc. unfold redeemed_result, requireParsed, parseTenantId, parseWalletSessionAuthorizationId,
    parseWalletSessionId. rewrite !parseAuthorizationId_ok by done. cbn [result_bind].
  change (parseHostedWalletSessionCredentialId ?v) with (requireString v "hostedWalletSessionCredentialId").
  rewrite requireString_ok by done. cbn [result_bind]. by rewrite integerColumn_ok.
Qed.

(** The body of the [try]. *)
Lemma redeem_batch_run env scope parent input db res db' : hosted_inv db -> redeem_batch env scope parent input db = (res, db') ->
  (exists x, redemption scope (si_tenantId parent) input x db db' /\
     (res = Ok None /\ re_fault env = NoFault \/ (exists e, res = Throw e) /\ re_fault env = AnswerLost true)) \/
  (db' = db /\ res <> Ok None).
Proof.
  intros Hi. unfold redeem_batch. unfold bind at 1, lift at 1.
  destruct (requirePositiveInteger _ _); [|by intros [= <- <-]; right].
  unfold bind at 1, run_update at 1.
  destruct (re_fault env) as [|[|]] eqn:Hfault; [| |by intros [= <- <-]; right];
    (destruct (run_auth_statements _ db) as [m|[db1 ns]] eqn:Hrun; [by intros [= <- <-]; right|]);
    apply redeem_cases in Hrun as [(H0 & H1 & x & Hx)|[H0 ->]]; try done.
  - rewrite H0, H1. intros [= <- <-]. left. eauto 6.
  - rewrite (proj2 (Z.eqb_neq _ _) H0). cbn [negb orb]. unfold bind, read_db, throw, gets, lift, ret. intros H. right.
    destruct (re_rereadLost env); [by injection H as <- <-|]. destruct (classifyHostedWalletExchangeV2 _ _); by injection H as <- <-.
  - intros [= <- <-]. left. eauto 6.
  - intros [= <- <-]. by right.
Qed.

Lemma finish_run env scope current input publish db res db' : hosted_inv db ->
  exchange_ids_ok (xr_exchange current) -> opaque_id (ri_hostedCredentialId input) = true ->
  finish_redemption env scope current input publish db = (res, db') ->
  (exists x, redemption scope (si_tenantId (he_parent (xr_exchange current))) input x db db' /\
     (res = Ok (redeemed_answer (xr_exchange current) input) /\ re_fault env = NoFault \/
      res = Ok (Rejected wallet_session_unavailable) /\ re_fault env = AnswerLost true)) \/
  (db' = db /\ ((exists rejection, res = Ok (Rejected rejection)) \/ exists e, publish = Throw e /\ res = Throw e)).
Proof.
  intros Hi Hids Hcred. unfold finish_redemption. unfold bind at 1, lift at 1.
  destruct publish as [[]|e]; [|intros [= <- <-]; right; eauto 6].
  unfold bind, try_catch. destruct (redeem_batch _ _ _ _ db) as [r db1] eqn:E.
  apply redeem_batch_run in E as [(x & Hx & Hcase)|[-> Hr]]; [| |done].
  - destruct Hcase as [[-> Hf]|[[e ->] Hf]]; unfold ret, lift; rewrite ?redeemed_result_ok by done; intros [= <- <-];
      left; eauto 6.
  - destruct r as [[rejection|]|e]; [|done|]; intros [= <- <-]; right; eauto 6.
Qed.
