(* ===== verification/HostedSafety.v ===== *)
(** * What hosted sessions promise

    A code is exchanged once, by one redemption that does everything or nothing, and what
    was handed out ends with the session it came from. *)

From stdpp Require Import relations.
From S2P Require Import Prelude JsValues Base64 VersionedRecords Capabilities AuthorizationDomain WalletSessionValues AuthorizationTables AuthorizedOperations WalletSessionIssuance AuthorizationWrites AuthorizationSystem AuthorizationRuns AuthorizationSafety WalletSessionReads HostedSessions HostedSystem.
Local Open Scope Z_scope.
Local Open Scope js_scope.

(** ** Codes *)

(** A redemption leaves its exchange used. *)
Lemma redemption_uses scope t input x db db' : redemption scope t input x db db' ->
  consume input x ∈ exchanges db' /\ code_key (consume input x) = (scope, ri_codeHash input).
Proof.
  intros [Hx Hr _ _ _ ->]. split; [|exact (proj1 (redeemable_key _ _ _ _ Hr))]. simpl. apply elem_update_where.
  exists x. split; [done|]. by rewrite bool_decide_eq_true_2.
Qed.

(** Nothing redeems a code that was used. *)
Lemma used_not_redeemed scope t input x y db db' : hosted_inv db -> y ∈ exchanges db -> unused y = false ->
  code_key y = (scope, ri_codeHash input) -> ~ redemption scope t input x db db'.
Proof.
  intros Hi Hy Hu Hk [Hx Hr _ _ _ _]. apply redeemable_key in Hr as (Hkx & _ & Hux & _).
  rewrite (nodup_map_elem code_key _ x y (hv_codes _ Hi) Hx Hy) in Hux by congruence. congruence.
Qed.

(** The end of a redemption is that of its batch. *)
Lemma finish_batch env scope current input publish db res db' : hosted_inv db ->
  finish_redemption env scope current input publish db = (res, db') ->
  (exists x, redemption scope (si_tenantId (he_parent (xr_exchange current))) input x db db') \/
  (db' = db /\ forall t a w c z, res <> Ok (Redeemed t a w c z)).
Proof.
  intros Hi. unfold finish_redemption. unfold bind at 1, lift at 1.
  destruct publish as [[]|e]; [|by intros [= <- <-]; right]. unfold bind, try_catch.
  destruct (redeem_batch _ _ _ _ db) as [r db1] eqn:E. apply redeem_batch_run in E as [(x & Hx & _)|[-> Hr]]; [| |done].
  - intros H. left. exists x. destruct r as [[rejection|]|e]; unfold ret, lift in H; by injection H as _ <-.
  - intros H. right. destruct r as [[rejection|]|e]; [|done|]; unfold ret in H; by injection H as <- <-.
Qed.

(** A whole redemption of a code that was used. *)
Lemma used_answer env scope input publish db x : re_readLost env = false -> hosted_inv db -> x ∈ exchanges db ->
  unused x = false -> code_key x = (scope, ri_codeHash input) ->
  redeemHostedWalletSeamsSessionExchange env scope input publish db = (Ok (Rejected already_consumed), db).
Proof.
  intros He Hi Hx Hu Hk. unfold redeemHostedWalletSeamsSessionExchange, bind, read_db, gets, lift, ret. rewrite He.
  destruct (read_used _ _ _ _ Hi Hx Hk) as (r & -> & <-).
  destruct (hv_state _ Hi _ Hx) as [?|[Hc _]]; [congruence|]. by simpl; rewrite Hc.
Qed.

(** C7. A code is exchanged once.  After a redemption of it succeeded, and whatever happened to
    the store since, a redemption of the same code that starts then is answered
    [already_consumed], and one that had read the code before and goes on, whatever it read,
    whoever it is for and with any fault, is not answered with a credential; neither
    changes anything. *)
Theorem hosted_code_single_use env1 scope current1 input1 publish1 db0 t a w c z db1 db2 input2 :
  hosted_reachable db0 ->
  finish_redemption env1 scope current1 input1 publish1 db0 = (Ok (Redeemed t a w c z), db1) ->
  rtc hosted_step db1 db2 -> ri_codeHash input2 = ri_codeHash input1 ->
  (forall env2 publish2, re_readLost env2 = false ->
     redeemHostedWalletSeamsSessionExchange env2 scope input2 publish2 db2 = (Ok (Rejected already_consumed), db2)) /\
  (forall env2 current2 publish2 res db3, finish_redemption env2 scope current2 input2 publish2 db2 = (res, db3) ->
     db3 = db2 /\ forall t' a' w' c' z', res <> Ok (Redeemed t' a' w' c' z')).
Proof.
  intros [Ha Hi]%hosted_reachable_inv H1 Hs Hk.
  apply finish_batch in H1 as [[x Hx]|[_ Hno]]; [|by destruct (Hno t a w c z)|done].
  destruct (redemption_uses _ _ _ _ _ _ Hx) as [Hin Hkey]. rewrite <- Hk in Hkey.
  assert (auth_inv db1 /\ hosted_inv db1) as Hinv1.
  { split; [|by eapply redemption_inv]. rewrite (rd_db _ _ _ _ _ _ Hx). eapply auth_inv_step; [exact Ha|].
    by apply step_surroundings, hosted_change. }
  assert (unused (consume input1 x) = false) as Hu by done.
  pose proof (used_kept_steps _ _ _ Hs Hinv1 Hin Hu) as Hin2. apply (hosted_steps_inv _ _ Hs) in Hinv1 as [_ Hi2].
  split.
  - intros env2 publish2 He. by eapply used_answer.
  - intros env2 current2 publish2 res db3 [[y Hy]|H]%finish_batch; [|done|done].
    by destruct (used_not_redeemed _ _ _ _ _ _ _ Hi2 Hin2 Hu Hkey Hy).
Qed.

(** C17. A redemption does everything or nothing.  With the exchange it read, and whatever
    happened to the store since: either one unused exchange of the code, the one that was
    read if it is still there, is consumed and one credential with its session, origins
    and end is added, which is answered unless the answer of the batch was lost; or the
    store is as it was and the answer is a rejection, or the error of the locator. *)
Theorem redemption_effect env scope current input publish db0 db res db' :
  hosted_reachable db0 -> readHostedWalletExchangeV2 scope (ri_codeHash input) db0 = Some current ->
  rtc hosted_step db0 db -> opaque_id (ri_hostedCredentialId input) = true ->
  finish_redemption env scope current input publish db = (res, db') ->
  (exists x, redemption scope (si_tenantId (he_parent (xr_exchange current))) input x db db' /\
     (xr_exchange current ∈ exchanges db -> x = xr_exchange current) /\
     (res = Ok (redeemed_answer (xr_exchange current) input) /\ re_fault env = NoFault \/
      res = Ok (Rejected wallet_session_unavailable) /\ re_fault env = AnswerLost true)) \/
  (db' = db /\ ((exists rejection, res = Ok (Rejected rejection)) \/ exists e, publish = Throw e /\ res = Throw e)).
Proof.
  intros Hr%hosted_reachable_inv [Hx Hk]%read_exchange_spec Hs Hid H.
  pose proof (hv_ids _ (proj2 Hr) _ Hx) as Hids. pose proof (hosted_steps_inv _ _ Hs Hr) as [_ Hi].
  apply finish_run in H as [(x & H & Hres)|H]; [left|by right|done..].
  exists x. split; [done|]. split; [|done]. intros Hc.
  apply (nodup_map_elem code_key _ _ _ (hv_codes _ Hi)); [exact (rd_exchange _ _ _ _ _ _ H)|done|].
  rewrite Hk. exact (proj1 (redeemable_key _ _ _ _ (rd_redeemable _ _ _ _ _ _ H))).
Qed.

(** C13. Hosted sessions end with their session.  In every database that is reached, the codes
    that can still be exchanged and the credentials that were not retired belong to
    sessions that are open, and a credential was handed out for exactly one code, which is
    consumed and gave it its origins and its end. *)
Theorem hosted_ends_with_session db : hosted_reachable db ->
  (forall x, x ∈ exchanges db -> unused x = true -> open_parent (he_parent x) db) /\
  (forall c, c ∈ credentials db -> live c = true -> open_parent (hc_parent c) db) /\
  (forall c, c ∈ credentials db -> exists x, x ∈ exchanges db /\ names x c /\ copied x c /\ unused x = false /\
     forall y, y ∈ exchanges db -> names y c -> y = x).
Proof.
  intros [_ Hi]%hosted_reachable_inv. split; [exact (hv_open_exchange _ Hi)|]. split; [exact (hv_open_credential _ Hi)|].
  intros c Hc. destruct (hv_named _ Hi c Hc) as (x & Hx & Hn & Hco). exists x. split_and!; try done.
  - by eapply names_not_unused.
  - intros y Hy Hny. by eapply hv_one.
Qed.

(** ** Credentials *)

Lemma integerColumn_inv z label v : integerColumn (JInt z) label = Ok v -> v = z.
Proof.
  unfold integerColumn. change (js_Number (JInt z)) with (NInt z). simpl. destruct (is_safe_integer _); [|done]. by intros [= <-].
Qed.

Lemma requirePositiveInteger_inv z label v : requirePositiveInteger (JInt z) label = Ok v -> v = z.
Proof.
  unfold requirePositiveInteger. intros (m & ->%integerColumn_inv & H)%result_bind_ok. destruct (z <=? 0); [done|].
  by injection H.
Qed.

(** A session that was read is open, in force and not over, and its quota has a use left. *)
Record read_session (scope : WalletScope) (tenant : string) (db : AuthDb) (nowMs : Z) (read : IssuedWalletSessionAuthorizationV2)
    (j : SessionRow) : Prop := mkReadSession {
  rs_session : j ∈ sessions db;
  rs_tenant : in_tenant scope tenant (sr_identity j) = true;
  rs_open : is_open j = true;
  rs_columns : walletSessionAuthorizationV2RowMatches j (iw_session read) = true;
  rs_provenance : hosted_provenance db j = true;
  rs_time : nowMs < expiresAtMs (iw_session read);
  rs_quota : exists q, q ∈ quotas db /\ qr_tenantId q = tenant /\ qr_quotaId q = quotaId (iw_session read) /\
    qr_lifecycle q = QuotaActive /\ qr_remainingUses q = aq_remainingUses (iw_quotaRow read) /\ 0 < qr_remainingUses q;
}.

Lemma joined_provenance scope db j s : si_scope (sr_identity j) = scope ->
  walletSessionAuthorizationV2RowMatches j s = true -> provenance_active (joined_row scope db j) s = Ok true ->
  hosted_provenance db j = true.
Proof.
  intros <- Hm. unfold provenance_active, joined_row. simpl.
  destruct (List.find _ (authorities (around db))) as [a|] eqn:Ea; [|done]. destruct (_ && _) eqn:Ec; [|done].
  intros (epoch & ->%integerColumn_inv & [= H])%result_bind_ok.
  apply andb_true_iff in H as [He Hmm]. destruct (List.find _ (authMethods (around db))) as [m|] eqn:Em; [|done].
  apply find_elem in Ea as [Ha Hpa], Em as [Hme Hpm]. unfold walletSessionAuthorizationV2RowMatches in Hm. conditions.
  unfold hosted_provenance, authority_current, method_active.
  apply andb_true_iff. split; apply existsb_some; [exists a|exists m]; (split; [done|]); unfold same;
    rewrite !bool_decide_eq_true_2 by congruence; [|done]. lia.
Qed.

Lemma quota_columns_inv q remaining s fields : quota_columns q remaining s = Ok fields ->
  remaining (JInt (qr_remainingUses q)) "V2 quota.remainingUses" = Ok (aq_remainingUses fields).
Proof.
  unfold quota_columns. intros H. do 4 apply result_bind_ok in H as (? & _ & H).
  apply result_bind_ok in H as (uses & Hu & H). apply result_bind_ok in H as (? & _ & H). destruct (negb _); [done|].
  by injection H as <-.
Qed.

Lemma read_session_spec lost scope input nowMs column db read db' :
  readWalletSessionAuthorizationV2 lost scope input nowMs column db = (Ok (Some read), db') ->
  db' = db /\ read_matches input (iw_session read) = Ok tt /\
  exists j, lookup_is column (lookup_value column input) j = true /\ read_session scope (lookup_tenant input) db nowMs read j.
Proof.
  unfold readWalletSessionAuthorizationV2, read_db. unfold bind at 1. destruct lost; [done|].
  unfold gets, readJoinedWalletSessionAuthorizationV2Row.
  destruct (List.find _ (sessions db)) as [j|] eqn:Ej; [|done]. apply find_elem in Ej as [Hj Hp]. cbn [fmap option_fmap option_map].
  unfold bind, lift, ret. destruct (parseLiveWalletSessionAuthorizationV2Row _ _ _) as [s|] eqn:Es; [|done].
  destruct (parseWalletSessionAuthorizationV2QuotaRow _ s) as [q|] eqn:Eq; [|done]. intros [= <- <-]. simpl.
  split; [done|]. unfold parseLiveWalletSessionAuthorizationV2Row in Es. simpl j_session in Es. apply andb_true_iff in Hp as [Ht Hl].
  destruct (sr_retiredAtMs j) eqn:Hr; [done|]. apply result_bind_ok in Es as (s0 & _ & Es).
  destruct (negb _) eqn:Hm; [done|]. apply negb_false_iff in Hm. apply result_bind_ok in Es as (? & _ & Es).
  destruct (negb _); [done|]. apply result_bind_ok in Es as (act & Hact & Es).
  destruct act; [|done]. simpl in Es. apply result_bind_ok in Es as ([] & Hread & Es).
  apply result_bind_ok in Es as (now & ->%requirePositiveInteger_inv & Es). destruct (Z.leb_spec (expiresAtMs s0) nowMs); [done|].
  injection Es as ->. split; [done|]. exists j. split; [done|]. apply in_tenant_spec in Ht as Ht'. destruct Ht' as [Hsc Htt].
  split; try done.
  - unfold is_open. by rewrite Hr.
  - by eapply joined_provenance.
  - unfold parseWalletSessionAuthorizationV2QuotaRow in Eq. simpl in Eq.
    destruct (List.find _ (quotas db)) as [row|] eqn:Ef; [|done]. apply find_elem in Ef as [Hrow Hq]. case_bool_decide; [|done].
    apply result_bind_ok in Eq as (fields & Hf & Eq). unfold buildActiveWalletSessionQuota in Eq.
    apply result_bind_ok in Eq as (? & Hpos & Eq). apply result_bind_ok in Eq as (? & _ & [= ->]).
    apply quota_columns_inv in Hf as Hv. pose proof (requirePositiveInteger_inv _ _ _ Hv) as Hv'.
    unfold walletSessionAuthorizationV2RowMatches in Hm. conditions. exists row. simpl. split_and!; try congruence.
    unfold requirePositiveInteger in Hv. apply result_bind_ok in Hv as (m & ->%integerColumn_inv & Hv).
    destruct (Z.leb_spec (qr_remainingUses row) 0); [done|lia].
Qed.

Lemma first_true_false conditions : first_true conditions = Ok false -> Forall (fun c => c = Ok false) conditions.
Proof.
  induction conditions as [|c conditions IH]; simpl; [by constructor|].
  intros (b & Hb & H)%result_bind_ok. destruct b; [done|]. constructor; [done|by apply IH].
Qed.

(** What a session and its quota that can be used have. *)
Lemma parent_usable now expires session quota l1 l2 l3 l4 before :
  parent_unusable now expires session quota l1 l2 l3 l4 before = Ok false ->
  Forall (fun c => c = Ok false) before /\ exists s q, session = Some s /\ quota = Some q /\ is_open s = true /\
    qr_lifecycle q = QuotaActive /\ 0 < qr_remainingUses q /\ now < sr_expiresAtMs s /\ expires <= sr_expiresAtMs s /\
    now < qr_expiresAtMs q /\ expires <= qr_expiresAtMs q.
Proof.
  unfold parent_unusable. destruct session as [s|]; [|done].
  destruct (negb _ || negb _) eqn:Hs; [done|]. apply orb_false_iff in Hs as [_ Ho]. destruct quota as [q|]; [|done].
  destruct (bool_decide (qr_lifecycle q = QuotaActive)) eqn:Hq; [|done]. apply bool_decide_eq_true in Hq.
  cbn [negb]. intros H%first_true_false.
  apply Forall_app in H as [Hrem [Hb Hrest]%Forall_app].
  assert (forall z l (k : Z -> bool), (let* v := integerColumn (JInt z) l in Ok (k v)) = Ok false -> k z = false) as Hcol.
  { intros z l k (v & ->%integerColumn_inv & [= Hk])%result_bind_ok. done. }
  assert (forall z z' l l', (let* a := integerColumn (JInt z) l in let* b := integerColumn (JInt z') l' in Ok (a <? b)) = Ok false ->
    z' <= z) as Htwo.
  { intros z z' l l' (v & ->%integerColumn_inv & (v' & ->%integerColumn_inv & [= Hk])%result_bind_ok)%result_bind_ok. lia. }
  apply Forall_cons_1 in Hrem as [Hrem _].
  apply Forall_cons_1 in Hrest as [H1 [H2 [H3 [H4 _]%Forall_cons_1]%Forall_cons_1]%Forall_cons_1].
  apply Hcol in Hrem, H1, H3. apply Htwo in H2, H4. split; [done|]. exists s, q. unfold is_open.
  split_and!; try done; [by apply negb_false_iff in Ho|lia..].
Qed.

Lemma session_origin_ok parseUrl text origin : parseSessionOrigin parseUrl (JString text) = Ok origin -> origin = text.
Proof.
  unfold parseSessionOrigin. destruct (negb (bool_decide _)); [done|]. destruct (parseUrl text) as [url|]; [|done].
  destruct (_ || _); [done|]. by intros [= ->].
Qed.

Lemma credential_id_ok text id : parseHostedWalletSessionCredentialId (JString text) = Ok id -> id = text.
Proof. unfold parseHostedWalletSessionCredentialId, parseAuthorizationDomainId. destruct (_ || _); [done|]. by intros [= ->]. Qed.

Lemma parent_session parent db s : session_of_parent parent db = Some s -> s ∈ sessions db /\ sr_identity s = parent.
Proof. intros [Hs Hp%bool_decide_eq_true]%find_elem. done. Qed.

(** The credential that a resolution is about, with the session it is of. *)
Record resolution (scope : WalletScope) (tenantId tokenHash requestOrigin : string) (nowMs : Z) (db : AuthDb)
    (r : ResolvedHostedCredential) (c : HostedCredentialRow) (s : SessionRow) : Prop := mkResolution {
  re_credential : c ∈ credentials db /\ in_tenant scope tenantId (hc_parent c) = true /\ hc_credentialDigest c = tokenHash;
  re_live : live c = true;
  re_origin : hc_walletOrigin c = requestOrigin;
  re_time : nowMs < hc_expiresAtMs c <= sr_expiresAtMs s;
  re_parent : s ∈ sessions db /\ sr_identity s = hc_parent c /\ is_open s = true;
  re_answer : rh_hostedCredentialId r = hc_hostedCredentialId c /\ rh_appOrigin r = hc_appOrigin c /\
    rh_walletOrigin r = hc_walletOrigin c /\ rh_expiresAtMs r = hc_expiresAtMs c;
  re_record : parsePersistedWalletSessionAuthorizationV2 (sr_record s) = Ok (iw_session (rh_authorization r));
}.

Lemma resolve_spec parseUrl readLost sessionLost scope tenant tokenHash requestOrigin nowMs db r db' :
  readHostedWalletSessionOperationCredentialV2 parseUrl readLost sessionLost scope tenant tokenHash requestOrigin nowMs db =
    (Ok (Some r), db') ->
  db' = db /\ exists c s, resolution scope tenant tokenHash requestOrigin nowMs db r c s /\
    exists j, read_session scope (tenantId (iw_session (rh_authorization r))) db nowMs (rh_authorization r) j.
Proof.
  unfold readHostedWalletSessionOperationCredentialV2, read_db. unfold bind at 1. destruct readLost; [done|].
  unfold gets, credential_read. destruct (List.find _ (credentials db)) as [c|] eqn:Ec; [|done].
  apply find_elem in Ec as [Hc Hpc]. cbn [fmap option_fmap option_map cr_credential cr_session cr_quota].
  unfold bind, lift, ret.
  destruct (parseSessionOrigin _ (JString (hc_appOrigin c))) as [app|] eqn:Ha; [|done]. apply session_origin_ok in Ha as ->.
  destruct (parseSessionOrigin _ (JString (hc_walletOrigin c))) as [wallet|] eqn:Hw; [|done]. apply session_origin_ok in Hw as ->.
  destruct (negb (same _ _)) eqn:Ho; [done|].
  destruct (parent_unusable _ _ _ _ _ _ _ _ _) as [[|]|] eqn:Hu; [done| |done].
  apply parent_usable in Hu as [Hb (s & q & Hs & _ & Hopen & _ & _ & _ & Hexp & _)]. rewrite Hs.
  apply Forall_cons_1 in Hb as [(v & ->%integerColumn_inv & [= Hv])%result_bind_ok _].
  destruct (parsePersistedWalletSessionAuthorizationV2 (sr_record s)) as [expected|] eqn:Hrec; [|done].
  unfold try_catch. destruct (readWalletSessionAuthorizationV2ByAuthorizationId _ _ _ _ db) as [[[a|]|] db1] eqn:Hread; [|done..].
  apply read_session_spec in Hread as (-> & Hm & j & _ & Hj).
  destruct (parseHostedWalletSessionCredentialId _) as [id|] eqn:Hid; [|done]. apply credential_id_ok in Hid as ->.
  destruct (integerColumn (JInt (hc_expiresAtMs c)) _) as [z|] eqn:Hz; [|done]. apply integerColumn_inv in Hz as ->.
  intros [= <- <-]. split; [done|]. exists c, s. apply parent_session in Hs as [Hs1 Hs2].
  assert (iw_session a = expected) as Ea.
  { unfold read_matches in Hm. destruct (walletSessionAuthorizationV2RecordsEqual _ _) eqn:E; [|done]. by apply sessions_equal_spec. }
  conditions. split; [|exists j; simpl; rewrite Ea; exact Hj].
  split; simpl; split_and?; try done; [by apply bool_decide_eq_true|lia|by rewrite Ea].
Qed.

(** C18. A credential that works is of an open session.  In every database that is reached, a
    request whose credential resolves has a credential that was not retired, handed out for
    exactly the code that was issued for the request's wallet origin, before its end, of a
    session that is open and lasts as long; the session that is answered is the record of
    that session, read from a row of it that is open and not over, with its authority and
    method in force and a use left on its quota.  Nothing is written. *)
Theorem hosted_credential_resolves parseUrl readLost sessionLost scope tenant tokenHash requestOrigin nowMs db r db' :
  hosted_reachable db ->
  readHostedWalletSessionOperationCredentialV2 parseUrl readLost sessionLost scope tenant tokenHash requestOrigin nowMs db =
    (Ok (Some r), db') ->
  db' = db /\ exists c s x j,
    resolution scope tenant tokenHash requestOrigin nowMs db r c s /\
    x ∈ exchanges db /\ names x c /\ he_walletOrigin x = requestOrigin /\ rh_expiresAtMs r = he_expiresAtMs x /\
    read_session scope (tenantId (iw_session (rh_authorization r))) db nowMs (rh_authorization r) j.
Proof.
  intros [_ Hi]%hosted_reachable_inv (-> & c & s & Hr & j & Hj)%resolve_spec. split; [done|].
  destruct (re_credential _ _ _ _ _ _ _ _ _ Hr) as [Hc _]. destruct (hv_named _ Hi c Hc) as (x & Hx & Hn & Hco).
  destruct Hco as (_ & Hw & _ & He), (re_answer _ _ _ _ _ _ _ _ _ Hr) as (_ & _ & _ & Hz).
  exists c, s, x, j. split_and!; try done; [|congruence]. rewrite Hw. exact (re_origin _ _ _ _ _ _ _ _ _ Hr).
Qed.

(** ** An example *)

(** A code for the session of [example_issued], and its redemption. *)
Definition example_code : IssuedHostedExchange :=
  mkIssuedExchange "org" "code" "auth" "session" "quota" "principal" "wallet" "authority" "method" "code-hash" "nonce-digest"
    "https://app.example" "https://wallet.example" 1500 50000.

Definition example_coded : AuthDb :=
  (putIssuedHostedWalletSeamsSessionExchange NoFault example_scope example_code example_issued).2.

Definition example_redeem (credential : string) : RedeemInput :=
  mkRedeemInput "code-hash" "nonce-digest" "https://app.example" "https://wallet.example" "token-hash" credential 3000.

Definition example_calm : RedeemEnv := mkRedeemEnv false NoFault false.

Definition example_read : ExchangeRead :=
  mkExchangeRead (exchange_row example_scope example_code) (session_of_parent (exchange_parent example_scope example_code) example_coded)
    (quota_of_parent (exchange_parent example_scope example_code) example_coded).

Definition example_redeemed : AuthDb :=
  (finish_redemption example_calm example_scope example_read (example_redeem "credential") (Ok tt) example_coded).2.

(** A parser of the two origins of the example. *)
Definition example_url (text : string) : option Url :=
  if bool_decide (text ∈ ["https://app.example"; "https://wallet.example"]) then Some (mkUrl "https:" text "/" "" "") else None.

Lemma example_issued_hosted : hosted_reachable example_issued.
Proof.
  exists example_empty. split_and!; try done. eapply rtc_l; [|eapply rtc_once].
  - apply (hosted_around _ example_start); [|done..]. split; try done. split_and!.
    + by apply NoDup_singleton.
    + by repeat constructor.
    + intros g Hg. by apply elem_of_nil in Hg.
  - eapply (hosted_issue _ example_scope example_persisted); [exact example_issuable|]. vm_compute. reflexivity.
Qed.

Lemma hosted_reach db db' : hosted_reachable db -> hosted_step db db' -> hosted_reachable db'.
Proof. intros (db0 & ? & ? & ? & H) Hs. exists db0. split_and!; try done. by eapply rtc_r. Qed.

Lemma example_issued_tables : exchanges example_issued = [].
Proof. vm_compute. reflexivity. Qed.

Lemma example_coded_hosted : hosted_reachable example_coded.
Proof.
  apply (hosted_reach example_issued); [exact example_issued_hosted|].
  apply (hosted_put _ example_scope example_code _ 1); [|vm_compute; reflexivity].
  split; [by repeat constructor|unfold MAX_SAFE_INTEGER; simpl; lia|]. intros e He. rewrite example_issued_tables in He.
  by apply elem_of_nil in He.
Qed.

Lemma example_redeemed_answer :
  finish_redemption example_calm example_scope example_read (example_redeem "credential") (Ok tt) example_coded =
    (Ok (Redeemed "org" "auth" "session" "credential" 50000), example_redeemed).
Proof. vm_compute. reflexivity. Qed.

Lemma example_redeemed_hosted : hosted_reachable example_redeemed.
Proof.
  apply (hosted_reach example_coded); [exact example_coded_hosted|].
  eapply (hosted_redeem _ example_scope (exchange_parent example_scope example_code) (example_redeem "credential")).
  vm_compute. reflexivity.
Qed.

(** The code of the example, once more. *)
Lemma hosted_code_single_use_witness :
  redeemHostedWalletSeamsSessionExchange example_calm example_scope (example_redeem "another") (Ok tt) example_redeemed =
    (Ok (Rejected already_consumed), example_redeemed) /\
  (finish_redemption example_calm example_scope example_read (example_redeem "another") (Ok tt) example_redeemed).2 = example_redeemed.
Proof.
  destruct (hosted_code_single_use example_calm example_scope example_read (example_redeem "credential") (Ok tt) example_coded
    _ _ _ _ _ example_redeemed example_redeemed (example_redeem "another") example_coded_hosted example_redeemed_answer
    (rtc_refl _ _) eq_refl) as [Hwhole Hlate].
  split; [by apply Hwhole|].
  destruct (finish_redemption example_calm example_scope example_read (example_redeem "another") (Ok tt) example_redeemed)
    as [res db3] eqn:E. exact (proj1 (Hlate _ _ _ _ _ E)).
Defined.

Lemma redemption_effect_witness : exists x,
  redemption example_scope "org" (example_redeem "credential") x example_coded example_redeemed /\ he_codeHash x = "code-hash".
Proof.
  assert (readHostedWalletExchangeV2 example_scope "code-hash" example_coded = Some example_read) as Hread by (vm_compute; reflexivity).
  destruct (redemption_effect example_calm example_scope example_read (example_redeem "credential") (Ok tt) example_coded
    example_coded _ _ example_coded_hosted Hread (rtc_refl _ _) eq_refl example_redeemed_answer)
    as [(x & Hx & Heq & _)|[_ [[rejection Hr]|(e & He & _)]]]; [|done|done].
  exists x. split; [exact Hx|]. rewrite Heq; [reflexivity|]. vm_compute. constructor.
Defined.

Lemma hosted_ends_with_session_witness : length (credentials example_redeemed) = 1%nat /\
  forall c, c ∈ credentials example_redeemed -> live c = true -> open_parent (hc_parent c) example_redeemed.
Proof.
  split; [vm_compute; reflexivity|]. exact (proj1 (proj2 (hosted_ends_with_session example_redeemed example_redeemed_hosted))).
Defined.

Lemma hosted_credential_resolves_witness : exists r x,
  readHostedWalletSessionOperationCredentialV2 example_url false false example_scope "org" "token-hash" "https://wallet.example"
    4000 example_redeemed = (Ok (Some r), example_redeemed) /\
  x ∈ exchanges example_redeemed /\ rh_expiresAtMs r = he_expiresAtMs x.
Proof.
  assert (exists r, readHostedWalletSessionOperationCredentialV2 example_url false false example_scope "org" "token-hash"
    "https://wallet.example" 4000 example_redeemed = (Ok (Some r), example_redeemed)) as [r Hr].
  { eexists. vm_compute. reflexivity. }
  exists r. destruct (hosted_credential_resolves example_url false false example_scope "org" "token-hash" "https://wallet.example"
    4000 example_redeemed r example_redeemed example_redeemed_hosted Hr) as (_ & c & s & x & j & _ & Hx & _ & _ & Hz & _).
  exists x. split; [exact Hr|]. split; [exact Hx|exact Hz].
Defined.
