(* ===== verification/SignerRows.v ===== *)
(** * Rows of the account signer tables

    [indexedDB/seamsWalletDB/accountSignerRows.ts] and [indexedDB/normalization.ts]: the
    records of chain accounts and account signers, the rows they are stored as, and the
    parsers of stored rows.  A row mirrors fields of its record for the indexes, and a
    row whose mirrors do not agree with its record is not accepted. *)

From S2P Require Import Prelude JsValues ChainTarget.
Local Open Scope Z_scope.
Local Open Scope js_scope.

(** *** [normalization.ts] *)

Definition normalizeIndexedDbChainIdKey (chainIdKey : JsVal) : string :=
  normalizeLowercaseString chainIdKey.
Definition normalizeIndexedDbAccountAddress (address : JsVal) : string :=
  normalizeLowercaseString address.
Definition normalizeIndexedDbAccountModel (model : JsVal) : string := normalizeLowercaseString model.

Definition nul : string := String (ascii_of_nat 0) EmptyString.

Definition signerChainTargetKey (chainIdKey accountAddress : string) : string :=
  join nul [chainIdKey; accountAddress].

(** [value || '']. *)
Definition or_empty (value : JsVal) : JsVal := if truthy value then value else JString EmptyString.

(** *** Records *)

Inductive AccountSignerStatus : Type := SignerActive | SignerPending | SignerRevoked.

#[global] Instance AccountSignerStatus_eq_dec : EqDecision AccountSignerStatus.
Proof. solve_decision. Defined.

Definition signer_status_string (status : AccountSignerStatus) : string :=
  match status with
  | SignerActive => "active" | SignerPending => "pending" | SignerRevoked => "revoked"
  end.

Definition signer_status_of (value : JsVal) : option AccountSignerStatus :=
  List.find (fun status => strict_eq value (JString (signer_status_string status)))
    [SignerActive; SignerPending; SignerRevoked].

Record ChainAccountRecord : Type := mkChainAccount {
  ca_profileId : string;
  ca_chainIdKey : string;
  ca_accountAddress : string;
  ca_accountModel : string;
  ca_isPrimary : option bool;
  ca_createdAt : Z;
  ca_updatedAt : Z;
}.

Record AccountSignerRecord : Type := mkSigner {
  sg_profileId : string;
  sg_chainIdKey : string;
  sg_accountAddress : string;
  sg_signerId : string;
  sg_signerSlot : Z;
  sg_signerType : string;
  sg_signerKind : string;
  sg_signerAuthMethod : string;
  sg_signerSource : string;
  sg_status : AccountSignerStatus;
  sg_addedAt : Z;
  sg_updatedAt : Z;
  sg_removedAt : option Z;
  sg_revocationReason : option string;
  sg_metadata : option (list (string * JsVal));
}.

Definition KIND_ED25519 : string := "threshold-ed25519".
Definition KIND_ECDSA : string := "threshold-ecdsa".

(** The record with its keys replaced: [{ ...record, profileId, ... }]. *)
Definition signer_with_keys (profileId chainIdKey accountAddress signerId : string)
    (r : AccountSignerRecord) : AccountSignerRecord :=
  mkSigner profileId chainIdKey accountAddress signerId (sg_signerSlot r) (sg_signerType r)
    (sg_signerKind r) (sg_signerAuthMethod r) (sg_signerSource r) (sg_status r) (sg_addedAt r)
    (sg_updatedAt r) (sg_removedAt r) (sg_revocationReason r) (sg_metadata r).

(** [record.metadata?.key]. *)
Definition signer_metadata (key : string) (r : AccountSignerRecord) : JsVal :=
  jget key (JObject (default [] (sg_metadata r))).

(** A record as the object that is stored. *)
Definition signer_object (r : AccountSignerRecord) : JsVal :=
  JObject ([("profileId", JString (sg_profileId r)); ("chainIdKey", JString (sg_chainIdKey r));
            ("accountAddress", JString (sg_accountAddress r)); ("signerId", JString (sg_signerId r));
            ("signerSlot", JInt (sg_signerSlot r)); ("signerType", JString (sg_signerType r));
            ("signerKind", JString (sg_signerKind r));
            ("signerAuthMethod", JString (sg_signerAuthMethod r));
            ("signerSource", JString (sg_signerSource r));
            ("status", JString (signer_status_string (sg_status r)));
            ("addedAt", JInt (sg_addedAt r)); ("updatedAt", JInt (sg_updatedAt r))]
           ++ opt_field "removedAt" (joptInt (sg_removedAt r))
           ++ opt_field "revocationReason" (jopt (sg_revocationReason r))
           ++ match sg_metadata r with Some fields => [("metadata", JObject fields)] | None => [] end).

Definition chain_account_object (r : ChainAccountRecord) : JsVal :=
  JObject ([("profileId", JString (ca_profileId r)); ("chainIdKey", JString (ca_chainIdKey r));
            ("accountAddress", JString (ca_accountAddress r));
            ("accountModel", JString (ca_accountModel r))]
           ++ match ca_isPrimary r with Some b => [("isPrimary", JBool b)] | None => [] end
           ++ [("createdAt", JInt (ca_createdAt r)); ("updatedAt", JInt (ca_updatedAt r))]).

(** *** Keys *)

Definition chainAccountProjectionId (chainIdKey accountAddress : string) : string :=
  chainIdKey +:+ nul +:+ accountAddress.

Definition walletSignerId (chainIdKey accountAddress signerId : string) : string :=
  join nul [chainIdKey; accountAddress; signerId].

Definition CHAIN_ACCOUNT_PROJECTION_SIGNER_SLOT : Z := 0.

Definition normalizeEcdsaChainTargetKey (value : JsVal) : string :=
  if negb (isPlainObject value) then EmptyString
  else
    let kind := normalizeTrimmedString (or_empty (jget "kind" value)) in
    match safe_integer_value (js_Number (jget "chainId" value)) with
    | None => EmptyString
    | Some chainId =>
        if chainId <=? 0 then EmptyString
        else
          let networkSlug := normalizeTrimmedString (or_empty (jget "networkSlug" value)) in
          if bool_decide (kind = "evm") then
            if bool_decide (normalizeTrimmedString (or_empty (jget "namespace" value)) = "eip155")
            then thresholdEcdsaChainTargetKey (EvmEip155ChainTarget chainId networkSlug)
            else EmptyString
          else if bool_decide (kind = "tempo") then
            thresholdEcdsaChainTargetKey (TempoChainTarget chainId networkSlug)
          else EmptyString
    end.

(** *** Signer rows *)

Record WalletSignerScalarMirrors : Type := mkMirrors {
  mr_chainTargetKey : string;
  mr_nearSignerSlot : option Z;
  mr_nearEd25519SigningKeyId : option string;
  mr_keyHandle : option string;
  mr_ecdsaThresholdKeyId : option string;
  mr_thresholdOwnerAddress : option string;
}.

Definition walletSignerScalarMirrors (r : AccountSignerRecord) : Result WalletSignerScalarMirrors :=
  if bool_decide (sg_signerKind r = KIND_ECDSA) then
    let keyHandle := normalizeTrimmedString (or_empty (signer_metadata "keyHandle" r)) in
    let ecdsaThresholdKeyId :=
      normalizeTrimmedString (or_empty (signer_metadata "ecdsaThresholdKeyId" r)) in
    let thresholdOwnerAddress :=
      normalizeIndexedDbAccountAddress (or_empty (signer_metadata "thresholdOwnerAddress" r)) in
    let chainTargetKey := normalizeEcdsaChainTargetKey (signer_metadata "chainTarget" r) in
    if nonempty keyHandle && nonempty ecdsaThresholdKeyId && nonempty thresholdOwnerAddress
       && nonempty chainTargetKey
    then Ok (mkMirrors chainTargetKey None None (Some keyHandle) (Some ecdsaThresholdKeyId)
               (Some thresholdOwnerAddress))
    else Throw (JsError ("[SeamsWalletDB] threshold ECDSA signer requires keyHandle, " +:+
                         "ecdsaThresholdKeyId, thresholdOwnerAddress, and chainTarget"))
  else if negb (is_safe_integer (sg_signerSlot r)) || (sg_signerSlot r <? 1) then
    Throw (JsError "[SeamsWalletDB] Ed25519 signer requires a positive signerSlot")
  else
    let nearEd25519SigningKeyId :=
      normalizeTrimmedString (or_empty (signer_metadata "nearEd25519SigningKeyId" r)) in
    if nonempty nearEd25519SigningKeyId
    then Ok (mkMirrors (signerChainTargetKey (sg_chainIdKey r) (sg_accountAddress r))
               (Some (sg_signerSlot r)) (Some nearEd25519SigningKeyId) None None None)
    else Throw (JsError "[SeamsWalletDB] Ed25519 signer requires nearEd25519SigningKeyId").

(** A mirror that only active rows have. *)
Definition active_field (isActive : bool) (key : string) (value : JsVal) : list (string * JsVal) :=
  if isActive then opt_field key value else [].

Definition isActiveSigner (r : AccountSignerRecord) : bool := bool_decide (sg_status r = SignerActive).

(** The row of a stored record and its mirrors. *)
Definition signer_row (signerKind : string) (stored : AccountSignerRecord)
    (mirrors : WalletSignerScalarMirrors) : JsVal :=
  let isActive := isActiveSigner stored in
  JObject
    ([("wallet_signer_id", JString (walletSignerId (sg_chainIdKey stored) (sg_accountAddress stored)
                                      (sg_signerId stored)));
      ("wallet_id", JString (sg_profileId stored)); ("kind", JString signerKind);
      ("chain_target_key", JString (mr_chainTargetKey mirrors))]
     ++ active_field isActive "near_signer_slot" (joptInt (mr_nearSignerSlot mirrors))
     ++ active_field isActive "near_ed25519_signing_key_id" (jopt (mr_nearEd25519SigningKeyId mirrors))
     ++ active_field isActive "key_handle" (jopt (mr_keyHandle mirrors))
     ++ active_field isActive "ecdsa_threshold_key_id" (jopt (mr_ecdsaThresholdKeyId mirrors))
     ++ active_field isActive "threshold_owner_address" (jopt (mr_thresholdOwnerAddress mirrors))
     ++ [("status", JString (signer_status_string (sg_status stored)));
         ("updated_at", JInt (sg_updatedAt stored)); ("record", signer_object stored)]).

Definition accountSignerRow (record : AccountSignerRecord) : Result JsVal :=
  let profileId := normalizeTrimmedString (or_empty (JString (sg_profileId record))) in
  let chainIdKey := normalizeIndexedDbChainIdKey (JString (sg_chainIdKey record)) in
  let accountAddress := normalizeIndexedDbAccountAddress (JString (sg_accountAddress record)) in
  let signerId := normalizeTrimmedString (or_empty (JString (sg_signerId record))) in
  let signerKind := normalizeTrimmedString (or_empty (JString (sg_signerKind record))) in
  if negb (nonempty profileId && nonempty chainIdKey && nonempty accountAddress
           && nonempty signerId && nonempty signerKind)
  then Throw (JsError ("[SeamsWalletDB] signer requires profileId, chainIdKey, accountAddress, " +:+
                       "signerId, and signerKind"))
  else
    let stored := signer_with_keys profileId chainIdKey accountAddress signerId record in
    let* mirrors := walletSignerScalarMirrors stored in
    Ok (signer_row signerKind stored mirrors).

(** [Number.isSafeInteger(value) && value >= least]. *)
Definition stored_integer (least : Z) (value : JsVal) : option Z :=
  match value with
  | JNumber n => z ← safe_integer_value n; if least <=? z then Some z else None
  | _ => None
  end.

(** An optional field: absent, or accepted by its parser. *)
Definition stored_optional {A} (parse : JsVal -> option A) (value : JsVal) : option (option A) :=
  match value with JUndefined => Some None | _ => Some <$> parse value end.

Definition one_of (allowed : list string) (value : JsVal) : option string :=
  List.find (fun s => strict_eq value (JString s)) allowed.

Definition stored_text (value : JsVal) : option string :=
  match value with JString s => Some s | _ => None end.

Definition stored_fields (value : JsVal) : option (list (string * JsVal)) :=
  match value with JObject fields => Some fields | _ => None end.

Definition parseStoredAccountSignerRecord (value : JsVal) : option AccountSignerRecord :=
  if negb (isPlainObject value) then None else
  profileId ← parseStoredNonEmptyString (jget "profileId" value);
  chainIdKey ← some_nonempty (normalizeIndexedDbChainIdKey (jget "chainIdKey" value));
  accountAddress ← some_nonempty (normalizeIndexedDbAccountAddress (jget "accountAddress" value));
  signerId ← parseStoredNonEmptyString (jget "signerId" value);
  signerSlot ← stored_integer 1 (jget "signerSlot" value);
  signerType ← parseStoredNonEmptyString (jget "signerType" value);
  signerKind ← one_of [KIND_ED25519; KIND_ECDSA] (jget "signerKind" value);
  signerAuthMethod ← one_of ["passkey"; "email_otp"] (jget "signerAuthMethod" value);
  signerSource ← one_of ["passkey_registration"; "email_otp_registration"; "self_hosted_import"]
                   (jget "signerSource" value);
  status ← signer_status_of (jget "status" value);
  addedAt ← stored_integer 0 (jget "addedAt" value);
  updatedAt ← stored_integer 0 (jget "updatedAt" value);
  metadata ← stored_optional stored_fields (jget "metadata" value);
  removedAt ← stored_optional (stored_integer 0) (jget "removedAt" value);
  revocationReason ← stored_optional stored_text (jget "revocationReason" value);
  Some (mkSigner profileId chainIdKey accountAddress signerId signerSlot signerType signerKind
          signerAuthMethod signerSource status addedAt updatedAt removedAt revocationReason metadata).

(** A mirror agrees with the record: it is there on an active row, and may be missing
    from another one. *)
Definition mirror_agrees (required : bool) (stored mirror : JsVal) : bool :=
  if required then strict_eq stored mirror else is_undefined stored || strict_eq stored mirror.

Definition parseAccountSignerRow (value : JsVal) : option AccountSignerRecord :=
  if negb (isPlainObject value) then None else
  record ← parseStoredAccountSignerRecord (jget "record" value);
  if negb (strict_eq (jget "wallet_signer_id" value)
             (JString (walletSignerId (sg_chainIdKey record) (sg_accountAddress record)
                         (sg_signerId record))))
     || negb (strict_eq (jget "wallet_id" value) (JString (sg_profileId record)))
     || negb (strict_eq (jget "kind" value) (JString (sg_signerKind record)))
  then None else
  mirrors ← match walletSignerScalarMirrors record with Ok m => Some m | Throw _ => None end;
  let requiresActiveMirrors := isActiveSigner record in
  let agrees key mirror := mirror_agrees requiresActiveMirrors (jget key value) mirror in
  if (if bool_decide (sg_signerKind record = KIND_ED25519)
      then mirror_agrees false (jget "chain_target_key" value) (JString (mr_chainTargetKey mirrors))
           && agrees "near_signer_slot" (joptInt (mr_nearSignerSlot mirrors))
           && agrees "near_ed25519_signing_key_id" (jopt (mr_nearEd25519SigningKeyId mirrors))
      else agrees "chain_target_key" (JString (mr_chainTargetKey mirrors)))
     && agrees "key_handle" (jopt (mr_keyHandle mirrors))
     && agrees "ecdsa_threshold_key_id" (jopt (mr_ecdsaThresholdKeyId mirrors))
     && agrees "threshold_owner_address" (jopt (mr_thresholdOwnerAddress mirrors))
     && strict_eq (jget "status" value) (JString (signer_status_string (sg_status record)))
     && strict_eq (jget "updated_at" value) (JInt (sg_updatedAt record))
  then Some record else None.

(** *** Chain account rows *)

Record UpsertChainAccountInput : Type := mkChainAccountInput {
  ci_profileId : string;
  ci_chainIdKey : string;
  ci_accountAddress : string;
  ci_accountModel : string;
  ci_isPrimary : option bool;
}.

(** The record of the row, from which the row is built. *)
Definition chainAccountProjection (input : UpsertChainAccountInput)
    (existing : option ChainAccountRecord) (now : Z) : Result ChainAccountRecord :=
  let profileId := normalizeTrimmedString (or_empty (JString (ci_profileId input))) in
  let chainIdKey := normalizeIndexedDbChainIdKey (JString (ci_chainIdKey input)) in
  let accountAddress := normalizeIndexedDbAccountAddress (JString (ci_accountAddress input)) in
  let accountModel := normalizeIndexedDbAccountModel (JString (ci_accountModel input)) in
  if negb (nonempty profileId && nonempty chainIdKey && nonempty accountAddress) then
    Throw (JsError "[SeamsWalletDB] profileId, chainIdKey, and accountAddress are required")
  else if negb (nonempty accountModel) then
    Throw (JsError "[SeamsWalletDB] accountModel is required")
  else
    Ok (mkChainAccount profileId chainIdKey accountAddress accountModel
          (Some (default (default false (existing ≫= ca_isPrimary)) (ci_isPrimary input)))
          (default now (ca_createdAt <$> existing)) now).

Definition chain_account_row (r : ChainAccountRecord) : JsVal :=
  JObject [("wallet_id", JString (ca_profileId r));
           ("near_account_id", JString (chainAccountProjectionId (ca_chainIdKey r) (ca_accountAddress r)));
           ("signer_slot", JInt CHAIN_ACCOUNT_PROJECTION_SIGNER_SLOT);
           ("profile_id", JString (ca_profileId r)); ("chain_id_key", JString (ca_chainIdKey r));
           ("account_address", JString (ca_accountAddress r));
           ("account_model", JString (ca_accountModel r));
           ("is_primary", JBool (default false (ca_isPrimary r)));
           ("updated_at", JInt (ca_updatedAt r)); ("record", chain_account_object r)].

Definition chainAccountProjectionRow (input : UpsertChainAccountInput)
    (existing : option ChainAccountRecord) (now : Z) : Result JsVal :=
  let* record := chainAccountProjection input existing now in Ok (chain_account_row record).

Definition parseStoredChainAccountRecord (value : JsVal) : option ChainAccountRecord :=
  if negb (isPlainObject value) then None else
  profileId ← parseStoredNonEmptyString (jget "profileId" value);
  chainIdKey ← some_nonempty (normalizeIndexedDbChainIdKey (jget "chainIdKey" value));
  accountAddress ← some_nonempty (normalizeIndexedDbAccountAddress (jget "accountAddress" value));
  accountModel ← some_nonempty (normalizeIndexedDbAccountModel (jget "accountModel" value));
  createdAt ← stored_integer 0 (jget "createdAt" value);
  updatedAt ← stored_integer 0 (jget "updatedAt" value);
  isPrimary ← stored_optional (fun v => match v with JBool b => Some b | _ => None end)
                (jget "isPrimary" value);
  Some (mkChainAccount profileId chainIdKey accountAddress accountModel isPrimary createdAt updatedAt).

Definition parseChainAccountProjectionRow (value : JsVal) : option ChainAccountRecord :=
  if negb (isPlainObject value) then None else
  record ← parseStoredChainAccountRecord (jget "record" value);
  if strict_eq (jget "wallet_id" value) (JString (ca_profileId record))
     && strict_eq (jget "profile_id" value) (JString (ca_profileId record))
     && strict_eq (jget "chain_id_key" value) (JString (ca_chainIdKey record))
     && strict_eq (jget "account_address" value) (JString (ca_accountAddress record))
     && strict_eq (jget "account_model" value) (JString (ca_accountModel record))
     && strict_eq (jget "is_primary" value) (JBool (default false (ca_isPrimary record)))
     && strict_eq (jget "updated_at" value) (JInt (ca_updatedAt record))
     && strict_eq (jget "near_account_id" value)
          (JString (chainAccountProjectionId (ca_chainIdKey record) (ca_accountAddress record)))
  then Some record else None.

(** ** Reading back what is written *)

(** *** Normalised keys *)

Lemma lower_char_space a : is_js_space (lower_char a) = is_js_space a.
Proof. by destruct a as [[] [] [] [] [] [] [] []]. Qed.

Lemma to_lower_trim_start s : trim_start (to_lower s) = to_lower (trim_start s).
Proof. induction s as [|a s IH]; simpl; [done|]. rewrite lower_char_space. by destruct (is_js_space a). Qed.

Lemma to_lower_trim_end s : trim_end (to_lower s) = to_lower (trim_end s).
Proof.
  induction s as [|a s IH]; simpl; [done|]. rewrite IH, lower_char_space.
  by destruct (trim_end s); simpl; [destruct (is_js_space a)|].
Qed.

Lemma to_lower_trim s : trim (to_lower s) = to_lower (trim s).
Proof. unfold trim. by rewrite to_lower_trim_start, to_lower_trim_end. Qed.

Lemma normalizeLowercaseString_idem v :
  normalizeLowercaseString (JString (normalizeLowercaseString v)) = normalizeLowercaseString v.
Proof.
  unfold normalizeLowercaseString, normalizeTrimmedString. simpl.
  by rewrite to_lower_trim, trim_idem, to_lower_idem.
Qed.

Lemma trim_or_empty s : normalizeTrimmedString (or_empty (JString s)) = trim s.
Proof. by destruct s. Qed.

(** *** Fields that are read back *)

Definition stored_text_ok (s : string) : bool := nonempty s && bool_decide (trim s = s).
Definition stored_key_ok (s : string) : bool :=
  nonempty s && bool_decide (normalizeLowercaseString (JString s) = s).
Definition stored_integer_ok (least z : Z) : bool := is_safe_integer z && (least <=? z).

Lemma parse_stored_text v s :
  parseStoredNonEmptyString v = Some s <-> v = JString s /\ stored_text_ok s = true.
Proof.
  unfold stored_text_ok. split.
  - destruct v; simpl; try done. intros H. case_match eqn:E; [|done]. by simplify_eq.
  - intros [-> H]. simpl. by rewrite H.
Qed.

Lemma stored_integer_iff least v z :
  stored_integer least v = Some z <-> v = JInt z /\ stored_integer_ok least z = true.
Proof.
  unfold stored_integer, stored_integer_ok. split.
  - destruct v as [| | |[i| | |]| | | |]; simpl; try done. case_match; simpl; [|done].
    case_match; intros; simplify_eq; by rewrite H.
  - intros [-> [Hs Hl]%andb_prop]. simpl. rewrite Hs. simpl. by rewrite Hl.
Qed.

Lemma some_nonempty_iff s t : some_nonempty s = Some t <-> s = t /\ nonempty t = true.
Proof. unfold some_nonempty. split; [case_match; naive_solver|]. intros [-> ->]. done. Qed.

Lemma strict_eq_text v s : strict_eq v (JString s) = true <-> v = JString s.
Proof.
  split; [|intros ->; apply strict_eq_string].
  destruct v as [| | |[]| | | |]; simpl; try done. by intros ->%bool_decide_eq_true.
Qed.

Lemma one_of_iff allowed v s : one_of allowed v = Some s <-> v = JString s /\ s ∈ allowed.
Proof.
  unfold one_of. split.
  - intros [Hin Hv]%find_some. by rewrite strict_eq_text in Hv; rewrite list_elem_of_In.
  - intros [-> Hin]. induction allowed as [|x l IH]; simpl; [set_solver|].
    case_bool_decide; [by subst|]. apply IH. set_solver.
Qed.

Lemma signer_status_iff v status :
  signer_status_of v = Some status <-> v = JString (signer_status_string status).
Proof.
  unfold signer_status_of. split.
  - intros [_ Hv]%find_some. by apply strict_eq_text.
  - intros ->. by destruct status.
Qed.

Lemma stored_optional_iff {A} (parse : JsVal -> option A) v o :
  parse JUndefined = None ->
  stored_optional parse v = Some o <->
  (v = JUndefined /\ o = None) \/ (exists a, parse v = Some a /\ o = Some a).
Proof.
  intros Hu. unfold stored_optional. split.
  - destruct v; intros H; simplify_eq; [by left|right..]; apply fmap_Some in H; naive_solver.
  - intros [[-> ->]|(a & Ha & ->)]; [done|]. destruct v; [by rewrite Hu in Ha|..]; by rewrite Ha.
Qed.

(** *** Signer records *)

Definition signer_kinds : list string := [KIND_ED25519; KIND_ECDSA].
Definition signer_auth_methods : list string := ["passkey"; "email_otp"].
Definition signer_sources : list string :=
  ["passkey_registration"; "email_otp_registration"; "self_hosted_import"].

(** The records the parser gives. *)
Definition signer_record_ok (r : AccountSignerRecord) : bool :=
  stored_text_ok (sg_profileId r) && stored_key_ok (sg_chainIdKey r)
  && stored_key_ok (sg_accountAddress r) && stored_text_ok (sg_signerId r)
  && stored_integer_ok 1 (sg_signerSlot r) && stored_text_ok (sg_signerType r)
  && bool_decide (sg_signerKind r ∈ signer_kinds)
  && bool_decide (sg_signerAuthMethod r ∈ signer_auth_methods)
  && bool_decide (sg_signerSource r ∈ signer_sources)
  && stored_integer_ok 0 (sg_addedAt r) && stored_integer_ok 0 (sg_updatedAt r)
  && match sg_removedAt r with Some z => stored_integer_ok 0 z | None => true end.

(** The fields of an object that make it the record [r]. *)
Record signer_fields (v : JsVal) (r : AccountSignerRecord) : Prop := mkSignerFields {
  sf_object : isPlainObject v = true;
  sf_profileId : jget "profileId" v = JString (sg_profileId r);
  sf_chainIdKey : normalizeIndexedDbChainIdKey (jget "chainIdKey" v) = sg_chainIdKey r;
  sf_accountAddress :
    normalizeIndexedDbAccountAddress (jget "accountAddress" v) = sg_accountAddress r;
  sf_signerId : jget "signerId" v = JString (sg_signerId r);
  sf_signerSlot : jget "signerSlot" v = JInt (sg_signerSlot r);
  sf_signerType : jget "signerType" v = JString (sg_signerType r);
  sf_signerKind : jget "signerKind" v = JString (sg_signerKind r);
  sf_signerAuthMethod : jget "signerAuthMethod" v = JString (sg_signerAuthMethod r);
  sf_signerSource : jget "signerSource" v = JString (sg_signerSource r);
  sf_status : jget "status" v = JString (signer_status_string (sg_status r));
  sf_addedAt : jget "addedAt" v = JInt (sg_addedAt r);
  sf_updatedAt : jget "updatedAt" v = JInt (sg_updatedAt r);
  sf_removedAt : jget "removedAt" v = joptInt (sg_removedAt r);
  sf_revocationReason : jget "revocationReason" v = jopt (sg_revocationReason r);
  sf_metadata : jget "metadata" v
                = match sg_metadata r with Some fields => JObject fields | None => JUndefined end;
}.

Lemma stored_optional_integer v o :
  stored_optional (stored_integer 0) v = Some o <->
  v = joptInt o /\ match o with Some z => stored_integer_ok 0 z | None => true end = true.
Proof.
  rewrite stored_optional_iff by done. setoid_rewrite stored_integer_iff. split.
  - intros [[-> ->]|(z & [-> ?] & ->)]; done.
  - intros [-> Hok]. destruct o as [z|]; [right; by exists z | by left].
Qed.

Lemma stored_optional_text v o : stored_optional stored_text v = Some o <-> v = jopt o.
Proof.
  rewrite stored_optional_iff by done. split.
  - intros [[-> ->]|(s & Hs & ->)]; [done|]. by destruct v; simplify_eq/=.
  - intros ->. destruct o as [s|]; [right; by exists s | by left].
Qed.

Lemma stored_optional_fields v o :
  stored_optional stored_fields v = Some o <->
  v = match o with Some fields => JObject fields | None => JUndefined end.
Proof.
  rewrite stored_optional_iff by done. split.
  - intros [[-> ->]|(s & Hs & ->)]; [done|]. by destruct v; simplify_eq/=.
  - intros ->. destruct o as [s|]; [right; by exists s | by left].
Qed.

Lemma stored_key_normal v s :
  normalizeLowercaseString v = s /\ nonempty s = true -> stored_key_ok s = true.
Proof.
  intros [<- Hn]. unfold stored_key_ok. rewrite Hn. simpl.
  apply bool_decide_true, normalizeLowercaseString_idem.
Qed.

Ltac split_andb := repeat match goal with H : _ && _ = true |- _ => apply andb_prop in H as [? ?] end.

(** What the accepted fields of a stored object are. *)
Ltac read_stored :=
  repeat match goal with
  | H : parseStoredNonEmptyString _ = Some _ |- _ => apply parse_stored_text in H
  | H : some_nonempty _ = Some _ |- _ => apply some_nonempty_iff in H
  | H : stored_integer _ _ = Some _ |- _ => apply stored_integer_iff in H
  | H : one_of _ _ = Some _ |- _ => apply one_of_iff in H
  | H : signer_status_of _ = Some _ |- _ => apply signer_status_iff in H
  | H : stored_optional (stored_integer 0) _ = Some _ |- _ => apply stored_optional_integer in H
  | H : stored_optional stored_text _ = Some _ |- _ => apply stored_optional_text in H
  | H : stored_optional stored_fields _ = Some _ |- _ => apply stored_optional_fields in H
  end.

Lemma parse_signer_iff v r :
  parseStoredAccountSignerRecord v = Some r <-> signer_fields v r /\ signer_record_ok r = true.
Proof.
  unfold parseStoredAccountSignerRecord, normalizeIndexedDbChainIdKey, normalizeIndexedDbAccountAddress.
  split.
  - destruct (isPlainObject v) eqn:Ho; cbn [negb]; [|done]. intros H.
    repeat (apply bind_Some in H as (? & ? & H)). simplify_eq.
    read_stored. destruct_and!. simplify_eq/=. split; [by constructor|].
    unfold signer_record_ok; simpl.
    rewrite !bool_decide_true by done.
    repeat (rewrite andb_true_iff; split); try done; by eapply stored_key_normal.
  - intros [[] Hok]. unfold signer_record_ok in Hok. split_andb.
    repeat match goal with H : bool_decide _ = true |- _ => apply bool_decide_eq_true in H end.
    unfold stored_key_ok in *. split_andb. rewrite sf_object0. cbn [negb].
    repeat (apply bind_Some; eexists; split;
            [first [ by apply parse_stored_text | by apply some_nonempty_iff
                   | by apply stored_integer_iff | by apply one_of_iff | by apply signer_status_iff
                   | by apply stored_optional_integer | by apply stored_optional_text
                   | by apply stored_optional_fields ]|]).
    by destruct r.
Qed.

(** *** Signer rows *)

(** The record a row is built from. *)
Definition stored_signer (r : AccountSignerRecord) : AccountSignerRecord :=
  signer_with_keys (trim (sg_profileId r)) (normalizeIndexedDbChainIdKey (JString (sg_chainIdKey r)))
    (normalizeIndexedDbAccountAddress (JString (sg_accountAddress r))) (trim (sg_signerId r)) r.

Lemma stored_signer_fields r : signer_fields (signer_object (stored_signer r)) (stored_signer r).
Proof.
  destruct r as [? ? ? ? ? ? ? ? ? ? ? ? [?|] [?|] [?|]];
    constructor; try reflexivity; apply normalizeLowercaseString_idem.
Qed.

#[global] Instance signer_status_string_inj : Inj (=) (=) signer_status_string.
Proof. by intros [] []. Qed.

Lemma signer_fields_inj v r r' : signer_fields v r -> signer_fields v r' -> r = r'.
Proof.
  intros [] []. destruct r, r'; simpl in *. f_equal; try congruence;
    first [ unfold JInt in *; congruence | apply (inj joptInt); congruence | apply (inj jopt); congruence
          | apply (inj signer_status_string); congruence | idtac ].
  destruct sg_metadata0, sg_metadata1; congruence.
Qed.

Lemma parse_stored_signer r :
  parseStoredAccountSignerRecord (signer_object (stored_signer r)) =
  if signer_record_ok (stored_signer r) then Some (stored_signer r) else None.
Proof.
  pose proof (stored_signer_fields r) as Hf. destruct (signer_record_ok _) eqn:Hok.
  - by apply parse_signer_iff.
  - destruct (parseStoredAccountSignerRecord _) as [r'|] eqn:Hp; [|done]. exfalso.
    apply parse_signer_iff in Hp as [Hf' Hok'].
    rewrite (signer_fields_inj _ _ _ Hf Hf') in Hok. congruence.
Qed.

Lemma accountSignerRow_inv r row :
  accountSignerRow r = Ok row ->
  exists m, walletSignerScalarMirrors (stored_signer r) = Ok m /\
    row = signer_row (trim (sg_signerKind r)) (stored_signer r) m /\
    nonempty (trim (sg_profileId r)) = true.
Proof.
  unfold accountSignerRow. rewrite !trim_or_empty.
  destruct (negb _) eqn:E; [done|]. apply negb_false_iff in E. split_andb.
  change (signer_with_keys _ _ _ _ _) with (stored_signer r).
  destruct (walletSignerScalarMirrors _) as [m|]; simpl; [|done].
  intros [= <-]. by exists m.
Qed.

(** The fields of a row that its parser compares. *)
Definition active_value (r : AccountSignerRecord) (v : JsVal) : JsVal :=
  if isActiveSigner r then v else JUndefined.

Lemma signer_row_fields kind r m :
  let row := signer_row kind r m in
  jget "wallet_signer_id" row
    = JString (walletSignerId (sg_chainIdKey r) (sg_accountAddress r) (sg_signerId r)) /\
  jget "wallet_id" row = JString (sg_profileId r) /\
  jget "kind" row = JString kind /\
  jget "chain_target_key" row = JString (mr_chainTargetKey m) /\
  jget "near_signer_slot" row = active_value r (joptInt (mr_nearSignerSlot m)) /\
  jget "near_ed25519_signing_key_id" row = active_value r (jopt (mr_nearEd25519SigningKeyId m)) /\
  jget "key_handle" row = active_value r (jopt (mr_keyHandle m)) /\
  jget "ecdsa_threshold_key_id" row = active_value r (jopt (mr_ecdsaThresholdKeyId m)) /\
  jget "threshold_owner_address" row = active_value r (jopt (mr_thresholdOwnerAddress m)) /\
  jget "status" row = JString (signer_status_string (sg_status r)) /\
  jget "updated_at" row = JInt (sg_updatedAt r) /\
  jget "record" row = signer_object r.
Proof.
  unfold signer_row, active_value. destruct (isActiveSigner r), m as [? [?|] [?|] [?|] [?|] [?|]];
    repeat split; reflexivity.
Qed.

Lemma strict_eq_JInt z : strict_eq (JInt z) (JInt z) = true.
Proof. apply Z.eqb_refl. Qed.

Lemma mirror_agrees_text b s : mirror_agrees b (JString s) (JString s) = true.
Proof. unfold mirror_agrees. rewrite strict_eq_string. by destruct b. Qed.

Lemma mirror_agrees_active r v :
  strict_eq v v = true -> mirror_agrees (isActiveSigner r) (active_value r v) v = true.
Proof. unfold mirror_agrees, active_value. by destruct (isActiveSigner r). Qed.

Lemma strict_eq_jopt o : strict_eq (jopt o) (jopt o) = true.
Proof. destruct o; [apply strict_eq_string|done]. Qed.

Lemma strict_eq_joptInt o : strict_eq (joptInt o) (joptInt o) = true.
Proof. destruct o; [apply strict_eq_JInt|done]. Qed.

Lemma signer_kind_trim k : k ∈ signer_kinds -> trim k = k.
Proof. intros H. unfold signer_kinds in H. set_unfold. by destruct_or!; subst. Qed.

Lemma signer_record_kind r : signer_record_ok r = true -> sg_signerKind r ∈ signer_kinds.
Proof. unfold signer_record_ok. intros H. split_andb. by eapply bool_decide_eq_true. Qed.

Lemma parse_written_row r row :
  accountSignerRow r = Ok row ->
  parseAccountSignerRow row =
  if signer_record_ok (stored_signer r) then Some (stored_signer r) else None.
Proof.
  intros (m & Hm & -> & _)%accountSignerRow_inv.
  destruct (signer_row_fields (trim (sg_signerKind r)) (stored_signer r) m) as
    (F1 & F2 & F3 & F4 & F5 & F6 & F7 & F8 & F9 & F10 & F11 & F12).
  unfold parseAccountSignerRow. rewrite F1, F2, F3, F4, F5, F6, F7, F8, F9, F10, F11, F12.
  rewrite parse_stored_signer.
  change (isPlainObject (signer_row _ _ _)) with true. cbn [negb].
  destruct (signer_record_ok _) eqn:Hok; [|done]. cbn [mbind option_bind].
  assert (Hk : trim (sg_signerKind r) = sg_signerKind (stored_signer r)).
  { by apply signer_kind_trim, signer_record_kind. }
  rewrite Hk, Hm, !strict_eq_string. cbn [negb orb mbind option_bind].
  rewrite !mirror_agrees_text, !mirror_agrees_active, strict_eq_JInt
    by (apply strict_eq_jopt || apply strict_eq_joptInt).
  by case_bool_decide.
Qed.

(** An ECDSA signer with its key facts. *)
Definition example_signer (signerAuthMethod : string) (status : AccountSignerStatus) : AccountSignerRecord :=
  mkSigner " wallet-1" "evm:eip155:1" "0xAB" "key-1 " 1 "threshold" KIND_ECDSA signerAuthMethod
    "passkey_registration" status 5 7 None None
    (Some [("keyHandle", JString "h"); ("ecdsaThresholdKeyId", JString "t");
           ("thresholdOwnerAddress", JString "0xab");
           ("chainTarget", target_object (EvmEip155ChainTarget 1 "mainnet"))]).

(** The authentication method [voiceid] of the signer types is written and never read back. *)
Lemma voiceid_signer_unreadable :
  exists row, accountSignerRow (example_signer "voiceid" SignerActive) = Ok row /\
    parseAccountSignerRow row = None.
Proof. eexists. split; [vm_compute; reflexivity|]. vm_compute. reflexivity. Qed.

(** What an accepted row says. *)
Lemma parseAccountSignerRow_sound v r :
  parseAccountSignerRow v = Some r ->
  signer_record_ok r = true /\
  jget "wallet_signer_id" v
    = JString (walletSignerId (sg_chainIdKey r) (sg_accountAddress r) (sg_signerId r)) /\
  jget "wallet_id" v = JString (sg_profileId r) /\
  jget "kind" v = JString (sg_signerKind r) /\
  jget "status" v = JString (signer_status_string (sg_status r)).
Proof.
  unfold parseAccountSignerRow. destruct (isPlainObject v); cbn [negb]; [|done].
  intros (x & [_ Hok]%parse_signer_iff & H)%bind_Some.
  destruct (negb _ || _ || _) eqn:Ek; [done|]. rewrite !orb_false_iff, !negb_false_iff in Ek.
  destruct Ek as [[K1 K2] K3]. apply bind_Some in H as (m & _ & H).
  match type of H with (if ?b then _ else _) = _ => destruct b eqn:Es; [|done] end.
  split_andb. simplify_eq. rewrite !strict_eq_text in *. done.
Qed.

Lemma signer_record_keys r :
  signer_record_ok r = true ->
  stored_text_ok (sg_profileId r) = true /\ stored_key_ok (sg_chainIdKey r) = true /\
  stored_key_ok (sg_accountAddress r) = true /\ stored_text_ok (sg_signerId r) = true.
Proof. unfold signer_record_ok. intros H. split_andb. done. Qed.

(** A record that was read is written back with its own keys. *)
Lemma stored_signer_id r : signer_record_ok r = true -> stored_signer r = r.
Proof.
  intros (H1 & H2 & H3 & H4)%signer_record_keys. unfold stored_text_ok, stored_key_ok in *.
  split_andb. rewrite !bool_decide_eq_true in *.
  unfold stored_signer, normalizeIndexedDbChainIdKey, normalizeIndexedDbAccountAddress.
  destruct r. simpl in *. unfold signer_with_keys. simpl. congruence.
Qed.

Lemma accountSignerRow_key r row :
  accountSignerRow r = Ok row ->
  jget "wallet_signer_id" row =
    JString (walletSignerId (normalizeIndexedDbChainIdKey (JString (sg_chainIdKey r)))
               (normalizeIndexedDbAccountAddress (JString (sg_accountAddress r)))
               (trim (sg_signerId r))) /\
  jget "status" row = JString (signer_status_string (sg_status r)).
Proof.
  intros (m & _ & -> & _)%accountSignerRow_inv.
  destruct (signer_row_fields (trim (sg_signerKind r)) (stored_signer r) m) as (-> & _ & _ & _ & _ & _ & _ & _ & _ & -> & _).
  done.
Qed.

Lemma some_result_ok {A B} (r : Result A) (k : A -> option B) b :
  (x ← match r with Ok m => Some m | Throw _ => None end; k x) = Some b ->
  exists m, r = Ok m /\ k m = Some b.
Proof. destruct r; simpl; [eauto|done]. Qed.

(** An accepted record can be written. *)
Lemma accepted_row_writes v r :
  parseAccountSignerRow v = Some r ->
  exists row, accountSignerRow r = Ok row /\ parseAccountSignerRow row = Some r.
Proof.
  intros Hp. pose proof (parseAccountSignerRow_sound _ _ Hp) as (Hok & _).
  assert (exists m, walletSignerScalarMirrors r = Ok m) as [m Hm].
  { unfold parseAccountSignerRow in Hp. destruct (isPlainObject v); cbn [negb] in Hp; [|done].
    apply bind_Some in Hp as (x & _ & Hp). destruct (negb _ || _ || _); [done|].
    apply some_result_ok in Hp as (m & Hm & Hp).
    match type of Hp with (if ?b then _ else _) = _ => destruct b; [|done] end.
    simplify_eq. eauto. }
  pose proof (stored_signer_id _ Hok) as Hid.
  assert (accountSignerRow r = Ok (signer_row (trim (sg_signerKind r)) r m)) as Hr.
  { unfold accountSignerRow. rewrite !trim_or_empty.
    change (signer_with_keys _ _ _ _ _) with (stored_signer r).
    pose proof (signer_record_kind _ Hok) as Hkind. rewrite (signer_kind_trim _ Hkind).
    destruct (signer_record_keys _ Hok) as (H1 & H2 & H3 & H4).
    unfold stored_text_ok, stored_key_ok in *. split_andb. rewrite !bool_decide_eq_true in *.
    unfold normalizeIndexedDbChainIdKey, normalizeIndexedDbAccountAddress.
    repeat match goal with H : trim _ = _ |- _ => rewrite H; clear H
                         | H : normalizeLowercaseString (JString _) = _ |- _ => rewrite H; clear H end.
    repeat match goal with H : nonempty _ = true |- _ => rewrite H; clear H end.
    assert (nonempty (sg_signerKind r) = true) as ->.
    { unfold signer_kinds in Hkind. set_unfold. by destruct Hkind as [->|[->|?]]. }
    simpl. by rewrite Hid, Hm. }
  exists (signer_row (trim (sg_signerKind r)) r m). split; [done|].
  by rewrite (parse_written_row _ _ Hr), Hid, Hok.
Qed.

(** Rows and records agree.  A row written for a signer reads back as that signer with
    its keys normalised, or not at all when the record is not one the parser accepts;
    and any stored value that is accepted gives a record that is written to a row which
    reads back as the same record. *)
Theorem account_signer_row_roundtrip :
  (forall r row, accountSignerRow r = Ok row ->
     parseAccountSignerRow row = if signer_record_ok (stored_signer r) then Some (stored_signer r) else None) /\
  (forall v r, parseAccountSignerRow v = Some r ->
     exists row, accountSignerRow r = Ok row /\ parseAccountSignerRow row = Some r).
Proof. split; [apply parse_written_row|apply accepted_row_writes]. Qed.
