(* ===== verification/ProfileRows.v ===== *)
(** * Wallet profile rows

    The profile part of [indexedDB/seamsWalletDB/repositories.ts]: the profile record,
    the row it is stored as, and the parser of stored rows, with the provisioning
    states of [packages/wallet/src/core/types/sdkSentEvents.ts]. *)

From S2P Require Import Prelude JsValues SignerRows.
Local Open Scope Z_scope.
Local Open Scope js_scope.

Inductive NearProvisioningState : Type :=
| NearPending (updatedAtMs : Z)
| NearProvisioning (updatedAtMs : Z)
| NearReady (updatedAtMs : Z) (nearAccountId : string)
| NearFailedRetryable (updatedAtMs : Z) (error errorCode : string).

Record ConfirmationConfig : Type := mkConfirmation {
  cc_uiMode : string;
  cc_behavior : string;
  cc_autoProceedDelay : option Z;
}.

Record UserPreferences : Type := mkPreferences {
  pf_useRelayer : option bool;
  pf_useNetwork : option string;
  pf_confirmationConfig : ConfirmationConfig;
}.

Record PasskeyCredentialRecord : Type := mkCredential { pc_id : string; pc_rawId : string }.

Record ProfileRecord : Type := mkProfile {
  pr_profileId : string;
  pr_defaultSignerSlot : Z;
  pr_passkeyCredential : option PasskeyCredentialRecord;
  pr_preferences : option UserPreferences;
  pr_nearProvisioning : option NearProvisioningState;
  pr_createdAt : Z;
  pr_updatedAt : Z;
}.

(** *** Objects *)

Definition near_provisioning_object (s : NearProvisioningState) : JsVal :=
  match s with
  | NearPending t => JObject [("status", JString "near_pending"); ("updatedAtMs", JInt t)]
  | NearProvisioning t => JObject [("status", JString "near_provisioning"); ("updatedAtMs", JInt t)]
  | NearReady t nearAccountId =>
      JObject [("status", JString "near_ready"); ("updatedAtMs", JInt t);
               ("nearAccountId", JString nearAccountId)]
  | NearFailedRetryable t error errorCode =>
      JObject [("status", JString "near_failed_retryable"); ("updatedAtMs", JInt t);
               ("error", JString error); ("errorCode", JString errorCode)]
  end.

Definition opt_bool (o : option bool) : JsVal :=
  match o with Some b => JBool b | None => JUndefined end.

Definition preferences_object (p : UserPreferences) : JsVal :=
  let c := pf_confirmationConfig p in
  JObject (opt_field "useRelayer" (opt_bool (pf_useRelayer p))
           ++ opt_field "useNetwork" (jopt (pf_useNetwork p))
           ++ [("confirmationConfig",
                JObject ([("uiMode", JString (cc_uiMode c)); ("behavior", JString (cc_behavior c))]
                         ++ opt_field "autoProceedDelay" (joptInt (cc_autoProceedDelay c))))]).

Definition opt_object {A} (f : A -> JsVal) (o : option A) : JsVal :=
  match o with Some a => f a | None => JUndefined end.

Definition profile_object (r : ProfileRecord) : JsVal :=
  JObject ([("profileId", JString (pr_profileId r)); ("defaultSignerSlot", JInt (pr_defaultSignerSlot r))]
           ++ opt_field "passkeyCredential"
                (opt_object (fun c => JObject [("id", JString (pc_id c)); ("rawId", JString (pc_rawId c))])
                   (pr_passkeyCredential r))
           ++ [("preferences", opt_object preferences_object (pr_preferences r))]
           ++ opt_field "nearProvisioning" (opt_object near_provisioning_object (pr_nearProvisioning r))
           ++ [("createdAt", JInt (pr_createdAt r)); ("updatedAt", JInt (pr_updatedAt r))]).

Definition DEFAULT_WALLET_RP_ID : string := "local".

Definition profileRowFromRecord (record : ProfileRecord) : JsVal :=
  JObject [("wallet_id", JString (pr_profileId record)); ("rp_id", JString DEFAULT_WALLET_RP_ID);
           ("status", JString "active"); ("created_at", JInt (pr_createdAt record));
           ("updated_at", JInt (pr_updatedAt record)); ("record", profile_object record)].

(** *** Writing *)

Record UpsertProfileInput : Type := mkProfileInput {
  pi_profileId : string;
  pi_defaultSignerSlot : option Z;
  pi_passkeyCredential : option PasskeyCredentialRecord;
  pi_preferences : option UserPreferences;
  pi_nearProvisioning : option NearProvisioningState;
}.

Definition is_near_ready (o : option NearProvisioningState) : bool :=
  match o with Some (NearReady _ _) => true | _ => false end.

(** [a ?? b] on optional values. *)
Definition or_else {A} (a b : option A) : option A := match a with Some _ => a | None => b end.

(** The record of [profileRow]. *)
Definition profile_update (input : UpsertProfileInput) (existing : option ProfileRecord) (now : Z)
    : Result ProfileRecord :=
  let profileId := normalizeTrimmedString (or_empty (JString (pi_profileId input))) in
  if negb (nonempty profileId) then Throw (JsError "[SeamsWalletDB] profileId is required")
  else
    let known := existing ≫= pr_passkeyCredential in
    let passkeyCredential :=
      match pi_passkeyCredential input with
      | Some c => if nonempty (pc_rawId c) then Some c else known
      | None => known
      end in
    let provisioned := existing ≫= pr_nearProvisioning in
    let nearProvisioning :=
      if is_near_ready provisioned && negb (is_near_ready (pi_nearProvisioning input))
      then provisioned
      else or_else (pi_nearProvisioning input) provisioned in
    Ok (mkProfile profileId
          (default (default 1 (pr_defaultSignerSlot <$> existing)) (pi_defaultSignerSlot input))
          passkeyCredential (or_else (pi_preferences input) (existing ≫= pr_preferences))
          nearProvisioning (default now (pr_createdAt <$> existing)) now).

Definition profileRow (input : UpsertProfileInput) (existing : option ProfileRecord) (now : Z)
    : Result JsVal :=
  let* record := profile_update input existing now in Ok (profileRowFromRecord record).

(** *** Reading *)

Definition is_blank_text (value : JsVal) : bool :=
  match value with JString s => negb (nonempty (trim s)) | _ => true end.

Definition parseNearProvisioningErrorCode (value : JsVal) : option string :=
  one_of ["near_provisioning_interrupted"; "near_finalize_failed"; "near_capability_persist_failed";
          "near_seal_failed"; "near_provisioning_failed"] value.

Definition nonblank_text (value : JsVal) : option string :=
  if is_blank_text value then None else stored_text value.

Definition parseNearProvisioningState (value : JsVal) : option NearProvisioningState :=
  if negb (isPlainObject value) then None else
  updatedAtMs ← stored_integer 1 (jget "updatedAtMs" value);
  let status_is s := strict_eq (jget "status" value) (JString s) in
  if status_is "near_pending" then Some (NearPending updatedAtMs)
  else if status_is "near_provisioning" then Some (NearProvisioning updatedAtMs)
  else if status_is "near_ready" then
    nearAccountId ← nonblank_text (jget "nearAccountId" value);
    Some (NearReady updatedAtMs nearAccountId)
  else if status_is "near_failed_retryable" then
    error ← nonblank_text (jget "error" value);
    errorCode ← parseNearProvisioningErrorCode (jget "errorCode" value);
    Some (NearFailedRetryable updatedAtMs error errorCode)
  else None.

Definition stored_bool (value : JsVal) : option bool :=
  match value with JBool b => Some b | _ => None end.

(** [None] is a rejected value, [Some None] an absent one. *)
Definition parseStoredProfilePreferences (value : JsVal) : option (option UserPreferences) :=
  match value with
  | JUndefined => Some None
  | _ =>
      if negb (isPlainObject value) then None else
      useRelayer ← stored_optional stored_bool (jget "useRelayer" value);
      useNetwork ← stored_optional (one_of ["testnet"; "mainnet"]) (jget "useNetwork" value);
      let confirmationConfig := jget "confirmationConfig" value in
      if negb (isPlainObject confirmationConfig) then None else
      uiMode ← one_of ["none"; "modal"; "drawer"] (jget "uiMode" confirmationConfig);
      behavior ← one_of ["requireClick"; "skipClick"] (jget "behavior" confirmationConfig);
      autoProceedDelay ← stored_optional (stored_integer 0) (jget "autoProceedDelay" confirmationConfig);
      Some (Some (mkPreferences useRelayer useNetwork
                    (mkConfirmation uiMode behavior autoProceedDelay)))
  end.

Definition parseStoredCredential (value : JsVal) : option PasskeyCredentialRecord :=
  if negb (isPlainObject value) then None else
  id ← parseStoredNonEmptyString (jget "id" value);
  rawId ← parseStoredNonEmptyString (jget "rawId" value);
  Some (mkCredential id rawId).

Definition parseStoredProfileRecord (value : JsVal) : option ProfileRecord :=
  if negb (isPlainObject value) then None else
  profileId ← match parseWalletId (jget "profileId" value) with Ok id => Some id | Throw _ => None end;
  if negb (strict_eq (jget "profileId" value) (JString profileId)) then None else
  defaultSignerSlot ← stored_integer 1 (jget "defaultSignerSlot" value);
  createdAt ← stored_integer 0 (jget "createdAt" value);
  updatedAt ← stored_integer 0 (jget "updatedAt" value);
  passkeyCredential ← stored_optional parseStoredCredential (jget "passkeyCredential" value);
  preferences ← parseStoredProfilePreferences (jget "preferences" value);
  nearProvisioning ← stored_optional parseNearProvisioningState (jget "nearProvisioning" value);
  Some (mkProfile profileId defaultSignerSlot passkeyCredential preferences nearProvisioning
          createdAt updatedAt).

Definition parseProfileRow (value : JsVal) : option ProfileRecord :=
  if negb (isPlainObject value) then None else
  record ← parseStoredProfileRecord (jget "record" value);
  if strict_eq (jget "wallet_id" value) (JString (pr_profileId record))
     && strict_eq (jget "created_at" value) (JInt (pr_createdAt record))
     && strict_eq (jget "updated_at" value) (JInt (pr_updatedAt record))
  then Some record else None.
