(* ===== verification/SignerActivation.v ===== *)
(** * Activation of account signers

    [indexedDB/accountSignerLifecycle.ts]: which slot a signer is activated in, given
    the signers of its account that are active and an activation policy. *)

From S2P Require Import Prelude ListFacts JsValues ChainTarget SignerRows.
Local Open Scope Z_scope.
Local Open Scope js_scope.

(** *** Data *)

(** A slot of a policy is a number of the caller's. *)
Inductive SignerActivationPolicy : Type :=
| ReuseExisting (signerId materialFingerprint : string)
| AllocateNextFree
| FailIfOccupied (signerSlot : JsVal)
| ReplaceSlot (signerSlot : JsVal) (replacedSignerKind revocationReason : string)
| ReplaceProfileChainKind (signerSlot : JsVal) (replacedSignerKind revocationReason : string).

(** The signer a plan is made for. *)
Record PlannedSigner : Type := mkPlannedSigner {
  ps_signerId : string;
  ps_signerKind : string;
  ps_signerAuthMethod : string;
  ps_signerSource : string;
}.

Definition SIGNER_MATERIAL_FINGERPRINT_METADATA_KEY : string := "signerMaterialFingerprint".

(** [new SignerLifecycleError({ code, message })]. *)
Definition lifecycle_error (code message : string) : Exn := JsCodedError code message.
Definition INVALID_INPUT : string := "signer_lifecycle_invalid_input".

(** *** Inputs *)

Definition normalizeNonEmpty (value label : string) : Result string :=
  let normalized := trim value in
  if nonempty normalized then Ok normalized
  else Throw (lifecycle_error INVALID_INPUT (label +:+ " is required")).

Definition normalizeOptionalPositiveInteger (value : JsVal) (label : string) : Result (option Z) :=
  if is_nullish value then Ok None
  else match safe_integer_value (js_Number value) with
       | Some normalized =>
           if normalized <? 1
           then Throw (lifecycle_error INVALID_INPUT (label +:+ " must be an integer >= 1"))
           else Ok (Some normalized)
       | None => Throw (lifecycle_error INVALID_INPUT (label +:+ " must be an integer >= 1"))
       end.

Definition normalizeRequiredPositiveInteger (value : JsVal) (label : string) : Result Z :=
  let* normalized := normalizeOptionalPositiveInteger value label in
  of_option (lifecycle_error INVALID_INPUT (label +:+ " is required")) normalized.

(** *** Slots and material *)

(** The loop [for (let slot = 1; slot < 1000; slot += 1)]. *)
Fixpoint find_free_slot (fuel : nat) (slot : Z) (reservedSlots : list Z) : option Z :=
  match fuel with
  | O => None
  | S fuel =>
      if bool_decide (slot ∈ reservedSlots) then find_free_slot fuel (slot + 1) reservedSlots
      else Some slot
  end.

Definition firstFreeSlot (reservedSlots : list Z) : Result Z :=
  of_option (lifecycle_error "signer_lifecycle_no_available_slot" "No available account signer slot")
    (find_free_slot 999 1 reservedSlots).

Definition getSignerMaterialFingerprint (signer : AccountSignerRecord) : string :=
  match signer_metadata SIGNER_MATERIAL_FINGERPRINT_METADATA_KEY signer with
  | JString s => trim s
  | _ => EmptyString
  end.

Definition assertExistingSignerMaterialMatches (existingSigner : AccountSignerRecord)
    (expectedFingerprint : string) : Result unit :=
  let* expectedFingerprint :=
    normalizeNonEmpty expectedFingerprint "activationPolicy.materialFingerprint" in
  let existingFingerprint := getSignerMaterialFingerprint existingSigner in
  if negb (nonempty existingFingerprint) then
    Throw (lifecycle_error "signer_lifecycle_missing_material_fingerprint"
             ("Existing signer " +:+ sg_signerId existingSigner +:+
              " is missing signer material fingerprint"))
  else if negb (bool_decide (existingFingerprint = expectedFingerprint)) then
    Throw (lifecycle_error "signer_lifecycle_material_mismatch"
             ("Existing signer material mismatch for " +:+ sg_signerId existingSigner))
  else Ok tt.

(** *** The plan *)

(** The checks of a policy against the signer, before any signer is looked at. *)
Definition check_policy (policy : SignerActivationPolicy) (signerId signerKind : string) : Result unit :=
  match policy with
  | ReuseExisting policySignerId materialFingerprint =>
      let* _ := normalizeNonEmpty policySignerId "activationPolicy.signerId" in
      if negb (bool_decide (policySignerId = signerId)) then
        Throw (lifecycle_error INVALID_INPUT
                 "reuse_existing activation policy signerId must match signer.signerId")
      else
        let* _ := normalizeNonEmpty materialFingerprint "activationPolicy.materialFingerprint" in
        Ok tt
  | ReplaceSlot _ replacedSignerKind revocationReason
  | ReplaceProfileChainKind _ replacedSignerKind revocationReason =>
      if negb (bool_decide (replacedSignerKind = signerKind)) then
        Throw (lifecycle_error INVALID_INPUT
                 "replacement activation policy signer kind must match signer.signerKind")
      else
        let* _ := normalizeNonEmpty revocationReason "activationPolicy.revocationReason" in
        Ok tt
  | AllocateNextFree | FailIfOccupied _ => Ok tt
  end.

Definition find_signer (p : AccountSignerRecord -> bool) (signers : list AccountSignerRecord)
    : option AccountSignerRecord := List.find p signers.

Definition has_signer_id (signerId : string) (s : AccountSignerRecord) : bool :=
  bool_decide (sg_signerId s = signerId).

(** [preferredSlot && !reservedSlots.has(preferredSlot) ? preferredSlot
    : firstFreeSlot(reservedSlots)]. *)
Definition allocate_slot (preferredSlot : option Z) (reservedSlots : list Z) : Result Z :=
  match preferredSlot with
  | Some slot => if bool_decide (slot ∈ reservedSlots) then firstFreeSlot reservedSlots else Ok slot
  | None => firstFreeSlot reservedSlots
  end.

(** The slot of a signer that is not active yet. *)
Definition plan_new_signer (activeSigners : list AccountSignerRecord) (policy : SignerActivationPolicy)
    (signerId signerKind : string) (preferredSlot : option Z) : Result Z :=
  let reservedSlots := map sg_signerSlot activeSigners in
  match policy with
  | ReuseExisting _ _ =>
      match find_signer (fun s => bool_decide (sg_signerKind s = signerKind)) activeSigners with
      | Some conflictingSigner =>
          Throw (lifecycle_error "signer_lifecycle_duplicate_registration"
                   ("Duplicate account registration for " +:+ signerKind +:+ ": existing signer "
                    +:+ sg_signerId conflictingSigner +:+ " differs from " +:+ signerId))
      | None => allocate_slot preferredSlot reservedSlots
      end
  | FailIfOccupied slot =>
      let* signerSlot := normalizeRequiredPositiveInteger slot "signerSlot" in
      match find_signer (fun s => sg_signerSlot s =? signerSlot) activeSigners with
      | Some occupant =>
          Throw (lifecycle_error "signer_lifecycle_slot_occupied"
                   ("Active signer slot " +:+ Z_to_string signerSlot +:+ " is already occupied"))
      | None => Ok signerSlot
      end
  | ReplaceSlot slot _ _ | ReplaceProfileChainKind slot _ _ =>
      normalizeRequiredPositiveInteger slot "signerSlot"
  | AllocateNextFree => allocate_slot preferredSlot reservedSlots
  end.

Definition planAccountSignerActivation (activeSigners : list AccountSignerRecord)
    (signer : PlannedSigner) (activationPolicy : SignerActivationPolicy) (preferredSlot : JsVal)
    : Result Z :=
  let* signerId := normalizeNonEmpty (ps_signerId signer) "signerId" in
  let* signerKind := normalizeNonEmpty (ps_signerKind signer) "signerKind" in
  let* _ := normalizeNonEmpty (ps_signerAuthMethod signer) "signerAuthMethod" in
  let* _ := normalizeNonEmpty (ps_signerSource signer) "signerSource" in
  let existingSigner := find_signer (has_signer_id signerId) activeSigners in
  let* preferredSlot := normalizeOptionalPositiveInteger preferredSlot "preferredSlot" in
  let* _ := check_policy activationPolicy signerId signerKind in
  match existingSigner with
  | Some existing =>
      let* _ :=
        match activationPolicy with
        | ReuseExisting _ materialFingerprint =>
            assertExistingSignerMaterialMatches existing materialFingerprint
        | _ => Ok tt
        end in
      normalizeRequiredPositiveInteger (JInt (sg_signerSlot existing)) "signerSlot"
  | None => plan_new_signer activeSigners activationPolicy signerId signerKind preferredSlot
  end.

(** ** What a plan is *)

(** A number that names a slot. *)
Definition slot_value (v : JsVal) (slot : Z) : Prop :=
  is_nullish v = false /\ safe_integer_value (js_Number v) = Some slot /\ 1 <= slot.

(** The first slot from 1 on that no active signer has. *)
Definition least_free (reserved : list Z) (slot : Z) : Prop :=
  1 <= slot < 1000 /\ (slot ∉ reserved) /\ forall s, 1 <= s < slot -> s ∈ reserved.

(** The preferred slot if it is free, and the first free one otherwise. *)
Definition allocated (preferredSlot : JsVal) (reserved : list Z) (slot : Z) : Prop :=
  (slot_value preferredSlot slot /\ slot ∉ reserved) \/
  ((is_nullish preferredSlot = true \/ exists p, slot_value preferredSlot p /\ p ∈ reserved) /\
   least_free reserved slot).

Definition policy_fits (policy : SignerActivationPolicy) (signerId signerKind : string) : Prop :=
  match policy with
  | ReuseExisting policySignerId materialFingerprint =>
      policySignerId = signerId /\ nonempty (trim materialFingerprint) = true
  | ReplaceSlot _ kind reason | ReplaceProfileChainKind _ kind reason =>
      kind = signerKind /\ nonempty (trim reason) = true
  | AllocateNextFree | FailIfOccupied _ => True
  end.

Definition inputs_valid (signer : PlannedSigner) (policy : SignerActivationPolicy)
    (preferredSlot : JsVal) : Prop :=
  nonempty (trim (ps_signerId signer)) = true /\ nonempty (trim (ps_signerKind signer)) = true /\
  nonempty (trim (ps_signerAuthMethod signer)) = true /\
  nonempty (trim (ps_signerSource signer)) = true /\
  (is_nullish preferredSlot = true \/ exists p, slot_value preferredSlot p) /\
  policy_fits policy (trim (ps_signerId signer)) (trim (ps_signerKind signer)).

Definition reserved_slots (signers : list AccountSignerRecord) : list Z := map sg_signerSlot signers.

(** The first active signer with the planned signer's id. *)
Definition existing_signer (activeSigners : list AccountSignerRecord) (signer : PlannedSigner) :=
  find_signer (has_signer_id (trim (ps_signerId signer))) activeSigners.

Definition kind_taken (activeSigners : list AccountSignerRecord) (signer : PlannedSigner) : Prop :=
  exists s, s ∈ activeSigners /\ sg_signerKind s = trim (ps_signerKind signer).

(** The slot an activation is given. *)
Definition activation_slot (activeSigners : list AccountSignerRecord) (signer : PlannedSigner)
    (policy : SignerActivationPolicy) (preferredSlot : JsVal) (slot : Z) : Prop :=
  let reserved := reserved_slots activeSigners in
  match existing_signer activeSigners signer with
  | Some existing =>
      slot = sg_signerSlot existing /\
      match policy with
      | ReuseExisting _ fingerprint => getSignerMaterialFingerprint existing = trim fingerprint
      | _ => True
      end
  | None =>
      match policy with
      | ReuseExisting _ _ => ~ kind_taken activeSigners signer /\ allocated preferredSlot reserved slot
      | AllocateNextFree => allocated preferredSlot reserved slot
      | FailIfOccupied v => slot_value v slot /\ slot ∉ reserved
      | ReplaceSlot v _ _ | ReplaceProfileChainKind v _ _ => slot_value v slot
      end
  end.

(** Why an activation is refused. *)
Inductive activation_refused (activeSigners : list AccountSignerRecord) (signer : PlannedSigner)
    (policy : SignerActivationPolicy) (preferredSlot : JsVal) : string -> Prop :=
| refused_inputs :
    ~ inputs_valid signer policy preferredSlot ->
    activation_refused activeSigners signer policy preferredSlot INVALID_INPUT
| refused_existing_slot existing :
    existing_signer activeSigners signer = Some existing ->
    ~ slot_value (JInt (sg_signerSlot existing)) (sg_signerSlot existing) ->
    activation_refused activeSigners signer policy preferredSlot INVALID_INPUT
| refused_policy_slot v :
    existing_signer activeSigners signer = None ->
    (policy = FailIfOccupied v \/ exists kind reason,
       policy = ReplaceSlot v kind reason \/ policy = ReplaceProfileChainKind v kind reason) ->
    (forall slot, ~ slot_value v slot) ->
    activation_refused activeSigners signer policy preferredSlot INVALID_INPUT
| refused_no_fingerprint existing policySignerId fingerprint :
    policy = ReuseExisting policySignerId fingerprint ->
    existing_signer activeSigners signer = Some existing ->
    getSignerMaterialFingerprint existing = EmptyString ->
    activation_refused activeSigners signer policy preferredSlot
      "signer_lifecycle_missing_material_fingerprint"
| refused_mismatch existing policySignerId fingerprint :
    policy = ReuseExisting policySignerId fingerprint ->
    existing_signer activeSigners signer = Some existing ->
    getSignerMaterialFingerprint existing <> trim fingerprint ->
    activation_refused activeSigners signer policy preferredSlot "signer_lifecycle_material_mismatch"
| refused_duplicate policySignerId fingerprint :
    policy = ReuseExisting policySignerId fingerprint ->
    existing_signer activeSigners signer = None -> kind_taken activeSigners signer ->
    activation_refused activeSigners signer policy preferredSlot
      "signer_lifecycle_duplicate_registration"
| refused_occupied v slot :
    policy = FailIfOccupied v -> slot_value v slot -> slot ∈ reserved_slots activeSigners ->
    activation_refused activeSigners signer policy preferredSlot "signer_lifecycle_slot_occupied"
| refused_full :
    (forall slot, 1 <= slot < 1000 -> slot ∈ reserved_slots activeSigners) ->
    activation_refused activeSigners signer policy preferredSlot "signer_lifecycle_no_available_slot".

Lemma normalizeNonEmpty_cases value label :
  (nonempty (trim value) = true /\ normalizeNonEmpty value label = Ok (trim value)) \/
  (nonempty (trim value) = false /\
   exists m, normalizeNonEmpty value label = Throw (lifecycle_error INVALID_INPUT m)).
Proof. unfold normalizeNonEmpty. destruct (nonempty _); [by left|right]. eauto. Qed.

Lemma optional_slot_cases v label :
  (is_nullish v = true /\ normalizeOptionalPositiveInteger v label = Ok None) \/
  (exists slot, slot_value v slot /\ normalizeOptionalPositiveInteger v label = Ok (Some slot)) \/
  (is_nullish v = false /\ (forall slot, ~ slot_value v slot) /\
   exists m, normalizeOptionalPositiveInteger v label = Throw (lifecycle_error INVALID_INPUT m)).
Proof.
  unfold normalizeOptionalPositiveInteger, slot_value. destruct (is_nullish v); [by left|right].
  destruct (safe_integer_value _) as [z|]; [|right; split_and!; [done|naive_solver|eauto]].
  destruct (z <? 1) eqn:E.
  - right. split_and!; [done| |eauto]. intros slot (_ & [= ->] & ?). lia.
  - left. exists z. split_and!; (done || lia).
Qed.

Lemma required_slot_cases v label :
  (exists slot, slot_value v slot /\ normalizeRequiredPositiveInteger v label = Ok slot) \/
  ((forall slot, ~ slot_value v slot) /\
   exists m, normalizeRequiredPositiveInteger v label = Throw (lifecycle_error INVALID_INPUT m)).
Proof.
  unfold normalizeRequiredPositiveInteger.
  destruct (optional_slot_cases v label) as [[H ->]|[(slot & H & ->)|(H & Hn & m & ->)]]; simpl.
  - right. split; [|eauto]. intros slot [? _]. congruence.
  - left. eauto.
  - right. eauto.
Qed.

Lemma slot_value_fun v s s' : slot_value v s -> slot_value v s' -> s = s'.
Proof. intros (_ & H & _) (_ & H' & _). congruence. Qed.

Lemma find_free_slot_spec fuel slot reserved :
  match find_free_slot fuel slot reserved with
  | Some s => slot <= s < slot + Z.of_nat fuel /\ (s ∉ reserved) /\
              forall t, slot <= t < s -> t ∈ reserved
  | None => forall t, slot <= t < slot + Z.of_nat fuel -> t ∈ reserved
  end.
Proof.
  revert slot. induction fuel as [|fuel IH]; intros slot; cbn [find_free_slot]; [lia|].
  case_bool_decide as Hin.
  - specialize (IH (slot + 1)). case_match.
    + destruct IH as (? & ? & Ht). split_and!; [lia|lia|done|]. intros t ?.
      destruct (decide (t = slot)) as [->|]; [done|]. apply Ht. lia.
    + intros t ?. destruct (decide (t = slot)) as [->|]; [done|]. apply IH. lia.
  - split_and!; [lia|lia|done|]. intros. lia.
Qed.

Lemma allocate_slot_cases v preferred reserved :
  (is_nullish v = true /\ preferred = None) \/ (exists p, slot_value v p /\ preferred = Some p) ->
  (exists slot, allocate_slot preferred reserved = Ok slot /\ allocated v reserved slot) \/
  (allocate_slot preferred reserved =
     Throw (lifecycle_error "signer_lifecycle_no_available_slot" "No available account signer slot") /\
   forall slot, 1 <= slot < 1000 -> slot ∈ reserved).
Proof.
  intros Hv. pose proof (find_free_slot_spec 999 1 reserved) as Hf.
  assert (Hfree : forall (Hno : is_nullish v = true \/ exists p, slot_value v p /\ p ∈ reserved),
    (exists slot, firstFreeSlot reserved = Ok slot /\ allocated v reserved slot) \/
    (firstFreeSlot reserved = Throw (lifecycle_error "signer_lifecycle_no_available_slot"
       "No available account signer slot") /\ forall slot, 1 <= slot < 1000 -> slot ∈ reserved)).
  { intros Hno. unfold firstFreeSlot. destruct (find_free_slot 999 1 reserved) as [s|]; simpl.
    - left. exists s. split; [done|]. right. split; [done|]. destruct Hf as (? & ? & ?).
      split_and!; [lia|lia|done|done].
    - right. split; [done|]. intros. apply Hf. lia. }
  destruct Hv as [[Hn ->]|(p & Hp & ->)]; simpl; [by apply Hfree; left|].
  case_bool_decide; [by apply Hfree; right; exists p|].
  left. exists p. split; [done|]. by left.
Qed.

Lemma check_policy_cases policy signerId signerKind :
  signerId <> EmptyString -> trim signerId = signerId ->
  (policy_fits policy signerId signerKind /\ check_policy policy signerId signerKind = Ok tt) \/
  (~ policy_fits policy signerId signerKind /\
   exists m, check_policy policy signerId signerKind = Throw (lifecycle_error INVALID_INPUT m)).
Proof.
  intros Hne Ht. unfold check_policy.
  assert (Hrep : forall k reason,
    let r := if negb (bool_decide (k = signerKind))
             then Throw (lifecycle_error INVALID_INPUT
                           "replacement activation policy signer kind must match signer.signerKind")
             else let* _ := normalizeNonEmpty reason "activationPolicy.revocationReason" in Ok tt in
    (k = signerKind /\ nonempty (trim reason) = true /\ r = Ok tt) \/
    (~ (k = signerKind /\ nonempty (trim reason) = true) /\
     exists m, r = Throw (lifecycle_error INVALID_INPUT m))).
  { intros k reason. case_bool_decide; simpl; [|right; naive_solver].
    destruct (normalizeNonEmpty_cases reason "activationPolicy.revocationReason")
      as [[H1 ->]|[H1 [m ->]]]; simpl; [by left|right]. split; [|eauto]. intros [_ ?]. congruence. }
  destruct policy as [id fp| |v|v k reason|v k reason]; simpl.
  - destruct (normalizeNonEmpty_cases id "activationPolicy.signerId") as [[H1 ->]|[H1 [m ->]]]; simpl.
    + case_bool_decide; simpl; [|right; split; [tauto|eauto]].
      destruct (normalizeNonEmpty_cases fp "activationPolicy.materialFingerprint")
        as [[H2 ->]|[H2 [m ->]]]; simpl; [by left|right]. split; [|eauto]. intros [_ ?]. congruence.
    + right. split; [|eauto]. intros [-> _]. rewrite Ht in H1. by destruct signerId.
  - by left.
  - by left.
  - destruct (Hrep k reason) as [(? & ? & H)|[? H]]; [by left|by right].
  - destruct (Hrep k reason) as [(? & ? & H)|[? H]]; [by left|by right].
Qed.

Lemma find_signer_none p l : find_signer p l = None -> forall s, s ∈ l -> p s = false.
Proof. intros H s Hs. eapply List.find_none; [done|by apply list_elem_of_In]. Qed.

Lemma find_signer_some p l s : find_signer p l = Some s -> s ∈ l /\ p s = true.
Proof. intros [H1 H2]%List.find_some. split; [by apply list_elem_of_In|done]. Qed.

(** The outcome of a plan. *)
Definition plan_outcome (activeSigners : list AccountSignerRecord) (signer : PlannedSigner)
    (policy : SignerActivationPolicy) (preferredSlot : JsVal) (r : Result Z) : Prop :=
  match r with
  | Ok slot =>
      inputs_valid signer policy preferredSlot /\ 1 <= slot /\
      activation_slot activeSigners signer policy preferredSlot slot
  | Throw (JsCodedError code _) => activation_refused activeSigners signer policy preferredSlot code
  | Throw _ => False
  end.

Lemma existing_plan_outcome activeSigners signer policy preferredSlot existing :
  inputs_valid signer policy preferredSlot ->
  existing_signer activeSigners signer = Some existing ->
  plan_outcome activeSigners signer policy preferredSlot
    (let* _ := match policy with
               | ReuseExisting _ fp => assertExistingSignerMaterialMatches existing fp
               | _ => Ok tt
               end in
     normalizeRequiredPositiveInteger (JInt (sg_signerSlot existing)) "signerSlot").
Proof.
  intros Hv He.
  assert (Hslot : match policy with
                  | ReuseExisting _ fp => getSignerMaterialFingerprint existing = trim fp
                  | _ => True end ->
    plan_outcome activeSigners signer policy preferredSlot
      (normalizeRequiredPositiveInteger (JInt (sg_signerSlot existing)) "signerSlot")).
  { intros Hm. destruct (required_slot_cases (JInt (sg_signerSlot existing)) "signerSlot")
      as [(slot & Hs & ->)|(Hno & m & ->)]; simpl.
    - destruct Hs as (_ & Hs & Hl). simpl in Hs. case_match; simplify_eq.
      split_and!; [done|done|]. unfold activation_slot. by rewrite He.
    - by eapply refused_existing_slot. }
  destruct policy as [id fp| |v|v k reason|v k reason]; simpl; try by apply Hslot.
  destruct Hv as (_ & _ & _ & _ & _ & _ & Hfp).
  unfold assertExistingSignerMaterialMatches.
  destruct (normalizeNonEmpty_cases fp "activationPolicy.materialFingerprint")
    as [[_ ->]|[? _]]; [simpl|congruence].
  destruct (nonempty (getSignerMaterialFingerprint existing)) eqn:En; simpl.
  - case_bool_decide; simpl; [by apply Hslot|]. by eapply refused_mismatch.
  - eapply refused_no_fingerprint; [done..|]. by destruct (getSignerMaterialFingerprint existing).
Qed.

Lemma new_plan_outcome activeSigners signer policy preferredSlot preferred :
  inputs_valid signer policy preferredSlot ->
  existing_signer activeSigners signer = None ->
  (is_nullish preferredSlot = true /\ preferred = None) \/
    (exists p, slot_value preferredSlot p /\ preferred = Some p) ->
  plan_outcome activeSigners signer policy preferredSlot
    (plan_new_signer activeSigners policy (trim (ps_signerId signer)) (trim (ps_signerKind signer))
       preferred).
Proof.
  intros Hv He Hp.
  assert (Hal : (forall slot, allocated preferredSlot (reserved_slots activeSigners) slot ->
                  activation_slot activeSigners signer policy preferredSlot slot) ->
    plan_outcome activeSigners signer policy preferredSlot
      (allocate_slot preferred (reserved_slots activeSigners))).
  { intros Hs. destruct (allocate_slot_cases _ _ (reserved_slots activeSigners) Hp)
      as [(slot & -> & Ha)|[-> Hfull]]; simpl; [|by apply refused_full].
    split_and!; [done| |by apply Hs]. by destruct Ha as [[(_ & _ & ?) _]|[_ [[? _] _]]]. }
  unfold plan_new_signer, activation_slot in *. rewrite He in Hal.
  destruct policy as [id fp| |v|v k reason|v k reason].
  - case_match eqn:Ef.
    + apply find_signer_some in Ef as [Hin Hk]. apply bool_decide_eq_true in Hk.
      eapply refused_duplicate; [done..|]. by eexists.
    + apply Hal. intros slot Ha. split; [|done]. intros (s & Hin & Hk).
      apply (find_signer_none _ _ Ef) in Hin. by apply bool_decide_eq_false in Hin.
  - by apply Hal.
  - destruct (required_slot_cases v "signerSlot") as [(slot & Hs & ->)|(Hno & m & ->)]; simpl.
    + case_match eqn:Ef; simpl.
      * apply find_signer_some in Ef as [Hin Hk]. eapply refused_occupied; [done..|].
        apply list_elem_of_fmap. eexists. split; [|done]. lia.
      * split_and!; [done|by destruct Hs as (_ & _ & ?)|]. unfold activation_slot. rewrite He.
        split; [done|]. intros (s & -> & Hin)%list_elem_of_fmap.
        apply (find_signer_none _ _ Ef) in Hin. lia.
    + by apply (refused_policy_slot _ _ _ _ v); [|left|].
  - destruct (required_slot_cases v "signerSlot") as [(slot & Hs & ->)|(Hno & m & ->)]; simpl.
    + split_and!; [done|by destruct Hs as (_ & _ & ?)|]. unfold activation_slot. by rewrite He.
    + apply (refused_policy_slot _ _ _ _ v); [done| |done]. right. eauto.
  - destruct (required_slot_cases v "signerSlot") as [(slot & Hs & ->)|(Hno & m & ->)]; simpl.
    + split_and!; [done|by destruct Hs as (_ & _ & ?)|]. unfold activation_slot. by rewrite He.
    + apply (refused_policy_slot _ _ _ _ v); [done| |done]. right. eauto.
Qed.

(** The plan of an activation is total and does what the policies say, on every branch.
    An active signer keeps its slot, and under [reuse_existing] only with the same key
    material.  A new signer gets its preferred slot or the first one that no active
    signer of the account has, a slot that must be free under [fail_if_occupied], and
    the slot the policy names under the replacement policies; under [reuse_existing] no
    active signer may have its kind.  A refusal carries the code of what is wrong, and
    [no_available_slot] only when slots 1 to 999 are all taken. *)
Theorem plan_activation_spec activeSigners signer policy preferredSlot :
  plan_outcome activeSigners signer policy preferredSlot
    (planAccountSignerActivation activeSigners signer policy preferredSlot).
Proof.
  unfold planAccountSignerActivation.
  assert (Hin : forall m, ~ inputs_valid signer policy preferredSlot ->
    plan_outcome activeSigners signer policy preferredSlot (Throw (lifecycle_error INVALID_INPUT m))).
  { intros m Hn. by apply refused_inputs. }
  destruct (normalizeNonEmpty_cases (ps_signerId signer) "signerId") as [[H1 ->]|[H1 [m ->]]];
    simpl result_bind; [|apply Hin; intros (? & _); congruence].
  destruct (normalizeNonEmpty_cases (ps_signerKind signer) "signerKind") as [[H2 ->]|[H2 [m ->]]];
    simpl result_bind; [|apply Hin; intros (_ & ? & _); congruence].
  destruct (normalizeNonEmpty_cases (ps_signerAuthMethod signer) "signerAuthMethod")
    as [[H3 ->]|[H3 [m ->]]]; simpl result_bind; [|apply Hin; intros (_ & _ & ? & _); congruence].
  destruct (normalizeNonEmpty_cases (ps_signerSource signer) "signerSource")
    as [[H4 ->]|[H4 [m ->]]]; simpl result_bind; [|apply Hin; intros (_ & _ & _ & ? & _); congruence].
  assert (Hp : (exists preferred,
      normalizeOptionalPositiveInteger preferredSlot "preferredSlot" = Ok preferred /\
      ((is_nullish preferredSlot = true /\ preferred = None) \/
       (exists p, slot_value preferredSlot p /\ preferred = Some p))) \/
    exists m, normalizeOptionalPositiveInteger preferredSlot "preferredSlot"
                = Throw (lifecycle_error INVALID_INPUT m) /\
              ~ inputs_valid signer policy preferredSlot).
  { destruct (optional_slot_cases preferredSlot "preferredSlot")
      as [[Hn ->]|[(p & Hp & ->)|(Hn & Hno & m & ->)]]; [left|left|right]; eexists; split; eauto.
    intros (_ & _ & _ & _ & [?|[p ?]] & _); [congruence|]. by eapply Hno. }
  destruct Hp as [(preferred & -> & Hp)|(m & -> & Hno)]; simpl result_bind; [|by apply Hin].
  destruct (check_policy_cases policy (trim (ps_signerId signer)) (trim (ps_signerKind signer)))
    as [[Hf ->]|[Hf [m ->]]]; [by intros E; rewrite E in H1 | apply trim_idem | |];
    simpl result_bind; [|apply Hin; intros (_ & _ & _ & _ & _ & ?); tauto].
  assert (Hv : inputs_valid signer policy preferredSlot).
  { split_and!; [done..| |done]. destruct Hp as [[? _]|(p & ? & _)]; eauto. }
  destruct (find_signer _ _) as [existing|] eqn:He.
  - by apply existing_plan_outcome.
  - by apply new_plan_outcome.
Qed.
