(* ===== verification/SignerOutbox.v ===== *)
(** * Rows of the signer operation outbox

    [indexedDB/seamsWalletDB/signerOutboxRows.ts]: the operations on signers that wait
    to be sent, the rows they are stored as, and the parser of stored rows. *)

From S2P Require Import Prelude JsValues SignerRows.
Local Open Scope Z_scope.
Local Open Scope js_scope.

Inductive SignerOperationStatus : Type :=
| OpQueued | OpSubmitted | OpConfirmed | OpFailed | OpDeadLetter.

#[global] Instance SignerOperationStatus_eq_dec : EqDecision SignerOperationStatus.
Proof. solve_decision. Defined.

Definition op_status_string (status : SignerOperationStatus) : string :=
  match status with
  | OpQueued => "queued" | OpSubmitted => "submitted" | OpConfirmed => "confirmed"
  | OpFailed => "failed" | OpDeadLetter => "dead-letter"
  end.

Definition op_status_of (value : JsVal) : option SignerOperationStatus :=
  List.find (fun status => strict_eq value (JString (op_status_string status)))
    [OpQueued; OpSubmitted; OpConfirmed; OpFailed; OpDeadLetter].

Record SignerOpOutboxRecord : Type := mkSignerOp {
  op_opId : string;
  op_idempotencyKey : string;
  op_opType : string;
  op_chainIdKey : string;
  op_accountAddress : string;
  op_signerId : string;
  op_payload : option (list (string * JsVal));
  op_status : SignerOperationStatus;
  op_attemptCount : Z;
  op_nextAttemptAt : Z;
  op_lastError : option string;
  op_txHash : option string;
  op_createdAt : Z;
  op_updatedAt : Z;
}.

Definition op_with_keys (opId idempotencyKey chainIdKey accountAddress signerId : string)
    (r : SignerOpOutboxRecord) : SignerOpOutboxRecord :=
  mkSignerOp opId idempotencyKey (op_opType r) chainIdKey accountAddress signerId (op_payload r)
    (op_status r) (op_attemptCount r) (op_nextAttemptAt r) (op_lastError r) (op_txHash r)
    (op_createdAt r) (op_updatedAt r).

Definition payload_value (r : SignerOpOutboxRecord) : JsVal :=
  match op_payload r with Some fields => JObject fields | None => JUndefined end.

Definition signer_op_object (r : SignerOpOutboxRecord) : JsVal :=
  JObject ([("opId", JString (op_opId r)); ("idempotencyKey", JString (op_idempotencyKey r));
            ("opType", JString (op_opType r)); ("chainIdKey", JString (op_chainIdKey r));
            ("accountAddress", JString (op_accountAddress r)); ("signerId", JString (op_signerId r));
            ("status", JString (op_status_string (op_status r)));
            ("attemptCount", JInt (op_attemptCount r)); ("nextAttemptAt", JInt (op_nextAttemptAt r));
            ("createdAt", JInt (op_createdAt r)); ("updatedAt", JInt (op_updatedAt r));
            ("payload", payload_value r); ("lastError", jopt (op_lastError r));
            ("txHash", jopt (op_txHash r))]).

(** [toTrimmedString(String(record.payload?.profileId || ''))]. *)
Definition payload_profile_id (r : SignerOpOutboxRecord) : string :=
  stringOrEmptyTrimmed (jget "profileId" (payload_value r)).

Definition op_row (r : SignerOpOutboxRecord) : JsVal :=
  JObject [("op_id", JString (op_opId r)); ("idempotency_key", JString (op_idempotencyKey r));
           ("status", JString (op_status_string (op_status r)));
           ("next_attempt_at", JInt (op_nextAttemptAt r));
           ("wallet_id", JString (payload_profile_id r));
           ("chain_target_key", JString (signerChainTargetKey (op_chainIdKey r) (op_accountAddress r)));
           ("updated_at", JInt (op_updatedAt r)); ("record", signer_op_object r)].

Definition signerOutboxRow (record : SignerOpOutboxRecord) : Result JsVal :=
  let opId := normalizeTrimmedString (or_empty (JString (op_opId record))) in
  let idempotencyKey := normalizeTrimmedString (or_empty (JString (op_idempotencyKey record))) in
  let chainIdKey := normalizeIndexedDbChainIdKey (JString (op_chainIdKey record)) in
  let accountAddress := normalizeIndexedDbAccountAddress (JString (op_accountAddress record)) in
  let signerId := normalizeTrimmedString (or_empty (JString (op_signerId record))) in
  if negb (nonempty opId && nonempty idempotencyKey && nonempty chainIdKey
           && nonempty accountAddress && nonempty signerId)
  then Throw (JsError ("[SeamsWalletDB] signer op requires opId, idempotencyKey, chainIdKey, " +:+
                       "accountAddress, and signerId"))
  else Ok (op_row (op_with_keys opId idempotencyKey chainIdKey accountAddress signerId record)).

Definition parseStoredSignerOutboxRecord (value : JsVal) : option SignerOpOutboxRecord :=
  if negb (isPlainObject value) then None else
  opId ← parseStoredNonEmptyString (jget "opId" value);
  idempotencyKey ← parseStoredNonEmptyString (jget "idempotencyKey" value);
  opType ← parseStoredNonEmptyString (jget "opType" value);
  chainIdKey ← some_nonempty (normalizeIndexedDbChainIdKey (jget "chainIdKey" value));
  accountAddress ← some_nonempty (normalizeIndexedDbAccountAddress (jget "accountAddress" value));
  signerId ← parseStoredNonEmptyString (jget "signerId" value);
  status ← op_status_of (jget "status" value);
  attemptCount ← stored_integer 0 (jget "attemptCount" value);
  nextAttemptAt ← stored_integer 0 (jget "nextAttemptAt" value);
  createdAt ← stored_integer 0 (jget "createdAt" value);
  updatedAt ← stored_integer 0 (jget "updatedAt" value);
  payload ← stored_optional stored_fields (jget "payload" value);
  lastError ← stored_optional stored_text (jget "lastError" value);
  txHash ← stored_optional stored_text (jget "txHash" value);
  Some (mkSignerOp opId idempotencyKey opType chainIdKey accountAddress signerId payload status
          attemptCount nextAttemptAt lastError txHash createdAt updatedAt).

Definition parseSignerOutboxRow (value : JsVal) : option SignerOpOutboxRecord :=
  if negb (isPlainObject value) then None else
  record ← parseStoredSignerOutboxRecord (jget "record" value);
  if strict_eq (jget "op_id" value) (JString (op_opId record))
     && strict_eq (jget "idempotency_key" value) (JString (op_idempotencyKey record))
     && strict_eq (jget "status" value) (JString (op_status_string (op_status record)))
     && strict_eq (jget "next_attempt_at" value) (JInt (op_nextAttemptAt record))
     && strict_eq (jget "chain_target_key" value)
          (JString (signerChainTargetKey (op_chainIdKey record) (op_accountAddress record)))
     && strict_eq (jget "wallet_id" value) (JString (payload_profile_id record))
     && strict_eq (jget "updated_at" value) (JInt (op_updatedAt record))
  then Some record else None.

(** ** Reading back what is written *)

(** The records the parser gives. *)
Definition op_record_ok (r : SignerOpOutboxRecord) : bool :=
  stored_text_ok (op_opId r) && stored_text_ok (op_idempotencyKey r) && stored_text_ok (op_opType r)
  && stored_key_ok (op_chainIdKey r) && stored_key_ok (op_accountAddress r)
  && stored_text_ok (op_signerId r) && stored_integer_ok 0 (op_attemptCount r)
  && stored_integer_ok 0 (op_nextAttemptAt r) && stored_integer_ok 0 (op_createdAt r)
  && stored_integer_ok 0 (op_updatedAt r).

Lemma op_status_iff v status : op_status_of v = Some status <-> v = JString (op_status_string status).
Proof.
  unfold op_status_of. split.
  - intros [_ Hv]%find_some. by apply strict_eq_text.
  - intros ->. by destruct status.
Qed.

(** The record a row is built from. *)
Definition stored_op (r : SignerOpOutboxRecord) : SignerOpOutboxRecord :=
  op_with_keys (trim (op_opId r)) (trim (op_idempotencyKey r))
    (normalizeIndexedDbChainIdKey (JString (op_chainIdKey r)))
    (normalizeIndexedDbAccountAddress (JString (op_accountAddress r))) (trim (op_signerId r)) r.

Lemma stored_key_iff v s :
  some_nonempty (normalizeLowercaseString v) = Some s <->
  normalizeLowercaseString v = s /\ stored_key_ok s = true.
Proof.
  rewrite some_nonempty_iff. split.
  - intros H. split; [apply H|]. by eapply stored_key_normal.
  - intros [-> [? _]%andb_prop]. done.
Qed.

Lemma parse_op_object r :
  normalizeIndexedDbChainIdKey (JString (op_chainIdKey r)) = op_chainIdKey r ->
  normalizeIndexedDbAccountAddress (JString (op_accountAddress r)) = op_accountAddress r ->
  parseStoredSignerOutboxRecord (signer_op_object r) = if op_record_ok r then Some r else None.
Proof.
  unfold normalizeIndexedDbChainIdKey, normalizeIndexedDbAccountAddress. intros Hc Ha.
  destruct (op_record_ok r) eqn:Hok.
  - unfold op_record_ok in Hok. split_andb. unfold parseStoredSignerOutboxRecord.
    change (isPlainObject (signer_op_object r)) with true. cbn [negb].
    repeat (apply bind_Some; eexists; split;
            [first [ by apply parse_stored_text | by apply stored_key_iff
                   | by apply stored_integer_iff | by apply op_status_iff
                   | by apply stored_optional_text | by apply stored_optional_fields ]|]).
    by destruct r.
  - destruct (parseStoredSignerOutboxRecord _) as [r'|] eqn:Hp; [|done]. exfalso.
    unfold parseStoredSignerOutboxRecord, normalizeIndexedDbChainIdKey, normalizeIndexedDbAccountAddress in Hp.
    change (isPlainObject (signer_op_object r)) with true in Hp. cbn [negb] in Hp.
    change (jget "chainIdKey" (signer_op_object r)) with (JString (op_chainIdKey r)) in Hp.
    change (jget "accountAddress" (signer_op_object r)) with (JString (op_accountAddress r)) in Hp.
    rewrite Hc, Ha in Hp.
    repeat (apply bind_Some in Hp as (? & ? & Hp)).
    repeat match goal with
    | H : some_nonempty _ = Some _ |- _ => apply some_nonempty_iff in H as [<- H]
    | H : op_status_of _ = Some _ |- _ => apply op_status_iff in H
    end.
    read_stored.
    repeat match goal with
    | H : jget _ (signer_op_object _) = JString _ /\ _ |- _ => destruct H as [[= <-] H]
    | H : jget _ (signer_op_object _) = JInt _ /\ _ |- _ => destruct H as [[= <-] H]
    end.
    unfold op_record_ok, stored_key_ok in Hok. unfold normalizeLowercaseString in *.
    rewrite Hc, Ha, !bool_decide_true in Hok by done.
    by repeat match goal with H : _ = true |- _ => rewrite H in Hok; clear H end.
Qed.

Lemma parse_written_op r row :
  signerOutboxRow r = Ok row ->
  parseSignerOutboxRow row = if op_record_ok (stored_op r) then Some (stored_op r) else None.
Proof.
  unfold signerOutboxRow. rewrite !trim_or_empty. destruct (negb _); [done|].
  change (op_with_keys _ _ _ _ _ _) with (stored_op r). intros [= <-].
  unfold parseSignerOutboxRow. change (isPlainObject (op_row _)) with true. cbn [negb].
  change (jget "record" (op_row (stored_op r))) with (signer_op_object (stored_op r)).
  rewrite parse_op_object by apply normalizeLowercaseString_idem.
  destruct (op_record_ok _); [|done]. cbn [mbind option_bind].
  change (jget "op_id" (op_row (stored_op r))) with (JString (op_opId (stored_op r))).
  change (jget "idempotency_key" (op_row (stored_op r))) with (JString (op_idempotencyKey (stored_op r))).
  change (jget "status" (op_row (stored_op r))) with (JString (op_status_string (op_status (stored_op r)))).
  change (jget "next_attempt_at" (op_row (stored_op r))) with (JInt (op_nextAttemptAt (stored_op r))).
  change (jget "chain_target_key" (op_row (stored_op r))) with
    (JString (signerChainTargetKey (op_chainIdKey (stored_op r)) (op_accountAddress (stored_op r)))).
  change (jget "wallet_id" (op_row (stored_op r))) with (JString (payload_profile_id (stored_op r))).
  change (jget "updated_at" (op_row (stored_op r))) with (JInt (op_updatedAt (stored_op r))).
  by rewrite !strict_eq_string, !strict_eq_JInt.
Qed.

(** An operation as a caller describes it, and what its row reads back as. *)
Definition example_op : SignerOpOutboxRecord :=
  mkSignerOp "op-1 " "add:1" "add-signer" " NEAR:Testnet" "Alice.testnet" "s1"
    (Some [("profileId", JString "wallet-1")]) OpQueued 0 5 None None 5 5.

(** What an accepted row says. *)
Lemma parseSignerOutboxRow_sound v r :
  parseSignerOutboxRow v = Some r ->
  jget "op_id" v = JString (op_opId r) /\ jget "idempotency_key" v = JString (op_idempotencyKey r).
Proof.
  unfold parseSignerOutboxRow. destruct (isPlainObject v); cbn [negb]; [|done].
  intros (x & _ & H)%bind_Some.
  match type of H with (if ?b then _ else _) = _ => destruct b eqn:Es; [|done] end.
  split_andb. simplify_eq. rewrite !strict_eq_text in *. done.
Qed.

Lemma example_op_read_back :
  exists row, signerOutboxRow example_op = Ok row /\ parseSignerOutboxRow row = Some (stored_op example_op).
Proof. eexists. split; [vm_compute; reflexivity|]. vm_compute. reflexivity. Qed.
