(* ===== verification/WalletDB.v ===== *)
(** * The wallet database: profiles, chain accounts and account signers

    The operations of [indexedDB/seamsWalletDB/repositories.ts] on profiles, chain
    accounts, account signers and the signer operation outbox, over the object stores
    of [indexedDB/schemaNames.ts].  Rows are stored values, parsed whenever they are
    read.  [Date.now()] and the random part of a token are functions of how often they
    were asked for; a transaction that throws leaves the stores as they were. *)

From S2P Require Import Prelude JsValues ChainTarget SignerRows ProfileRows SignerActivation SignerOutbox IdbTables.
Local Open Scope Z_scope.
Local Open Scope js_scope.

(** *** The stores *)

Record WalletDB : Type := mkWalletDB {
  wd_appState : Table string JsVal;
  wd_wallets : Table string JsVal;
  wd_projections : Table (string * string * Z) JsVal;
  wd_signers : Table string JsVal;
  wd_outbox : Table string JsVal;
  wd_reading : nat;
}.

Definition appState : Ref WalletDB (Table string JsVal) :=
  mkRef wd_appState (fun t w => mkWalletDB t (wd_wallets w) (wd_projections w) (wd_signers w)
                                  (wd_outbox w) (wd_reading w)).
Definition wallets : Ref WalletDB (Table string JsVal) :=
  mkRef wd_wallets (fun t w => mkWalletDB (wd_appState w) t (wd_projections w) (wd_signers w)
                                 (wd_outbox w) (wd_reading w)).
Definition nearAccountProjections : Ref WalletDB (Table (string * string * Z) JsVal) :=
  mkRef wd_projections (fun t w => mkWalletDB (wd_appState w) (wd_wallets w) t (wd_signers w)
                                     (wd_outbox w) (wd_reading w)).
Definition walletSigners : Ref WalletDB (Table string JsVal) :=
  mkRef wd_signers (fun t w => mkWalletDB (wd_appState w) (wd_wallets w) (wd_projections w) t
                                 (wd_outbox w) (wd_reading w)).
Definition signerOpsOutbox : Ref WalletDB (Table string JsVal) :=
  mkRef wd_outbox (fun t w => mkWalletDB (wd_appState w) (wd_wallets w) (wd_projections w)
                                (wd_signers w) t (wd_reading w)).

(** The unique indexes of the stores. *)
Definition walletSigners_indexes : list (list string) :=
  [["wallet_id"; "kind"; "chain_target_key"; "key_handle"];
   ["wallet_id"; "kind"; "chain_target_key"; "ecdsa_threshold_key_id"]].
Definition signerOpsOutbox_indexes : list (list string) := [["idempotency_key"]].

Definition bump_reading (w : WalletDB) : WalletDB :=
  mkWalletDB (wd_appState w) (wd_wallets w) (wd_projections w) (wd_signers w) (wd_outbox w)
    (S (wd_reading w)).

(** The stores of [w] with the readings of [w']. *)
Definition roll_back (w w' : WalletDB) : WalletDB :=
  mkWalletDB (wd_appState w) (wd_wallets w) (wd_projections w) (wd_signers w) (wd_outbox w)
    (wd_reading w').

(** [manager.runTransaction(stores, 'readwrite', task)]. *)
Definition runTransaction {A} (task : M WalletDB A) : M WalletDB A := fun w =>
  match task w with
  | (Ok a, w') => (Ok a, w')
  | (Throw e, w') => (Throw e, roll_back w w')
  end.

Definition get_row {K} `{EqDecision K} (store : Ref WalletDB (Table K JsVal)) (k : K) : M WalletDB JsVal :=
  gets (fun w => default JUndefined (tget k (rget store w))).

(** [put] on a store without unique indexes, and [delete]. *)
Definition put_row {K} `{EqDecision K} `{!KeyOrder K} (store : Ref WalletDB (Table K JsVal)) (k : K)
    (row : JsVal) : M WalletDB unit := assign store (tput k row).

Definition delete_row {K} `{EqDecision K} (store : Ref WalletDB (Table K JsVal)) (k : K)
    : M WalletDB unit := assign store (tdel k).

(** The primary key of a row, a text. *)
Definition key_of (keyPath : string) (row : JsVal) : string := js_String (jget keyPath row).

Definition put_signer (row : JsVal) : M WalletDB unit :=
  t <- deref walletSigners ;;
  t' <- lift (put_unique walletSigners_indexes (key_of "wallet_signer_id" row) row t) ;;
  assign walletSigners (fun _ => t').

Definition put_outbox (row : JsVal) : M WalletDB unit :=
  t <- deref signerOpsOutbox ;;
  t' <- lift (put_unique signerOpsOutbox_indexes (key_of "op_id" row) row t) ;;
  assign signerOpsOutbox (fun _ => t').

Definition projection_key (profileId chainIdKey accountAddress : string) : string * string * Z :=
  (profileId, chainAccountProjectionId chainIdKey accountAddress, CHAIN_ACCOUNT_PROJECTION_SIGNER_SLOT).

Definition put_projection (r : ChainAccountRecord) : M WalletDB unit :=
  put_row nearAccountProjections
    (projection_key (ca_profileId r) (ca_chainIdKey r) (ca_accountAddress r)) (chain_account_row r).

(** The rows the parser accepts: [rows.flatMap((row) => { const parsed = parse(row); ... })]. *)
Definition parsed_rows {A} (parse : JsVal -> option A) (rows : list JsVal) : list A := omap parse rows.

(** [makeConstraintError(code, message)]. *)
Definition makeConstraintError (code message : string) : Exn := JsCodedError code message.

Definition shouldWriteNearAccountProjection (accountModel chainIdKey : string) : bool :=
  bool_decide (accountModel = "near-native") || starts_with "near:" chainIdKey.

Definition LAST_PROFILE_STATE_APP_STATE_KEY : string := "lastProfileState".

Section Repository.
Context (clock : nat -> Z) (random : nat -> string).

(** [Date.now()]. *)
Definition Date_now : M WalletDB Z := fun w => (Ok (clock (wd_reading w)), bump_reading w).

Definition createRandomToken (prefix : string) : M WalletDB string :=
  fun w => (Ok (prefix +:+ "-" +:+ random (wd_reading w)), bump_reading w).

(** *** Profiles *)

Definition getProfile (profileId : string) : M WalletDB (option ProfileRecord) :=
  let normalizedProfileId := trim profileId in
  if negb (nonempty normalizedProfileId) then ret None
  else row <- get_row wallets normalizedProfileId ;; ret (parseProfileRow row).

Definition upsertProfile (input : UpsertProfileInput) : M WalletDB ProfileRecord :=
  let profileId := trim (pi_profileId input) in
  if negb (nonempty profileId) then throw (JsError "[SeamsWalletDB] profileId is required")
  else runTransaction
    (row <- get_row wallets profileId ;;
     now <- Date_now ;;
     next <- lift (profile_update input (parseProfileRow row) now) ;;
     put_row wallets (pr_profileId next) (profileRowFromRecord next) ;;
     ret next).

(** *** Chain accounts *)

(** An upsert that reads the clock; the row's record is what is written. *)
Definition put_chain_account (input : UpsertChainAccountInput) (existing : option ChainAccountRecord)
    : M WalletDB ChainAccountRecord :=
  now <- Date_now ;;
  record <- lift (chainAccountProjection input existing now) ;;
  put_projection record ;;
  ret record.

(** The rows of a profile that are primary for a chain lose the mark, but for one account. *)
Definition unset_primary (chainIdKey accountAddress : string) (row : JsVal) : M WalletDB unit :=
  match parseChainAccountProjectionRow row with
  | None => ret tt
  | Some parsed =>
      if negb (bool_decide (ca_chainIdKey parsed = chainIdKey)) || negb (default false (ca_isPrimary parsed))
      then ret tt
      else if bool_decide (ca_accountAddress parsed = accountAddress) then ret tt
      else
        put_chain_account
          (mkChainAccountInput (ca_profileId parsed) (ca_chainIdKey parsed) (ca_accountAddress parsed)
             (ca_accountModel parsed) (Some false)) (Some parsed) ;;
        ret tt
  end.

Definition upsertChainAccount (input : UpsertChainAccountInput) : M WalletDB ChainAccountRecord :=
  let profileId := trim (ci_profileId input) in
  let chainIdKey := normalizeIndexedDbChainIdKey (JString (ci_chainIdKey input)) in
  let accountAddress := normalizeIndexedDbAccountAddress (JString (ci_accountAddress input)) in
  if negb (nonempty profileId && nonempty chainIdKey && nonempty accountAddress) then
    throw (JsError "[SeamsWalletDB] profileId, chainIdKey, and accountAddress are required")
  else runTransaction
    (profile <- get_row wallets profileId ;;
     match parseProfileRow profile with
     | None =>
         throw (JsError ("[SeamsWalletDB] Cannot upsert chain account for unknown profile: " +:+ profileId))
     | Some _ =>
         row <- get_row nearAccountProjections (projection_key profileId chainIdKey accountAddress) ;;
         now <- Date_now ;;
         next <- lift (chainAccountProjection input (parseChainAccountProjectionRow row) now) ;;
         (when default false (ca_isPrimary next) do
            (rows <- gets (fun w => index_all "profile_id" profileId (wd_projections w)) ;;
             forM rows (unset_primary chainIdKey accountAddress))) ;;
         put_projection next ;;
         ret next
     end).

Definition listChainAccountsByProfile (profileId : string) : M WalletDB (list ChainAccountRecord) :=
  let normalizedProfileId := trim profileId in
  if negb (nonempty normalizedProfileId) then ret []
  else gets (fun w => parsed_rows parseChainAccountProjectionRow
                        (index_all "profile_id" normalizedProfileId (wd_projections w))).

Definition listChainAccountsByProfileAndChain (profileId chainIdKey : string)
    : M WalletDB (list ChainAccountRecord) :=
  let normalizedChainIdKey := normalizeIndexedDbChainIdKey (JString chainIdKey) in
  if negb (nonempty normalizedChainIdKey) then ret []
  else rows <- listChainAccountsByProfile profileId ;;
       ret (List.filter (fun row => bool_decide (ca_chainIdKey row = normalizedChainIdKey)) rows).

Definition listChainAccountsByChain (chainIdKey : string) : M WalletDB (list ChainAccountRecord) :=
  let normalizedChainIdKey := normalizeIndexedDbChainIdKey (JString chainIdKey) in
  if negb (nonempty normalizedChainIdKey) then ret []
  else gets (fun w => List.filter (fun row => bool_decide (ca_chainIdKey row = normalizedChainIdKey))
                        (parsed_rows parseChainAccountProjectionRow (tvalues (wd_projections w)))).

Definition getChainAccount (profileId chainIdKey accountAddress : string)
    : M WalletDB (option ChainAccountRecord) :=
  let profileId := trim profileId in
  let chainIdKey := normalizeIndexedDbChainIdKey (JString chainIdKey) in
  let accountAddress := normalizeIndexedDbAccountAddress (JString accountAddress) in
  if negb (nonempty profileId && nonempty chainIdKey && nonempty accountAddress) then ret None
  else row <- get_row nearAccountProjections (projection_key profileId chainIdKey accountAddress) ;;
       ret (parseChainAccountProjectionRow row).

(** The profile of the first row of an account. *)
Definition resolveProfileAccountContext (chainIdKey accountAddress : string)
    : M WalletDB (option (string * (string * string))) :=
  let chainIdKey := normalizeIndexedDbChainIdKey (JString chainIdKey) in
  let accountAddress := normalizeIndexedDbAccountAddress (JString accountAddress) in
  if negb (nonempty chainIdKey && nonempty accountAddress) then ret None
  else
    found <- gets (fun w => List.find (fun row => bool_decide (ca_chainIdKey row = chainIdKey)
                                                  && bool_decide (ca_accountAddress row = accountAddress))
                              (parsed_rows parseChainAccountProjectionRow (tvalues (wd_projections w)))) ;;
    ret (row ← found; if nonempty (ca_profileId row)
                      then Some (ca_profileId row, (chainIdKey, accountAddress)) else None).
End Repository.
