(* ===== verification/WalletSigners.v ===== *)
(** * Account signers in the wallet database

    The signer operations of [indexedDB/seamsWalletDB/repositories.ts]: activating,
    staging and changing the status of a signer, and the outbox of the operations that
    wait to be sent. *)

From S2P Require Import Prelude ListFacts JsValues ChainTarget SignerRows ProfileRows SignerActivation SignerOutbox IdbTables WalletDB.
Local Open Scope Z_scope.
Local Open Scope js_scope.

(** *** Records *)

(** [args.removedAt], [args.revocationReason] and [args.metadata] are the fields of
    [args], whose times are not read. *)
Definition buildAccountSignerRecord (args : AccountSignerRecord) (existing : option AccountSignerRecord)
    (now : Z) : AccountSignerRecord :=
  let removedAt :=
    if bool_decide (sg_status args = SignerRevoked)
    then Some (default (default now (existing ≫= sg_removedAt)) (sg_removedAt args))
    else None in
  let given o := match o with Some s => if nonempty s then Some s else None | None => None end in
  mkSigner (sg_profileId args) (sg_chainIdKey args) (sg_accountAddress args) (sg_signerId args)
    (sg_signerSlot args) (sg_signerType args) (sg_signerKind args) (sg_signerAuthMethod args)
    (sg_signerSource args) (sg_status args) (default now (sg_addedAt <$> existing)) now removedAt
    (or_else (trim <$> given (sg_revocationReason args)) (given (existing ≫= sg_revocationReason)))
    (or_else (sg_metadata args) (existing ≫= sg_metadata)).

(** The status changes that are allowed. *)
Definition allowed_transition (from to : AccountSignerStatus) : bool :=
  match from, to with
  | SignerPending, _ => true
  | SignerActive, (SignerActive | SignerRevoked) => true
  | SignerRevoked, SignerRevoked => true
  | _, _ => false
  end.

(** The checks on the metadata of an active ECDSA signer. *)
Definition assert_ecdsa_metadata (next : AccountSignerRecord) : Result unit :=
  let invalid m := Throw (makeConstraintError "INVALID_SIGNER_METADATA" m) in
  let thresholdOwnerAddress :=
    normalizeIndexedDbAccountAddress (signer_metadata "thresholdOwnerAddress" next) in
  let chainTargetKey := normalizeEcdsaChainTargetKey (signer_metadata "chainTarget" next) in
  if negb (nonempty (normalizeTrimmedString (signer_metadata "keyHandle" next))) then
    invalid "Active threshold ECDSA signer requires metadata.keyHandle"
  else if negb (nonempty (normalizeTrimmedString (signer_metadata "ecdsaThresholdKeyId" next))) then
    invalid "Active threshold ECDSA signer requires metadata.ecdsaThresholdKeyId"
  else if negb (nonempty thresholdOwnerAddress)
          || negb (bool_decide (thresholdOwnerAddress = sg_accountAddress next)) then
    invalid "Active threshold ECDSA signer requires metadata.thresholdOwnerAddress matching accountAddress"
  else if negb (nonempty chainTargetKey) then
    invalid "Active threshold ECDSA signer requires metadata.chainTarget"
  else if negb (bool_decide (chainTargetKey = sg_chainIdKey next)) then
    invalid "Active threshold ECDSA signer metadata.chainTarget must match chainIdKey"
  else Ok tt.

(** [activeSigners.find((row) => row.signerId !== next.signerId && ...)]. *)
Definition conflicting_slot (next : AccountSignerRecord) (activeSigners : list AccountSignerRecord)
    : option AccountSignerRecord :=
  List.find (fun row => negb (bool_decide (sg_signerId row = sg_signerId next))
                        && (sg_signerSlot row =? sg_signerSlot next)) activeSigners.

Definition assertSignerWriteInvariants (next : AccountSignerRecord)
    (existingStatus : option AccountSignerStatus) (activeSigners : list AccountSignerRecord) : Result unit :=
  let isActive := isActiveSigner next in
  let revoked := bool_decide (sg_status next = SignerRevoked) in
  if negb revoked && negb (nonempty (sg_signerKind next) && nonempty (sg_signerAuthMethod next)
                           && nonempty (sg_signerSource next)) then
    Throw (makeConstraintError "MISSING_SIGNER_KIND"
             ("Active and pending account signers require signerKind, signerAuthMethod, " +:+
              "and signerSource"))
  else if revoked && match sg_removedAt next with None => true | Some _ => false end then
    Throw (makeConstraintError "REVOKED_SIGNER_REQUIRES_REMOVED_AT"
             ("Revoked signer " +:+ sg_signerId next +:+ " must include removedAt"))
  else if isActive && match conflicting_slot next activeSigners with Some _ => true | None => false end
  then
    Throw (makeConstraintError "DUPLICATE_ACTIVE_SIGNER_SLOT"
             ("Active signer slot " +:+ Z_to_string (sg_signerSlot next) +:+ " is already used for "
              +:+ sg_chainIdKey next +:+ "/" +:+ sg_accountAddress next))
  else if match existingStatus with
          | Some from => negb (bool_decide (from = sg_status next))
                         && negb (allowed_transition from (sg_status next))
          | None => false
          end then
    Throw (makeConstraintError "INVALID_SIGNER_STATUS_TRANSITION"
             ("Invalid signer status transition "
              +:+ default EmptyString (signer_status_string <$> existingStatus) +:+ " -> "
              +:+ signer_status_string (sg_status next)))
  else if isActive && bool_decide (sg_signerKind next = KIND_ECDSA) then assert_ecdsa_metadata next
  else Ok tt.

(** *** Rows *)

(** The fields [key_handle] and [ecdsa_threshold_key_id] of a row name the same key. *)
Definition same_ecdsa_key (raw row : JsVal) : bool :=
  let same f := match jget f row with JString s => strict_eq (jget f raw) (JString s) | _ => false end in
  same "key_handle" || same "ecdsa_threshold_key_id".

Definition is_text_eq (field : string) (a b : JsVal) : bool :=
  match jget field b with JString s => strict_eq (jget field a) (JString s) | _ => false end.

(** A row another row of the same wallet, kind and chain target takes the key of. *)
Definition conflicting_row (row raw : JsVal) : option string :=
  match parseAccountSignerRow raw with
  | None => None
  | Some _ =>
      let existingRowId := trim (js_String (or_empty (jget "wallet_signer_id" raw))) in
      if negb (nonempty existingRowId)
         || bool_decide (existingRowId = key_of "wallet_signer_id" row) then None
      else if negb (is_text_eq "kind" raw row) || negb (is_text_eq "chain_target_key" raw row) then None
      else if same_ecdsa_key raw row then Some existingRowId else None
  end.

Definition deleteConflictingThresholdEcdsaSignerRows (nextRow : JsVal) : M WalletDB unit :=
  if negb (strict_eq (jget "kind" nextRow) (JString KIND_ECDSA))
     || strict_eq (jget "status" nextRow) (JString "revoked") then ret tt
  else if negb (truthy (jget "key_handle" nextRow))
          || negb (truthy (jget "ecdsa_threshold_key_id" nextRow)) then ret tt
  else
    walletRows <- gets (fun w => index_all "wallet_id" (key_of "wallet_id" nextRow) (wd_signers w)) ;;
    forM (omap (conflicting_row nextRow) walletRows) (delete_row walletSigners).

(** The active signers of the store, and those of an account. *)
Definition active_signers (w : WalletDB) : list AccountSignerRecord :=
  parsed_rows parseAccountSignerRow (index_all "status" "active" (wd_signers w)).

Definition of_account (chainIdKey accountAddress : string) (s : AccountSignerRecord) : bool :=
  bool_decide (sg_chainIdKey s = chainIdKey) && bool_decide (sg_accountAddress s = accountAddress).

Definition account_signers (chainIdKey accountAddress : string) (l : list AccountSignerRecord) :=
  List.filter (of_account chainIdKey accountAddress) l.

(** *** The outbox *)

Record EnqueueSignerOperationInput : Type := mkEnqueue {
  en_opId : string;
  en_idempotencyKey : string;
  en_opType : string;
  en_chainIdKey : string;
  en_accountAddress : string;
  en_signerId : string;
  en_payload : option (list (string * JsVal));
  en_status : option SignerOperationStatus;
  en_attemptCount : option Z;
  en_nextAttemptAt : option Z;
  en_lastError : option string;
  en_txHash : option string;
}.

Record SignerMutationOptions : Type := mkMutation {
  mu_routeThroughOutbox : option bool;
  mu_opId : option string;
  mu_idempotencyKey : option string;
  mu_outboxPayload : option (list (string * JsVal));
  mu_outboxStatus : option SignerOperationStatus;
}.

Definition no_mutation : SignerMutationOptions := mkMutation None None None None None.

(** [{ ...base, ...extra }]. *)
Definition spread (base : list (string * JsVal)) (extra : option (list (string * JsVal)))
    : list (string * JsVal) :=
  fold_left (fun m e => mset e.1 e.2 m) (default [] extra) base.

Definition signerOutboxPayload (signer : AccountSignerRecord) (mutation : SignerMutationOptions)
    : list (string * JsVal) :=
  spread
    ([("profileId", JString (sg_profileId signer)); ("signerSlot", JInt (sg_signerSlot signer));
      ("signerType", JString (sg_signerType signer)); ("signerKind", JString (sg_signerKind signer));
      ("signerAuthMethod", JString (sg_signerAuthMethod signer));
      ("signerSource", JString (sg_signerSource signer))]
     ++ match sg_metadata signer with Some m => [("signerMetadata", JObject m)] | None => [] end)
    (mu_outboxPayload mutation).

(** The operation of an input, over the one that is stored. *)
Definition next_operation (input : EnqueueSignerOperationInput) (existing : option SignerOpOutboxRecord)
    (now : Z) : SignerOpOutboxRecord :=
  mkSignerOp (trim (en_opId input)) (trim (en_idempotencyKey input)) (en_opType input)
    (normalizeIndexedDbChainIdKey (JString (en_chainIdKey input)))
    (normalizeIndexedDbAccountAddress (JString (en_accountAddress input))) (trim (en_signerId input))
    (or_else (en_payload input) (existing ≫= op_payload))
    (default (default OpQueued (op_status <$> existing)) (en_status input))
    (default (default 0 (op_attemptCount <$> existing)) (en_attemptCount input))
    (default (default now (op_nextAttemptAt <$> existing)) (en_nextAttemptAt input))
    (or_else (en_lastError input) (existing ≫= op_lastError))
    (or_else (en_txHash input) (existing ≫= op_txHash))
    (default now (op_createdAt <$> existing)) now.

(** The row of an idempotency key; the index is unique. *)
Definition by_idempotency_key (idempotencyKey : string) (w : WalletDB) : JsVal :=
  default JUndefined (head (index_all "idempotency_key" idempotencyKey (wd_outbox w))).

Section Repository.
Context (clock : nat -> Z) (random : nat -> string).

Definition enqueueSignerOperationInTransaction (input : EnqueueSignerOperationInput)
    : M WalletDB SignerOpOutboxRecord :=
  let opId := trim (en_opId input) in
  let idempotencyKey := trim (en_idempotencyKey input) in
  let chainIdKey := normalizeIndexedDbChainIdKey (JString (en_chainIdKey input)) in
  let accountAddress := normalizeIndexedDbAccountAddress (JString (en_accountAddress input)) in
  let signerId := trim (en_signerId input) in
  if negb (nonempty opId && nonempty idempotencyKey && nonempty chainIdKey
           && nonempty accountAddress && nonempty signerId) then
    throw (JsError ("[SeamsWalletDB] opId, idempotencyKey, chainIdKey, accountAddress, " +:+
                    "and signerId are required"))
  else
    row <- get_row signerOpsOutbox opId ;;
    let existing := parseSignerOutboxRow row in
    known <- match existing with
             | Some _ => ret None
             | None => gets (fun w => parseSignerOutboxRow (by_idempotency_key idempotencyKey w))
             end ;;
    match known with
    | Some byIdempotency => ret byIdempotency
    | None =>
        now <- Date_now clock ;;
        let next := next_operation input existing now in
        row <- lift (signerOutboxRow next) ;;
        put_outbox row ;;
        ret next
    end.

Definition enqueueSignerOperation (input : EnqueueSignerOperationInput)
    : M WalletDB SignerOpOutboxRecord :=
  runTransaction (enqueueSignerOperationInTransaction input).

(** [lastError] and [txHash]: [None] keeps the stored text, [Some None] is [null]. *)
Definition replaced {A} (arg : option (option A)) (stored : option A) : option A :=
  match arg with None => stored | Some o => o end.

Definition setSignerOperationStatus (opId : string) (status : SignerOperationStatus)
    (attemptDelta nextAttemptAt : option Z) (lastError txHash : option (option string))
    : M WalletDB (option SignerOpOutboxRecord) :=
  let opId := trim opId in
  if negb (nonempty opId) then ret None
  else runTransaction
    (row <- get_row signerOpsOutbox opId ;;
     match parseSignerOutboxRow row with
     | None => ret None
     | Some existing =>
         now <- Date_now clock ;;
         let next :=
           mkSignerOp (op_opId existing) (op_idempotencyKey existing) (op_opType existing)
             (op_chainIdKey existing) (op_accountAddress existing) (op_signerId existing)
             (op_payload existing) status
             (Z.max 0 (op_attemptCount existing + default 0 attemptDelta))
             (default (op_nextAttemptAt existing) nextAttemptAt)
             (replaced lastError (op_lastError existing)) (replaced txHash (op_txHash existing))
             (op_createdAt existing) now in
         row <- lift (signerOutboxRow next) ;;
         put_outbox row ;;
         ret (Some next)
     end).

(** *** Activation *)

Record SignerAccount : Type := mkSignerAccount {
  ac_profileId : string;
  ac_chainIdKey : string;
  ac_accountAddress : string;
  ac_accountModel : string;
}.

Record SignerInput : Type := mkSignerInput {
  si_signerId : string;
  si_signerType : string;
  si_signerKind : string;
  si_signerAuthMethod : string;
  si_signerSource : string;
  si_metadata : option (list (string * JsVal));
}.

Record ActivateAccountSignerInput : Type := mkActivate {
  av_account : SignerAccount;
  av_signer : SignerInput;
  av_activationPolicy : SignerActivationPolicy;
  av_preferredSlot : JsVal;
  av_selectAsActive : option bool;
  av_mutation : SignerMutationOptions;
}.

(** The keys of an input after normalisation. *)
Definition ac_profile (a : SignerAccount) : string := trim (ac_profileId a).
Definition ac_chain (a : SignerAccount) : string :=
  normalizeIndexedDbChainIdKey (JString (ac_chainIdKey a)).
Definition ac_address (a : SignerAccount) : string :=
  normalizeIndexedDbAccountAddress (JString (ac_accountAddress a)).
Definition ac_model (a : SignerAccount) : string :=
  normalizeIndexedDbAccountModel (JString (ac_accountModel a)).

Definition signer_inputs_given (a : SignerAccount) (s : SignerInput) : bool :=
  nonempty (ac_profile a) && nonempty (ac_chain a) && nonempty (ac_address a) && nonempty (ac_model a)
  && nonempty (trim (si_signerId s)) && nonempty (si_signerKind s) && nonempty (si_signerAuthMethod s)
  && nonempty (si_signerSource s).

Definition MISSING_SIGNER_INPUTS : Exn :=
  JsError ("[SeamsWalletDB] profileId, chainIdKey, accountAddress, accountModel, signerId, " +:+
           "signerKind, signerAuthMethod, and signerSource are required").

Definition signersRetiredByActivationPolicy (allActiveSigners accountActiveSigners : list AccountSignerRecord)
    (profileId chainIdKey signerId : string) (policy : SignerActivationPolicy) : list AccountSignerRecord :=
  match policy with
  | ReplaceSlot signerSlot _ _ =>
      List.filter (fun s => strict_eq signerSlot (JInt (sg_signerSlot s)) && negb (has_signer_id signerId s))
        accountActiveSigners
  | ReplaceProfileChainKind _ replacedSignerKind _ =>
      List.filter (fun s => bool_decide (sg_profileId s = profileId) && bool_decide (sg_chainIdKey s = chainIdKey)
                            && bool_decide (sg_signerKind s = replacedSignerKind)
                            && negb (has_signer_id signerId s))
        allActiveSigners
  | _ => []
  end.

Definition activeSignersAfterReplacement (allActiveSigners accountActiveSigners : list AccountSignerRecord)
    (profileId chainIdKey signerId : string) (policy : SignerActivationPolicy) : list AccountSignerRecord :=
  let replacedSignerIds :=
    map sg_signerId (signersRetiredByActivationPolicy allActiveSigners accountActiveSigners
                       profileId chainIdKey signerId policy) in
  List.filter (fun s => negb (bool_decide (sg_signerId s ∈ replacedSignerIds))) accountActiveSigners.

Definition revocation_reason (policy : SignerActivationPolicy) : string :=
  match policy with
  | ReplaceSlot _ _ reason | ReplaceProfileChainKind _ _ reason => trim reason
  | _ => EmptyString
  end.

(** The record a retired signer is replaced by. *)
Definition revoked_signer (signer : AccountSignerRecord) (revocationReason : string) (now : Z)
    : AccountSignerRecord :=
  buildAccountSignerRecord
    (mkSigner (sg_profileId signer) (sg_chainIdKey signer) (sg_accountAddress signer)
       (sg_signerId signer) (sg_signerSlot signer) (sg_signerType signer) (sg_signerKind signer)
       (sg_signerAuthMethod signer) (sg_signerSource signer) SignerRevoked (sg_addedAt signer)
       (sg_updatedAt signer) (Some now) (Some revocationReason) (sg_metadata signer))
    (Some signer) now.

Definition revoke_signer (accountActiveSigners : list AccountSignerRecord) (revocationReason : string)
    (now : Z) (signer : AccountSignerRecord) : M WalletDB unit :=
  let revoked := revoked_signer signer revocationReason now in
  lift (assertSignerWriteInvariants revoked (Some (sg_status signer)) accountActiveSigners) ;;
  row <- lift (accountSignerRow revoked) ;;
  put_signer row.

Definition revokeSignersForReplacement (allActiveSigners accountActiveSigners : list AccountSignerRecord)
    (profileId chainIdKey signerId : string) (policy : SignerActivationPolicy) (now : Z) : M WalletDB unit :=
  forM (signersRetiredByActivationPolicy allActiveSigners accountActiveSigners profileId chainIdKey
          signerId policy)
    (revoke_signer accountActiveSigners (revocation_reason policy) now).

(** The chain account of a signer, written with every activation of a NEAR account and
    with every staging. *)
Definition write_chain_account (a : SignerAccount) (isPrimary : option ChainAccountRecord -> option bool)
    : M WalletDB unit :=
  row <- get_row nearAccountProjections (projection_key (ac_profile a) (ac_chain a) (ac_address a)) ;;
  let existing := parseChainAccountProjectionRow row in
  put_chain_account clock
    (mkChainAccountInput (ac_profile a) (ac_chain a) (ac_address a) (ac_model a) (isPrimary existing))
    existing ;;
  ret tt.

(** A signer's row is written over the rows that hold the same key. *)
Definition write_signer (signer : AccountSignerRecord) : M WalletDB unit :=
  signerRow <- lift (accountSignerRow signer) ;;
  deleteConflictingThresholdEcdsaSignerRows signerRow ;;
  put_signer signerRow.

Definition given_text (o : option string) : string := trim (default EmptyString o).

(** The operation that announces a signer. *)
Definition enqueue_for_signer (signer : AccountSignerRecord) (mutation : SignerMutationOptions)
    (routed : bool) (opType idempotencyKey : string) (payload : list (string * JsVal)) : M WalletDB unit :=
  if default routed (mu_routeThroughOutbox mutation) then
    opId <- (if nonempty (given_text (mu_opId mutation)) then ret (given_text (mu_opId mutation))
             else createRandomToken random opType) ;;
    let idempotencyKey :=
      if nonempty (given_text (mu_idempotencyKey mutation)) then given_text (mu_idempotencyKey mutation)
      else idempotencyKey in
    enqueueSignerOperationInTransaction
      (mkEnqueue opId idempotencyKey opType (sg_chainIdKey signer) (sg_accountAddress signer)
         (sg_signerId signer) (Some payload) (Some (default OpQueued (mu_outboxStatus mutation)))
         None None None None) ;;
    ret tt
  else ret tt.

Definition add_signer_key (signer : AccountSignerRecord) : string :=
  join ":" ["add-signer"; sg_chainIdKey signer; sg_accountAddress signer; sg_signerId signer;
            Z_to_string (sg_signerSlot signer)].

(** A signer row of the account, which must belong to the profile. *)
Definition existing_account_signer (a : SignerAccount) (signerId : string)
    : M WalletDB (option AccountSignerRecord) :=
  row <- get_row walletSigners (walletSignerId (ac_chain a) (ac_address a) signerId) ;;
  match parseAccountSignerRow row with
  | Some existing =>
      if bool_decide (sg_profileId existing = ac_profile a) then ret (Some existing)
      else throw (makeConstraintError "CHAIN_ACCOUNT_PROFILE_MISMATCH"
                    ("Signer row belongs to a different profile for " +:+ ac_chain a +:+ "/"
                     +:+ ac_address a +:+ "/" +:+ signerId))
  | None => ret None
  end.

Definition require_profile (profileId : string) : M WalletDB unit :=
  row <- get_row wallets profileId ;;
  match parseProfileRow row with
  | Some _ => ret tt
  | None => throw (makeConstraintError "MISSING_PROFILE"
                     ("Cannot upsert signer without profile row: " +:+ profileId))
  end.

(** The signer an input describes, in a slot and a status. *)
Definition described_signer (a : SignerAccount) (s : SignerInput) (signerSlot : Z)
    (status : AccountSignerStatus) : AccountSignerRecord :=
  mkSigner (ac_profile a) (ac_chain a) (ac_address a) (trim (si_signerId s)) signerSlot (si_signerType s)
    (si_signerKind s) (si_signerAuthMethod s) (si_signerSource s) status 0 0 None None (si_metadata s).

Definition activateAccountSignerInTransaction (input : ActivateAccountSignerInput)
    : M WalletDB (AccountSignerRecord * Z) :=
  let a := av_account input in
  let s := av_signer input in
  let policy := av_activationPolicy input in
  let signerId := trim (si_signerId s) in
  if negb (signer_inputs_given a s) then throw MISSING_SIGNER_INPUTS
  else
    require_profile (ac_profile a) ;;
    (when shouldWriteNearAccountProjection (ac_model a) (ac_chain a) do
       write_chain_account a (fun existing =>
         Some (if bool_decide (av_selectAsActive input = Some true) then true
               else default true (existing ≫= ca_isPrimary)))) ;;
    allActiveSigners <- gets active_signers ;;
    let activeSigners := account_signers (ac_chain a) (ac_address a) allActiveSigners in
    signerSlot <- lift (planAccountSignerActivation activeSigners
                          (mkPlannedSigner signerId (si_signerKind s) (si_signerAuthMethod s) (si_signerSource s))
                          policy (av_preferredSlot input)) ;;
    now <- Date_now clock ;;
    revokeSignersForReplacement allActiveSigners activeSigners (ac_profile a) (ac_chain a) signerId policy now ;;
    let activeSignersForInvariant :=
      activeSignersAfterReplacement allActiveSigners activeSigners (ac_profile a) (ac_chain a) signerId policy in
    existingSigner <- existing_account_signer a signerId ;;
    let signer := buildAccountSignerRecord (described_signer a s signerSlot SignerActive) existingSigner now in
    lift (assertSignerWriteInvariants signer (sg_status <$> existingSigner) activeSignersForInvariant) ;;
    write_signer signer ;;
    (when default true (av_selectAsActive input) do
       put_row appState LAST_PROFILE_STATE_APP_STATE_KEY
         (JObject [("key", JString LAST_PROFILE_STATE_APP_STATE_KEY);
                   ("value", JObject [("profileId", JString (ac_profile a));
                                      ("activeSignerSlot", JInt signerSlot)])])) ;;
    enqueue_for_signer signer (av_mutation input) false "add-signer" (add_signer_key signer)
      (signerOutboxPayload signer (av_mutation input)) ;;
    ret (signer, signerSlot).

Definition activateAccountSigner (input : ActivateAccountSignerInput)
    : M WalletDB (AccountSignerRecord * Z) :=
  runTransaction (activateAccountSignerInTransaction input).

(** *** Staging *)

Definition writePreparedAccountSigner (a : SignerAccount) (s : SignerInput) (status : AccountSignerStatus)
    (signerSlot : JsVal) (mutation : SignerMutationOptions) : M WalletDB (AccountSignerRecord * Z) :=
  let signerId := trim (si_signerId s) in
  if negb (signer_inputs_given a s) then throw MISSING_SIGNER_INPUTS
  else
    match safe_integer_value (js_Number signerSlot) with
    | None => throw (JsError "[SeamsWalletDB] signerSlot must be an integer >= 1")
    | Some slot =>
        if slot <? 1 then throw (JsError "[SeamsWalletDB] signerSlot must be an integer >= 1")
        else runTransaction
          (require_profile (ac_profile a) ;;
           write_chain_account a (fun existing => existing ≫= ca_isPrimary) ;;
           existingSigner <- existing_account_signer a signerId ;;
           activeSigners <- gets (fun w => account_signers (ac_chain a) (ac_address a) (active_signers w)) ;;
           now <- Date_now clock ;;
           let signer := buildAccountSignerRecord (described_signer a s slot status) existingSigner now in
           lift (assertSignerWriteInvariants signer (sg_status <$> existingSigner) activeSigners) ;;
           write_signer signer ;;
           enqueue_for_signer signer mutation false "add-signer" (add_signer_key signer)
             (signerOutboxPayload signer mutation) ;;
           ret (signer, slot))
    end.

Definition stageAccountSigner (a : SignerAccount) (s : SignerInput) (signerSlot : JsVal)
    (mutation : SignerMutationOptions) : M WalletDB (AccountSignerRecord * Z) :=
  writePreparedAccountSigner a s SignerPending signerSlot mutation.

(** *** Reading *)

Definition listAccountSigners (chainIdKey accountAddress : string) (status : option AccountSignerStatus)
    : M WalletDB (list AccountSignerRecord) :=
  let chainIdKey := normalizeIndexedDbChainIdKey (JString chainIdKey) in
  let accountAddress := normalizeIndexedDbAccountAddress (JString accountAddress) in
  if negb (nonempty chainIdKey && nonempty accountAddress) then ret []
  else gets (fun w =>
    account_signers chainIdKey accountAddress
      (parsed_rows parseAccountSignerRow
         match status with
         | Some status => index_all "status" (signer_status_string status) (wd_signers w)
         | None => tvalues (wd_signers w)
         end)).

Definition listAccountSignersByProfile (profileId : string) (status : option AccountSignerStatus)
    : M WalletDB (list AccountSignerRecord) :=
  let profileId := trim profileId in
  if negb (nonempty profileId) then ret []
  else gets (fun w =>
    List.filter (fun s => match status with Some st => bool_decide (sg_status s = st) | None => true end)
      (parsed_rows parseAccountSignerRow (index_all "wallet_id" profileId (wd_signers w)))).

Definition getAccountSigner (chainIdKey accountAddress signerId : string)
    : M WalletDB (option AccountSignerRecord) :=
  let chainIdKey := normalizeIndexedDbChainIdKey (JString chainIdKey) in
  let accountAddress := normalizeIndexedDbAccountAddress (JString accountAddress) in
  let signerId := trim signerId in
  if negb (nonempty chainIdKey && nonempty accountAddress && nonempty signerId) then ret None
  else row <- get_row walletSigners (walletSignerId chainIdKey accountAddress signerId) ;;
       ret (parseAccountSignerRow row).

(** *** Changing the status *)

Record SignerStatusChange : Type := mkStatusChange {
  sc_status : AccountSignerStatus;
  sc_removedAt : option Z;
  sc_revocationReason : option string;
  sc_mutation : SignerMutationOptions;
}.

(** The reads of [setAccountSignerStatus], which are not in its transaction. *)
Definition readForStatusChange (chainIdKey accountAddress signerId : string)
    : M WalletDB (option AccountSignerRecord) :=
  found <- getAccountSigner chainIdKey accountAddress signerId ;;
  match found with
  | None => ret None
  | Some existing =>
      chainAccount <- getChainAccount (sg_profileId existing) (sg_chainIdKey existing)
                        (sg_accountAddress existing) ;;
      match chainAccount with
      | Some _ => ret (Some existing)
      | None =>
          throw (makeConstraintError "MISSING_CHAIN_ACCOUNT"
                   ("Cannot update signer status without chain account row: "
                    +:+ sg_profileId existing +:+ "/" +:+ sg_chainIdKey existing +:+ "/"
                    +:+ sg_accountAddress existing))
      end
  end.

(** The record a status change writes, from the record that was read. *)
Definition changed_signer (existing : AccountSignerRecord) (change : SignerStatusChange) (now : Z)
    : AccountSignerRecord :=
  buildAccountSignerRecord
    (mkSigner (sg_profileId existing) (sg_chainIdKey existing) (sg_accountAddress existing)
       (sg_signerId existing) (sg_signerSlot existing) (sg_signerType existing) (sg_signerKind existing)
       (sg_signerAuthMethod existing) (sg_signerSource existing) (sc_status change)
       (sg_addedAt existing) (sg_updatedAt existing) (or_else (sc_removedAt change) (sg_removedAt existing))
       (or_else (sc_revocationReason change ≫= some_nonempty) (sg_revocationReason existing))
       (sg_metadata existing))
    (Some existing) now.

Definition status_payload (next : AccountSignerRecord) (mutation : SignerMutationOptions)
    : list (string * JsVal) :=
  spread
    ([("profileId", JString (sg_profileId next)); ("signerSlot", JInt (sg_signerSlot next));
      ("status", JString (signer_status_string (sg_status next)))]
     ++ opt_field "removedAt" (joptInt (sg_removedAt next))
     ++ opt_field "revocationReason" (jopt (sg_revocationReason next ≫= some_nonempty)))
    (mu_outboxPayload mutation).

(** The transaction of [setAccountSignerStatus]. *)
Definition writeStatusChange (existing : AccountSignerRecord) (change : SignerStatusChange)
    : M WalletDB AccountSignerRecord :=
  runTransaction
    (activeSigners <- gets (fun w => account_signers (sg_chainIdKey existing) (sg_accountAddress existing)
                                       (active_signers w)) ;;
     now <- Date_now clock ;;
     let next := changed_signer existing change now in
     lift (assertSignerWriteInvariants next (Some (sg_status existing)) activeSigners) ;;
     row <- lift (accountSignerRow next) ;;
     put_signer row ;;
     enqueue_for_signer next (sc_mutation change) true
       (if bool_decide (sc_status change = SignerRevoked) then "revoke-signer" else "add-signer")
       (join ":" ["signer-status"; signer_status_string (sc_status change); sg_chainIdKey next;
                  sg_accountAddress next; sg_signerId next])
       (status_payload next (sc_mutation change)) ;;
     ret next).

Definition setAccountSignerStatus (chainIdKey accountAddress signerId : string) (change : SignerStatusChange)
    : M WalletDB (option AccountSignerRecord) :=
  found <- readForStatusChange chainIdKey accountAddress signerId ;;
  match found with
  | None => ret None
  | Some existing => next <- writeStatusChange existing change ;; ret (Some next)
  end.
End Repository.
