(* ===== verification/WalletSignersInvariant.v ===== *)
(** * The invariant of the account signers

    In every state the database reaches, the rows of signers are rows the code wrote,
    under their own keys; the active signers of an account are in distinct slots unless
    a replacement retired a signer of the same id elsewhere ([retires_by_id]); and a
    revoked signer stays revoked. *)

From S2P Require Import Prelude ListFacts JsValues ChainTarget SignerRows ProfileRows SignerActivation SignerOutbox IdbTables WalletDB WalletSigners.
Local Open Scope Z_scope.
Local Open Scope js_scope.

(** ** The signer table *)

Definition signer_key (s : AccountSignerRecord) : string :=
  walletSignerId (sg_chainIdKey s) (sg_accountAddress s) (sg_signerId s).

(** A row the code wrote, under its key. *)
Definition written_row (k : string) (row : JsVal) : Prop :=
  k = key_of "wallet_signer_id" row /\ exists r, accountSignerRow r = Ok row.

Definition same_account (s1 s2 : AccountSignerRecord) : Prop :=
  sg_chainIdKey s1 = sg_chainIdKey s2 /\ sg_accountAddress s1 = sg_accountAddress s2.

Record signers_inv (t : Table string JsVal) : Prop := {
  si_wf : twf t;
  si_written : forall k row, (k, row) ∈ t -> written_row k row;
}.

(** No two active signers of an account are in the same slot. *)
Definition slots_distinct (t : Table string JsVal) : Prop :=
  forall k1 row1 s1 k2 row2 s2,
    (k1, row1) ∈ t -> (k2, row2) ∈ t ->
    parseAccountSignerRow row1 = Some s1 -> parseAccountSignerRow row2 = Some s2 ->
    sg_status s1 = SignerActive -> sg_status s2 = SignerActive ->
    same_account s1 s2 -> sg_signerSlot s1 = sg_signerSlot s2 -> k1 = k2.

(** The signer that is read under a key. *)
Definition signer_at (t : Table string JsVal) (k : string) : option AccountSignerRecord :=
  row ← tget k t; parseAccountSignerRow row.

Lemma parsed_row_key row s :
  parseAccountSignerRow row = Some s -> key_of "wallet_signer_id" row = signer_key s.
Proof. unfold key_of. intros (_ & -> & _)%parseAccountSignerRow_sound. done. Qed.

Lemma table_key t k row s :
  signers_inv t -> (k, row) ∈ t -> parseAccountSignerRow row = Some s -> k = signer_key s.
Proof. intros I Hin Hp. destruct (si_written _ I _ _ Hin) as [-> _]. by apply parsed_row_key. Qed.

Lemma signer_at_iff t k s :
  signers_inv t ->
  signer_at t k = Some s <-> exists row, (k, row) ∈ t /\ parseAccountSignerRow row = Some s.
Proof.
  intros I. unfold signer_at. rewrite bind_Some.
  split; intros (row & H & Hp); exists row; (split; [|done]); [by apply tget_elem|].
  apply elem_tget; [apply I|done].
Qed.

Lemma active_signers_elem w s :
  signers_inv (wd_signers w) ->
  s ∈ active_signers w <-> signer_at (wd_signers w) (signer_key s) = Some s /\ sg_status s = SignerActive.
Proof.
  intros I. unfold active_signers, parsed_rows. rewrite list_elem_of_omap. split.
  - intros (row & [[k Hin] Hs]%index_all_elem & Hp). split.
    + apply signer_at_iff; [done|]. exists row. split; [|done].
      by rewrite <- (table_key _ _ _ _ I Hin Hp).
    + apply parseAccountSignerRow_sound in Hp as (_ & _ & _ & _ & Hs').
      rewrite Hs in Hs'. by destruct (sg_status s).
  - intros [(row & Hin & Hp)%signer_at_iff Ha]; [|done]. exists row. split; [|done].
    apply index_all_elem. split; [eauto|].
    apply parseAccountSignerRow_sound in Hp as (_ & _ & _ & _ & ->). by rewrite Ha.
Qed.

Lemma account_signers_elem chain addr l s :
  s ∈ account_signers chain addr l <-> s ∈ l /\ sg_chainIdKey s = chain /\ sg_accountAddress s = addr.
Proof.
  unfold account_signers, of_account.
  rewrite list_elem_of_In, filter_In, <- list_elem_of_In, andb_true_iff, !bool_decide_eq_true. tauto.
Qed.

(** The rows of [t'] are rows of [t], or written rows of signers that are not active. *)
Definition only_revokes (t t' : Table string JsVal) : Prop :=
  twf t' /\
  forall k row, (k, row) ∈ t' -> (k, row) ∈ t \/
    (written_row k row /\ forall s, parseAccountSignerRow row = Some s -> sg_status s <> SignerActive).

Lemma only_revokes_refl t : twf t -> only_revokes t t.
Proof. intros H. split; [done|]. by left. Qed.

Lemma only_revokes_trans t1 t2 t3 : only_revokes t1 t2 -> only_revokes t2 t3 -> only_revokes t1 t3.
Proof.
  intros [_ H12] [Hwf H23]. split; [done|]. intros k row [Hin|?]%H23; [by apply H12|by right].
Qed.

Lemma only_revokes_inv t t' : signers_inv t -> only_revokes t t' -> signers_inv t'.
Proof.
  intros I [Hwf H]. split; [done|]. intros k row [?|[? _]]%H; [by apply I|done].
Qed.

Lemma only_revokes_slots t t' : slots_distinct t -> only_revokes t t' -> slots_distinct t'.
Proof.
  intros Hd [_ H] k1 row1 s1 k2 row2 s2 H1 H2 Hp1 Hp2 Ha1 Ha2.
  destruct (H _ _ H1) as [?|[_ Hr]]; [|by apply Hr in Hp1].
  destruct (H _ _ H2) as [?|[_ Hr]]; [|by apply Hr in Hp2]. by eapply Hd.
Qed.

Lemma tdel_only_revokes k t : twf t -> only_revokes t (tdel k t).
Proof. intros H. split; [by apply tdel_wf|]. intros k' row [_ ?]%elem_tdel. by left. Qed.

(** A written row reads back as the record it was written for, its keys normalised. *)
Lemma written_parse r row s :
  accountSignerRow r = Ok row -> parseAccountSignerRow row = Some s -> s = stored_signer r.
Proof. intros Hr. rewrite (parse_written_row _ _ Hr). case_match; congruence. Qed.

Lemma tput_only_revokes r row t :
  twf t -> accountSignerRow r = Ok row -> sg_status r <> SignerActive ->
  only_revokes t (tput (key_of "wallet_signer_id" row) row t).
Proof.
  intros Hwf Hr Hs. split; [by apply tput_wf|].
  intros k row' [[-> ->]|[_ ?]]%elem_tput; [right|by left]. split; [by split; [|exists r]|].
  intros s ->%(written_parse _ _ _ Hr). done.
Qed.

Lemma tput_inv r row t :
  signers_inv t -> accountSignerRow r = Ok row -> signers_inv (tput (key_of "wallet_signer_id" row) row t).
Proof.
  intros I Hr. split; [by apply tput_wf, I|].
  intros k row' [[-> ->]|[_ ?]]%elem_tput; [|by apply I]. split; [done|]. by exists r.
Qed.

(** The slot check against the signers of the table keeps the slots distinct. *)
Lemma tput_active_slots r row t :
  slots_distinct t -> accountSignerRow r = Ok row ->
  (forall k row' s, (k, row') ∈ t -> parseAccountSignerRow row' = Some s -> sg_status s = SignerActive ->
     k <> key_of "wallet_signer_id" row -> same_account s (stored_signer r) ->
     sg_signerSlot s <> sg_signerSlot r) ->
  slots_distinct (tput (key_of "wallet_signer_id" row) row t).
Proof.
  intros I Hr Hslot k1 row1 s1 k2 row2 s2 H1 H2 Hp1 Hp2 Ha1 Ha2 Hacc Hs.
  apply elem_tput in H1 as [[-> ->]|[Hn1 H1]], H2 as [[-> ->]|[Hn2 H2]]; [done|..].
  - pose proof (written_parse _ _ _ Hr Hp1) as ->. exfalso.
    apply (Hslot _ _ _ H2 Hp2 Ha2 Hn2); [by destruct Hacc; split|]. by rewrite <- Hs.
  - pose proof (written_parse _ _ _ Hr Hp2) as ->. exfalso.
    by apply (Hslot _ _ _ H1 Hp1 Ha1 Hn1).
  - by eapply I.
Qed.

(** A row of a signer that is not active holds no ECDSA key. *)
Lemma inactive_row_no_key r row next :
  accountSignerRow r = Ok row -> sg_status r <> SignerActive -> same_ecdsa_key row next = false.
Proof.
  intros (m & _ & -> & _)%accountSignerRow_inv Hs.
  destruct (signer_row_fields (trim (sg_signerKind r)) (stored_signer r) m) as
    (_ & _ & _ & _ & _ & _ & Hk & He & _). unfold same_ecdsa_key. rewrite Hk, He.
  unfold active_value. replace (isActiveSigner (stored_signer r)) with false.
  - by destruct (jget "key_handle" next), (jget "ecdsa_threshold_key_id" next).
  - symmetry. by apply bool_decide_eq_false.
Qed.

(** ** What the operations do to the signer table *)

(** The operation leaves the signer table and the profiles alone. *)
Definition keeps_signers (w w' : WalletDB) : Prop :=
  wd_signers w' = wd_signers w /\ wd_wallets w' = wd_wallets w.

#[global] Instance keeps_signers_preorder : PreOrder keeps_signers.
Proof. split; [by intros ?|]. intros w1 w2 w3 [? ?] [? ?]. split; congruence. Qed.

Lemma wp_bind_keeps {A B} (m : M WalletDB A) (k : A -> M WalletDB B) Q w :
  steps keeps_signers m ->
  (forall a w1, keeps_signers w w1 -> wp (k a) Q (fun _ _ => True) w1) ->
  wp (bind m k) Q (fun _ _ => True) w.
Proof.
  intros Hm Hk. apply wp_bind. eapply wp_mono; [by apply steps_wp| |done].
  intros a w1 H. by apply Hk.
Qed.

Section Effects.
Context (clock : nat -> Z) (random : nat -> string).

Lemma put_projection_keeps r : steps keeps_signers (put_projection r).
Proof. by apply steps_modify. Qed.

Lemma Date_now_keeps : steps keeps_signers (Date_now clock).
Proof. by intros w. Qed.

Lemma createRandomToken_keeps prefix : steps keeps_signers (createRandomToken random prefix).
Proof. by intros w. Qed.

Lemma put_outbox_keeps row : steps keeps_signers (put_outbox row).
Proof.
  unfold put_outbox. apply steps_bind; [apply _|by intros w|]. intros t.
  apply steps_bind; [apply _|by intros w|]. intros t'. by apply steps_modify.
Qed.

Lemma put_appState_keeps k row : steps keeps_signers (put_row appState k row).
Proof. by apply steps_modify. Qed.

Lemma get_row_keeps {K} `{EqDecision K} store (k : K) : steps keeps_signers (get_row store k).
Proof. by intros w. Qed.

Hint Resolve put_projection_keeps Date_now_keeps createRandomToken_keeps put_outbox_keeps
  put_appState_keeps get_row_keeps : steps.

Lemma put_chain_account_keeps input existing : steps keeps_signers (put_chain_account clock input existing).
Proof. unfold put_chain_account. steps_tac. Qed.
Hint Resolve put_chain_account_keeps : steps.

Lemma write_chain_account_keeps a p : steps keeps_signers (write_chain_account clock a p).
Proof. unfold write_chain_account. steps_tac. Qed.

Lemma enqueue_keeps input : steps keeps_signers (enqueueSignerOperationInTransaction clock input).
Proof. unfold enqueueSignerOperationInTransaction. steps_tac. Qed.
Hint Resolve enqueue_keeps : steps.

Lemma enqueue_for_signer_keeps s mu b ty key p :
  steps keeps_signers (enqueue_for_signer clock random s mu b ty key p).
Proof. unfold enqueue_for_signer. steps_tac. Qed.

Lemma require_profile_keeps p : steps keeps_signers (require_profile p).
Proof. unfold require_profile. steps_tac. Qed.

Lemma existing_account_signer_keeps a id : steps keeps_signers (existing_account_signer a id).
Proof. unfold existing_account_signer. steps_tac. Qed.

Lemma runTransaction_keeps {A} (m : M WalletDB A) :
  steps keeps_signers m -> steps keeps_signers (runTransaction m).
Proof. intros H w. specialize (H w). unfold runTransaction. by destruct (m w) as [[]]. Qed.

Lemma unset_primary_keeps chain addr row : steps keeps_signers (unset_primary clock chain addr row).
Proof. unfold unset_primary. steps_tac. Qed.
Hint Resolve unset_primary_keeps : steps.

Lemma upsertChainAccount_keeps input : steps keeps_signers (upsertChainAccount clock input).
Proof. unfold upsertChainAccount. case_match; [steps_tac|]. apply runTransaction_keeps. steps_tac. Qed.

Lemma setSignerOperationStatus_keeps id st d n e h :
  steps keeps_signers (setSignerOperationStatus clock id st d n e h).
Proof. unfold setSignerOperationStatus. case_match; [steps_tac|]. apply runTransaction_keeps. steps_tac. Qed.

(** *** Writing a signer *)

Lemma put_signer_wp row w :
  wp (put_signer row)
    (fun _ w' => wd_signers w' = tput (key_of "wallet_signer_id" row) row (wd_signers w) /\
                 wd_wallets w' = wd_wallets w)
    (fun _ _ => True) w.
Proof.
  unfold put_signer, wp, bind, lift, deref, assign, gets, modify. simpl.
  destruct (put_unique _ _ _ _) as [t'|e] eqn:Hp; [|done]. simpl. split; [|done].
  by apply put_unique_ok in Hp.
Qed.

Definition delete_rows (ks : list string) (t : Table string JsVal) : Table string JsVal :=
  fold_left (fun t k => tdel k t) ks t.

Lemma delete_rows_wp ks w :
  wp (forM ks (delete_row walletSigners))
    (fun _ w' => wd_signers w' = delete_rows ks (wd_signers w) /\ wd_wallets w' = wd_wallets w)
    (fun _ _ => True) w.
Proof.
  revert w. induction ks as [|k ks IH]; intros w; simpl; [done|].
  apply wp_bind. apply wp_modify. simpl.
  eapply wp_mono; [apply IH| |done]. by intros [] w' [-> ->].
Qed.

Lemma delete_rows_spec ks t :
  twf t -> twf (delete_rows ks t) /\
  forall k, tget k (delete_rows ks t) = if decide (k ∈ ks) then None else tget k t.
Proof.
  revert t. induction ks as [|k0 ks IH]; intros t Hwf; cbn [delete_rows fold_left]; [split; [done|]|].
  - intros k. by rewrite decide_False by set_solver.
  - destruct (IH (tdel k0 t)) as [H1 H2]; [by apply tdel_wf|]. split; [done|].
    intros k. rewrite H2, tget_tdel by done. repeat case_decide; set_solver.
Qed.

(** The rows a row takes the place of. *)
Definition conflicting_keys (row : JsVal) (t : Table string JsVal) : list string :=
  if negb (strict_eq (jget "kind" row) (JString KIND_ECDSA))
     || strict_eq (jget "status" row) (JString "revoked") then []
  else if negb (truthy (jget "key_handle" row)) || negb (truthy (jget "ecdsa_threshold_key_id" row)) then []
  else omap (conflicting_row row) (index_all "wallet_id" (key_of "wallet_id" row) t).

Definition written_table (row : JsVal) (t : Table string JsVal) : Table string JsVal :=
  tput (key_of "wallet_signer_id" row) row (delete_rows (conflicting_keys row t) t).

Lemma write_signer_wp signer w :
  wp (write_signer signer)
    (fun _ w' => exists row, accountSignerRow signer = Ok row /\
       wd_signers w' = written_table row (wd_signers w) /\ wd_wallets w' = wd_wallets w)
    (fun _ _ => True) w.
Proof.
  unfold write_signer. apply wp_bind. unfold lift, wp at 1.
  destruct (accountSignerRow signer) as [row|e]; [|done]. apply wp_bind.
  eapply wp_mono with (Q := fun _ w' =>
    wd_signers w' = delete_rows (conflicting_keys row (wd_signers w)) (wd_signers w) /\
    wd_wallets w' = wd_wallets w) (E := fun _ _ => True); [| |done].
  - unfold deleteConflictingThresholdEcdsaSignerRows, conflicting_keys.
    case_match; [done|]. case_match; [done|].
    apply wp_bind, wp_gets. apply delete_rows_wp.
  - intros [] w1 [H1 H2]. eapply wp_mono; [apply put_signer_wp| |done].
    intros [] w2 [H3 H4]. exists row. split_and!; [done| |congruence].
    unfold written_table. by rewrite H3, H1.
Qed.
End Effects.
#[export] Hint Resolve put_projection_keeps Date_now_keeps createRandomToken_keeps put_outbox_keeps
  put_appState_keeps @get_row_keeps put_chain_account_keeps write_chain_account_keeps enqueue_keeps
  enqueue_for_signer_keeps require_profile_keeps existing_account_signer_keeps : steps.

(** *** Revoking the signers a policy retires *)

Definition revoked_row (reason : string) (now : Z) (s : AccountSignerRecord) : JsVal :=
  match accountSignerRow (revoked_signer s reason now) with Ok row => row | Throw _ => JUndefined end.

Definition revoke_rows (reason : string) (now : Z) (l : list AccountSignerRecord)
    (t : Table string JsVal) : Table string JsVal :=
  fold_left (fun t s => tput (signer_key s) (revoked_row reason now s) t) l t.

(** The rows of the revoked records can be written. *)
Definition can_revoke (reason : string) (now : Z) (l : list AccountSignerRecord) : Prop :=
  forall s, s ∈ l -> accountSignerRow (revoked_signer s reason now) = Ok (revoked_row reason now s).

Lemma record_ok_stored_key s :
  signer_record_ok s = true -> forall r, sg_chainIdKey r = sg_chainIdKey s ->
  sg_accountAddress r = sg_accountAddress s -> sg_signerId r = sg_signerId s ->
  signer_key (stored_signer r) = signer_key s.
Proof.
  intros (_ & H2 & H3 & H4)%signer_record_keys r Hc Ha Hi. unfold stored_key_ok, stored_text_ok in *.
  split_andb. rewrite !bool_decide_eq_true in *. unfold signer_key, stored_signer. simpl.
  unfold normalizeIndexedDbChainIdKey, normalizeIndexedDbAccountAddress. rewrite Hc, Ha, Hi. congruence.
Qed.

Lemma row_key r row :
  accountSignerRow r = Ok row -> key_of "wallet_signer_id" row = signer_key (stored_signer r).
Proof. intros [H _]%accountSignerRow_key. unfold key_of. by rewrite H. Qed.

Lemma revoked_row_key reason now s row :
  signer_record_ok s = true -> accountSignerRow (revoked_signer s reason now) = Ok row ->
  key_of "wallet_signer_id" row = signer_key s.
Proof. intros Hok Hr. rewrite (row_key _ _ Hr). by apply record_ok_stored_key. Qed.

Lemma revoke_all_wp acc reason now l w :
  (forall s, s ∈ l -> signer_record_ok s = true) ->
  wp (forM l (revoke_signer acc reason now))
    (fun _ w' => can_revoke reason now l /\ wd_signers w' = revoke_rows reason now l (wd_signers w) /\
                 wd_wallets w' = wd_wallets w)
    (fun _ _ => True) w.
Proof.
  revert w. induction l as [|s l IH]; intros w Hl; simpl.
  - split_and!; [|done..]. intros s Hs. set_solver.
  - apply wp_bind. unfold revoke_signer. apply wp_bind. unfold lift at 1, wp at 1.
    destruct (assertSignerWriteInvariants _ _ _); [|done]. apply wp_bind. unfold lift, wp at 1.
    destruct (accountSignerRow (revoked_signer s reason now)) as [row|] eqn:Hr; [|done].
    eapply wp_mono; [apply put_signer_wp| |done]. intros [] w1 [H1 H1'].
    eapply wp_mono; [apply IH; set_solver| |done]. intros [] w2 (H2 & H3 & H4).
    assert (revoked_row reason now s = row) as Hrow by (unfold revoked_row; by rewrite Hr).
    split_and!; [|by rewrite H3, H1, (revoked_row_key _ _ _ _ (Hl s ltac:(set_solver)) Hr), Hrow|congruence].
    intros s' [->|Hs']%elem_of_cons; [by rewrite Hrow|]. by apply H2.
Qed.

Lemma revoke_rows_only_revokes reason now l t :
  twf t -> (forall s, s ∈ l -> signer_record_ok s = true) -> can_revoke reason now l ->
  only_revokes t (revoke_rows reason now l t).
Proof.
  revert t. induction l as [|s l IH]; intros t Hwf Hok Hl; simpl; [by apply only_revokes_refl|].
  assert (Hs : accountSignerRow (revoked_signer s reason now) = Ok (revoked_row reason now s))
    by (apply Hl; set_solver).
  eapply only_revokes_trans; [|apply IH].
  - rewrite <- (revoked_row_key reason now s _ (Hok s ltac:(set_solver)) Hs).
    by eapply tput_only_revokes.
  - by apply tput_wf.
  - intros. apply Hok. set_solver.
  - intros s' ?. apply Hl. set_solver.
Qed.

Lemma revoke_rows_spec reason now l t :
  twf t -> (forall s s', s ∈ l -> s' ∈ l -> signer_key s = signer_key s' -> s = s') ->
  twf (revoke_rows reason now l t) /\
  (forall s, s ∈ l -> tget (signer_key s) (revoke_rows reason now l t) = Some (revoked_row reason now s)) /\
  (forall k, (forall s, s ∈ l -> signer_key s <> k) -> tget k (revoke_rows reason now l t) = tget k t).
Proof.
  revert t. induction l as [|s l IH]; intros t Hwf Hinj; simpl; [split_and!; [done|set_solver|done]|].
  destruct (IH (tput (signer_key s) (revoked_row reason now s) t)) as (H1 & H2 & H3).
  - by apply tput_wf.
  - intros ????. apply Hinj; set_solver.
  - split_and!; [done| |].
    + intros s' [->|Hs']%elem_of_cons; [|by apply H2].
      destruct (decide (signer_key s ∈ signer_key <$> l)) as [Hin|Hin].
      * apply list_elem_of_fmap in Hin as (s' & Hk & Hs').
        apply Hinj in Hk; [subst; by apply H2|set_solver..].
      * rewrite H3; [by rewrite tget_tput, decide_True|].
        intros s' Hs' Hk. apply Hin, list_elem_of_fmap. by exists s'.
    + intros k Hk. rewrite H3 by (intros; apply Hk; set_solver).
      rewrite tget_tput by done. rewrite decide_False; [done|]. intros ->.
      by eapply (Hk s); [set_solver|].
Qed.

(** *** Activation *)

Section Operations.
Context (clock : nat -> Z) (random : nat -> string).

(** The signers of an input's account, and those its policy retires. *)
Definition input_account_signers (input : ActivateAccountSignerInput) (w : WalletDB) :=
  account_signers (ac_chain (av_account input)) (ac_address (av_account input)) (active_signers w).

Definition input_signer_id (input : ActivateAccountSignerInput) : string :=
  trim (si_signerId (av_signer input)).

Definition retired_signers (input : ActivateAccountSignerInput) (w : WalletDB) : list AccountSignerRecord :=
  signersRetiredByActivationPolicy (active_signers w) (input_account_signers input w)
    (ac_profile (av_account input)) (ac_chain (av_account input)) (input_signer_id input)
    (av_activationPolicy input).

Definition remaining_signers (input : ActivateAccountSignerInput) (w : WalletDB) : list AccountSignerRecord :=
  activeSignersAfterReplacement (active_signers w) (input_account_signers input w)
    (ac_profile (av_account input)) (ac_chain (av_account input)) (input_signer_id input)
    (av_activationPolicy input).

Definition planned_signer (input : ActivateAccountSignerInput) : PlannedSigner :=
  mkPlannedSigner (input_signer_id input) (si_signerKind (av_signer input))
    (si_signerAuthMethod (av_signer input)) (si_signerSource (av_signer input)).

(** The key of the signer an input names. *)
Definition input_key (a : SignerAccount) (signerId : string) : string :=
  walletSignerId (ac_chain a) (ac_address a) signerId.

(** What a successful activation did to the signer table: the signers its policy
    retires are revoked, and the planned signer is written over the rows that hold the
    same key. *)
Definition activated (input : ActivateAccountSignerInput) (w w' : WalletDB) (now : Z)
    (signer : AccountSignerRecord) (signerSlot : Z) : Prop :=
  let reason := revocation_reason (av_activationPolicy input) in
  let revoked := revoke_rows reason now (retired_signers input w) (wd_signers w) in
  let existing := signer_at revoked (input_key (av_account input) (input_signer_id input)) in
  planAccountSignerActivation (input_account_signers input w) (planned_signer input)
    (av_activationPolicy input) (av_preferredSlot input) = Ok signerSlot /\
  can_revoke reason now (retired_signers input w) /\
  (forall e, existing = Some e -> sg_profileId e = ac_profile (av_account input)) /\
  signer = buildAccountSignerRecord
    (described_signer (av_account input) (av_signer input) signerSlot SignerActive) existing now /\
  assertSignerWriteInvariants signer (sg_status <$> existing) (remaining_signers input w) = Ok tt /\
  (exists row, accountSignerRow signer = Ok row /\ wd_signers w' = written_table row revoked) /\
  wd_wallets w' = wd_wallets w.

Lemma keeps_active_signers w w' : keeps_signers w w' -> active_signers w' = active_signers w.
Proof. intros [H _]. unfold active_signers. by rewrite H. Qed.

Lemma active_record_ok w s :
  signers_inv (wd_signers w) -> s ∈ active_signers w -> signer_record_ok s = true.
Proof.
  intros I [Hs _]%active_signers_elem; [|done].
  apply signer_at_iff in Hs as (row & _ & Hp); [|done]. by apply parseAccountSignerRow_sound in Hp as [? _].
Qed.

Lemma retired_active input w s :
  s ∈ retired_signers input w -> s ∈ active_signers w /\ sg_signerId s <> input_signer_id input.
Proof.
  unfold retired_signers, signersRetiredByActivationPolicy, has_signer_id.
  destruct (av_activationPolicy input); try set_solver;
    rewrite list_elem_of_In, filter_In, <- list_elem_of_In, !andb_true_iff, negb_true_iff,
      bool_decide_eq_false.
  - intros [[? _]%account_signers_elem [_ ?]]. done.
  - intros [? [_ ?]]. done.
Qed.

Lemma existing_account_signer_wp a signerId w :
  wp (existing_account_signer a signerId)
    (fun existing w' => w' = w /\ existing = signer_at (wd_signers w) (input_key a signerId) /\
       forall e, existing = Some e -> sg_profileId e = ac_profile a)
    (fun _ _ => True) w.
Proof.
  unfold existing_account_signer. apply wp_bind, wp_gets. simpl. unfold signer_at, input_key.
  destruct (tget _ _) as [row|]; simpl.
  - destruct (parseAccountSignerRow row) as [e|]; [|by apply wp_ret].
    case_bool_decide; [|done]. apply wp_ret. split_and!; [done|done|]. by intros ? [= <-].
  - by apply wp_ret.
Qed.

Lemma activateAccountSignerInTransaction_effect input w :
  signers_inv (wd_signers w) ->
  wp (activateAccountSignerInTransaction clock random input)
    (fun r w' => exists n, activated input w w' (clock n) r.1 r.2)
    (fun _ _ => True) w.
Proof.
  intros I. unfold activateAccountSignerInTransaction. case_match; [done|].
  apply wp_bind_keeps; [auto with steps|]. intros _ w1 K1.
  apply wp_bind_keeps; [steps_tac|]. intros _ w2 K2.
  apply wp_bind, wp_gets. apply wp_bind. unfold lift at 1, wp at 1.
  assert (K : keeps_signers w w2) by by etransitivity. clear K1 K2.
  rewrite (keeps_active_signers _ _ K).
  destruct (planAccountSignerActivation _ _ _ _) as [slot|] eqn:Hplan; [|done].
  apply wp_bind. unfold Date_now, wp at 1. set (now := clock (wd_reading w2)).
  set (w3 := bump_reading w2). assert (K' : keeps_signers w w3) by by destruct K.
  apply wp_bind. eapply wp_mono; [apply revoke_all_wp| |done].
  { intros s [Hs _]%(retired_active input). by eapply active_record_ok. }
  intros _ w4 (Hcan & Hrev & Hwal). apply wp_bind.
  eapply wp_mono; [apply existing_account_signer_wp| |done]. intros existing ? (-> & Hex & Hprof).
  apply wp_bind. unfold lift at 1, wp at 1.
  destruct (assertSignerWriteInvariants _ _ _) as [[]|] eqn:Has; [|done].
  apply wp_bind. eapply wp_mono; [apply write_signer_wp| |done].
  intros _ w5 (row & Hrow & Hsig & Hwal').
  apply wp_bind_keeps; [steps_tac|]. intros _ w6 K6.
  apply wp_bind_keeps; [auto with steps|]. intros _ w7 K7.
  assert (K5 : keeps_signers w5 w7) by by etransitivity.
  apply wp_ret. exists (wd_reading w2). destruct K' as [Hs Hw], K5 as [Hs' Hw'].
  rewrite Hs in Hrev. rewrite Hrev in Hex. subst existing.
  split_and!; [done|done|done|done|done| |congruence].
  exists row. split; [done|]. rewrite Hs', Hsig, Hrev. done.
Qed.
End Operations.

(** ** Distinct slots *)

Lemma delete_rows_only_revokes ks t : twf t -> only_revokes t (delete_rows ks t).
Proof.
  revert t. induction ks as [|k ks IH]; intros t H; simpl; [by apply only_revokes_refl|].
  eapply only_revokes_trans; [by apply tdel_only_revokes|]. apply IH. by apply tdel_wf.
Qed.

Lemma conflicting_slot_none next l :
  conflicting_slot next l = None ->
  forall s, s ∈ l -> sg_signerId s <> sg_signerId next -> sg_signerSlot s <> sg_signerSlot next.
Proof.
  unfold conflicting_slot. intros H s Hs Hid Hslot.
  apply list_elem_of_In in Hs. pose proof (List.find_none _ _ H _ Hs) as Hf. simpl in Hf.
  rewrite bool_decide_false in Hf by done. simpl in Hf. lia.
Qed.

Lemma checked_slot next st l :
  assertSignerWriteInvariants next st l = Ok tt -> sg_status next = SignerActive ->
  conflicting_slot next l = None.
Proof.
  unfold assertSignerWriteInvariants, isActiveSigner. intros H Ha. rewrite Ha in H. simpl in H.
  repeat (case_match; try done).
Qed.

(** A record whose keys are normalised. *)
Definition normal_keys (r : AccountSignerRecord) : Prop :=
  sg_chainIdKey r = sg_chainIdKey (stored_signer r) /\
  sg_accountAddress r = sg_accountAddress (stored_signer r) /\
  sg_signerId r = sg_signerId (stored_signer r).

(** Writing a checked signer keeps the slots distinct, if the check saw every active
    signer of its account. *)
Definition saw_account (r : AccountSignerRecord) (l : list AccountSignerRecord)
    (t : Table string JsVal) : Prop :=
  forall s, signer_at t (signer_key s) = Some s -> sg_status s = SignerActive -> same_account s r ->
    sg_signerId s <> sg_signerId r -> s ∈ l.

Lemma checked_put_slots r row st l t :
  signers_inv t -> slots_distinct t -> accountSignerRow r = Ok row -> normal_keys r ->
  assertSignerWriteInvariants r st l = Ok tt -> saw_account r l t ->
  slots_distinct (tput (key_of "wallet_signer_id" row) row t).
Proof.
  intros I Hd Hr (Hc & Ha & Hi) Has Hl.
  destruct (decide (sg_status r = SignerActive)) as [Hst|Hst].
  - apply (tput_active_slots r); [done..|]. intros k row' s Hin Hp Hs Hk [Hsc Hsa] Hslot.
    assert (Hid : sg_signerId s <> sg_signerId r).
    { intros E. apply Hk. rewrite (table_key _ _ _ _ I Hin Hp), (row_key _ _ Hr). unfold signer_key. congruence. }
    eapply (conflicting_slot_none r l); [by eapply checked_slot| |done|done].
    apply Hl; [|done|by split; congruence|done]. apply signer_at_iff; [done|].
    rewrite <- (table_key _ _ _ _ I Hin Hp). eauto.
  - eapply only_revokes_slots; [done|]. apply tput_only_revokes with (r := r); [apply I|done|done].
Qed.

Lemma delete_rows_at ks t k s :
  twf t -> signer_at (delete_rows ks t) k = Some s -> signer_at t k = Some s /\ k ∉ ks.
Proof.
  intros H. unfold signer_at. rewrite (proj2 (delete_rows_spec ks t H)). by case_decide.
Qed.

Lemma written_table_inv r row t :
  signers_inv t -> accountSignerRow r = Ok row -> signers_inv (written_table row t).
Proof.
  intros I Hr. eapply tput_inv; [|done]. eapply only_revokes_inv; [done|]. apply delete_rows_only_revokes, I.
Qed.

Lemma written_table_slots r row st l t :
  signers_inv t -> slots_distinct t -> accountSignerRow r = Ok row -> normal_keys r ->
  assertSignerWriteInvariants r st l = Ok tt -> saw_account r l t ->
  slots_distinct (written_table row t).
Proof.
  intros I Hd Hr Hn Has Hl.
  assert (only_revokes t (delete_rows (conflicting_keys row t) t)) as Hdel
    by apply delete_rows_only_revokes, I.
  eapply checked_put_slots; [by eapply only_revokes_inv|by eapply only_revokes_slots|done..|].
  intros s [Hs _]%delete_rows_at; [|apply I]. by apply Hl.
Qed.

(** The signers that share an id with a retired one are retired.  It holds for every
    policy but [replace_profile_chain_kind]; there it says that an active signer of the
    account does not share its id with a retired signer of another account. *)
Definition retires_by_id (input : ActivateAccountSignerInput) (w : WalletDB) : Prop :=
  forall s s', s ∈ input_account_signers input w -> s' ∈ retired_signers input w ->
    sg_signerId s = sg_signerId s' -> s ∈ retired_signers input w.

Lemma same_key_same_signer w s s' :
  signers_inv (wd_signers w) -> s ∈ active_signers w -> s' ∈ active_signers w ->
  signer_key s = signer_key s' -> s = s'.
Proof.
  intros I [Hs _]%active_signers_elem [Hs' _]%active_signers_elem Hk; [|done..]. congruence.
Qed.

Lemma retires_by_id_account input w :
  signers_inv (wd_signers w) ->
  (forall slot kind reason, av_activationPolicy input <> ReplaceProfileChainKind slot kind reason) ->
  retires_by_id input w.
Proof.
  intros I Hp s s' Hs Hs' Hid.
  assert (s' ∈ input_account_signers input w) as Hacc.
  { unfold retired_signers, signersRetiredByActivationPolicy in Hs'.
    destruct (av_activationPolicy input) eqn:E; try set_solver.
    by apply list_elem_of_In, filter_In in Hs' as [?%list_elem_of_In _]. }
  apply account_signers_elem in Hs as (Ha & Hc & Hd), Hacc as (Ha' & Hc' & Hd').
  enough (s = s') by congruence. apply (same_key_same_signer w); [done..|].
  unfold signer_key. congruence.
Qed.

Lemma described_normal a s slot st existing now :
  normal_keys (buildAccountSignerRecord (described_signer a s slot st) existing now).
Proof.
  unfold normal_keys. simpl. unfold ac_chain, ac_address, normalizeIndexedDbChainIdKey, normalizeIndexedDbAccountAddress.
  rewrite !normalizeLowercaseString_idem, trim_idem. done.
Qed.

Lemma retired_keys_inj input w :
  signers_inv (wd_signers w) ->
  forall s s', s ∈ retired_signers input w -> s' ∈ retired_signers input w ->
    signer_key s = signer_key s' -> s = s'.
Proof.
  intros I s s' [Hs _]%retired_active [Hs' _]%retired_active. by apply (same_key_same_signer w).
Qed.

Lemma revoked_table_only_revokes reason now input w :
  signers_inv (wd_signers w) -> can_revoke reason now (retired_signers input w) ->
  only_revokes (wd_signers w) (revoke_rows reason now (retired_signers input w) (wd_signers w)).
Proof.
  intros I Hcan. apply revoke_rows_only_revokes; [apply I| |done].
  intros s [Hs _]%retired_active. by eapply active_record_ok.
Qed.

Lemma revoked_table_inv reason now input w :
  signers_inv (wd_signers w) -> can_revoke reason now (retired_signers input w) ->
  signers_inv (revoke_rows reason now (retired_signers input w) (wd_signers w)).
Proof. intros I Hcan. eapply only_revokes_inv; [done|by apply revoked_table_only_revokes]. Qed.

(** An active signer of the revoked table was active before and is not retired. *)
Lemma revoked_table_active reason now input w s :
  signers_inv (wd_signers w) -> can_revoke reason now (retired_signers input w) ->
  signer_at (revoke_rows reason now (retired_signers input w) (wd_signers w)) (signer_key s) = Some s ->
  sg_status s = SignerActive ->
  s ∈ active_signers w /\ s ∉ retired_signers input w.
Proof.
  intros I Hcan Hat Hs.
  destruct (revoke_rows_spec reason now (retired_signers input w) (wd_signers w)) as (_ & Hret & Hkeep);
    [apply I|by apply retired_keys_inj|].
  assert (Hno : forall s', s' ∈ retired_signers input w -> signer_key s' <> signer_key s).
  { intros s' Hs' Hk. unfold signer_at in Hat. rewrite <- Hk, (Hret _ Hs') in Hat. simpl in Hat.
    pose proof (written_parse _ _ _ (Hcan _ Hs') Hat) as ->. done. }
  split; [|intros Hin; by eapply Hno].
  apply active_signers_elem; [done|]. split; [|done]. unfold signer_at in *. by rewrite Hkeep in Hat.
Qed.

Lemma activated_inv input w w' now signer slot :
  signers_inv (wd_signers w) -> activated input w w' now signer slot -> signers_inv (wd_signers w').
Proof.
  intros I (_ & Hcan & _ & _ & _ & (row & Hrow & ->) & _).
  eapply written_table_inv; [by apply revoked_table_inv|done].
Qed.

Lemma activated_slots input w w' now signer slot :
  signers_inv (wd_signers w) -> slots_distinct (wd_signers w) -> retires_by_id input w ->
  activated input w w' now signer slot -> slots_distinct (wd_signers w').
Proof.
  intros I Hd Hid (_ & Hcan & _ & -> & Has & (row & Hrow & ->) & _).
  eapply written_table_slots; [by apply revoked_table_inv| |done|apply described_normal|done|].
  { eapply only_revokes_slots; [done|by apply revoked_table_only_revokes]. }
  intros s Hat Hs [Hc Ha] Hne. destruct (revoked_table_active _ _ _ _ _ I Hcan Hat Hs) as [Hact Hret].
  unfold remaining_signers, activeSignersAfterReplacement.
  assert (Hin : s ∈ input_account_signers input w).
  { apply account_signers_elem. done. }
  rewrite list_elem_of_In, filter_In, <- list_elem_of_In, negb_true_iff, bool_decide_eq_false.
  split; [done|]. intros (s' & E & Hs')%list_elem_of_fmap. apply Hret. by eapply Hid.
Qed.

(** *** Staging and status changes *)

Section Writes.
Context (clock : nat -> Z) (random : nat -> string).

(** What a successful staging did. *)
Definition staged (a : SignerAccount) (s : SignerInput) (status : AccountSignerStatus) (w w' : WalletDB)
    (now : Z) (signer : AccountSignerRecord) (slot : Z) : Prop :=
  let existing := signer_at (wd_signers w) (input_key a (trim (si_signerId s))) in
  signer = buildAccountSignerRecord (described_signer a s slot status) existing now /\
  (forall e, existing = Some e -> sg_profileId e = ac_profile a) /\
  assertSignerWriteInvariants signer (sg_status <$> existing)
    (account_signers (ac_chain a) (ac_address a) (active_signers w)) = Ok tt /\
  (exists row, accountSignerRow signer = Ok row /\ wd_signers w' = written_table row (wd_signers w)) /\
  wd_wallets w' = wd_wallets w.

Lemma runTransaction_wp {A} (m : M WalletDB A) Q w :
  wp m Q (fun _ _ => True) w -> wp (runTransaction m) Q (fun _ w' => exists w1, w' = roll_back w w1) w.
Proof. unfold wp, runTransaction. destruct (m w) as [[a|e] w']; [done|]. eauto. Qed.

Lemma writePreparedAccountSigner_effect a s status slot mutation w :
  wp (writePreparedAccountSigner clock random a s status slot mutation)
    (fun r w' => exists now, staged a s status w w' now r.1 r.2)
    (fun _ w' => keeps_signers w w') w.
Proof.
  unfold writePreparedAccountSigner. case_match; [done|]. case_match; [|done]. case_match; [done|].
  eapply wp_mono; [apply runTransaction_wp with (Q := fun r w' => exists now, staged a s status w w' now r.1 r.2)
                  |done|by intros e w' [w1 ->]].
  apply wp_bind_keeps; [auto with steps|]. intros _ w1 K1.
  apply wp_bind_keeps; [auto with steps|]. intros _ w2 K2.
  assert (K : keeps_signers w w2) by by etransitivity. clear K1 K2.
  apply wp_bind. eapply wp_mono; [apply existing_account_signer_wp| |done].
  intros existing ? (-> & Hex & Hprof). apply wp_bind, wp_gets. rewrite (keeps_active_signers _ _ K).
  apply wp_bind_keeps; [auto with steps|]. intros now w3 K3.
  apply wp_bind. unfold lift at 1, wp at 1.
  destruct (assertSignerWriteInvariants _ _ _) as [[]|] eqn:Has; [|done].
  apply wp_bind. eapply wp_mono; [apply write_signer_wp| |done].
  intros _ w4 (row & Hrow & Hsig & Hwal). apply wp_bind_keeps; [auto with steps|]. intros _ w5 [K5 K5'].
  apply wp_ret. exists now. destruct K as [Hs Hw], K3 as [Hs3 Hw3]. rewrite Hs in Hex. subst existing.
  split_and!; [done|done|done| |congruence]. exists row. split; [done|]. congruence.
Qed.

Lemma staged_inv a s status w w' now signer slot :
  signers_inv (wd_signers w) -> staged a s status w w' now signer slot -> signers_inv (wd_signers w').
Proof. intros I (_ & _ & _ & (row & Hrow & ->) & _). by eapply written_table_inv. Qed.

Lemma staged_slots a s status w w' now signer slot :
  signers_inv (wd_signers w) -> slots_distinct (wd_signers w) ->
  staged a s status w w' now signer slot -> slots_distinct (wd_signers w').
Proof.
  intros I Hd (-> & _ & Has & (row & Hrow & ->) & _).
  eapply written_table_slots; [done|done|done|apply described_normal|done|].
  intros x Hx Hs [Hc Ha] _. apply account_signers_elem. split; [|done]. by apply active_signers_elem.
Qed.

(** What a successful status change did, from the record that was read. *)
Definition status_changed (existing : AccountSignerRecord) (change : SignerStatusChange) (w w' : WalletDB)
    (now : Z) (next : AccountSignerRecord) : Prop :=
  next = changed_signer existing change now /\
  assertSignerWriteInvariants next (Some (sg_status existing))
    (account_signers (sg_chainIdKey existing) (sg_accountAddress existing) (active_signers w)) = Ok tt /\
  (exists row, accountSignerRow next = Ok row /\
     wd_signers w' = tput (key_of "wallet_signer_id" row) row (wd_signers w)) /\
  wd_wallets w' = wd_wallets w.

Lemma writeStatusChange_effect existing change w :
  wp (writeStatusChange clock random existing change)
    (fun next w' => exists n, status_changed existing change w w' (clock n) next)
    (fun _ w' => keeps_signers w w') w.
Proof.
  unfold writeStatusChange.
  eapply wp_mono; [apply runTransaction_wp with
    (Q := fun next w' => exists n, status_changed existing change w w' (clock n) next)|done|by intros e w' [w1 ->]].
  apply wp_bind, wp_gets. apply wp_bind. unfold Date_now, wp at 1.
  set (w1 := bump_reading w).
  apply wp_bind. unfold lift at 1, wp at 1.
  destruct (assertSignerWriteInvariants _ _ _) as [[]|] eqn:Has; [|done].
  apply wp_bind. unfold lift at 1, wp at 1.
  destruct (accountSignerRow _) as [row|] eqn:Hrow; [|done].
  apply wp_bind. eapply wp_mono; [apply put_signer_wp| |done]. intros _ w2 [Hs Hw].
  apply wp_bind_keeps; [auto with steps|]. intros _ w3 [Hs' Hw'].
  apply wp_ret. exists (wd_reading w). split_and!; [done|done| |by rewrite Hw', Hw].
  exists row. split; [done|]. by rewrite Hs', Hs.
Qed.

Lemma changed_normal existing change now :
  signer_record_ok existing = true -> normal_keys (changed_signer existing change now).
Proof.
  intros H. pose proof (stored_signer_id _ H) as E. unfold normal_keys, changed_signer. simpl.
  split_and!; change (?x = ?y) with (x = y).
  - transitivity (sg_chainIdKey (stored_signer existing)); [by rewrite E|done].
  - transitivity (sg_accountAddress (stored_signer existing)); [by rewrite E|done].
  - transitivity (sg_signerId (stored_signer existing)); [by rewrite E|done].
Qed.

Lemma status_changed_inv existing change w w' now next :
  signers_inv (wd_signers w) -> status_changed existing change w w' now next -> signers_inv (wd_signers w').
Proof. intros I (_ & _ & (row & Hrow & ->) & _). by eapply tput_inv. Qed.

Lemma status_changed_slots existing change w w' now next :
  signers_inv (wd_signers w) -> slots_distinct (wd_signers w) -> signer_record_ok existing = true ->
  status_changed existing change w w' now next -> slots_distinct (wd_signers w').
Proof.
  intros I Hd Hok (-> & Has & (row & Hrow & ->) & _).
  eapply checked_put_slots; [done|done|done|by apply changed_normal|done|].
  intros x Hx Hs [Hc Ha] _. apply account_signers_elem. split; [|done]. by apply active_signers_elem.
Qed.
End Writes.

(** ** Keys survive trimming *)

Lemma trim_start_length s : (String.length (trim_start s) <= String.length s)%nat.
Proof. induction s as [|a s IH]; simpl; [lia|]. case_match; simpl; lia. Qed.

Lemma trim_end_length s : (String.length (trim_end s) <= String.length s)%nat.
Proof. induction s as [|a s IH]; simpl; [lia|]. repeat case_match; simpl in *; lia. Qed.

Lemma trimmed_parts s : trim s = s -> trim_start s = s /\ trim_end s = s.
Proof.
  intros H. assert (trim_start s = s) as E; [|split; [done|]].
  - destruct s as [|a s]; [done|]. simpl. destruct (is_js_space a) eqn:Ha; [|done]. exfalso.
    unfold trim in H. simpl in H. rewrite Ha in H.
    pose proof (trim_end_length (trim_start s)). pose proof (trim_start_length s).
    rewrite H in *. simpl in *. lia.
  - unfold trim in H. by rewrite E in H.
Qed.

Lemma trim_start_app s t : trim_start s = s -> nonempty s = true -> trim_start (s +:+ t) = s +:+ t.
Proof.
  destruct s as [|a s]; simpl; [done|]. destruct (is_js_space a) eqn:Ha; [|done].
  intros H. pose proof (trim_start_length s). rewrite H in *. simpl in *. lia.
Qed.

Lemma signer_key_trim s : signer_record_ok s = true -> trim (signer_key s) = signer_key s.
Proof.
  intros (_ & H2 & _ & H4)%signer_record_keys. unfold stored_key_ok, stored_text_ok in *.
  split_andb. rewrite !bool_decide_eq_true in *. unfold signer_key, walletSignerId. cbn [join].
  assert (trim (sg_chainIdKey s) = sg_chainIdKey s) as Hc.
  { match goal with H : normalizeLowercaseString _ = _ |- _ => rename H into E end.
    unfold normalizeLowercaseString, normalizeTrimmedString in E. simpl in E.
    rewrite <- E at 1. by rewrite to_lower_trim, trim_idem. }
  apply trimmed_parts in Hc as [Hc _].
  match goal with H : trim (sg_signerId s) = _ |- _ => apply trimmed_parts in H as [_ Hi] end.
  unfold trim. rewrite trim_start_app by done.
  rewrite trim_end_app; [done| |].
  - done.
  - apply trim_end_app; [by destruct (sg_accountAddress s)|]. apply trim_end_app; [done|].
    by apply trim_end_app.
Qed.

(** ** Revoked signers *)

Lemma conflicting_row_some row raw k :
  conflicting_row row raw = Some k ->
  exists s, parseAccountSignerRow raw = Some s /\ k = signer_key s /\
    k <> key_of "wallet_signer_id" row /\ same_ecdsa_key raw row = true.
Proof.
  unfold conflicting_row. destruct (parseAccountSignerRow raw) as [s|] eqn:Hp; [|done].
  pose proof (parseAccountSignerRow_sound _ _ Hp) as (Hok & Hk & _). rewrite Hk.
  assert (trim (js_String (or_empty (JString (walletSignerId (sg_chainIdKey s) (sg_accountAddress s)
            (sg_signerId s))))) = signer_key s) as ->.
  { rewrite <- (signer_key_trim s Hok). f_equal. unfold signer_key. by destruct (walletSignerId _ _ _). }
  destruct (_ || _) eqn:E; [done|]. apply orb_false_iff in E as [_ E]. apply bool_decide_eq_false in E.
  destruct (_ || _); [done|]. destruct (same_ecdsa_key raw row); [|done].
  intros [= <-]. by exists s.
Qed.

Lemma conflicting_keys_row row t k :
  k ∈ conflicting_keys row t -> exists k' raw, (k', raw) ∈ t /\ conflicting_row row raw = Some k.
Proof.
  unfold conflicting_keys. repeat (case_match; [set_solver|]).
  intros (raw & [[k' Hin] _]%index_all_elem & Hc)%list_elem_of_omap. by exists k', raw.
Qed.

Lemma inactive_not_conflicting row t k s :
  signers_inv t -> signer_at t k = Some s -> sg_status s <> SignerActive -> k ∉ conflicting_keys row t.
Proof.
  intros I (raw & Hin & Hp)%signer_at_iff Hs Hk; [|done].
  apply conflicting_keys_row in Hk as (k' & raw' & Hin' & (s' & Hp' & -> & _ & Hsame)%conflicting_row_some).
  pose proof (table_key _ _ _ _ I Hin' Hp') as ->.
  pose proof (elem_tget _ _ _ (si_wf _ I) Hin) as G. pose proof (elem_tget _ _ _ (si_wf _ I) Hin') as G'.
  assert (raw' = raw) as -> by congruence.
  destruct (si_written _ I _ _ Hin) as [_ [r Hr]].
  pose proof (written_parse _ _ _ Hr Hp) as ->.
  rewrite (inactive_row_no_key _ _ row Hr Hs) in Hsame. done.
Qed.

(** Every signer that is revoked in [t] is revoked in [t']. *)
Definition keeps_revoked (t t' : Table string JsVal) : Prop :=
  forall k s, signer_at t k = Some s -> sg_status s = SignerRevoked ->
    exists s', signer_at t' k = Some s' /\ sg_status s' = SignerRevoked.

Lemma checked_revoked next l :
  assertSignerWriteInvariants next (Some SignerRevoked) l = Ok tt -> sg_status next = SignerRevoked.
Proof.
  unfold assertSignerWriteInvariants, isActiveSigner. destruct (sg_status next); simpl; intros H; [..|done];
    repeat (case_match; try done).
Qed.

Lemma written_keeps_revoked r row l t :
  signers_inv t -> accountSignerRow r = Ok row -> normal_keys r -> sg_status r <> SignerRevoked ->
  assertSignerWriteInvariants r (sg_status <$> signer_at t (signer_key r)) l = Ok tt ->
  keeps_revoked t (written_table row t).
Proof.
  intros I Hr (Hc & Ha & Hi) Hs Has k s Hat Hrev. exists s. split; [|done].
  assert (key_of "wallet_signer_id" row = signer_key r) as Hkey.
  { rewrite (row_key _ _ Hr). unfold signer_key. congruence. }
  assert (k <> signer_key r).
  { intros ->. rewrite Hat in Has. simpl in Has. rewrite Hrev in Has. by apply checked_revoked in Has. }
  unfold signer_at, written_table. rewrite tget_tput by (by apply delete_rows_spec, I).
  rewrite decide_False by congruence. rewrite (proj2 (delete_rows_spec _ _ (si_wf _ I))).
  rewrite decide_False; [done|]. eapply inactive_not_conflicting; [done|done|congruence].
Qed.

Lemma described_key a s slot st existing now :
  signer_key (buildAccountSignerRecord (described_signer a s slot st) existing now)
  = input_key a (trim (si_signerId s)).
Proof. done. Qed.

Lemma staged_keeps_revoked a s w w' now signer slot :
  signers_inv (wd_signers w) -> staged a s SignerPending w w' now signer slot ->
  keeps_revoked (wd_signers w) (wd_signers w').
Proof.
  intros I (-> & _ & Has & (row & Hrow & ->) & _).
  by eapply written_keeps_revoked; [done|done|apply described_normal|done|rewrite described_key].
Qed.

Lemma activated_keeps_revoked input w w' now signer slot :
  signers_inv (wd_signers w) -> activated input w w' now signer slot ->
  keeps_revoked (wd_signers w) (wd_signers w').
Proof.
  intros I (_ & Hcan & _ & -> & Has & (row & Hrow & ->) & _) k s Hat Hrev.
  pose proof (revoked_table_inv _ _ _ _ I Hcan) as I'.
  eapply (written_keeps_revoked _ row); [done|done|apply described_normal|done| |  |done].
  - by rewrite described_key.
  - destruct (revoke_rows_spec (revocation_reason (av_activationPolicy input)) now
      (retired_signers input w) (wd_signers w)) as (_ & _ & Hkeep); [apply I|by apply retired_keys_inj|].
    unfold signer_at in *. rewrite Hkeep; [done|]. intros s' [Hs' _]%retired_active <-.
    apply active_signers_elem in Hs' as [Hs' Ha]; [|done]. unfold signer_at in Hs'. congruence.
Qed.

Lemma changed_signer_ok existing change now :
  signer_record_ok existing = true -> stored_integer_ok 0 now = true ->
  match sc_removedAt change with Some z => stored_integer_ok 0 z | None => true end = true ->
  signer_record_ok (changed_signer existing change now) = true /\
  stored_signer (changed_signer existing change now) = changed_signer existing change now.
Proof.
  intros Hok Hnow Hrem. assert (H : signer_record_ok (changed_signer existing change now) = true).
  { unfold signer_record_ok, changed_signer in *. simpl. split_andb.
    repeat (rewrite andb_true_iff; split); try done.
    match goal with H : match sg_removedAt _ with _ => _ end = true |- _ => revert H Hrem end.
    destruct (bool_decide (sc_status change = SignerRevoked)); [|done].
    destruct (sc_removedAt change), (sg_removedAt existing); done. }
  split; [done|]. by apply stored_signer_id.
Qed.

Lemma status_changed_keeps_revoked existing change w w' now next :
  signers_inv (wd_signers w) -> signer_record_ok existing = true ->
  signer_at (wd_signers w) (signer_key existing) = Some existing ->
  stored_integer_ok 0 now = true ->
  match sc_removedAt change with Some z => stored_integer_ok 0 z | None => true end = true ->
  status_changed existing change w w' now next -> keeps_revoked (wd_signers w) (wd_signers w').
Proof.
  intros I Hok Hex Hnow Hrem (-> & Has & (row & Hrow & ->) & _) k s Hat Hrev.
  destruct (changed_signer_ok existing change now Hok Hnow Hrem) as [Hok' Hid].
  unfold signer_at. rewrite tget_tput by apply I.
  assert (key_of "wallet_signer_id" row = signer_key existing) as Hkey by by rewrite (row_key _ _ Hrow), Hid.
  case_decide as Hk; [|by exists s].
  rewrite Hkey in Hk. subst k. rewrite Hex in Hat. simplify_eq. rewrite Hrev in Has.
  simpl. rewrite (parse_written_row _ _ Hrow), Hid, Hok'. exists (changed_signer s change now).
  split; [done|]. by apply checked_revoked in Has.
Qed.

Lemma revoked_signer_ok s reason now :
  signer_record_ok s = true -> stored_integer_ok 0 now = true ->
  signer_record_ok (revoked_signer s reason now) = true.
Proof.
  unfold signer_record_ok, revoked_signer. simpl. intros H Hnow. split_andb.
  by repeat (rewrite andb_true_iff; split).
Qed.

(** What an activation leaves of the other signers. *)
Record others_after (input : ActivateAccountSignerInput) (now : Z) (signer : AccountSignerRecord)
    (t t' : Table string JsVal) (retired : list AccountSignerRecord) : Prop := {
  oa_retired : forall s, s ∈ retired -> signer_key s <> signer_key signer ->
    signer_at t' (signer_key s) =
      Some (revoked_signer s (revocation_reason (av_activationPolicy input)) now);
  oa_others : forall k, k <> signer_key signer -> (forall s, s ∈ retired -> signer_key s <> k) ->
    tget k t' = tget k t \/
    tget k t' = None /\ exists raw row s, tget k t = Some raw /\ parseAccountSignerRow raw = Some s /\
      sg_status s = SignerActive /\ accountSignerRow signer = Ok row /\ same_ecdsa_key raw row = true;
}.

Lemma activated_others input w w' now signer slot :
  signers_inv (wd_signers w) -> stored_integer_ok 0 now = true ->
  activated input w w' now signer slot ->
  others_after input now signer (wd_signers w) (wd_signers w') (retired_signers input w).
Proof.
  intros I Hnow (_ & Hcan & _ & Hsig & _ & (row & Hrow & ->) & _).
  pose proof (revoked_table_inv _ _ _ _ I Hcan) as I'.
  set (reason := revocation_reason (av_activationPolicy input)) in *.
  set (t1 := revoke_rows reason now (retired_signers input w) (wd_signers w)) in *.
  destruct (revoke_rows_spec reason now (retired_signers input w) (wd_signers w)) as (Hwf & Hret & Hkeep);
    [apply I|by apply retired_keys_inj|].
  assert (Hkey : key_of "wallet_signer_id" row = signer_key signer).
  { rewrite (row_key _ _ Hrow), Hsig. unfold signer_key.
    destruct (described_normal (av_account input) (av_signer input) slot SignerActive
      (signer_at t1 (input_key (av_account input) (input_signer_id input))) now) as (-> & -> & ->). done. }
  assert (Hget : forall k, k <> signer_key signer -> k ∉ conflicting_keys row t1 ->
            tget k (written_table row t1) = tget k t1).
  { intros k Hk Hc. unfold written_table. rewrite tget_tput by (by apply delete_rows_spec).
    rewrite decide_False by congruence. rewrite (proj2 (delete_rows_spec _ _ Hwf)). by rewrite decide_False. }
  split.
  - intros s Hs Hk. pose proof (retired_active _ _ _ Hs) as [Hact _].
    assert (Hat : signer_at t1 (signer_key s) = Some (revoked_signer s reason now)).
    { unfold signer_at, t1. rewrite (Hret _ Hs). simpl. pose proof (Hcan _ Hs) as Hr.
      pose proof (revoked_signer_ok s reason now (active_record_ok _ _ I Hact) Hnow) as Hok.
      by rewrite (parse_written_row _ _ Hr), (stored_signer_id _ Hok), Hok. }
    unfold signer_at. rewrite Hget; [done|done|]. by eapply inactive_not_conflicting.
  - intros k Hk Hno. rewrite <- (Hkeep k Hno).
    destruct (decide (k ∈ conflicting_keys row t1)) as [Hin|Hin]; [right|left; by apply Hget].
    split.
    + unfold written_table. rewrite tget_tput by (by apply delete_rows_spec). rewrite decide_False by congruence.
      rewrite (proj2 (delete_rows_spec _ _ Hwf)). by rewrite decide_True.
    + pose proof Hin as Hin'.
      apply conflicting_keys_row in Hin as (k' & raw & Hraw & (s & Hp & -> & _ & Hsame)%conflicting_row_some).
      pose proof (table_key _ _ _ _ I' Hraw Hp) as ->. exists raw, row, s.
      split_and!; [by apply elem_tget|done| |done|done].
      destruct (decide (sg_status s = SignerActive)) as [|Hs]; [done|].
      exfalso. eapply (inactive_not_conflicting row t1 (signer_key s) s); [done| |done|done].
      apply signer_at_iff; [done|]. eauto.
Qed.
