(* ===== verification/WalletSignersReachable.v ===== *)
(** * What the wallet database reaches

    The calls of clients in any order, from an empty database: the active signers of an
    account are in distinct slots (with an exception, [slots_collide_by_id]), an
    activation does what its policy says or nothing, a revoked signer stays revoked, and an operation of the outbox is enqueued once. *)

From S2P Require Import Prelude ListFacts JsValues ChainTarget SignerRows ProfileRows SignerActivation SignerOutbox IdbTables WalletDB WalletSigners WalletSignersInvariant.
Local Open Scope Z_scope.
Local Open Scope js_scope.

(** ** The outbox *)

Record outbox_inv (t : Table string JsVal) : Prop := {
  oi_wf : twf t;
  oi_written : forall k row, (k, row) ∈ t ->
    k = key_of "op_id" row /\ exists r, signerOutboxRow r = Ok row;
  oi_unique : indexes_unique signerOpsOutbox_indexes t;
}.

(** The operation keeps the invariant of the outbox. *)
Definition outbox_kept (w w' : WalletDB) : Prop :=
  outbox_inv (wd_outbox w) -> outbox_inv (wd_outbox w').

#[global] Instance outbox_kept_preorder : PreOrder outbox_kept.
Proof. split; [by intros w H|]. intros w1 w2 w3 H12 H23 H. auto. Qed.

Lemma same_outbox_kept w w' : wd_outbox w' = wd_outbox w -> outbox_kept w w'.
Proof. by intros E H; rewrite E. Qed.

Section Outbox.
Context (clock : nat -> Z) (random : nat -> string).

Lemma put_op_kept {A} r (x : A) :
  steps outbox_kept (row <- lift (signerOutboxRow r) ;; put_outbox row ;; ret x).
Proof.
  intros w. unfold bind at 1, lift at 1. destruct (signerOutboxRow r) as [row|] eqn:Hr; [|by intros ?].
  unfold put_outbox, bind, deref, gets, lift, assign, modify, ret. simpl.
  destruct (put_unique _ _ _ _) as [t'|] eqn:Hp; [|by intros ?]. intros I. simpl in *.
  pose proof (put_unique_ok _ _ _ _ _ Hp) as ->. split.
  - by apply tput_wf, I.
  - intros k row' [[-> ->]|[_ ?]]%elem_tput; [|by apply I]. split; [done|]. by exists r.
  - by eapply put_unique_unique; [apply I|].
Qed.
Hint Resolve put_op_kept : steps.

Lemma get_row_outbox {K} `{EqDecision K} store (k : K) : steps outbox_kept (get_row store k).
Proof. by intros w. Qed.
Lemma Date_now_outbox : steps outbox_kept (Date_now clock).
Proof. intros w. by apply same_outbox_kept. Qed.
Lemma createRandomToken_outbox p : steps outbox_kept (createRandomToken random p).
Proof. intros w. by apply same_outbox_kept. Qed.
Hint Resolve @get_row_outbox Date_now_outbox createRandomToken_outbox : steps.

Lemma enqueue_outbox input : steps outbox_kept (enqueueSignerOperationInTransaction clock input).
Proof.
  unfold enqueueSignerOperationInTransaction. case_match; [steps_tac|].
  apply steps_bind; [apply _|auto with steps|]. intros row.
  apply steps_bind; [apply _|destruct (parseSignerOutboxRow row); steps_tac|].
  intros [byIdempotency|]; [steps_tac|]. apply steps_bind; [apply _|auto with steps|]. intros now.
  apply put_op_kept.
Qed.
Hint Resolve enqueue_outbox : steps.

Lemma enqueue_for_signer_outbox s mu b ty key p :
  steps outbox_kept (enqueue_for_signer clock random s mu b ty key p).
Proof. unfold enqueue_for_signer. steps_tac. Qed.

Lemma runTransaction_outbox {A} (m : M WalletDB A) :
  steps outbox_kept m -> steps outbox_kept (runTransaction m).
Proof.
  intros H w. specialize (H w). unfold runTransaction.
  destruct (m w) as [[a|e] w']; [done|by apply same_outbox_kept].
Qed.

Lemma put_row_outbox {K} `{EqDecision K} `{!KeyOrder K} (store : Ref WalletDB (Table K JsVal)) (k : K) row :
  (forall t w, wd_outbox (rset store t w) = wd_outbox w) -> steps outbox_kept (put_row store k row).
Proof. intros H. apply steps_modify. intros w. by apply same_outbox_kept. Qed.

Lemma put_signer_outbox row : steps outbox_kept (put_signer row).
Proof.
  unfold put_signer. apply steps_bind; [apply _|by intros w|]. intros t.
  apply steps_bind; [apply _|by intros w|]. intros t'. apply steps_modify. intros w. by apply same_outbox_kept.
Qed.

Lemma delete_signer_outbox k : steps outbox_kept (delete_row walletSigners k).
Proof. apply steps_modify. intros w. by apply same_outbox_kept. Qed.
Hint Resolve put_signer_outbox delete_signer_outbox enqueue_for_signer_outbox : steps.

Lemma write_signer_outbox s : steps outbox_kept (write_signer s).
Proof. unfold write_signer, deleteConflictingThresholdEcdsaSignerRows. steps_tac. Qed.

Lemma put_projection_outbox r : steps outbox_kept (put_projection r).
Proof. by apply put_row_outbox. Qed.
Hint Resolve write_signer_outbox put_projection_outbox : steps.

Lemma put_chain_account_outbox input existing : steps outbox_kept (put_chain_account clock input existing).
Proof. unfold put_chain_account. steps_tac. Qed.
Hint Resolve put_chain_account_outbox : steps.

Lemma write_chain_account_outbox a p : steps outbox_kept (write_chain_account clock a p).
Proof. unfold write_chain_account. steps_tac. Qed.

Lemma require_profile_outbox p : steps outbox_kept (require_profile p).
Proof. unfold require_profile. steps_tac. Qed.

Lemma existing_account_signer_outbox a id : steps outbox_kept (existing_account_signer a id).
Proof. unfold existing_account_signer. steps_tac. Qed.

Lemma revoke_signer_outbox acc reason now s : steps outbox_kept (revoke_signer acc reason now s).
Proof. unfold revoke_signer. steps_tac. Qed.

Lemma put_appState_outbox k row : steps outbox_kept (put_row appState k row).
Proof. by apply put_row_outbox. Qed.
Hint Resolve write_chain_account_outbox require_profile_outbox existing_account_signer_outbox
  revoke_signer_outbox put_appState_outbox : steps.

Lemma activate_outbox input : steps outbox_kept (activateAccountSigner clock random input).
Proof.
  apply runTransaction_outbox. unfold activateAccountSignerInTransaction, revokeSignersForReplacement.
  steps_tac.
Qed.

Lemma stage_outbox a s slot mu : steps outbox_kept (stageAccountSigner clock random a s slot mu).
Proof.
  unfold stageAccountSigner, writePreparedAccountSigner.
  case_match; [steps_tac|]. case_match; [|steps_tac].
  case_match; [steps_tac|]. apply runTransaction_outbox. steps_tac.
Qed.

Lemma writeStatusChange_outbox existing change :
  steps outbox_kept (writeStatusChange clock random existing change).
Proof. apply runTransaction_outbox. steps_tac. Qed.
Hint Resolve writeStatusChange_outbox : steps.

Lemma readForStatusChange_pure c a i w : (readForStatusChange c a i w).2 = w.
Proof.
  unfold readForStatusChange, getAccountSigner, getChainAccount, bind, ret, get_row, gets, throw.
  by repeat (case_match; simplify_eq/=).
Qed.

Lemma setAccountSignerStatus_outbox c a i change :
  steps outbox_kept (setAccountSignerStatus clock random c a i change).
Proof.
  unfold setAccountSignerStatus. apply steps_bind; [apply _| |steps_tac].
  intros w. by rewrite readForStatusChange_pure.
Qed.

Lemma setSignerOperationStatus_outbox id st d n e h :
  steps outbox_kept (setSignerOperationStatus clock id st d n e h).
Proof.
  unfold setSignerOperationStatus. case_match; [steps_tac|]. apply runTransaction_outbox.
  apply steps_bind; [apply _|auto with steps|]. intros row. case_match; [|steps_tac].
  apply steps_bind; [apply _|auto with steps|]. intros now. apply put_op_kept.
Qed.

Lemma upsertChainAccount_outbox input : steps outbox_kept (upsertChainAccount clock input).
Proof.
  unfold upsertChainAccount, unset_primary. case_match; [steps_tac|].
  apply runTransaction_outbox. steps_tac.
Qed.

Lemma upsertProfile_outbox input : steps outbox_kept (upsertProfile clock input).
Proof.
  unfold upsertProfile. case_match; [steps_tac|]. apply runTransaction_outbox.
  repeat (apply steps_bind; [apply _| |]; intros); try (by apply put_row_outbox); steps_tac.
Qed.
End Outbox.

(** ** Calls *)

Inductive WalletCall : Type :=
| CallUpsertProfile (input : UpsertProfileInput)
| CallUpsertChainAccount (input : UpsertChainAccountInput)
| CallActivate (input : ActivateAccountSignerInput)
| CallStage (account : SignerAccount) (signer : SignerInput) (signerSlot : JsVal)
    (mutation : SignerMutationOptions)
| CallSetStatus (chainIdKey accountAddress signerId : string) (change : SignerStatusChange)
| CallWriteStatus (existing : AccountSignerRecord) (change : SignerStatusChange)
| CallEnqueue (input : EnqueueSignerOperationInput)
| CallSetOperationStatus (opId : string) (status : SignerOperationStatus)
    (attemptDelta nextAttemptAt : option Z) (lastError txHash : option (option string)).

Definition ignore {A} (m : M WalletDB A) : M WalletDB unit := bind m (fun _ => ret tt).

Definition run_call (clock : nat -> Z) (random : nat -> string) (c : WalletCall) : M WalletDB unit :=
  match c with
  | CallUpsertProfile input => ignore (upsertProfile clock input)
  | CallUpsertChainAccount input => ignore (upsertChainAccount clock input)
  | CallActivate input => ignore (activateAccountSigner clock random input)
  | CallStage a s slot mutation => ignore (stageAccountSigner clock random a s slot mutation)
  | CallSetStatus c a i change => ignore (setAccountSignerStatus clock random c a i change)
  | CallWriteStatus existing change => ignore (writeStatusChange clock random existing change)
  | CallEnqueue input => ignore (enqueueSignerOperation clock input)
  | CallSetOperationStatus id st d n e h => ignore (setSignerOperationStatus clock id st d n e h)
  end.

(** The calls a state allows.  [setAccountSignerStatus] reads before its transaction
    starts, so its transaction may find another state than the one it read in:
    [CallWriteStatus] is that transaction with any record an earlier read can have
    returned. *)
Definition call_allowed (c : WalletCall) : Prop :=
  match c with
  | CallWriteStatus existing _ => signer_record_ok existing = true
  | _ => True
  end.

(** The activation retires every signer of its account that has the id of a signer it
    retires; see [retires_by_id].  The code does not check it. *)
Definition call_by_id (w : WalletDB) (c : WalletCall) : Prop :=
  match c with CallActivate input => retires_by_id input w | _ => True end.

Definition empty_db : WalletDB := mkWalletDB [] [] [] [] [] 0.

Section Reachable.
Context (clock : nat -> Z) (random : nat -> string).

Inductive db_reachable : WalletDB -> Prop :=
| db_empty : db_reachable empty_db
| db_call w c : db_reachable w -> call_allowed c -> db_reachable (run_call clock random c w).2.

(** Reached by activations that retire by id. *)
Inductive by_id_reachable : WalletDB -> Prop :=
| by_id_empty : by_id_reachable empty_db
| by_id_call w c :
    by_id_reachable w -> call_allowed c -> call_by_id w c -> by_id_reachable (run_call clock random c w).2.

Lemma by_id_db_reachable w : by_id_reachable w -> db_reachable w.
Proof. by induction 1; constructor. Qed.

Lemma ignore_state {A} (m : M WalletDB A) w : (ignore m w).2 = (m w).2.
Proof. unfold ignore, bind. by destruct (m w) as [[a|e] w']. Qed.

Lemma wp_state {A} (m : M WalletDB A) (P : WalletDB -> Prop) w :
  wp m (fun _ w' => P w') (fun _ w' => P w') w -> P (m w).2.
Proof. unfold wp. by destruct (m w) as [[a|e] w']. Qed.

Lemma upsertProfile_signers input w : wd_signers (upsertProfile clock input w).2 = wd_signers w.
Proof.
  unfold upsertProfile, runTransaction, put_row, get_row, assign, modify, Date_now, bind, lift, gets, ret, throw.
  by repeat (case_match; simplify_eq/=).
Qed.

(** Rows stay rows the code wrote, and slots stay distinct when [by_id] holds. *)
Definition signers_kept (by_id : Prop) (w w' : WalletDB) : Prop :=
  signers_inv (wd_signers w) ->
  signers_inv (wd_signers w') /\
  (by_id -> slots_distinct (wd_signers w) -> slots_distinct (wd_signers w')).

Lemma same_signers_kept P w w' : wd_signers w' = wd_signers w -> signers_kept P w w'.
Proof. unfold signers_kept. by intros ->. Qed.

Lemma activate_signers_kept input w :
  signers_kept (retires_by_id input w) w (activateAccountSigner clock random input w).2.
Proof.
  intros I. apply (wp_state _ (fun w' => signers_inv (wd_signers w') /\
    (retires_by_id input w -> slots_distinct (wd_signers w) -> slots_distinct (wd_signers w')))).
  eapply wp_mono;
    [apply runTransaction_wp, activateAccountSignerInTransaction_effect; [done]| |by intros e w' [w1 ->]].
  intros r w' [now H]. split; [by eapply activated_inv|]. intros Hid Hd. by eapply activated_slots.
Qed.

Lemma readForStatusChange_ok c a i w existing :
  (readForStatusChange c a i w).1 = Ok (Some existing) -> signers_inv (wd_signers w) ->
  signer_record_ok existing = true /\ signer_at (wd_signers w) (signer_key existing) = Some existing.
Proof.
  unfold readForStatusChange, getAccountSigner, bind, ret, get_row, gets. intros H I.
  destruct (negb _); [done|]. simpl in H.
  destruct (parseAccountSignerRow (default JUndefined (tget _ (wd_signers w)))) as [e|] eqn:Hp; [|done].
  assert (e = existing) as ->.
  { destruct (getChainAccount _ _ _ w) as [[[?|]|] ?]; simpl in H; congruence. }
  destruct (tget _ (wd_signers w)) as [row|] eqn:Hg; [|done]. simpl in Hp.
  split; [by apply parseAccountSignerRow_sound in Hp as [? _]|].
  apply tget_elem in Hg. apply signer_at_iff; [done|]. exists row. split; [|done].
  by rewrite <- (table_key _ _ _ _ I Hg Hp).
Qed.

Lemma setAccountSignerStatus_cases c a i change w :
  signers_inv (wd_signers w) ->
  (setAccountSignerStatus clock random c a i change w).2 = w \/
  exists existing, signer_record_ok existing = true /\
    signer_at (wd_signers w) (signer_key existing) = Some existing /\
    (setAccountSignerStatus clock random c a i change w).2 = (writeStatusChange clock random existing change w).2.
Proof.
  intros I. unfold setAccountSignerStatus, bind.
  pose proof (readForStatusChange_pure c a i w) as Hw. pose proof (readForStatusChange_ok c a i w) as Hok.
  destruct (readForStatusChange c a i w) as [[[existing|]|e] w1]; simpl in *; subst; [right|by left|by left].
  destruct (Hok existing eq_refl I) as [H1 H2]. exists existing. split_and!; [done|done|].
  by destruct (writeStatusChange _ _ _ _ w) as [[]].
Qed.

Lemma status_signers_kept P existing change w :
  signer_record_ok existing = true ->
  signers_kept P w (writeStatusChange clock random existing change w).2.
Proof.
  intros Hok I. apply (wp_state _ (fun w' => signers_inv (wd_signers w') /\
    (P -> slots_distinct (wd_signers w) -> slots_distinct (wd_signers w')))).
  eapply wp_mono; [apply writeStatusChange_effect| |by intros e w' [-> _]].
  intros r w' [n H]. split; [by eapply status_changed_inv|]. intros _ Hd. by eapply status_changed_slots.
Qed.

Lemma stage_signers_kept P a s slot mu w :
  signers_kept P w (stageAccountSigner clock random a s slot mu w).2.
Proof.
  intros I. apply (wp_state _ (fun w' => signers_inv (wd_signers w') /\
    (P -> slots_distinct (wd_signers w) -> slots_distinct (wd_signers w')))).
  eapply wp_mono; [apply writePreparedAccountSigner_effect| |by intros ? w' [-> _]].
  intros r w' [now H]. split; [by eapply staged_inv|]. intros _ Hd. by eapply staged_slots.
Qed.

Lemma call_signers_kept w c :
  call_allowed c -> signers_kept (call_by_id w c) w (run_call clock random c w).2.
Proof.
  intros Hc.
  destruct c as [input|input|input|a s slot mu|ch ad i change|existing change|input|id st d n e h];
    simpl in *; rewrite ignore_state.
  - by apply same_signers_kept, upsertProfile_signers.
  - apply same_signers_kept, (upsertChainAccount_keeps clock input w).
  - by apply activate_signers_kept.
  - by apply stage_signers_kept.
  - intros I. destruct (setAccountSignerStatus_cases ch ad i change w I) as [->|(ex & Hok & _ & ->)]; [done|].
    by apply status_signers_kept.
  - by apply status_signers_kept.
  - apply same_signers_kept, (runTransaction_keeps _ (enqueue_keeps clock input) w).
  - apply same_signers_kept, (setSignerOperationStatus_keeps clock id st d n e h w).
Qed.

Lemma call_outbox_inv w c :
  outbox_inv (wd_outbox w) -> outbox_inv (wd_outbox (run_call clock random c w).2).
Proof.
  intros I. destruct c as [input|input|input|a s slot mu|ch ad i change|existing change|input|id st d n e h];
    simpl in *; rewrite ignore_state.
  - by apply upsertProfile_outbox.
  - by apply upsertChainAccount_outbox.
  - by apply activate_outbox.
  - by apply stage_outbox.
  - by apply setAccountSignerStatus_outbox.
  - by apply writeStatusChange_outbox.
  - apply runTransaction_outbox; [|done]. apply enqueue_outbox.
  - by apply setSignerOperationStatus_outbox.
Qed.

Lemma db_reachable_inv w : db_reachable w -> signers_inv (wd_signers w) /\ outbox_inv (wd_outbox w).
Proof.
  induction 1 as [|w c Hr [I O] Hc].
  - unfold empty_db, indexes_unique. split; split; simpl; try apply NoDup_nil_2;
      unfold indexes_unique; intros; set_solver.
  - split; [by apply call_signers_kept|by apply call_outbox_inv].
Qed.

Lemma by_id_slots w : by_id_reachable w -> slots_distinct (wd_signers w).
Proof.
  induction 1 as [|w c Hr Hd Hc Hid]; [by intros ?????? ?%elem_of_nil|].
  apply by_id_db_reachable, db_reachable_inv in Hr as [I _].
  destruct (call_signers_kept w c Hc I) as [_ H]. by apply H.
Qed.
End Reachable.

(** ** Distinct slots *)

(** The row of an active signer of an account. *)
Definition account_row (chainIdKey accountAddress : string) (row : JsVal) : option AccountSignerRecord :=
  if strict_eq (jget "status" row) (JString "active") then
    s ← parseAccountSignerRow row; if of_account chainIdKey accountAddress s then Some s else None
  else None.

Lemma account_signers_rows chain addr w :
  account_signers chain addr (active_signers w) = omap (account_row chain addr) (tvalues (wd_signers w)).
Proof.
  unfold active_signers, account_signers, parsed_rows, index_all.
  induction (tvalues (wd_signers w)) as [|row rows IH]; simpl; [done|]. unfold account_row at 1.
  destruct (strict_eq _ _); simpl; [|apply IH].
  destruct (parseAccountSignerRow row); simpl; [|apply IH]. destruct (of_account _ _ _); simpl;
    [f_equal|]; apply IH.
Qed.

Lemma NoDup_rows {A B} (f : JsVal -> option A) (g : A -> B) (t : Table string JsVal) :
  twf t ->
  (forall k1 r1 k2 r2 a1 a2, (k1, r1) ∈ t -> (k2, r2) ∈ t -> f r1 = Some a1 -> f r2 = Some a2 ->
     g a1 = g a2 -> k1 = k2) ->
  NoDup (g <$> omap f (tvalues t)).
Proof.
  unfold twf. induction t as [|[k row] t IH]; simpl; intros Hwf Hd; [apply NoDup_nil_2|].
  apply NoDup_cons in Hwf as [Hk Hwf].
  assert (Hrest : NoDup (g <$> omap f (tvalues t))).
  { apply IH; [done|]. intros k1 r1 k2 r2 a1 a2 H1 H2. eapply Hd; set_solver. }
  destruct (f row) as [a|] eqn:Hf; [|done]. simpl. apply NoDup_cons. split; [|done].
  intros (a' & Hg & (row' & Hin & Hf')%list_elem_of_omap)%list_elem_of_fmap.
  apply elem_tvalues in Hin as [k' Hin]. apply Hk. apply list_elem_of_fmap. exists (k', row').
  split; [|done]. simpl. eapply (Hd k row k' row'); [set_solver|set_solver|done|done|done].
Qed.

Lemma account_row_some chain addr row s :
  account_row chain addr row = Some s ->
  parseAccountSignerRow row = Some s /\ sg_status s = SignerActive /\
  sg_chainIdKey s = chain /\ sg_accountAddress s = addr.
Proof.
  unfold account_row, of_account. destruct (strict_eq _ _) eqn:E; [|done]. intros H.
  apply strict_eq_text in E. apply bind_Some in H as (s' & Hp & H).
  destruct (_ && _) eqn:Ea; [|done]. simplify_eq. split_andb. rewrite !bool_decide_eq_true in *.
  split_and!; [done| |done|done]. apply parseAccountSignerRow_sound in Hp as (_ & _ & _ & _ & Hs).
  rewrite E in Hs. by destruct (sg_status s).
Qed.

Lemma account_slots_distinct chain addr w :
  signers_inv (wd_signers w) -> slots_distinct (wd_signers w) ->
  NoDup (sg_signerSlot <$> account_signers chain addr (active_signers w)).
Proof.
  intros I Hd. rewrite account_signers_rows. apply NoDup_rows; [apply I|].
  intros k1 r1 k2 r2 a1 a2 H1 H2 (P1 & S1 & C1 & A1)%account_row_some (P2 & S2 & C2 & A2)%account_row_some Hs.
  eapply Hd; [exact H1|exact H2|done|done|done|done|split; congruence|done].
Qed.

Lemma listAccountSigners_active chain addr w l w' :
  listAccountSigners chain addr (Some SignerActive) w = (Ok l, w') ->
  l = [] \/ exists c a, l = account_signers c a (active_signers w).
Proof.
  unfold listAccountSigners. case_match; intros [= <- <-].
  - by left.
  - right. by eexists _, _.
Qed.

(** C34. In every state that any order of the wallet's calls reaches, with whatever clock and
    random tokens and with status changes that write what they read long before, the rows
    of signers are rows the code wrote, kept under their own ids, and no two operations of
    the outbox have the same idempotency key.  When every activation of the order retires,
    with a signer, any active signer of the activated account that has the same id
    ([retires_by_id]), the active signers that are listed for an account are in distinct
    slots.  The code does not check that condition, which only a replacement by kind can
    violate, and [slots_collide_by_id] shows what happens without it. *)
Theorem wallet_signers_reachable clock random w :
  db_reachable clock random w ->
  signers_inv (wd_signers w) /\ outbox_inv (wd_outbox w) /\
  (by_id_reachable clock random w ->
   forall chainIdKey accountAddress l w',
     listAccountSigners chainIdKey accountAddress (Some SignerActive) w = (Ok l, w') ->
     NoDup (sg_signerSlot <$> l)).
Proof.
  intros [I O]%db_reachable_inv. split_and!; [done|done|]. intros Hd%by_id_slots.
  intros c a l w' [->|(c' & a' & ->)]%listAccountSigners_active; [apply NoDup_nil_2|].
  by apply account_slots_distinct.
Qed.

(** ** Revoked signers *)

(** Calls that are not interleaved with others, with removal times that can be stored. *)
Definition serialized_call (c : WalletCall) : Prop :=
  match c with
  | CallWriteStatus _ _ => False
  | CallSetStatus _ _ _ change =>
      match sc_removedAt change with Some z => stored_integer_ok 0 z | None => true end = true
  | _ => True
  end.

Lemma keeps_revoked_refl t : keeps_revoked t t.
Proof. intros k s H1 H2. by exists s. Qed.

Lemma same_keeps_revoked w w' :
  wd_signers w' = wd_signers w -> keeps_revoked (wd_signers w) (wd_signers w').
Proof. intros ->. apply keeps_revoked_refl. Qed.

Section Revoked.
Context (clock : nat -> Z) (random : nat -> string).

Lemma status_keeps_revoked existing change w :
  (forall n, stored_integer_ok 0 (clock n) = true) ->
  match sc_removedAt change with Some z => stored_integer_ok 0 z | None => true end = true ->
  signers_inv (wd_signers w) -> signer_record_ok existing = true ->
  signer_at (wd_signers w) (signer_key existing) = Some existing ->
  keeps_revoked (wd_signers w) (wd_signers (writeStatusChange clock random existing change w).2).
Proof.
  intros Hclock Hrem I Hok Hex. apply (wp_state _ (fun w' => keeps_revoked (wd_signers w) (wd_signers w'))).
  eapply wp_mono; [apply writeStatusChange_effect| |by intros e w' [? _]; apply same_keeps_revoked].
  intros next w' [n H]. by eapply status_changed_keeps_revoked; [..|exact H].
Qed.

Lemma call_keeps_revoked w c :
  (forall n, stored_integer_ok 0 (clock n) = true) ->
  signers_inv (wd_signers w) -> serialized_call c ->
  keeps_revoked (wd_signers w) (wd_signers (run_call clock random c w).2).
Proof.
  intros Hclock I Hc.
  destruct c as [input|input|input|a s0 slot mu|ch ad i change|existing change|input|id st d n e h];
    simpl in *; rewrite ignore_state.
  - by apply same_keeps_revoked, upsertProfile_signers.
  - apply same_keeps_revoked, (upsertChainAccount_keeps clock input w).
  - apply (wp_state _ (fun w' => keeps_revoked (wd_signers w) (wd_signers w'))).
    eapply wp_mono; [apply runTransaction_wp, activateAccountSignerInTransaction_effect; [done]| |].
    + intros r w' [now H]. by eapply activated_keeps_revoked.
    + intros e w' [w1 ->]. by apply same_keeps_revoked.
  - apply (wp_state _ (fun w' => keeps_revoked (wd_signers w) (wd_signers w'))).
    eapply wp_mono; [apply writePreparedAccountSigner_effect| |by intros e w' [? _]; apply same_keeps_revoked].
    intros r w' [now H]. by eapply staged_keeps_revoked.
  - destruct (setAccountSignerStatus_cases clock random ch ad i change w I) as [->|(ex & Hok & Hex & ->)];
      [apply keeps_revoked_refl|]. by apply status_keeps_revoked.
  - done.
  - apply same_keeps_revoked, (runTransaction_keeps _ (enqueue_keeps clock input) w).
  - apply same_keeps_revoked, (setSignerOperationStatus_keeps clock id st d n e h w).
Qed.

(** One call after the other. *)
Definition run_calls (cs : list WalletCall) (w : WalletDB) : WalletDB :=
  fold_left (fun w c => (run_call clock random c w).2) cs w.

Lemma serialized_allowed c : serialized_call c -> call_allowed c.
Proof. by destruct c. Qed.

(** C36. From any state that calls reach, a signer that is revoked stays revoked, and stays
    readable as such, whatever calls follow: it is not activated or staged again, no
    policy or key conflict removes its row, and changing its status fails or leaves it
    revoked.  The calls that follow must not come between the reads and the write of a
    status change ([revoked_signer_revived] shows what happens then), and a time of
    removal they give must be one that can be stored
    ([unstorable_removal_hides_signer]). *)
Theorem revoked_signer_terminal w cs k s :
  (forall n, stored_integer_ok 0 (clock n) = true) ->
  db_reachable clock random w -> Forall serialized_call cs ->
  signer_at (wd_signers w) k = Some s -> sg_status s = SignerRevoked ->
  exists s', signer_at (wd_signers (run_calls cs w)) k = Some s' /\ sg_status s' = SignerRevoked.
Proof.
  intros Hclock Hr Hcs. revert w s Hr. induction Hcs as [|c cs Hc Hcs IH]; intros w s Hr Hat Hrev;
    [by exists s|].
  destruct (call_keeps_revoked w c Hclock (proj1 (db_reachable_inv _ _ _ Hr)) Hc k s Hat Hrev) as (s' & Hat' & Hrev').
  eapply IH; [|exact Hat'|exact Hrev']. by constructor; [|apply serialized_allowed].
Qed.
End Revoked.

(** ** Activation *)

(** The stores are as they were. *)
Definition same_stores (w w' : WalletDB) : Prop := exists w1, w' = roll_back w w1.

Lemma planned_active input w w' now signer slot :
  activated input w w' now signer slot ->
  sg_status signer = SignerActive /\ sg_signerSlot signer = slot /\
  sg_profileId signer = ac_profile (av_account input) /\
  sg_signerKind signer = si_signerKind (av_signer input) /\
  signer_key signer = input_key (av_account input) (input_signer_id input) /\ stored_signer signer = signer.
Proof.
  intros (_ & _ & _ & -> & _). split_and!; try done.
  unfold stored_signer. simpl. unfold ac_profile, ac_chain, ac_address,
    normalizeIndexedDbChainIdKey, normalizeIndexedDbAccountAddress.
  by rewrite !trim_idem, !normalizeLowercaseString_idem.
Qed.

(** C35. An activation does all of what it says or nothing, in every state that calls reach
    and with a clock whose times can be stored.  If it returns, the signer has
    the slot that was planned from the account's active signers, every signer its policy
    retires is revoked with the policy's reason, and any other row is as it was, or gone
    because it held the same ECDSA key.  The row it wrote reads back as the signer when
    its record is one the parser accepts ([signer_record_ok]): an activation does not
    check that, and [voiceid_signer_unreadable] is one whose row reads back as nothing.
    If it throws, every store is as it was. *)
Theorem activate_signer_spec clock random input w :
  (forall n, stored_integer_ok 0 (clock n) = true) -> db_reachable clock random w ->
  match activateAccountSigner clock random input w with
  | (Ok (signer, slot), w') =>
      planAccountSignerActivation (input_account_signers input w) (planned_signer input)
        (av_activationPolicy input) (av_preferredSlot input) = Ok slot /\
      sg_status signer = SignerActive /\ sg_signerSlot signer = slot /\
      sg_profileId signer = ac_profile (av_account input) /\
      signer_key signer = input_key (av_account input) (input_signer_id input) /\
      (signer_record_ok signer = true -> signer_at (wd_signers w') (signer_key signer) = Some signer) /\
      (exists n, others_after input (clock n) signer (wd_signers w) (wd_signers w') (retired_signers input w)) /\
      wd_wallets w' = wd_wallets w
  | (Throw _, w') => same_stores w w'
  end.
Proof.
  intros Hclock [I _]%db_reachable_inv.
  pose proof (runTransaction_wp _ _ _ (activateAccountSignerInTransaction_effect clock random input w I)) as H.
  unfold activateAccountSigner. unfold wp in H.
  destruct (runTransaction _ w) as [[[signer slot]|e] w']; [|done].
  destruct H as [n H]. simpl in H. destruct (planned_active _ _ _ _ _ _ H) as (Ha & Hs & Hp & _ & Hk & Hid).
  pose proof (activated_others _ _ _ _ _ _ I (Hclock n) H) as Ho.
  destruct H as (Hplan & Hcan & _ & _ & _ & (row & Hrow & Hw') & Hwal).
  split_and!; [done..| |by exists n|done].
  intros Hok. unfold signer_at. rewrite Hw'. unfold written_table.
  pose proof (revoked_table_inv _ _ _ _ I Hcan) as I'.
  rewrite tget_tput by (by apply delete_rows_spec, I').
  rewrite (row_key _ _ Hrow), Hid, decide_True by done. simpl.
  by rewrite (parse_written_row _ _ Hrow), Hid, Hok.
Qed.

(** ** The outbox *)

Definition enqueue_inputs_given (input : EnqueueSignerOperationInput) : bool :=
  nonempty (trim (en_opId input)) && nonempty (trim (en_idempotencyKey input))
  && nonempty (normalizeIndexedDbChainIdKey (JString (en_chainIdKey input)))
  && nonempty (normalizeIndexedDbAccountAddress (JString (en_accountAddress input)))
  && nonempty (trim (en_signerId input)).

Lemma op_row_fields r row :
  signerOutboxRow r = Ok row ->
  jget "op_id" row = JString (trim (op_opId r)) /\
  jget "idempotency_key" row = JString (trim (op_idempotencyKey r)).
Proof.
  unfold signerOutboxRow. rewrite !trim_or_empty. case_match; [done|]. by intros [= <-].
Qed.

(** The only row with an idempotency key is found by it. *)
Lemma by_idempotency_key_row w k row key :
  outbox_inv (wd_outbox w) -> (k, row) ∈ wd_outbox w -> jget "idempotency_key" row = JString key ->
  by_idempotency_key key w = row.
Proof.
  intros O Hin Hkey. unfold by_idempotency_key.
  assert (Hel : row ∈ index_all "idempotency_key" key (wd_outbox w)) by (apply index_all_elem; eauto).
  destruct (index_all "idempotency_key" key (wd_outbox w)) as [|row' rows] eqn:E; [set_solver|]. simpl.
  assert (Hel' : row' ∈ index_all "idempotency_key" key (wd_outbox w)) by (rewrite E; set_solver).
  apply index_all_elem in Hel' as [[k' Hin'] Hkey'].
  assert (k' = k) as ->.
  { eapply (oi_unique _ O) with (fields := ["idempotency_key"]); [done|done|set_solver|].
    unfold same_index_key, in_index. simpl. rewrite Hkey, Hkey'. simpl. by rewrite bool_decide_true. }
  pose proof (elem_tget _ _ _ (oi_wf _ O) Hin). pose proof (elem_tget _ _ _ (oi_wf _ O) Hin'). congruence.
Qed.

(** What an enqueue answers: the stored operation with its idempotency key, or the
    operation it wrote. *)
Lemma enqueue_effect clock input w op w' :
  outbox_inv (wd_outbox w) -> enqueueSignerOperation clock input w = (Ok op, w') ->
  enqueue_inputs_given input = true /\
  ((w' = w /\ exists row, row ∈ tvalues (wd_outbox w) /\ parseSignerOutboxRow row = Some op /\
      op_idempotencyKey op = trim (en_idempotencyKey input)) \/
   (exists row, signerOutboxRow op = Ok row /\
      wd_outbox w' = tput (key_of "op_id" row) row (wd_outbox w) /\
      op_opId op = trim (en_opId input) /\ op_idempotencyKey op = trim (en_idempotencyKey input) /\
      stored_op op = op)).
Proof.
  intros O. unfold enqueueSignerOperation, runTransaction, enqueueSignerOperationInTransaction.
  fold (enqueue_inputs_given input). destruct (enqueue_inputs_given input); simpl; [|done].
  unfold bind at 1, get_row, gets. simpl.
  set (existing := parseSignerOutboxRow _).
  assert (Hwrite : forall w1 a,
    (now <- Date_now clock ;;
     row <- lift (signerOutboxRow (next_operation input existing now)) ;;
     put_outbox row ;; ret (next_operation input existing now)) w1 = a -> w1 = w ->
    match a with
    | (Ok a, w') => (Ok a, w')
    | (Throw e, w') => (Throw e, roll_back w w')
    end = (Ok op, w') ->
    exists row, signerOutboxRow op = Ok row /\ wd_outbox w' = tput (key_of "op_id" row) row (wd_outbox w) /\
      op_opId op = trim (en_opId input) /\ op_idempotencyKey op = trim (en_idempotencyKey input) /\
      stored_op op = op).
  { intros w1 a <- ->. unfold bind, Date_now, lift. simpl.
    destruct (signerOutboxRow _) as [row|] eqn:Hr; [|done].
    unfold put_outbox, bind, deref, gets, lift, assign, modify, ret. simpl.
    destruct (put_unique _ _ _ _) as [t'|] eqn:Hp; [|done]. intros [= <- <-]. exists row. simpl.
    apply put_unique_ok in Hp as ->. split_and!; try done.
    unfold stored_op, next_operation. simpl. unfold normalizeIndexedDbChainIdKey, normalizeIndexedDbAccountAddress.
    by rewrite !trim_idem, !normalizeLowercaseString_idem. }
  destruct existing as [e|] eqn:Hex; unfold bind at 1; simpl.
  - intros H. split; [done|]. right. by eapply Hwrite.
  - destruct (parseSignerOutboxRow (by_idempotency_key _ w)) as [known|] eqn:Hk.
    + intros [= <- <-]. split; [done|]. left. split; [done|].
      exists (by_idempotency_key (trim (en_idempotencyKey input)) w).
      pose proof Hk as Hk'. unfold by_idempotency_key in Hk |- *.
      destruct (index_all _ _ _) as [|row rows] eqn:E; simpl in *; [done|].
      assert (Hin : row ∈ index_all "idempotency_key" (trim (en_idempotencyKey input)) (wd_outbox w))
        by (rewrite E; set_solver).
      apply index_all_elem in Hin as [[k Hin] Hkey]. split_and!; [apply elem_tvalues; eauto|done|].
      apply parseSignerOutboxRow_sound in Hk as [_ Hkey']. congruence.
    + intros H. split; [done|]. right. by eapply Hwrite.
Qed.

Lemma enqueue_known clock input w k row op :
  outbox_inv (wd_outbox w) -> (k, row) ∈ wd_outbox w -> parseSignerOutboxRow row = Some op ->
  enqueue_inputs_given input = true -> trim (en_idempotencyKey input) = op_idempotencyKey op ->
  tget (trim (en_opId input)) (wd_outbox w) = None ->
  enqueueSignerOperation clock input w = (Ok op, w).
Proof.
  intros O Hin Hp Hg Hkey Hnew. unfold enqueueSignerOperation, runTransaction, enqueueSignerOperationInTransaction.
  fold (enqueue_inputs_given input). rewrite Hg. simpl. unfold bind, get_row, gets. simpl.
  rewrite Hnew. simpl. rewrite Hkey.
  pose proof (parseSignerOutboxRow_sound _ _ Hp) as [_ Hk].
  by rewrite (by_idempotency_key_row _ _ _ _ O Hin Hk), Hp.
Qed.

(** An operation is enqueued once.  After an enqueue that returned a readable operation,
    a second one with the same idempotency key and an operation id that is not stored
    answers with the first operation and writes nothing, whatever else it asks for. *)
Theorem outbox_idempotent clock random w input op w' again :
  db_reachable clock random w -> enqueueSignerOperation clock input w = (Ok op, w') ->
  op_record_ok op = true -> enqueue_inputs_given again = true ->
  trim (en_idempotencyKey again) = op_idempotencyKey op ->
  tget (trim (en_opId again)) (wd_outbox w') = None ->
  enqueueSignerOperation clock again w' = (Ok op, w').
Proof.
  intros [_ O]%db_reachable_inv Hrun Hok Hg Hkey Hnew.
  assert (O' : outbox_inv (wd_outbox w')).
  { pose proof (runTransaction_outbox _ (enqueue_outbox clock input) w) as H.
    unfold enqueueSignerOperation in Hrun. rewrite Hrun in H. by apply H. }
  destruct (enqueue_effect _ _ _ _ _ O Hrun) as
    [_ [(-> & row & [k Hin]%elem_tvalues & Hp & _)|(row & Hr & Hw & _ & _ & Hid)]].
  - by eapply enqueue_known.
  - eapply (enqueue_known _ _ _ (key_of "op_id" row) row); try done.
    + rewrite Hw. apply elem_tput. by left.
    + by rewrite (parse_written_op _ _ Hr), Hid, Hok.
Qed.

(** ** Examples *)

Definition example_clock (n : nat) : Z := 1000 + Z.of_nat (n mod 1000).
Definition example_random (n : nat) : string := "0".

Lemma example_clock_ok n : stored_integer_ok 0 (example_clock n) = true.
Proof.
  unfold example_clock, stored_integer_ok, is_safe_integer, MAX_SAFE_INTEGER.
  pose proof (Nat.mod_upper_bound n 1000). lia.
Qed.

Notation example_calls := (run_calls example_clock example_random).

(** Calls that are allowed, and retire by id, in every state. *)
Definition plain_call (c : WalletCall) : bool :=
  match c with
  | CallActivate input =>
      match av_activationPolicy input with ReplaceProfileChainKind _ _ _ => false | _ => true end
  | CallWriteStatus existing _ => signer_record_ok existing
  | _ => true
  end.

Lemma run_calls_by_id cs w :
  by_id_reachable example_clock example_random w -> forallb plain_call cs = true ->
  by_id_reachable example_clock example_random (example_calls cs w).
Proof.
  revert w. induction cs as [|c cs IH]; intros w Hw; simpl; [done|]. intros [Hc Hcs]%andb_prop.
  apply IH; [|done]. constructor; [done|by destruct c|]. destruct c; simpl in *; try done.
  apply retires_by_id_account; [by eapply db_reachable_inv, by_id_db_reachable|].
  intros slot kind reason E. by rewrite E in Hc.
Qed.

Lemma run_calls_reachable cs :
  forallb plain_call cs = true -> db_reachable example_clock example_random (example_calls cs empty_db).
Proof. intros H. apply by_id_db_reachable, run_calls_by_id; [constructor|done]. Qed.

Definition near_account : SignerAccount := mkSignerAccount "wallet-1" "near:testnet" "Alice.testnet" "near-native".

Definition near_signer (signerId : string) : SignerInput :=
  mkSignerInput signerId "threshold" KIND_ED25519 "passkey" "passkey_registration"
    (Some [("nearEd25519SigningKeyId", JString "k"); ("signerMaterialFingerprint", JString "fp")]).

Definition activate_near (signerId : string) (policy : SignerActivationPolicy) : ActivateAccountSignerInput :=
  mkActivate near_account (near_signer signerId) policy JUndefined None
    (mkMutation (Some true) (Some signerId) (Some ("add " +:+ signerId)) None None).

Definition with_profile : list WalletCall :=
  [CallUpsertProfile (mkProfileInput "wallet-1" None None None None)].

(** One NEAR signer is active and another takes its slot. *)
Definition one_signer : WalletDB :=
  example_calls (with_profile ++ [CallActivate (activate_near "s1" AllocateNextFree)]) empty_db.

Definition replace_slot_1 (signerId : string) : ActivateAccountSignerInput :=
  activate_near signerId (ReplaceSlot (JInt 1) KIND_ED25519 "rotated").

Lemma one_signer_reachable : db_reachable example_clock example_random one_signer.
Proof. apply run_calls_reachable. vm_compute. reflexivity. Qed.

Lemma wallet_signers_reachable_witness :
  by_id_reachable example_clock example_random one_signer /\
  signers_inv (wd_signers one_signer) /\
  NoDup (sg_signerSlot <$> account_signers "near:testnet" "alice.testnet" (active_signers one_signer)) /\
  length (active_signers one_signer) = 1%nat.
Proof.
  assert (by_id_reachable example_clock example_random one_signer) as Hid.
  { apply run_calls_by_id; [constructor|vm_compute; reflexivity]. }
  destruct (wallet_signers_reachable example_clock example_random one_signer one_signer_reachable)
    as (I & _ & Hslots).
  split; [exact Hid|]. split; [exact I|]. split.
  - apply (Hslots Hid "near:testnet" "alice.testnet" _ one_signer). vm_compute. reflexivity.
  - vm_compute. reflexivity.
Defined.

Definition s1_key : string := walletSignerId "near:testnet" "alice.testnet" "s1".

Lemma activate_signer_spec_witness :
  let r := activateAccountSigner example_clock example_random (replace_slot_1 "s2") one_signer in
  (exists signer, r.1 = Ok (signer, 1)) /\
  (exists s, signer_at (wd_signers r.2) s1_key = Some s /\ sg_status s = SignerRevoked) /\
  match r with
  | (Ok (signer, slot), w') =>
      exists n, others_after (replace_slot_1 "s2") (example_clock n) signer (wd_signers one_signer)
                  (wd_signers w') (retired_signers (replace_slot_1 "s2") one_signer)
  | (Throw _, _) => False
  end.
Proof.
  pose proof (activate_signer_spec example_clock example_random (replace_slot_1 "s2") one_signer
                example_clock_ok one_signer_reachable) as H.
  destruct (activateAccountSigner _ _ _ one_signer) as [[[signer slot]|e] w'] eqn:E.
  - split; [|split].
    + exists signer. simpl. destruct H as (Hp & _). vm_compute in Hp. by injection Hp as ->.
    + apply (f_equal snd) in E. cbn [snd] in E |- *. rewrite <- E. eexists. split; [vm_compute; reflexivity|].
      reflexivity.
    + apply H.
  - exfalso. apply (f_equal fst) in E. vm_compute in E. discriminate E.
Defined.

(** The first signer was replaced in its slot. *)
Definition replaced_signer : WalletDB :=
  example_calls (with_profile ++ [CallActivate (activate_near "s1" AllocateNextFree);
                              CallActivate (replace_slot_1 "s2")]) empty_db.

Lemma replaced_signer_reachable : db_reachable example_clock example_random replaced_signer.
Proof. apply run_calls_reachable. vm_compute. reflexivity. Qed.

Definition revoked_s1 : AccountSignerRecord :=
  default (example_signer "" SignerPending) (signer_at (wd_signers replaced_signer) s1_key).

(** It is activated again, and its status is set. *)
Definition revive_s1 : list WalletCall :=
  [CallActivate (activate_near "s1" AllocateNextFree);
   CallSetStatus "near:testnet" "alice.testnet" "s1" (mkStatusChange SignerActive None None no_mutation);
   CallStage near_account (near_signer "s1") (JInt 1) no_mutation].

Lemma revoked_signer_terminal_witness :
  exists s', signer_at (wd_signers (example_calls revive_s1 replaced_signer)) s1_key = Some s' /\
    sg_status s' = SignerRevoked.
Proof.
  apply (revoked_signer_terminal example_clock example_random replaced_signer revive_s1 s1_key revoked_s1).
  - apply example_clock_ok.
  - apply replaced_signer_reachable.
  - repeat constructor.
  - vm_compute. reflexivity.
  - vm_compute. reflexivity.
Defined.

Definition add_op (opId : string) : EnqueueSignerOperationInput :=
  mkEnqueue opId "add s1" "add-signer" "near:testnet" "alice.testnet" "s1" None None None None None None.

(** The operation of the first signer, as it is stored. *)
Definition stored_s1_op : SignerOpOutboxRecord :=
  match parseSignerOutboxRow (by_idempotency_key "add s1" one_signer) with
  | Some op => op
  | None => example_op
  end.

Lemma outbox_idempotent_witness :
  op_opId stored_s1_op = "s1" /\
  enqueueSignerOperation example_clock (add_op "other") one_signer = (Ok stored_s1_op, one_signer).
Proof.
  split; [vm_compute; reflexivity|].
  apply (outbox_idempotent example_clock example_random one_signer (add_op "first") stored_s1_op
           one_signer (add_op "other")).
  - apply one_signer_reachable.
  - vm_compute. reflexivity.
  - vm_compute. reflexivity.
  - vm_compute. reflexivity.
  - vm_compute. reflexivity.
  - vm_compute. reflexivity.
Defined.

(** ** Behaviour that the checks do not exclude *)

(** [setAccountSignerStatus] checks the status it read before its transaction: a signer
    that is revoked in between is active again. *)
Definition active_s1 : AccountSignerRecord :=
  default (example_signer "" SignerPending) (signer_at (wd_signers one_signer) s1_key).

Definition confirm_active : SignerStatusChange := mkStatusChange SignerActive None None no_mutation.

Lemma revoked_signer_revived :
  (sg_status <$> signer_at (wd_signers one_signer) s1_key) = Some SignerActive /\
  (sg_status <$> signer_at (wd_signers replaced_signer) s1_key) = Some SignerRevoked /\
  let freed := example_calls [CallSetStatus "near:testnet" "alice.testnet" "s2"
                            (mkStatusChange SignerRevoked None None no_mutation)] replaced_signer in
  (sg_status <$> signer_at (wd_signers (example_calls [CallWriteStatus active_s1 confirm_active] freed)) s1_key)
  = Some SignerActive.
Proof. split_and!; vm_compute; reflexivity. Qed.

(** A time of removal that cannot be stored is written all the same: the row of the
    revoked signer is one the parser refuses, and the signer can be activated again. *)
Lemma unstorable_removal_hides_signer :
  let hidden := example_calls [CallSetStatus "near:testnet" "alice.testnet" "s1"
                                 (mkStatusChange SignerRevoked (Some (-5)) None no_mutation)] replaced_signer in
  signer_at (wd_signers hidden) s1_key = None /\
  (sg_status <$> signer_at (wd_signers (example_calls [CallActivate (activate_near "s1" AllocateNextFree)] hidden))
                   s1_key) = Some SignerActive.
Proof. split; vm_compute; reflexivity. Qed.

(** A replacement by slot of a signer that is already active elsewhere revokes the slot's
    occupant and leaves the slot empty. *)
Lemma replace_slot_leaves_slot_empty :
  let two := example_calls [CallActivate (activate_near "s2" AllocateNextFree)] one_signer in
  let w := example_calls [CallActivate (replace_slot_1 "s2")] two in
  (sg_signerSlot <$> account_signers "near:testnet" "alice.testnet" (active_signers two)) = [1; 2] /\
  (sg_signerSlot <$> account_signers "near:testnet" "alice.testnet" (active_signers w)) = [2].
Proof. split; vm_compute; reflexivity. Qed.

(** A second activated account of a chain is primary beside the first one. *)
Definition other_near_account : SignerAccount :=
  mkSignerAccount "wallet-1" "near:testnet" "bob.testnet" "near-native".

Lemma activation_makes_two_primaries :
  let w := example_calls [CallActivate (mkActivate other_near_account (near_signer "s1") AllocateNextFree
                                      JUndefined None no_mutation)] one_signer in
  (ca_accountAddress <$> List.filter (fun r => default false (ca_isPrimary r))
     (parsed_rows parseChainAccountProjectionRow (index_all "profile_id" "wallet-1" (wd_projections w))))
  = ["alice.testnet"; "bob.testnet"].
Proof. vm_compute. reflexivity. Qed.

(** Without [retires_by_id] two active signers of an account get the same slot: the
    signer ["x"] of another account is retired, and the account's own signer ["x"] of
    another kind is dropped from the slot check with it. *)
Definition ecdsa_signer (signerId address : string) : SignerInput :=
  mkSignerInput signerId "threshold" KIND_ECDSA "passkey" "passkey_registration"
    (Some [("keyHandle", JString (signerId +:+ address)); ("ecdsaThresholdKeyId", JString (signerId +:+ address));
           ("thresholdOwnerAddress", JString address);
           ("chainTarget", target_object (EvmEip155ChainTarget 1 "mainnet"))]).

Definition evm_account (address : string) : SignerAccount :=
  mkSignerAccount "wallet-1" "evm:eip155:1" address "threshold-ecdsa".

Definition evm_activation (a : string) (s : SignerInput) (policy : SignerActivationPolicy) : WalletCall :=
  CallActivate (mkActivate (evm_account a) s policy JUndefined None no_mutation).

Definition colliding_activation : WalletCall :=
  evm_activation "0xa" (ecdsa_signer "y" "0xa") (ReplaceProfileChainKind (JInt 1) KIND_ECDSA "rotated").

Definition collided : WalletDB :=
  example_calls (with_profile ++ [evm_activation "0xa" (near_signer "x") AllocateNextFree;
                                  evm_activation "0xb" (ecdsa_signer "x" "0xb") AllocateNextFree;
                                  colliding_activation]) empty_db.

Lemma slots_collide_by_id :
  db_reachable example_clock example_random collided /\
  (fun s => (sg_signerId s, sg_signerSlot s)) <$> account_signers "evm:eip155:1" "0xa" (active_signers collided)
  = [("x", 1); ("y", 1)].
Proof. split; [repeat constructor|vm_compute; reflexivity]. Qed.
