(* ===== verification/EvmNonceLane.v ===== *)
(** * The EVM nonce lane

    [nonce/evmNonceLane.ts]: the per-lane state that tracks the chain's nonce
    and the nonces this runtime has in flight, and the operations on it.  The
    operations reach the chain and the lease table through callbacks, which stay
    arguments here; [NonceCoordinator] passes its own. *)

From stdpp Require Import sorting.
From S2P Require Import Prelude JsValues ChainTarget NonceTypes NonceLaneKeys.
Local Open Scope Z_scope.
Local Open Scope js_scope.

Inductive EvmInFlightStatus : Type := InFlightAccepted | InFlightReplaced.

Record EvmInFlightNonceRecord : Type := mkEvmInFlight {
  eif_nonce : Z;
  eif_txHash : option string;
  eif_status : EvmInFlightStatus;
  eif_acceptedAtMs : Z;
  eif_updatedAtMs : Z;
}.

(** [inflightRefresh] is whether a refresh of the lane is running. *)
Record EvmNonceLaneState : Type := mkEvmState {
  chainNonce : option Z;
  nextCandidate : option Z;
  evmInFlight : list (string * EvmInFlightNonceRecord);
  lastRefreshMs : option Z;
  inflightRefresh : bool;
}.

Definition createEvmNonceLaneState : EvmNonceLaneState := mkEvmState None None [] None false.

Definition getOrCreateEvmNonceLaneState (states : list (string * EvmNonceLaneState))
    (laneKey : string) : list (string * EvmNonceLaneState) :=
  match mget laneKey states with
  | Some _ => states
  | None => mset laneKey createEvmNonceLaneState states
  end.

Definition indexEvmNonceLaneBySubject (accountLaneKeys : list (string * list string))
    (lane : EvmNonceLane) (laneKey : string) : list (string * list string) :=
  let accountId := trim (evm_subjectId lane) in
  if nonempty accountId then
    match mget accountId accountLaneKeys with
    | None => mset accountId [laneKey] accountLaneKeys
    | Some keys => mset accountId (sadd laneKey keys) accountLaneKeys
    end
  else accountLaneKeys.

(** Updates of single fields. *)
Definition set_chainNonce (v : option Z) (s : EvmNonceLaneState) : EvmNonceLaneState :=
  mkEvmState v (nextCandidate s) (evmInFlight s) (lastRefreshMs s) (inflightRefresh s).
Definition set_nextCandidate (v : option Z) (s : EvmNonceLaneState) : EvmNonceLaneState :=
  mkEvmState (chainNonce s) v (evmInFlight s) (lastRefreshMs s) (inflightRefresh s).
Definition set_evmInFlight (v : list (string * EvmInFlightNonceRecord)) (s : EvmNonceLaneState)
    : EvmNonceLaneState :=
  mkEvmState (chainNonce s) (nextCandidate s) v (lastRefreshMs s) (inflightRefresh s).
Definition set_lastRefreshMs (v : option Z) (s : EvmNonceLaneState) : EvmNonceLaneState :=
  mkEvmState (chainNonce s) (nextCandidate s) (evmInFlight s) v (inflightRefresh s).
Definition set_inflightRefresh (v : bool) (s : EvmNonceLaneState) : EvmNonceLaneState :=
  mkEvmState (chainNonce s) (nextCandidate s) (evmInFlight s) (lastRefreshMs s) v.

(** [for (const nonce of set) { const value = BigInt(nonce); if (value > highest) ... }]. *)
Fixpoint highest_nonce (highest : Z) (nonces : list string) : Result Z :=
  match nonces with
  | [] => Ok highest
  | nonce :: rest =>
      match BigInt_of_string nonce with
      | None => Throw (JsError "SyntaxError")
      | Some value => highest_nonce (if highest <? value then value else highest) rest
      end
  end.

(** The in-flight records the chain has not passed, and their highest nonce. *)
Definition pruneInFlight (chainNextNonce : Z) (inFlight : list (string * EvmInFlightNonceRecord))
    : list (string * EvmInFlightNonceRecord) :=
  List.filter (fun e => negb (eif_nonce e.2 <? chainNextNonce)) inFlight.

Definition highestInFlight (inFlight : list (string * EvmInFlightNonceRecord)) : Z :=
  List.fold_left (fun h e => if h <? eif_nonce e.2 then eif_nonce e.2 else h) inFlight 0.

(** The next candidate a refresh computes. *)
Definition refreshedCandidate (chainNextNonce : Z) (current : option Z) (activeCount : nat)
    (highestActiveLease : Z) (pruned : list (string * EvmInFlightNonceRecord)) : Z :=
  let hasOutstandingLocalNonce := negb (activeCount =? 0)%nat || negb (length pruned =? 0)%nat in
  let nextFromCurrent := if hasOutstandingLocalNonce then default 0 current else 0 in
  let nextFromActiveLease := if 0 <? highestActiveLease then highestActiveLease + 1 else 0 in
  let nextFromInFlight := if 0 <? highestInFlight pruned then highestInFlight pruned + 1 else 0 in
  maxBigint [0; chainNextNonce; nextFromCurrent; nextFromActiveLease; nextFromInFlight].

(** [requireEvmTransactionHash]. *)
Definition requireEvmTransactionHash (value : string) : Result string :=
  let normalized := to_lower (trim value) in
  if is_0x_hex 64 normalized then Ok normalized
  else Throw (JsError "[NonceCoordinator] EVM broadcast acceptance requires txHash").

(** The arguments of a [readActiveLeaseNonces] callback. *)
Record ActiveQuery : Type := mkActiveQuery {
  q_chainNextNonce : option Z;
  q_excludeLeaseId : option string;
}.

(** ** The blocked lane *)

(** [values.sort((a, b) => (a < b ? -1 : a > b ? 1 : 0))]. *)
Definition sort_nonces (nonces : list Z) : list Z := merge_sort Z.le nonces.

(** The loop of [readBlockedEvmInFlight]: the record of the least nonce. *)
Definition oldestInFlight (inFlight : list (string * EvmInFlightNonceRecord))
    : option EvmInFlightNonceRecord :=
  List.fold_left
    (fun oldest e =>
       match oldest with
       | None => Some e.2
       | Some o => if eif_nonce e.2 <? eif_nonce o then Some e.2 else oldest
       end) inFlight None.

(** The blocked nonce and its age. *)
Definition readBlockedEvmInFlight (s : EvmNonceLaneState) (nowMs staleInFlightThresholdMs : Z)
    : option (Z * Z) :=
  match chainNonce s, oldestInFlight (evmInFlight s) with
  | Some chain, Some oldest =>
      if eif_nonce oldest <? chain then None
      else
        let ageMs := Z.max 0 (nowMs - eif_updatedAtMs oldest) in
        if ageMs <? staleInFlightThresholdMs then None else Some (eif_nonce oldest, ageMs)
  | _, _ => None
  end.

Definition createEvmNonceLaneBlockedError (lane : EvmNonceLane) (blockedNonce ageMs : Z) : Exn :=
  NonceLaneBlocked (nonceLaneNetworkKey (EvmLane lane)) (target_chainId (evm_chainTarget lane))
    blockedNonce ageMs.

(** [NonceLaneStatus]. *)
Record NonceLaneStatus : Type := mkLaneStatus {
  st_chainNextNonce : Z;
  st_unresolvedInFlightNonces : list Z;
  st_blocked : bool;
  st_blockedNonce : option Z;
}.

Section Operations.
Context {W : Type} (state : Ref W EvmNonceLaneState).

Definition refreshTask (lane : EvmNonceLane) (nowMs : Z)
    (fetchChainNonce : EvmNonceLane -> M W Z)
    (readActiveLeaseNonces : ActiveQuery -> M W (list string)) : M W Z :=
  chainNextNonceRaw <- fetchChainNonce lane ;;
  let chainNextNonce := if 0 <=? chainNextNonceRaw then chainNextNonceRaw else 0 in
  activeLeaseNonces <- readActiveLeaseNonces (mkActiveQuery (Some chainNextNonce) None) ;;
  highestActiveLease <- lift (highest_nonce 0 activeLeaseNonces) ;;
  assign state (fun s => set_evmInFlight (pruneInFlight chainNextNonce (evmInFlight s)) s) ;;
  assign state (fun s =>
    set_nextCandidate
      (Some (refreshedCandidate chainNextNonce (nextCandidate s) (length activeLeaseNonces)
               highestActiveLease (evmInFlight s))) s) ;;
  assign state (set_chainNonce (Some chainNextNonce)) ;;
  assign state (set_lastRefreshMs (Some nowMs)) ;;
  ret chainNextNonce.

(** A second caller would share the running task; calls for a lane are
    serialised by its lock, so that branch is marked and shown not to run. *)
Definition refreshEvmLaneFromChainLocked (lane : EvmNonceLane) (nowMs : Z)
    (fetchChainNonce : EvmNonceLane -> M W Z)
    (readActiveLeaseNonces : ActiveQuery -> M W (list string)) : M W Z :=
  s <- deref state ;;
  if inflightRefresh s then throw AwaitsOther
  else
    assign state (set_inflightRefresh true) ;;
    result <- try_catch
      (refreshTask lane nowMs fetchChainNonce readActiveLeaseNonces)
      (fun e => assign state (set_inflightRefresh false) ;; throw e) ;;
    assign state (set_inflightRefresh false) ;;
    ret result.

Definition shouldRefreshEvmLane (nowMs refreshTtlMs : Z)
    (readActiveLeaseNonces : ActiveQuery -> M W (list string)) : M W bool :=
  s <- deref state ;;
  match nextCandidate s, lastRefreshMs s with
  | None, _ | _, None => ret true
  | Some _, Some last =>
      if negb (length (evmInFlight s) =? 0)%nat then ret true
      else
        active <- readActiveLeaseNonces (mkActiveQuery None None) ;;
        if negb (length active =? 0)%nat then ret false
        else ret (refreshTtlMs <=? nowMs - last)
  end.

Definition markEvmBroadcastAcceptedState (lease : NonceLease) (nonce : Z) (txHash : string)
    (nowMs staleInFlightThresholdMs : Z)
    (persistCoordinationLease : NonceLease -> NonceDurableLeaseLifecycle -> Z -> M W unit)
    : M W unit :=
  txHash <- lift (requireEvmTransactionHash txHash) ;;
  assign state (fun s =>
    set_evmInFlight
      (mset (Z_to_string nonce) (mkEvmInFlight nonce (Some txHash) InFlightAccepted nowMs nowMs)
         (evmInFlight s)) s) ;;
  let minNext := nonce + 1 in
  assign state (fun s =>
    match nextCandidate s with
    | Some c => if c <? minNext then set_nextCandidate (Some minNext) s else s
    | None => set_nextCandidate (Some minNext) s
    end) ;;
  persistCoordinationLease lease (DurableBroadcastAccepted txHash) (nowMs + staleInFlightThresholdMs).

Definition markEvmFinalizedState (lease : NonceLease) (nonce : Z) (nowMs : Z)
    (removeCoordinationLease : NonceLease -> M W unit) : M W unit :=
  assign state (fun s => set_evmInFlight (mdel (Z_to_string nonce) (evmInFlight s)) s) ;;
  let minNext := nonce + 1 in
  assign state (fun s =>
    set_chainNonce
      (Some match chainNonce s with None => minNext | Some c => maxBigint [c; minNext] end) s) ;;
  assign state (fun s =>
    match nextCandidate s with
    | Some c => if c <? minNext then set_nextCandidate (Some minNext) s else s
    | None => set_nextCandidate (Some minNext) s
    end) ;;
  assign state (set_lastRefreshMs (Some nowMs)) ;;
  removeCoordinationLease lease.

(** The change of the lane state when an in-flight nonce is dropped or replaced. *)
Definition droppedState (nonce : Z) (s : EvmNonceLaneState) : EvmNonceLaneState :=
  let s := set_evmInFlight (mdel (Z_to_string nonce) (evmInFlight s)) s in
  let behind := match chainNonce s with None => true | Some c => c <=? nonce end in
  if behind then
    set_nextCandidate
      (Some match nextCandidate s with None => nonce | Some c => minBigint c nonce end) s
  else s.

Definition replacedState (nonce : Z) (txHash : option string) (nowMs : Z) (s : EvmNonceLaneState)
    : EvmNonceLaneState :=
  let previous := mget (Z_to_string nonce) (evmInFlight s) in
  let txHash :=
    match txHash with
    | Some h => if nonempty h then Some h else previous ≫= eif_txHash
    | None => previous ≫= eif_txHash
    end in
  set_evmInFlight
    (mset (Z_to_string nonce)
       (mkEvmInFlight nonce txHash InFlightReplaced
          (default nowMs (eif_acceptedAtMs <$> previous)) nowMs)
       (evmInFlight s)) s.

Definition markEvmDroppedOrReplacedState (lease : NonceLease) (nonce : Z)
    (reason : EvmNonceOutcomeReason) (txHash : option string) (nowMs : Z)
    (removeCoordinationLease : NonceLease -> M W unit) : M W unit :=
  assign state (fun s =>
    match reason with
    | OutcomeDropped => droppedState nonce s
    | OutcomeReplaced => replacedState nonce txHash nowMs s
    end) ;;
  assign state (set_lastRefreshMs None) ;;
  removeCoordinationLease lease.

(** The lane may have no state yet ([state?]): then only the durable record goes. *)
Definition releaseEvmNonceReservationState (lease : NonceLease) (nonce : Z) (hasState : bool)
    (removeCoordinationLease : NonceLease -> M W unit)
    (readActiveLeaseNonces : ActiveQuery -> M W (list string)) : M W unit :=
  removeCoordinationLease lease ;;
  if negb hasState then ret tt
  else
    assign state (fun s => set_evmInFlight (mdel (Z_to_string nonce) (evmInFlight s)) s) ;;
    active <- readActiveLeaseNonces (mkActiveQuery None (Some (leaseId lease))) ;;
    let hasOtherActiveLease := negb (length active =? 0)%nat in
    s <- deref state ;;
    when negb hasOtherActiveLease && (length (evmInFlight s) =? 0)%nat do
      assign state (set_lastRefreshMs None).

Definition reconcileEvmLaneState (lane : EvmNonceLane) (nowMs staleInFlightThresholdMs : Z)
    (refreshFromChain : EvmNonceLane -> M W Z) : M W NonceLaneStatus :=
  chainNextNonce <- refreshFromChain lane ;;
  s <- deref state ;;
  let unresolved := sort_nonces (map (fun e => eif_nonce e.2) (evmInFlight s)) in
  let blockedState := readBlockedEvmInFlight s nowMs staleInFlightThresholdMs in
  ret (mkLaneStatus chainNextNonce unresolved
         (match blockedState with Some _ => true | None => false end)
         (fst <$> blockedState)).
End Operations.

(** ** Finding a free nonce

    The loop of [reserveEvmNonceLeaseUnlocked] and of
    [reserveNearNoncesFromState]: step from a candidate past every taken one. *)
Fixpoint skip_taken (fuel : nat) (taken : Z -> bool) (candidate : Z) : option Z :=
  match fuel with
  | O => None
  | S fuel => if taken candidate then skip_taken fuel taken (candidate + 1) else Some candidate
  end.

(** [set.has(candidate.toString())]. *)
Definition has_nonce (nonces : list string) (candidate : Z) : bool :=
  shas (Z_to_string candidate) nonces.

Lemma skip_taken_spec fuel taken : forall c c',
  skip_taken fuel taken c = Some c' ->
  c <= c' /\ taken c' = false /\ forall x, c <= x < c' -> taken x = true.
Proof.
  induction fuel as [|fuel IH]; intros c c'; simpl; [done|].
  destruct (taken c) eqn:E; [|intros [= <-]; split_and!; [lia|done|lia]].
  intros (H1 & H2 & H3)%IH. split_and!; [lia|done|]. intros x Hx.
  destruct (decide (x = c)) as [->|]; [done|]. apply H3. lia.
Qed.

Lemma skip_taken_none fuel taken : forall c,
  skip_taken fuel taken c = None -> forall x, c <= x < c + Z.of_nat fuel -> taken x = true.
Proof.
  induction fuel as [|fuel IH]; intros c; simpl; [lia|].
  destruct (taken c) eqn:E; [|done]. intros H x Hx.
  destruct (decide (x = c)) as [->|]; [done|]. eapply (IH (c + 1)); [done|lia].
Qed.

(** Each candidate is one of the taken strings, so one more candidate than
    there are strings is enough. *)
Lemma skip_taken_total (names : list string) taken fuel c :
  (forall x, taken x = true -> Z_to_string x ∈ names) -> (length names < fuel)%nat ->
  exists c', skip_taken fuel taken c = Some c'.
Proof.
  intros Hn Hf. destruct (skip_taken fuel taken c) as [c'|] eqn:E; [eauto|]. exfalso.
  pose proof (skip_taken_none _ _ _ E) as Hall.
  set (l := map (fun i => Z_to_string (c + Z.of_nat i)) (seq 0 fuel)).
  assert (length l <= length names)%nat as Hlen.
  { apply submseteq_length, NoDup_submseteq.
    - unfold l. apply NoDup_fmap_2_strong; [|apply NoDup_seq].
      intros i j _ _ H%Z_to_string_inj. lia.
    - intros s (i & -> & Hi%elem_of_seq)%list_elem_of_fmap. apply Hn, Hall. lia. }
  unfold l in Hlen. rewrite length_map, length_seq in Hlen. lia.
Qed.


(** ** When a lane is blocked *)

Lemma oldest_fold l : forall o,
  exists r, List.fold_left (fun oldest (e : string * EvmInFlightNonceRecord) =>
       match oldest with
       | None => Some e.2
       | Some o => if eif_nonce e.2 <? eif_nonce o then Some e.2 else oldest
       end) l (Some o) = Some r /\
    (r = o \/ exists k, (k, r) ∈ l) /\ eif_nonce r <= eif_nonce o /\
    forall k e, (k, e) ∈ l -> eif_nonce r <= eif_nonce e.
Proof.
  induction l as [|[k e] l IH]; intros o; simpl.
  { exists o. split_and!; [done|by left|lia|set_solver]. }
  destruct (eif_nonce e <? eif_nonce o) eqn:E;
    [destruct (IH e) as (r & Hr & Hin & Hle & Hall)|destruct (IH o) as (r & Hr & Hin & Hle & Hall)];
    exists r; (split; [done|]); (split; [set_solver|]); (split; [lia|]);
    intros k' e' [?|?]%elem_of_cons; simplify_eq; eauto; lia.
Qed.

Lemma oldestInFlight_spec l :
  match oldestInFlight l with
  | Some r => (exists k, (k, r) ∈ l) /\ forall k e, (k, e) ∈ l -> eif_nonce r <= eif_nonce e
  | None => l = []
  end.
Proof.
  destruct l as [|[k e] l]; [done|]. unfold oldestInFlight. simpl.
  destruct (oldest_fold l e) as (r & -> & Hin & Hle & Hall). split; [set_solver|].
  intros k' e' [?|?]%elem_of_cons; simplify_eq; eauto.
Qed.

(** A lane is blocked exactly when the chain has not passed its least in-flight
    nonce and that nonce has seen no update for the stale threshold; the nonce
    reported is the least one. *)
Theorem blocked_lane_iff s nowMs threshold :
  match readBlockedEvmInFlight s nowMs threshold with
  | Some (nonce, ageMs) =>
      exists chain k r, chainNonce s = Some chain /\ (k, r) ∈ evmInFlight s /\
        eif_nonce r = nonce /\ chain <= nonce /\ ageMs = Z.max 0 (nowMs - eif_updatedAtMs r) /\
        threshold <= ageMs /\ forall k' r', (k', r') ∈ evmInFlight s -> nonce <= eif_nonce r'
  | None =>
      chainNonce s = None \/ evmInFlight s = [] \/
      exists chain k r, chainNonce s = Some chain /\ (k, r) ∈ evmInFlight s /\
        (forall k' r', (k', r') ∈ evmInFlight s -> eif_nonce r <= eif_nonce r') /\
        (eif_nonce r < chain \/ Z.max 0 (nowMs - eif_updatedAtMs r) < threshold)
  end.
Proof.
  unfold readBlockedEvmInFlight. destruct (chainNonce s) as [chain|]; [|by left].
  pose proof (oldestInFlight_spec (evmInFlight s)) as Ho.
  destruct (oldestInFlight (evmInFlight s)) as [o|]; [|auto]. destruct Ho as [(k & Hk) Hmin].
  destruct (eif_nonce o <? chain) eqn:E1.
  { right; right. exists chain, k, o. split_and!; [done..|]. left. lia. }
  destruct (Z.max 0 (nowMs - eif_updatedAtMs o) <? threshold) eqn:E2.
  { right; right. exists chain, k, o. split_and!; [done..|]. right. lia. }
  exists chain, k, o. split_and!; try done; lia.
Qed.

(** ** What a refresh leaves behind *)

(** A reference that reads back what was written to it. *)
Class LawfulRef {W A} (r : Ref W A) : Prop := {
  rget_rset a w : rget r (rset r a w) = a;
}.

(** A computation that leaves the object of a reference alone. *)
Definition keeps {W A B} (r : Ref W A) (m : M W B) : Prop := steps (fun w w' => rget r w' = rget r w) m.

#[export] Instance keeps_preorder {W A} (r : Ref W A) : PreOrder (fun w w' => rget r w' = rget r w).
Proof. split; [done|]. intros ??? H1 H2. congruence. Qed.

Lemma wp_keeps {W A B} (r : Ref W A) (m : M W B) (P : A -> Prop) w :
  keeps r m -> P (rget r w) -> wp m (fun _ w' => P (rget r w')) (fun _ w' => P (rget r w')) w.
Proof.
  intros Hk Hp. eapply wp_mono; [by apply (steps_wp _ _ _ Hk)|..]; simpl; by intros ? ? ->.
Qed.

Lemma wp_assign {W A} (r : Ref W A) f Q E (w : W) :
  Q tt (rset r (f (rget r w)) w) -> wp (assign r f) Q E w.
Proof. done. Qed.

Lemma wp_deref {W A} (r : Ref W A) Q E (w : W) : Q (rget r w) w -> wp (deref r) Q E w.
Proof. done. Qed.

Lemma wp_lift {W A} (res : Result A) Q E (w : W) :
  (forall a, res = Ok a -> Q a w) -> (forall e, res = Throw e -> E e w) -> wp (lift res) Q E w.
Proof. destruct res; unfold wp, lift; auto. Qed.

Lemma highest_nonce_ge nonces : forall h r,
  highest_nonce h nonces = Ok r ->
  h <= r /\ forall s z, s ∈ nonces -> BigInt_of_string s = Some z -> z <= r.
Proof.
  induction nonces as [|n nonces IH]; intros h r; simpl.
  { intros [= <-]. split; [lia|]. intros s z ?%not_elem_of_nil. done. }
  destruct (BigInt_of_string n) as [v|] eqn:E; [|done].
  intros [Hle Hall]%IH. split; [destruct (h <? v) eqn:?; lia|].
  intros s z [->|Hs]%elem_of_cons Hz; [|eauto]. rewrite E in Hz. injection Hz as <-.
  destruct (h <? v) eqn:?; lia.
Qed.

Lemma highestInFlight_fold l : forall h,
  h <= List.fold_left (fun h (e : string * EvmInFlightNonceRecord) =>
         if h <? eif_nonce e.2 then eif_nonce e.2 else h) l h /\
  forall k e, (k, e) ∈ l -> eif_nonce e <=
    List.fold_left (fun h (e : string * EvmInFlightNonceRecord) =>
         if h <? eif_nonce e.2 then eif_nonce e.2 else h) l h.
Proof.
  induction l as [|[k e] l IH]; intros h; simpl; [split; [lia|set_solver]|].
  destruct (IH (if h <? eif_nonce e then eif_nonce e else h)) as [Hle Hall].
  split; [destruct (h <? eif_nonce e) eqn:?; lia|].
  intros k' e' [?|?]%elem_of_cons; simplify_eq; [|eauto]. destruct (h <? eif_nonce e) eqn:?; lia.
Qed.

Lemma highestInFlight_ge l k e : (k, e) ∈ l -> eif_nonce e <= highestInFlight l.
Proof. apply (highestInFlight_fold l 0). Qed.

Lemma refreshedCandidate_ge chain current n highest pruned c :
  refreshedCandidate chain current n highest pruned = c ->
  0 <= c /\ chain <= c /\ (0 < highest -> highest < c) /\
  (forall k e, (k, e) ∈ pruned -> 0 < eif_nonce e -> eif_nonce e < c).
Proof.
  unfold refreshedCandidate. cbv zeta. intros <-.
  match goal with |- context [maxBigint ?l] => pose proof (fun x => maxBigint_ge l x) as Hm end.
  split_and!.
  - apply Hm. set_solver.
  - apply Hm. set_solver.
  - intros Hh. apply Z.lt_le_trans with (highest + 1); [lia|]. apply Hm.
    replace (0 <? highest) with true by lia. set_solver.
  - intros k e Hin Hp. pose proof (highestInFlight_ge _ _ _ Hin).
    apply Z.lt_le_trans with (highestInFlight pruned + 1); [lia|]. apply Hm.
    replace (0 <? highestInFlight pruned) with true by lia. set_solver.
Qed.

Lemma elem_pruneInFlight c l k e : (k, e) ∈ pruneInFlight c l <-> (k, e) ∈ l /\ c <= eif_nonce e.
Proof.
  unfold pruneInFlight. rewrite list_elem_of_In, filter_In, <- list_elem_of_In. simpl.
  rewrite negb_true_iff, Z.ltb_ge. done.
Qed.

(** The lane state a refresh that saw [chain] and [active] leaves. *)
Definition refreshed (chain : Z) (active : list string) (before after : EvmNonceLaneState) : Prop :=
  chainNonce after = Some chain /\ 0 <= chain /\
  (exists next, nextCandidate after = Some next /\ chain <= next /\
     (forall s z, s ∈ active -> BigInt_of_string s = Some z -> 0 < z -> z < next) /\
     (forall k e, (k, e) ∈ evmInFlight after -> 0 < eif_nonce e -> eif_nonce e < next)) /\
  (forall k e, (k, e) ∈ evmInFlight after <-> (k, e) ∈ evmInFlight before /\ chain <= eif_nonce e) /\
  inflightRefresh after = false.

Section RefreshSpec.
Context {W : Type} (state : Ref W EvmNonceLaneState) `{!LawfulRef state}.
Context (lane : EvmNonceLane) (nowMs : Z) (fetchChainNonce : EvmNonceLane -> M W Z)
  (readActiveLeaseNonces : ActiveQuery -> M W (list string)).

Lemma refreshTask_wp w s0 :
  keeps state (fetchChainNonce lane) -> (forall q, keeps state (readActiveLeaseNonces q)) ->
  rget state w = set_inflightRefresh true s0 ->
  wp (refreshTask state lane nowMs fetchChainNonce readActiveLeaseNonces)
    (fun chain w' => exists active,
       refreshed chain active s0 (set_inflightRefresh false (rget state w')) /\
       lastRefreshMs (rget state w') = Some nowMs)
    (fun _ w' => rget state w' = set_inflightRefresh true s0) w.
Proof.
  intros Hf Hr Hw. unfold refreshTask. apply wp_bind.
  eapply wp_mono; [apply (wp_keeps state _ (fun s => s = set_inflightRefresh true s0) w Hf Hw)| |done].
  intros raw w1 Hw1. simpl. apply wp_bind.
  eapply wp_mono; [apply (wp_keeps state _ (fun s => s = set_inflightRefresh true s0) w1 (Hr _) Hw1)
    | |done].
  intros active w2 Hw2. simpl. apply wp_bind, wp_lift; [|done]. intros highest Hh.
  repeat (apply wp_bind, wp_assign). apply wp_ret. rewrite !rget_rset, Hw2.
  set (chain := if 0 <=? raw then raw else 0).
  exists active. split; [|done]. simpl.
  pose proof (refreshedCandidate_ge chain (nextCandidate s0) (length active) highest
    (pruneInFlight chain (evmInFlight s0)) _ eq_refl) as (H0 & Hc & Hl & Hi).
  split; [done|]. split; [unfold chain; destruct (0 <=? raw) eqn:?; lia|].
  split; [|split; [apply elem_pruneInFlight|done]].
  eexists. split; [done|]. split; [done|]. split; [|done].
  intros s z Hs Hz Hpos. apply (highest_nonce_ge _ _ _ Hh) in Hz; [|done].
  eapply Z.le_lt_trans; [done|]. apply Hl. lia.
Qed.

(** A refresh that succeeds records the chain's nonce, forgets exactly the
    in-flight nonces the chain has passed, and leaves a next candidate above
    every nonce still in use; one that fails leaves the lane state as it was. *)
Theorem refresh_spec w :
  keeps state (fetchChainNonce lane) -> (forall q, keeps state (readActiveLeaseNonces q)) ->
  inflightRefresh (rget state w) = false ->
  wp (refreshEvmLaneFromChainLocked state lane nowMs fetchChainNonce readActiveLeaseNonces)
    (fun chain w' => exists active, refreshed chain active (rget state w) (rget state w') /\
       lastRefreshMs (rget state w') = Some nowMs)
    (fun _ w' => rget state w' = rget state w) w.
Proof.
  intros Hf Hr Hi. unfold refreshEvmLaneFromChainLocked.
  apply wp_bind, wp_deref. rewrite Hi. apply wp_bind, wp_assign. apply wp_bind, wp_try.
  eapply wp_mono; [apply (refreshTask_wp _ (rget state w) Hf Hr); by rewrite rget_rset|..]; simpl.
  - intros chain w' (active & Href & Hlast). apply wp_bind, wp_assign, wp_ret.
    rewrite rget_rset. exists active. split; [done|]. by simpl.
  - intros e w' Hw'. apply wp_bind, wp_assign, wp_throw. rewrite rget_rset, Hw'.
    destruct (rget state w). simpl in *. by subst.
Qed.
End RefreshSpec.

(** The lane state on its own, as a world. *)
Definition lane_self : Ref EvmNonceLaneState EvmNonceLaneState := mkRef (fun s => s) (fun s _ => s).

#[export] Instance lane_self_lawful : LawfulRef lane_self.
Proof. split. done. Defined.

Definition example_lane : EvmNonceLane :=
  mkEvmLane (EvmEip155ChainTarget 1 "ethereum-mainnet") "wallet-1"
    "0x00000000000000000000000000000000000000aa" None.

(** Nonces 4 and 6 are in flight when the chain reports 5 as the next nonce. *)
Definition example_lane_state : EvmNonceLaneState :=
  mkEvmState (Some 4) (Some 7)
    [("4", mkEvmInFlight 4 None InFlightAccepted 0 0); ("6", mkEvmInFlight 6 None InFlightAccepted 0 0)]
    (Some 0) false.

Lemma refresh_spec_witness :
  exists w', refreshEvmLaneFromChainLocked lane_self example_lane 100 (fun _ => ret 5)
    (fun _ => ret []) example_lane_state = (Ok 5, w') /\
  exists active, refreshed 5 active example_lane_state w'.
Proof.
  pose proof (refresh_spec lane_self example_lane 100 (fun _ => ret 5) (fun _ => ret [])
    example_lane_state (fun w => eq_refl) (fun q w => eq_refl) eq_refl) as H.
  eexists. split; [reflexivity|]. destruct H as (active & H & _). exists active. exact H.
Defined.
