(* ===== verification/NearNonceLane.v ===== *)
(** * The NEAR nonce lane

    [nonce/nearNonceLane.ts]: the runtime's NEAR access-key state, how it is
    bound, refreshed from the chain and reconciled, and how nonces are reserved
    from it.  The refresh is split at its one suspension point, so that other
    work can be placed between the request and its answer. *)

From stdpp Require Import sorting.
From S2P Require Import Prelude JsValues ChainTarget NonceTypes NonceLaneKeys EvmNonceLane.
Local Open Scope Z_scope.
Local Open Scope js_scope.

(** ** Chain data *)

Inductive AccessKeyPermission : Type :=
| FullAccess
| FunctionCallAccess (allowance receiver_id : string) (method_names : list string).

Record AccessKeyView : Type := mkAccessKey {
  ak_nonce : Z;
  ak_permission : AccessKeyPermission;
  ak_block_hash : string;
  ak_block_height : NumVal;
}.

(** [TransactionContext] of [types/rpc.ts]. *)
Record TransactionContext : Type := mkTxContext {
  nearPublicKeyStr : string;
  accessKeyInfo : AccessKeyView;
  nextNonce : string;
  txBlockHeight : string;
  txBlockHash : string;
}.

Definition context_with_nonce (accessKeyInfo' : AccessKeyView) (nextNonce' : string)
    (c : TransactionContext) : TransactionContext :=
  mkTxContext (nearPublicKeyStr c) accessKeyInfo' nextNonce' (txBlockHeight c) (txBlockHash c).

Definition isAccessKeyViewLike (value : JsVal) : bool :=
  isObject value &&
  match normalizeBigint (jget "nonce" value) "near access-key nonce" with
  | Ok _ => true
  | Throw _ => false
  end.

Definition string_or_empty (v : JsVal) : string :=
  match v with JString s => s | _ => EmptyString end.

Fixpoint strings_of (l : list JsVal) : list string :=
  match l with
  | [] => []
  | JString s :: l' => s :: strings_of l'
  | _ :: l' => strings_of l'
  end.

Definition normalizeAccessKeyPermission (value : JsVal) : AccessKeyPermission :=
  let functionCall := jget "FunctionCall" value in
  if isObject value && isObject functionCall then
    FunctionCallAccess (string_or_empty (jget "allowance" functionCall))
      (string_or_empty (jget "receiver_id" functionCall))
      (match jget "method_names" functionCall with JArray l => strings_of l | _ => [] end)
  else FullAccess.

Definition normalizeAccessKeyView (value : JsVal) : Result AccessKeyView :=
  match normalizeBigint (jget "nonce" value) "near access-key nonce" with
  | Throw e => Throw e
  | Ok nonce =>
      Ok (mkAccessKey nonce (normalizeAccessKeyPermission (jget "permission" value))
            (string_or_empty (jget "block_hash" value))
            (match jget "block_height" value with JNumber n => n | _ => NInt 0 end))
  end.

Definition makePlaceholderAccessKey : AccessKeyView :=
  mkAccessKey 0 FullAccess EmptyString (NInt 0).

Definition isBlockResultLike (value : JsVal) : bool :=
  isObject value &&
  let header := jget "header" value in
  truthy header &&
  match jget "hash" header with JString _ => true | _ => false end &&
  match jget "height" header with JUndefined => false | _ => true end.

Definition isMissingNearAccessKeyError (message : string) : bool :=
  let normalized := to_lower message in
  includes "does not exist while viewing" normalized
  || includes "access key not found" normalized
  || includes "unknown public key" normalized
  || includes "unknown_account" normalized
  || includes "unknown account" normalized
  || includes "unknown_access_key" normalized
  || includes "does not exist" normalized
  || includes "doesn't exist" normalized.

(** [/^[0-9a-f]{64}$/] of [shared-ts/src/utils/near.ts]. *)
Definition isImplicitNearAccountId (value : string) : bool :=
  (String.length value =? 64)%nat && all_chars is_lower_hex value.

(** [BigInt(text)]. *)
Definition BigInt_ (text : string) : Result Z :=
  of_option (JsError ("Cannot convert " +:+ text +:+ " to a BigInt")) (BigInt_of_string text).

(** ** Readiness *)

Record ReadySigning : Type := mkReadySigning {
  rs_nonce : Z;
  rs_accessKeyNonce : string;
  rs_nextNonce : string;
  rs_txBlockHeight : string;
  rs_txBlockHash : string;
}.

Inductive NearExecutionReadiness : Type :=
| ImplicitUnfunded (walletId nearAccountId nearPublicKeyStr : string)
| AccessKeyAvailable (walletId nearAccountId nearPublicKeyStr : string) (ready : ReadySigning)
| SponsoredNamedReady (walletId nearAccountId nearPublicKeyStr : string) (ready : ReadySigning)
| AccountLookupFailed (walletId nearAccountId nearPublicKeyStr message : string).

Definition readinessNonceFromTransactionContext (ctx : option TransactionContext) : Z :=
  let raw := trim match ctx with Some c => nextNonce c | None => "0" end in
  if nonempty raw then default 0 (BigInt_of_string raw) else 0.

Definition classifyNearExecutionReadiness (walletId nearAccountId nearPublicKey : string)
    (accessKeyAvailable : bool) (ctx : option TransactionContext) : NearExecutionReadiness :=
  let walletId := trim walletId in
  let nearAccountId := trim nearAccountId in
  let nearPublicKey := trim nearPublicKey in
  let field f := trim match ctx with Some c => f c | None => EmptyString end in
  if negb accessKeyAvailable && isImplicitNearAccountId nearAccountId
  then ImplicitUnfunded walletId nearAccountId nearPublicKey
  else
    let ready :=
      mkReadySigning (readinessNonceFromTransactionContext ctx)
        (field (fun c => Z_to_string (ak_nonce (accessKeyInfo c)))) (field nextNonce)
        (field txBlockHeight) (field txBlockHash) in
    if isImplicitNearAccountId nearAccountId
    then AccessKeyAvailable walletId nearAccountId nearPublicKey ready
    else SponsoredNamedReady walletId nearAccountId nearPublicKey ready.

(** ** State *)

Record NearAccessKeySubject : Type := mkSubject {
  sub_walletId : string;
  sub_nearAccountId : string;
  sub_publicKey : string;
}.

#[global] Instance NearAccessKeySubject_eq_dec : EqDecision NearAccessKeySubject.
Proof. solve_decision. Defined.

Record NearNonceReadyContext : Type := mkReadyContext {
  transactionContext : TransactionContext;
  lastNonceUpdateMs : Z;
  lastBlockHeightUpdateMs : Z;
}.

(** [NearNoncePreviousContext]: [None] is the missing context. *)
Definition NearNoncePreviousContext : Type := option NearNonceReadyContext.

(** The promise of a fetch: still running under its request number, or settled. *)
Inductive NearFetchPromise : Type :=
| FetchRunning (requestId : Z)
| FetchSettled (result : Result TransactionContext).

Inductive NearNonceLaneLifecycle : Type :=
| Uninitialized
| AccessKeyBound (subject : NearAccessKeySubject) (context : NearNoncePreviousContext)
| AccessKeyLookupPending (subject : NearAccessKeySubject)
    (previousContext : NearNoncePreviousContext) (promise : NearFetchPromise)
| ImplicitUnfundedLane (subject : NearAccessKeySubject) (readiness : NearExecutionReadiness)
| LookupFailedLane (subject : NearAccessKeySubject) (readiness : NearExecutionReadiness).

Record NearInFlightNonceRecord : Type := mkNearInFlight {
  nif_nonce : Z;
  nif_txHash : string;
  nif_acceptedAtMs : Z;
  nif_updatedAtMs : Z;
}.

Record NearNonceLaneState : Type := mkNearState {
  lifecycle : NearNonceLaneLifecycle;
  inflightId : Z;
  refreshTimer : bool;
  prefetchTimer : bool;
  reservedNonces : list string;
  lastReservedNonce : option string;
  nearInFlight : list (string * NearInFlightNonceRecord);
}.

Definition set_lifecycle (l : NearNonceLaneLifecycle) (s : NearNonceLaneState) : NearNonceLaneState :=
  mkNearState l (inflightId s) (refreshTimer s) (prefetchTimer s) (reservedNonces s)
    (lastReservedNonce s) (nearInFlight s).
Definition set_inflightId (i : Z) (s : NearNonceLaneState) : NearNonceLaneState :=
  mkNearState (lifecycle s) i (refreshTimer s) (prefetchTimer s) (reservedNonces s)
    (lastReservedNonce s) (nearInFlight s).
Definition set_reserved (r : list string) (last : option string) (s : NearNonceLaneState)
    : NearNonceLaneState :=
  mkNearState (lifecycle s) (inflightId s) (refreshTimer s) (prefetchTimer s) r last (nearInFlight s).
Definition set_nearInFlight (m : list (string * NearInFlightNonceRecord)) (s : NearNonceLaneState)
    : NearNonceLaneState :=
  mkNearState (lifecycle s) (inflightId s) (refreshTimer s) (prefetchTimer s) (reservedNonces s)
    (lastReservedNonce s) m.

Definition createNearNonceLaneState : NearNonceLaneState :=
  mkNearState Uninitialized 0 false false [] None [].

Definition readNearAccessKeySubject (s : NearNonceLaneState) : option NearAccessKeySubject :=
  match lifecycle s with
  | Uninitialized => None
  | AccessKeyBound subject _ | AccessKeyLookupPending subject _ _
  | ImplicitUnfundedLane subject _ | LookupFailedLane subject _ => Some subject
  end.

Definition requireNearAccessKeySubject (s : NearNonceLaneState) : Result NearAccessKeySubject :=
  of_option (JsError "[NonceCoordinator] NEAR access key is not initialized")
    (readNearAccessKeySubject s).

Definition readNearReadyContext (l : NearNonceLaneLifecycle) : option NearNonceReadyContext :=
  match l with
  | Uninitialized | ImplicitUnfundedLane _ _ | LookupFailedLane _ _ => None
  | AccessKeyBound _ context => context
  | AccessKeyLookupPending _ previousContext _ => previousContext
  end.

Definition readNearPreviousContext (l : NearNonceLaneLifecycle) : NearNoncePreviousContext :=
  readNearReadyContext l.

Definition readNearTransactionContext (s : NearNonceLaneState) : option TransactionContext :=
  transactionContext <$> readNearReadyContext (lifecycle s).

Definition hasNearTransactionContext (s : NearNonceLaneState) : bool :=
  match readNearTransactionContext s with Some _ => true | None => false end.

Definition readNearInflightFetch (s : NearNonceLaneState) : option NearFetchPromise :=
  match lifecycle s with
  | AccessKeyLookupPending _ _ promise => Some promise
  | _ => None
  end.

Definition hasNearInflightFetch (s : NearNonceLaneState) : bool :=
  match readNearInflightFetch s with Some _ => true | None => false end.

Definition readNearActiveAccountId (s : NearNonceLaneState) : option string :=
  sub_nearAccountId <$> readNearAccessKeySubject s.

Definition readNearActivePublicKey (s : NearNonceLaneState) : option string :=
  sub_publicKey <$> readNearAccessKeySubject s.

(** ** Changes of the lifecycle *)

Definition setNearAccessKeyReady (subject : NearAccessKeySubject) (ctx : TransactionContext)
    (nowMs : Z) (updateNonce updateBlock : bool) (s : NearNonceLaneState) : NearNonceLaneState :=
  let previous := readNearReadyContext (lifecycle s) in
  set_lifecycle
    (AccessKeyBound subject
       (Some (mkReadyContext ctx
                (if updateNonce then nowMs else default nowMs (lastNonceUpdateMs <$> previous))
                (if updateBlock then nowMs
                 else default nowMs (lastBlockHeightUpdateMs <$> previous))))) s.

Definition setNearAccessKeyLookupPending (subject : NearAccessKeySubject)
    (promise : NearFetchPromise) (s : NearNonceLaneState) : NearNonceLaneState :=
  set_lifecycle (AccessKeyLookupPending subject (readNearPreviousContext (lifecycle s)) promise) s.

Definition setNearImplicitUnfunded (subject : NearAccessKeySubject) (s : NearNonceLaneState)
    : NearNonceLaneState :=
  set_lifecycle
    (ImplicitUnfundedLane subject
       (ImplicitUnfunded (sub_walletId subject) (sub_nearAccountId subject) (sub_publicKey subject))) s.

Definition setNearLookupFailed (subject : NearAccessKeySubject) (message : string)
    (s : NearNonceLaneState) : NearNonceLaneState :=
  set_lifecycle
    (LookupFailedLane subject
       (AccountLookupFailed (sub_walletId subject) (sub_nearAccountId subject)
          (sub_publicKey subject) message)) s.

Definition clearNearRefreshTimer (s : NearNonceLaneState) : NearNonceLaneState :=
  mkNearState (lifecycle s) (inflightId s) false (prefetchTimer s) (reservedNonces s)
    (lastReservedNonce s) (nearInFlight s).

Definition clearNearPrefetchTimer (s : NearNonceLaneState) : NearNonceLaneState :=
  mkNearState (lifecycle s) (inflightId s) (refreshTimer s) false (reservedNonces s)
    (lastReservedNonce s) (nearInFlight s).

Definition clearNearTransactionContext (s : NearNonceLaneState) : NearNonceLaneState :=
  let s :=
    set_lifecycle
      (match readNearAccessKeySubject s with
       | Some subject => AccessKeyBound subject None
       | None => Uninitialized
       end) s in
  clearNearPrefetchTimer (clearNearRefreshTimer (set_nearInFlight [] (set_reserved [] None s))).

Definition clearNearAccessKeyState (s : NearNonceLaneState) : NearNonceLaneState :=
  clearNearTransactionContext (set_lifecycle Uninitialized s).

Definition initializeNearAccessKeyState (walletId nearAccountId publicKey : string)
    (s : NearNonceLaneState) : Result NearNonceLaneState :=
  match normalizeSessionStatusRequiredString (JString nearAccountId) "nearAccountId",
        normalizeSessionStatusRequiredString (JString publicKey) "publicKey",
        normalizeSessionStatusRequiredString (JString walletId) "walletId" with
  | Ok nearAccountId, Ok publicKey, Ok walletId =>
      let subject := mkSubject walletId nearAccountId publicKey in
      if bool_decide (readNearAccessKeySubject s = Some subject) then Ok s
      else Ok (clearNearTransactionContext (set_lifecycle (AccessKeyBound subject None) s))
  | Throw e, _, _ => Throw e
  | _, Throw e, _ => Throw e
  | _, _, Throw e => Throw e
  end.

Definition commitNearTransactionContextForState (walletId nearAccountId publicKey : string)
    (ctx : TransactionContext) (nowMs : Z) (s : NearNonceLaneState) : Result NearNonceLaneState :=
  match initializeNearAccessKeyState walletId nearAccountId publicKey s with
  | Throw e => Throw e
  | Ok s =>
      match requireNearAccessKeySubject s with
      | Throw e => Throw e
      | Ok subject => Ok (setNearAccessKeyReady subject ctx nowMs true true s)
      end
  end.

Definition shouldPrefetchNearContext (s : NearNonceLaneState) (nowMs blockFreshnessThresholdMs : Z)
    : bool :=
  match readNearReadyContext (lifecycle s) with
  | None => true
  | Some ready => blockFreshnessThresholdMs <=? nowMs - lastBlockHeightUpdateMs ready
  end.

Definition nearAccessKeySubjectsMatch (left : option NearAccessKeySubject)
    (right : NearAccessKeySubject) : bool :=
  bool_decide (left = Some right).

(** ** Reserved nonces *)

(** The loop over the parsable reserved nonces: the greatest one. *)
Definition greatest_nonce (reserved : list string) : option Z :=
  List.fold_left
    (fun last value =>
       match BigInt_of_string value with
       | None => last
       | Some parsed =>
           match last with
           | None => Some parsed
           | Some l => if l <? parsed then Some parsed else last
           end
       end) reserved None.

Definition computeLastReservedNonce (reserved : list string) : option string :=
  Z_to_string <$> greatest_nonce reserved.

Definition releaseNearNonceFromState (nonce : string) (s : NearNonceLaneState) : NearNonceLaneState :=
  if shas nonce (reservedNonces s) then
    let reserved := sdel nonce (reservedNonces s) in
    set_reserved reserved (computeLastReservedNonce reserved) s
  else s.

(** Nonces above the chain's, and their greatest. *)
Definition above_chain (chainNonce : Z) (nonce : string) : bool :=
  match BigInt_of_string nonce with Some parsed => negb (parsed <=? chainNonce) | None => false end.

Definition pruneReservedNearNonces (chainNonce : Z) (reserved : list string)
    : list string * option string :=
  let next := List.filter (above_chain chainNonce) reserved in
  (next, Z_to_string <$> greatest_nonce next).

(** [if (reservedNonces.size > 0) { ... pruneReservedNearNonces ... }]. *)
Definition prune_reserved (chainNonce : Z) (s : NearNonceLaneState) : NearNonceLaneState :=
  if (length (reservedNonces s) =? 0)%nat then s
  else
    let '(next, last) := pruneReservedNearNonces chainNonce (reservedNonces s) in
    set_reserved next last s.

(** [x ? BigInt(x) + 1n : 0n]. *)
Definition succ_of (x : option string) : Result Z :=
  match x with
  | Some s => if nonempty s then match BigInt_ s with Ok z => Ok (z + 1) | Throw e => Throw e end
              else Ok 0
  | None => Ok 0
  end.

(** [ctx?.nextNonce ? BigInt(ctx.nextNonce) : 0n]. *)
Definition next_of (ctx : option TransactionContext) : Result Z :=
  match ctx with
  | Some c => if nonempty (nextNonce c) then BigInt_ (nextNonce c) else Ok 0
  | None => Ok 0
  end.

(** The planning loop: [count] candidates, each past the taken nonces. *)
Fixpoint plan_nonces (count : nat) (fuel : nat) (taken : Z -> bool) (candidate : Z)
    : option (list string) :=
  match count with
  | O => Some []
  | S count =>
      match skip_taken fuel taken candidate with
      | None => None
      | Some c =>
          match plan_nonces count fuel taken (c + 1) with
          | Some rest => Some (Z_to_string c :: rest)
          | None => None
          end
      end
  end.

Section Operations.
Context {W : Type} (state : Ref W NearNonceLaneState).

(** Assigns through a computation that may throw. *)
Definition assignR (f : NearNonceLaneState -> Result NearNonceLaneState) : M W unit :=
  s <- deref state ;;
  s' <- lift (f s) ;;
  assign state (fun _ => s').

Definition reserveNearNoncesFromState (lane : NearNonceLane) (countInput : Z)
    (readActiveLeaseNonces : string -> ActiveQuery -> M W (list string)) : M W (list string) :=
  s <- deref state ;;
  match readNearTransactionContext s with
  | None =>
      throw (JsError "NEAR transaction context not available - call fetchNearContext() first")
  | Some ctx =>
      let count := Z.max 0 countInput in
      if count <=? 0 then ret []
      else
        activeDurableNonces <- readActiveLeaseNonces (nearNonceLaneKey lane) (mkActiveQuery None None) ;;
        highestDurable <- lift (highest_nonce 0 activeDurableNonces) ;;
        s <- deref state ;;
        fromLast <- lift (succ_of (lastReservedNonce s)) ;;
        fromContext <- lift (BigInt_ (nextNonce ctx)) ;;
        let start :=
          maxBigint [fromLast; fromContext; if 0 <? highestDurable then highestDurable + 1 else 0] in
        let names := reservedNonces s ++ activeDurableNonces in
        planned <- lift (of_option OutOfFuel
          (plan_nonces (Z.to_nat count) (S (length names)) (has_nonce names) start)) ;;
        assign state (fun s =>
          set_reserved (List.fold_left (fun r n => sadd n r) planned (reservedNonces s))
            (match last planned with Some n => Some n | None => lastReservedNonce s end) s) ;;
        ret planned
  end.

Definition markNearBroadcastAcceptedState (lease : NonceLease) (nonce txHash : string) (nowMs : Z)
    (persistCoordinationLease : NonceLease -> NonceDurableLeaseLifecycle -> M W unit) : M W unit :=
  nonce <- lift (BigInt_ nonce) ;;
  assign state (fun s =>
    set_nearInFlight (mset (Z_to_string nonce) (mkNearInFlight nonce txHash nowMs nowMs)
                        (nearInFlight s)) s) ;;
  persistCoordinationLease lease (DurableBroadcastAccepted txHash).
End Operations.

(** ** Refreshing the access key *)

(** What the synchronous start of a fetch decides. *)
Record NearFetchPlan : Type := mkFetchPlan {
  fp_subject : NearAccessKeySubject;
  fp_requestId : Z;
  fp_previous : option TransactionContext;
  fp_fetchAccessKey : bool;
  fp_fetchBlock : bool;
}.

Definition planNearFetch (subject : NearAccessKeySubject) (requestId : Z) (force : bool) (nowMs : Z)
    (nonceFreshnessThresholdMs blockFreshnessThresholdMs : Z) (s : NearNonceLaneState)
    : NearFetchPlan :=
  let ready := readNearReadyContext (lifecycle s) in
  let stale last threshold :=
    match ready with
    | None => true
    | Some r => force || (threshold <=? nowMs - last r)
    end in
  let isNonceStale := stale lastNonceUpdateMs nonceFreshnessThresholdMs in
  let isBlockStale := stale lastBlockHeightUpdateMs blockFreshnessThresholdMs in
  let previous := transactionContext <$> ready in
  mkFetchPlan subject requestId previous isNonceStale
    (isBlockStale ||
     match previous with
     | Some c => negb (nonempty (txBlockHeight c)) || negb (nonempty (txBlockHash c))
     | None => true
     end).

(** The error a failed access-key request becomes. *)
Definition accessKeyLookupError (subject : NearAccessKeySubject) (error : Exn) : Exn :=
  let message := errorMessage error in
  if isMissingNearAccessKeyError message then
    if isImplicitNearAccountId (sub_nearAccountId subject)
    then NearImplicitAccountFundingRequired (sub_walletId subject) (sub_nearAccountId subject)
           (sub_publicKey subject)
    else NearAccountLookupFailed (sub_walletId subject) (sub_nearAccountId subject)
           (sub_publicKey subject) message
  else error.

(** The lifecycle a failed access-key request leaves. *)
Definition lookupErrorState (subject : NearAccessKeySubject) (error : Exn) (s : NearNonceLaneState)
    : NearNonceLaneState :=
  match error with
  | NearImplicitAccountFundingRequired _ _ _ => setNearImplicitUnfunded subject s
  | NearAccountLookupFailed _ _ _ _ => setNearLookupFailed subject (errorMessage error) s
  | _ => s
  end.

(** The block height and hash a fetch uses. *)
Definition fetchedBlock (plan : NearFetchPlan) (maybeBlock : JsVal) : Result (string * string) :=
  if fp_fetchBlock plan then
    if isBlockResultLike maybeBlock then
      let header := jget "header" maybeBlock in
      Ok (js_String (jget "height" header), string_or_empty (jget "hash" header))
    else Throw (JsError "[NonceCoordinator] failed to fetch NEAR block info")
  else
    Ok match fp_previous plan with
       | Some c => (txBlockHeight c, txBlockHash c)
       | None => (EmptyString, EmptyString)
       end.

Definition fetchedAccessKey (plan : NearFetchPlan) (maybeAccessKey : JsVal) : Result AccessKeyView :=
  let previous := match fp_previous plan with
                  | Some c => accessKeyInfo c
                  | None => makePlaceholderAccessKey
                  end in
  if fp_fetchAccessKey plan then
    if isAccessKeyViewLike maybeAccessKey then normalizeAccessKeyView maybeAccessKey else Ok previous
  else Ok previous.

(** The context a fetch builds from the answers and the current state. *)
Definition fetchedContext (plan : NearFetchPlan) (maybeAccessKey maybeBlock : JsVal)
    (s : NearNonceLaneState) : Result TransactionContext :=
  result_bind (fetchedAccessKey plan maybeAccessKey) (fun accessKey =>
  result_bind (fetchedBlock plan maybeBlock) (fun '(height, hash) =>
  result_bind (next_of (fp_previous plan)) (fun fromPrevious =>
  result_bind (succ_of (lastReservedNonce s)) (fun fromLast =>
    let nextCandidate := maxBigint [ak_nonce accessKey + 1; fromPrevious; fromLast; 1] in
    Ok (mkTxContext (sub_publicKey (fp_subject plan)) accessKey (Z_to_string nextCandidate)
          height hash))))).

(** The body of the [try] block after the requests were answered. *)
Definition settleNearFetchTry (plan : NearFetchPlan) (accessKeyAnswer blockAnswer : Result JsVal)
    (nowMs : Z) (s : NearNonceLaneState) : Result TransactionContext * NearNonceLaneState :=
  match (if fp_fetchAccessKey plan then accessKeyAnswer else Ok JNull) with
  | Throw e =>
      let error := accessKeyLookupError (fp_subject plan) e in
      (Throw error, lookupErrorState (fp_subject plan) error s)
  | Ok maybeAccessKey =>
      match (if fp_fetchBlock plan then blockAnswer else Ok JNull) with
      | Throw e => (Throw e, s)
      | Ok maybeBlock =>
          match fetchedContext plan maybeAccessKey maybeBlock s with
          | Throw e => (Throw e, s)
          | Ok ctx =>
              (Ok ctx,
               if nearAccessKeySubjectsMatch (readNearAccessKeySubject s) (fp_subject plan)
                  && (fp_requestId plan =? inflightId s)
               then setNearAccessKeyReady (fp_subject plan) ctx nowMs (fp_fetchAccessKey plan)
                      (fp_fetchBlock plan) s
               else s)
          end
      end
  end.

(** The [finally] block. *)
Definition settleNearFetchFinally (plan : NearFetchPlan) (s : NearNonceLaneState)
    : NearNonceLaneState :=
  if fp_requestId plan =? inflightId s then
    match lifecycle s with
    | AccessKeyLookupPending subject previousContext _ =>
        if nearAccessKeySubjectsMatch (Some subject) (fp_subject plan)
        then set_lifecycle (AccessKeyBound (fp_subject plan) previousContext) s
        else s
    | _ => s
    end
  else s.

Definition settleNearFetch (plan : NearFetchPlan) (accessKeyAnswer blockAnswer : Result JsVal)
    (nowMs : Z) (s : NearNonceLaneState) : Result TransactionContext * NearNonceLaneState :=
  let '(result, s) := settleNearFetchTry plan accessKeyAnswer blockAnswer nowMs s in
  (result, settleNearFetchFinally plan s).

(** What a call of [fetchNearFreshDataForState] does before it suspends. *)
Inductive NearFetchStart : Type :=
| JoinedFetch (promise : NearFetchPromise)
| CompletedFetch (result : Result TransactionContext)
| AwaitingFetch (plan : NearFetchPlan).

(** The synchronous part of [fetchNearFreshDataForState].  With nothing stale
    there is no suspension point: the task runs to its end before the lifecycle
    is set to pending, within one reading of the clock. *)
Definition startNearFetch (force : bool) (nowMs : Z)
    (nonceFreshnessThresholdMs blockFreshnessThresholdMs : Z) (s : NearNonceLaneState)
    : Result NearFetchStart * NearNonceLaneState :=
  match readNearInflightFetch s, force with
  | Some promise, false => (Ok (JoinedFetch promise), s)
  | _, _ =>
      match requireNearAccessKeySubject s with
      | Throw e => (Throw e, s)
      | Ok subject =>
          let s := set_inflightId (inflightId s + 1) s in
          let plan :=
            planNearFetch subject (inflightId s) force nowMs nonceFreshnessThresholdMs
              blockFreshnessThresholdMs s in
          if fp_fetchAccessKey plan || fp_fetchBlock plan then
            (Ok (AwaitingFetch plan),
             setNearAccessKeyLookupPending subject (FetchRunning (fp_requestId plan)) s)
          else
            let '(result, s) := settleNearFetch plan (Ok JNull) (Ok JNull) nowMs s in
            (Ok (CompletedFetch result),
             setNearAccessKeyLookupPending subject (FetchSettled result) s)
      end
  end.

Inductive NearTxOutcome : Type := TxFinalized | TxMissing | TxUnknown.

(** [/unknown transaction|does not exist|not found|not found in storage/i]. *)
Definition isMissingTransactionError (message : string) : bool :=
  let m := to_lower message in
  includes "unknown transaction" m || includes "does not exist" m || includes "not found" m
  || includes "not found in storage" m.

Definition readNearTxOutcome (answer : Result JsVal) : NearTxOutcome :=
  match answer with
  | Ok _ => TxFinalized
  | Throw error => if isMissingTransactionError (errorMessage error) then TxMissing else TxUnknown
  end.

(** The chain requests of a NEAR client. *)
Record NearClient (W : Type) : Type := mkNearClient {
  viewAccessKey : string -> string -> M W JsVal;
  viewBlock : M W JsVal;
  txStatus : string -> string -> M W JsVal;
}.
Arguments viewAccessKey {W} _ _ _.
Arguments viewBlock {W} _.
Arguments txStatus {W} _ _ _.

(** [await promise], with the outcome as a value. *)
Definition attempt {W A} (m : M W A) : M W (Result A) :=
  fun w => let '(r, w') := m w in (Ok r, w').

(** The new context after a nonce update: the previous one, or a bare one. *)
Definition updatedContext (subject : NearAccessKeySubject) (previous : option TransactionContext)
    (accessKey : AccessKeyView) (next : Z) : TransactionContext :=
  match previous with
  | Some c => context_with_nonce accessKey (Z_to_string next) c
  | None => mkTxContext (sub_publicKey subject) accessKey (Z_to_string next) "0" EmptyString
  end.

Definition accessKeyNotFound (account : string) : Exn :=
  JsError ("Access key not found or invalid for account " +:+ account).

(** [viewAccessKey] with the check and the normalisation that follow it. *)
Definition readAccessKey {W} (client : NearClient W) (account publicKey : string)
    : M W AccessKeyView :=
  raw <- viewAccessKey client account publicKey ;;
  if isAccessKeyViewLike raw then lift (normalizeAccessKeyView raw)
  else throw (accessKeyNotFound account).

Section ChainOperations.
Context {W : Type} (state : Ref W NearNonceLaneState) (client : NearClient W) (now : M W Z).

Definition fetchNearFreshDataForState (force : bool)
    (nonceFreshnessThresholdMs blockFreshnessThresholdMs : Z) : M W TransactionContext :=
  s <- deref state ;;
  nowMs <- (match readNearInflightFetch s, force with Some _, false => ret 0 | _, _ => now end) ;;
  start <- (fun w =>
    let '(r, s) := startNearFetch force nowMs nonceFreshnessThresholdMs
                     blockFreshnessThresholdMs (rget state w) in
    (r, rset state s w)) ;;
  match start with
  | JoinedFetch (FetchSettled result) | CompletedFetch result => lift result
  | JoinedFetch (FetchRunning _) => throw AwaitsOther
  | AwaitingFetch plan =>
      accessKeyAnswer <-
        (if fp_fetchAccessKey plan
         then attempt (viewAccessKey client (sub_nearAccountId (fp_subject plan))
                         (sub_publicKey (fp_subject plan)))
         else ret (Ok JNull)) ;;
      blockAnswer <- (if fp_fetchBlock plan then attempt (viewBlock client) else ret (Ok JNull)) ;;
      nowMs <- now ;;
      (fun w =>
         let '(r, s) := settleNearFetch plan accessKeyAnswer blockAnswer nowMs (rget state w) in
         (r, rset state s w))
  end.

(** The loop over the broadcast leases of a lane: the nonces that stay unresolved. *)
Fixpoint reconcileNearLeases (nearAccountId : string) (chainNonce : Z)
    (removeCoordinationLease : NonceLease -> M W unit)
    (transitionLease : NonceLease -> bool -> string -> string -> M W unit)
    (activeLeases : list (NonceLease * string)) : M W (list Z) :=
  match activeLeases with
  | [] => ret []
  | (lease, nonce) :: rest =>
      leaseNonce <- lift (BigInt_ nonce) ;;
      s <- deref state ;;
      let inFlight := mget (Z_to_string leaseNonce) (nearInFlight s) in
      let continue :=
        reconcileNearLeases nearAccountId chainNonce removeCoordinationLease transitionLease rest in
      let resolve finalized reason txHash :=
        transitionLease lease finalized reason txHash ;;
        removeCoordinationLease lease ;;
        assign state (fun s =>
          set_nearInFlight (mdel (Z_to_string leaseNonce) (nearInFlight s)) s) ;;
        assign state (releaseNearNonceFromState (Z_to_string leaseNonce)) ;;
        continue in
      if chainNonce <? leaseNonce then
        unresolved <- continue ;;
        ret (match inFlight with Some _ => leaseNonce :: unresolved | None => unresolved end)
      else
        match inFlight with
        | None => continue
        | Some record =>
            if nonempty (nif_txHash record) then
              answer <- attempt (txStatus client (nif_txHash record) nearAccountId) ;;
              match readNearTxOutcome answer with
              | TxFinalized => resolve true "near_tx_status_finalized" (nif_txHash record)
              | TxMissing => resolve false NonceAdvancedHashMissing (nif_txHash record)
              | TxUnknown => unresolved <- continue ;; ret (leaseNonce :: unresolved)
              end
            else continue
        end
  end.

Definition reconcileNearLaneState (lane : NearNonceLane)
    (activeLeases : M W (list (NonceLease * string)))
    (removeCoordinationLease : NonceLease -> M W unit)
    (transitionLease : NonceLease -> bool -> string -> string -> M W unit) : M W NonceLaneStatus :=
  active <- activeLeases ;;
  assignR state (initializeNearAccessKeyState (near_walletId lane) (near_nearAccountId lane)
                   (near_publicKey lane)) ;;
  accessKey <- readAccessKey client (near_nearAccountId lane) (near_publicKey lane) ;;
  let chainNonce := ak_nonce accessKey in
  let chainNextNonce := chainNonce + 1 in
  unresolved <- reconcileNearLeases (near_nearAccountId lane) chainNonce removeCoordinationLease
                  transitionLease active ;;
  s <- deref state ;;
  let previousContext := readNearTransactionContext s in
  fromPrevious <- lift (next_of previousContext) ;;
  fromLast <- lift (succ_of (lastReservedNonce s)) ;;
  let candidateNext := maxBigint [chainNextNonce; fromPrevious; fromLast] in
  nowMs <- now ;;
  let subject := mkSubject (near_walletId lane) (near_nearAccountId lane) (near_publicKey lane) in
  assign state
    (setNearAccessKeyReady subject (updatedContext subject previousContext accessKey candidateNext)
       nowMs true false) ;;
  assign state (prune_reserved chainNonce) ;;
  ret (mkLaneStatus chainNextNonce (sort_nonces unresolved) false None).

Definition updateNearNonceFromBlockchainState (actualNonce : string) : M W unit :=
  s <- deref state ;;
  subject <- lift (requireNearAccessKeySubject s) ;;
  try_catch
    (accessKey <- readAccessKey client (sub_nearAccountId subject) (sub_publicKey subject) ;;
     let chainNonce := ak_nonce accessKey in
     actual <- lift (BigInt_ actualNonce) ;;
     s <- deref state ;;
     let previousContext := readNearTransactionContext s in
     fromPrevious <- lift (next_of previousContext) ;;
     fromLast <- lift (succ_of (lastReservedNonce s)) ;;
     let candidateNext := maxBigint [chainNonce + 1; actual + 1; fromPrevious; fromLast] in
     nowMs <- now ;;
     assign state
       (setNearAccessKeyReady subject
          (updatedContext subject previousContext accessKey candidateNext) nowMs true false) ;;
     assign state (fun s => set_nearInFlight (mdel actualNonce (nearInFlight s)) s) ;;
     assign state (releaseNearNonceFromState actualNonce) ;;
     assign state (prune_reserved chainNonce))
    (fun error =>
     when isMissingNearAccessKeyError (errorMessage error) do
       (actual <- lift (BigInt_ actualNonce) ;;
        s <- deref state ;;
        let previousContext := readNearTransactionContext s in
        fromPrevious <- lift (next_of previousContext) ;;
        fromLast <- lift (succ_of (lastReservedNonce s)) ;;
        let candidateNext := maxBigint [actual + 1; fromPrevious; fromLast] in
        nowMs <- now ;;
        let accessKey := match previousContext with
                         | Some c => accessKeyInfo c
                         | None => makePlaceholderAccessKey
                         end in
        assign state
          (setNearAccessKeyReady subject
             (updatedContext subject previousContext accessKey candidateNext) nowMs true false))).

Definition refreshNearNonceAfterBroadcastRejectedState : M W unit :=
  s <- deref state ;;
  subject <- lift (requireNearAccessKeySubject s) ;;
  accessKey <- readAccessKey client (sub_nearAccountId subject) (sub_publicKey subject) ;;
  let chainNonce := ak_nonce accessKey in
  s <- deref state ;;
  fromLast <- lift (succ_of (lastReservedNonce s)) ;;
  let candidateNext := maxBigint [chainNonce + 1; fromLast; 1] in
  let previousContext := readNearTransactionContext s in
  nowMs <- now ;;
  assign state
    (setNearAccessKeyReady subject (updatedContext subject previousContext accessKey candidateNext)
       nowMs true false) ;;
  assign state (prune_reserved chainNonce).
End ChainOperations.

(** ** Reserving a batch *)

Lemma plan_nonces_spec count fuel taken : forall c l,
  plan_nonces count fuel taken c = Some l ->
  exists zs, l = map Z_to_string zs /\ length zs = count /\ StronglySorted Z.lt zs /\
    forall z, z ∈ zs -> c <= z /\ taken z = false.
Proof.
  induction count as [|count IH]; intros c l; simpl.
  { intros [= <-]. exists []. split_and!; [done..|constructor|]. by intros z ?%not_elem_of_nil. }
  destruct (skip_taken fuel taken c) as [c'|] eqn:E; [|done].
  apply skip_taken_spec in E as (Hle & Hfree & _).
  destruct (plan_nonces count fuel taken (c' + 1)) as [rest|] eqn:Er; [|done].
  intros [= <-]. destruct (IH _ _ Er) as (zs & -> & Hlen & Hs & Hall). exists (c' :: zs).
  split_and!; [done|simpl; lia| |].
  - constructor; [done|]. apply Forall_forall. intros z Hz. apply Hall in Hz. lia.
  - intros z [->|Hz]%elem_of_cons; [done|]. apply Hall in Hz as [??]. split; [lia|done].
Qed.

Lemma plan_nonces_total count fuel names taken : forall c,
  (forall x, taken x = true -> Z_to_string x ∈ names) -> (length names < fuel)%nat ->
  exists l, plan_nonces count fuel taken c = Some l.
Proof.
  induction count as [|count IH]; intros c Hn Hf; simpl; [eauto|].
  destruct (skip_taken_total names taken fuel c Hn Hf) as (c' & ->).
  destruct (IH (c' + 1) Hn Hf) as (l & ->). eauto.
Qed.

Lemma has_nonce_spec names z : has_nonce names z = true <-> Z_to_string z ∈ names.
Proof. unfold has_nonce, shas. apply bool_decide_eq_true. Qed.

Lemma elem_fold_sadd planned : forall r n,
  n ∈ List.fold_left (fun r n => sadd n r) planned r <-> n ∈ r \/ n ∈ planned.
Proof.
  induction planned as [|p planned IH]; intros r n; simpl; [set_solver|].
  rewrite IH, elem_sadd. set_solver.
Qed.

(** What a reservation of [count] nonces promises, given the lane state [s0] it
    started from and the active nonces [active] it read. *)
Definition batch_reserved (count : Z) (ctx : TransactionContext) (active : list string)
    (s0 s1 : NearNonceLaneState) (planned : list string) : Prop :=
  exists zs, planned = map Z_to_string zs /\ Z.of_nat (length zs) = count /\
    StronglySorted Z.lt zs /\
    (forall z, z ∈ zs ->
       ~ Z_to_string z ∈ reservedNonces s0 /\ ~ Z_to_string z ∈ active /\
       (forall n, BigInt_of_string (nextNonce ctx) = Some n -> n <= z) /\
       (forall l n, lastReservedNonce s0 = Some l -> nonempty l = true ->
          BigInt_of_string l = Some n -> n < z) /\
       (forall a n, a ∈ active -> BigInt_of_string a = Some n -> 0 < n -> n < z)) /\
    (forall n, n ∈ reservedNonces s1 <-> n ∈ reservedNonces s0 \/ n ∈ planned) /\
    lifecycle s1 = lifecycle s0.

Lemma BigInt_not_fuel s : BigInt_ s <> Throw OutOfFuel.
Proof. unfold BigInt_, of_option. by destruct (BigInt_of_string s). Qed.

Lemma succ_of_not_fuel o : succ_of o <> Throw OutOfFuel.
Proof.
  unfold succ_of. destruct o as [s|]; [|done]. destruct (nonempty s); [|done].
  pose proof (BigInt_not_fuel s). by destruct (BigInt_ s).
Qed.

Lemma highest_nonce_not_fuel nonces : forall h, highest_nonce h nonces <> Throw OutOfFuel.
Proof. induction nonces as [|n nonces IH]; intros h; simpl; [done|]. by case_match. Qed.

Lemma succ_of_le o f l n :
  succ_of o = Ok f -> o = Some l -> nonempty l = true -> BigInt_of_string l = Some n -> f = n + 1.
Proof.
  intros Hs -> Hn Hz. unfold succ_of, BigInt_ in Hs. rewrite Hn, Hz in Hs. simpl in Hs. congruence.
Qed.

Lemma BigInt_le s f n : BigInt_ s = Ok f -> BigInt_of_string s = Some n -> f = n.
Proof. unfold BigInt_. intros H Hz. rewrite Hz in H. simpl in H. congruence. Qed.

(** The plan from the computed start keeps clear of everything in use. *)
Lemma planned_batch count ctx active s0 fromLast fromContext highest planned :
  0 < count ->
  highest_nonce 0 active = Ok highest -> succ_of (lastReservedNonce s0) = Ok fromLast ->
  BigInt_ (nextNonce ctx) = Ok fromContext ->
  plan_nonces (Z.to_nat count) (S (length (reservedNonces s0 ++ active)))
    (has_nonce (reservedNonces s0 ++ active))
    (maxBigint [fromLast; fromContext; if 0 <? highest then highest + 1 else 0]) = Some planned ->
  batch_reserved count ctx active s0
    (set_reserved (List.fold_left (fun r n => sadd n r) planned (reservedNonces s0))
       (match last planned with Some n => Some n | None => lastReservedNonce s0 end) s0) planned.
Proof.
  intros Hc Hh Hl Hx Hp. apply plan_nonces_spec in Hp as (zs & -> & Hlen & Hs & Hall).
  exists zs. split_and!; [done|lia|done| |intros n; apply elem_fold_sadd|done].
  intros z [Hge Hfree]%Hall.
  assert (~ Z_to_string z ∈ reservedNonces s0 ++ active) as Hnot.
  { rewrite <- has_nonce_spec. congruence. }
  pose proof (fun x => maxBigint_ge [fromLast; fromContext; if 0 <? highest then highest + 1 else 0] x)
    as Hm.
  split_and!; [set_solver..| | |].
  - intros n Hn. rewrite <- (BigInt_le _ _ _ Hx Hn). etransitivity; [|done]. apply Hm. set_solver.
  - intros l n Hln Hne Hn. pose proof (succ_of_le _ _ _ _ Hl Hln Hne Hn).
    assert (fromLast <= z); [etransitivity; [|done]; apply Hm; set_solver|lia].
  - intros a n Ha Hn Hpos. destruct (highest_nonce_ge _ _ _ Hh) as [_ Hhigh].
    pose proof (Hhigh _ _ Ha Hn). replace (0 <? highest) with true in * by lia.
    assert (highest + 1 <= z); [etransitivity; [|done]; apply Hm; set_solver|lia].
Qed.

Section ReserveSpec.
Context {W : Type} (state : Ref W NearNonceLaneState) `{!LawfulRef state}.

(** A reservation hands out exactly the number of nonces asked for, strictly
    increasing, at or above the nonce the chain context expects, above the
    last one reserved and above every active one, and not reserved before; or
    it fails without touching the lane.  The search always ends. *)
Lemma reserveNearNonces_spec lane count readActive w w1 ctx active :
  readNearTransactionContext (rget state w) = Some ctx -> 0 < count ->
  readActive (nearNonceLaneKey lane) (mkActiveQuery None None) w = (Ok active, w1) ->
  rget state w1 = rget state w ->
  wp (reserveNearNoncesFromState state lane count readActive)
    (fun planned w' => batch_reserved count ctx active (rget state w) (rget state w') planned)
    (fun e w' => e <> OutOfFuel /\ rget state w' = rget state w) w.
Proof.
  intros Hctx Hcount Hread Hw1. unfold reserveNearNoncesFromState.
  apply wp_bind, wp_deref. rewrite Hctx, Z.max_r by lia.
  replace (count <=? 0) with false by lia. apply wp_bind. unfold wp at 1. rewrite Hread.
  apply wp_bind, wp_lift;
    [|intros e He; split; [intros ->; by apply highest_nonce_not_fuel in He|done]].
  intros highest Hh. apply wp_bind, wp_deref. rewrite Hw1.
  apply wp_bind, wp_lift; [|intros e He; split; [intros ->; by apply succ_of_not_fuel in He|done]].
  intros fromLast Hl.
  apply wp_bind, wp_lift; [|intros e He; split; [intros ->; by apply BigInt_not_fuel in He|done]].
  intros fromContext Hx. apply wp_bind, wp_lift.
  - intros planned Hp. apply wp_bind, wp_assign, wp_ret. rewrite rget_rset, Hw1.
    unfold of_option in Hp.
    destruct (plan_nonces _ _ _ _) as [l|] eqn:Epl in Hp; [|done]. injection Hp as ->.
    by eapply planned_batch.
  - intros e He. exfalso. unfold of_option in He.
    set (start := maxBigint _) in He.
    destruct (plan_nonces_total (Z.to_nat count)
      (S (length (reservedNonces (rget state w) ++ active)))
      (reservedNonces (rget state w) ++ active)
      (has_nonce (reservedNonces (rget state w) ++ active)) start) as (l & Hl').
    + intros x. apply has_nonce_spec.
    + lia.
    + by rewrite Hl' in He.
Qed.
End ReserveSpec.

(** ** Example *)

Definition near_self : Ref NearNonceLaneState NearNonceLaneState := mkRef (fun s => s) (fun s _ => s).

#[export] Instance near_self_lawful : LawfulRef near_self.
Proof. split. done. Defined.

Definition example_context (nonce : Z) (next : string) : TransactionContext :=
  mkTxContext "ed25519:key" (mkAccessKey nonce FullAccess EmptyString (NInt 1)) next "100" "blockhash".

Definition example_subject : NearAccessKeySubject := mkSubject "wallet-1" "alice.near" "ed25519:key".

Definition example_near_lane : NearNonceLane :=
  mkNearLane "near-testnet" "wallet-1" "alice.near" "ed25519:key".

Definition example_near_state : NearNonceLaneState :=
  mkNearState (AccessKeyBound example_subject (Some (mkReadyContext (example_context 6 "7") 1000 1000)))
    0 false false ["7"] (Some "7") [].

Lemma reserveNearNonces_spec_witness :
  exists w', reserveNearNoncesFromState near_self example_near_lane 2 (fun _ _ => ret ["8"; "9"])
    example_near_state = (Ok ["10"; "11"], w') /\
  batch_reserved 2 (example_context 6 "7") ["8"; "9"] example_near_state w' ["10"; "11"].
Proof.
  pose proof (reserveNearNonces_spec near_self example_near_lane 2 (fun _ _ => ret ["8"; "9"])
    example_near_state example_near_state (example_context 6 "7") ["8"; "9"]
    eq_refl eq_refl eq_refl eq_refl) as H.
  exists (reserveNearNoncesFromState near_self example_near_lane 2 (fun _ _ => ret ["8"; "9"])
    example_near_state).2.
  split; [vm_compute; reflexivity|exact H].
Defined.

(** ** Refreshing: what a late or an idle answer does *)

(** A bound lane whose context is fresh at [nowMs]. *)
Definition fresh_at (nowMs nonceThreshold blockThreshold : Z) (r : NearNonceReadyContext) : bool :=
  (nowMs - lastNonceUpdateMs r <? nonceThreshold)
  && (nowMs - lastBlockHeightUpdateMs r <? blockThreshold)
  && nonempty (txBlockHeight (transactionContext r)) && nonempty (txBlockHash (transactionContext r)).

Lemma plan_fresh subject id nowMs nt bt s r :
  readNearReadyContext (lifecycle s) = Some r -> fresh_at nowMs nt bt r = true ->
  planNearFetch subject id false nowMs nt bt s =
  mkFetchPlan subject id (Some (transactionContext r)) false false.
Proof.
  intros Hr Hf. unfold fresh_at in Hf. rewrite !andb_true_iff in Hf.
  destruct Hf as [[[Hn Hb] Hh] Hx]. unfold planNearFetch. rewrite Hr. simpl. rewrite Hh, Hx.
  replace (nt <=? nowMs - lastNonceUpdateMs r) with false by lia.
  by replace (bt <=? nowMs - lastBlockHeightUpdateMs r) with false by lia.
Qed.

(** An unforced fetch that finds nothing stale leaves the lane waiting on a
    promise that is already settled: every later unforced fetch, at any time,
    returns that same context, however old it is, and the lane reports a fetch
    in progress (so no prefetch replaces it). *)
Theorem idle_fetch_pins_context subject r s nowMs nt bt :
  lifecycle s = AccessKeyBound subject (Some r) -> fresh_at nowMs nt bt r = true ->
  exists result s', startNearFetch false nowMs nt bt s = (Ok (CompletedFetch result), s') /\
    hasNearInflightFetch s' = true /\
    forall later, startNearFetch false later nt bt s' = (Ok (JoinedFetch (FetchSettled result)), s').
Proof.
  intros Hl Hf. unfold startNearFetch.
  assert (readNearInflightFetch s = None) as -> by (unfold readNearInflightFetch; by rewrite Hl).
  assert (requireNearAccessKeySubject s = Ok subject) as ->.
  { unfold requireNearAccessKeySubject, readNearAccessKeySubject. by rewrite Hl. }
  rewrite (plan_fresh _ _ _ _ _ _ r); [|simpl; by rewrite Hl|done].
  cbn [fp_fetchAccessKey fp_fetchBlock orb].
  destruct (settleNearFetch _ _ _ _ _) as [result s1].
  eexists result, _. split; [done|]. split; [done|]. intros later. done.
Qed.

Lemma idle_fetch_pins_context_witness :
  exists result s', startNearFetch false 2000 5000 20000 example_near_state
    = (Ok (CompletedFetch result), s') /\ hasNearInflightFetch s' = true.
Proof.
  destruct (idle_fetch_pins_context example_subject (mkReadyContext (example_context 6 "7") 1000 1000)
    example_near_state 2000 5000 20000 eq_refl eq_refl) as (result & s' & H1 & H2 & _).
  exists result, s'. split; [exact H1|exact H2].
Defined.

(** A successful answer that arrives after the lane was bound to another access
    key, or after a newer request, does not change the lane; a failed access-key
    answer does: it binds the lane back to the key the old request was for. *)
Theorem late_answer_effect plan ak block nowMs s :
  readNearAccessKeySubject s <> Some (fp_subject plan) -> fp_fetchAccessKey plan = true ->
  match ak with
  | Ok _ => (settleNearFetch plan ak block nowMs s).2 = s
  | Throw e =>
      isMissingNearAccessKeyError (errorMessage e) = true ->
      readNearAccessKeySubject (settleNearFetch plan ak block nowMs s).2 = Some (fp_subject plan)
  end.
Proof.
  intros Hne Hf. unfold settleNearFetch, settleNearFetchTry. rewrite Hf.
  assert (forall s', readNearAccessKeySubject s' <> Some (fp_subject plan) ->
            settleNearFetchFinally plan s' = s') as Hfin.
  { intros s' Hs'. unfold settleNearFetchFinally. destruct (_ =? _); [|done].
    unfold readNearAccessKeySubject in Hs'. destruct (lifecycle s'); try done.
    unfold nearAccessKeySubjectsMatch. by rewrite bool_decide_false. }
  destruct ak as [v|e].
  - destruct (if fp_fetchBlock plan then block else Ok JNull) as [b|e]; simpl; [|by apply Hfin].
    destruct (fetchedContext plan v b s); simpl; [|by apply Hfin].
    unfold nearAccessKeySubjectsMatch. rewrite bool_decide_false by done. simpl. by apply Hfin.
  - intros Hm. simpl. unfold accessKeyLookupError. rewrite Hm.
    unfold settleNearFetchFinally.
    destruct (isImplicitNearAccountId (sub_nearAccountId (fp_subject plan))); simpl;
      by destruct (_ =? _).
Qed.

Lemma late_answer_effect_witness :
  readNearAccessKeySubject
    (settleNearFetch (mkFetchPlan example_subject 1 None true true)
       (Throw (JsError "account alice.near does not exist while viewing")) (Ok JNull) 0
       (mkNearState (AccessKeyBound (mkSubject "wallet-2" "bob.near" "ed25519:other") None) 2 false
          false [] None [])).2 = Some example_subject.
Proof.
  apply (late_answer_effect (mkFetchPlan example_subject 1 None true true)
    (Throw (JsError "account alice.near does not exist while viewing"))); [discriminate|reflexivity..].
Defined.

(** Binding the lane to the key it is bound to keeps everything; binding it to
    another key forgets every reservation, in-flight nonce and context. *)
Theorem initializeNearAccessKey_spec walletId account key s :
  match initializeNearAccessKeyState walletId account key s with
  | Ok s' =>
      let subject := mkSubject (trim walletId) (trim account) (trim key) in
      readNearAccessKeySubject s' = Some subject /\
      (readNearAccessKeySubject s = Some subject -> s' = s) /\
      (readNearAccessKeySubject s <> Some subject ->
         reservedNonces s' = [] /\ lastReservedNonce s' = None /\ nearInFlight s' = [] /\
         readNearTransactionContext s' = None)
  | Throw _ => nonempty (trim walletId) = false \/ nonempty (trim account) = false
               \/ nonempty (trim key) = false
  end.
Proof.
  unfold initializeNearAccessKeyState, normalizeSessionStatusRequiredString.
  rewrite !stringOrEmptyTrimmed_string.
  destruct (nonempty (trim account)) eqn:Ea; [|by auto].
  destruct (nonempty (trim key)) eqn:Ek; [|by auto].
  destruct (nonempty (trim walletId)) eqn:Ew; [|by auto].
  case_bool_decide as Hs; simpl; [done|]. split; [done|]. by split.
Qed.
