(* ===== verification/NonceDiagnostics.v ===== *)
(** * Diagnostics, metrics and alerts

    [nonce/nonceDiagnostics.ts]: the once-per-cause degradation record, the
    dropped/replaced alert window, the outcome metrics kept from trace events,
    and the report [getDiagnostics] builds from the leases. *)

From S2P Require Import Prelude JsValues ChainTarget NonceTypes LeaseStateMachine NonceLaneKeys EvmNonceLane NearNonceLane.
Local Open Scope Z_scope.

Inductive NonceOutcomeMetricKind : Type :=
| KDropped | KReplaced | KReconciled | KReleased | KExpired | KBroadcastRejected.

#[global] Instance NonceOutcomeMetricKind_eq_dec : EqDecision NonceOutcomeMetricKind.
Proof. solve_decision. Defined.

Record NonceOutcomeMetricEvent : Type := mkOutcomeEvent {
  oe_accountId : option string;
  oe_kind : NonceOutcomeMetricKind;
  oe_reason : string;
}.

Record DroppedReplacedAlertWindow : Type := mkAlertWindow {
  aw_count : Z;
  aw_firstSeenAtMs : Z;
  aw_lastSeenAtMs : Z;
}.

(** ** Degradations *)

(** The optional arguments that name the cause of a degradation. *)
Record DegradationInput : Type := mkDegradationInput {
  di_lane : option NonceLane;
  di_fallback : option NonceCoordinatorFallback;
  di_accountId : option string;
  di_networkKey : option string;
  di_laneFamily : option LaneFamily;
}.

Definition degradation_of_lane (lane : option NonceLane) : DegradationInput :=
  mkDegradationInput lane None None None None.

Definition recordCoordinationDegradationOnce
    (observed : list (string * NonceCoordinatorDegradation))
    (reason : NonceCoordinatorDegradationReason) (input : DegradationInput)
    : option NonceCoordinatorDegradation * list (string * NonceCoordinatorDegradation) :=
  let fallback := default InRuntimeLock (di_fallback input) in
  let networkKey :=
    match di_lane input with
    | Some lane => nonceLaneNetworkKey lane
    | None => trim (default EmptyString (di_networkKey input))
    end in
  let accountId :=
    match di_lane input with
    | Some lane => nonceLaneSubjectId lane
    | None => trim (default EmptyString (di_accountId input))
    end in
  let laneFamily :=
    match di_lane input with
    | Some lane => Some (lane_family lane)
    | None => di_laneFamily input
    end in
  let key :=
    join "|" [degradation_reason_string reason;
              match laneFamily with Some f => family_string f | None => EmptyString end;
              networkKey; accountId; fallback_string fallback] in
  if mhas key observed then (None, observed)
  else
    let degradation :=
      mkDegradation reason laneFamily
        (if nonempty networkKey then Some networkKey else None)
        (if nonempty accountId then Some accountId else None) fallback in
    (Some degradation, mset key degradation observed).

(** ** Alerts *)

Definition alert_key (lane : EvmNonceLane) (reason : EvmNonceOutcomeReason) : string :=
  join "|" [nonceLaneKey (EvmLane lane); outcome_string reason].

Definition recordDroppedReplacedAlertWindow (alerts : list (string * DroppedReplacedAlertWindow))
    (lane : EvmNonceLane) (reason : EvmNonceOutcomeReason) (nowMs threshold windowMs : Z)
    : option NonceCoordinatorAlert * list (string * DroppedReplacedAlertWindow) :=
  let key := alert_key lane reason in
  let fresh := mkAlertWindow 1 nowMs nowMs in
  let windowState :=
    match mget key alerts with
    | Some existing =>
        if nowMs - aw_firstSeenAtMs existing <=? windowMs
        then mkAlertWindow (aw_count existing + 1) (aw_firstSeenAtMs existing) nowMs
        else fresh
    | None => fresh
    end in
  let alerts := mset key windowState alerts in
  if aw_count windowState <? threshold then (None, alerts)
  else
    (Some (mkAlert (EvmLane lane) reason (aw_count windowState) windowMs
             (aw_firstSeenAtMs windowState) (aw_lastSeenAtMs windowState)), alerts).

(** ** Outcome metrics *)

Definition first_nonempty (candidates : list string) : option string :=
  List.find nonempty candidates.

Definition event_account (event : NonceCoordinatorTraceEvent) : option string :=
  first_nonempty
    [match ev_lease event with Some l => nonceLaneSubjectId (lease_lane l) | None => EmptyString end;
     match ev_lane event with Some l => nonceLaneSubjectId l | None => EmptyString end;
     default EmptyString (ev_accountId event)].

Definition event_reason (event : NonceCoordinatorTraceEvent) (fallback : string) : string :=
  normalizeMetricReason (default EmptyString (ev_reason event)) fallback.

Definition appendOutcomeMetricEvent (sink : list NonceOutcomeMetricEvent)
    (event : NonceCoordinatorTraceEvent) : list NonceOutcomeMetricEvent :=
  let push kind reason := sink ++ [mkOutcomeEvent (event_account event) kind reason] in
  match ev_event event with
  | EvLeaseDropped => push KDropped "dropped"
  | EvLeaseReplaced => push KReplaced "replaced"
  | EvLaneReconciled => push KReconciled (event_reason event "manual")
  | EvLeaseReleased => push KReleased (event_reason event "unspecified")
  | EvLeaseExpired => push KExpired (event_reason event "lease_ttl_elapsed")
  | EvLeaseBroadcastRejected => push KBroadcastRejected "broadcast_rejected"
  | _ => sink
  end.

(** [counts[key] = (counts[key] || 0) + 1]. *)
Definition count_up (key : string) (counts : list (string * Z)) : list (string * Z) :=
  mset key (default 0 (mget key counts) + 1) counts.

Definition addOutcome (m : NonceCoordinatorOutcomeMetrics) (event : NonceOutcomeMetricEvent)
    : NonceCoordinatorOutcomeMetrics :=
  let 'mkOutcomes dropped replaced reconciled released expired rejected rel rec exp := m in
  match oe_kind event with
  | KDropped => mkOutcomes (dropped + 1) replaced reconciled released expired rejected rel rec exp
  | KReplaced => mkOutcomes dropped (replaced + 1) reconciled released expired rejected rel rec exp
  | KBroadcastRejected =>
      mkOutcomes dropped replaced reconciled released expired (rejected + 1) rel rec exp
  | KReconciled =>
      mkOutcomes dropped replaced (reconciled + 1) released expired rejected rel
        (count_up (oe_reason event) rec) exp
  | KReleased =>
      mkOutcomes dropped replaced reconciled (released + 1) expired rejected
        (count_up (oe_reason event) rel) rec exp
  | KExpired =>
      mkOutcomes dropped replaced reconciled released (expired + 1) rejected rel rec
        (count_up (oe_reason event) exp)
  end.

Definition event_in_scope (accountId : string) (event : NonceOutcomeMetricEvent) : bool :=
  negb (nonempty accountId) || bool_decide (oe_accountId event = Some accountId).

Definition readOutcomeMetrics (events : list NonceOutcomeMetricEvent) (accountId : string)
    : NonceCoordinatorOutcomeMetrics :=
  List.fold_left addOutcome (List.filter (event_in_scope accountId) events)
    (mkOutcomes 0 0 0 0 0 0 [] [] []).

(** ** The report *)

Record LaneDiagnostics : Type := mkLaneDiagnostics {
  ld_lane : NonceLane;
  ld_leaseCount : Z;
  ld_states : list (string * Z);
}.

(** The accumulator of the loop over the leases. *)
Record LeaseTally : Type := mkTally {
  t_leaseCount : Z;
  t_leasesByState : list (string * Z);
  t_lanes : list (string * LaneDiagnostics);
  t_staleInFlightLaneKeys : list string;
  t_oldestLeaseAgeMs : Z;
  t_oldestInFlightLeaseAgeMs : Z;
  t_staleInFlightLeaseCount : Z;
}.

Definition createEmptyLeaseStateCounts : list (string * Z) :=
  map (fun state => (lease_state_string state, 0)) NONCE_LEASE_STATES.

Definition emptyTally : LeaseTally := mkTally 0 createEmptyLeaseStateCounts [] [] 0 0 0.

Definition lease_in_scope (accountId : string) (lease : NonceLease) : bool :=
  negb (nonempty accountId) || bool_decide (nonceLaneSubjectId (lease_lane lease) = accountId).

Definition tallyLease (nowMs : Z) (t : LeaseTally) (lease : NonceLease) : LeaseTally :=
  let laneKey := nonceLaneKey (lease_lane lease) in
  let leaseAgeMs := Z.max 0 (nowMs - reservedAtMs lease) in
  let inFlight := isInFlightNonceLeaseState (state lease) in
  let stale := inFlight && (expiresAtMs lease <=? nowMs) in
  let existing := default (mkLaneDiagnostics (lease_lane lease) 0 []) (mget laneKey (t_lanes t)) in
  mkTally (t_leaseCount t + 1)
    (count_up (lease_state_string (state lease)) (t_leasesByState t))
    (mset laneKey
       (mkLaneDiagnostics (ld_lane existing) (ld_leaseCount existing + 1)
          (count_up (lease_state_string (state lease)) (ld_states existing))) (t_lanes t))
    (if stale then sadd laneKey (t_staleInFlightLaneKeys t) else t_staleInFlightLaneKeys t)
    (Z.max (t_oldestLeaseAgeMs t) leaseAgeMs)
    (if inFlight then Z.max (t_oldestInFlightLeaseAgeMs t) leaseAgeMs
     else t_oldestInFlightLeaseAgeMs t)
    (if stale then t_staleInFlightLeaseCount t + 1 else t_staleInFlightLeaseCount t).

Definition tallyLeases (accountId : string) (nowMs : Z) (leases : list NonceLease) : LeaseTally :=
  List.fold_left (tallyLease nowMs) (List.filter (lease_in_scope accountId) leases) emptyTally.

Record NonceCoordinatorDiagnostics : Type := mkDiagnostics {
  d_leaseCount : Z;
  d_leasesByState : list (string * Z);
  d_laneCount : Z;
  d_metrics : NonceCoordinatorAggregateMetrics;
  d_coordinationWarnings : list NonceCoordinatorDegradation;
  d_lanes : list LaneDiagnostics;
  d_nearActiveAccountId : option string;
  d_nearActivePublicKey : option string;
  d_nearHasContext : bool;
  d_nearReservedNonceCount : Z;
  d_nearLastReservedNonce : option string;
}.

Definition drop_empty (o : option string) : option string :=
  match o with Some s => if nonempty s then Some s else None | None => None end.

Definition createNonceCoordinatorDiagnostics (accountIdOption : option string)
    (leases : list NonceLease) (nearState : NearNonceLaneState)
    (observed : list NonceCoordinatorDegradation) (events : list NonceOutcomeMetricEvent)
    (nowMs : Z) : NonceCoordinatorDiagnostics :=
  let accountId := trim (default EmptyString accountIdOption) in
  let t := tallyLeases accountId nowMs leases in
  let byState s := default 0 (mget (lease_state_string s) (t_leasesByState t)) in
  let laneCount := Z.of_nat (length (t_lanes t)) in
  let metrics :=
    mkMetrics nowMs (if nonempty accountId then Some accountId else None) (t_leaseCount t) laneCount
      (t_oldestLeaseAgeMs t) (t_oldestInFlightLeaseAgeMs t) (t_staleInFlightLeaseCount t)
      (Z.of_nat (length (t_staleInFlightLaneKeys t)))
      (byState Reserved) (byState Signed) (byState BroadcastAccepted) (byState Dropped)
      (byState Replaced) (byState Reconciled) (byState Released)
      (readOutcomeMetrics events accountId) in
  mkDiagnostics (t_leaseCount t) (t_leasesByState t) laneCount metrics
    (List.filter (fun d =>
       negb (nonempty accountId) ||
       match drop_empty (deg_accountId d) with
       | None => true
       | Some a => bool_decide (a = accountId)
       end) observed)
    (mvalues (t_lanes t))
    (drop_empty (readNearActiveAccountId nearState)) (drop_empty (readNearActivePublicKey nearState))
    (hasNearTransactionContext nearState) (Z.of_nat (length (reservedNonces nearState)))
    (drop_empty (lastReservedNonce nearState)).

(** ** Properties *)

Lemma lease_state_string_inj s1 s2 : lease_state_string s1 = lease_state_string s2 -> s1 = s2.
Proof. by destruct s1, s2. Qed.

Lemma mget_count_up k k' m :
  default 0 (mget k (count_up k' m)) = default 0 (mget k m) + if decide (k' = k) then 1 else 0.
Proof. unfold count_up. rewrite mget_mset. case_decide; subst; simpl; lia. Qed.

(** The leases of a list in a given state. *)
Definition in_state (s : NonceLeaseState) (leases : list NonceLease) : list NonceLease :=
  List.filter (fun l => bool_decide (state l = s)) leases.

#[local] Arguments in_state : simpl never.

Lemma in_state_cons s l ls :
  Z.of_nat (length (in_state s (l :: ls))) =
  Z.of_nat (length (in_state s ls)) + if decide (state l = s) then 1 else 0.
Proof.
  unfold in_state. simpl. case_bool_decide as H; [|rewrite decide_False by done; lia].
  rewrite decide_True by done. simpl. lia.
Qed.

Lemma tally_fold nowMs leases : forall t,
  let t' := List.fold_left (tallyLease nowMs) leases t in
  t_leaseCount t' = t_leaseCount t + Z.of_nat (length leases) /\
  forall s, default 0 (mget (lease_state_string s) (t_leasesByState t')) =
            default 0 (mget (lease_state_string s) (t_leasesByState t))
            + Z.of_nat (length (in_state s leases)).
Proof.
  induction leases as [|l leases IH]; intros t; simpl; [split; [lia|intros; lia]|].
  destruct (IH (tallyLease nowMs t l)) as [Hc Hs]. split; [rewrite Hc; simpl; lia|].
  intros s. rewrite Hs, in_state_cons. simpl. rewrite mget_count_up.
  repeat case_decide; subst; try lia; exfalso; auto using lease_state_string_inj.
Qed.

Lemma empty_counts s : default 0 (mget (lease_state_string s) createEmptyLeaseStateCounts) = 0.
Proof. by destruct s. Qed.

Lemma in_state_total leases :
  Z.of_nat (length leases) =
  foldr Z.add 0 (map (fun s => Z.of_nat (length (in_state s leases))) NONCE_LEASE_STATES).
Proof.
  induction leases as [|l leases IH]; [done|]. unfold NONCE_LEASE_STATES in *.
  cbn [map foldr] in *. rewrite !in_state_cons.
  change (length (l :: leases)) with (S (length leases)). rewrite Nat2Z.inj_succ, IH.
  destruct (state l); simpl; lia.
Qed.

(** The report counts every lease in scope exactly once: the count by state is
    the number of leases in that state, the counts add up to the total, and the
    aggregate metrics repeat the same numbers. *)
Theorem diagnostics_counts account leases near observed events nowMs :
  let d := createNonceCoordinatorDiagnostics account leases near observed events nowMs in
  let scoped := List.filter (lease_in_scope (trim (default EmptyString account))) leases in
  d_leaseCount d = Z.of_nat (length scoped) /\
  (forall s, default 0 (mget (lease_state_string s) (d_leasesByState d))
             = Z.of_nat (length (in_state s scoped))) /\
  d_leaseCount d = foldr Z.add 0
    (map (fun s => default 0 (mget (lease_state_string s) (d_leasesByState d))) NONCE_LEASE_STATES) /\
  m_leaseCount (d_metrics d) = d_leaseCount d /\
  m_signedLeaseCount (d_metrics d) = Z.of_nat (length (in_state Signed scoped)) /\
  m_broadcastAcceptedLeaseCount (d_metrics d) = Z.of_nat (length (in_state BroadcastAccepted scoped)).
Proof.
  cbv zeta. unfold createNonceCoordinatorDiagnostics, tallyLeases. cbv zeta.
  cbn [d_leaseCount d_leasesByState d_metrics m_leaseCount m_signedLeaseCount
       m_broadcastAcceptedLeaseCount].
  set (scoped := List.filter _ leases).
  destruct (tally_fold nowMs scoped emptyTally) as [Hc Hs].
  assert (forall s, default 0 (mget (lease_state_string s)
    (t_leasesByState (List.fold_left (tallyLease nowMs) scoped emptyTally)))
    = Z.of_nat (length (in_state s scoped))) as Hst.
  { intros s. rewrite Hs. cbn [t_leasesByState emptyTally]. rewrite empty_counts. lia. }
  split_and!; try done.
  rewrite Hc. cbn [t_leaseCount emptyTally]. rewrite Z.add_0_l, in_state_total.
  f_equal. apply map_ext. intros s. by rewrite Hst.
Qed.

(** The alerts of a run of outcomes of one lane at the given times. *)
Fixpoint alert_run (alerts : list (string * DroppedReplacedAlertWindow)) (lane : EvmNonceLane)
    (reason : EvmNonceOutcomeReason) (threshold windowMs : Z) (times : list Z)
    : list (option NonceCoordinatorAlert) :=
  match times with
  | [] => []
  | t :: times' =>
      let '(alert, alerts') :=
        recordDroppedReplacedAlertWindow alerts lane reason t threshold windowMs in
      alert :: alert_run alerts' lane reason threshold windowMs times'
  end.

Lemma alert_run_window lane reason threshold windowMs first times : forall alerts n last_seen,
  mget (alert_key lane reason) alerts = Some (mkAlertWindow n first last_seen) ->
  (forall t, t ∈ times -> t - first <= windowMs) ->
  forall i t, times !! i = Some t ->
  alert_run alerts lane reason threshold windowMs times !! i =
  Some (let count := n + 1 + Z.of_nat i in
        if count <? threshold then None
        else Some (mkAlert (EvmLane lane) reason count windowMs first t)).
Proof.
  induction times as [|t times IH]; intros alerts n last_seen Hk Hw i t' Hi; [done|].
  simpl. unfold recordDroppedReplacedAlertWindow. rewrite Hk. cbn [aw_firstSeenAtMs aw_count].
  replace (t - first <=? windowMs) with true by (symmetry; apply Z.leb_le, Hw; set_solver).
  cbn [aw_count aw_firstSeenAtMs aw_lastSeenAtMs].
  destruct i as [|i].
  - simpl in Hi. injection Hi as ->. rewrite Z.add_0_r. by destruct (n + 1 <? threshold).
  - simpl in Hi.
    assert (forall a (alerts' : list (string * DroppedReplacedAlertWindow)),
      alerts' = mset (alert_key lane reason) (mkAlertWindow (n + 1) first t) alerts ->
      (a :: alert_run alerts' lane reason threshold windowMs times) !! S i =
      Some (let count := n + 1 + Z.of_nat (S i) in if count <? threshold then None
            else Some (mkAlert (EvmLane lane) reason count windowMs first t'))) as Hnext.
    { intros a alerts' ->. simpl.
      rewrite (IH _ (n + 1) t (mget_mset_eq _ _ _) ltac:(intros; apply Hw; set_solver) i t' Hi).
      simpl. f_equal. replace (n + 1 + 1 + Z.of_nat i) with (n + 1 + Z.of_nat (S i)) by lia. done. }
    destruct (n + 1 <? threshold); by apply Hnext.
Qed.

(** Outcomes of one lane and one kind within a window alert from the threshold
    on: the [i]-th of them (from 0) raises an alert exactly when it is at least
    the [threshold]-th, with its ordinal as the count and the first outcome's
    time as the start. *)
Theorem alert_from_threshold lane reason threshold windowMs first times :
  (forall t, t ∈ times -> t - first <= windowMs) ->
  forall i t, (first :: times) !! i = Some t ->
  alert_run [] lane reason threshold windowMs (first :: times) !! i =
  Some (let count := 1 + Z.of_nat i in
        if count <? threshold then None
        else Some (mkAlert (EvmLane lane) reason count windowMs first t)).
Proof.
  intros Hw [|i] t Hi; simpl in Hi.
  - injection Hi as ->. cbn [alert_run]. unfold recordDroppedReplacedAlertWindow.
    cbn [mget aw_count aw_firstSeenAtMs aw_lastSeenAtMs]. change (1 + Z.of_nat 0) with 1.
    by destruct (1 <? threshold).
  - simpl. unfold recordDroppedReplacedAlertWindow. cbn [mget aw_count].
    assert (forall a : option NonceCoordinatorAlert,
      (a :: alert_run (mset (alert_key lane reason) (mkAlertWindow 1 first first) []) lane reason
        threshold windowMs times) !! S i =
      Some (let count := 1 + Z.of_nat (S i) in if count <? threshold then None
            else Some (mkAlert (EvmLane lane) reason count windowMs first t))) as Hnext.
    { intros a. etransitivity; [exact (alert_run_window lane reason threshold windowMs first times
        _ 1 first (mget_mset_eq _ _ _) Hw i t Hi)|].
      f_equal. cbv zeta. replace (1 + 1 + Z.of_nat i) with (1 + Z.of_nat (S i)) by lia. done. }
    destruct (1 <? threshold); apply Hnext.
Qed.

Lemma alert_from_threshold_witness :
  alert_run [] example_lane OutcomeDropped 3 300000 [10; 20; 30] !! 2%nat =
  Some (Some (mkAlert (EvmLane example_lane) OutcomeDropped 3 300000 10 30)).
Proof.
  refine (alert_from_threshold example_lane OutcomeDropped 3 300000 10 [20; 30] _ 2 30 eq_refl).
  intros t Ht. repeat (apply elem_of_cons in Ht as [->|Ht]; [discriminate|]).
  apply not_elem_of_nil in Ht. contradiction.
Defined.

(** A degradation is reported once per cause: the first report of a cause
    records it, and the same cause later reports nothing and changes nothing. *)
Theorem degradation_reported_once observed reason input :
  let '(first, observed') := recordCoordinationDegradationOnce observed reason input in
  recordCoordinationDegradationOnce observed' reason input = (None, observed') /\
  match first with
  | Some d => deg_reason d = reason /\ length observed' = S (length observed)
  | None => observed' = observed
  end.
Proof.
  unfold recordCoordinationDegradationOnce. cbv zeta.
  match goal with |- context [mhas ?k observed] => set (key := k) end.
  destruct (mhas key observed) eqn:E; [by rewrite E|].
  unfold mhas in *. rewrite mget_mset_eq. split; [done|]. split; [done|].
  destruct (mget key observed) eqn:Ek; [done|]. clear -Ek.
  induction observed as [|[k v] m IH]; simpl in *; [done|].
  case_decide; [done|]. simpl. by rewrite IH.
Qed.
