(* ===== verification/NonceCoordinator.v ===== *)
(** * The nonce coordinator

    [nonce/NonceCoordinator.ts]: the coordinator's state and every operation of
    it.  An operation that the source runs under the lane lock is one
    computation here: it runs to its end before the next one starts, as the lock
    of its lane makes it do.  The outside world (clock, chain, store faults, lock
    faults, random identifiers) is read through [Deps]: each reading is indexed
    by the number of readings before it, so two readings of the same thing may
    differ. *)

From S2P Require Import Prelude JsValues ChainTarget NonceTypes LeaseStateMachine NonceLaneKeys NonceRecords NonceStore EvmNonceLane NearNonceLane NonceDiagnostics.
Local Open Scope Z_scope.
Local Open Scope js_scope.

Definition DEFAULT_NONCE_LEASE_TTL_MS : Z := 120000.
Definition DEFAULT_SIGNED_NONCE_LEASE_TTL_MS : Z := 30000.
Definition DEFAULT_EVM_REFRESH_TTL_MS : Z := 5000.
Definition DEFAULT_EVM_STALE_INFLIGHT_THRESHOLD_MS : Z := 45000.
Definition DEFAULT_DROPPED_REPLACED_ALERT_THRESHOLD : Z := 3.
Definition DEFAULT_DROPPED_REPLACED_ALERT_WINDOW_MS : Z := 300000.
Definition NEAR_NONCE_FRESHNESS_THRESHOLD_MS : Z := 5000.
Definition NEAR_BLOCK_FRESHNESS_THRESHOLD_MS : Z := 20000.

Inductive EvmBroadcastTransactionStatus : Type := StatusFinalized | StatusPending | StatusMissing.

(** [deps.nonceLaneCoordinationStore]: left out, [null], or a store, which may
    have a lock. *)
Inductive StoreConfig : Type :=
| StoreUndefined
| StoreNull
| StorePresent (hasLock : bool).

Record Deps : Type := mkDeps {
  dep_leaseTtlMs : JsVal;
  dep_signedLeaseTtlMs : JsVal;
  dep_evmRefreshTtlMs : JsVal;
  dep_evmStaleInFlightThresholdMs : JsVal;
  dep_droppedReplacedAlertThreshold : JsVal;
  dep_droppedReplacedAlertWindowMs : JsVal;
  dep_runtimeId : string;
  dep_sameOriginLock : bool;
  dep_storeConfig : StoreConfig;
  dep_nearClient : bool;
  dep_now : nat -> Z;
  dep_randomId : nat -> string;
  dep_fetchChainNonce : nat -> ReserveNonceInput -> Result Z;
  dep_fetchBroadcastTransactionStatus :
    nat -> ReserveNonceInput -> string -> Result EvmBroadcastTransactionStatus;
  dep_viewAccessKey : nat -> string -> string -> Result JsVal;
  dep_viewBlock : nat -> Result JsVal;
  dep_txStatus : nat -> string -> string -> Result JsVal;
  dep_storeFails : nat -> bool;
  dep_lockError : nat -> option Exn;
}.

(** The coordinator's state, the durable store it is given, the trace events it
    has emitted, and the number of readings of the outside world. *)
Record World (S : Type) : Type := mkWorld {
  leases : list (string * NonceLease);
  evmStates : list (string * EvmNonceLaneState);
  evmAccountLaneKeys : list (string * list string);
  droppedReplacedAlerts : list (string * DroppedReplacedAlertWindow);
  outcomeMetricEvents : list NonceOutcomeMetricEvent;
  observedCoordinationDegradations : list (string * NonceCoordinatorDegradation);
  nearState : NearNonceLaneState;
  store : S;
  trace : list NonceCoordinatorTraceEvent;
  tick : nat;
}.
Arguments mkWorld {S}.
Arguments leases {S} _.
Arguments evmStates {S} _.
Arguments evmAccountLaneKeys {S} _.
Arguments droppedReplacedAlerts {S} _.
Arguments outcomeMetricEvents {S} _.
Arguments observedCoordinationDegradations {S} _.
Arguments nearState {S} _.
Arguments store {S} _.
Arguments trace {S} _.
Arguments tick {S} _.

(** [createNonceCoordinator]: the state a coordinator starts with. *)
Definition initialWorld {S} (s : S) : World S :=
  mkWorld [] [] [] [] [] [] createNearNonceLaneState s [] 0.

Section Setters.
Context {S : Type}.
Implicit Type w : World S.

Definition set_leases l w : World S :=
  mkWorld l (evmStates w) (evmAccountLaneKeys w) (droppedReplacedAlerts w) (outcomeMetricEvents w)
    (observedCoordinationDegradations w) (nearState w) (store w) (trace w) (tick w).
Definition set_evmStates e w : World S :=
  mkWorld (leases w) e (evmAccountLaneKeys w) (droppedReplacedAlerts w) (outcomeMetricEvents w)
    (observedCoordinationDegradations w) (nearState w) (store w) (trace w) (tick w).
Definition set_evmAccountLaneKeys k w : World S :=
  mkWorld (leases w) (evmStates w) k (droppedReplacedAlerts w) (outcomeMetricEvents w)
    (observedCoordinationDegradations w) (nearState w) (store w) (trace w) (tick w).
Definition set_alerts a w : World S :=
  mkWorld (leases w) (evmStates w) (evmAccountLaneKeys w) a (outcomeMetricEvents w)
    (observedCoordinationDegradations w) (nearState w) (store w) (trace w) (tick w).
Definition set_observed o w : World S :=
  mkWorld (leases w) (evmStates w) (evmAccountLaneKeys w) (droppedReplacedAlerts w)
    (outcomeMetricEvents w) o (nearState w) (store w) (trace w) (tick w).
Definition set_nearState n w : World S :=
  mkWorld (leases w) (evmStates w) (evmAccountLaneKeys w) (droppedReplacedAlerts w)
    (outcomeMetricEvents w) (observedCoordinationDegradations w) n (store w) (trace w) (tick w).
Definition set_store s w : World S :=
  mkWorld (leases w) (evmStates w) (evmAccountLaneKeys w) (droppedReplacedAlerts w)
    (outcomeMetricEvents w) (observedCoordinationDegradations w) (nearState w) s (trace w) (tick w).
Definition set_events m t w : World S :=
  mkWorld (leases w) (evmStates w) (evmAccountLaneKeys w) (droppedReplacedAlerts w) m
    (observedCoordinationDegradations w) (nearState w) (store w) t (tick w).
Definition next_tick w : World S :=
  mkWorld (leases w) (evmStates w) (evmAccountLaneKeys w) (droppedReplacedAlerts w)
    (outcomeMetricEvents w) (observedCoordinationDegradations w) (nearState w) (store w) (trace w)
    (Datatypes.S (tick w)).
End Setters.

(** The state object of an EVM lane, and the NEAR lane state. *)
Definition evmStateRef {S} (laneKey : string) : Ref (World S) EvmNonceLaneState :=
  mkRef (fun w => default createEvmNonceLaneState (mget laneKey (evmStates w)))
    (fun s w => set_evmStates (mset laneKey s (evmStates w)) w).

Definition nearStateRef {S} : Ref (World S) NearNonceLaneState :=
  mkRef nearState set_nearState.

#[export] Instance evmStateRef_lawful {S} k : LawfulRef (@evmStateRef S k).
Proof. split. intros a w. simpl. by rewrite mget_mset_eq. Qed.

#[export] Instance nearStateRef_lawful {S} : LawfulRef (@nearStateRef S).
Proof. by split. Qed.

(** [...(s ? { field: s } : {})]. *)
Definition truthy_option (s : string) : option string := if nonempty s then Some s else None.

(** ** Durable records *)

Definition requireRecoveredEvmTxHash (value : string) : Result string :=
  let normalized := to_lower (trim value) in
  if is_0x_hex 64 normalized then Ok normalized
  else Throw (JsError "[NonceCoordinator] recovered EVM broadcast record has invalid txHash").

(** [buildLeaseRecordMetadata]. *)
Definition metadata_batchId (lease : NonceLease) : option string :=
  match batchId lease with Some b => truthy_option b | None => None end.

Definition metadata_txIndex (lease : NonceLease) : option Z :=
  match txIndex lease with Some i => if is_safe_integer i then Some i else None | None => None end.

Definition buildRecord (lease : NonceLease) (nonce : Z) (lifecycle : NonceDurableLeaseLifecycle)
    (body : RecordBody) (expiresAtMs updatedAtMs : Z) (runtimeId : string)
    : NonceLaneCoordinationRecord :=
  mkRecord (nonceLaneKey (lease_lane lease)) (leaseId lease) (nonceLaneNetworkKey (lease_lane lease))
    nonce (operationId lease) (operationFingerprint lease) (reservedAtMs lease) expiresAtMs
    updatedAtMs (Some runtimeId) None (metadata_batchId lease) (metadata_txIndex lease) lifecycle body.

Definition buildEvmCoordinationRecord (lease : NonceLease) (lane : EvmNonceLane) (nonce : Z)
    (lifecycle : NonceDurableLeaseLifecycle) (expiresAtMs updatedAtMs : Z) (runtimeId : string)
    : Result NonceLaneCoordinationRecord :=
  let record lifecycle :=
    buildRecord lease nonce lifecycle
      (EvmRecord (evm_chainTarget lane) (evm_subjectId lane) (evm_sender lane) (evm_nonceKey lane))
      expiresAtMs updatedAtMs runtimeId in
  match lifecycle with
  | DurableReserved | DurableSigned => Ok (record lifecycle)
  | DurableBroadcastAccepted txHash =>
      match requireRecoveredEvmTxHash txHash with
      | Ok txHash => Ok (record (DurableBroadcastAccepted txHash))
      | Throw e => Throw e
      end
  end.

Definition buildNearCoordinationRecord (lease : NonceLease) (lane : NearNonceLane) (nonce : string)
    (lifecycle : NonceDurableLeaseLifecycle) (expiresAtMs updatedAtMs : Z) (runtimeId : string)
    : Result NonceLaneCoordinationRecord :=
  match BigInt_ nonce with
  | Throw e => Throw e
  | Ok nonce =>
      Ok (buildRecord lease nonce lifecycle
            (NearRecord (near_walletId lane) (near_nearAccountId lane) (near_publicKey lane))
            expiresAtMs updatedAtMs runtimeId)
  end.

(** [SigningSessionIds.signingOperation] and [signingOperationFingerprint]. *)
Definition toRequiredBrandedString (value label : string) : Result string :=
  let normalized := trim value in
  if nonempty normalized then Ok normalized
  else Throw (JsError ("[SigningSession] " +:+ label +:+ " is required")).

Record NonceLeaseOperationInput : Type := mkLeaseOp {
  lo_leaseId : string;
  lo_operationId : string;
  lo_operationFingerprint : string;
}.

Definition normalizeLeaseOperationInput (input : NonceLeaseOperationInput)
    : Result NonceLeaseOperationInput :=
  result_bind (normalizeSessionStatusRequiredString (JString (lo_leaseId input)) "leaseId") (fun l =>
  result_bind (toRequiredBrandedString (lo_operationId input) "signingOperationId") (fun o =>
  result_bind (toRequiredBrandedString (lo_operationFingerprint input)
                 "signingOperationFingerprint") (fun f =>
  Ok (mkLeaseOp l o f)))).

Section Operations.
Context {S : Type} `{!CoordinationStore S} (deps : Deps).

Definition C (A : Type) : Type := M (World S) A.

Definition leaseTtlMs : Z := normalizePositiveInteger (dep_leaseTtlMs deps) DEFAULT_NONCE_LEASE_TTL_MS.
Definition signedLeaseTtlMs : Z :=
  normalizePositiveInteger (dep_signedLeaseTtlMs deps) DEFAULT_SIGNED_NONCE_LEASE_TTL_MS.
Definition evmRefreshTtlMs : Z :=
  normalizePositiveInteger (dep_evmRefreshTtlMs deps) DEFAULT_EVM_REFRESH_TTL_MS.
Definition evmStaleInFlightThresholdMs : Z :=
  normalizePositiveInteger (dep_evmStaleInFlightThresholdMs deps)
    DEFAULT_EVM_STALE_INFLIGHT_THRESHOLD_MS.
Definition droppedReplacedAlertThreshold : Z :=
  normalizePositiveInteger (dep_droppedReplacedAlertThreshold deps)
    DEFAULT_DROPPED_REPLACED_ALERT_THRESHOLD.
Definition droppedReplacedAlertWindowMs : Z :=
  normalizePositiveInteger (dep_droppedReplacedAlertWindowMs deps)
    DEFAULT_DROPPED_REPLACED_ALERT_WINDOW_MS.

Definition shouldWarnOnMissingCoordinationStore : bool :=
  match dep_storeConfig deps with StoreUndefined => false | _ => true end.

Definition hasStore : bool :=
  match dep_storeConfig deps with StorePresent _ => true | _ => false end.

(** One reading of the outside world. *)
Definition ask {A} (f : nat -> A) : C A := fun w => (Ok (f (tick w)), next_tick w).
Definition call {A} (f : nat -> Result A) : C A := fun w => (f (tick w), next_tick w).

Definition now : C Z := ask (dep_now deps).

Definition nearClient : NearClient (World S) :=
  mkNearClient _ (fun account key => call (fun n => dep_viewAccessKey deps n account key))
    (call (dep_viewBlock deps)) (fun hash account => call (fun n => dep_txStatus deps n hash account)).

Definition storeError : Exn := JsError "IndexedDB operation failed".

(** A call of the store: it may fail, without effect. *)
Definition storeWrite (f : S -> Result S) : C unit :=
  fails <- ask (dep_storeFails deps) ;;
  if (fails : bool) then throw storeError
  else fun w => match f (store w) with
                | Ok s => (Ok tt, set_store s w)
                | Throw e => (Throw e, w)
                end.

Definition storeRead {A} (f : S -> Result A) : C A :=
  fails <- ask (dep_storeFails deps) ;;
  if (fails : bool) then throw storeError else fun w => (f (store w), w).

Definition emit (event : NonceCoordinatorTraceEvent) : C unit :=
  modify (fun w =>
    set_events (appendOutcomeMetricEvent (outcomeMetricEvents w) event) (trace w ++ [event]) w).

Definition emitCoordinationDegradedOnce (reason : NonceCoordinatorDegradationReason)
    (input : DegradationInput) : C unit :=
  w <- gets id ;;
  let '(degradation, observed) :=
    recordCoordinationDegradationOnce (observedCoordinationDegradations w) reason input in
  match degradation with
  | None => ret tt
  | Some d =>
      modify (set_observed observed) ;;
      emit (mkEvent EvCoordinationDegraded None (di_lane input) None None None None None None None
              (Some d))
  end.

Definition readLease (input : NonceLeaseOperationInput) : C NonceLease :=
  id <- lift (normalizeSessionStatusRequiredString (JString (lo_leaseId input)) "leaseId") ;;
  found <- gets (fun w => mget id (leases w)) ;;
  lease <- lift (of_option (JsError "[NonceCoordinator] nonce lease not found") found) ;;
  lift (assertOperationMatches lease (lo_operationId input) (lo_operationFingerprint input)) ;;
  ret lease.

(** The lease object is shared with the map: reading it reads the map's entry,
    and assigning to it changes that entry; once deleted from the map it lives
    on by itself. *)
Definition live_lease (lease : NonceLease) (m : list (string * NonceLease)) : NonceLease :=
  default lease (mget (leaseId lease) m).

Definition update_lease (id : string) (lease : NonceLease) (m : list (string * NonceLease))
    : list (string * NonceLease) :=
  if mhas id m then mset id lease m else m.

Definition transitionLease (lease : NonceLease) (transition : NonceLeaseTransition)
    (event : NonceCoordinatorTraceEventName) (reason txHash : string) (expiresAtMs' : option Z)
    : C unit :=
  current <- gets (fun w => live_lease lease (leases w)) ;;
  nextState <- lift (reduceNonceLeaseState (state current) transition) ;;
  let lease' := lease_with_state nextState current in
  let lease' := match expiresAtMs' with
                | Some t => if is_safe_integer t then lease_with_expiry t lease' else lease'
                | None => lease'
                end in
  modify (fun w => set_leases (update_lease (leaseId lease) lease' (leases w)) w) ;;
  emit (mkEvent event (Some lease') None None (Some (state current)) (Some nextState)
          (truthy_option reason) (truthy_option txHash) None None None).

Definition preflightLeaseTransition (lease : NonceLease) (transition : NonceLeaseTransition)
    : C unit :=
  lift (reduceNonceLeaseState (state lease) transition) ;; ret tt.

Definition getOrCreateEvmState (laneKey : string) : C unit :=
  modify (fun w => set_evmStates (getOrCreateEvmNonceLaneState (evmStates w) laneKey) w).

Definition indexEvmLaneByAccount (lane : EvmNonceLane) (laneKey : string) : C unit :=
  modify (fun w =>
    set_evmAccountLaneKeys (indexEvmNonceLaneBySubject (evmAccountLaneKeys w) lane laneKey) w).

Definition readCoordinationLaneRecords (laneKey : string) (lane : option NonceLane)
    : C (list ParsedNonceLaneCoordinationRecord) :=
  if hasStore then
    nowMs <- now ;;
    try_catch (storeWrite (fun s => Ok (store_pruneExpired nowMs s)))
      (fun _ => emitCoordinationDegradedOnce DurableStoreError (degradation_of_lane lane)) ;;
    try_catch (storeRead (store_readLane laneKey))
      (fun _ =>
         emitCoordinationDegradedOnce DurableStoreError (degradation_of_lane lane) ;; ret [])
  else
    (when shouldWarnOnMissingCoordinationStore do
       emitCoordinationDegradedOnce IndexedDBUnavailable (degradation_of_lane lane)) ;;
    ret [].

(** The loop over the durable records of a lane; the clock is read per record. *)
Fixpoint collectActiveRecords (family : LaneFamily) (q : ActiveQuery) (active : list string)
    (records : list ParsedNonceLaneCoordinationRecord) : C (list string) :=
  match records with
  | [] => ret active
  | parsed :: rest =>
      let record := parsed_record parsed in
      let wrongFamily :=
        match rec_body record, family with
        | EvmRecord _ _ _ _, FEvm | NearRecord _ _ _, FNear => false
        | _, _ => true
        end in
      let excluded :=
        match q_excludeLeaseId q with
        | Some id => nonempty id && bool_decide (rec_leaseId record = id)
        | None => false
        end in
      if wrongFamily || excluded then collectActiveRecords family q active rest
      else
        nowMs <- now ;;
        if negb (isActiveCoordinationLeaseRecord record nowMs)
        then collectActiveRecords family q active rest
        else
          let below := match q_chainNextNonce q with
                       | Some c => parsed_nonce parsed <? c
                       | None => false
                       end in
          if below then collectActiveRecords family q active rest
          else collectActiveRecords family q (sadd (Z_to_string (parsed_nonce parsed)) active) rest
  end.

(** A lease the query leaves out. *)
Definition lease_excluded (q : ActiveQuery) (lease : NonceLease) : bool :=
  match q_excludeLeaseId q with
  | Some id => nonempty id && bool_decide (leaseId lease = id)
  | None => false
  end.

Definition below_chain (q : ActiveQuery) (nonce : Z) : bool :=
  match q_chainNextNonce q with Some c => nonce <? c | None => false end.

(** The loop over this runtime's leases. *)
Fixpoint activeEvmNonces (laneKey : string) (q : ActiveQuery) (active : list string)
    (ls : list NonceLease) : list string :=
  match ls with
  | [] => active
  | lease :: rest =>
      let next :=
        match body lease with
        | EvmBody lane nonce =>
            if lease_excluded q lease
               || negb (bool_decide (nonceLaneKey (EvmLane lane) = laneKey))
               || negb (isActiveEvmLeaseState (state lease)) || below_chain q nonce
            then active else sadd (Z_to_string nonce) active
        | NearBody _ _ => active
        end in
      activeEvmNonces laneKey q next rest
  end.

Definition readActiveEvmLeaseNonces (laneKey : string) (lane : option EvmNonceLane)
    (q : ActiveQuery) : C (list string) :=
  active <- gets (fun w => activeEvmNonces laneKey q [] (mvalues (leases w))) ;;
  records <- readCoordinationLaneRecords laneKey (EvmLane <$> lane) ;;
  collectActiveRecords FEvm q active records.

Fixpoint activeNearNonces (laneKey : string) (q : ActiveQuery) (active : list string)
    (ls : list NonceLease) : Result (list string) :=
  match ls with
  | [] => Ok active
  | lease :: rest =>
      match body lease with
      | EvmBody _ _ => activeNearNonces laneKey q active rest
      | NearBody lane nonce =>
          if lease_excluded q lease
             || negb (bool_decide (nonceLaneKey (NearLane lane) = laneKey))
             || negb (isActiveNearLeaseState (state lease))
          then activeNearNonces laneKey q active rest
          else
            match BigInt_ nonce with
            | Throw e => Throw e
            | Ok nonce =>
                activeNearNonces laneKey q
                  (if below_chain q nonce then active else sadd (Z_to_string nonce) active) rest
            end
      end
  end.

Definition readActiveNearLeaseNonces (lane : option NearNonceLane) (laneKey : string)
    (q : ActiveQuery) : C (list string) :=
  w <- gets id ;;
  active <- lift (activeNearNonces laneKey q [] (mvalues (leases w))) ;;
  records <- readCoordinationLaneRecords laneKey (NearLane <$> lane) ;;
  collectActiveRecords FNear q active records.

(** ** Writing durable leases *)

Definition persistCoordinationRecord (record : NonceLaneCoordinationRecord) (lane : NonceLane)
    : C unit :=
  try_catch (storeWrite (store_upsert record))
    (fun _ => emitCoordinationDegradedOnce DurableStoreError (degradation_of_lane (Some lane))).

Definition persistCoordinationLease (lease : NonceLease) (lifecycle : NonceDurableLeaseLifecycle)
    (expiresAtMs' : Z) : C unit :=
  if hasStore then
    updatedAtMs <- now ;;
    record <- lift
      match body lease with
      | EvmBody lane nonce =>
          buildEvmCoordinationRecord lease lane nonce lifecycle expiresAtMs' updatedAtMs
            (dep_runtimeId deps)
      | NearBody lane nonce =>
          buildNearCoordinationRecord lease lane nonce lifecycle expiresAtMs' updatedAtMs
            (dep_runtimeId deps)
      end ;;
    persistCoordinationRecord record (lease_lane lease)
  else
    when shouldWarnOnMissingCoordinationStore do
      emitCoordinationDegradedOnce IndexedDBUnavailable
        (degradation_of_lane (Some (lease_lane lease))).

Definition removeCoordinationLease (lease : NonceLease) : C unit :=
  when hasStore do
    try_catch (storeWrite (fun s => Ok (store_remove (leaseId lease) s)))
      (fun _ => emitCoordinationDegradedOnce DurableStoreError
                  (degradation_of_lane (Some (lease_lane lease)))).

(** ** EVM lanes *)

Definition refreshEvmLaneFromChainLocked (lane : EvmNonceLane) : C Z :=
  let laneKey := nonceLaneKey (EvmLane lane) in
  nowMs <- now ;;
  EvmNonceLane.refreshEvmLaneFromChainLocked (evmStateRef laneKey) lane nowMs
    (fun targetLane =>
       call (fun n => dep_fetchChainNonce deps n (evmLaneToReserveNonceInput targetLane)))
    (readActiveEvmLeaseNonces laneKey (Some lane)).

Definition shouldRefreshEvmLaneLocked (laneKey : string) (lane : EvmNonceLane) : C bool :=
  nowMs <- now ;;
  shouldRefreshEvmLane (evmStateRef laneKey) nowMs evmRefreshTtlMs
    (readActiveEvmLeaseNonces laneKey (Some lane)).

Definition releaseEvmNonceReservation (lease : NonceLease) (lane : EvmNonceLane) (nonce : Z)
    : C unit :=
  let laneKey := nonceLaneKey (EvmLane lane) in
  hasState <- gets (fun w => mhas laneKey (evmStates w)) ;;
  releaseEvmNonceReservationState (evmStateRef laneKey) lease nonce hasState
    removeCoordinationLease (readActiveEvmLeaseNonces laneKey (Some lane)).

Definition markEvmBroadcastAccepted (lease : NonceLease) (lane : EvmNonceLane) (nonce : Z)
    (txHash : string) : C unit :=
  let laneKey := nonceLaneKey (EvmLane lane) in
  getOrCreateEvmState laneKey ;;
  nowMs <- now ;;
  markEvmBroadcastAcceptedState (evmStateRef laneKey) lease nonce txHash nowMs
    evmStaleInFlightThresholdMs persistCoordinationLease.

Definition markEvmFinalized (lease : NonceLease) (lane : EvmNonceLane) (nonce : Z) : C unit :=
  let laneKey := nonceLaneKey (EvmLane lane) in
  getOrCreateEvmState laneKey ;;
  nowMs <- now ;;
  markEvmFinalizedState (evmStateRef laneKey) lease nonce nowMs removeCoordinationLease.

Definition markEvmDroppedOrReplaced (lease : NonceLease) (lane : EvmNonceLane) (nonce : Z)
    (reason : EvmNonceOutcomeReason) (txHash : option string) : C unit :=
  let laneKey := nonceLaneKey (EvmLane lane) in
  getOrCreateEvmState laneKey ;;
  nowMs <- now ;;
  markEvmDroppedOrReplacedState (evmStateRef laneKey) lease nonce reason txHash nowMs
    removeCoordinationLease.

Definition reconcileEvmLaneLocked (lane : EvmNonceLane) : C NonceLaneStatus :=
  let laneKey := nonceLaneKey (EvmLane lane) in
  getOrCreateEvmState laneKey ;;
  indexEvmLaneByAccount lane laneKey ;;
  nowMs <- now ;;
  reconcileEvmLaneState (evmStateRef laneKey) lane nowMs evmStaleInFlightThresholdMs
    refreshEvmLaneFromChainLocked.

Definition recordDroppedReplacedAlert (lane : EvmNonceLane) (reason : EvmNonceOutcomeReason)
    : C unit :=
  nowMs <- now ;;
  w <- gets id ;;
  let '(alert, alerts) :=
    recordDroppedReplacedAlertWindow (droppedReplacedAlerts w) lane reason nowMs
      droppedReplacedAlertThreshold droppedReplacedAlertWindowMs in
  modify (set_alerts alerts) ;;
  match alert with
  | None => ret tt
  | Some a =>
      emit (mkEvent EvLaneAlert None (Some (EvmLane lane)) None None None None None None (Some a) None)
  end.

(** ** Expiry *)

Definition releaseBackendReservation (lease : NonceLease) : C unit :=
  match body lease with
  | EvmBody lane nonce => releaseEvmNonceReservation lease lane nonce
  | NearBody _ nonce =>
      assign nearStateRef (releaseNearNonceFromState nonce) ;;
      removeCoordinationLease lease
  end.

Definition emitLaneReconciled (lane : NonceLane) (reason : string) (txHash : option string)
    : C unit :=
  emit (mkEvent EvLaneReconciled None (Some lane) None None None (truthy_option reason) txHash None
          None None).

Definition reconcileAfterSignedLeaseExpiry (lease : NonceLease) : C unit :=
  releaseBackendReservation lease ;;
  match body lease with
  | EvmBody lane _ =>
      reconcileEvmLaneLocked lane ;;
      emitLaneReconciled (EvmLane lane) EmptyString None
  | NearBody _ _ => ret tt
  end.

Definition expireLeaseLocked (lease : NonceLease) (nowMs : Z) : C (option NonceLease) :=
  if nowMs <? expiresAtMs lease then ret None
  else if negb (bool_decide (state lease = Reserved)) && negb (bool_decide (state lease = Signed))
  then ret None
  else
    let signed := bool_decide (state lease = Signed) in
    (if signed then reconcileAfterSignedLeaseExpiry lease else releaseBackendReservation lease) ;;
    transitionLease lease TExpire EvLeaseExpired
      (if signed then "signed_lease_ttl_elapsed" else "lease_ttl_elapsed") EmptyString None ;;
    ret (Some (lease_with_state (if signed then SignedLeaseExpired else Expired) lease)).

(** The loop over a snapshot of the leases; each lease is the live object. *)
Fixpoint expireDueLeases (laneKey : string) (nowMs : Z) (snapshot : list NonceLease)
    : C (list NonceLease) :=
  match snapshot with
  | [] => ret []
  | lease :: rest =>
      if negb (bool_decide (nonceLaneKey (lease_lane lease) = laneKey))
      then expireDueLeases laneKey nowMs rest
      else
        current <- gets (fun w => live_lease lease (leases w)) ;;
        expired <- expireLeaseLocked current nowMs ;;
        others <- expireDueLeases laneKey nowMs rest ;;
        ret (match expired with Some l => l :: others | None => others end)
  end.

Definition expireDueLeasesForLockedLane (lane : NonceLane) : C (list NonceLease) :=
  nowMs <- now ;;
  snapshot <- gets (fun w => mvalues (leases w)) ;;
  expireDueLeases (nonceLaneKey lane) nowMs snapshot.

(** ** Reserving an EVM nonce *)

(** [leases.set], persist and report, for a new lease. *)
Definition registerLease (lease : NonceLease) : C unit :=
  modify (fun w => set_leases (mset (leaseId lease) lease (leases w)) w) ;;
  persistCoordinationLease lease DurableReserved (expiresAtMs lease) ;;
  emit (mkEvent EvLeaseReserved (Some lease) None None None None None None None None None).

(** [reserveEvmNonceLeaseUnlocked], up to the refresh of the lane ... *)
Definition prepareEvmLane (lane : EvmNonceLane) : C unit :=
  expireDueLeasesForLockedLane (EvmLane lane) ;;
  let laneKey := nonceLaneKey (EvmLane lane) in
  getOrCreateEvmState laneKey ;;
  indexEvmLaneByAccount lane laneKey ;;
  refresh <- shouldRefreshEvmLaneLocked laneKey lane ;;
  (if (refresh : bool) then refreshEvmLaneFromChainLocked lane ;; ret tt else ret tt).

(** ... and from there: the search for a nonce and its lease. *)
Definition takeEvmNonce (lane : EvmNonceLane) (operation : PreparedNonceOperationContext)
    : C NonceLease :=
  let laneKey := nonceLaneKey (EvmLane lane) in
  s <- deref (evmStateRef laneKey) ;;
  nowMs <- now ;;
  match readBlockedEvmInFlight s nowMs evmStaleInFlightThresholdMs with
  | Some (blockedNonce, ageMs) => throw (createEvmNonceLaneBlockedError lane blockedNonce ageMs)
  | None =>
      let start := match chainNonce s, nextCandidate s with
                   | Some c, _ => c
                   | None, Some c => c
                   | None, None => 0
                   end in
      activeLeaseNonces <- readActiveEvmLeaseNonces laneKey (Some lane) (mkActiveQuery None None) ;;
      s <- deref (evmStateRef laneKey) ;;
      let taken c := has_nonce activeLeaseNonces c || mhas (Z_to_string c) (evmInFlight s) in
      candidate <- lift (of_option OutOfFuel
        (skip_taken (Datatypes.S (length activeLeaseNonces + length (evmInFlight s))) taken start)) ;;
      assign (evmStateRef laneKey) (set_nextCandidate (Some (candidate + 1))) ;;
      reservedAtMs <- now ;;
      randomId <- ask (dep_randomId deps) ;;
      let lease :=
        mkLease
          (createNonceLeaseId (op_operationId operation) (target_kind (evm_chainTarget lane))
             (Z_to_string candidate) randomId)
          (op_operationId operation) (op_operationFingerprint operation) reservedAtMs
          (reservedAtMs + leaseTtlMs) None None Reserved (EvmBody lane candidate) in
      registerLease lease ;;
      ret lease
  end.

Definition reserveEvmNonceLeaseUnlocked (lane : EvmNonceLane)
    (operation : PreparedNonceOperationContext) : C NonceLease :=
  prepareEvmLane lane ;;
  takeEvmNonce lane operation.

(** ** NEAR lanes *)

Definition requireNearClient : C unit :=
  if dep_nearClient deps then ret tt
  else throw (JsError "[NonceCoordinator] NEAR client is not configured").

Definition initializeNearAccessKey (walletId nearAccountId publicKey : string) : C unit :=
  assignR nearStateRef (initializeNearAccessKeyState walletId nearAccountId publicKey).

Definition reserveNearNonces (lane : NearNonceLane) (count : Z) : C (list string) :=
  reserveNearNoncesFromState nearStateRef lane count (readActiveNearLeaseNonces (Some lane)).

Definition fetchNearFreshData (force : bool) : C TransactionContext :=
  fetchNearFreshDataForState nearStateRef nearClient now force
    NEAR_NONCE_FRESHNESS_THRESHOLD_MS NEAR_BLOCK_FRESHNESS_THRESHOLD_MS.

Definition fetchNearContextForLane (lane : NearNonceLane) (force : bool) : C TransactionContext :=
  initializeNearAccessKey (near_walletId lane) (near_nearAccountId lane) (near_publicKey lane) ;;
  requireNearClient ;;
  fetchNearFreshData force.

Definition updateNearNonceFromBlockchain (actualNonce : string) : C unit :=
  updateNearNonceFromBlockchainState nearStateRef nearClient now actualNonce.

Definition refreshNearNonceAfterBroadcastRejected : C unit :=
  refreshNearNonceAfterBroadcastRejectedState nearStateRef nearClient now.

(** The broadcast leases of a NEAR lane, with their nonces. *)
Definition broadcastNearLeases (laneKey : string) (ls : list NonceLease)
    : list (NonceLease * string) :=
  omap (fun lease =>
    match body lease with
    | NearBody lane nonce =>
        if bool_decide (nonceLaneKey (NearLane lane) = laneKey)
           && bool_decide (state lease = BroadcastAccepted)
        then Some (lease, nonce) else None
    | EvmBody _ _ => None
    end) ls.

Definition reconcileNearLaneLocked (lane : NearNonceLane) : C NonceLaneStatus :=
  requireNearClient ;;
  reconcileNearLaneState nearStateRef nearClient now lane
    (gets (fun w => broadcastNearLeases (nonceLaneKey (NearLane lane)) (mvalues (leases w))))
    removeCoordinationLease
    (fun lease finalized reason txHash =>
       transitionLease lease (if (finalized : bool) then TFinalize else TDrop)
         (if finalized then EvLeaseFinalized else EvLeaseDropped) reason txHash None).

(** The leases of a batch, in order, each with its own random identifier. *)
Fixpoint buildNearLeases (lane : NearNonceLane) (operation : PreparedNonceOperationContext)
    (reservedAtMs' : Z) (batchId' : string) (txIndex' : Z) (nonces : list string)
    : C (list NonceLease) :=
  match nonces with
  | [] => ret []
  | nonce :: rest =>
      randomId <- ask (dep_randomId deps) ;;
      let lease :=
        mkLease (createNonceLeaseId (op_operationId operation) "near" nonce randomId)
          (op_operationId operation) (op_operationFingerprint operation) reservedAtMs'
          (reservedAtMs' + leaseTtlMs) (Some batchId') (Some txIndex') Reserved
          (NearBody lane nonce) in
      others <- buildNearLeases lane operation reservedAtMs' batchId' (txIndex' + 1) rest ;;
      ret (lease :: others)
  end.

Definition reserveNearNonceBatchUnlocked (lane : NearNonceLane)
    (operation : PreparedNonceOperationContext) (countInput : Z) : C (list NonceLease) :=
  expireDueLeasesForLockedLane (NearLane lane) ;;
  let count := Z.max 1 (if countInput =? 0 then 1 else countInput) in
  nonces <- reserveNearNonces lane count ;;
  if negb (Z.of_nat (length nonces) =? count) then
    throw (JsError "[NonceCoordinator] NEAR nonce reservation returned an incomplete batch")
  else
    reservedAtMs' <- now ;;
    randomId <- ask (dep_randomId deps) ;;
    let batchId' :=
      createNonceBatchId (op_operationId operation) "near" (default EmptyString (head nonces)) count
        randomId in
    batchLeases <- buildNearLeases lane operation reservedAtMs' batchId' 0 nonces ;;
    forM batchLeases registerLease ;;
    ret batchLeases.

(** ** Locks *)

(** [withLaneLock]: the same-origin lock, the durable lock, or the runtime's
    own.  A durable lock that cannot be taken fails the call before its task. *)
Definition withLaneLock {A} (lane : NonceLane) (fn : C A) : C A :=
  if dep_sameOriginLock deps then fn
  else
    match dep_storeConfig deps with
    | StorePresent true =>
        failure <- ask (dep_lockError deps) ;;
        match failure with
        | Some error =>
            let code := match error with JsCodedError code _ => code | _ => EmptyString end in
            emitCoordinationDegradedOnce
              (if bool_decide (code = "durable_lock_timeout") then DurableLockTimeout
               else DurableStoreError)
              (mkDegradationInput (Some lane) (Some NoFallback) None None None) ;;
            throw error
        | None => fn
        end
    | _ =>
        (when shouldWarnOnMissingCoordinationStore do
           emitCoordinationDegradedOnce WebLocksUnavailable (degradation_of_lane (Some lane))) ;;
        fn
    end.

(** The lanes of the leases in scope: one per lane key, the last lease's. *)
Definition lanesOfLeases (walletId : string) (ls : list NonceLease) : list (string * NonceLane) :=
  List.fold_left (fun m lease =>
    if nonempty walletId && negb (bool_decide (nonceLaneSubjectId (lease_lane lease) = walletId))
    then m else mset (nonceLaneKey (lease_lane lease)) (lease_lane lease) m) ls [].

Fixpoint expireLanes (lanes : list NonceLane) : C (list NonceLease) :=
  match lanes with
  | [] => ret []
  | lane :: rest =>
      expired <- withLaneLock lane (expireDueLeasesForLockedLane lane) ;;
      others <- expireLanes rest ;;
      ret (expired ++ others)
  end.

Definition expireDueLeasesForWallet (walletId : option string) : C (list NonceLease) :=
  let walletId := trim (default EmptyString walletId) in
  lanes <- gets (fun w => mvalues (lanesOfLeases walletId (mvalues (leases w)))) ;;
  expireLanes lanes.

(** ** Recovery *)

Definition recoveryDegradation (d : NonceCoordinatorDegradation) : DegradationInput :=
  mkDegradationInput None (Some (deg_fallback d)) (deg_accountId d) (deg_networkKey d)
    (deg_laneFamily d).

(** [.catch(() => null)]. *)
Definition orNull {A} (m : C A) : C (option A) :=
  try_catch (a <- m ;; ret (Some a)) (fun _ => ret None).

Definition removeRecord (leaseId' : string) : C unit :=
  storeWrite (fun s => Ok (store_remove leaseId' s)).

Definition recoverEvmRecord (record : NonceLaneCoordinationRecord) (lane : EvmNonceLane)
    (isExpired : bool) : C unit :=
  let nonceKey := Z_to_string (rec_nonce record) in
  let state := evmStateRef (rec_laneKey record) in
  getOrCreateEvmState (rec_laneKey record) ;;
  let forget := assign state (fun s => set_evmInFlight (mdel nonceKey (evmInFlight s)) s) in
  let finish (broadcastStatus : option EvmBroadcastTransactionStatus) : C unit :=
    status <- orNull (reconcileEvmLaneLocked lane) ;;
    let chainAdvanced :=
      match status with Some st => rec_nonce record <? st_chainNextNonce st | None => false end in
    let staleMissingBroadcast :=
      match rec_lifecycle record, broadcastStatus with
      | DurableBroadcastAccepted _, Some StatusMissing => isExpired
      | _, _ => false
      end in
    (if chainAdvanced || staleMissingBroadcast
     then forget ;; removeRecord (rec_leaseId record) else ret tt) ;;
    emitLaneReconciled (EvmLane lane)
      (if staleMissingBroadcast then "startup_recovery_dropped_transaction" else "startup_recovery")
      (match rec_lifecycle record with
       | DurableBroadcastAccepted txHash => if staleMissingBroadcast then Some txHash else None
       | _ => None
       end) in
  match rec_lifecycle record with
  | DurableBroadcastAccepted txHash =>
      hash <- lift (requireRecoveredEvmTxHash txHash) ;;
      assign state (fun s =>
        set_evmInFlight
          (mset nonceKey (mkEvmInFlight (rec_nonce record) (Some hash) InFlightAccepted
                            (rec_reservedAtMs record) (rec_updatedAtMs record))
             (evmInFlight s)) s) ;;
      broadcastStatus <- orNull (call (fun n =>
        dep_fetchBroadcastTransactionStatus deps n (evmLaneToReserveNonceInput lane) hash)) ;;
      match broadcastStatus with
      | Some StatusFinalized =>
          forget ;;
          removeRecord (rec_leaseId record) ;;
          orNull (reconcileEvmLaneLocked lane) ;;
          emitLaneReconciled (EvmLane lane) "startup_recovery_finalized_transaction" (Some txHash)
      | _ => finish broadcastStatus
      end
  | DurableReserved | DurableSigned => finish None
  end.

(** [readNearRecoveryNonce]: [Some] is an observed nonce. *)
Definition readNearRecoveryNonce (nearAccountId publicKey : string) : C (option Z) :=
  try_catch
    (accessKey <- viewAccessKey nearClient nearAccountId publicKey ;;
     if isAccessKeyViewLike accessKey then
       nonce <- lift (normalizeBigint (jget "nonce" accessKey) "near access-key nonce") ;;
       ret (Some nonce)
     else ret None)
    (fun _ => ret None).

(** The observations of a recovery pass, by lane key. *)
Definition NearObservations : Type := list (string * option Z).

Definition recoverNearRecord (record : NonceLaneCoordinationRecord) (lane : NearNonceLane)
    (canonicalKey : string) (observations : NearObservations) : C NearObservations :=
  if dep_nearClient deps then
    observed <-
      match mget canonicalKey observations with
      | Some o => ret o
      | None => readNearRecoveryNonce (near_nearAccountId lane) (near_publicKey lane)
      end ;;
    (match observed with
     | Some nonce =>
         if rec_nonce record <=? nonce
         then try_catch (removeRecord (rec_leaseId record)) (fun _ => ret tt)
         else ret tt
     | None => ret tt
     end) ;;
    ret (mset canonicalKey observed observations)
  else ret observations.

Definition recoverRecord (parsed : ParsedNonceLaneCoordinationRecord)
    (observations : NearObservations) : C NearObservations :=
  let record := parsed_record parsed in
  let lane := parsed_lane parsed in
  withLaneLock lane
    (if negb (bool_decide (rec_laneKey record = canonicalLaneKey parsed)) then
       removeRecord (rec_leaseId record) ;;
       emitCoordinationDegradedOnce MalformedDurableRecord
         (mkDegradationInput None (Some NoFallback) (Some (nonceLaneSubjectId lane))
            (Some (rec_networkKey record)) (Some (lane_family lane))) ;;
       ret observations
     else
       nowMs <- now ;;
       let isExpired := rec_expiresAtMs record <=? nowMs in
       if isExpired && negb (is_broadcast_accepted record) then
         removeRecord (rec_leaseId record) ;;
         (match lane with
          | EvmLane evmLane => orNull (reconcileEvmLaneLocked evmLane) ;; ret tt
          | NearLane _ => ret tt
          end) ;;
         emitLaneReconciled lane "startup_recovery_expired_lease" None ;;
         ret observations
       else
         match lane with
         | EvmLane evmLane => recoverEvmRecord record evmLane isExpired ;; ret observations
         | NearLane nearLane =>
             recoverNearRecord record nearLane (canonicalLaneKey parsed) observations
         end).

Fixpoint recoverResults (observations : NearObservations)
    (results : list NonceLaneCoordinationReadResult) : C unit :=
  match results with
  | [] => ret tt
  | ReadFailed degradation _ leaseId' :: rest =>
      (if nonempty leaseId' then removeRecord leaseId' else ret tt) ;;
      emitCoordinationDegradedOnce (deg_reason degradation) (recoveryDegradation degradation) ;;
      recoverResults observations rest
  | ReadOk parsed :: rest =>
      observations <- recoverRecord parsed observations ;;
      recoverResults observations rest
  end.

Definition recoverDurableLeases (walletId : option string) : C unit :=
  if hasStore then
    results <- attempt (storeRead (store_readAllForRecovery walletId)) ;;
    match results with
    | Throw _ => emitCoordinationDegradedOnce DurableStoreError (degradation_of_lane None)
    | Ok results => recoverResults [] results
    end
  else
    when shouldWarnOnMissingCoordinationStore do
      emitCoordinationDegradedOnce IndexedDBUnavailable (degradation_of_lane None).

(** ** The operations of a coordinator *)

Definition reserve (lane : NonceLane) (operation : PreparedNonceOperationContext) : C NonceLease :=
  match lane with
  | NearLane nearLane =>
      withLaneLock lane
        (batch <- reserveNearNonceBatchUnlocked nearLane operation 1 ;;
         lift (of_option (JsError "undefined") (head batch)))
  | EvmLane evmLane => withLaneLock lane (reserveEvmNonceLeaseUnlocked evmLane operation)
  end.

Definition reserveBatch (lane : NearNonceLane) (operation : PreparedNonceOperationContext)
    (count : Z) : C (list NonceLease) :=
  withLaneLock (NearLane lane) (reserveNearNonceBatchUnlocked lane operation count).

Definition initializeNearLane (lane : NearNonceLane) : C unit :=
  initializeNearAccessKey (near_walletId lane) (near_nearAccountId lane) (near_publicKey lane).

(** [commitNearTransactionContextForState] for a lane, at the current time. *)
Definition commitNearContext (lane : NearNonceLane) (context : TransactionContext) : C unit :=
  nowMs <- now ;;
  assignR nearStateRef
    (commitNearTransactionContextForState (near_walletId lane) (near_nearAccountId lane)
       (near_publicKey lane) context nowMs).

Definition with_next_nonce (nonce : string) (context : TransactionContext) : TransactionContext :=
  context_with_nonce (accessKeyInfo context) nonce context.

(** [context.nextNonce = nonce] after the commit: the object that is returned is
    the one committed to the lane, so the lane's context changes with it. *)
Definition set_committed_nonce (nonce : string) (s : NearNonceLaneState) : NearNonceLaneState :=
  match lifecycle s with
  | AccessKeyBound subject (Some r) =>
      set_lifecycle
        (AccessKeyBound subject
           (Some (mkReadyContext (with_next_nonce nonce (transactionContext r)) (lastNonceUpdateMs r)
                    (lastBlockHeightUpdateMs r)))) s
  | _ => s
  end.

(** [fetchContext] is the caller's own way to obtain the context, if it has one. *)
Definition reserveNearContext (lane : NearNonceLane) (operation : PreparedNonceOperationContext)
    (count : Z) (fetchContext : option (C TransactionContext)) (force : bool)
    : C (TransactionContext * list NonceLease) :=
  withLaneLock (NearLane lane)
    (initializeNearLane lane ;;
     context <- match fetchContext with
                | Some fetch => fetch
                | None => fetchNearContextForLane lane force
                end ;;
     commitNearContext lane context ;;
     batch <- reserveNearNonceBatchUnlocked lane operation count ;;
     match head batch with
     | Some lease =>
         assign nearStateRef (set_committed_nonce (lease_nonce_string lease)) ;;
         ret (with_next_nonce (lease_nonce_string lease) context, batch)
     | None => ret (context, batch)
     end).

Definition reserveNearReplacementContext (lane : NearNonceLane)
    (operation : PreparedNonceOperationContext) (nonce : string)
    : C (TransactionContext * list NonceLease) :=
  withLaneLock (NearLane lane)
    (initializeNearLane lane ;;
     context <- fetchNearContextForLane lane true ;;
     commitNearContext lane context ;;
     wanted <- lift (BigInt_ nonce) ;;
     let used := ak_nonce (accessKeyInfo context) in
     if wanted <=? used then throw (NearReplacementNonceUsed nonce (Z_to_string used))
     else
       reservedAtMs' <- now ;;
       leaseRandom <- ask (dep_randomId deps) ;;
       batchRandom <- ask (dep_randomId deps) ;;
       let lease :=
         mkLease (createNonceLeaseId (op_operationId operation) "near" nonce leaseRandom)
           (op_operationId operation) (op_operationFingerprint operation) reservedAtMs'
           (reservedAtMs' + leaseTtlMs)
           (Some (createNonceBatchId (op_operationId operation) "near" nonce 1 batchRandom))
           (Some 0) Reserved (NearBody lane nonce) in
       registerLease lease ;;
       assign nearStateRef (set_committed_nonce nonce) ;;
       ret (with_next_nonce nonce context, [lease])).

Definition fetchNearContext (lane : NearNonceLane) (force : bool) : C TransactionContext :=
  withLaneLock (NearLane lane) (fetchNearContextForLane lane force).

(** The debounce timer of [prefetchNearContext] is armed here, and its callback is
    [prefetchTimerFires]. *)
Definition prefetchNearContext (subject : option NearAccessKeySubject) : C unit :=
  (match subject with
   | Some sub =>
       initializeNearAccessKey (sub_walletId sub) (sub_nearAccountId sub) (sub_publicKey sub)
   | None => ret tt
   end) ;;
  s <- deref nearStateRef ;;
  match readNearAccessKeySubject s with
  | None => ret tt
  | Some _ =>
      assign nearStateRef clearNearPrefetchTimer ;;
      requireNearClient ;;
      assign nearStateRef (fun s =>
        mkNearState (lifecycle s) (inflightId s) (refreshTimer s) true (reservedNonces s)
          (lastReservedNonce s) (nearInFlight s))
  end.

Definition prefetchTimerFires : C unit :=
  s <- deref nearStateRef ;;
  if prefetchTimer s then
    assign nearStateRef clearNearPrefetchTimer ;;
    s <- deref nearStateRef ;;
    if hasNearInflightFetch s then ret tt
    else
      nowMs <- now ;;
      if shouldPrefetchNearContext s nowMs NEAR_BLOCK_FRESHNESS_THRESHOLD_MS
      then try_catch (fetchNearFreshData false ;; ret tt) (fun _ => ret tt)
      else ret tt
  else ret tt.

Definition clearNearAccessKey : C unit :=
  assign nearStateRef clearNearAccessKeyState ;;
  modify (fun w =>
    set_leases (List.filter (fun e => match body e.2 with NearBody _ _ => false | _ => true end)
                  (leases w)) w).

(** The head every lease operation shares: normalise, look the lease up, take its
    lane's lock and look it up again. *)
Definition withLockedLease (input : NonceLeaseOperationInput) (fn : NonceLease -> C unit) : C unit :=
  operationInput <- lift (normalizeLeaseOperationInput input) ;;
  lease <- readLease operationInput ;;
  withLaneLock (lease_lane lease)
    (lockedLease <- readLease operationInput ;; fn lockedLease).

Definition markSigned (input : NonceLeaseOperationInput) (signedTxHash : string) : C unit :=
  withLockedLease input (fun lockedLease =>
    nowMs <- now ;;
    let expiresAtMs' := nowMs + signedLeaseTtlMs in
    transitionLease lockedLease TMarkSigned EvLeaseSigned EmptyString signedTxHash
      (Some expiresAtMs') ;;
    persistCoordinationLease lockedLease DurableSigned expiresAtMs').

Definition markBroadcastAccepted (input : NonceLeaseOperationInput) (txHash : string) : C unit :=
  withLockedLease input (fun lockedLease =>
    preflightLeaseTransition lockedLease TBroadcastAccepted ;;
    (match body lockedLease with
     | EvmBody lane nonce => markEvmBroadcastAccepted lockedLease lane nonce txHash
     | NearBody _ nonce =>
         nowMs <- now ;;
         markNearBroadcastAcceptedState nearStateRef lockedLease nonce txHash nowMs
           (fun lease lifecycle => persistCoordinationLease lease lifecycle (expiresAtMs lease))
     end) ;;
    transitionLease lockedLease TBroadcastAccepted EvLeaseBroadcastAccepted EmptyString txHash None).

Definition markBroadcastRejected (input : NonceLeaseOperationInput) (error : string) : C unit :=
  withLockedLease input (fun lockedLease =>
    preflightLeaseTransition lockedLease TBroadcastRejected ;;
    releaseBackendReservation lockedLease ;;
    (match body lockedLease with
     | NearBody _ _ =>
         if dep_nearClient deps
         then try_catch refreshNearNonceAfterBroadcastRejected (fun _ => ret tt) else ret tt
     | EvmBody _ _ => ret tt
     end) ;;
    transitionLease lockedLease TBroadcastRejected EvLeaseBroadcastRejected error EmptyString None).

Definition markFinalized (input : NonceLeaseOperationInput) (txHash : string) : C unit :=
  withLockedLease input (fun lockedLease =>
    preflightLeaseTransition lockedLease TFinalize ;;
    (match body lockedLease with
     | EvmBody lane nonce => markEvmFinalized lockedLease lane nonce
     | NearBody _ nonce =>
         (if dep_nearClient deps then updateNearNonceFromBlockchain nonce
          else releaseBackendReservation lockedLease) ;;
         removeCoordinationLease lockedLease
     end) ;;
    transitionLease lockedLease TFinalize EvLeaseFinalized EmptyString txHash None).

Definition outcome_transition (reason : EvmNonceOutcomeReason) : NonceLeaseTransition :=
  match reason with OutcomeReplaced => TReplace | OutcomeDropped => TDrop end.

Definition outcome_event (reason : EvmNonceOutcomeReason) : NonceCoordinatorTraceEventName :=
  match reason with OutcomeReplaced => EvLeaseReplaced | OutcomeDropped => EvLeaseDropped end.

Definition markDroppedOrReplaced (input : NonceLeaseOperationInput)
    (reason : EvmNonceOutcomeReason) (txHash : string) : C unit :=
  operationInput <- lift (normalizeLeaseOperationInput input) ;;
  lease <- readLease operationInput ;;
  lift (assertEvmLease lease) ;;
  withLaneLock (lease_lane lease)
    (lockedLease <- readLease operationInput ;;
     evm <- lift (assertEvmLease lockedLease) ;;
     let '(lane, nonce) := evm in
     preflightLeaseTransition lockedLease (outcome_transition reason) ;;
     markEvmDroppedOrReplaced lockedLease lane nonce reason (truthy_option txHash) ;;
     transitionLease lockedLease (outcome_transition reason) (outcome_event reason)
       (outcome_string reason) txHash None ;;
     recordDroppedReplacedAlert lane reason).

Definition release (input : NonceLeaseOperationInput) (reason : NonceLeaseReleaseReason) : C unit :=
  withLockedLease input (fun lockedLease =>
    preflightLeaseTransition lockedLease TRelease ;;
    releaseBackendReservation lockedLease ;;
    transitionLease lockedLease TRelease EvLeaseReleased (release_reason_string reason) EmptyString
      None).

Definition expireLeases (walletId : option string) : C (list NonceLease) :=
  expireDueLeasesForWallet walletId.

Definition reconcile (lane : NonceLane) : C NonceLaneStatus :=
  withLaneLock lane
    (status <- match lane with
               | EvmLane evmLane => reconcileEvmLaneLocked evmLane
               | NearLane nearLane => reconcileNearLaneLocked nearLane
               end ;;
     emitLaneReconciled lane EmptyString None ;;
     ret status).

(** The store is cleared without waiting for it; its failure is reported. *)
Definition clearStore (f : S -> S) : C unit :=
  when hasStore do
    try_catch (storeWrite (fun s => Ok (f s)))
      (fun _ => emitCoordinationDegradedOnce DurableStoreError (degradation_of_lane None)).

Definition clearForWallet (walletId : string) : C unit :=
  let normalizedWalletId := trim walletId in
  if nonempty normalizedWalletId then
    clearStore (store_clearForWallet normalizedWalletId) ;;
    keys <- gets (fun w => mget normalizedWalletId (evmAccountLaneKeys w)) ;;
    (match keys with
     | Some evmLaneKeys =>
         modify (fun w =>
           set_evmStates (List.fold_left (fun m key => mdel key m) evmLaneKeys (evmStates w)) w) ;;
         modify (fun w =>
           set_evmAccountLaneKeys (mdel normalizedWalletId (evmAccountLaneKeys w)) w)
     | None => ret tt
     end) ;;
    s <- deref nearStateRef ;;
    (if bool_decide (sub_walletId <$> readNearAccessKeySubject s = Some normalizedWalletId)
     then assign nearStateRef clearNearAccessKeyState else ret tt) ;;
    modify (fun w =>
      set_leases
        (List.filter (fun e =>
           negb (bool_decide (nonceLaneSubjectId (lease_lane e.2) = normalizedWalletId)))
           (leases w)) w) ;;
    emit (mkEvent EvLanesCleared None None None None None (Some "clear_for_account") None
            (Some normalizedWalletId) None None)
  else ret tt.

Definition clearAll : C unit :=
  modify (set_evmStates []) ;;
  modify (set_evmAccountLaneKeys []) ;;
  modify (set_alerts []) ;;
  clearStore store_clearAll ;;
  assign nearStateRef clearNearAccessKeyState ;;
  modify (set_leases []) ;;
  emit (mkEvent EvLanesCleared None None None None None (Some "clear_all") None None None None).

Definition getDiagnostics (accountId : option string) (emitMetrics : bool)
    : C NonceCoordinatorDiagnostics :=
  nowMs <- now ;;
  w <- gets id ;;
  let diagnostics :=
    createNonceCoordinatorDiagnostics accountId (mvalues (leases w)) (nearState w)
      (mvalues (observedCoordinationDegradations w)) (outcomeMetricEvents w) nowMs in
  (if emitMetrics then
     emit (mkEvent EvMetrics None None (Some (d_metrics diagnostics)) None None None None
             (truthy_option (trim (default EmptyString accountId))) None None)
   else ret tt) ;;
  ret diagnostics.
End Operations.

(** ** Example

    A coordinator whose chain reports nonce 5, whose clock stands still at [clock]
    and whose durable store works. *)
Definition example_deps (runtime random : string) (clock : Z) : Deps :=
  mkDeps JUndefined JUndefined JUndefined JUndefined JUndefined JUndefined runtime true
    (StorePresent true) true (fun _ => clock) (fun _ => random) (fun _ _ => Ok 5)
    (fun _ _ _ => Ok StatusPending) (fun _ _ _ => Throw (JsError "offline"))
    (fun _ => Throw (JsError "offline")) (fun _ _ _ => Throw (JsError "offline")) (fun _ => false)
    (fun _ => None).

Definition example_operation : PreparedNonceOperationContext := mkOperation "op-1" "fp-1" "wallet-1".

Definition example_lease : NonceLease :=
  mkLease (createNonceLeaseId "op-1" "evm" "5" "r1") "op-1" "fp-1" 1000 121000 None None Reserved
    (EvmBody example_lane 5).

(** The world after a first reservation on an empty store. *)
Definition example_world : World LeaseTable :=
  Eval vm_compute in
    (reserve (example_deps "runtime-1" "r1" 1000) (EvmLane example_lane) example_operation
       (initialWorld ([] : LeaseTable))).2.

Lemma example_reservation :
  reserve (example_deps "runtime-1" "r1" 1000) (EvmLane example_lane) example_operation
    (initialWorld ([] : LeaseTable)) = (Ok example_lease, example_world).
Proof. vm_compute. reflexivity. Qed.
