(* ===== verification/CoordinatorFrame.v ===== *)
(** * What the coordinator's operations leave alone

    For a relation between worlds that only looks at the leases, every helper of
    the coordinator that does not change a lease satisfies it.  The lemmas are
    stated once for any such relation. *)

From S2P Require Import Prelude JsValues ChainTarget NonceTypes LeaseStateMachine NonceLaneKeys NonceRecords NonceStore EvmNonceLane NearNonceLane NonceDiagnostics NonceCoordinator.
Local Open Scope Z_scope.
Local Open Scope js_scope.

(** No refresh of the EVM lane is running. *)
Definition idle_evm {S} (k : string) (w : World S) : Prop :=
  inflightRefresh (rget (evmStateRef k) w) = false.

(** The NEAR lane waits for no request. *)
Definition near_idle (s : NearNonceLaneState) : Prop :=
  match readNearInflightFetch s with Some (FetchRunning _) => False | _ => True end.

Definition idle {S} (w : World S) : Prop := (forall k, idle_evm k w) /\ near_idle (nearState w).

(** The leases are the same, and no lane is left waiting that was not. *)
Definition frame {S} (w w' : World S) : Prop :=
  leases w' = leases w /\ (forall k, idle_evm k w -> idle_evm k w') /\
  (near_idle (nearState w) -> near_idle (nearState w')).

(** The same, for a step that works on one lane: nothing is said of that lane. *)
Definition frame_but_evm {S} (k0 : string) (w w' : World S) : Prop :=
  leases w' = leases w /\ (forall k, k <> k0 -> idle_evm k w -> idle_evm k w') /\
  (near_idle (nearState w) -> near_idle (nearState w')).

Definition frame_but_near {S} (w w' : World S) : Prop :=
  leases w' = leases w /\ (forall k, idle_evm k w -> idle_evm k w').

(** A preorder on worlds that is at least as coarse as [frame]. *)
Class LeaseRelation {S} (R : World S -> World S -> Prop) : Prop := {
  lease_relation_preorder :: PreOrder R;
  lease_relation_frame w w' : frame w w' -> R w w';
}.

#[export] Instance frame_relation {S} : LeaseRelation (@frame S).
Proof.
  split; [split; [done|]|done]. intros w1 w2 w3 (H1 & He1 & Hn1) (H2 & He2 & Hn2).
  split; [congruence|]. auto.
Qed.

#[export] Instance frame_but_evm_relation {S} k : LeaseRelation (@frame_but_evm S k).
Proof.
  split; [split; [done|]|].
  - intros w1 w2 w3 (H1 & He1 & Hn1) (H2 & He2 & Hn2). split; [congruence|]. auto.
  - intros w w' (? & ? & ?). split; auto.
Qed.

#[export] Instance frame_but_near_relation {S} : LeaseRelation (@frame_but_near S).
Proof.
  split; [split; [done|]|].
  - intros w1 w2 w3 (H1 & He1) (H2 & He2). split; [congruence|]. auto.
  - intros w w' (? & ? & ?). split; auto.
Qed.

Lemma rget_rset_evm {S} k k' s (w : World S) :
  rget (evmStateRef k) (rset (evmStateRef k') s w) = if decide (k' = k) then s else rget (evmStateRef k) w.
Proof. simpl. rewrite mget_mset. by case_decide. Qed.

Create HintDb idle.

Lemma near_idle_lifecycle s s' : lifecycle s' = lifecycle s -> near_idle s -> near_idle s'.
Proof. unfold near_idle, readNearInflightFetch. by intros ->. Qed.

Lemma near_idle_ready subject ctx nowMs a b s : near_idle (setNearAccessKeyReady subject ctx nowMs a b s).
Proof. done. Qed.

Lemma near_idle_clear s : near_idle (clearNearTransactionContext s).
Proof.
  unfold clearNearTransactionContext, near_idle, readNearInflightFetch. simpl.
  by destruct (readNearAccessKeySubject s).
Qed.

Lemma near_idle_prune c s : near_idle s -> near_idle (prune_reserved c s).
Proof.
  apply near_idle_lifecycle. unfold prune_reserved. destruct (_ =? _)%nat; [done|].
  by destruct (pruneReservedNearNonces _ _).
Qed.

Lemma near_idle_release n s : near_idle s -> near_idle (releaseNearNonceFromState n s).
Proof. apply near_idle_lifecycle. unfold releaseNearNonceFromState. by repeat case_match. Qed.

Lemma near_idle_inFlight m s : near_idle s -> near_idle (set_nearInFlight m s).
Proof. by apply near_idle_lifecycle. Qed.

Lemma near_idle_reserved r l s : near_idle s -> near_idle (set_reserved r l s).
Proof. by apply near_idle_lifecycle. Qed.

Lemma near_idle_timer s : near_idle s -> near_idle (clearNearPrefetchTimer s).
Proof. by apply near_idle_lifecycle. Qed.

Lemma near_idle_clearKey s : near_idle (clearNearAccessKeyState s).
Proof. apply near_idle_clear. Qed.

Lemma near_idle_initialize a b c s s' :
  near_idle s -> initializeNearAccessKeyState a b c s = Ok s' -> near_idle s'.
Proof.
  unfold initializeNearAccessKeyState. repeat case_match; intros; simplify_eq; try done;
    apply near_idle_clear.
Qed.

Lemma near_idle_commit a b c ctx nowMs s s' :
  near_idle s -> commitNearTransactionContextForState a b c ctx nowMs s = Ok s' -> near_idle s'.
Proof. unfold commitNearTransactionContextForState. repeat case_match; intros; by simplify_eq. Qed.

(** A fetch that is answered leaves nothing pending. *)
Lemma near_idle_settle plan ak block nowMs s :
  fp_requestId plan = inflightId s -> readNearAccessKeySubject s = Some (fp_subject plan) ->
  near_idle (settleNearFetch plan ak block nowMs s).2.
Proof.
  intros Hid Hsub. unfold settleNearFetch.
  destruct (settleNearFetchTry plan ak block nowMs s) as [r s1] eqn:E. simpl.
  assert (inflightId s1 = inflightId s /\ readNearAccessKeySubject s1 = Some (fp_subject plan))
    as [Hid1 Hsub1].
  { revert E. unfold settleNearFetchTry, lookupErrorState.
    repeat case_match; intros; simplify_eq/=; auto. }
  unfold settleNearFetchFinally. rewrite Hid1, Hid, Z.eqb_refl.
  unfold readNearAccessKeySubject in Hsub1.
  destruct (lifecycle s1) eqn:El; unfold near_idle, readNearInflightFetch; try by rewrite El.
  injection Hsub1 as ->. unfold nearAccessKeySubjectsMatch. by rewrite bool_decide_true.
Qed.

Lemma near_idle_committed n s : near_idle s -> near_idle (set_committed_nonce n s).
Proof.
  unfold set_committed_nonce, near_idle, readNearInflightFetch.
  destruct (lifecycle s) as [|? [?|]|? ? [?|?]| |] eqn:E; simpl; by rewrite ?E.
Qed.

#[export] Hint Resolve near_idle_committed near_idle_ready near_idle_clear near_idle_clearKey near_idle_prune
  near_idle_release near_idle_inFlight near_idle_reserved near_idle_timer near_idle_initialize
  near_idle_commit : idle.

(** ** Helpers that change neither a lease nor a lane *)

(** A preorder that holds between worlds with the same leases and lane states. *)
Class QuietRelation {S} (R : World S -> World S -> Prop) : Prop := {
  quiet_preorder :: PreOrder R;
  quiet_same w w' :
    leases w' = leases w -> evmStates w' = evmStates w -> nearState w' = nearState w -> R w w';
}.

#[export] Instance lease_relation_quiet {S} (R : World S -> World S -> Prop) :
  LeaseRelation R -> QuietRelation R.
Proof.
  split; [apply _|]. intros w w' Hl He Hn. apply lease_relation_frame. split; [done|].
  unfold idle_evm. simpl. by rewrite He, Hn.
Qed.

(** The leases and the lanes are the same. *)
Definition same_local {S} (w w' : World S) : Prop :=
  leases w' = leases w /\ evmStates w' = evmStates w /\ nearState w' = nearState w.

#[export] Instance same_local_quiet {S} : QuietRelation (@same_local S).
Proof.
  split; [split; [done|]|done]. intros w1 w2 w3 (? & ? & ?) (? & ? & ?). split_and!; congruence.
Qed.

Section Quiet.
Context {S : Type} `{!CoordinationStore S} (deps : Deps).
Context (R : World S -> World S -> Prop) `{!QuietRelation R}.

Lemma frame_modify f :
  (forall w, leases (f w) = leases w) -> (forall w, evmStates (f w) = evmStates w) ->
  (forall w, nearState (f w) = nearState w) -> steps R (modify f).
Proof. intros. apply steps_modify. intros w. by apply quiet_same. Qed.

Lemma frame_ask {A} (f : nat -> A) : steps R (ask f).
Proof. intros w. by apply quiet_same. Qed.

Lemma frame_call {A} (f : nat -> Result A) : steps R (call f).
Proof. intros w. by apply quiet_same. Qed.

Lemma frame_now : steps R (now deps).
Proof. apply frame_ask. Qed.

Hint Resolve frame_ask frame_call frame_now : steps.

Lemma frame_storeWrite f : steps R (storeWrite deps f).
Proof.
  unfold storeWrite. steps_tac. intros w. destruct (f (store w)); by apply quiet_same.
Qed.

Lemma frame_storeRead {A} (f : S -> Result A) : steps R (storeRead deps f).
Proof. unfold storeRead. steps_tac. intros w. by apply quiet_same. Qed.

Lemma frame_emit e : steps R (emit e).
Proof. by apply frame_modify. Qed.

Hint Resolve frame_storeWrite frame_storeRead frame_emit : steps.

Lemma frame_degraded reason input : steps R (emitCoordinationDegradedOnce reason input).
Proof.
  unfold emitCoordinationDegradedOnce. steps_tac. by apply frame_modify.
Qed.

Hint Resolve frame_degraded : steps.

Lemma frame_index lane k : steps R (indexEvmLaneByAccount lane k).
Proof. by apply frame_modify. Qed.

Lemma frame_readRecords k lane : steps R (readCoordinationLaneRecords deps k lane).
Proof. unfold readCoordinationLaneRecords. steps_tac. Qed.

Hint Resolve frame_index frame_readRecords : steps.

Lemma frame_collect family q records : forall active,
  steps R (collectActiveRecords deps family q active records).
Proof. induction records as [|p records IH]; intros active; simpl; steps_tac. Qed.

Hint Resolve frame_collect : steps.

Lemma frame_readActiveEvm k lane q : steps R (readActiveEvmLeaseNonces deps k lane q).
Proof. unfold readActiveEvmLeaseNonces. steps_tac. Qed.

Lemma frame_readActiveNear lane k q : steps R (readActiveNearLeaseNonces deps lane k q).
Proof. unfold readActiveNearLeaseNonces. steps_tac. Qed.

Lemma frame_persistRecord r lane : steps R (persistCoordinationRecord deps r lane).
Proof. unfold persistCoordinationRecord. steps_tac. Qed.

Hint Resolve frame_readActiveEvm frame_readActiveNear frame_persistRecord : steps.

Lemma frame_persist lease l e : steps R (persistCoordinationLease deps lease l e).
Proof. unfold persistCoordinationLease. steps_tac. Qed.

Lemma frame_remove lease : steps R (removeCoordinationLease deps lease).
Proof. unfold removeCoordinationLease. steps_tac. Qed.

Hint Resolve frame_persist frame_remove : steps.

Lemma frame_shouldRefresh k lane : steps R (shouldRefreshEvmLaneLocked deps k lane).
Proof. unfold shouldRefreshEvmLaneLocked, shouldRefreshEvmLane. steps_tac. Qed.

Hint Resolve frame_shouldRefresh : steps.

End Quiet.

#[export] Hint Resolve frame_ask frame_call frame_now
  frame_storeWrite frame_storeRead frame_emit frame_degraded frame_index
  frame_readRecords frame_collect frame_readActiveEvm frame_readActiveNear frame_persistRecord
  frame_persist frame_remove frame_shouldRefresh : steps.
(** ** Updates of a lane *)

Section Frame.
Context {S : Type} (R : World S -> World S -> Prop) `{!LeaseRelation R}.

Lemma frame_assign_evm k f :
  (forall s, inflightRefresh (f s) = inflightRefresh s) -> steps R (assign (evmStateRef k) f).
Proof.
  intros Hf. apply steps_modify. intros w. apply lease_relation_frame.
  split; [done|split; [|done]]. intros k' H. unfold idle_evm in *. rewrite rget_rset_evm.
  case_decide; [|done]. subst. by rewrite Hf.
Qed.

Lemma frame_assign_near f :
  (forall s, near_idle s -> near_idle (f s)) -> steps R (assign nearStateRef f).
Proof.
  intros Hf. apply steps_modify. intros w. apply lease_relation_frame.
  split; [done|split; [done|]]. apply Hf.
Qed.

Lemma frame_getOrCreate k : steps R (getOrCreateEvmState k).
Proof.
  apply steps_modify. intros w. apply lease_relation_frame. split; [done|split; [|done]].
  intros k'. unfold idle_evm, getOrCreateEvmNonceLaneState. simpl.
  destruct (mget k (evmStates w)) eqn:E; [done|]. rewrite mget_mset. by case_decide.
Qed.
End Frame.

#[export] Hint Resolve frame_getOrCreate : steps.
#[export] Hint Extern 1 (steps _ (assign (evmStateRef _) _)) =>
  apply frame_assign_evm; [typeclasses eauto | intros; simpl; repeat case_match; reflexivity] : steps.
#[export] Hint Extern 1 (steps _ (assign nearStateRef _)) =>
  apply frame_assign_near; [typeclasses eauto | solve [eauto with idle]] : steps.

(** ** A refresh of a lane *)

Section FrameRefresh.
Context {S : Type} `{!CoordinationStore S} (deps : Deps).
Context (R : World S -> World S -> Prop) `{!LeaseRelation R}.

Lemma assign_but_evm k f : steps (@frame_but_evm S k) (assign (evmStateRef k) f).
Proof.
  apply steps_modify. intros w. split; [done|split; [|done]]. intros k' Hne H.
  unfold idle_evm in *. rewrite rget_rset_evm. by case_decide.
Qed.

Hint Resolve assign_but_evm : steps.

Lemma refreshTask_but_evm lane nowMs fetch :
  let laneKey := nonceLaneKey (EvmLane lane) in
  (forall l, steps (@frame_but_evm S laneKey) (fetch l)) ->
  steps (@frame_but_evm S laneKey)
    (refreshTask (evmStateRef laneKey) lane nowMs fetch
       (readActiveEvmLeaseNonces deps laneKey (Some lane))).
Proof. intros laneKey Hf. unfold refreshTask. steps_tac. Qed.

(** Whatever the refresh does, its flag is down when it ends. *)
Lemma frame_refresh lane : steps R (refreshEvmLaneFromChainLocked deps lane).
Proof.
  intros w. apply lease_relation_frame. unfold refreshEvmLaneFromChainLocked.
  set (k := nonceLaneKey (EvmLane lane)). unfold bind at 1. cbn [now ask].
  unfold EvmNonceLane.refreshEvmLaneFromChainLocked, bind at 1, deref, gets.
  set (w0 := next_tick w). assert (frame w w0) as Hw0 by by apply (quiet_same (R:=frame)).
  destruct (inflightRefresh (rget (evmStateRef k) w0)) eqn:Ei; [done|].
  etransitivity; [exact Hw0|].
  set (w1 := rset (evmStateRef k) (set_inflightRefresh true (rget (evmStateRef k) w0)) w0).
  pose proof (assign_but_evm k (set_inflightRefresh true) w0) as H1.
  pose proof (refreshTask_but_evm lane (dep_now deps (tick w))
    (fun targetLane => call (fun n => dep_fetchChainNonce deps n (evmLaneToReserveNonceInput targetLane)))
    (fun l => frame_call _ _) w1) as H2.
  unfold bind, assign, modify, try_catch. cbn beta iota.
  assert (forall w2 : World S, frame_but_evm k w1 w2 ->
    frame w0 (rset (evmStateRef k) (set_inflightRefresh false (rget (evmStateRef k) w2)) w2)) as Hend.
  { intros w2 H. assert (frame_but_evm k w0 w2) as (Hl & He & Hn) by (etransitivity; [exact H1|exact H]).
    split; [done|split; [|done]]. intros k' Hk'. unfold idle_evm. rewrite rget_rset_evm.
    case_decide; [done|]. by apply He. }
  change (rset _ (set_inflightRefresh true _) w0) with w1.
  destruct (refreshTask _ _ _ _ _ w1) as [[a|e] w2]; simpl in H2 |- *; by apply Hend.
Qed.
End FrameRefresh.

#[export] Hint Resolve frame_refresh : steps.

(** ** A fetch of the NEAR access key *)

Section FrameFetch.
Context {S : Type} `{!CoordinationStore S} (deps : Deps).
Context (R : World S -> World S -> Prop) `{!LeaseRelation R}.

Lemma frame_attempt {A} (m : M (World S) A) : steps R m -> steps R (attempt m).
Proof. intros H w. specialize (H w). unfold attempt. by destruct (m w). Qed.

Lemma frame_viewAccessKey a k : steps R (viewAccessKey (nearClient deps) a k).
Proof. apply frame_call, _. Qed.

Lemma frame_viewBlock : steps R (viewBlock (nearClient deps)).
Proof. apply frame_call, _. Qed.

Lemma frame_txStatus h a : steps R (txStatus (nearClient deps) h a).
Proof. apply frame_call, _. Qed.
End FrameFetch.

#[export] Hint Resolve frame_attempt frame_viewAccessKey frame_viewBlock frame_txStatus : steps.

(** What a fetch leaves when it suspends or ends at once. *)
Lemma startNearFetch_idle force nowMs nt bt s r s' :
  near_idle s -> startNearFetch force nowMs nt bt s = (r, s') ->
  match r with
  | Ok (AwaitingFetch plan) =>
      fp_requestId plan = inflightId s' /\ readNearAccessKeySubject s' = Some (fp_subject plan)
  | _ => near_idle s'
  end.
Proof.
  intros Hi. unfold startNearFetch.
  destruct (requireNearAccessKeySubject s) as [subject|e]; [|repeat case_match; by intros [= <- <-]].
  cbn zeta. set (plan := planNearFetch _ _ _ _ _ _ _).
  destruct (settleNearFetch plan (Ok JNull) (Ok JNull) nowMs _) as [r1 s1].
  repeat case_match; intros [= <- <-]; done.
Qed.

Section FetchIdle.
Context {S : Type} `{!CoordinationStore S} (deps : Deps).
Context (R : World S -> World S -> Prop) `{!LeaseRelation R}.

Lemma nearSet_but_near {A} (f : NearNonceLaneState -> Result A * NearNonceLaneState) :
  steps (@frame_but_near S)
    (fun w => let '(r, s) := f (rget nearStateRef w) in (r, rset nearStateRef s w)).
Proof. intros w. by destruct (f (rget nearStateRef w)). Qed.

Lemma keeps_near_ask {A} (f : nat -> A) : keeps (@nearStateRef S) (ask f).
Proof. done. Qed.

Lemma wp_near_answer {A} (b : bool) (f : nat -> Result A) d (w : World S) :
  wp (if b then attempt (call f) else ret d) (fun _ w' => nearState w' = nearState w)
    (fun _ _ => False) w.
Proof. by destruct b. Qed.

Lemma fetch_idle_wp force (w : World S) :
  near_idle (nearState w) ->
  wp (fetchNearFreshData deps force) (fun _ w' => near_idle (nearState w'))
    (fun _ w' => near_idle (nearState w')) w.
Proof.
  intros Hi. unfold fetchNearFreshData, fetchNearFreshDataForState. apply wp_bind, wp_deref, wp_bind.
  eapply wp_mono; [eapply (wp_keeps nearStateRef _ (fun s => s = nearState w))| |];
    [by repeat case_match|done| |intros e w1 H1; simpl in H1; by rewrite H1].
  intros nowMs w1 H1. simpl in H1. apply wp_bind. unfold wp at 1. simpl rget. rewrite H1.
  destruct (startNearFetch force nowMs _ _ (nearState w)) as [r s'] eqn:E.
  apply startNearFetch_idle in E; [|done].
  destruct r as [[[|]|res|plan]|e]; try exact E; try (by destruct result); try (by destruct res).
  destruct E as [Hid Hsub]. apply wp_bind.
  eapply wp_mono; [apply wp_near_answer| |done].
  intros ak w2 H2. simpl in H2. apply wp_bind.
  eapply wp_mono; [apply wp_near_answer| |done].
  intros block w3 H3. simpl in H3. apply wp_bind. unfold wp, now, ask. simpl. rewrite H3, H2.
  pose proof (near_idle_settle plan ak block (dep_now deps (tick w3)) s' Hid Hsub) as Hs.
  destruct (settleNearFetch plan ak block (dep_now deps (tick w3)) s') as [[r|e] s3]; exact Hs.
Qed.

Lemma fetch_but_near force : steps (@frame_but_near S) (fetchNearFreshData deps force).
Proof.
  unfold fetchNearFreshData, fetchNearFreshDataForState. steps_tac; try apply nearSet_but_near.
Qed.

Lemma frame_fetch force : steps R (fetchNearFreshData deps force).
Proof.
  intros w. apply lease_relation_frame. destruct (fetch_but_near force w) as [Hl He].
  split; [done|split; [done|]]. intros Hi%(fetch_idle_wp force). unfold wp in Hi.
  by destruct (fetchNearFreshData deps force w) as [[a|e] w'].
Qed.
End FetchIdle.

#[export] Hint Resolve frame_fetch : steps.

Section FrameOperations.
Context {S : Type} `{!CoordinationStore S} (deps : Deps).
Context (R : World S -> World S -> Prop) `{!LeaseRelation R}.

Lemma frame_releaseEvm lease lane nonce : steps R (releaseEvmNonceReservation deps lease lane nonce).
Proof. unfold releaseEvmNonceReservation, releaseEvmNonceReservationState. steps_tac. Qed.

Lemma frame_acceptedEvm lease lane nonce h : steps R (markEvmBroadcastAccepted deps lease lane nonce h).
Proof. unfold markEvmBroadcastAccepted, markEvmBroadcastAcceptedState. steps_tac. Qed.

Lemma frame_finalizedEvm lease lane nonce : steps R (markEvmFinalized deps lease lane nonce).
Proof. unfold markEvmFinalized, markEvmFinalizedState. steps_tac. Qed.

Lemma frame_droppedEvm lease lane nonce r h :
  steps R (markEvmDroppedOrReplaced deps lease lane nonce r h).
Proof. unfold markEvmDroppedOrReplaced, markEvmDroppedOrReplacedState, droppedState. steps_tac. Qed.

Lemma frame_reconcileEvm lane : steps R (reconcileEvmLaneLocked deps lane).
Proof. unfold reconcileEvmLaneLocked, reconcileEvmLaneState. steps_tac. Qed.

Lemma frame_alert lane r : steps R (recordDroppedReplacedAlert deps lane r).
Proof. unfold recordDroppedReplacedAlert. steps_tac. by apply (frame_modify R). Qed.

Hint Resolve frame_releaseEvm frame_acceptedEvm frame_finalizedEvm frame_droppedEvm
  frame_reconcileEvm frame_alert : steps.

Lemma frame_release lease : steps R (releaseBackendReservation deps lease).
Proof. unfold releaseBackendReservation. steps_tac. Qed.

Lemma frame_reconciled lane r h : steps R (emitLaneReconciled lane r h).
Proof. unfold emitLaneReconciled. steps_tac. Qed.

Hint Resolve frame_release frame_reconciled : steps.

Lemma frame_signedExpiry lease : steps R (reconcileAfterSignedLeaseExpiry deps lease).
Proof. unfold reconcileAfterSignedLeaseExpiry. steps_tac. Qed.

Hint Resolve frame_signedExpiry : steps.

Lemma frame_assignR f :
  (forall s s', near_idle s -> f s = Ok s' -> near_idle s') -> steps R (assignR nearStateRef f).
Proof.
  intros Hf w. unfold assignR, bind, deref, gets, lift.
  destruct (f (rget nearStateRef w)) as [s'|e] eqn:E; simpl; [|reflexivity].
  apply lease_relation_frame. split; [done|split; [done|]]. simpl. intros H. by eapply Hf.
Qed.

Hint Extern 1 (steps R (assignR nearStateRef _)) =>
  apply frame_assignR; solve [eauto with idle] : steps.

Lemma frame_initializeNear a b c : steps R (initializeNearAccessKey a b c).
Proof. unfold initializeNearAccessKey. steps_tac. Qed.

Lemma frame_reserveNear lane n : steps R (reserveNearNonces deps lane n).
Proof. unfold reserveNearNonces, reserveNearNoncesFromState. steps_tac. Qed.

Lemma frame_requireClient : steps R (requireNearClient deps).
Proof. unfold requireNearClient. steps_tac. Qed.

Hint Resolve frame_initializeNear frame_reserveNear frame_requireClient : steps.

Lemma frame_readAccessKey a k : steps R (readAccessKey (nearClient deps) a k).
Proof. unfold readAccessKey. steps_tac. Qed.

Hint Resolve frame_readAccessKey : steps.

Lemma frame_update n : steps R (updateNearNonceFromBlockchain deps n).
Proof. unfold updateNearNonceFromBlockchain, updateNearNonceFromBlockchainState. steps_tac. Qed.

Lemma frame_refreshRejected : steps R (refreshNearNonceAfterBroadcastRejected deps).
Proof.
  unfold refreshNearNonceAfterBroadcastRejected, refreshNearNonceAfterBroadcastRejectedState.
  steps_tac.
Qed.

Hint Resolve frame_update frame_refreshRejected : steps.

Lemma frame_fetchForLane lane force : steps R (fetchNearContextForLane deps lane force).
Proof. unfold fetchNearContextForLane. steps_tac. Qed.

Lemma frame_commit lane ctx : steps R (commitNearContext deps lane ctx).
Proof. unfold commitNearContext. steps_tac. Qed.

Lemma frame_buildNear lane op at_ms b nonces : forall i,
  steps R (buildNearLeases deps lane op at_ms b i nonces).
Proof. induction nonces as [|n nonces IH]; intros i; simpl; steps_tac. Qed.

Lemma frame_readLease input : steps R (readLease input).
Proof. unfold readLease. steps_tac. Qed.

Lemma frame_preflight lease t : steps R (preflightLeaseTransition lease t).
Proof. unfold preflightLeaseTransition. steps_tac. Qed.

Lemma frame_lock {A} lane (m : M (World S) A) : steps R m -> steps R (withLaneLock deps lane m).
Proof. intros Hm. unfold withLaneLock. steps_tac. Qed.
End FrameOperations.

#[export] Hint Resolve frame_releaseEvm frame_acceptedEvm
  frame_finalizedEvm frame_droppedEvm frame_reconcileEvm frame_alert frame_release frame_reconciled
  frame_signedExpiry frame_initializeNear frame_reserveNear
  frame_requireClient frame_readAccessKey
  frame_update frame_refreshRejected frame_fetchForLane frame_commit frame_buildNear
  frame_readLease frame_preflight frame_lock : steps.
#[export] Hint Extern 1 (steps _ (assignR nearStateRef _)) =>
  apply frame_assignR; [typeclasses eauto | solve [eauto with idle]] : steps.

(** [steps_tac], also under a lane lock. *)
Ltac op_steps := steps_tac; repeat (apply frame_lock; [typeclasses eauto | steps_tac]).
