(* ===== verification/CoordinatorInvariants.v ===== *)
(** * Invariants of the coordinator

    Every operation changes leases only through the lease state machine, and no
    sequence of operations leaves two active EVM leases of one lane with the
    same nonce. *)

From S2P Require Import Prelude JsValues ChainTarget NonceTypes LeaseStateMachine NonceLaneKeys NonceRecords NonceStore EvmNonceLane NearNonceLane NonceDiagnostics NonceCoordinator CoordinatorFrame.
Local Open Scope Z_scope.
Local Open Scope js_scope.

Lemma run_trans s ts s' us s'' : lease_run s ts s' -> lease_run s' us s'' -> lease_run s (ts ++ us) s''.
Proof. induction 1 as [|s t s1 ts s2 Ht _ IH]; simpl; [done|]. intros H. econstructor; eauto. Qed.

(** A lease that went through zero or more accepted transitions; nothing but its
    state and its expiry changed. *)
Definition lease_evolves (l l' : NonceLease) : Prop :=
  leaseId l' = leaseId l /\ operationId l' = operationId l /\
  operationFingerprint l' = operationFingerprint l /\ body l' = body l /\
  exists ts, lease_run (state l) ts (state l').

Lemma lease_evolves_refl l : lease_evolves l l.
Proof. split_and!; try done. exists []. constructor. Qed.

Lemma lease_evolves_trans l1 l2 l3 : lease_evolves l1 l2 -> lease_evolves l2 l3 -> lease_evolves l1 l3.
Proof.
  intros (? & ? & ? & ? & ts & Ht) (? & ? & ? & ? & us & Hu).
  split_and!; try congruence. exists (ts ++ us). by eapply run_trans.
Qed.

Lemma lease_evolves_active l l' :
  lease_evolves l l' -> isActiveEvmLeaseState (state l') = true -> isActiveEvmLeaseState (state l) = true.
Proof.
  intros (_ & _ & _ & _ & ts & H) Ha. destruct (isActiveEvmLeaseState (state l)) eqn:E; [done|].
  exfalso. revert E Ha. induction H as [|s t s1 ts s2 Ht _ IH]; [congruence|].
  intros E. apply IH. by eapply reduce_inactive.
Qed.

(** Leases may be deleted; those that remain evolved.  No lane is left waiting. *)
Definition evolves {S} (w w' : World S) : Prop :=
  (mwf (leases w) -> mwf (leases w')) /\
  (forall id l', (id, l') ∈ leases w' -> exists l, (id, l) ∈ leases w /\ lease_evolves l l') /\
  (idle w -> idle w').

#[export] Instance evolves_relation {S} : LeaseRelation (@evolves S).
Proof.
  split; [split|].
  - intros w. split_and!; eauto using lease_evolves_refl.
  - intros w1 w2 w3 (Hw1 & H1 & Hi1) (Hw2 & H2 & Hi2). split_and!; [by auto| |by auto].
    intros id l (l2 & Hl2 & He2)%H2. destruct (H1 _ _ Hl2) as (l1 & Hl1 & He1).
    eauto using lease_evolves_trans.
  - intros w w' (Hl & He & Hn). unfold evolves. rewrite Hl.
    split_and!; [done|eauto using lease_evolves_refl|]. intros [??]. split; auto.
Qed.

(** Deleting leases, whatever the reason. *)
Lemma evolves_filter {S} f (w : World S) : evolves w (set_leases (List.filter f (leases w)) w).
Proof.
  split_and!; [apply mwf_filter| |done]. simpl.
  intros id l [Hin _]%list_elem_of_In%filter_In. exists l.
  split; [by apply list_elem_of_In|apply lease_evolves_refl].
Qed.

(** ** Every operation that reserves nothing *)

Lemma reduce_ok s t s' : reduceNonceLeaseState s t = Ok s' -> tryReduceNonceLeaseState s t = Accepted s'.
Proof. unfold reduceNonceLeaseState. destruct (tryReduceNonceLeaseState s t); congruence. Qed.

(** The lease an accepted transition writes. *)
Definition transitioned (s' : NonceLeaseState) (expiry : option Z) (l : NonceLease) : NonceLease :=
  let l' := lease_with_state s' l in
  match expiry with
  | Some t => if is_safe_integer t then lease_with_expiry t l' else l'
  | None => l'
  end.

Lemma transitioned_evolves s' e l t :
  reduceNonceLeaseState (state l) t = Ok s' -> lease_evolves l (transitioned s' e l).
Proof.
  intros H%reduce_ok. unfold transitioned.
  assert (lease_evolves l (lease_with_state s' l)) as Hl.
  { split_and!; try done. exists [t]. by repeat econstructor. }
  destruct e as [x|]; [|done]. by destruct (is_safe_integer x).
Qed.

Lemma update_lease_evolves {S} id l l' (w : World S) :
  mget id (leases w) = Some l -> lease_evolves l l' ->
  evolves w (set_leases (update_lease id l' (leases w)) w).
Proof.
  intros Hl He. unfold update_lease, mhas. rewrite Hl. split_and!; simpl; [apply mset_wf| |done].
  intros id' x [[= -> ->]|Hin]%elem_mset; [|eauto using lease_evolves_refl].
  exists l. split; [by apply mget_elem|done].
Qed.

Section Evolves.
Context {S : Type} `{!CoordinationStore S} (deps : Deps).

Lemma evolves_transition lease t ev reason h e : steps (@evolves S) (transitionLease lease t ev reason h e).
Proof.
  intros w. unfold transitionLease, bind, gets, lift, modify.
  destruct (reduceNonceLeaseState _ t) as [s'|] eqn:Es; [|reflexivity].
  set (l' := match e with Some _ => _ | None => _ end).
  assert (l' = transitioned s' e (live_lease lease (leases w))) as -> by done.
  etransitivity; [|apply (frame_emit evolves)].
  unfold live_lease in *. destruct (mget (leaseId lease) (leases w)) as [l|] eqn:El; simpl in *.
  - eapply update_lease_evolves; [done|]. by eapply transitioned_evolves.
  - unfold update_lease, mhas. rewrite El. by destruct w.
Qed.

Hint Resolve evolves_transition : steps.

Lemma evolves_expireLocked lease nowMs : steps (@evolves S) (expireLeaseLocked deps lease nowMs).
Proof. unfold expireLeaseLocked. steps_tac. Qed.

Hint Resolve evolves_expireLocked : steps.

Lemma evolves_expireDue k nowMs snapshot : steps (@evolves S) (expireDueLeases deps k nowMs snapshot).
Proof. induction snapshot as [|l snapshot IH]; simpl; steps_tac. Qed.

Hint Resolve evolves_expireDue : steps.

Lemma evolves_expireLane lane : steps (@evolves S) (expireDueLeasesForLockedLane deps lane).
Proof. unfold expireDueLeasesForLockedLane. steps_tac. Qed.

Hint Resolve evolves_expireLane : steps.

Lemma evolves_expireLanes lanes : steps (@evolves S) (expireLanes deps lanes).
Proof. induction lanes as [|l lanes IH]; simpl; steps_tac. Qed.

Hint Resolve evolves_expireLanes : steps.

Lemma evolves_expireWallet wallet : steps (@evolves S) (expireDueLeasesForWallet deps wallet).
Proof. unfold expireDueLeasesForWallet. steps_tac. Qed.

Lemma evolves_reconcileNearLeases account chain active :
  steps (@evolves S)
    (reconcileNearLeases nearStateRef (nearClient deps) account chain (removeCoordinationLease deps)
       (fun lease finalized reason txHash =>
          transitionLease lease (if (finalized : bool) then TFinalize else TDrop)
            (if finalized then EvLeaseFinalized else EvLeaseDropped) reason txHash None) active).
Proof. induction active as [|[l n] active IH]; simpl; steps_tac. Qed.

Hint Resolve evolves_reconcileNearLeases : steps.

Lemma evolves_reconcileNear lane : steps (@evolves S) (reconcileNearLaneLocked deps lane).
Proof. unfold reconcileNearLaneLocked, reconcileNearLaneState. steps_tac. Qed.

Hint Resolve evolves_reconcileNear : steps.

Lemma evolves_orNull {A} (m : M (World S) A) : steps evolves m -> steps evolves (orNull m).
Proof. intros Hm. unfold orNull. steps_tac. Qed.

Lemma evolves_removeRecord id : steps (@evolves S) (removeRecord deps id).
Proof. unfold removeRecord. steps_tac. Qed.

Hint Resolve evolves_orNull evolves_removeRecord : steps.

Lemma evolves_recoverEvm r lane x : steps (@evolves S) (recoverEvmRecord deps r lane x).
Proof. unfold recoverEvmRecord. steps_tac. Qed.

Lemma evolves_readRecovery a k : steps (@evolves S) (readNearRecoveryNonce deps a k).
Proof. unfold readNearRecoveryNonce. steps_tac. Qed.

Hint Resolve evolves_recoverEvm evolves_readRecovery : steps.

Lemma evolves_recoverNear r lane k o : steps (@evolves S) (recoverNearRecord deps r lane k o).
Proof. unfold recoverNearRecord. steps_tac. Qed.

Hint Resolve evolves_recoverNear : steps.

Lemma evolves_recoverRecord p o : steps (@evolves S) (recoverRecord deps p o).
Proof. unfold recoverRecord. op_steps. Qed.

Hint Resolve evolves_recoverRecord : steps.

Lemma evolves_recoverResults results : forall o, steps (@evolves S) (recoverResults deps o results).
Proof. induction results as [|[p|d k l] results IH]; intros o; simpl; steps_tac. Qed.

Hint Resolve evolves_recoverResults : steps.

Lemma evolves_recover wallet : steps (@evolves S) (recoverDurableLeases deps wallet).
Proof. unfold recoverDurableLeases. steps_tac. Qed.

Lemma evolves_withLease input fn :
  (forall l, steps (@evolves S) (fn l)) -> steps evolves (withLockedLease deps input fn).
Proof. intros Hf. unfold withLockedLease. op_steps. Qed.

Lemma evolves_markSigned input h : steps (@evolves S) (markSigned deps input h).
Proof. apply evolves_withLease. steps_tac. Qed.

Lemma evolves_markAccepted input h : steps (@evolves S) (markBroadcastAccepted deps input h).
Proof. apply evolves_withLease. unfold markNearBroadcastAcceptedState. steps_tac. Qed.

Lemma evolves_markRejected input e : steps (@evolves S) (markBroadcastRejected deps input e).
Proof. apply evolves_withLease. steps_tac. Qed.

Lemma evolves_markFinalized input h : steps (@evolves S) (markFinalized deps input h).
Proof. apply evolves_withLease. steps_tac. Qed.

Lemma evolves_markDropped input r h : steps (@evolves S) (markDroppedOrReplaced deps input r h).
Proof. unfold markDroppedOrReplaced. op_steps. Qed.

Lemma evolves_release input r : steps (@evolves S) (release deps input r).
Proof. apply evolves_withLease. steps_tac. Qed.

Lemma evolves_reconcile lane : steps (@evolves S) (reconcile deps lane).
Proof. unfold reconcile. op_steps. Qed.

Lemma evolves_fetchNear lane force : steps (@evolves S) (fetchNearContext deps lane force).
Proof. unfold fetchNearContext. steps_tac. Qed.

Lemma evolves_prefetch subject : steps (@evolves S) (prefetchNearContext deps subject).
Proof. unfold prefetchNearContext. steps_tac. Qed.

Lemma evolves_prefetchTimer : steps (@evolves S) (prefetchTimerFires deps).
Proof. unfold prefetchTimerFires. steps_tac. Qed.

Lemma evolves_delete f : steps (@evolves S) (modify (fun w => set_leases (List.filter f (leases w)) w)).
Proof. apply steps_modify. intros w. apply evolves_filter. Qed.

Hint Resolve evolves_delete : steps.

Lemma evolves_clearNear : steps (@evolves S) clearNearAccessKey.
Proof. unfold clearNearAccessKey. steps_tac. Qed.

Lemma evolves_clearStore f : steps (@evolves S) (clearStore deps f).
Proof. unfold clearStore. steps_tac. Qed.

Hint Resolve evolves_clearStore : steps.

(** Forgetting lane states leaves no lane waiting. *)
Lemma evolves_evmStates f :
  (forall m k s, mget k (f m) = Some s -> mget k m = Some s) ->
  steps (@evolves S) (modify (fun w => set_evmStates (f (evmStates w)) w)).
Proof.
  intros Hf. apply steps_modify. intros w. apply lease_relation_frame. split; [done|split; [|done]].
  intros k. unfold idle_evm. simpl. destruct (mget k (f (evmStates w))) eqn:E; [|done].
  by rewrite (Hf _ _ _ E).
Qed.

Lemma mget_fold_mdel {V} keys : forall (m : list (string * V)) k v,
  mget k (List.fold_left (fun m key => mdel key m) keys m) = Some v -> mget k m = Some v.
Proof.
  induction keys as [|key keys IH]; intros m k v; simpl; [done|]. intros H%IH.
  destruct (decide (k = key)) as [->|]; [by rewrite mget_mdel_eq in H|by rewrite mget_mdel_ne in H].
Qed.

Lemma evolves_clearWallet wallet : steps (@evolves S) (clearForWallet deps wallet).
Proof.
  unfold clearForWallet. steps_tac; [|by apply (frame_modify evolves)].
  apply (evolves_evmStates (fun m => List.fold_left (fun m key => mdel key m) l m)).
  intros m k s. apply mget_fold_mdel.
Qed.

Lemma evolves_clearAll : steps (@evolves S) (clearAll deps).
Proof.
  unfold clearAll. steps_tac; try by apply (frame_modify evolves).
  - by apply (evolves_evmStates (fun _ => [])).
  - apply steps_modify. intros w. split_and!; [by constructor| |done].
    by intros id l ?%not_elem_of_nil.
Qed.

Lemma evolves_diagnostics a b : steps (@evolves S) (getDiagnostics deps a b).
Proof. unfold getDiagnostics. steps_tac. Qed.
End Evolves.
