(* ===== verification/CoordinatorReserve.v ===== *)
(** * Reserving an EVM nonce

    Which computations cannot fail, which nonces the readers of the lease table
    report, and what the search for a nonce and the entry of its lease leave. *)

From S2P Require Import Prelude JsValues ChainTarget NonceTypes LeaseStateMachine NonceLaneKeys NonceRecords NonceStore EvmNonceLane NearNonceLane NonceDiagnostics NonceCoordinator CoordinatorFrame CoordinatorInvariants.
Local Open Scope Z_scope.
Local Open Scope js_scope.

(** ** Calls that do not throw *)

Definition nothrow {W A} (m : M W A) : Prop :=
  forall w, match m w with (Ok _, _) => True | (Throw _, _) => False end.

Section NoThrow.
Context {W : Type}.

Lemma nothrow_ret {A} (a : A) : nothrow (W:=W) (ret a).
Proof. done. Qed.

Lemma nothrow_gets {A} (f : W -> A) : nothrow (gets f).
Proof. done. Qed.

Lemma nothrow_modify (f : W -> W) : nothrow (modify f).
Proof. done. Qed.

Lemma nothrow_deref {A} (r : Ref W A) : nothrow (deref r).
Proof. done. Qed.

Lemma nothrow_assign {A} (r : Ref W A) f : nothrow (assign r f).
Proof. done. Qed.

Lemma nothrow_lift {A} (a : A) : nothrow (W:=W) (lift (Ok a)).
Proof. done. Qed.

Lemma nothrow_bind {A B} (m : M W A) (k : A -> M W B) :
  nothrow m -> (forall a, nothrow (k a)) -> nothrow (bind m k).
Proof.
  intros Hm Hk w. specialize (Hm w). unfold bind. destruct (m w) as [[a|e] w']; [apply Hk|done].
Qed.

Lemma nothrow_try {A} (m : M W A) h : (forall e, nothrow (h e)) -> nothrow (try_catch m h).
Proof. intros Hh w. unfold try_catch. destruct (m w) as [[a|e] w']; [done|apply Hh]. Qed.

(** The outcome of such a call, with what it does to the world. *)
Lemma wp_nothrow {A} (R : W -> W -> Prop) (m : M W A) w :
  nothrow m -> steps R m -> wp m (fun _ w' => R w w') (fun _ _ => False) w.
Proof. intros Hm H. specialize (H w). specialize (Hm w). unfold wp. by destruct (m w) as [[a|e] w']. Qed.

Lemma wp_nothrow_post {A} (m : M W A) Q E w :
  nothrow m -> wp m Q E w -> wp m Q (fun _ _ => False) w.
Proof. intros Hm. specialize (Hm w). unfold wp. by destruct (m w) as [[a|e] w']. Qed.

(** A postcondition, together with the relation every run of [m] respects. *)
Lemma wp_steps {A} (R : W -> W -> Prop) (m : M W A) Q w :
  steps R m -> wp m Q (fun _ _ => True) w ->
  wp m (fun a w' => Q a w' /\ R w w') (fun _ w' => R w w') w.
Proof. intros Hm. specialize (Hm w). unfold wp. by destruct (m w) as [[a|e] w']. Qed.

(** A step that relates worlds by [R], in a run that began in [w0]. *)
Lemma wp_bind_steps {A B} (R : W -> W -> Prop) `{!PreOrder R} (m : M W A) (k : A -> M W B) Q E w0 w :
  steps R m -> R w0 w ->
  (forall a w', R w0 w' -> wp (k a) Q E w') -> (forall e w', R w0 w' -> E e w') ->
  wp (bind m k) Q E w.
Proof.
  intros Hm Hw Hk He. apply wp_bind. eapply wp_mono; [apply (steps_wp R _ _ Hm)|..]; simpl;
    intros; [apply Hk|apply He]; by etransitivity.
Qed.
End NoThrow.

Create HintDb nothrow.
#[export] Hint Resolve nothrow_ret nothrow_gets nothrow_modify nothrow_deref nothrow_assign
  nothrow_lift : nothrow.

Ltac nothrow_tac :=
  repeat first
    [ progress intros
    | solve [auto with nothrow]
    | apply nothrow_bind
    | apply nothrow_try
    | case_match ].

Section Quiet.
Context {S : Type} `{!CoordinationStore S} (deps : Deps).

Lemma nothrow_ask {A} (f : nat -> A) : nothrow (ask (S:=S) f).
Proof. done. Qed.

Lemma nothrow_emit e : nothrow (emit (S:=S) e).
Proof. done. Qed.

Hint Resolve nothrow_ask nothrow_emit : nothrow.

Lemma nothrow_now : nothrow (now (S:=S) deps).
Proof. apply nothrow_ask. Qed.

Lemma nothrow_degraded reason input : nothrow (emitCoordinationDegradedOnce (S:=S) reason input).
Proof. unfold emitCoordinationDegradedOnce. nothrow_tac. Qed.

Hint Resolve nothrow_now nothrow_degraded : nothrow.

Lemma nothrow_readRecords k lane : nothrow (readCoordinationLaneRecords (S:=S) deps k lane).
Proof. unfold readCoordinationLaneRecords. nothrow_tac. Qed.

Lemma nothrow_collect family q records : forall active,
  nothrow (collectActiveRecords (S:=S) deps family q active records).
Proof. induction records as [|p records IH]; intros active; simpl; nothrow_tac. Qed.

Hint Resolve nothrow_readRecords nothrow_collect : nothrow.

Lemma nothrow_readActive k lane q : nothrow (readActiveEvmLeaseNonces (S:=S) deps k lane q).
Proof. unfold readActiveEvmLeaseNonces. nothrow_tac. Qed.

Lemma nothrow_remove lease : nothrow (removeCoordinationLease (S:=S) deps lease).
Proof. unfold removeCoordinationLease. nothrow_tac. Qed.

Lemma nothrow_persistReserved lease lane n e :
  body lease = EvmBody lane n -> nothrow (persistCoordinationLease (S:=S) deps lease DurableReserved e).
Proof.
  intros Hb. unfold persistCoordinationLease, persistCoordinationRecord. rewrite Hb. simpl.
  nothrow_tac.
Qed.

Lemma nothrow_registerEvm lease lane n :
  body lease = EvmBody lane n -> nothrow (registerLease (S:=S) deps lease).
Proof.
  intros Hb. unfold registerLease. apply nothrow_bind; [auto with nothrow|]. intros _.
  apply nothrow_bind; [by eapply nothrow_persistReserved|auto with nothrow].
Qed.
End Quiet.

#[export] Hint Resolve nothrow_ask nothrow_emit nothrow_now nothrow_degraded nothrow_readRecords
  nothrow_collect nothrow_readActive nothrow_remove : nothrow.

(** ** The nonces in use *)

Definition unfiltered : ActiveQuery := mkActiveQuery None None.

(** A lease holds nonce [n] of the lane with key [laneKey]. *)
Definition holds (laneKey : string) (n : Z) (l : NonceLease) : Prop :=
  (exists lane, body l = EvmBody lane n /\ nonceLaneKey (EvmLane lane) = laneKey) /\
  isActiveEvmLeaseState (state l) = true.

Lemma activeEvmNonces_mono laneKey q ls : forall active x,
  x ∈ active -> x ∈ activeEvmNonces laneKey q active ls.
Proof.
  induction ls as [|l ls IH]; intros active x Hx; simpl; [done|]. apply IH.
  destruct (body l); [|done]. case_match; [done|]. apply elem_sadd. by right.
Qed.

Lemma activeEvmNonces_holds laneKey ls l n : forall active,
  l ∈ ls -> holds laneKey n l -> Z_to_string n ∈ activeEvmNonces laneKey unfiltered active ls.
Proof.
  induction ls as [|l' ls IH]; intros active; simpl; [by intros ?%not_elem_of_nil|].
  intros [<-|Hin]%elem_of_cons Hh; [|by apply IH].
  destruct Hh as [(lane & -> & <-) Ha]. rewrite Ha, bool_decide_true by done. simpl.
  apply activeEvmNonces_mono, elem_sadd. by left.
Qed.

Section Reserve.
Context {S : Type} `{!CoordinationStore S} (deps : Deps).

Lemma wp_ask {A} (f : nat -> A) Q E (w : World S) : Q (f (tick w)) (next_tick w) -> wp (ask f) Q E w.
Proof. done. Qed.

(** Collecting durable records only adds nonces. *)
Lemma collect_mono family q records : forall active (w : World S),
  wp (collectActiveRecords deps family q active records)
    (fun a _ => forall x, x ∈ active -> x ∈ a) (fun _ _ => False) w.
Proof.
  induction records as [|p records IH]; intros active w; simpl; [by apply wp_ret|].
  destruct (_ || _); [apply IH|]. apply wp_bind. unfold wp at 1. simpl.
  destruct (negb _); [apply IH|]. destruct (match q_chainNextNonce q with Some _ => _ | None => _ end);
    [apply IH|].
  eapply wp_mono; [apply IH| |done]. intros a w' H x Hx. apply H, elem_sadd. by right.
Qed.

(** The nonces read as active contain those of this runtime's leases. *)
Lemma readActive_wp laneKey lane (w : World S) :
  wp (readActiveEvmLeaseNonces deps laneKey lane unfiltered)
    (fun a w' => same_local w w' /\
       forall id l n, (id, l) ∈ leases w -> holds laneKey n l -> Z_to_string n ∈ a)
    (fun _ _ => False) w.
Proof.
  pose proof (wp_nothrow same_local _ w (nothrow_readActive deps laneKey lane unfiltered)
    (frame_readActiveEvm deps same_local _ _ _)) as H1.
  assert (wp (readActiveEvmLeaseNonces deps laneKey lane unfiltered)
    (fun a _ => forall id l n, (id, l) ∈ leases w -> holds laneKey n l -> Z_to_string n ∈ a)
    (fun _ _ => False) w) as H2.
  { unfold readActiveEvmLeaseNonces. apply wp_bind, wp_gets, wp_bind.
    eapply wp_mono; [apply (wp_nothrow (fun _ _ => True)); auto with nothrow; done| |done].
    intros records w1 _. eapply wp_mono; [apply collect_mono| |done].
    intros a w2 Ha id l n Hin Hh. apply Ha. eapply activeEvmNonces_holds; [|done].
    apply elem_mvalues. eauto. }
  eapply wp_mono; [exact (wp_conj _ _ _ _ _ _ H1 H2)| |]; simpl; tauto.
Qed.

(** A new EVM lease is entered, and nothing else of the runtime changes. *)
Lemma registerEvm_wp lease lane n (w : World S) :
  body lease = EvmBody lane n ->
  wp (registerLease deps lease)
    (fun _ w' => leases w' = mset (leaseId lease) lease (leases w) /\
       evmStates w' = evmStates w /\ nearState w' = nearState w) (fun _ _ => False) w.
Proof.
  intros Hb. unfold registerLease. apply wp_bind, wp_modify, wp_bind.
  eapply wp_mono; [apply (wp_nothrow same_local)| |done].
  - by eapply nothrow_persistReserved.
  - apply (frame_persist deps same_local).
  - intros [] w1 H1. unfold wp. simpl. exact H1.
Qed.

(** What a reservation on [lane] leaves: a new lease [l] for nonce [n], which no
    lease held, which is at or above the chain's next nonce and not in flight. *)
Definition evm_reserved (w : World S) (lane : EvmNonceLane)
    (operation : PreparedNonceOperationContext) (n : Z) (l : NonceLease) (w' : World S) : Prop :=
  let laneKey := nonceLaneKey (EvmLane lane) in
  let s := rget (evmStateRef laneKey) w' in
  (body l = EvmBody lane n /\ state l = Reserved /\ operationId l = op_operationId operation /\
   operationFingerprint l = op_operationFingerprint operation /\
   expiresAtMs l = reservedAtMs l + leaseTtlMs deps) /\
  (exists w1, evolves w w1 /\ leases w' = mset (leaseId l) l (leases w1) /\
     (forall id l', (id, l') ∈ leases w1 -> ~ holds laneKey n l')) /\
  ((forall c, chainNonce s = Some c -> c <= n) /\
   mhas (Z_to_string n) (evmInFlight s) = false /\ nextCandidate s = Some (n + 1)) /\
  (idle w -> idle w').

(** The search: from the chain's nonce past every nonce in use. *)
Lemma search_spec (active : list string) (inFlight : list (string * EvmInFlightNonceRecord)) start :
  exists n, skip_taken (Datatypes.S (length active + length inFlight))
      (fun c => has_nonce active c || mhas (Z_to_string c) inFlight) start = Some n /\
    start <= n /\ ~ Z_to_string n ∈ active /\ mhas (Z_to_string n) inFlight = false.
Proof.
  set (taken := fun c => has_nonce active c || mhas (Z_to_string c) inFlight).
  destruct (skip_taken_total (active ++ inFlight.*1) taken
    (Datatypes.S (length active + length inFlight)) start) as (n & Hn).
  - intros x [Hx%has_nonce_spec|Hx]%orb_prop; [set_solver|]. unfold mhas in Hx.
    destruct (mget (Z_to_string x) inFlight) as [r|] eqn:E; [|done]. apply mget_elem in E.
    apply elem_of_app. right. apply list_elem_of_fmap. by exists (Z_to_string x, r).
  - rewrite length_app, length_map. lia.
  - exists n. split; [done|]. apply skip_taken_spec in Hn as (Hle & [Ht Hm]%orb_false_elim & _).
    split_and!; [done| |done]. rewrite <- has_nonce_spec. congruence.
Qed.

Lemma evolves_assign_next k v : steps (@evolves S) (assign (evmStateRef k) (set_nextCandidate v)).
Proof. steps_tac. Qed.

Lemma evolves_prepare lane : steps (@evolves S) (prepareEvmLane deps lane).
Proof.
  unfold prepareEvmLane. apply steps_bind; [apply _|apply evolves_expireLane|]. intros _. steps_tac.
Qed.

(** The second half takes a nonce outside the active ones it reads, or finds
    the lane blocked and changes nothing. *)
Lemma takeEvm_wp lane operation (w : World S) :
  let laneKey := nonceLaneKey (EvmLane lane) in
  let read := readActiveEvmLeaseNonces deps laneKey (Some lane) unfiltered in
  wp (takeEvmNonce deps lane operation)
    (fun l w' => exists n active w1, read (next_tick w) = (Ok active, w1) /\
       ~ Z_to_string n ∈ active /\ leases w' = mset (leaseId l) l (leases w) /\ evm_reserved w lane operation n l w')
    (fun e w' => same_local w w' /\ exists n age, e = createEvmNonceLaneBlockedError lane n age) w.
Proof.
  intros laneKey read. unfold takeEvmNonce. fold laneKey.
  apply wp_bind, wp_deref. set (s := rget (evmStateRef laneKey) w). apply wp_bind, wp_ask.
  destruct (readBlockedEvmInFlight s _ _) as [[blockedNonce ageMs]|]; [apply wp_throw; split; [done|by eauto]|].
  change (mkActiveQuery None None) with unfiltered.
  pose proof (readActive_wp laneKey (Some lane) (next_tick w)) as Hread. fold read in Hread |- *.
  apply wp_bind. unfold wp in Hread. unfold wp at 1.
  destruct (read (next_tick w)) as [[active|e] w6] eqn:Er; [|done].
  destruct Hread as [(Hl6 & He6 & Hn6) Hactive]. apply wp_bind, wp_deref.
  set (s6 := rget (evmStateRef laneKey) w6).
  assert (s6 = s) as Hs by (unfold s6; simpl; by rewrite He6).
  edestruct (search_spec active (evmInFlight s6)) as (n & Hn & Hstart & Hfree & Hinfl).
  rewrite Hn. apply wp_bind, wp_lift_ok.
  apply wp_bind, wp_assign, wp_bind, wp_ask, wp_bind, wp_ask, wp_bind.
  set (l := mkLease _ _ _ _ _ _ _ _ _). set (w8 := next_tick _).
  assert (evolves w w8) as H8.
  { transitivity w6; [by apply quiet_same|].
    etransitivity; [apply (evolves_assign_next laneKey (Some (n + 1)))|by apply quiet_same]. }
  eapply wp_mono; [by apply (registerEvm_wp l lane n w8)| |done].
  intros [] w9 (Hl9 & He9 & Hn9). apply wp_ret. exists n, active, w6. split; [done|split; [done|]].
  split; [by rewrite Hl9; simpl; rewrite Hl6|].
  split; [done|]. split; [exists w8; split; [done|split; [done|]]|].
  - intros id l' Hin Hh. apply Hfree. eapply Hactive; [|exact Hh].
    by rewrite <- Hl6.
  - fold laneKey. assert (rget (evmStateRef laneKey) w9 = set_nextCandidate (Some (n + 1)) s6) as ->.
    { simpl. rewrite He9. simpl. by rewrite mget_mset_eq. }
    split; [split; [|done]; simpl; rewrite Hs; intros c Hc; by rewrite Hc in Hstart|].
    intros [Hi Hni]%H8. split; [intros k; unfold idle_evm; simpl; rewrite He9; apply Hi|by rewrite Hn9].
Qed.

Lemma evm_reserved_after w0 w lane operation n l w' :
  evolves w0 w -> evm_reserved w lane operation n l w' -> evm_reserved w0 lane operation n l w'.
Proof.
  intros H (H1 & (w1 & He & Hrest) & H3 & Hi). split; [done|].
  split; [exists w1; split; [by transitivity w|done]|]. split; [done|]. intros ?. by apply Hi, H.
Qed.

Lemma reserveEvm_wp lane operation (w : World S) :
  wp (reserveEvmNonceLeaseUnlocked deps lane operation)
    (fun l w' => exists n, evm_reserved w lane operation n l w') (fun _ w' => evolves w w') w.
Proof.
  apply (wp_bind_steps evolves _ _ _ _ w); [apply evolves_prepare|done| |done].
  intros _ w1 H1. eapply wp_mono; [apply takeEvm_wp|..]; simpl.
  - intros l w' (n & _ & _ & _ & _ & _ & H). exists n. by eapply evm_reserved_after.
  - intros e w' [(? & ? & ?) _]. transitivity w1; [done|by apply quiet_same].
Qed.
End Reserve.
