(* ===== verification/CoordinatorReachable.v ===== *)
(** * The worlds a coordinator reaches

    The operations of a coordinator as a step relation, and what holds after
    any sequence of them: the lease table is well formed, no two active EVM
    leases of a lane hold the same nonce, and no lane is left waiting. *)

From S2P Require Import Prelude JsValues ChainTarget NonceTypes LeaseStateMachine NonceLaneKeys NonceRecords NonceStore EvmNonceLane NearNonceLane NonceDiagnostics NonceCoordinator CoordinatorFrame CoordinatorInvariants CoordinatorReserve.
Local Open Scope Z_scope.
Local Open Scope js_scope.

(** ** The invariant *)

Record lease_inv {S} (w : World S) : Prop := mkLeaseInv {
  inv_wf : mwf (leases w);
  inv_key id l : (id, l) ∈ leases w -> leaseId l = id;
  inv_unique laneKey n id1 l1 id2 l2 :
    (id1, l1) ∈ leases w -> (id2, l2) ∈ leases w ->
    holds laneKey n l1 -> holds laneKey n l2 -> id1 = id2;
}.

Lemma initial_inv {S} (s : S) : lease_inv (initialWorld s).
Proof.
  split; simpl; [constructor|by intros ???%not_elem_of_nil|by intros ?????? ?%not_elem_of_nil].
Qed.

Lemma holds_evolves laneKey n l l' : lease_evolves l l' -> holds laneKey n l' -> holds laneKey n l.
Proof.
  intros He [Hb Ha]. split; [|by eapply lease_evolves_active].
  by destruct He as (_ & _ & _ & <- & _).
Qed.

Lemma evolves_inv {S} (w w' : World S) : evolves w w' -> lease_inv w -> lease_inv w'.
Proof.
  intros (Hwf & Hev & _) [Hm Hk Hu]. split.
  - auto.
  - intros id l' (l & Hl & He & _)%Hev. rewrite He. by apply Hk.
  - intros laneKey n id1 l1 id2 l2 (l1' & Hl1 & He1)%Hev (l2' & Hl2 & He2)%Hev Hh1 Hh2.
    eapply Hu; eauto using holds_evolves.
Qed.

(** Entering a lease whose nonce no other lease of its lane holds. *)
Lemma inv_enter {S} (w w' : World S) l :
  lease_inv w -> leases w' = mset (leaseId l) l (leases w) ->
  (forall laneKey n id l', holds laneKey n l -> (id, l') ∈ leases w -> id <> leaseId l ->
     ~ holds laneKey n l') ->
  lease_inv w'.
Proof.
  intros [Hm Hk Hu] Hw' Hfree. split; rewrite Hw'.
  - by apply mset_wf.
  - intros id l' [[= -> ->]|Hin]%elem_mset; [done|by apply Hk].
  - intros laneKey n id1 l1 id2 l2 [[-> ->]|[Hne1 H1]]%elem_mset_ne [[-> ->]|[Hne2 H2]]%elem_mset_ne
      Hh1 Hh2; try done; [by edestruct Hfree|by edestruct Hfree|by eapply Hu].
Qed.

Lemma near_holds_nothing laneKey n l lane nonce : body l = NearBody lane nonce -> ~ holds laneKey n l.
Proof. intros Hb [(lane' & Hb' & _) _]. congruence. Qed.

(** A step that keeps the invariant. *)
Definition inv_step {S} (w w' : World S) : Prop :=
  (lease_inv w -> lease_inv w') /\ (idle w -> idle w').

Lemma evolves_inv_step {S} (w w' : World S) : evolves w w' -> inv_step w w'.
Proof. intros H. split; [by apply evolves_inv|apply H]. Qed.

#[export] Instance inv_step_relation {S} : LeaseRelation (@inv_step S).
Proof.
  split; [split|].
  - by intros w.
  - intros w1 w2 w3 [??] [??]. split; auto.
  - intros w w' H. apply evolves_inv_step. by apply lease_relation_frame.
Qed.

Lemma steps_weaken {W A} (R R' : W -> W -> Prop) (m : M W A) :
  (forall w w', R w w' -> R' w w') -> steps R m -> steps R' m.
Proof. intros H Hm w. apply H, Hm. Qed.

Lemma inv_of_evolves {S A} (m : M (World S) A) : steps evolves m -> steps inv_step m.
Proof. apply steps_weaken, evolves_inv_step. Qed.

(** ** The reservations keep it *)

Section ReserveInv.
Context {S : Type} `{!CoordinationStore S} (deps : Deps).

Lemma inv_reserveEvm lane operation : steps (@inv_step S) (reserveEvmNonceLeaseUnlocked deps lane operation).
Proof.
  intros w. pose proof (reserveEvm_wp deps lane operation w) as H. unfold wp in H.
  destruct (reserveEvmNonceLeaseUnlocked deps lane operation w) as [[l|e] w'];
    [|by apply evolves_inv_step].
  destruct H as (n & (Hb & _) & (w1 & He & Hl & Hfree) & _ & Hi). split; [|done].
  intros Hinv%(evolves_inv _ _ He). eapply inv_enter; [done|done|].
  intros laneKey n' id l' [(lane' & Hb' & <-) _] Hin _. rewrite Hb in Hb'.
  injection Hb' as <- <-. by eapply Hfree.
Qed.

Lemma inv_enterNear l lane nonce :
  body l = NearBody lane nonce ->
  steps (@inv_step S) (modify (fun w => set_leases (mset (leaseId l) l (leases w)) w)).
Proof.
  intros Hb. apply steps_modify. intros w. split; [|done].
  intros Hinv. eapply inv_enter; [done..|]. intros laneKey n id l' Hh. by eapply near_holds_nothing in Hh.
Qed.

Lemma inv_registerNear l lane nonce :
  body l = NearBody lane nonce -> steps (@inv_step S) (registerLease deps l).
Proof. intros Hb. unfold registerLease. steps_tac. by eapply inv_enterNear. Qed.

Hint Resolve inv_reserveEvm inv_registerNear : steps.
Hint Resolve inv_of_evolves evolves_expireLane : steps.

(** Every lease of a batch is a NEAR lease. *)
Lemma buildNear_bodies lane operation at_ms b nonces : forall i (w : World S),
  wp (buildNearLeases deps lane operation at_ms b i nonces)
    (fun ls _ => forall l, l ∈ ls -> exists nonce, body l = NearBody lane nonce) (fun _ _ => True) w.
Proof.
  induction nonces as [|n nonces IH]; intros i w; simpl.
  - apply wp_ret. by intros l ?%not_elem_of_nil.
  - apply wp_bind, wp_ask, wp_bind. eapply wp_mono; [apply IH| |done]. intros ls w' H.
    apply wp_ret. intros l [->|Hl]%elem_of_cons; eauto.
Qed.

Lemma steps_bind_wp {A B} (R : World S -> World S -> Prop) `{!PreOrder R} (P : A -> Prop)
    (m : M (World S) A) (k : A -> M (World S) B) :
  steps R m -> (forall w, wp m (fun a _ => P a) (fun _ _ => True) w) ->
  (forall a, P a -> steps R (k a)) -> steps R (bind m k).
Proof.
  intros Hm Hp Hk w. specialize (Hm w). specialize (Hp w). unfold wp, bind in *.
  destruct (m w) as [[a|e] w']; [|done]. etransitivity; [exact Hm|by apply Hk].
Qed.

Lemma inv_reserveNearBatch lane operation count :
  steps (@inv_step S) (reserveNearNonceBatchUnlocked deps lane operation count).
Proof.
  unfold reserveNearNonceBatchUnlocked. apply steps_bind; [apply _|steps_tac|]. intros _. cbv zeta.
  apply steps_bind; [apply _|steps_tac|]. intros nonces. destruct (negb _); [steps_tac|].
  do 2 (apply steps_bind; [apply _|steps_tac|intros ?]).
  eapply steps_bind_wp; [apply _|steps_tac|apply buildNear_bodies|].
  intros ls Hls. apply steps_bind; [apply _| |steps_tac].
  apply steps_forM; [apply _|]. intros l (nonce & Hb)%Hls. by eapply inv_registerNear.
Qed.

Hint Resolve inv_reserveNearBatch : steps.

Lemma inv_reserve lane operation : steps (@inv_step S) (reserve deps lane operation).
Proof. unfold reserve. op_steps. Qed.

Lemma inv_reserveBatch lane operation count : steps (@inv_step S) (reserveBatch deps lane operation count).
Proof. unfold reserveBatch. steps_tac. Qed.

Lemma inv_reserveNearContext lane operation count fetch force :
  (forall m, fetch = Some m -> steps (@inv_step S) m) ->
  steps inv_step (reserveNearContext deps lane operation count fetch force).
Proof. intros Hf. unfold reserveNearContext, initializeNearLane. op_steps. Qed.

Lemma inv_reserveReplacement lane operation nonce :
  steps (@inv_step S) (reserveNearReplacementContext deps lane operation nonce).
Proof.
  unfold reserveNearReplacementContext, initializeNearLane. apply frame_lock; [apply _|].
  steps_tac. by eapply inv_enterNear.
Qed.
End ReserveInv.

(** ** The step relation *)

(** A call of a coordinator operation, with its arguments; [PrefetchTimer] is the
    timer's callback.  A caller's own way to fetch a NEAR context is a request
    to the outside world. *)
Inductive Op : Type :=
| OpReserve (lane : NonceLane) (operation : PreparedNonceOperationContext)
| OpReserveBatch (lane : NearNonceLane) (operation : PreparedNonceOperationContext) (count : Z)
| OpReserveNearContext (lane : NearNonceLane) (operation : PreparedNonceOperationContext) (count : Z)
    (fetchContext : option (nat -> Result TransactionContext)) (force : bool)
| OpReserveNearReplacement (lane : NearNonceLane) (operation : PreparedNonceOperationContext)
    (nonce : string)
| OpFetchNearContext (lane : NearNonceLane) (force : bool)
| OpPrefetchNearContext (subject : option NearAccessKeySubject)
| PrefetchTimer
| OpClearNearAccessKey
| OpMarkSigned (input : NonceLeaseOperationInput) (signedTxHash : string)
| OpMarkBroadcastAccepted (input : NonceLeaseOperationInput) (txHash : string)
| OpMarkBroadcastRejected (input : NonceLeaseOperationInput) (error : string)
| OpMarkFinalized (input : NonceLeaseOperationInput) (txHash : string)
| OpMarkDroppedOrReplaced (input : NonceLeaseOperationInput) (reason : EvmNonceOutcomeReason)
    (txHash : string)
| OpRelease (input : NonceLeaseOperationInput) (reason : NonceLeaseReleaseReason)
| OpExpireLeases (walletId : option string)
| OpRecoverDurableLeases (walletId : option string)
| OpReconcile (lane : NonceLane)
| OpClearForWallet (walletId : string)
| OpClearAll
| OpGetDiagnostics (accountId : option string) (emitMetrics : bool).

Section Reachable.
Context {S : Type} `{!CoordinationStore S} (deps : Deps).

Definition discard {A} (m : M (World S) A) : M (World S) unit := m ;; ret tt.

Definition run_op (op : Op) : M (World S) unit :=
  match op with
  | OpReserve lane operation => discard (reserve deps lane operation)
  | OpReserveBatch lane operation count => discard (reserveBatch deps lane operation count)
  | OpReserveNearContext lane operation count fetchContext force =>
      discard (reserveNearContext deps lane operation count (call <$> fetchContext) force)
  | OpReserveNearReplacement lane operation nonce =>
      discard (reserveNearReplacementContext deps lane operation nonce)
  | OpFetchNearContext lane force => discard (fetchNearContext deps lane force)
  | OpPrefetchNearContext subject => prefetchNearContext deps subject
  | PrefetchTimer => prefetchTimerFires deps
  | OpClearNearAccessKey => clearNearAccessKey
  | OpMarkSigned input h => markSigned deps input h
  | OpMarkBroadcastAccepted input h => markBroadcastAccepted deps input h
  | OpMarkBroadcastRejected input e => markBroadcastRejected deps input e
  | OpMarkFinalized input h => markFinalized deps input h
  | OpMarkDroppedOrReplaced input reason h => markDroppedOrReplaced deps input reason h
  | OpRelease input reason => release deps input reason
  | OpExpireLeases walletId => discard (expireLeases deps walletId)
  | OpRecoverDurableLeases walletId => recoverDurableLeases deps walletId
  | OpReconcile lane => discard (reconcile deps lane)
  | OpClearForWallet walletId => clearForWallet deps walletId
  | OpClearAll => clearAll deps
  | OpGetDiagnostics accountId emitMetrics => discard (getDiagnostics deps accountId emitMetrics)
  end.

(** A world reached by a sequence of calls, whether they returned or threw.
    Between two calls the store may change: another runtime writes to it. *)
Inductive reachable : World S -> Prop :=
| reachable_start s : reachable (initialWorld s)
| reachable_op w op : reachable w -> reachable (run_op op w).2
| reachable_store w s : reachable w -> reachable (set_store s w).

Lemma inv_discard {A} (m : M (World S) A) : steps inv_step m -> steps inv_step (discard m).
Proof. intros H. unfold discard. steps_tac. Qed.

Hint Resolve inv_of_evolves inv_discard evolves_expireWallet evolves_recover evolves_markSigned
  evolves_markAccepted evolves_markRejected evolves_markFinalized evolves_markDropped
  evolves_release evolves_reconcile evolves_fetchNear evolves_prefetch evolves_prefetchTimer
  evolves_clearNear evolves_clearWallet evolves_clearAll evolves_diagnostics
  inv_reserve inv_reserveBatch inv_reserveReplacement : steps.

Lemma inv_run_op op : steps inv_step (run_op op).
Proof.
  destruct op; simpl; auto 3 with steps.
  apply inv_discard, inv_reserveNearContext. intros m (f & _ & ->)%fmap_Some.
  by apply (frame_call inv_step).
Qed.

(** C1. After any sequence of operations, by whichever caller and whatever the
    chain, the clock and the store answered: the leases are filed under their
    own identifiers, no two active EVM leases of a lane hold the same nonce,
    and no lane waits for a request that has ended. *)
Theorem reachable_inv w : reachable w -> lease_inv w /\ idle w.
Proof.
  induction 1 as [s|w op _ [IH1 IH2]|w s _ [IH1 IH2]].
  - split; [apply initial_inv|by split].
  - destruct (inv_run_op op w) as [H1 H2]. auto.
  - by split; [destruct IH1|].
Qed.
End Reachable.

Lemma reachable_inv_witness :
  let deps := example_deps "runtime-1" "r1" 1000 in
  let w := (run_op deps (OpReserve (EvmLane example_lane) example_operation)
              (initialWorld ([] : LeaseTable))).2 in
  leases w = [(leaseId example_lease, example_lease)] /\ lease_inv w /\ idle w.
Proof.
  intros deps w. split; [vm_compute; reflexivity|].
  apply (reachable_inv deps w). apply reachable_op, reachable_start.
Defined.

(** ** A reservation *)

(** Everything but the reports: events, metrics, degradations and readings. *)
Definition untouched {S} (w w' : World S) : Prop :=
  leases w' = leases w /\ evmStates w' = evmStates w /\ nearState w' = nearState w /\
  evmAccountLaneKeys w' = evmAccountLaneKeys w /\
  droppedReplacedAlerts w' = droppedReplacedAlerts w /\ store w' = store w.

#[export] Instance untouched_preorder {S} : PreOrder (@untouched S).
Proof.
  split; [done|]. intros w1 w2 w3 (? & ? & ? & ? & ? & ?) (? & ? & ? & ? & ? & ?).
  split_and!; congruence.
Qed.

Lemma untouched_degraded {S} reason input :
  steps (@untouched S) (emitCoordinationDegradedOnce reason input).
Proof.
  intros w. unfold emitCoordinationDegradedOnce, bind, gets. simpl.
  by destruct (recordCoordinationDegradationOnce _ _ _) as [[d|] o].
Qed.

Lemma untouched_local {S} (R : World S -> World S -> Prop) `{!QuietRelation R} w w' :
  untouched w w' -> R w w'.
Proof. intros (? & ? & ? & _). by apply quiet_same. Qed.

Section ReserveSpec.
Context {S : Type} `{!CoordinationStore S} (deps : Deps).

(** A run under the lane lock: the lock itself only reports. *)
Lemma wp_lock {A} lane (m : M (World S) A) Q E w :
  (forall w0, untouched w w0 -> wp m Q E w0) ->
  (forall k w0 e, dep_lockError deps k = Some e -> untouched w w0 -> E e w0) ->
  wp (withLaneLock deps lane m) Q E w.
Proof.
  intros Hm Herr. unfold withLaneLock. destruct (dep_sameOriginLock deps); [by apply Hm|].
  assert (forall b : bool, wp ((when b do emitCoordinationDegradedOnce WebLocksUnavailable
                     (degradation_of_lane (Some lane))) ;; m) Q E w) as Hwhen.
  { intros b. apply wp_bind. eapply wp_mono; [apply (wp_nothrow untouched)| |done].
    - destruct b; auto with nothrow.
    - destruct b; [apply untouched_degraded|apply steps_ret, _].
    - intros [] w0 H0. by apply Hm. }
  destruct (dep_storeConfig deps) as [| |[]]; try by apply Hwhen.
  apply wp_bind, wp_ask. destruct (dep_lockError deps (tick w)) eqn:El; [|by apply Hm].
  apply wp_bind. eapply wp_mono; [apply (wp_nothrow untouched)| |done].
  - auto with nothrow.
  - apply untouched_degraded.
  - intros a w0 H0. apply wp_throw. by eapply Herr.
Qed.

(** What [reserve] promises on an EVM lane. *)
Definition reservation (lane : EvmNonceLane) (operation : PreparedNonceOperationContext)
    (l : NonceLease) (w' : World S) : Prop :=
  let laneKey := nonceLaneKey (EvmLane lane) in
  let s := rget (evmStateRef laneKey) w' in
  exists n, body l = EvmBody lane n /\ state l = Reserved /\
    operationId l = op_operationId operation /\
    operationFingerprint l = op_operationFingerprint operation /\
    expiresAtMs l = reservedAtMs l + leaseTtlMs deps /\
    mget (leaseId l) (leases w') = Some l /\
    (forall id l', (id, l') ∈ leases w' -> holds laneKey n l' -> id = leaseId l) /\
    (forall c, chainNonce s = Some c -> c <= n) /\
    mhas (Z_to_string n) (evmInFlight s) = false /\ nextCandidate s = Some (n + 1).

Lemma reserved_is_reservation w lane operation n l w' :
  lease_inv w -> evm_reserved deps w lane operation n l w' -> reservation lane operation l w'.
Proof.
  intros Hinv ((Hb & Hs & Ho & Hf & He) & (w1 & Hev & Hl & Hfree) & (Hc & Hi & Hn) & _).
  exists n. split_and!; try done.
  - rewrite Hl. apply mget_mset_eq.
  - intros id l' Hin Hh. rewrite Hl in Hin.
    apply elem_mset_ne in Hin as [[-> _]|[_ Hin]]; [done| |apply (evolves_inv _ _ Hev Hinv)].
    by eapply Hfree in Hh.
Qed.

Lemma reserve_evm_wp lane operation w :
  lease_inv w ->
  wp (reserve deps (EvmLane lane) operation)
    (fun l w' => lease_inv w' /\ reservation lane operation l w')
    (fun _ w' => evolves w w') w.
Proof.
  intros Hinv. apply wp_lock; [|intros k w0 e _; apply (untouched_local evolves)].
  intros w0 H0%(untouched_local evolves). pose proof (inv_reserveEvm deps lane operation w0) as [Hi _].
  pose proof (reserveEvm_wp deps lane operation w0) as H. unfold wp in *.
  destruct (reserveEvmNonceLeaseUnlocked deps lane operation w0) as [[l|e] w']; [|by etransitivity].
  assert (lease_inv w0) as Hinv0 by by eapply evolves_inv.
  split; [by apply Hi|]. destruct H as (n & H). by eapply reserved_is_reservation.
Qed.

End ReserveSpec.

Lemma example_world_inv : lease_inv example_world.
Proof.
  pose proof (inv_reserve (example_deps "runtime-1" "r1" 1000) (EvmLane example_lane) example_operation
    (initialWorld ([] : LeaseTable))) as [H _].
  rewrite example_reservation in H. apply H, initial_inv.
Qed.
