(* ===== verification/CoordinatorDurable.v ===== *)
(** * Runtimes that share a store

    A reservation writes a durable record of its lease, and a reservation of
    another runtime on the same lane keeps clear of it for as long as the record
    is live.  The proofs use the store only through the laws of
    [CoordinationStore]. *)

From S2P Require Import Prelude JsValues ChainTarget NonceTypes LeaseStateMachine NonceLaneKeys NonceRecords NonceStore EvmNonceLane NearNonceLane NonceDiagnostics NonceCoordinator CoordinatorFrame CoordinatorInvariants CoordinatorReserve.
Local Open Scope Z_scope.
Local Open Scope js_scope.

(** ** Identifiers of the stored form *)

Lemma stored_first a s :
  is_js_space a = false -> trim_end (String a s) = String a s -> stored_string (String a s).
Proof. intros Ha Ht. split; [|done]. unfold trim. simpl trim_start. by rewrite Ha. Qed.

Lemma stored_trim_end s : stored_string s -> trim_end s = s.
Proof. intros [Ht _]. rewrite <- Ht at 1. unfold trim. rewrite trim_end_idem. exact Ht. Qed.

(** The last part of a key decides how the key ends. *)
Lemma encodeNonceKeyPart_end p : p = EmptyString \/ trim_end p = p -> trim_end (encodeNonceKeyPart p) = encodeNonceKeyPart p.
Proof.
  unfold encodeNonceKeyPart. intros [->|Hp]; [apply trim_end_app; done|].
  destruct p as [|a p]; [apply trim_end_app; done|].
  rewrite <- append_assoc. by apply trim_end_app.
Qed.

Lemma encodeNonceKeyParts_end ps p :
  p = EmptyString \/ trim_end p = p ->
  trim_end (encodeNonceKeyParts (ps ++ [p])) = encodeNonceKeyParts (ps ++ [p]) /\
  nonempty (encodeNonceKeyParts (ps ++ [p])) = true.
Proof.
  intros Hp. induction ps as [|q ps [IHt IHn]].
  - simpl app. split; [by apply encodeNonceKeyPart_end|apply encodeNonceKeyParts_nonempty].
  - split; [|apply encodeNonceKeyParts_nonempty]. simpl app. rewrite encodeNonceKeyParts_cons.
    assert (encoded_rest (ps ++ [p]) = "|" +:+ encodeNonceKeyParts (ps ++ [p])) as -> by by destruct ps.
    rewrite <- append_assoc. by apply trim_end_app.
Qed.

Lemma stored_laneKey lane : stored_string (nonceLaneKey (EvmLane lane)).
Proof.
  simpl. set (last := match evm_nonceKey lane with Some k => Z_to_string k | None => EmptyString end).
  destruct (encodeNonceKeyParts_end ["evm"; thresholdEcdsaChainTargetKey (evm_chainTarget lane);
    evm_subjectId lane; to_lower (evm_sender lane)] last) as [Ht Hn].
  { unfold last. destruct (evm_nonceKey lane); [right|by left].
    apply stored_trim_end. split; auto with js. }
  cbn [app] in Ht. rewrite encodeNonceKeyParts_cons in *. by apply (stored_first "3").
Qed.

Lemma stored_leaseId operationId chain nonce randomId :
  stored_string randomId -> stored_string (createNonceLeaseId operationId chain nonce randomId).
Proof.
  intros Hr%stored_trim_end. unfold createNonceLeaseId.
  destruct (encodeNonceKeyParts_end [chain; operationId; nonce] randomId) as [Ht Hn]; [by right|].
  apply (stored_first "n"); [done|]. by apply (trim_end_app "nonce-lease-v1:").
Qed.

Lemma stored_networkKey t : stored_string (thresholdEcdsaChainTargetKey t).
Proof.
  pose proof trim_Z_to_string as Hz. pose proof Z_to_string_nonempty as Hn.
  assert (forall z, trim_end (Z_to_string z) = Z_to_string z) as Ht
    by (intros z; apply stored_trim_end; by split).
  destruct t as [c slug|c slug]; simpl.
  - apply (stored_first "e"); [done|]. by apply (trim_end_app "evm:eip155:").
  - apply (stored_first "t"); [done|]. by apply (trim_end_app "tempo:").
Qed.

(** ** Keeping a record *)

(** The store works, and its clock readings are numbers it can compare. *)
Record store_works (deps : Deps) : Prop := mkStoreWorks {
  works_present : hasStore deps = true;
  works_calls n : dep_storeFails deps n = false;
  works_clock n : is_safe_integer (dep_now deps n) = true;
}.

(** The record is live whenever the runtime looks at its clock. *)
Definition live_for (deps : Deps) (r : NonceLaneCoordinationRecord) : Prop :=
  is_broadcast_accepted r = true \/ forall n, dep_now deps n < rec_expiresAtMs r.

Lemma live_active deps r n : live_for deps r -> isActiveCoordinationLeaseRecord r (dep_now deps n) = true.
Proof.
  unfold live_for, is_broadcast_accepted, isActiveCoordinationLeaseRecord. intros [H|H];
    destruct (rec_lifecycle r); try done; by apply Z.ltb_lt.
Qed.

Lemma live_not_pruned deps r n : live_for deps r -> pruned_at (dep_now deps n) r = false.
Proof.
  unfold live_for, pruned_at. intros [->|H]; [by rewrite andb_false_r|].
  specialize (H n). by replace (rec_expiresAtMs r <=? dep_now deps n) with false by lia.
Qed.

(** The store is in order, this runtime's lease identifiers are of the stored
    form, and [r], if given, is in the store and not one of this runtime's. *)
Definition present {S} `{!CoordinationStore S} (r : option NonceLaneCoordinationRecord) (w : World S)
    : Prop :=
  store_ok (store w) /\
  (forall id l, (id, l) ∈ leases w ->
     leaseId l = id /\ stored_string id /\ forall r0, r = Some r0 -> id <> rec_leaseId r0) /\
  (forall r0, r = Some r0 -> (rec_leaseId r0, r0) ∈ view (store w)).

Section Present.
Context {S : Type} `{!CoordinationStore S} (deps : Deps) (r : option NonceLaneCoordinationRecord).
Context (Hworks : store_works deps) (Hlive : forall r0, r = Some r0 -> live_for deps r0).

Definition keeps_present (w w' : World S) : Prop := present r w -> present r w'.

#[local] Instance keeps_present_preorder : PreOrder keeps_present.
Proof. split; [by intros w H|]. intros w1 w2 w3 H1 H2 H. by apply H2, H1. Qed.

Lemma present_same (w w' : World S) : leases w' = leases w -> store w' = store w -> keeps_present w w'.
Proof. intros Hl Hs. unfold keeps_present, present. by rewrite Hl, Hs. Qed.

Lemma present_modify f :
  (forall w : World S, leases (f w) = leases w) -> (forall w, store (f w) = store w) ->
  steps keeps_present (modify f).
Proof. intros. apply steps_modify. intros w. by apply present_same. Qed.

Lemma present_ask {A} (f : nat -> A) : steps keeps_present (ask f).
Proof. intros w. by apply present_same. Qed.

Lemma present_call {A} (f : nat -> Result A) : steps keeps_present (call f).
Proof. intros w. by apply present_same. Qed.

Lemma present_now : steps keeps_present (now deps).
Proof. apply present_ask. Qed.

Lemma present_assign_evm k f : steps keeps_present (assign (evmStateRef k) f).
Proof. by apply present_modify. Qed.

Lemma present_assign_near f : steps keeps_present (assign nearStateRef f).
Proof. by apply present_modify. Qed.

Lemma present_emit e : steps keeps_present (emit e).
Proof. by apply present_modify. Qed.

Lemma present_getOrCreate k : steps keeps_present (getOrCreateEvmState k).
Proof. by apply present_modify. Qed.

Lemma present_index lane k : steps keeps_present (indexEvmLaneByAccount lane k).
Proof. by apply present_modify. Qed.

Hint Resolve keeps_present_preorder : typeclass_instances.
Hint Resolve present_ask present_call present_now present_assign_evm present_assign_near
  present_emit present_getOrCreate present_index : steps.

Lemma present_degraded reason input : steps keeps_present (emitCoordinationDegradedOnce reason input).
Proof. unfold emitCoordinationDegradedOnce. steps_tac. Qed.

Lemma present_storeRead {A} (f : S -> Result A) : steps keeps_present (storeRead deps f).
Proof. unfold storeRead. steps_tac. Qed.

Hint Resolve present_degraded present_storeRead : steps.

(** A write that keeps the store in order and keeps [r]. *)
Lemma present_storeWrite f :
  (forall w : World S, present r w ->
     store_ok (f (store w)) /\ forall r0, r = Some r0 -> (rec_leaseId r0, r0) ∈ view (f (store w))) ->
  steps keeps_present (storeWrite deps (fun s => Ok (f s))).
Proof.
  intros Hf. unfold storeWrite. steps_tac. intros w Hw. destruct (Hf w Hw) as [H1 H2].
  destruct Hw as (_ & Hl & _). by split_and!.
Qed.

Lemma present_prune n :
  steps keeps_present (storeWrite deps (fun s => Ok (store_pruneExpired (dep_now deps n) s))).
Proof.
  apply present_storeWrite. intros w (Hok & _ & Hr).
  destruct (pruneExpired_law (store w) (dep_now deps n) Hok (works_clock _ Hworks n)) as [H1 H2].
  split; [done|]. intros r0 E. rewrite H2, elem_drop_if.
  split; [by apply live_not_pruned, Hlive|by apply Hr].
Qed.

Lemma present_remove_id id :
  stored_string id -> (forall r0, r = Some r0 -> id <> rec_leaseId r0) ->
  steps keeps_present (storeWrite deps (fun s => Ok (store_remove id s))).
Proof.
  intros Hid Hne. apply present_storeWrite. intros w (Hok & _ & Hr).
  destruct (remove_law (store w) id Hok Hid) as [H1 H2]. split; [done|]. intros r0 E.
  rewrite H2, elem_mdel. split; [|by apply Hr]. intros H. by apply (Hne r0).
Qed.

(** The lease is one this runtime may let go of. *)
Definition own (l : NonceLease) : Prop :=
  stored_string (leaseId l) /\ forall r0, r = Some r0 -> leaseId l <> rec_leaseId r0.

Lemma present_remove l : own l -> steps keeps_present (removeCoordinationLease deps l).
Proof.
  intros [Hid Hne]. unfold removeCoordinationLease. case_match; [|steps_tac].
  apply steps_try; [apply _|by apply present_remove_id|steps_tac].
Qed.

Lemma steps_now {A} (k : Z -> C A) :
  (forall n, steps keeps_present (k (dep_now deps n))) -> steps keeps_present (x <- now deps ;; k x).
Proof. intros Hk w. unfold bind. simpl. etransitivity; [by apply (present_same w (next_tick w))|apply Hk]. Qed.

Lemma present_readRecords k lane : steps keeps_present (readCoordinationLaneRecords deps k lane).
Proof.
  unfold readCoordinationLaneRecords. case_match; [|steps_tac]. apply steps_now. intros n.
  apply steps_bind; [apply _| |steps_tac]. apply steps_try; [apply _|apply present_prune|steps_tac].
Qed.

Hint Resolve present_readRecords : steps.

Lemma present_collect family q records : forall active,
  steps keeps_present (collectActiveRecords deps family q active records).
Proof. induction records as [|p records IH]; intros active; simpl; steps_tac. Qed.

Hint Resolve present_collect : steps.

Lemma present_readActive k lane q : steps keeps_present (readActiveEvmLeaseNonces deps k lane q).
Proof. unfold readActiveEvmLeaseNonces. steps_tac. Qed.

Hint Resolve present_readActive : steps.

Lemma present_refresh lane : steps keeps_present (refreshEvmLaneFromChainLocked deps lane).
Proof.
  unfold refreshEvmLaneFromChainLocked, EvmNonceLane.refreshEvmLaneFromChainLocked, refreshTask.
  steps_tac.
Qed.

Lemma present_shouldRefresh k lane : steps keeps_present (shouldRefreshEvmLaneLocked deps k lane).
Proof. unfold shouldRefreshEvmLaneLocked, shouldRefreshEvmLane. steps_tac. Qed.

Hint Resolve present_refresh present_shouldRefresh : steps.

Lemma present_release l : own l -> steps keeps_present (releaseBackendReservation deps l).
Proof.
  intros Hl. pose proof (present_remove l Hl).
  unfold releaseBackendReservation, releaseEvmNonceReservation, releaseEvmNonceReservationState.
  steps_tac.
Qed.

Lemma present_reconcile lane : steps keeps_present (reconcileEvmLaneLocked deps lane).
Proof. unfold reconcileEvmLaneLocked, reconcileEvmLaneState. steps_tac. Qed.

Hint Resolve present_reconcile : steps.

Lemma present_signedExpiry l : own l -> steps keeps_present (reconcileAfterSignedLeaseExpiry deps l).
Proof.
  intros Hl. pose proof (present_release l Hl).
  unfold reconcileAfterSignedLeaseExpiry, emitLaneReconciled. steps_tac.
Qed.

Lemma transition_store l t ev reason h e (w : World S) :
  store (transitionLease l t ev reason h e w).2 = store w.
Proof.
  unfold transitionLease, bind, gets, lift, modify.
  by destruct (reduceNonceLeaseState _ t).
Qed.

Lemma present_transition l t ev reason h e : steps keeps_present (transitionLease l t ev reason h e).
Proof.
  intros w (Hok & Hl & Hr). destruct (evolves_transition l t ev reason h e w) as (_ & Hev & _).
  unfold present. rewrite transition_store. split_and!; [done| |done].
  intros id l' (l0 & Hin & He & _)%Hev. rewrite He. by apply Hl.
Qed.

Hint Resolve present_transition : steps.

Lemma present_expireLocked l nowMs : own l -> steps keeps_present (expireLeaseLocked deps l nowMs).
Proof.
  intros Hl. pose proof (present_release l Hl). pose proof (present_signedExpiry l Hl).
  unfold expireLeaseLocked. steps_tac.
Qed.

Lemma steps_gets_bind {A B} (f : World S -> A) (k : A -> C B) :
  (forall w, present r w -> keeps_present w (k (f w) w).2) -> steps keeps_present (x <- gets f ;; k x).
Proof. intros H w Hw. by apply H. Qed.

Lemma present_own (w : World S) l : present r w -> l ∈ mvalues (leases w) -> own l.
Proof. intros (_ & Hl & _) (id & Hin)%elem_mvalues. destruct (Hl _ _ Hin) as (E & ? & ?). unfold own. by rewrite E. Qed.

Lemma present_live (w : World S) l : present r w -> own l -> own (live_lease l (leases w)).
Proof.
  intros Hw Hl. unfold live_lease. destruct (mget (leaseId l) (leases w)) as [l'|] eqn:E; [|done].
  apply (present_own w); [done|]. apply elem_mvalues. eauto using mget_elem.
Qed.

Lemma present_expireDue k nowMs snapshot :
  Forall own snapshot -> steps keeps_present (expireDueLeases deps k nowMs snapshot).
Proof.
  induction 1 as [|l snapshot Hl _ IH]; simpl; [steps_tac|]. case_match; [done|].
  apply steps_gets_bind. intros w Hw. revert w Hw.
  cut (forall current, own current -> steps keeps_present
    (expired <- expireLeaseLocked deps current nowMs ;;
     others <- expireDueLeases deps k nowMs snapshot ;;
     ret match expired with Some l => l :: others | None => others end)).
  { intros H' w Hw. by apply H', present_live. }
  intros current Hc. apply steps_bind; [apply _|by apply present_expireLocked|steps_tac].
Qed.

Lemma present_expireLane lane : steps keeps_present (expireDueLeasesForLockedLane deps lane).
Proof.
  unfold expireDueLeasesForLockedLane. apply steps_bind; [apply _|steps_tac|]. intros nowMs.
  apply steps_gets_bind. intros w Hw. apply present_expireDue, Forall_forall.
  intros l. by apply present_own.
Qed.

Hint Resolve present_expireLane : steps.

(** ** What a reservation reads *)

Lemma collect_finds r0 records : forall active (w : World S),
  r = Some r0 -> parsed_of r0 ∈ records ->
  (match rec_body r0 with EvmRecord _ _ _ _ => True | NearRecord _ _ _ => False end) ->
  wp (collectActiveRecords deps FEvm unfiltered active records)
    (fun a _ => Z_to_string (rec_nonce r0) ∈ a) (fun _ _ => False) w.
Proof.
  induction records as [|p records IH]; intros active w Hr Hin Hb; [by apply not_elem_of_nil in Hin|].
  apply elem_of_cons in Hin as [<-|Hin]; cbn [collectActiveRecords].
  - simpl parsed_record. destruct (rec_body r0); [|done]. simpl. apply wp_bind, wp_ask.
    rewrite live_active by auto. simpl.
    eapply wp_mono; [apply collect_mono| |done]. simpl. intros a w' H. apply H, elem_sadd. by left.
  - destruct (_ || _); [by apply IH|]. apply wp_bind, wp_ask. destruct (negb _); [by apply IH|].
    simpl. by apply IH.
Qed.

Lemma wp_storeWrite f (w : World S) (Q : unit -> World S -> Prop) E :
  Q tt (set_store (f (store w)) (next_tick w)) -> wp (storeWrite deps (fun s => Ok (f s))) Q E w.
Proof.
  intros HQ. unfold storeWrite. apply wp_bind, wp_ask. rewrite (works_calls _ Hworks). exact HQ.
Qed.

Lemma wp_storeRead {A} (f : S -> Result A) (w : World S) a (Q : A -> World S -> Prop) E :
  f (store w) = Ok a -> Q a (next_tick w) -> wp (storeRead deps f) Q E w.
Proof.
  intros Hf HQ. unfold storeRead. apply wp_bind, wp_ask. rewrite (works_calls _ Hworks).
  unfold wp. simpl. by rewrite Hf.
Qed.

Lemma readActive_finds r0 laneKey lane (w : World S) :
  r = Some r0 -> present r w -> rec_laneKey r0 = laneKey -> stored_string laneKey ->
  (match rec_body r0 with EvmRecord _ _ _ _ => True | NearRecord _ _ _ => False end) ->
  wp (readActiveEvmLeaseNonces deps laneKey lane unfiltered)
    (fun a _ => Z_to_string (rec_nonce r0) ∈ a) (fun _ _ => False) w.
Proof.
  intros Hr Hw Hk Hs Hb. unfold readActiveEvmLeaseNonces. apply wp_bind, wp_gets, wp_bind.
  unfold readCoordinationLaneRecords. rewrite (works_present _ Hworks). apply wp_bind, wp_ask.
  apply wp_bind, wp_try, wp_storeWrite. apply wp_try.
  assert (present r (set_store (store_pruneExpired (dep_now deps (tick w)) (store w)) w)) as Hp.
  { pose proof (present_prune (tick w) w Hw) as Hp. unfold storeWrite, bind in Hp. simpl in Hp.
    by rewrite (works_calls _ Hworks) in Hp. }
  destruct Hp as (Hok & _ & Hin).
  eapply wp_storeRead; [by apply readLane_law|]. apply collect_finds; [done| |done].
  apply list_elem_of_fmap. exists r0. split; [done|]. apply elem_select.
  split; [by apply bool_decide_true|eauto].
Qed.

Lemma present_prepare lane : steps keeps_present (prepareEvmLane deps lane).
Proof.
  unfold prepareEvmLane. apply steps_bind; [apply _|apply present_expireLane|]. intros _. steps_tac.
Qed.

Lemma steps_present_wp {A} (m : C A) (w : World S) :
  steps keeps_present m -> present r w ->
  wp m (fun _ w' => present r w') (fun _ _ => True) w.
Proof. intros H Hw. specialize (H w Hw). unfold wp. by destruct (m w) as [[a|e] w']. Qed.

Lemma reserve_avoids r0 lane operation (w : World S) :
  r = Some r0 -> present r w -> rec_laneKey r0 = nonceLaneKey (EvmLane lane) ->
  (match rec_body r0 with EvmRecord _ _ _ _ => True | NearRecord _ _ _ => False end) ->
  wp (reserveEvmNonceLeaseUnlocked deps lane operation)
    (fun l _ => exists n, body l = EvmBody lane n /\ n <> rec_nonce r0) (fun _ _ => True) w.
Proof.
  intros Hr Hw Hk Hb. apply wp_bind. eapply wp_mono; [by apply steps_present_wp, Hw; apply present_prepare| |done].
  intros [] w1 H1. eapply wp_mono; [apply takeEvm_wp| |done]. simpl.
  intros l w' (n & active & w2 & Hread & Hfree & _ & (Hl & _) & _). exists n. split; [done|].
  intros ->. apply Hfree.
  pose proof (readActive_finds r0 _ (Some lane) (next_tick w1) Hr H1 Hk (stored_laneKey lane) Hb) as Hf.
  unfold wp in Hf. simpl in Hf. by rewrite Hread in Hf.
Qed.

(** Taking the lane lock keeps the record. *)
Lemma lock_present {A} lane (m : C A) Q (w : World S) :
  present r w -> (forall w1, present r w1 -> wp m Q (fun _ _ => True) w1) ->
  wp (withLaneLock deps lane m) Q (fun _ _ => True) w.
Proof.
  intros Hw Hm. unfold withLaneLock. destruct (dep_sameOriginLock deps); [by apply Hm|].
  assert (forall k : C A, (forall w1, present r w1 -> wp k Q (fun _ _ => True) w1) ->
    forall b : bool, wp ((when b do emitCoordinationDegradedOnce WebLocksUnavailable
                     (degradation_of_lane (Some lane))) ;; k) Q (fun _ _ => True) w) as Hwhen.
  { intros k Hk b. apply wp_bind.
    eapply wp_mono; [apply steps_present_wp; [|done]|intros []; apply Hk|done]. steps_tac. }
  destruct (dep_storeConfig deps) as [| |[]]; try by apply Hwhen.
  apply wp_bind, wp_ask. destruct (dep_lockError deps (tick w)); [|by apply Hm].
  apply wp_bind. eapply wp_mono; [apply steps_present_wp; [|done]|done..]. steps_tac.
Qed.
End Present.

(** ** The record of a reservation *)

(** What a reservation is asked for, in the form the store keeps. *)
Record request_ok (deps : Deps) (lane : EvmNonceLane) (operation : PreparedNonceOperationContext)
    : Prop := mkRequestOk {
  req_lane : record_body_wf (EvmRecord (evm_chainTarget lane) (evm_subjectId lane) (evm_sender lane)
                               (evm_nonceKey lane));
  req_operation : stored_string (op_operationId operation);
  req_fingerprint : stored_string (op_operationFingerprint operation);
  req_runtime : stored_string (dep_runtimeId deps);
  req_random n : stored_string (dep_randomId deps n);
  req_ttl n : is_safe_integer (dep_now deps n + leaseTtlMs deps) = true;
}.

(** The durable record of a new lease. *)
Definition lease_record (deps : Deps) (l : NonceLease) (lane : EvmNonceLane) (n updatedAtMs : Z)
    : NonceLaneCoordinationRecord :=
  buildRecord l n DurableReserved
    (EvmRecord (evm_chainTarget lane) (evm_subjectId lane) (evm_sender lane) (evm_nonceKey lane))
    (expiresAtMs l) updatedAtMs (dep_runtimeId deps).

Section Record.
Context {S : Type} `{!CoordinationStore S} (deps : Deps) (Hworks : store_works deps).
Context (lane : EvmNonceLane) (operation : PreparedNonceOperationContext).
Context (Hreq : request_ok deps lane operation).

Definition new_lease (n : Z) (t1 t2 : nat) : NonceLease :=
  mkLease
    (createNonceLeaseId (op_operationId operation) (target_kind (evm_chainTarget lane))
       (Z_to_string n) (dep_randomId deps t2))
    (op_operationId operation) (op_operationFingerprint operation) (dep_now deps t1)
    (dep_now deps t1 + leaseTtlMs deps) None None Reserved (EvmBody lane n).

Lemma new_record_wf n t1 t2 t3 :
  0 <= n -> record_wf (lease_record deps (new_lease n t1 t2) lane n (dep_now deps t3)).
Proof.
  intros Hn. split; simpl; try done; try apply Hreq; try apply Hworks.
  - apply (stored_laneKey lane).
  - apply stored_leaseId, Hreq.
  - apply stored_networkKey.
Qed.

(** Entering the lease writes its record. *)
Lemma register_writes n t1 t2 (w : World S) :
  0 <= n -> store_ok (store w) ->
  let l := new_lease n t1 t2 in
  wp (registerLease deps l)
    (fun _ w' => store_ok (store w') /\ exists u,
       (leaseId l, lease_record deps l lane n u) ∈ view (store w')) (fun _ _ => False) w.
Proof.
  intros Hn Hok l. unfold registerLease. apply wp_bind, wp_modify, wp_bind.
  unfold persistCoordinationLease. rewrite (works_present _ Hworks). apply wp_bind, wp_ask. simpl.
  apply wp_bind, wp_lift_ok. unfold persistCoordinationRecord. apply wp_try.
  unfold storeWrite. apply wp_bind, wp_ask. rewrite (works_calls _ Hworks).
  change (buildRecord l n _ _ _ _ _) with (lease_record deps l lane n (dep_now deps (tick w))).
  destruct (upsert_law (store w) _ Hok (new_record_wf n t1 t2 (tick w) Hn)) as (s' & Hup & Hok' & Hv).
  unfold wp at 1. simpl store. fold l in Hup. rewrite Hup. unfold wp. simpl. split; [done|].
  exists (dep_now deps (tick w)). rewrite Hv. apply elem_mset_same.
Qed.

Lemma reserve_writes (w : World S) :
  present None w ->
  wp (reserveEvmNonceLeaseUnlocked deps lane operation)
    (fun l w' => forall n, body l = EvmBody lane n -> 0 <= n ->
       store_ok (store w') /\ exists u, (leaseId l, lease_record deps l lane n u) ∈ view (store w'))
    (fun _ _ => True) w.
Proof.
  assert (forall r0, None = Some r0 -> live_for deps r0) as Hlive by done.
  intros Hw. apply wp_bind.
  eapply wp_mono; [by apply (steps_present_wp None), Hw; apply present_prepare| |done].
  intros [] w1 H1. unfold takeEvmNonce. apply wp_bind, wp_deref, wp_bind, wp_ask.
  destruct (readBlockedEvmInFlight _ _ _) as [[]|]; [done|]. apply wp_bind.
  eapply wp_mono; [apply (steps_present_wp None); [by apply present_readActive|exact H1]| |done].
  intros active w2 H2. apply wp_bind, wp_deref, wp_bind, wp_lift; [|done]. intros n _.
  apply wp_bind, wp_assign, wp_bind, wp_ask, wp_bind, wp_ask, wp_bind.
  set (w3 := next_tick _). set (l := mkLease _ _ _ _ _ _ _ _ _).
  destruct (decide (0 <= n)) as [Hn|Hn].
  - eapply wp_mono; [apply (register_writes n); [done|apply H2]| |done].
    intros [] w4 H4. apply wp_ret. intros n' [= <-] _. exact H4.
  - eapply wp_mono; [apply (wp_nothrow (fun _ _ => True)); [by eapply nothrow_registerEvm|done]| |done].
    intros [] w4 _. apply wp_ret. by intros n' [= <-] ?.
Qed.
End Record.

(** ** Two runtimes *)

(** The leases of a runtime are filed under identifiers of the stored form. *)
Definition ids_stored {S} (w : World S) : Prop :=
  forall id l, (id, l) ∈ leases w -> leaseId l = id /\ stored_string id.

(** What others did to the store since: it is in order and still has what it kept of a
    lease. *)
Definition store_keeps {S} `{!CoordinationStore S} (id : string) (s s' : S) : Prop :=
  store_ok s' /\ forall r, (id, r) ∈ view s -> (id, r) ∈ view s'.

Lemma store_keeps_refl {S} `{!CoordinationStore S} id (s : S) : store_ok s -> store_keeps id s s.
Proof. by split. Qed.

(** What a reservation leaves in the store. *)
Lemma reserve_record {S} `{!CoordinationStore S} deps lane op (w w' : World S) l n :
  store_works deps -> request_ok deps lane op -> store_ok (store w) -> ids_stored w ->
  reserve deps (EvmLane lane) op w = (Ok l, w') -> body l = EvmBody lane n -> 0 <= n ->
  store_ok (store w') /\ exists u, (leaseId l, lease_record deps l lane n u) ∈ view (store w').
Proof.
  intros Hworks Hreq Hok Hids H Hb Hn.
  assert (forall r0, None = Some r0 -> live_for deps r0) as Hnone by done.
  assert (present None w) as Hp by by split_and!; [|intros ?? [??]%Hids|].
  pose proof (lock_present deps None (EvmLane lane) _ _ w Hp (reserve_writes deps Hworks lane op Hreq)) as Hr.
  unfold reserve in H. unfold wp in Hr. rewrite H in Hr. exact (Hr n Hb Hn).
Qed.


(** ** Example *)

Lemma example_works runtime random clock :
  is_safe_integer clock = true -> store_works (example_deps runtime random clock).
Proof. by split. Qed.

Lemma example_request_ok : request_ok (example_deps "runtime-1" "r1" 1000) example_lane example_operation.
Proof. split; simpl; repeat split; reflexivity. Qed.

(** A first runtime gets nonce 5 and a second one, a second later, gets nonce 6. *)
Definition second_lease : NonceLease :=
  mkLease (createNonceLeaseId "op-1" "evm" "6" "r2") "op-1" "fp-1" 2000 122000 None None Reserved
    (EvmBody example_lane 6).

Definition second_world : World LeaseTable :=
  Eval vm_compute in
    (reserve (example_deps "runtime-2" "r2" 2000) (EvmLane example_lane) example_operation
       (initialWorld (store example_world))).2.

Lemma second_reservation :
  reserve (example_deps "runtime-2" "r2" 2000) (EvmLane example_lane) example_operation
    (initialWorld (store example_world)) = (Ok second_lease, second_world).
Proof. vm_compute. reflexivity. Qed.

Lemma initial_ids {S} (s : S) : ids_stored (initialWorld s).
Proof. by intros ???%not_elem_of_nil. Qed.

Lemma example_store_ok : table_ok (store example_world).
Proof.
  exact (proj1 (reserve_record (example_deps "runtime-1" "r1" 1000) example_lane example_operation
    (initialWorld ([] : LeaseTable)) example_world example_lease 5 (example_works "runtime-1" "r1" 1000 eq_refl)
    example_request_ok table_empty_ok (initial_ids _) example_reservation eq_refl ltac:(discriminate))).
Qed.

