(* ===== verification/CoordinatorErrors.v ===== *)
(** * How a reservation fails

    Every error of an EVM reservation is a failure of the lock, a failed request
    to the chain or a blocked lane: the search for a nonce ends, no expiry or
    store fault escapes, and no caller waits for another. *)

From S2P Require Import Prelude JsValues ChainTarget NonceTypes LeaseStateMachine NonceLaneKeys NonceRecords NonceStore EvmNonceLane NearNonceLane NonceDiagnostics NonceCoordinator CoordinatorFrame CoordinatorInvariants CoordinatorReserve CoordinatorReachable.
Local Open Scope Z_scope.
Local Open Scope js_scope.

(** ** The active nonces are decimal *)

Definition decimal (x : string) : Prop := exists z, x = Z_to_string z.

Lemma highest_nonce_decimal l : forall h, Forall decimal l -> exists r, highest_nonce h l = Ok r.
Proof.
  induction l as [|x l IH]; intros h Hl; simpl; [eauto|].
  apply Forall_cons in Hl as [(z & ->) Hl]. rewrite BigInt_to_string. by apply IH.
Qed.

Lemma sadd_decimal z l : Forall decimal l -> Forall decimal (sadd (Z_to_string z) l).
Proof.
  rewrite !Forall_forall. intros H x [->|Hx]%elem_sadd; [by exists z|by apply H].
Qed.

Lemma activeEvm_decimal k q ls : forall active,
  Forall decimal active -> Forall decimal (activeEvmNonces k q active ls).
Proof.
  induction ls as [|l ls IH]; intros active Ha; simpl; [done|]. apply IH.
  destruct (body l); [|done]. case_match; [done|by apply sadd_decimal].
Qed.

(** ** Errors of the steps of a reservation *)

(** In a world in order, a call throws only errors of [P]. *)
Definition raises {S A} (P : Exn -> Prop) (m : M (World S) A) : Prop :=
  forall w, lease_inv w -> idle w -> match m w with (Throw e, _) => P e | _ => True end.

Section Raises.
Context {S : Type} `{!CoordinationStore S} (deps : Deps) (P : Exn -> Prop).

Lemma raises_nothrow {A} (m : M (World S) A) : nothrow m -> raises P m.
Proof. intros H w _ _. specialize (H w). by destruct (m w) as [[a|e] w']. Qed.

Lemma raises_bind {A B} (m : M (World S) A) (k : A -> M (World S) B) :
  steps inv_step m -> raises P m -> (forall a, raises P (k a)) -> raises P (bind m k).
Proof.
  intros Hs Hm Hk w Hi Hd. specialize (Hm w Hi Hd). destruct (Hs w) as [H1 H2]. unfold bind.
  destruct (m w) as [[a|e] w']; [|done]. apply Hk; auto.
Qed.

Lemma readActive_decimal k lane q (w : World S) :
  wp (readActiveEvmLeaseNonces deps k lane q) (fun a _ => Forall decimal a) (fun _ _ => False) w.
Proof.
  unfold readActiveEvmLeaseNonces. apply wp_bind, wp_gets, wp_bind.
  eapply wp_mono; [apply (wp_nothrow (fun _ _ => True)); [auto with nothrow|done]| |done].
  intros records w1 _. pose proof (activeEvm_decimal k q (mvalues (leases w)) []) as Ha.
  generalize (activeEvmNonces k q [] (mvalues (leases w))), (Ha ltac:(constructor)). clear Ha.
  revert w1. induction records as [|p records IH]; intros w1 active Ha; simpl; [by apply wp_ret|].
  destruct (_ || _); [by apply IH|]. apply wp_bind, wp_ask. destruct (negb _); [by apply IH|].
  destruct (match q_chainNextNonce q with Some _ => _ | None => _ end); apply IH;
    auto using sadd_decimal.
Qed.
End Raises.

Section ReserveErrors.
Context {S : Type} `{!CoordinationStore S} (deps : Deps).

(** A request to the chain that failed. *)
Definition chain_error (e : Exn) : Prop :=
  exists k input, dep_fetchChainNonce deps k input = Throw e.

Lemma refreshTask_errors k lane target nowMs (w : World S) :
  wp (refreshTask (evmStateRef k) target nowMs
        (fun l => call (fun n => dep_fetchChainNonce deps n (evmLaneToReserveNonceInput l)))
        (readActiveEvmLeaseNonces deps k lane))
    (fun _ _ => True) (fun e _ => chain_error e) w.
Proof.
  unfold refreshTask. apply wp_bind. unfold wp at 1. simpl.
  destruct (dep_fetchChainNonce deps (tick w) _) as [raw|e] eqn:E; [|by eexists _, _].
  apply wp_bind. eapply wp_mono; [apply readActive_decimal| |done]. intros active w1 Ha.
  destruct (highest_nonce_decimal active 0 Ha) as (h & ->). done.
Qed.

Lemma raises_refresh lane : raises (S:=S) chain_error (refreshEvmLaneFromChainLocked deps lane).
Proof.
  intros w _ [Hi _]. specialize (Hi (nonceLaneKey (EvmLane lane))). unfold idle_evm in Hi.
  unfold refreshEvmLaneFromChainLocked, EvmNonceLane.refreshEvmLaneFromChainLocked.
  set (k := nonceLaneKey (EvmLane lane)) in *. unfold bind at 1. cbn [now ask].
  unfold bind at 1, deref, gets. change (rget (evmStateRef k) (next_tick w)) with (rget (evmStateRef k) w).
  rewrite Hi. unfold bind, assign, modify, try_catch. cbn beta iota.
  match goal with |- context [refreshTask ?a ?b ?c ?d ?e ?w1] =>
    pose proof (refreshTask_errors k (Some lane) b c w1) as He; unfold wp in He;
    by destruct (refreshTask a b c d e w1) as [[x|y] w2] end.
Qed.

Lemma raises_reconcile lane : raises (S:=S) chain_error (reconcileEvmLaneLocked deps lane).
Proof.
  unfold reconcileEvmLaneLocked, reconcileEvmLaneState.
  do 3 (apply raises_bind; [steps_tac|intros ? _ _; exact I|intros ?]).
  apply raises_bind; [steps_tac|apply raises_refresh|]. intros c.
  apply raises_nothrow. nothrow_tac.
Qed.

Lemma nothrow_release l : nothrow (releaseBackendReservation (S:=S) deps l).
Proof.
  unfold releaseBackendReservation, releaseEvmNonceReservation, releaseEvmNonceReservationState.
  nothrow_tac.
Qed.

Lemma raises_signedExpiry l : raises (S:=S) chain_error (reconcileAfterSignedLeaseExpiry deps l).
Proof.
  unfold reconcileAfterSignedLeaseExpiry.
  apply raises_bind; [steps_tac|apply raises_nothrow, nothrow_release|]. intros _.
  destruct (body l); [|apply raises_nothrow; auto with nothrow].
  apply raises_bind; [steps_tac|apply raises_reconcile|]. intros _.
  apply raises_nothrow, nothrow_emit.
Qed.

(** A due lease can always expire: its state is the one the guard saw. *)
Lemma expireLocked_errors l nowMs (w : World S) :
  lease_inv w -> idle w -> live_lease l (leases w) = l ->
  wp (expireLeaseLocked deps l nowMs) (fun _ _ => True) (fun e _ => chain_error e) w.
Proof.
  intros Hi Hd Hl. unfold expireLeaseLocked. destruct (_ <? _); [done|].
  destruct (negb _ && negb _) eqn:Eg; [done|]. cbv zeta. apply wp_bind.
  match goal with |- wp ?m _ _ _ => set (undo := m) end.
  assert (raises chain_error undo /\ steps frame undo) as [Hr Hf].
  { unfold undo. destruct (bool_decide (state l = Signed)); (split; [|steps_tac]);
      [apply raises_signedExpiry|apply raises_nothrow, nothrow_release]. }
  specialize (Hr w Hi Hd). destruct (Hf w) as [Hsame _]. unfold wp at 1.
  destruct (undo w) as [[[]|e] w1]; [|done]. simpl in Hsame.
  apply wp_bind. unfold transitionLease. apply wp_bind, wp_gets. rewrite Hsame, Hl.
  assert (exists s', reduceNonceLeaseState (state l) TExpire = Ok s') as (s' & ->); [|done].
  apply andb_false_iff in Eg as [Eg|Eg]; apply negb_false_iff, bool_decide_eq_true in Eg as ->; by eexists.
Qed.

Lemma live_of_live (w : World S) l :
  lease_inv w -> live_lease (live_lease l (leases w)) (leases w) = live_lease l (leases w).
Proof.
  intros Hi. unfold live_lease. destruct (mget (leaseId l) (leases w)) as [c|] eqn:E; simpl.
  - by rewrite (inv_key _ Hi _ _ (mget_elem _ _ _ E)), E.
  - by rewrite E.
Qed.

Lemma raises_expireDue k nowMs snapshot : raises (S:=S) chain_error (expireDueLeases deps k nowMs snapshot).
Proof.
  induction snapshot as [|l snapshot IH]; simpl; [by apply raises_nothrow|]. case_match; [done|].
  intros w Hi Hd. unfold bind at 1. simpl.
  pose proof (expireLocked_errors (live_lease l (leases w)) nowMs w Hi Hd (live_of_live w l Hi)) as He.
  destruct (evolves_inv_step _ _ (evolves_expireLocked deps (live_lease l (leases w)) nowMs w))
    as [H1 H2].
  unfold wp in He. unfold bind at 1.
  destruct (expireLeaseLocked deps _ nowMs w) as [[x|e] w1]; [|done].
  specialize (IH w1 (H1 Hi) (H2 Hd)). unfold bind.
  by destruct (expireDueLeases deps k nowMs snapshot w1) as [[y|e] w2].
Qed.

Lemma raises_prepare lane : raises (S:=S) chain_error (prepareEvmLane deps lane).
Proof.
  unfold prepareEvmLane. apply raises_bind; [apply inv_of_evolves, evolves_expireLane| |].
  { unfold expireDueLeasesForLockedLane.
    do 2 (apply raises_bind; [steps_tac|intros ? _ _; exact I|intros ?]). apply raises_expireDue. }
  intros _. do 2 (apply raises_bind; [steps_tac|intros ? _ _; exact I|intros _]).
  apply raises_bind; [steps_tac| |].
  { apply raises_nothrow. unfold shouldRefreshEvmLaneLocked, shouldRefreshEvmLane. nothrow_tac. }
  intros [|]; [|by apply raises_nothrow]. apply raises_bind; [steps_tac|apply raises_refresh|].
  intros _. by apply raises_nothrow.
Qed.

(** C32. A reservation on an EVM lane fails only because the lane's lock could not
    be taken, a request for the chain's nonce failed, or the lane is blocked by
    an unresolved transaction. *)
Theorem reserve_evm_errors lane operation w e w' :
  lease_inv w -> idle w -> reserve (S:=S) deps (EvmLane lane) operation w = (Throw e, w') ->
  (exists k, dep_lockError deps k = Some e) \/ chain_error e \/
  (exists nonce ageMs, e = createEvmNonceLaneBlockedError lane nonce ageMs).
Proof.
  intros Hi Hd Hr.
  assert (wp (reserve deps (EvmLane lane) operation) (fun _ _ => True)
    (fun e _ => (exists k, dep_lockError deps k = Some e) \/ chain_error e \/
       exists nonce ageMs, e = createEvmNonceLaneBlockedError lane nonce ageMs) w) as H;
    [|unfold wp in H; by rewrite Hr in H].
  apply wp_lock; [|by eauto]. intros w0 [H1 H2]%(untouched_local inv_step).
  pose proof (raises_prepare lane w0 (H1 Hi) (H2 Hd)) as Hp. apply wp_bind. unfold wp at 1.
  destruct (prepareEvmLane deps lane w0) as [[[]|e0] w1]; [|by auto].
  eapply wp_mono; [apply takeEvm_wp|done|]. simpl. intros e1 w2 [_ H]. by auto.
Qed.
End ReserveErrors.

(** The chain cannot be reached. *)
Definition offline_deps : Deps :=
  mkDeps JUndefined JUndefined JUndefined JUndefined JUndefined JUndefined "runtime-1" true
    (StorePresent true) false (fun _ => 1000) (fun _ => "r1") (fun _ _ => Throw (JsError "offline"))
    (fun _ _ _ => Throw (JsError "offline")) (fun _ _ _ => Throw (JsError "offline"))
    (fun _ => Throw (JsError "offline")) (fun _ _ _ => Throw (JsError "offline")) (fun _ => false)
    (fun _ => None).

Lemma reserve_evm_errors_witness :
  (exists k, dep_lockError offline_deps k = Some (JsError "offline")) \/
  chain_error offline_deps (JsError "offline") \/
  (exists nonce ageMs, JsError "offline" = createEvmNonceLaneBlockedError example_lane nonce ageMs).
Proof.
  eapply (reserve_evm_errors offline_deps example_lane example_operation (initialWorld ([] : LeaseTable)));
    [apply initial_inv|split; [intros k; reflexivity|exact I]|vm_compute; reflexivity].
Defined.
