(* ===== verification/CoordinatorLeaseOps.v ===== *)
(** * The operations on a lease

    Which calls an operation accepts, what it does to the lease table when it
    succeeds, and that a refused call changes nothing. *)

From S2P Require Import Prelude JsValues ChainTarget NonceTypes LeaseStateMachine NonceLaneKeys NonceRecords NonceStore EvmNonceLane NearNonceLane NonceDiagnostics NonceCoordinator CoordinatorFrame CoordinatorInvariants CoordinatorReserve CoordinatorReachable.
Local Open Scope Z_scope.
Local Open Scope js_scope.

(** ** The lease a call names *)

(** The lease with the given identifier, operation and fingerprint, all trimmed. *)
Definition named_lease {S} (w : World S) (input : NonceLeaseOperationInput) : option NonceLease :=
  if nonempty (trim (lo_leaseId input)) && nonempty (trim (lo_operationId input))
     && nonempty (trim (lo_operationFingerprint input))
  then
    match mget (trim (lo_leaseId input)) (leases w) with
    | Some l =>
        if bool_decide (operationId l = trim (lo_operationId input))
           && bool_decide (operationFingerprint l = trim (lo_operationFingerprint input))
        then Some l else None
    | None => None
    end
  else None.

Lemma named_lease_same {S} (w w' : World S) input :
  leases w' = leases w -> named_lease w' input = named_lease w input.
Proof. unfold named_lease. by intros ->. Qed.

Lemma named_lease_inv {S} (w : World S) input l :
  named_lease w input = Some l ->
  normalizeLeaseOperationInput input
    = Ok (mkLeaseOp (trim (lo_leaseId input)) (operationId l) (operationFingerprint l)) /\
  mget (trim (lo_leaseId input)) (leases w) = Some l /\ nonempty (trim (lo_leaseId input)) = true.
Proof.
  unfold named_lease, normalizeLeaseOperationInput, normalizeSessionStatusRequiredString,
    toRequiredBrandedString.
  rewrite stringOrEmptyTrimmed_string.
  destruct (nonempty (trim (lo_leaseId input))) eqn:E1; [|done].
  destruct (nonempty (trim (lo_operationId input))) eqn:E2; [|done].
  destruct (nonempty (trim (lo_operationFingerprint input))) eqn:E3; [|done]. simpl.
  destruct (mget _ _) as [l0|] eqn:E; [|done].
  destruct (bool_decide _ && bool_decide _) eqn:Eb; [|done]. intros [= <-].
  by apply andb_prop in Eb as [->%bool_decide_eq_true ->%bool_decide_eq_true].
Qed.

(** Reading the lease of a normalised call. *)
Lemma readLease_named {S} (w : World S) input l :
  named_lease w input = Some l ->
  readLease (mkLeaseOp (trim (lo_leaseId input)) (operationId l) (operationFingerprint l)) w = (Ok l, w).
Proof.
  intros (_ & Hl & Hn)%named_lease_inv. unfold readLease, bind, lift, gets. simpl.
  rewrite required_string_ok by (by rewrite ?trim_idem).
  rewrite Hl. simpl. unfold assertOperationMatches. by rewrite !bool_decide_true.
Qed.

Lemma readLease_unnamed {S} (w : World S) input i :
  named_lease w input = None -> normalizeLeaseOperationInput input = Ok i ->
  exists e, readLease i w = (Throw e, w).
Proof.
  unfold named_lease, normalizeLeaseOperationInput, normalizeSessionStatusRequiredString,
    toRequiredBrandedString.
  rewrite stringOrEmptyTrimmed_string.
  destruct (nonempty (trim (lo_leaseId input))) eqn:E1; [|done].
  destruct (nonempty (trim (lo_operationId input))) eqn:E2; [|done].
  destruct (nonempty (trim (lo_operationFingerprint input))) eqn:E3; [|done]. simpl.
  intros Hl [= <-]. unfold readLease, bind, lift, gets. simpl.
  rewrite required_string_ok by (by rewrite ?trim_idem).
  destruct (mget _ _) as [l0|]; simpl; [|by eexists]. unfold assertOperationMatches.
  destruct (bool_decide (operationId l0 = _)); simpl in *; [|by eexists].
  destruct (bool_decide (operationFingerprint l0 = _)); simpl in *; [done|by eexists].
Qed.

(** ** Calls *)

(** The call and the transition of the lease it asks for. *)
Definition lease_call (op : Op) : option (NonceLeaseOperationInput * NonceLeaseTransition) :=
  match op with
  | OpMarkSigned input _ => Some (input, TMarkSigned)
  | OpMarkBroadcastAccepted input _ => Some (input, TBroadcastAccepted)
  | OpMarkBroadcastRejected input _ => Some (input, TBroadcastRejected)
  | OpMarkFinalized input _ => Some (input, TFinalize)
  | OpMarkDroppedOrReplaced input reason _ => Some (input, outcome_transition reason)
  | OpRelease input _ => Some (input, TRelease)
  | _ => None
  end.

Section Calls.
Context {S : Type} `{!CoordinationStore S} (deps : Deps).

Lemma withLease_unnamed input fn (w : World S) :
  named_lease w input = None -> exists e, withLockedLease deps input fn w = (Throw e, w).
Proof.
  intros Hn. unfold withLockedLease, bind at 1, lift.
  destruct (normalizeLeaseOperationInput input) as [i|e] eqn:Ei; [|by eexists].
  destruct (readLease_unnamed w input i Hn Ei) as (e & He). unfold bind. rewrite He. by eexists.
Qed.

Lemma markDropped_unnamed input reason h (w : World S) :
  named_lease w input = None -> exists e, markDroppedOrReplaced deps input reason h w = (Throw e, w).
Proof.
  intros Hn. unfold markDroppedOrReplaced, bind at 1, lift.
  destruct (normalizeLeaseOperationInput input) as [i|e] eqn:Ei; [|by eexists].
  destruct (readLease_unnamed w input i Hn Ei) as (e & He). unfold bind at 1. rewrite He. by eexists.
Qed.

(** The locked part of a call on a lease it names. *)
Lemma wp_withLease input fn l Q E (w : World S) :
  named_lease w input = Some l ->
  (forall w0, untouched w w0 -> wp (fn l) Q E w0) ->
  (forall k w0 e, dep_lockError deps k = Some e -> untouched w w0 -> E e w0) ->
  wp (withLockedLease deps input fn) Q E w.
Proof.
  intros Hl Hfn Herr. pose proof (named_lease_inv _ _ _ Hl) as (Hi & _).
  unfold withLockedLease. apply wp_bind. unfold wp at 1, lift. rewrite Hi.
  apply wp_bind. unfold wp at 1. rewrite (readLease_named _ _ _ Hl).
  apply wp_lock; [|done]. intros w0 H0. apply wp_bind. unfold wp at 1.
  rewrite (readLease_named w0 input l); [by apply Hfn|].
  rewrite (named_lease_same w); [done|apply H0].
Qed.

(** Under the lock the lease of the table is the one the call named. *)
Definition filed (l : NonceLease) (w : World S) : Prop := mget (leaseId l) (leases w) = Some l.

(** A transition of a filed lease. *)
Lemma transition_wp l t ev reason h x (w : World S) :
  filed l w ->
  wp (transitionLease l t ev reason h x)
    (fun _ w' => exists s', reduceNonceLeaseState (state l) t = Ok s' /\
       leases w' = mset (leaseId l) (transitioned s' x l) (leases w))
    (fun e w' => w' = w /\ reduceNonceLeaseState (state l) t = Throw e) w.
Proof.
  intros Hl. unfold transitionLease. apply wp_bind, wp_gets. unfold live_lease. rewrite Hl. simpl.
  apply wp_bind, wp_lift; [|done]. intros s' Hs. apply wp_bind, wp_modify. unfold wp. simpl.
  exists s'. split; [done|]. unfold update_lease, mhas. by rewrite !Hl.
Qed.

Lemma preflight_wp l t (w : World S) Q E :
  (forall s', reduceNonceLeaseState (state l) t = Ok s' -> Q tt w) ->
  (forall e, reduceNonceLeaseState (state l) t = Throw e -> E e w) ->
  wp (preflightLeaseTransition l t) Q E w.
Proof.
  intros HQ HE. unfold preflightLeaseTransition. apply wp_bind, wp_lift; [|done].
  intros s' Hs. apply wp_ret. eauto.
Qed.

(** What a call leaves: the transition it asked for, or the leases as they were;
    and nothing at all when the state machine refuses. *)
Definition call_done (t : NonceLeaseTransition) (l : NonceLease) (w w' : World S) : Prop :=
  exists s' x, reduceNonceLeaseState (state l) t = Ok s' /\
    leases w' = mset (leaseId l) (transitioned s' x l) (leases w).

Definition call_failed (t : NonceLeaseTransition) (l : NonceLease) (w w' : World S) : Prop :=
  leases w' = leases w /\
  forall e, reduceNonceLeaseState (state l) t = Throw e -> untouched w w'.

Lemma failed_untouched t l w w' : untouched w w' -> call_failed t l w w'.
Proof. intros H. split; [apply H|done]. Qed.

(** The transition at the end of a call. *)
Lemma final_transition_wp t l ev reason h x w w1 :
  filed l w1 -> leases w1 = leases w -> (exists s', reduceNonceLeaseState (state l) t = Ok s') ->
  wp (transitionLease l t ev reason h x)
    (fun _ w' => call_done t l w w') (fun _ w' => call_failed t l w w') w1.
Proof.
  intros Hl Hw (s' & Hs). eapply wp_mono; [by apply transition_wp|..].
  - intros [] w2 (s2 & Hs2 & Hw2). exists s2, x. by rewrite Hw2, Hw.
  - simpl. intros e w2 [_ He]. congruence.
Qed.

(** The shape of every call but [markSigned]: check the transition, work on the
    lane and the store, then go on to the transition. *)
Lemma checked_call_wp {A} t l (work : M (World S) A) (finish : M (World S) unit) w w0 :
  filed l w -> untouched w w0 -> steps frame work ->
  (forall w1, filed l w1 -> leases w1 = leases w ->
     (exists s', reduceNonceLeaseState (state l) t = Ok s') ->
     wp finish (fun _ w' => call_done t l w w') (fun _ w' => call_failed t l w w') w1) ->
  wp (preflightLeaseTransition l t ;; work ;; finish)
    (fun _ w' => call_done t l w w') (fun _ w' => call_failed t l w w') w0.
Proof.
  intros Hl H0 Hwork Hfin. apply wp_bind, preflight_wp; [|intros; by apply failed_untouched].
  intros s' Hs. assert (leases w0 = leases w) as Hw0 by apply H0.
  apply (wp_bind_steps frame _ _ _ _ w0); [done|done|..].
  - intros a w1 [H1 _]. rewrite Hw0 in H1. apply Hfin; [unfold filed; by rewrite H1|done|eauto].
  - intros e w1 [H1 _]. split; [congruence|]. intros e' He. congruence.
Qed.

Lemma named_filed (w : World S) input l : lease_inv w -> named_lease w input = Some l -> filed l w.
Proof.
  intros Hi (_ & Hl & _)%named_lease_inv. unfold filed.
  by rewrite (inv_key _ Hi _ _ (mget_elem _ _ _ Hl)).
Qed.

(** The nonce of a NEAR lease is a decimal string. *)
Definition nonce_readable (l : NonceLease) : Prop :=
  match body l with EvmBody _ _ => True | NearBody _ nonce => exists z, BigInt_ nonce = Ok z end.

Lemma nothrow_persistSigned l x : nonce_readable l -> nothrow (persistCoordinationLease (S:=S) deps l DurableSigned x).
Proof.
  unfold nonce_readable, persistCoordinationLease, persistCoordinationRecord. intros Hb.
  destruct (body l) as [lane n|lane nonce]; [simpl; nothrow_tac|]. destruct Hb as (z & Hz).
  unfold buildNearCoordinationRecord. rewrite Hz. nothrow_tac.
Qed.

Lemma markSigned_wp input h l (w : World S) :
  lease_inv w -> named_lease w input = Some l -> nonce_readable l ->
  wp (markSigned deps input h)
    (fun _ w' => call_done TMarkSigned l w w') (fun _ w' => call_failed TMarkSigned l w w') w.
Proof.
  intros Hi Hl Hn. eapply wp_withLease; [done| |intros; by apply failed_untouched].
  intros w0 H0. apply wp_bind, wp_ask, wp_bind.
  assert (filed l (next_tick w0)) as Hf.
  { unfold filed. simpl. rewrite (proj1 H0). by apply (named_filed _ input). }
  eapply wp_mono; [by apply transition_wp|..].
  - intros [] w1 (s' & Hs & Hw1). eapply wp_mono; [apply (wp_nothrow frame)| |done].
    + by apply nothrow_persistSigned.
    + apply (frame_persist deps frame).
    + intros [] w2 [H2 _]. exists s', (Some (dep_now deps (tick w0) + signedLeaseTtlMs deps)).
      rewrite H2, Hw1. simpl. by rewrite (proj1 H0).
  - intros e w1 [-> _]. by apply failed_untouched.
Qed.

Lemma markDropped_wp input reason h l (w : World S) :
  lease_inv w -> named_lease w input = Some l ->
  let t := outcome_transition reason in
  wp (markDroppedOrReplaced deps input reason h)
    (fun _ w' => call_done t l w w') (fun _ w' => call_failed t l w w') w.
Proof.
  intros Hi Hl t. pose proof (named_lease_inv _ _ _ Hl) as (Hn & _).
  unfold markDroppedOrReplaced. apply wp_bind. unfold wp at 1, lift. rewrite Hn.
  apply wp_bind. unfold wp at 1. rewrite (readLease_named _ _ _ Hl).
  apply wp_bind, wp_lift; [|intros; by apply failed_untouched]. intros _ _.
  apply wp_lock; [|intros; by apply failed_untouched]. intros w0 H0.
  apply wp_bind. unfold wp at 1. rewrite (readLease_named w0 input l);
    [|rewrite (named_lease_same w); [done|apply H0]].
  apply wp_bind, wp_lift; [|intros; by apply failed_untouched]. intros [lane nonce] _.
  apply checked_call_wp; [by eapply named_filed|done|apply (frame_droppedEvm deps frame)|].
  intros w1 Hf Hw Hs. apply wp_bind.
  eapply wp_mono; [by apply (final_transition_wp t l _ _ _ None w w1)| |done].
  intros [] w2 (s' & x & Hs' & Hw2). eapply wp_mono; [apply (wp_nothrow frame)| |done].
  - unfold recordDroppedReplacedAlert. nothrow_tac.
  - apply (frame_alert deps frame).
  - intros [] w3 [H3 _]. exists s', x. by rewrite H3.
Qed.

(** The four calls that check, work and make the transition. *)
Lemma checked_lease_wp {A} t input (work : NonceLease -> M (World S) A) ev reason h l (w : World S) :
  lease_inv w -> named_lease w input = Some l -> steps frame (work l) ->
  wp (withLockedLease deps input (fun l =>
        preflightLeaseTransition l t ;; work l ;; transitionLease l t ev reason h None))
    (fun _ w' => call_done t l w w') (fun _ w' => call_failed t l w w') w.
Proof.
  intros Hi Hl Hw. eapply wp_withLease; [done| |intros; by apply failed_untouched]. intros w0 H0.
  apply checked_call_wp; [by eapply named_filed|done|done|]. intros w1 Hf Hw1 Hs.
  by apply final_transition_wp.
Qed.

Lemma markRejected_wp input error l (w : World S) :
  lease_inv w -> named_lease w input = Some l ->
  wp (markBroadcastRejected deps input error)
    (fun _ w' => call_done TBroadcastRejected l w w')
    (fun _ w' => call_failed TBroadcastRejected l w w') w.
Proof.
  intros Hi Hl. eapply wp_withLease; [done| |intros; by apply failed_untouched]. intros w0 H0.
  apply checked_call_wp; [by eapply named_filed|done|apply (frame_release deps frame)|].
  intros w1 Hf Hw1 (s' & Hs). apply (wp_bind_steps frame _ _ _ _ w1); [steps_tac|done|..].
  - intros [] w2 [H2 _]. apply final_transition_wp; [unfold filed; by rewrite H2|congruence|eauto].
  - intros e w2 [H2 _]. split; [congruence|]. intros e' He. congruence.
Qed.

Lemma lease_call_wp op input t l (w : World S) :
  lease_inv w -> lease_call op = Some (input, t) -> named_lease w input = Some l ->
  nonce_readable l ->
  wp (run_op deps op) (fun _ w' => call_done t l w w') (fun _ w' => call_failed t l w w') w.
Proof.
  intros Hi Hop Hl Hn.
  destruct op; try discriminate Hop; injection Hop as -> <-; cbn [run_op].
  - by apply markSigned_wp.
  - apply checked_lease_wp; [done..|]. unfold markNearBroadcastAcceptedState. steps_tac.
  - by apply markRejected_wp.
  - apply checked_lease_wp; [done..|]. steps_tac.
  - by apply markDropped_wp.
  - apply checked_lease_wp; [done..|]. steps_tac.
Qed.

(** C20. A call that succeeds makes exactly the transition it asked for on the lease
    it named, and leaves every other lease as it was; one that fails leaves all
    leases as they were. *)
Theorem lease_call_spec op input t l (w : World S) :
  lease_inv w -> lease_call op = Some (input, t) -> named_lease w input = Some l ->
  nonce_readable l ->
  match run_op deps op w with
  | (Ok _, w') =>
      exists s' l', reduceNonceLeaseState (state l) t = Ok s' /\ state l' = s' /\ body l' = body l /\
        leaseId l' = leaseId l /\ mget (leaseId l) (leases w') = Some l' /\
        forall id, id <> leaseId l -> mget id (leases w') = mget id (leases w)
  | (Throw _, w') => leases w' = leases w
  end.
Proof.
  intros Hi Hop Hl Hn. pose proof (lease_call_wp op input t l w Hi Hop Hl Hn) as H. unfold wp in H.
  destruct (run_op deps op w) as [[[]|e] w']; [|apply H].
  destruct H as (s' & x & Hs & Hw'). exists s', (transitioned s' x l). rewrite Hw'.
  assert (state (transitioned s' x l) = s' /\ body (transitioned s' x l) = body l /\
    leaseId (transitioned s' x l) = leaseId l) as (? & ? & ?).
  { unfold transitioned. destruct x as [z|]; [|done]. by destruct (is_safe_integer z). }
  split_and!; try done; [apply mget_mset_eq|]. intros id Hid. by apply mget_mset_ne.
Qed.

(** C21. A call whose lease identifier, operation or fingerprint does not match, or
    whose transition the state machine refuses, fails and changes neither a
    lease, nor a lane, nor the durable store. *)
Theorem lease_call_refused op input t (w : World S) :
  lease_inv w -> lease_call op = Some (input, t) ->
  match named_lease w input with
  | None => True
  | Some l => nonce_readable l /\ exists e, reduceNonceLeaseState (state l) t = Throw e
  end ->
  exists e w', run_op deps op w = (Throw e, w') /\ untouched w w'.
Proof.
  intros Hi Hop Hr. destruct (named_lease w input) as [l|] eqn:Hl.
  - destruct Hr as (Hn & e & He). pose proof (lease_call_wp op input t l w Hi Hop Hl Hn) as H.
    unfold wp in H. destruct (run_op deps op w) as [[[]|e1] w'].
    + destruct H as (s' & x & Hs & _). congruence.
    + exists e1, w'. split; [done|]. by eapply H.
  - assert (exists e, run_op deps op w = (Throw e, w)) as (e & He); [|exists e, w; by split].
    destruct op; try discriminate Hop; injection Hop as -> <-; cbn [run_op];
      first [by apply markDropped_unnamed | by apply withLease_unnamed].
Qed.
End Calls.

(** ** Example *)

Definition example_call : NonceLeaseOperationInput :=
  mkLeaseOp (" " +:+ leaseId example_lease) "op-1" "fp-1 ".

Definition example_sign : Op := OpMarkSigned example_call EmptyString.

Definition signed_world : World LeaseTable :=
  Eval vm_compute in (run_op (example_deps "runtime-1" "r1" 2000) example_sign example_world).2.

Lemma example_signed :
  run_op (example_deps "runtime-1" "r1" 2000) example_sign example_world = (Ok tt, signed_world).
Proof. vm_compute. reflexivity. Qed.

Lemma example_named : named_lease example_world example_call = Some example_lease.
Proof. vm_compute. reflexivity. Qed.

Lemma lease_call_spec_witness :
  exists l', state l' = Signed /\ mget (leaseId example_lease) (leases signed_world) = Some l'.
Proof.
  pose proof (lease_call_spec (example_deps "runtime-1" "r1" 2000) example_sign
    example_call TMarkSigned example_lease example_world example_world_inv eq_refl example_named I) as H.
  rewrite example_signed in H. destruct H as (s' & l' & Hs & Hst & _ & _ & Hget & _).
  exists l'. injection Hs as <-. split; [exact Hst|exact Hget].
Defined.

(** A reserved lease cannot be finalized, and a lease of another operation cannot be touched. *)
Lemma lease_call_refused_witness :
  exists e w', run_op (example_deps "runtime-1" "r1" 2000) (OpMarkFinalized example_call EmptyString)
    example_world = (Throw e, w') /\ untouched example_world w'.
Proof.
  apply (lease_call_refused (example_deps "runtime-1" "r1" 2000) (OpMarkFinalized example_call EmptyString)
    example_call TFinalize example_world example_world_inv eq_refl).
  rewrite example_named. split; [exact I|]. eexists. reflexivity.
Defined.
