(* ===== verification/CoordinatorExpiry.v ===== *)
(** * Expiry

    One pass over a lane leaves no lease past its time: every reserved or signed
    lease that was due let go of its nonce, and no other lease changed. *)

From S2P Require Import Prelude JsValues ChainTarget NonceTypes LeaseStateMachine NonceLaneKeys NonceRecords NonceStore EvmNonceLane NearNonceLane NonceDiagnostics NonceCoordinator CoordinatorFrame CoordinatorInvariants CoordinatorReserve CoordinatorReachable.
Local Open Scope Z_scope.
Local Open Scope js_scope.

(** The lease is one the pass must expire. *)
Definition due (nowMs : Z) (l : NonceLease) : bool :=
  (expiresAtMs l <=? nowMs)
  && (bool_decide (state l = Reserved) || bool_decide (state l = Signed)).

(** What a due lease becomes. *)
Definition expired_lease (l : NonceLease) : NonceLease :=
  lease_with_state (if bool_decide (state l = Signed) then SignedLeaseExpired else Expired) l.

Lemma expired_not_due nowMs l : due nowMs (expired_lease l) = false.
Proof.
  unfold due, expired_lease. simpl.
  destruct (bool_decide (state l = Signed)); simpl; by rewrite andb_false_r.
Qed.

Lemma shas_head x xs : shas x (x :: xs) = true.
Proof. apply bool_decide_eq_true. set_solver. Qed.

Lemma shas_tail x y xs : x <> y -> shas x (y :: xs) = shas x xs.
Proof. intros Hne. apply bool_decide_ext. set_solver. Qed.

Section Expiry.
Context {S : Type} `{!CoordinationStore S} (deps : Deps).

(** The leases after a lease [l] of the table was considered. *)
Definition considered (nowMs : Z) (l : NonceLease) (m m' : list (string * NonceLease)) : Prop :=
  m' = if due nowMs l then update_lease (leaseId l) (expired_lease l) m else m.

Lemma expireLocked_wp l nowMs (w : World S) :
  live_lease l (leases w) = l ->
  wp (expireLeaseLocked deps l nowMs)
    (fun r w' => considered nowMs l (leases w) (leases w') /\
       r = if due nowMs l then Some (expired_lease l) else None)
    (fun _ w' => leases w' = leases w) w.
Proof.
  intros Hl. unfold expireLeaseLocked, considered, due.
  rewrite Z.leb_antisym. destruct (nowMs <? expiresAtMs l); [by apply wp_ret|]. simpl.
  rewrite <- negb_orb. destruct (_ || _) eqn:Eg; simpl; [|by apply wp_ret].
  match goal with |- wp (bind ?m _) _ _ _ => assert (steps frame m) as Hu by steps_tac end.
  apply (wp_bind_steps frame _ _ _ _ w); [done|done| |by intros e w1 [? _]].
  intros _ w1 [H1 _]. unfold transitionLease. apply wp_bind, wp_bind, wp_gets. rewrite H1, Hl.
  assert (reduceNonceLeaseState (state l) TExpire
    = Ok (if bool_decide (state l = Signed) then SignedLeaseExpired else Expired)) as ->.
  { apply orb_prop in Eg as [E%bool_decide_eq_true|E%bool_decide_eq_true]; by rewrite E. }
  apply wp_bind, wp_lift_ok, wp_bind, wp_modify. unfold wp. simpl. by rewrite H1.
Qed.

(** The leases after a pass: each entry of the lane that was due is expired, and
    every other entry is as it was. *)
Definition passed (k : string) (nowMs : Z) (scope : list string) (m m' : list (string * NonceLease))
    : Prop :=
  forall id, mget id m' =
    match mget id m with
    | Some l =>
        if shas id scope && bool_decide (nonceLaneKey (lease_lane l) = k) && due nowMs l
        then Some (expired_lease l) else Some l
    | None => None
    end.

(** A pass that breaks off: some of the leases that were due are expired, and every other
    entry is as it was. *)
Definition expiring (k : string) (nowMs : Z) (m m' : list (string * NonceLease)) : Prop :=
  forall id, mget id m' = mget id m \/ exists l, mget id m = Some l /\ nonceLaneKey (lease_lane l) = k /\
    due nowMs l = true /\ mget id m' = Some (expired_lease l).

Lemma expiring_refl k nowMs m : expiring k nowMs m m.
Proof. by left. Qed.

Lemma expiring_trans k nowMs m1 m2 m3 : expiring k nowMs m1 m2 -> expiring k nowMs m2 m3 -> expiring k nowMs m1 m3.
Proof.
  intros H1 H2 id. destruct (H2 id) as [->|(l & Hl & Hk & Hd & ->)]; [apply H1|].
  destruct (H1 id) as [<-|(l0 & _ & _ & _ & Hl0)]; [right; eauto|]. rewrite Hl0 in Hl. injection Hl as <-.
  by rewrite expired_not_due in Hd.
Qed.

Lemma expired_lane l : lease_lane (expired_lease l) = lease_lane l.
Proof. done. Qed.

Lemma live_filed (w : World S) l :
  lease_inv w ->
  let c := live_lease l (leases w) in
  leaseId c = leaseId l /\ live_lease c (leases w) = c.
Proof.
  intros Hi c. unfold c, live_lease. destruct (mget (leaseId l) (leases w)) as [x|] eqn:E; simpl.
  - pose proof (inv_key _ Hi _ _ (mget_elem _ _ _ E)) as ->. by rewrite E.
  - by rewrite E.
Qed.

(** A snapshot whose leases are on the lane their entry is on. *)
Definition snapshot_of (snapshot : list NonceLease) (m : list (string * NonceLease)) : Prop :=
  forall l l', l ∈ snapshot -> mget (leaseId l) m = Some l' -> lease_lane l' = lease_lane l.

Lemma considered_get nowMs c id m m' :
  considered nowMs c m m' -> live_lease c m = c ->
  mget id m' = if bool_decide (id = leaseId c) && due nowMs c
               then expired_lease <$> mget id m else mget id m.
Proof.
  unfold considered. intros -> Hl. destruct (due nowMs c); [|by rewrite andb_false_r].
  unfold update_lease, mhas, live_lease in *. case_bool_decide as Hid; simpl.
  - subst id. destruct (mget (leaseId c) m) as [x|] eqn:E; [|by rewrite E].
    simpl in Hl. subst x. by rewrite mget_mset_eq.
  - destruct (mget (leaseId c) m); [by apply mget_mset_ne|done].
Qed.

Lemma expireDue_wp k nowMs snapshot : forall w : World S,
  lease_inv w -> snapshot_of snapshot (leases w) ->
  wp (expireDueLeases deps k nowMs snapshot)
    (fun _ w' => passed k nowMs (map leaseId (List.filter (fun l =>
        bool_decide (nonceLaneKey (lease_lane l) = k)) snapshot)) (leases w) (leases w'))
    (fun _ w' => expiring k nowMs (leases w) (leases w')) w.
Proof.
  induction snapshot as [|l snapshot IH]; intros w Hi Hsnap; simpl.
  { apply wp_ret. intros id. by destruct (mget id (leases w)). }
  assert (snapshot_of snapshot (leases w)) as Hrest by (intros l1 l2 ?; apply Hsnap; set_solver).
  case_bool_decide as Hk; simpl; [|by apply IH]. apply wp_bind, wp_gets.
  destruct (live_filed w l Hi) as [Hid Hlive]. set (c := live_lease l (leases w)) in *.
  apply wp_bind. pose proof (expireLocked_wp c nowMs w Hlive) as He.
  pose proof (evolves_expireLocked deps c nowMs w) as Hev. unfold wp in He. unfold wp at 1.
  destruct (expireLeaseLocked deps c nowMs w) as [[r|e] w1]; [|rewrite He; apply expiring_refl].
  destruct He as [Hc _].
  simpl in Hev. pose proof (fun id => considered_get nowMs c id _ _ Hc Hlive) as Hget.
  apply wp_bind. eapply wp_mono; [apply (IH w1)|..]; [by eapply evolves_inv| | |].
  3: { intros e w2 Hw2. eapply expiring_trans; [|exact Hw2]. intros id. rewrite Hget. case_bool_decide as Hd; [|by left].
    destruct (due nowMs c) eqn:Edue; [|by left]. simpl. subst id. rewrite Hid.
    destruct (mget (leaseId l) (leases w)) as [x|] eqn:Ex; [|by left]. right. exists x. unfold c, live_lease in Edue.
    rewrite Ex in Edue. simpl in Edue. split_and!; try done. by rewrite (Hsnap l x); [|set_solver|]. }
  { intros l1 l2 Hin. rewrite Hget. destruct (_ && _); [|by apply Hrest].
    intros (x & Hx & ->)%fmap_Some. rewrite expired_lane. by apply Hrest. }
  intros others w2 Hp. apply wp_ret. intros id. rewrite (Hp id), Hget, Hid.
  case_bool_decide as Hd; simpl.
  - subst id. unfold c, live_lease in *.
    destruct (mget (leaseId l) (leases w)) as [x|] eqn:Ex; [|by destruct (due _ _)].
    simpl in *. rewrite shas_head. simpl.
    rewrite (bool_decide_true (nonceLaneKey (lease_lane x) = k))
      by (rewrite (Hsnap l x); [done|set_solver|done]).
    destruct (due nowMs x) eqn:Edue; simpl.
    + by rewrite expired_not_due, !andb_false_r.
    + by rewrite Edue, !andb_false_r.
  - destruct (mget id (leases w)); [|done]. by rewrite shas_tail.
Qed.

(** After the expiry pass over a lane, at the time it read, no reserved or signed
    lease of the lane is past its time; those that were are expired, and every
    other lease, of this lane and of any other, is as it was. *)
Theorem expire_lane_spec lane (w : World S) :
  lease_inv w ->
  wp (expireDueLeasesForLockedLane deps lane)
    (fun _ w' => forall id, mget id (leases w') =
       match mget id (leases w) with
       | Some l =>
           if bool_decide (nonceLaneKey (lease_lane l) = nonceLaneKey lane) && due (dep_now deps (tick w)) l
           then Some (expired_lease l) else Some l
       | None => None
       end)
    (fun _ w' => expiring (nonceLaneKey lane) (dep_now deps (tick w)) (leases w) (leases w')) w.
Proof.
  intros Hi.
  assert (wp (expireDueLeasesForLockedLane deps lane)
    (fun _ w' => passed (nonceLaneKey lane) (dep_now deps (tick w)) (map leaseId (List.filter (fun l =>
        bool_decide (nonceLaneKey (lease_lane l) = nonceLaneKey lane)) (mvalues (leases w))))
        (leases w) (leases w'))
    (fun _ w' => expiring (nonceLaneKey lane) (dep_now deps (tick w)) (leases w) (leases w')) w) as H.
  { unfold expireDueLeasesForLockedLane. apply wp_bind, wp_ask, wp_bind, wp_gets.
    apply (expireDue_wp _ _ _ (next_tick w)); [by destruct Hi|].
    intros l l' (id & Hin)%elem_mvalues. simpl. rewrite (inv_key _ Hi _ _ Hin).
    rewrite (elem_mget _ _ _ (inv_wf _ Hi) Hin). congruence. }
  unfold wp in *. destruct (expireDueLeasesForLockedLane deps lane w) as [[r|e] w']; [|done].
  intros id. rewrite (H id). destruct (mget id (leases w)) as [l|] eqn:E; [|done].
  case_bool_decide as Hk; [|by rewrite andb_false_r].
  assert (shas id (map leaseId (List.filter (fun l =>
    bool_decide (nonceLaneKey (lease_lane l) = nonceLaneKey lane)) (mvalues (leases w)))) = true)
    as ->; [|done].
  apply bool_decide_eq_true, list_elem_of_fmap. apply mget_elem in E. exists l.
  split; [by rewrite (inv_key _ Hi _ _ E)|].
  rewrite list_elem_of_In, filter_In, <- list_elem_of_In. split; [apply elem_mvalues; eauto|].
  by apply bool_decide_true.
Qed.
End Expiry.

(** Two minutes later the reserved lease has expired. *)
Definition expired_world : World LeaseTable :=
  Eval vm_compute in
    (expireDueLeasesForLockedLane (example_deps "runtime-1" "r1" 121000) (EvmLane example_lane)
       example_world).2.

Lemma example_expired :
  expireDueLeasesForLockedLane (example_deps "runtime-1" "r1" 121000) (EvmLane example_lane) example_world
  = (Ok [expired_lease example_lease], expired_world).
Proof. vm_compute. reflexivity. Qed.

Lemma expire_lane_spec_witness :
  mget (leaseId example_lease) (leases expired_world) = Some (expired_lease example_lease).
Proof.
  rewrite (wp_ok _ _ _ _ _ _ (expire_lane_spec (example_deps "runtime-1" "r1" 121000)
    (EvmLane example_lane) example_world example_world_inv) example_expired (leaseId example_lease)).
  vm_compute. reflexivity.
Defined.
