(* ===== verification/CoordinatorReservation.v ===== *)
(** * What a reservation does to the table of leases

    Besides the lease it enters, a reservation on an EVM lane expires the leases of the
    lane that are due, and leaves every other lease alone. *)

From S2P Require Import Prelude JsValues ChainTarget NonceTypes LeaseStateMachine NonceLaneKeys NonceRecords NonceStore EvmNonceLane NearNonceLane NonceDiagnostics NonceCoordinator CoordinatorFrame CoordinatorInvariants CoordinatorReserve CoordinatorReachable CoordinatorExpiry.
Local Open Scope Z_scope.
Local Open Scope js_scope.

Section Reservation.
Context {S : Type} `{!CoordinationStore S} (deps : Deps).

(** A lease after the expiry pass over lane [k] at [nowMs]. *)
Definition after_expiry (k : string) (nowMs : Z) (l : NonceLease) : NonceLease :=
  if bool_decide (nonceLaneKey (lease_lane l) = k) && due nowMs l then expired_lease l else l.

(** Past the expiry pass, the preparation of a lane changes no lease. *)
Lemma prepare_leases lane (w : World S) :
  lease_inv w ->
  let k := nonceLaneKey (EvmLane lane) in let t := dep_now deps (tick w) in
  wp (prepareEvmLane deps lane)
    (fun _ w' => forall id, mget id (leases w') = after_expiry k t <$> mget id (leases w))
    (fun _ w' => expiring k t (leases w) (leases w')) w.
Proof.
  intros Hi k t. unfold prepareEvmLane. apply wp_bind.
  eapply wp_mono; [by apply (expire_lane_spec deps (EvmLane lane) w)| |by intros e w' H].
  cbv beta. intros _ w1 H1. simpl in H1.
  assert (forall id, mget id (leases w1) = after_expiry k t <$> mget id (leases w)) as H.
  { intros id. rewrite H1. destruct (mget id (leases w)) as [l|]; [|done]. simpl. unfold after_expiry.
    by destruct (_ && _). }
  match goal with |- wp ?m _ _ _ => assert (steps frame m) as Hm by steps_tac end.
  eapply wp_mono; [apply (steps_wp frame _ _ Hm)|..]; simpl.
  - intros _ w2 [-> _]. exact H.
  - intros e w2 [-> _] id. rewrite H. destruct (mget id (leases w)) as [l|]; [|by left]. simpl. unfold after_expiry.
    case_bool_decide; [|by left]. simpl. destruct (due t l) eqn:Ed; [|by left]. right. by exists l.
Qed.

(** C2. A reservation that succeeds enters one lease, for a nonce that no other active lease
    of the lane holds, that is not in flight and not below the chain's next nonce.  Every
    lease under another identifier is as it was, but for those of the lane that were due
    when the reservation looked at the clock, which are expired; none is added, removed or
    overwritten.  A reservation that fails enters none, and at most expired some of the
    leases that were due. *)
Theorem reserve_evm_spec lane operation (w : World S) :
  lease_inv w ->
  let k := nonceLaneKey (EvmLane lane) in
  wp (reserve deps (EvmLane lane) operation)
    (fun l w' => lease_inv w' /\ reservation deps lane operation l w' /\
       exists i, forall id, id <> leaseId l ->
         mget id (leases w') = after_expiry k (dep_now deps i) <$> mget id (leases w))
    (fun _ w' => exists i, expiring k (dep_now deps i) (leases w) (leases w')) w.
Proof.
  intros Hi k. pose proof (reserve_evm_wp deps lane operation w Hi) as Hspec.
  assert (wp (reserve deps (EvmLane lane) operation)
    (fun l w' => exists i, forall id, id <> leaseId l ->
       mget id (leases w') = after_expiry k (dep_now deps i) <$> mget id (leases w))
    (fun _ w' => exists i, expiring k (dep_now deps i) (leases w) (leases w')) w) as H.
  { apply wp_lock; [|intros j w0 e _ (Hl & _); exists 0%nat; rewrite Hl; apply expiring_refl].
    intros w0 H0. pose proof (evolves_inv _ _ (untouched_local evolves _ _ H0) Hi) as Hi0. destruct H0 as [Hl0 _].
    unfold reserveEvmNonceLeaseUnlocked. apply wp_bind.
    eapply wp_mono; [by apply (prepare_leases lane w0)| |]; simpl; rewrite Hl0; fold k.
    - intros _ w1 H1. eapply wp_mono; [apply takeEvm_wp|..]; simpl.
      + intros l w' (_ & _ & _ & _ & _ & Hl & _). exists (tick w0). intros id Hid. rewrite Hl, <- H1.
        by apply mget_mset_ne.
      + intros e w' [(Hl & _) _]. exists (tick w0). rewrite Hl. intros id. rewrite H1.
        destruct (mget id (leases w)) as [l|]; [|by left]. simpl. unfold after_expiry. case_bool_decide; [|by left].
        simpl. destruct (due _ l) eqn:Ed; [|by left]. right. by exists l.
    - intros e w' H1. by exists (tick w0). }
  unfold wp in *. destruct (reserve deps (EvmLane lane) operation w) as [[l|e] w']; [|exact H].
  destruct Hspec as [H1 H2]. exact (conj H1 (conj H2 H)).
Qed.
End Reservation.

(** The due lease of another lane stays when the example reserves the same nonce. *)
Definition other_lease : NonceLease :=
  mkLease "other" "op-0" "fp-0" 0 500 None None Reserved
    (EvmBody (mkEvmLane (evm_chainTarget example_lane) "another-subject" (evm_sender example_lane) None) 5).

Definition other_world : World LeaseTable := set_leases [("other", other_lease)] (initialWorld ([] : LeaseTable)).

Lemma other_world_inv : lease_inv other_world.
Proof.
  split; simpl.
  - apply NoDup_singleton.
  - by intros id l [= -> ->]%list_elem_of_singleton.
  - by intros k n id1 l1 id2 l2 [= -> ->]%list_elem_of_singleton [= -> ->]%list_elem_of_singleton.
Qed.

Lemma reserve_evm_spec_witness : exists l w',
  reserve (example_deps "runtime-1" "r1" 1000) (EvmLane example_lane) example_operation other_world = (Ok l, w') /\
  reservation (example_deps "runtime-1" "r1" 1000) example_lane example_operation l w' /\
  mget "other" (leases w') = Some other_lease.
Proof.
  assert (exists w', reserve (example_deps "runtime-1" "r1" 1000) (EvmLane example_lane) example_operation other_world =
    (Ok example_lease, w')) as [w' Hw].
  { eexists. vm_compute. reflexivity. }
  exists example_lease, w'. split; [exact Hw|].
  destruct (wp_ok _ _ _ _ _ _ (reserve_evm_spec (example_deps "runtime-1" "r1" 1000) example_lane example_operation
    other_world other_world_inv) Hw) as (_ & Hr & i & Hi).
  split; [exact Hr|]. rewrite Hi by done. vm_compute. reflexivity.
Defined.
