(* ===== verification/CoordinatorNear.v ===== *)
(** * Reserving NEAR nonces

    A batch reservation of the coordinator: as many nonces as asked for, in
    increasing order, none of them held by an active lease of the lane. *)

From stdpp Require Import sorting.
From S2P Require Import Prelude JsValues ChainTarget NonceTypes LeaseStateMachine NonceLaneKeys NonceRecords NonceStore EvmNonceLane NearNonceLane NonceDiagnostics NonceCoordinator CoordinatorFrame CoordinatorInvariants CoordinatorReserve CoordinatorReachable.
Local Open Scope Z_scope.
Local Open Scope js_scope.

(** A lease holds nonce [n] of the NEAR lane with key [laneKey]. *)
Definition near_holds (laneKey : string) (n : Z) (l : NonceLease) : Prop :=
  (exists lane nonce, body l = NearBody lane nonce /\ nonceLaneKey (NearLane lane) = laneKey /\
     BigInt_ nonce = Ok n) /\
  isActiveNearLeaseState (state l) = true.

Lemma activeNear_mono laneKey q ls : forall active a x,
  activeNearNonces laneKey q active ls = Ok a -> x ∈ active -> x ∈ a.
Proof.
  induction ls as [|l ls IH]; intros active a x; simpl; [by intros [= <-]|].
  destruct (body l); [by apply IH|]. case_match; [by apply IH|]. destruct (BigInt_ nonce); [|done].
  intros Hr Hx. eapply IH; [exact Hr|]. case_match; [done|]. apply elem_sadd. by right.
Qed.

Lemma activeNear_holds laneKey ls l n : forall active a,
  activeNearNonces laneKey unfiltered active ls = Ok a -> l ∈ ls -> near_holds laneKey n l ->
  Z_to_string n ∈ a.
Proof.
  induction ls as [|l' ls IH]; intros active a H Hin Hh; [by apply not_elem_of_nil in Hin|].
  apply elem_of_cons in Hin as [<-|Hin]; simpl in H.
  - destruct Hh as [(lane & nonce & Hb & <- & Hn) Ha]. rewrite Hb, Ha, Hn in H.
    rewrite bool_decide_true in H by done. simpl in H.
    eapply activeNear_mono; [exact H|]. apply elem_sadd. by left.
  - destruct (body l'); [by eapply IH|]. case_match; [by eapply IH|].
    destruct (BigInt_ nonce); [|done]. by eapply IH.
Qed.

Section Near.
Context {S : Type} `{!CoordinationStore S} (deps : Deps).

Lemma readActiveNear_wp laneKey lane (w : World S) :
  wp (readActiveNearLeaseNonces deps lane laneKey unfiltered)
    (fun a w' => same_local w w' /\
       forall id l n, (id, l) ∈ leases w -> near_holds laneKey n l -> Z_to_string n ∈ a)
    (fun _ _ => True) w.
Proof.
  pose proof (steps_wp same_local _ w (frame_readActiveNear deps same_local lane laneKey unfiltered)) as H1.
  assert (wp (readActiveNearLeaseNonces deps lane laneKey unfiltered)
    (fun a _ => forall id l n, (id, l) ∈ leases w -> near_holds laneKey n l -> Z_to_string n ∈ a)
    (fun _ _ => True) w) as H2.
  { unfold readActiveNearLeaseNonces. apply wp_bind, wp_gets, wp_bind, wp_lift; [|done].
    intros active Ha. apply wp_bind.
    eapply wp_mono; [apply (wp_nothrow (fun _ _ => True)); auto with nothrow; done| |done].
    intros records w1 _. eapply wp_mono; [apply collect_mono| |done].
    intros a w2 Hmono id l n Hin Hh. apply Hmono. eapply activeNear_holds; [exact Ha| |exact Hh].
    apply elem_mvalues. eauto. }
  eapply wp_mono; [exact (wp_conj _ _ _ _ _ _ H1 H2)| |]; simpl; tauto.
Qed.

(** The nonces a reservation takes are increasing and held by no active lease. *)
Definition free_nonces (lane : NearNonceLane) (count : Z) (planned : list string) (w : World S) : Prop :=
  exists zs, planned = map Z_to_string zs /\ Z.of_nat (length zs) = count /\ StronglySorted Z.lt zs /\
    forall z id l, z ∈ zs -> (id, l) ∈ leases w -> ~ near_holds (nearNonceLaneKey lane) z l.

Lemma reserveNear_wp lane count (w : World S) :
  0 < count ->
  wp (reserveNearNonces deps lane count)
    (fun planned w' => leases w' = leases w /\ free_nonces lane count planned w) (fun _ _ => True) w.
Proof.
  intros Hc. pose proof (frame_reserveNear deps frame lane count w) as [Hl _].
  set (m := reserveNearNonces deps lane count) in *.
  assert (wp m (fun planned _ => free_nonces lane count planned w) (fun _ _ => True) w) as H;
    [|unfold wp in *; destruct (m w) as [[planned|e] w']; by auto].
  unfold m, reserveNearNonces. destruct (readNearTransactionContext (nearState w)) as [ctx|] eqn:Ectx.
  - pose proof (readActiveNear_wp (nearNonceLaneKey lane) (Some lane) w) as Hread. unfold wp in Hread.
    destruct (readActiveNearLeaseNonces deps (Some lane) (nearNonceLaneKey lane) unfiltered w)
      as [[active|e] w1] eqn:Er.
    + destruct Hread as [(_ & _ & Hn1) Hheld].
      pose proof (reserveNearNonces_spec nearStateRef lane count
        (readActiveNearLeaseNonces deps (Some lane)) w w1 ctx active Ectx Hc Er Hn1) as Hs.
      eapply wp_mono; [exact Hs| |done]. simpl.
      intros planned w2 (zs & Hp & Hlen & Hsort & Hall & _). exists zs. split_and!; [done..|].
      intros z id l Hz Hin Hh. destruct (Hall z Hz) as (_ & Hfree & _). by apply Hfree, (Hheld id l).
    + unfold reserveNearNoncesFromState. apply wp_bind, wp_deref. simpl rget. rewrite Ectx.
      rewrite Z.max_r by lia. replace (count <=? 0) with false by lia.
      apply wp_bind. unfold wp at 1. change (mkActiveQuery None None) with unfiltered. by rewrite Er.
  - unfold reserveNearNoncesFromState. apply wp_bind, wp_deref. simpl rget. by rewrite Ectx.
Qed.

(** The leases built for a batch. *)
Definition batch_for (lane : NearNonceLane) (operation : PreparedNonceOperationContext)
    (nonces : list string) (batch : list NonceLease) : Prop :=
  Forall2 (fun nonce l => body l = NearBody lane nonce /\ state l = Reserved /\
     operationId l = op_operationId operation /\
     operationFingerprint l = op_operationFingerprint operation /\
     exists randomId, leaseId l = createNonceLeaseId (op_operationId operation) "near" nonce randomId)
    nonces batch.

Lemma buildNear_wp lane operation at_ms b nonces : forall i (w : World S),
  wp (buildNearLeases deps lane operation at_ms b i nonces)
    (fun batch w' => leases w' = leases w /\ batch_for lane operation nonces batch) (fun _ _ => True) w.
Proof.
  induction nonces as [|n nonces IH]; intros i w; simpl.
  - apply wp_ret. split; [done|constructor].
  - apply wp_bind, wp_ask, wp_bind. eapply wp_mono; [apply IH| |done]. intros ls w' [Hl Hb].
    apply wp_ret. split; [done|]. constructor; [|done]. split_and!; eauto.
Qed.

Lemma nothrow_buildNear lane operation at_ms b nonces : forall i,
  nothrow (buildNearLeases (S:=S) deps lane operation at_ms b i nonces).
Proof. induction nonces as [|n nonces IH]; intros i; simpl; nothrow_tac. Qed.

Definition enter (m : list (string * NonceLease)) (batch : list NonceLease) : list (string * NonceLease) :=
  List.fold_left (fun m l => mset (leaseId l) l m) batch m.

Lemma nothrow_registerNear lease lane nonce z :
  body lease = NearBody lane nonce -> BigInt_ nonce = Ok z -> nothrow (registerLease (S:=S) deps lease).
Proof.
  intros Hb Hn. unfold registerLease, persistCoordinationLease, persistCoordinationRecord. rewrite Hb.
  unfold buildNearCoordinationRecord. rewrite Hn. nothrow_tac.
Qed.

Lemma nothrow_registerAll lane operation zs : forall batch,
  batch_for lane operation (map Z_to_string zs) batch -> nothrow (forM (W:=World S) batch (registerLease deps)).
Proof.
  induction zs as [|z zs IH]; intros batch Hb; inversion Hb as [|? l ? batch' (Hl & _) Hrest]; subst;
    simpl; [auto with nothrow|].
  apply nothrow_bind; [|intros _; by apply IH]. eapply nothrow_registerNear; [exact Hl|].
  unfold BigInt_. by rewrite BigInt_to_string.
Qed.

Lemma register_wp lease (w : World S) :
  wp (registerLease deps lease) (fun _ w' => leases w' = mset (leaseId lease) lease (leases w))
    (fun _ _ => True) w.
Proof.
  unfold registerLease. apply wp_bind, wp_modify.
  apply (wp_bind_steps same_local _ _ _ _ (set_leases (mset (leaseId lease) lease (leases w)) w));
    [apply (frame_persist deps same_local)|done| |done].
  intros [] w1 (Hl & _). exact Hl.
Qed.

Lemma registerAll_wp batch : forall w : World S,
  wp (forM batch (registerLease deps)) (fun _ w' => leases w' = enter (leases w) batch)
    (fun _ _ => True) w.
Proof.
  induction batch as [|l batch IH]; intros w; simpl; [by apply wp_ret|]. apply wp_bind.
  eapply wp_mono; [apply register_wp| |done]. intros [] w1 Hl.
  eapply wp_mono; [apply IH| |done]. intros [] w2 H2. by rewrite H2, Hl.
Qed.

(** An entry after a batch was entered is one of the batch, or an old one. *)
Lemma elem_enter batch : forall m id l,
  (id, l) ∈ enter m batch -> (id = leaseId l /\ l ∈ batch) \/ (id, l) ∈ m.
Proof.
  induction batch as [|x batch IH]; intros m id l; simpl; [by auto|].
  intros [[-> Hin]|Hin]%IH; [left; set_solver|].
  apply elem_mset in Hin as [[= -> ->]|Hin]; [left; set_solver|by right].
Qed.

Lemma enter_get batch : forall m l,
  NoDup (map leaseId batch) -> l ∈ batch -> mget (leaseId l) (enter m batch) = Some l.
Proof.
  assert (forall batch m id, ~ id ∈ map leaseId batch -> mget id (enter m batch) = mget id m) as Hskip.
  { clear batch. induction batch as [|x batch IH]; intros m id Hid; simpl; [done|].
    rewrite IH by set_solver. apply mget_mset_ne. set_solver. }
  induction batch as [|x batch IH]; intros m l Hnd Hin; [by apply not_elem_of_nil in Hin|].
  apply NoDup_cons in Hnd as [Hx Hnd]. apply elem_of_cons in Hin as [<-|Hin]; simpl.
  - by rewrite Hskip, mget_mset_eq.
  - by apply IH.
Qed.

Lemma batch_ids lane operation nonces batch :
  batch_for lane operation nonces batch -> NoDup nonces -> NoDup (map leaseId batch).
Proof.
  induction 1 as [|n l nonces batch (_ & _ & _ & _ & r & Hr) Hrest IH]; intros Hnd; simpl;
    [constructor|].
  apply NoDup_cons in Hnd as [Hn Hnd]. apply NoDup_cons. split; [|by apply IH].
  intros (l' & Heq & Hin)%list_elem_of_fmap. apply Hn.
  apply list_elem_of_lookup in Hin as (i & Hi).
  destruct (Forall2_lookup_r _ _ _ _ _ Hrest Hi) as (n' & Hn' & (_ & _ & _ & _ & r' & Hr')).
  apply list_elem_of_lookup_2 in Hn'.
  rewrite Hr, Hr' in Heq. by apply createNonceLeaseId_inj in Heq as (_ & _ & -> & _).
Qed.

Lemma sorted_NoDup zs : StronglySorted Z.lt zs -> NoDup zs.
Proof.
  induction 1 as [|z zs _ IH Hz]; constructor; [|done]. intros Hin.
  rewrite Forall_forall in Hz. specialize (Hz z Hin). lia.
Qed.

(** What a batch of [count] nonces leaves: one reserved lease per nonce, as many as
    asked for and at least one, with increasing nonces that no other active lease of
    the lane holds. *)
Definition batch_entered (lane : NearNonceLane) (operation : PreparedNonceOperationContext) (count : Z)
    (batch : list NonceLease) (zs : list Z) (w : World S) : Prop :=
  Z.of_nat (length zs) = Z.max 1 count /\ StronglySorted Z.lt zs /\
  batch_for lane operation (map Z_to_string zs) batch /\
  (forall l, l ∈ batch -> mget (leaseId l) (leases w) = Some l) /\
  forall z id l, z ∈ zs -> (id, l) ∈ leases w -> near_holds (nearNonceLaneKey lane) z l -> l ∈ batch.

Lemma batchUnlocked_wp lane operation count (w : World S) :
  wp (reserveNearNonceBatchUnlocked deps lane operation count)
    (fun batch w' => exists zs, batch_entered lane operation count batch zs w')
    (fun _ w' => evolves w w') w.
Proof.
  unfold reserveNearNonceBatchUnlocked.
  apply (wp_bind_steps evolves _ _ _ _ w); [apply evolves_expireLane|done| |done].
  intros _ w1 H1. cbv zeta. set (n := Z.max 1 (if count =? 0 then 1 else count)).
  assert (n = Z.max 1 count) as Hn by (unfold n; destruct (count =? 0) eqn:?; lia).
  apply wp_bind.
  eapply wp_mono; [apply (wp_steps evolves); [apply (frame_reserveNear deps evolves)|apply reserveNear_wp; lia]| |].
  2: { intros e w2 H2. by etransitivity. }
  intros planned w2 [[Hl2 (zs & -> & Hlen & Hsort & Hfree)] _].
  rewrite length_map, Hlen, Z.eqb_refl. apply wp_bind, wp_ask, wp_bind, wp_ask, wp_bind.
  eapply wp_mono; [eapply wp_nothrow_post; [apply nothrow_buildNear|apply buildNear_wp]| |done].
  intros batch w3 [Hl3 Hb]. apply wp_bind.
  eapply wp_mono; [eapply wp_nothrow_post; [by eapply nothrow_registerAll|apply registerAll_wp]| |done].
  intros [] w4 Hl4. apply wp_ret. exists zs. unfold batch_entered. rewrite Hl4.
  split_and!; [lia|done|done|..].
  - intros l Hin. apply enter_get; [|done]. eapply batch_ids; [done|].
    apply NoDup_fmap; [apply _|by apply sorted_NoDup].
  - intros z id l Hz [[_ Hin]|Hin]%elem_enter Hh; [done|]. exfalso. rewrite Hl3 in Hin. simpl in Hin.
    rewrite Hl2 in Hin. by eapply Hfree.
Qed.

(** C38. A batch reservation that succeeds enters one reserved lease per nonce: as many
    as asked for (at least one), strictly increasing, and after it no other active
    lease of the lane holds any of them.  One that fails enters no lease, and the
    leases that remain changed only by accepted transitions. *)
Theorem reserveBatch_spec lane operation count (w : World S) :
  wp (reserveBatch deps lane operation count)
    (fun batch w' => exists zs, batch_entered lane operation count batch zs w')
    (fun _ w' => evolves w w') w.
Proof.
  apply wp_lock; [|intros k w0 e _; apply (untouched_local evolves)].
  intros w0 H0%(untouched_local evolves). eapply wp_mono; [apply batchUnlocked_wp|done|].
  intros e w' H. by etransitivity.
Qed.
End Near.

(** A batch of two on a lane whose access key is at nonce 6 and which already gave
    out nonce 7. *)
Example reserveBatch_runs :
  match reserveBatch (example_deps "runtime-1" "r1" 1000) example_near_lane example_operation 2
          (set_nearState example_near_state (initialWorld [])) with
  | (Ok batch, w) => (map lease_nonce_string batch, length (leases w)) = (["8"; "9"], 2%nat)
  | (Throw _, _) => False
  end.
Proof. vm_compute. reflexivity. Qed.
