(* ===== verification/CoordinatorNearContext.v ===== *)
(** * NEAR contexts with a reservation

    [reserveNearContext] and [reserveNearReplacementContext]: the context a signer
    gets carries the nonce of its lease, and it is the lane's own context object, so
    the lane continues from that nonce. *)

From stdpp Require Import sorting.
From S2P Require Import Prelude JsValues ChainTarget NonceTypes LeaseStateMachine NonceLaneKeys NonceRecords NonceStore EvmNonceLane NearNonceLane NonceDiagnostics NonceCoordinator CoordinatorFrame CoordinatorInvariants CoordinatorReserve CoordinatorReachable CoordinatorNear.
Local Open Scope Z_scope.
Local Open Scope js_scope.

(** The NEAR lane is bound to the same key with the same context. *)
Definition same_context {S} (w w' : World S) : Prop :=
  lifecycle (nearState w') = lifecycle (nearState w).

#[export] Instance same_context_quiet {S} : QuietRelation (@same_context S).
Proof.
  split; [split; [done|]|].
  - intros w1 w2 w3. unfold same_context. congruence.
  - unfold same_context. by intros w w' _ _ ->.
Qed.

Section Context.
Context {S : Type} `{!CoordinationStore S} (deps : Deps).

Lemma context_modify f :
  (forall w, lifecycle (nearState (f w)) = lifecycle (nearState w)) -> steps (@same_context S) (modify f).
Proof. intros Hf. by apply steps_modify. Qed.

Lemma context_assign_evm k f : steps (@same_context S) (assign (evmStateRef k) f).
Proof. by apply context_modify. Qed.

Lemma context_getOrCreate k : steps (@same_context S) (getOrCreateEvmState k).
Proof. by apply context_modify. Qed.

Lemma context_release n : steps (@same_context S) (assign nearStateRef (releaseNearNonceFromState n)).
Proof.
  apply context_modify. intros w. simpl. unfold releaseNearNonceFromState. by repeat case_match.
Qed.

Lemma context_reserved f g :
  steps (@same_context S) (assign nearStateRef (fun s => set_reserved (f s) (g s) s)).
Proof. by apply context_modify. Qed.

Lemma context_leases f : steps (@same_context S) (modify (fun w => set_leases (f (leases w)) w)).
Proof. by apply context_modify. Qed.

Hint Resolve context_assign_evm context_getOrCreate context_release context_reserved : steps.

Lemma context_refresh lane : steps (@same_context S) (refreshEvmLaneFromChainLocked deps lane).
Proof.
  unfold refreshEvmLaneFromChainLocked, EvmNonceLane.refreshEvmLaneFromChainLocked, refreshTask.
  steps_tac.
Qed.

Hint Resolve context_refresh : steps.

Lemma context_backend lease : steps (@same_context S) (releaseBackendReservation deps lease).
Proof.
  unfold releaseBackendReservation, releaseEvmNonceReservation, releaseEvmNonceReservationState.
  steps_tac.
Qed.

Lemma context_reconcile lane : steps (@same_context S) (reconcileEvmLaneLocked deps lane).
Proof. unfold reconcileEvmLaneLocked, reconcileEvmLaneState. steps_tac. Qed.

Lemma context_transition lease t ev reason h e :
  steps (@same_context S) (transitionLease lease t ev reason h e).
Proof.
  unfold transitionLease. steps_tac; by apply context_modify.
Qed.

Hint Resolve context_backend context_reconcile context_transition : steps.

Lemma context_expireLocked lease nowMs : steps (@same_context S) (expireLeaseLocked deps lease nowMs).
Proof. unfold expireLeaseLocked, reconcileAfterSignedLeaseExpiry, emitLaneReconciled. steps_tac. Qed.

Hint Resolve context_expireLocked : steps.

Lemma context_expireDue k nowMs snapshot :
  steps (@same_context S) (expireDueLeases deps k nowMs snapshot).
Proof. induction snapshot as [|l snapshot IH]; simpl; steps_tac. Qed.

Lemma context_register lease : steps (@same_context S) (registerLease deps lease).
Proof. unfold registerLease. steps_tac. by apply context_modify. Qed.

Lemma context_buildNear lane operation at_ms b nonces : forall i,
  steps (@same_context S) (buildNearLeases deps lane operation at_ms b i nonces).
Proof. induction nonces as [|n nonces IH]; intros i; simpl; steps_tac. Qed.

Hint Resolve context_expireDue context_register context_buildNear : steps.

(** A batch reservation works on the context it finds. *)
Lemma context_batch lane operation count :
  steps (@same_context S) (reserveNearNonceBatchUnlocked deps lane operation count).
Proof.
  unfold reserveNearNonceBatchUnlocked, expireDueLeasesForLockedLane, reserveNearNonces,
    reserveNearNoncesFromState.
  steps_tac.
Qed.

(** The access key of a lane, as the lane state names it. *)
Definition lane_subject (lane : NearNonceLane) : NearAccessKeySubject :=
  mkSubject (trim (near_walletId lane)) (trim (near_nearAccountId lane)) (trim (near_publicKey lane)).

(** The lane state is bound to [lane], with [ctx] as its context. *)
Definition lane_context (lane : NearNonceLane) (ctx : TransactionContext) (w : World S) : Prop :=
  exists r, lifecycle (nearState w) = AccessKeyBound (lane_subject lane) (Some r) /\
    transactionContext r = ctx.

Lemma initialize_subject lane s s' :
  initializeNearAccessKeyState (near_walletId lane) (near_nearAccountId lane) (near_publicKey lane) s
    = Ok s' -> readNearAccessKeySubject s' = Some (lane_subject lane).
Proof.
  unfold initializeNearAccessKeyState, normalizeSessionStatusRequiredString.
  rewrite !stringOrEmptyTrimmed_string.
  do 3 (case_match; [|by simplify_eq]). repeat case_match; simplify_eq/=; intros [= <-]; [|done].
  by eapply bool_decide_eq_true_1.
Qed.

Lemma commit_wp lane ctx (w : World S) :
  wp (commitNearContext deps lane ctx) (fun _ w' => lane_context lane ctx w' /\ frame w w')
    (fun _ w' => frame w w') w.
Proof.
  apply (wp_steps frame); [apply (frame_commit deps frame)|].
  unfold commitNearContext. apply wp_bind, wp_ask. unfold assignR. apply wp_bind, wp_deref, wp_bind.
  unfold commitNearTransactionContextForState, wp at 1, lift.
  destruct (initializeNearAccessKeyState _ _ _ _) as [s|e] eqn:Ei; [|done].
  apply initialize_subject in Ei. unfold requireNearAccessKeySubject. rewrite Ei.
  eexists. split; [reflexivity|done].
Qed.

(** Writing the nonce into the committed context. *)
Lemma committed_nonce lane ctx nonce (w w' : World S) :
  lane_context lane ctx w -> same_context w w' ->
  lane_context lane (with_next_nonce nonce ctx)
    (rset nearStateRef (set_committed_nonce nonce (rget nearStateRef w')) w').
Proof.
  intros (r & Hr & <-) Hs. unfold lane_context. simpl. unfold set_committed_nonce.
  unfold same_context in Hs. rewrite Hs, Hr. simpl. eauto.
Qed.

(** The first lease of a batch has its first nonce. *)
Lemma batch_head lane operation count batch zs (w : World S) :
  batch_entered lane operation count batch zs w ->
  exists z zs' l, zs = z :: zs' /\ head batch = Some l /\ lease_nonce_string l = Z_to_string z.
Proof.
  intros (Hlen & _ & Hb & _). destruct zs as [|z zs]; [simpl in Hlen; lia|].
  inversion Hb as [|? l ? batch' (Hl & _) _]; subst. exists z, zs, l. split_and!; [done..|].
  unfold lease_nonce_string. by rewrite Hl.
Qed.

(** A context reservation that succeeds gives the signer a context whose nonce is
    the first of its batch, a batch as [reserveBatch] enters it, and leaves the lane
    bound to the caller's key with that very context; one that fails enters no lease.
    A context supplied by the caller must come without touching the leases. *)
Theorem reserveNearContext_spec lane operation count fetch force (w : World S) :
  (forall m, fetch = Some m -> steps frame m) ->
  wp (reserveNearContext deps lane operation count fetch force)
    (fun r w' => exists z zs, batch_entered lane operation count r.2 (z :: zs) w' /\
       nextNonce r.1 = Z_to_string z /\ lane_context lane r.1 w')
    (fun _ w' => evolves w w') w.
Proof.
  intros Hf. apply wp_lock; [|intros k w0 e _; apply (untouched_local evolves)].
  intros w0 H0%(untouched_local evolves).
  apply (wp_bind_steps evolves _ _ _ _ w); [apply (frame_initializeNear evolves)|done| |done].
  intros _ w1 H1. apply (wp_bind_steps evolves _ _ _ _ w); [|done| |done].
  { destruct fetch as [m|]; [|apply (frame_fetchForLane deps evolves)].
    eapply steps_weaken; [apply lease_relation_frame|by apply Hf]. }
  intros ctx w2 H2. apply wp_bind.
  eapply wp_mono; [apply commit_wp| |intros e w3 H3%(lease_relation_frame (R:=evolves)); by etransitivity].
  intros _ w3 [Hctx H3%(lease_relation_frame (R:=evolves))]. apply wp_bind.
  eapply wp_mono; [exact (wp_conj _ _ _ _ _ _ (batchUnlocked_wp deps lane operation count w3)
    (steps_wp same_context _ w3 (context_batch lane operation count)))| |].
  2: { intros e w4 [H4 _]. do 2 (etransitivity; [eassumption|]). done. }
  intros batch w4 [(zs & Hb) Hsame]. destruct (batch_head _ _ _ _ _ _ Hb) as (z & zs' & l & -> & -> & Hn).
  rewrite Hn. exists z, zs'. split_and!; [exact Hb|done|by eapply committed_nonce].
Qed.

(** A replacement that succeeds enters one reserved lease for exactly the nonce it
    was asked for, which the access key has not used yet, with a context for that
    nonce that is also the lane's; one that fails leaves the leases as they were. *)
Theorem reserveNearReplacement_spec lane operation nonce (w : World S) :
  wp (reserveNearReplacementContext deps lane operation nonce)
    (fun r w' => exists l z, r.2 = [l] /\ batch_for lane operation [nonce] [l] /\
       BigInt_ nonce = Ok z /\ ak_nonce (accessKeyInfo r.1) < z /\ nextNonce r.1 = nonce /\
       lane_context lane r.1 w' /\ leases w' = mset (leaseId l) l (leases w))
    (fun _ w' => leases w' = leases w) w.
Proof.
  apply wp_lock; [|intros k w0 e _ H0; apply H0]. intros w0 [Hl0 _].
  apply (wp_bind_steps frame _ _ _ _ w0); [apply (frame_initializeNear frame)|done| |intros e w1 [H1 _]; congruence].
  intros _ w1 H1. apply (wp_bind_steps frame _ _ _ _ w0);
    [apply (frame_fetchForLane deps frame)|done| |intros e w2 [H2 _]; congruence].
  intros ctx w2 [H2 _]. apply wp_bind.
  eapply wp_mono; [apply commit_wp| |intros e w3 [H3 _]; congruence].
  intros _ w3 [Hctx [H3 _]]. apply wp_bind. unfold wp at 1, lift.
  destruct (BigInt_ nonce) as [z|e] eqn:Ez; [|congruence].
  destruct (z <=? _) eqn:Hz; [unfold wp; simpl; congruence|].
  apply wp_bind, wp_ask, wp_bind, wp_ask, wp_bind, wp_ask, wp_bind.
  set (lease := mkLease _ _ _ _ _ _ _ _ _). set (w4 := next_tick (next_tick (next_tick w3))).
  eapply wp_mono; [eapply wp_nothrow_post; [by apply (nothrow_registerNear deps lease lane nonce z)|
    exact (wp_conj _ _ _ _ _ _ (register_wp deps lease w4)
      (steps_wp same_context _ w4 (context_register lease)))]| |done].
  intros [] w5 [Hl5 Hsame]. exists lease, z. split_and!; [done| |done|simpl; lia|done|..].
  - constructor; [|constructor]. split_and!; eauto.
  - by eapply committed_nonce.
  - simpl. rewrite Hl5. subst w4. simpl. congruence.
Qed.
End Context.

(** ** Example: a coordinator whose NEAR client answers *)

Definition near_deps : Deps :=
  mkDeps JUndefined JUndefined JUndefined JUndefined JUndefined JUndefined "runtime-1" true
    (StorePresent true) true (fun _ => 1000) (fun n => Z_to_string (Z.of_nat n)) (fun _ _ => Ok 5)
    (fun _ _ _ => Ok StatusPending)
    (fun _ _ _ => Ok (JObject [("nonce", JInt 6); ("permission", JString "FullAccess")]))
    (fun _ => Ok (JObject [("header", JObject [("hash", JString "blockhash"); ("height", JInt 100)])]))
    (fun _ _ _ => Throw (JsError "offline")) (fun _ => false) (fun _ => None).

Definition near_reservation : Result (TransactionContext * list NonceLease) * World LeaseTable :=
  Eval vm_compute in
    reserveNearContext near_deps example_near_lane example_operation 2 None true (initialWorld []).

(** The batch 7, 8, with 7 in the context. *)
Example near_reservation_nonces :
  match near_reservation with
  | (Ok r, _) => (nextNonce r.1, map lease_nonce_string r.2) = ("7", ["7"; "8"])
  | (Throw _, _) => False
  end.
Proof. reflexivity. Qed.

Lemma near_reservation_runs :
  reserveNearContext near_deps example_near_lane example_operation 2 None true
    (initialWorld ([] : LeaseTable)) = near_reservation.
Proof. vm_compute. reflexivity. Qed.

Lemma reserveNearContext_spec_witness :
  match near_reservation with
  | (Ok r, w') => exists z zs, batch_entered example_near_lane example_operation 2 r.2 (z :: zs) w' /\
       nextNonce r.1 = Z_to_string z /\ lane_context example_near_lane r.1 w'
  | (Throw _, _) => False
  end.
Proof.
  exact (wp_ok _ _ _ _ _ _ (reserveNearContext_spec near_deps example_near_lane example_operation 2
    None true (initialWorld ([] : LeaseTable)) (fun m H => ltac:(discriminate H))) near_reservation_runs).
Defined.

(** The nonce 7 can be replaced, and 6, which the access key used, cannot. *)
Example near_replacement_runs :
  match reserveNearReplacementContext near_deps example_near_lane example_operation "7" near_reservation.2 with
  | (Ok r, w) => (nextNonce r.1, map lease_nonce_string r.2, length (leases w)) = ("7", ["7"], 3%nat)
  | (Throw _, _) => False
  end /\
  (reserveNearReplacementContext near_deps example_near_lane example_operation "6" near_reservation.2).1
    = Throw (NearReplacementNonceUsed "6" "6").
Proof. split; vm_compute; reflexivity. Qed.
