(* ===== verification/CoordinatorRecovery.v ===== *)
(** * Recovery

    At start-up the durable records are read back.  A broadcast the chain has
    neither finalized nor passed keeps blocking its nonce: its record stays in the
    store and the nonce is in flight again in the lane. *)

From S2P Require Import Prelude JsValues ChainTarget NonceTypes LeaseStateMachine NonceLaneKeys NonceRecords NonceStore EvmNonceLane NearNonceLane NonceDiagnostics NonceCoordinator CoordinatorFrame CoordinatorInvariants CoordinatorReserve CoordinatorReachable CoordinatorDurable.
Local Open Scope Z_scope.
Local Open Scope js_scope.

Lemma mget_filter {V} (f : string * V -> bool) k v m :
  mget k m = Some v -> f (k, v) = true -> mget k (List.filter f m) = Some v.
Proof.
  induction m as [|[k' v'] m IH]; simpl; [done|]. case_decide as Hk.
  - intros [= ->] Hf. subst. rewrite Hf. simpl. by case_decide.
  - intros Hm Hf. destruct (f (k', v')); simpl; [case_decide; [done|]|]; auto.
Qed.

(** The nonce is in flight in the lane. *)
Definition in_flight (n : Z) (s : EvmNonceLaneState) : Prop :=
  exists e, mget (Z_to_string n) (evmInFlight s) = Some e /\ eif_nonce e = n.

Definition blocks {S} (k : string) (n : Z) (w : World S) : Prop := in_flight n (rget (evmStateRef k) w).

Section Blocks.
Context {S : Type} `{!CoordinationStore S} (deps : Deps) (k : string) (n : Z).

Definition keeps_blocked (w w' : World S) : Prop := blocks k n w -> blocks k n w'.

#[local] Instance keeps_blocked_quiet : QuietRelation keeps_blocked.
Proof.
  split; [split; [by intros w H|]|].
  - intros w1 w2 w3 H1 H2 H. by apply H2, H1.
  - intros w w' _ He _. unfold keeps_blocked, blocks. simpl. by rewrite He.
Qed.

Lemma blocked_assign f :
  (forall s, in_flight n s -> in_flight n (f s)) -> steps keeps_blocked (assign (evmStateRef k) f).
Proof.
  intros Hf. apply steps_modify. intros w Hw. unfold blocks in *. rewrite rget_rset_evm.
  rewrite decide_True by done. by apply Hf.
Qed.

Lemma blocked_getOrCreate : steps keeps_blocked (getOrCreateEvmState k).
Proof.
  apply steps_modify. intros w. unfold keeps_blocked, blocks. simpl.
  unfold getOrCreateEvmNonceLaneState.
  destruct (mget k (evmStates w)) as [s|] eqn:E; [by rewrite E|]. simpl. by intros (e & ? & _).
Qed.

(** The chain has not passed the nonce. *)
Definition not_passed (input : ReserveNonceInput) : Prop :=
  0 <= n /\ forall i c, dep_fetchChainNonce deps i input = Ok c -> c <= n.

Lemma blocked_refresh lane :
  nonceLaneKey (EvmLane lane) = k -> not_passed (evmLaneToReserveNonceInput lane) ->
  steps keeps_blocked (refreshEvmLaneFromChainLocked deps lane).
Proof.
  intros Hk [Hn Hc]. unfold refreshEvmLaneFromChainLocked, EvmNonceLane.refreshEvmLaneFromChainLocked.
  cbv zeta. rewrite Hk.
  assert (forall f : EvmNonceLaneState -> EvmNonceLaneState,
    (forall s, evmInFlight (f s) = evmInFlight s) ->
    steps keeps_blocked (assign (evmStateRef k) f)) as Hsame.
  { intros f Hf. apply blocked_assign. intros s. unfold in_flight. by rewrite Hf. }
  apply steps_bind; [apply _|apply (frame_now deps keeps_blocked)|]. intros nowMs.
  apply steps_bind; [apply _|apply steps_deref, _|]. intros s.
  destruct (inflightRefresh s); [apply steps_throw, _|].
  apply steps_bind; [apply _|by apply Hsame|]. intros _.
  apply steps_bind; [apply _| |intros r; apply steps_bind; [apply _|by apply Hsame|steps_tac]].
  apply steps_try; [apply _| |intros e; apply steps_bind; [apply _|by apply Hsame|steps_tac]].
  unfold refreshTask. apply (steps_bind_wp keeps_blocked (fun raw => raw <= n));
    [apply (frame_call keeps_blocked)| |].
  { intros w. unfold wp. simpl. destruct (dep_fetchChainNonce deps (tick w) _) eqn:E; [|done]. eauto. }
  intros raw Hraw. apply steps_bind; [apply _|apply (frame_readActiveEvm deps keeps_blocked)|].
  intros active. apply steps_bind; [apply _|apply steps_lift, _|]. intros highest.
  apply steps_bind; [apply _| |].
  { apply blocked_assign. intros s' (e & He & Hen). exists e. split; [|done]. simpl.
    apply mget_filter; [done|]. simpl. rewrite Hen. destruct (0 <=? raw); lia. }
  intros _. repeat (apply steps_bind; [apply _|by apply Hsame|intros _]). apply steps_ret, _.
Qed.

Lemma blocked_reconcile lane :
  nonceLaneKey (EvmLane lane) = k -> not_passed (evmLaneToReserveNonceInput lane) ->
  steps keeps_blocked (reconcileEvmLaneLocked deps lane).
Proof.
  intros Hk Hc. unfold reconcileEvmLaneLocked, reconcileEvmLaneState. rewrite Hk.
  apply steps_bind; [apply _|apply blocked_getOrCreate|]. intros _.
  apply steps_bind; [apply _|apply (frame_index keeps_blocked)|]. intros _.
  apply steps_bind; [apply _|apply (frame_now deps keeps_blocked)|]. intros nowMs.
  apply steps_bind; [apply _|by apply blocked_refresh|]. intros c. steps_tac.
Qed.

(** The next nonce a reconciliation reports is the chain's. *)
Lemma reconcile_reports lane (w : World S) :
  not_passed (evmLaneToReserveNonceInput lane) ->
  wp (reconcileEvmLaneLocked deps lane) (fun st _ => st_chainNextNonce st <= n) (fun _ _ => True) w.
Proof.
  intros [Hn Hc]. unfold reconcileEvmLaneLocked, reconcileEvmLaneState.
  apply wp_bind, wp_modify, wp_bind, wp_modify, wp_bind, wp_ask, wp_bind.
  cut (forall w1 : World S, wp (refreshEvmLaneFromChainLocked deps lane) (fun c _ => c <= n)
         (fun _ _ => True) w1).
  { intros Hr. eapply wp_mono; [apply Hr| |done]. intros c w1 Hcn. by apply wp_bind, wp_deref, wp_ret. }
  intros w1. unfold refreshEvmLaneFromChainLocked, EvmNonceLane.refreshEvmLaneFromChainLocked.
  apply wp_bind, wp_ask, wp_bind, wp_deref. destruct (inflightRefresh _); [done|].
  apply wp_bind, wp_assign, wp_bind, wp_try. unfold refreshTask. apply wp_bind. unfold wp at 1. simpl.
  destruct (dep_fetchChainNonce deps _ _) as [raw|e] eqn:E; [|done]. apply Hc in E.
  apply wp_bind. eapply wp_mono; [by apply (wp_nothrow (fun _ _ => True)); auto with nothrow| |done].
  intros active w2 _. apply wp_bind, wp_lift; [|done]. intros highest _.
  repeat (apply wp_bind, wp_assign). apply wp_ret.
  destruct (0 <=? raw); lia.
Qed.
End Blocks.

#[export] Existing Instance keeps_blocked_quiet.

(** ** Reading a broadcast back *)

Section Recover.
Context {S : Type} `{!CoordinationStore S} (deps : Deps) (r : NonceLaneCoordinationRecord).
Context (lane : EvmNonceLane) (h : string) (expired : bool).
Let k := rec_laneKey r.
Let n := rec_nonce r.
Let input := evmLaneToReserveNonceInput lane.

Context (Hworks : store_works deps) (Hlife : rec_lifecycle r = DurableBroadcastAccepted h).
Context (Hhash : is_0x_hex 64 h = true) (Hkey : nonceLaneKey (EvmLane lane) = k).
Context (Hchain : not_passed deps n input).
(** The chain knows the transaction as pending, or not yet, or does not answer. *)
Context (Htx : forall i, dep_fetchBroadcastTransactionStatus deps i input h <> Ok StatusFinalized /\
  (expired = true -> dep_fetchBroadcastTransactionStatus deps i input h <> Ok StatusMissing)).

Definition kept (w : World S) : Prop := present (Some r) w /\ blocks k n w.

Lemma kept_live r0 : Some r = Some r0 -> live_for deps r0.
Proof. intros [= <-]. left. unfold is_broadcast_accepted. by rewrite Hlife. Qed.

Lemma kept_wp {A} (m : M (World S) A) w :
  steps (keeps_present (Some r)) m -> steps (keeps_blocked k n) m -> kept w ->
  wp m (fun _ w' => kept w') (fun _ w' => kept w') w.
Proof.
  intros Hp Hb [Hw1 Hw2]. specialize (Hp w Hw1). specialize (Hb w Hw2). unfold wp.
  destruct (m w) as [[a|e] w']; by split.
Qed.

Lemma wp_call {A} (f : nat -> Result A) Q E (w : World S) :
  (forall a, f (tick w) = Ok a -> Q a (next_tick w)) ->
  (forall e, f (tick w) = Throw e -> E e (next_tick w)) -> wp (call f) Q E w.
Proof. unfold wp, call. destruct (f (tick w)); auto. Qed.

Lemma hash_ok : requireRecoveredEvmTxHash h = Ok h.
Proof.
  destruct (is_0x_hex_canonical _ _ Hhash) as [Ht Hl]. unfold requireRecoveredEvmTxHash.
  by rewrite Ht, Hl, Hhash.
Qed.

Lemma kept_reconcile : forall w, kept w ->
  wp (orNull (reconcileEvmLaneLocked deps lane))
    (fun status w' => kept w' /\ match status with Some st => st_chainNextNonce st <= n | None => True end)
    (fun _ _ => False) w.
Proof.
  intros w Hw. unfold orNull. apply wp_try, wp_bind.
  pose proof (kept_wp _ w (present_reconcile deps (Some r) Hworks kept_live lane)
    (blocked_reconcile deps k n lane Hkey Hchain) Hw) as H1.
  pose proof (reconcile_reports deps n lane w Hchain) as H2.
  eapply wp_mono; [exact (wp_conj _ _ _ _ _ _ H1 H2)|..]; simpl.
  - intros st w' H. by apply wp_ret.
  - intros e w' [H _]. by apply wp_ret.
Qed.

Lemma kept_recover w :
  present (Some r) w -> wp (recoverEvmRecord deps r lane expired) (fun _ w' => kept w')
    (fun _ w' => kept w') w.
Proof.
  intros Hw. unfold recoverEvmRecord. rewrite Hlife, hash_ok.
  apply wp_bind, wp_modify, wp_bind, wp_lift_ok, wp_bind, wp_assign.
  set (w1 := rset _ _ _). assert (kept w1) as H1.
  { split; [exact Hw|]. unfold blocks, w1. rewrite rget_rset. eexists. simpl.
    by rewrite mget_mset_eq. }
  apply wp_bind. unfold orNull at 1. apply wp_try, wp_bind.
  assert (kept (next_tick w1)) as H1' by exact H1. clearbody w1.
  assert (forall status w2, kept w2 -> status <> Some StatusFinalized ->
    (expired = true -> status <> Some StatusMissing) ->
    wp (status' <- orNull (reconcileEvmLaneLocked deps lane) ;;
        let chainAdvanced :=
          match status' with Some st => rec_nonce r <? st_chainNextNonce st | None => false end in
        let stale := match status with Some StatusMissing => expired | _ => false end in
        (if chainAdvanced || stale
         then assign (evmStateRef (rec_laneKey r)) (fun s =>
                set_evmInFlight (mdel (Z_to_string (rec_nonce r)) (evmInFlight s)) s) ;;
              removeRecord deps (rec_leaseId r)
         else ret tt) ;;
        emitLaneReconciled (EvmLane lane)
          (if stale then "startup_recovery_dropped_transaction" else "startup_recovery")
          (if stale then Some h else None))
      (fun _ w' => kept w') (fun _ w' => kept w') w2) as Hfinish.
  { intros status w2 H2 Hf Hm. apply wp_bind. eapply wp_mono; [by apply kept_reconcile| |done].
    intros st w3 [H3 Hst]. cbv zeta.
    replace (match st with Some st => rec_nonce r <? st_chainNextNonce st | None => false end) with false
      by (destruct st as [st|]; [symmetry; apply Z.ltb_ge, Hst|done]).
    replace (match status with Some StatusMissing => expired | _ => false end) with false
      by (destruct status as [[]|]; try done; destruct expired; naive_solver).
    apply wp_bind, wp_ret. exact H3. }
  destruct (Htx (tick w1)) as [Hf Hm]. apply wp_call.
  - intros status Es. unfold input in *. rewrite Es in Hf, Hm. apply wp_ret.
    destruct status; [done|by apply (Hfinish (Some StatusPending))|].
    apply (Hfinish (Some StatusMissing)); [done|done|]. intros He. by destruct (Hm He).
  - intros e _. apply wp_ret. by apply (Hfinish None).
Qed.
End Recover.

(** Recovery of a broadcast that the chain has not passed, and whose transaction it
    does not report as final (nor, once the record has run out, as missing), keeps
    the durable record and puts the nonce back in flight, so the next reservation on
    the lane does not reuse it. *)
Theorem recovered_broadcast_blocks {S} `{!CoordinationStore S} (deps : Deps)
    (r : NonceLaneCoordinationRecord) (lane : EvmNonceLane) (h : string) (expired : bool) (w : World S) :
  store_works deps -> rec_lifecycle r = DurableBroadcastAccepted h -> is_0x_hex 64 h = true ->
  nonceLaneKey (EvmLane lane) = rec_laneKey r ->
  not_passed deps (rec_nonce r) (evmLaneToReserveNonceInput lane) ->
  (forall i, dep_fetchBroadcastTransactionStatus deps i (evmLaneToReserveNonceInput lane) h
      <> Ok StatusFinalized /\
    (expired = true ->
     dep_fetchBroadcastTransactionStatus deps i (evmLaneToReserveNonceInput lane) h <> Ok StatusMissing)) ->
  present (Some r) w ->
  let w' := (recoverEvmRecord deps r lane expired w).2 in
  (rec_leaseId r, r) ∈ view (store w') /\ blocks (rec_laneKey r) (rec_nonce r) w'.
Proof.
  intros Hworks Hlife Hhash Hkey Hchain Htx Hw w'.
  pose proof (kept_recover deps r lane h expired Hworks Hlife Hhash Hkey Hchain Htx w Hw) as H.
  unfold wp, w' in *. destruct (recoverEvmRecord deps r lane expired w) as [[a|e] w1];
    destruct H as [(_ & _ & Hr) Hb]; (split; [by apply Hr|done]).
Qed.

(** ** Example: nonce 8 was broadcast, its record has run out and the transaction is pending. *)

Definition broadcast_record : NonceLaneCoordinationRecord :=
  example_record (DurableBroadcastAccepted example_tx_hash) 8 10.

Lemma recovered_broadcast_blocks_witness :
  let w' := (recoverEvmRecord (example_deps "runtime-1" "r1" 1000) broadcast_record example_lane true
    (initialWorld example_table)).2 in
  ("lease-8", broadcast_record) ∈ view (store w') /\ blocks (rec_laneKey broadcast_record) 8 w'.
Proof.
  apply (recovered_broadcast_blocks (example_deps "runtime-1" "r1" 1000) broadcast_record example_lane
    example_tx_hash true (initialWorld example_table));
    [by apply example_works|reflexivity|reflexivity|reflexivity|split; [vm_compute; discriminate|]
    |intros i; split; [discriminate|discriminate]|].
  - intros i c Hc. injection Hc as <-. vm_compute. discriminate.
  - split; [apply example_table_ok|split; [by intros ???%not_elem_of_nil|]].
    intros r0 Hr. injection Hr as <-. apply mget_elem. vm_compute. reflexivity.
Defined.
