(* ===== verification/CommitQueue.v ===== *)
(** * The threshold commit queue

    [signingEngine/threshold/commitQueueShared.ts] and its two clients,
    [threshold/ecdsa/signingQueue.ts] and [threshold/ed25519/commitQueue.ts]:
    operations on the same threshold key material run one after the other, in the
    order in which they arrived, up to a bounded depth and a bounded wait.

    The queue objects of the source are mutable and shared: the map names one
    object per key, and a suspended [drainQueueForKey] keeps its own reference to
    the object it drains, also after the map has forgotten it.  So the objects are
    the cells of a heap, the suspended drains are processes, and the program is a
    step relation whose steps are the code between two suspension points. *)

From S2P Require Import Prelude JsValues.
Local Open Scope Z_scope.

(** ** Data *)

(** [reason] of [makeCancelledError]. *)
Inductive CancelledReason : Type := Cancelled | QueueCleared.

Record QueueLabels : Type := mkLabels { lb_queue : string; lb_queuedOperation : string }.

(** The arguments of [withThresholdCommitQueue], without the task and the abort
    callback, whose answers are inputs of the steps. *)
Record QueueArgs : Type := mkQueueArgs {
  qa_queueKey : string;
  qa_labels : QueueLabels;
  qa_owner : string;
  qa_enabled : bool;
  qa_maxQueueLength : JsVal;
  qa_queueTimeoutMs : JsVal;
}.

(** One queued call: a [ThresholdCommitQueueItem] with the variables of its
    closure.  [qc_timer] is the time its armed timer is due, [qc_settled] what its
    promise settled with. *)
Record QueuedCall : Type := mkQueuedCall {
  qc_key : string;
  qc_labels : QueueLabels;
  qc_owner : string;
  qc_state : nat;
  qc_maxQueueLength : Z;
  qc_enqueuedAtMs : Z;
  qc_timeoutMs : Z;
  qc_timer : option Z;
  qc_settled : option (Result JsVal);
}.

(** [ThresholdCommitQueueState]; an item is named by the index of its call. *)
Record QueueState : Type := mkQueueState { qs_running : bool; qs_items : list nat }.

(** Where a [drainQueueForKey] is suspended: its item's task is running, or the
    item's [run] has ended, with the error it threw if it threw one. *)
Inductive DrainPhase : Type := InTask | RunEnded (error : option Exn).

Record Drain : Type := mkDrain {
  dr_key : string;
  dr_state : nat;
  dr_item : nat;
  dr_phase : DrainPhase;
}.

(** [cq_starts] logs the tasks that were started, the latest last: the object,
    the call and the time.  [cq_lost] logs the calls whose abort callback threw
    while the queue asked it. *)
Record CommitQueues : Type := mkQueues {
  cq_clock : Z;
  cq_heap : list QueueState;
  cq_byKey : list (string * nat);
  cq_calls : list QueuedCall;
  cq_drains : list Drain;
  cq_starts : list (nat * nat * Z);
  cq_lost : list nat;
}.

(** What the abort callbacks answer to the check of the drain and to the check at
    the head of [run]; a call without a callback answers [Ok false]. *)
Record AbortAnswers : Type := mkAnswers {
  abort_in_drain : nat -> Result bool;
  abort_in_run : nat -> Result bool;
}.

Definition DEFAULT_MAX_QUEUE_LENGTH : Z := 8.
Definition DEFAULT_QUEUE_TIMEOUT_MS : Z := 45000.

(** ** Helpers *)

Definition normalizeQueueLimit (value : JsVal) (fallback : Z) : Z :=
  normalizeBoundedPositiveInteger value fallback (Some 1) None.

Definition thresholdCommitQueueError (code message : string) : Exn :=
  JsCodedError code ("[SigningEngine] " +:+ message).

Definition overflowError (labels : QueueLabels) (owner queueKey : string) (max : Z) : Exn :=
  thresholdCommitQueueError "commit_queue_overflow"
    (lb_queue labels +:+ " overflow for " +:+ owner +:+ " (queueKey=" +:+ queueKey +:+ ", max="
     +:+ Z_to_string max +:+ ")").

Definition makeCancelledError (c : QueuedCall) (reason : CancelledReason) : Exn :=
  thresholdCommitQueueError "cancelled"
    (lb_queuedOperation (qc_labels c) +:+ " cancelled for " +:+ qc_owner c +:+ " (queueKey="
     +:+ qc_key c
     +:+ match reason with QueueCleared => ", queue_cleared" | Cancelled => "" end +:+ ")").

Definition makeTimeoutError (c : QueuedCall) : Exn :=
  thresholdCommitQueueError "commit_queue_timeout"
    (lb_queue (qc_labels c) +:+ " timeout for " +:+ qc_owner c +:+ " (queueKey=" +:+ qc_key c
     +:+ ", waited>" +:+ Z_to_string (qc_timeoutMs c) +:+ "ms before start)").

(** [items.splice(items.indexOf(item), 1)] when the item is there. *)
Fixpoint splice_item (i : nat) (items : list nat) : list nat :=
  match items with
  | [] => []
  | j :: rest => if (j =? i)%nat then rest else j :: splice_item i rest
  end.

(** *** Updates of the state *)

Definition with_heap (h : list QueueState) (s : CommitQueues) : CommitQueues :=
  mkQueues (cq_clock s) h (cq_byKey s) (cq_calls s) (cq_drains s) (cq_starts s) (cq_lost s).
Definition with_byKey (m : list (string * nat)) (s : CommitQueues) : CommitQueues :=
  mkQueues (cq_clock s) (cq_heap s) m (cq_calls s) (cq_drains s) (cq_starts s) (cq_lost s).
Definition with_calls (cs : list QueuedCall) (s : CommitQueues) : CommitQueues :=
  mkQueues (cq_clock s) (cq_heap s) (cq_byKey s) cs (cq_drains s) (cq_starts s) (cq_lost s).
Definition with_drains (ds : list Drain) (s : CommitQueues) : CommitQueues :=
  mkQueues (cq_clock s) (cq_heap s) (cq_byKey s) (cq_calls s) ds (cq_starts s) (cq_lost s).
Definition with_starts (l : list (nat * nat * Z)) (s : CommitQueues) : CommitQueues :=
  mkQueues (cq_clock s) (cq_heap s) (cq_byKey s) (cq_calls s) (cq_drains s) l (cq_lost s).
Definition with_lost (l : list nat) (s : CommitQueues) : CommitQueues :=
  mkQueues (cq_clock s) (cq_heap s) (cq_byKey s) (cq_calls s) (cq_drains s) (cq_starts s) l.

Definition set_items (r : nat) (items : list nat) (s : CommitQueues) : CommitQueues :=
  with_heap (alter (fun q => mkQueueState (qs_running q) items) r (cq_heap s)) s.
Definition set_running (r : nat) (b : bool) (s : CommitQueues) : CommitQueues :=
  with_heap (alter (fun q => mkQueueState b (qs_items q)) r (cq_heap s)) s.
Definition upd_call (i : nat) (f : QueuedCall -> QueuedCall) (s : CommitQueues) : CommitQueues :=
  with_calls (alter f i (cq_calls s)) s.

Definition isSettled (c : QueuedCall) : bool :=
  match qc_settled c with Some _ => true | None => false end.

(** [clearQueueItemTimeout] and [clearTimeoutHandle]: the timer of the item and of
    the closure are the same handle. *)
Definition disarm (c : QueuedCall) : QueuedCall :=
  mkQueuedCall (qc_key c) (qc_labels c) (qc_owner c) (qc_state c) (qc_maxQueueLength c)
    (qc_enqueuedAtMs c) (qc_timeoutMs c) None (qc_settled c).

(** [resolveOnce] and [rejectOnce]. *)
Definition settleOnce (result : Result JsVal) (c : QueuedCall) : QueuedCall :=
  if isSettled c then c
  else
    mkQueuedCall (qc_key c) (qc_labels c) (qc_owner c) (qc_state c) (qc_maxQueueLength c)
      (qc_enqueuedAtMs c) (qc_timeoutMs c) None (Some result).

Definition clearQueueItemTimeout (i : nat) : CommitQueues -> CommitQueues := upd_call i disarm.
Definition rejectOnce (i : nat) (error : Exn) : CommitQueues -> CommitQueues :=
  upd_call i (settleOnce (Throw error)).
Definition resolveOnce (i : nat) (value : JsVal) : CommitQueues -> CommitQueues :=
  upd_call i (settleOnce (Ok value)).

(** [if (queueByKey.get(queueKey) === state) queueByKey.delete(queueKey)]. *)
Definition forget_if_same (key : string) (r : nat) (s : CommitQueues) : CommitQueues :=
  if bool_decide (mget key (cq_byKey s) = Some r) then with_byKey (mdel key (cq_byKey s)) s else s.

(** ** Operations *)

Definition getOrCreateQueueState (key : string) (s : CommitQueues) : nat * CommitQueues :=
  match mget key (cq_byKey s) with
  | Some existing => (existing, s)
  | None =>
      let created := length (cq_heap s) in
      (created,
       with_byKey (mset key created (cq_byKey s))
         (with_heap (cq_heap s ++ [mkQueueState false []]) s))
  end.

(** The loop of [drainQueueForKey] on the object [r], up to the next suspension or
    the end of the function, [finally] block included; the last case of the block
    starts a drain of what the map then holds.  [None] is a loop that did not end
    within its fuel. *)
Fixpoint drain_loop (fuel : nat) (env : AbortAnswers) (key : string) (r : nat) (s : CommitQueues)
    : option CommitQueues :=
  match fuel with
  | O => None
  | S fuel =>
      match qs_items <$> cq_heap s !! r with
      | None => Some s
      | Some [] => Some (forget_if_same key r (set_running r false s))
      | Some (i :: rest) =>
          let s := set_items r rest s in
          match cq_calls s !! i with
          | None => drain_loop fuel env key r s
          | Some c =>
              if isSettled c then drain_loop fuel env key r s
              else
                let s := clearQueueItemTimeout i s in
                match abort_in_drain env i with
                | Throw _ =>
                    let s := set_running r false (with_lost (cq_lost s ++ [i]) s) in
                    match rest with
                    | [] => Some (forget_if_same key r s)
                    | _ :: _ =>
                        match mget key (cq_byKey s) with
                        | None => Some s
                        | Some r' =>
                            if default true (qs_running <$> cq_heap s !! r') then Some s
                            else drain_loop fuel env key r' (set_running r' true s)
                        end
                    end
                | Ok true =>
                    drain_loop fuel env key r (rejectOnce i (makeCancelledError c Cancelled) s)
                | Ok false =>
                    if cq_clock s - qc_enqueuedAtMs c >? qc_timeoutMs c
                    then drain_loop fuel env key r (rejectOnce i (makeTimeoutError c) s)
                    else
                      Some
                        match abort_in_run env i with
                        | Throw e =>
                            with_drains (cq_drains s ++ [mkDrain key r i (RunEnded (Some e))]) s
                        | Ok true =>
                            with_drains (cq_drains s ++
                              [mkDrain key r i (RunEnded (Some (makeCancelledError c Cancelled)))]) s
                        | Ok false =>
                            with_starts (cq_starts s ++ [(r, i, cq_clock s)])
                              (with_drains (cq_drains s ++ [mkDrain key r i InTask]) s)
                        end
                end
          end
      end
  end.

(** The number of queued calls, and fuel for looking at each of them once. *)
Definition queued_total (h : list QueueState) : nat :=
  sum_list_with (fun q => length (qs_items q)) h.

Definition drain_fuel (s : CommitQueues) : nat := S (queued_total (cq_heap s)).

Definition drainQueueForKey (env : AbortAnswers) (key : string) (s : CommitQueues)
    : option CommitQueues :=
  match mget key (cq_byKey s) with
  | None => Some s
  | Some r =>
      if default true (qs_running <$> cq_heap s !! r) then Some s
      else drain_loop (drain_fuel s) env key r (set_running r true s)
  end.

(** The continuation of a drain whose [await item.run()] has settled. *)
Definition resumeDrain (env : AbortAnswers) (n : nat) (s : CommitQueues) : option CommitQueues :=
  match cq_drains s !! n with
  | Some (mkDrain key r i (RunEnded error)) =>
      let s := with_drains (delete n (cq_drains s)) s in
      drain_loop (drain_fuel s) env key r
        match error with Some e => rejectOnce i e s | None => s end
  | _ => Some s
  end.

(** The task of a drain's item settles: [resolveOnce] on success, and the drain's
    [await] is due in either case. *)
Definition taskSettles (n : nat) (result : Result JsVal) (s : CommitQueues) : CommitQueues :=
  match cq_drains s !! n with
  | Some (mkDrain key r i InTask) =>
      match result with
      | Ok value =>
          with_drains (<[n := mkDrain key r i (RunEnded None)]> (cq_drains s)) (resolveOnce i value s)
      | Throw e => with_drains (<[n := mkDrain key r i (RunEnded (Some e))]> (cq_drains s)) s
      end
  | _ => s
  end.

(** The timer callback of the call [i]. *)
Definition timerFires (i : nat) (s : CommitQueues) : CommitQueues :=
  match cq_calls s !! i with
  | None => s
  | Some c =>
      let s := upd_call i disarm s in
      if isSettled c then s
      else
        let r := qc_state c in
        let s :=
          match cq_heap s !! r with
          | Some q => set_items r (splice_item i (qs_items q)) s
          | None => s
          end in
        let s := rejectOnce i (makeTimeoutError c) s in
        match cq_heap s !! r with
        | Some (mkQueueState false []) => forget_if_same (qc_key c) r s
        | _ => s
        end
  end.

(** The body of the inner loop of [clearThresholdCommitQueue]. *)
Definition clearItem (s : CommitQueues) (i : nat) : CommitQueues :=
  match cq_calls s !! i with
  | Some c => rejectOnce i (makeCancelledError c QueueCleared) (clearQueueItemTimeout i s)
  | None => s
  end.

Definition clearState (s : CommitQueues) (r : nat) : CommitQueues :=
  match cq_heap s !! r with
  | Some q => set_items r [] (List.fold_left clearItem (qs_items q) s)
  | None => s
  end.

Definition clearThresholdCommitQueue (s : CommitQueues) : CommitQueues :=
  with_byKey [] (List.fold_left clearState (mvalues (cq_byKey s)) s).

(** What a call of [withThresholdCommitQueue] does before it first suspends: it
    throws, it runs its task outside the queue, or it waits as call [i]. *)
Inductive QueueOutcome : Type :=
| Refused (error : Exn)
| RunsDirectly
| Waits (i : nat).

Definition withThresholdCommitQueue (env : AbortAnswers) (args : QueueArgs) (s : CommitQueues)
    : option (QueueOutcome * CommitQueues) :=
  let labels := qa_labels args in
  let key := trim (qa_queueKey args) in
  if negb (nonempty key) then
    Some (Refused (JsError ("[SigningEngine] " +:+ lb_queue labels +:+
                              " requires non-empty queueKey")), s)
  else if negb (qa_enabled args) then Some (RunsDirectly, s)
  else
    let maxQueueLength := normalizeQueueLimit (qa_maxQueueLength args) DEFAULT_MAX_QUEUE_LENGTH in
    let queueTimeoutMs := normalizeQueueLimit (qa_queueTimeoutMs args) DEFAULT_QUEUE_TIMEOUT_MS in
    let '(r, s) := getOrCreateQueueState key s in
    let q := default (mkQueueState false []) (cq_heap s !! r) in
    let queueDepth := Z.of_nat (length (qs_items q)) + (if qs_running q then 1 else 0) in
    if queueDepth >=? maxQueueLength then
      Some (Refused (overflowError labels (qa_owner args) key maxQueueLength), s)
    else
      let i := length (cq_calls s) in
      let now := cq_clock s in
      let item :=
        mkQueuedCall key labels (qa_owner args) r maxQueueLength now queueTimeoutMs
          (Some (now + setTimeout_delay queueTimeoutMs)) None in
      let s := with_calls (cq_calls s ++ [item]) s in
      let s := set_items r (qs_items q ++ [i]) s in
      (fun s => (Waits i, s)) <$> drainQueueForKey env key s.

(** *** The two clients *)

Definition ecdsaLabels : QueueLabels :=
  mkLabels "threshold ECDSA signing queue" "threshold ECDSA queued signing operation".
Definition ed25519Labels : QueueLabels :=
  mkLabels "threshold Ed25519 commit queue" "threshold Ed25519 queued commit".

Definition withThresholdEcdsaSigningQueue (env : AbortAnswers) (queueKey walletId : string)
    (enabled : bool) (maxQueueLength queueTimeoutMs : JsVal)
    : CommitQueues -> option (QueueOutcome * CommitQueues) :=
  withThresholdCommitQueue env
    (mkQueueArgs queueKey ecdsaLabels (trim walletId) enabled maxQueueLength queueTimeoutMs).

Definition withThresholdEd25519CommitQueue (env : AbortAnswers) (queueKey nearAccountId : string)
    (enabled : bool) (maxQueueLength queueTimeoutMs : JsVal)
    : CommitQueues -> option (QueueOutcome * CommitQueues) :=
  withThresholdCommitQueue env
    (mkQueueArgs queueKey ed25519Labels nearAccountId enabled maxQueueLength queueTimeoutMs).

(** *** The key of a queue *)

(** The fields of [MpcMaterialActivationRef] a queue key is made of. *)
Record MaterialActivation : Type := mkMaterial {
  ma_activationId : string;
  ma_capability : string;
  ma_materialOwner : string;
}.

Definition resolveThresholdCommitQueueKey (m : MaterialActivation) : string :=
  join ":" ["material"; encodeURIComponent (ma_materialOwner m);
            encodeURIComponent (ma_capability m); encodeURIComponent (ma_activationId m)].
