(* ===== verification/CommitQueueInvariant.v ===== *)
(** * The threshold commit queue: its invariant

    What holds of the queues between two steps and while a drain executes, and that
    every operation of [CommitQueue] preserves it. *)

From S2P Require Import Prelude ListFacts JsValues CommitQueue.
Local Open Scope Z_scope.

(** ** Invariant

    [act] names the object, and the key, whose drain is executing; between steps it
    is [None].  A drain that executes or is suspended holds its object. *)

Definition holds (act : option (nat * string)) (s : CommitQueues) (r : nat) (k : string) : Prop :=
  act = Some (r, k) \/ exists d, d ∈ cq_drains s /\ dr_state d = r /\ dr_key d = k.

(** What the phase of a drain says about its item's call. *)
Definition phase_ok (ph : DrainPhase) (c : QueuedCall) : Prop :=
  match ph with
  | InTask | RunEnded (Some _) => qc_settled c = None
  | RunEnded None => qc_settled c <> None
  end.

Definition drain_ok (s : CommitQueues) (d : Drain) : Prop :=
  exists c, cq_calls s !! dr_item d = Some c /\ qc_state c = dr_state d /\
            qc_timer c = None /\ phase_ok (dr_phase d) c.

(** A queued call is not settled and can still time out, and fewer calls than it
    allowed for are in front of it. *)
Definition queued_ok (act : option (nat * string)) (s : CommitQueues) (r p i : nat) : Prop :=
  exists c, cq_calls s !! i = Some c /\ qc_state c = r /\ qc_settled c = None /\
    qc_timer c = Some (qc_enqueuedAtMs c + setTimeout_delay (qc_timeoutMs c)) /\
    Z.of_nat p + (if bool_decide (fst <$> act = Some r) then 0 else 1) < qc_maxQueueLength c.

(** An unsettled call waits, runs, or its abort callback threw. *)
Definition accounted (s : CommitQueues) (i : nat) (c : QueuedCall) : Prop :=
  (exists q, cq_heap s !! qc_state c = Some q /\ i ∈ qs_items q) \/
  (exists d, d ∈ cq_drains s /\ dr_item d = i) \/ (i ∈ cq_lost s /\ qc_timer c = None).

(** The calls of the object [r] in the order in which their tasks were started. *)
Definition started_in (r : nat) (s : CommitQueues) : list nat :=
  (fun e => e.1.2) <$> filter (fun e => e.1.1 = r) (cq_starts s).

(** A key names the object of the drain that works on it, unless it was cleared. *)
Definition names_own (act : option (nat * string)) (s : CommitQueues) : Prop :=
  forall r k, holds act s r k -> mget k (cq_byKey s) = Some r.

Record queue_inv (cleared : bool) (act : option (nat * string)) (s : CommitQueues) : Prop := {
  inv_nodup : NoDup (map dr_state (cq_drains s));
  inv_act : forall r k, act = Some (r, k) -> r ∉ map dr_state (cq_drains s);
  inv_holds : forall r k, holds act s r k -> qs_running <$> cq_heap s !! r = Some true;
  inv_running : forall r, qs_running <$> cq_heap s !! r = Some true -> exists k, holds act s r k;
  inv_byKey : forall k r, mget k (cq_byKey s) = Some r -> holds act s r k;
  inv_items : forall r q, cq_heap s !! r = Some q -> qs_items q <> [] ->
    exists k, mget k (cq_byKey s) = Some r;
  inv_order : forall r q, cq_heap s !! r = Some q -> StronglySorted lt (started_in r s ++ qs_items q);
  inv_queued : forall r q p i, cq_heap s !! r = Some q -> qs_items q !! p = Some i ->
    queued_ok act s r p i;
  inv_drain : forall d, d ∈ cq_drains s -> drain_ok s d;
  inv_calls : forall i c, cq_calls s !! i = Some c -> qc_settled c = None -> accounted s i c;
  inv_started : forall r i t, (r, i, t) ∈ cq_starts s ->
    exists c, cq_calls s !! i = Some c /\ qc_state c = r /\
      t - qc_enqueuedAtMs c <= qc_timeoutMs c;
  inv_state : forall i c, cq_calls s !! i = Some c -> (qc_state c < length (cq_heap s))%nat;
  inv_armed : forall i c, cq_calls s !! i = Some c -> qc_timer c <> None -> qc_settled c = None;
  inv_named : cleared = false -> names_own act s;
}.

(** *** Lookups after updates *)

Lemma running_set_items (h : list QueueState) r items r' :
  qs_running <$> alter (fun q => mkQueueState (qs_running q) items) r h !! r' =
  qs_running <$> h !! r'.
Proof. rewrite lookup_alter_spec. case_decide; [|done]. by destruct (h !! r'). Qed.

Lemma running_set_running (h : list QueueState) r b r' :
  qs_running <$> alter (fun q => mkQueueState b (qs_items q)) r h !! r' =
  if decide (r = r') then (fun _ => b) <$> h !! r' else qs_running <$> h !! r'.
Proof. rewrite lookup_alter_spec. case_decide; [|done]. by destruct (h !! r'). Qed.

Lemma heap_set_items (h : list QueueState) r items r' q :
  alter (fun q => mkQueueState (qs_running q) items) r h !! r' = Some q ->
  (r' = r /\ exists q0, h !! r = Some q0 /\ q = mkQueueState (qs_running q0) items) \/
  (r' <> r /\ h !! r' = Some q).
Proof.
  rewrite lookup_alter_spec. case_decide; [|by right]. subst.
  intros (q0 & -> & Hq)%fmap_Some. left. eauto.
Qed.

Lemma heap_set_running (h : list QueueState) r b r' q :
  alter (fun q => mkQueueState b (qs_items q)) r h !! r' = Some q ->
  exists q0, h !! r' = Some q0 /\ qs_items q = qs_items q0.
Proof.
  rewrite lookup_alter_spec. case_decide; [|by eauto].
  intros (q0 & -> & ->)%fmap_Some. eauto.
Qed.

Lemma splice_item_sublist i l : splice_item i l `sublist_of` l.
Proof.
  induction l as [|j l IH]; simpl; [done|]. destruct (j =? i)%nat; [by apply sublist_cons|].
  by apply sublist_skip.
Qed.

Lemma started_elem r i s : i ∈ started_in r s -> exists t, (r, i, t) ∈ cq_starts s.
Proof.
  unfold started_in.
  intros ([[r' i'] t] & -> & [Hr Hi]%list_elem_of_filter)%list_elem_of_fmap. simpl in *.
  subst. eauto.
Qed.

(** *** Basic consequences *)

Section Invariant.
Context {cl : bool} {act : option (nat * string)} {s : CommitQueues} (Hinv : queue_inv cl act s).

Lemma inv_items_ids r q : cq_heap s !! r = Some q -> NoDup (qs_items q).
Proof.
  intros Hq. pose proof (inv_order _ _ _ Hinv _ _ Hq) as Hs.
  apply (StronglySorted_sublist_app [] (qs_items q)) in Hs; [|by apply sublist_inserts_l].
  by apply sorted_nodup.
Qed.

(** A call is queued in one object only, and not while a drain has it. *)
Lemma inv_queued_once r q r' q' i :
  cq_heap s !! r = Some q -> i ∈ qs_items q ->
  cq_heap s !! r' = Some q' -> i ∈ qs_items q' -> r' = r.
Proof.
  intros Hq [p Hp]%list_elem_of_lookup Hq' [p' Hp']%list_elem_of_lookup.
  destruct (inv_queued _ _ _ Hinv _ _ _ _ Hq Hp) as (c & Hc & <- & _).
  destruct (inv_queued _ _ _ Hinv _ _ _ _ Hq' Hp') as (c' & Hc' & <- & _). congruence.
Qed.

Lemma inv_queued_no_drain r q i d :
  cq_heap s !! r = Some q -> i ∈ qs_items q -> d ∈ cq_drains s -> dr_item d <> i.
Proof.
  intros Hq [p Hp]%list_elem_of_lookup Hd <-.
  destruct (inv_queued _ _ _ Hinv _ _ _ _ Hq Hp) as (c & Hc & _ & _ & Ht & _).
  destruct (inv_drain _ _ _ Hinv _ Hd) as (c' & Hc' & _ & Ht' & _). congruence.
Qed.

Lemma inv_queued_elem r q i :
  cq_heap s !! r = Some q -> i ∈ qs_items q -> exists p, queued_ok act s r p i.
Proof. intros Hq [p Hp]%list_elem_of_lookup. exists p. by eapply inv_queued. Qed.
End Invariant.

(** The fields of a call that never change. *)
Definition same_call (c c' : QueuedCall) : Prop :=
  qc_state c' = qc_state c /\ qc_enqueuedAtMs c' = qc_enqueuedAtMs c /\
  qc_timeoutMs c' = qc_timeoutMs c /\ qc_maxQueueLength c' = qc_maxQueueLength c.

(** Queued calls that leave the queue without being run: an expired timer, an
    abort, a cleared queue, an abort callback that throws. *)
Lemma inv_drop cl act s r q items calls lost :
  queue_inv cl act s -> cq_heap s !! r = Some q -> items `sublist_of` qs_items q ->
  (forall i c, cq_calls s !! i = Some c -> i ∈ qs_items q -> i ∉ items ->
     exists c', calls !! i = Some c' /\ same_call c c' /\ qc_timer c' = None /\
                (qc_settled c' <> None \/ i ∈ lost)) ->
  (forall i, i ∉ qs_items q \/ i ∈ items -> calls !! i = cq_calls s !! i) ->
  (forall i, i ∈ cq_lost s -> i ∈ lost) ->
  queue_inv cl act (with_calls calls (with_lost lost (set_items r items s))).
Proof.
  intros Hinv Hq Hsub Hgone Hkept Hlost.
  assert (forall i c, cq_calls s !! i = Some c -> exists c', calls !! i = Some c' /\ same_call c c')
    as Hsame.
  { intros i c Hc. destruct (decide (i ∈ qs_items q /\ i ∉ items)) as [[Hi Hni]|Hn].
    - destruct (Hgone i c) as (c' & ? & ? & _); eauto.
    - exists c. rewrite Hkept by (destruct (decide (i ∈ items)); tauto). by split. }
  assert (forall i c', calls !! i = Some c' -> exists c, cq_calls s !! i = Some c) as Hback.
  { intros i c' Hc'. destruct (decide (i ∈ qs_items q)) as [Hi|Hi].
    - destruct (inv_queued_elem Hinv _ _ _ Hq Hi) as (p & c & Hc & _). eauto.
    - rewrite Hkept in Hc' by auto. eauto. }
  split; simpl.
  - apply Hinv.
  - apply Hinv.
  - intros r' k. rewrite running_set_items. apply (inv_holds _ _ _ Hinv).
  - intros r'. rewrite running_set_items. apply (inv_running _ _ _ Hinv).
  - apply Hinv.
  - intros r' q' [(-> & q0 & Hq0 & ->)|[? Hq']]%heap_set_items Hne; [|by eapply Hinv].
    simplify_eq. eapply Hinv; [done|]. intros E. rewrite E in Hsub.
    apply sublist_nil_r in Hsub. done.
  - intros r' q' [(-> & q0 & Hq0 & ->)|[? Hq']]%heap_set_items; [|by apply Hinv].
    simplify_eq. simpl. eapply StronglySorted_sublist_app; [done|]. by apply Hinv.
  - intros r' q' p i [(-> & q0 & Hq0 & ->)|[? Hq']]%heap_set_items Hp; simplify_eq; simpl in Hp.
    + destruct (sublist_lookup_ge _ _ _ _ Hsub Hp) as (p' & Hle & Hp').
      destruct (inv_queued _ _ _ Hinv _ _ _ _ Hq Hp') as (c & Hc & Hst & Hse & Hti & Hmax).
      exists c. simpl. rewrite Hkept by (right; by eapply list_elem_of_lookup_2).
      split_and!; [done..|lia].
    + destruct (inv_queued _ _ _ Hinv _ _ _ _ Hq' Hp) as (c & Hc & Hrest).
      exists c. simpl. rewrite Hkept; [done|]. left. intros Hi.
      apply list_elem_of_lookup_2 in Hp. by pose proof (inv_queued_once Hinv _ _ _ _ _ Hq Hi Hq' Hp).
  - intros d Hd. destruct (inv_drain _ _ _ Hinv _ Hd) as (c & Hc & Hrest). exists c. simpl.
    rewrite Hkept; [done|]. left. intros Hi. by eapply (inv_queued_no_drain Hinv).
  - intros i c' Hc' Hnone. destruct (Hback _ _ Hc') as [c Hc].
    destruct (decide (i ∈ qs_items q /\ i ∉ items)) as [[Hi Hni]|Hn].
    { destruct (Hgone i c Hc Hi Hni) as (c1 & ? & _ & ? & [?|?]); simplify_eq.
      right. by right. }
    rewrite Hkept in Hc' by (destruct (decide (i ∈ items)); tauto). clear Hc.
    destruct (inv_calls _ _ _ Hinv _ _ Hc' Hnone) as [(q1 & Hq1 & Hi)|[Hd|Hl]].
    + left. unfold accounted. cbn. rewrite lookup_alter_spec. case_decide as Hr; [|by eauto].
      subst. rewrite Hq in Hq1. simplify_eq. rewrite Hq. eexists; split; [done|]. simpl.
      destruct (decide (i ∈ items)); tauto.
    + right. by left.
    + right. right. destruct Hl as [Hl ?]. split; [by apply Hlost|done].
  - intros r' i t Hi. destruct (inv_started _ _ _ Hinv _ _ _ Hi) as (c & Hc & Hst & Ht).
    destruct (Hsame _ _ Hc) as (c' & Hc' & (E1 & E2 & E3 & _)).
    exists c'. split_and!; [done|congruence|lia].
  - intros i c' Hc'. destruct (Hback _ _ Hc') as [c Hc].
    destruct (Hsame _ _ Hc) as (c1 & ? & (E1 & _)). simplify_eq.
    rewrite length_alter, E1. by eapply Hinv.
  - intros i c' Hc' Harm. destruct (Hback _ _ Hc') as [c Hc].
    destruct (decide (i ∈ qs_items q /\ i ∉ items)) as [[Hi Hni]|Hn].
    { destruct (Hgone i c Hc Hi Hni) as (c1 & ? & _ & ? & _). by simplify_eq. }
    rewrite Hkept in Hc' by (destruct (decide (i ∈ items)); tauto). by eapply Hinv.
  - apply Hinv.
Qed.

(** The object an executing drain works on is the one its key names. *)
Lemma act_key cl r key k s :
  queue_inv cl (Some (r, key)) s -> mget k (cq_byKey s) = Some r -> k = key.
Proof.
  intros Hinv Hk. destruct (inv_byKey _ _ _ Hinv _ _ Hk) as [[= ->]|(d & Hd & Hr & _)]; [done|].
  destruct (inv_act _ _ _ Hinv r key eq_refl). rewrite <- Hr. apply list_elem_of_fmap. eauto.
Qed.

(** The head of the queue leaves it rejected, or lost. *)
Lemma inv_shift_reject cl r key s q i rest c error :
  queue_inv cl (Some (r, key)) s -> cq_heap s !! r = Some q -> qs_items q = i :: rest ->
  cq_calls s !! i = Some c -> qc_settled c = None ->
  queue_inv cl (Some (r, key)) (rejectOnce i error (clearQueueItemTimeout i (set_items r rest s))).
Proof.
  intros Hinv Hq Hit Hc Hs.
  apply (inv_drop _ _ _ _ q rest (alter (settleOnce (Throw error)) i (alter disarm i (cq_calls s)))
           (cq_lost s) Hinv Hq).
  - rewrite Hit. by apply sublist_cons.
  - intros j c' Hc' Hj Hnj. rewrite Hit in Hj. apply elem_of_cons in Hj as [->|?]; [|done].
    simplify_eq. rewrite !list_lookup_alter_eq, Hc. simpl. eexists; split; [done|].
    unfold settleOnce, isSettled. simpl. rewrite Hs. by split_and!; [..|left].
  - intros j Hj. rewrite !lookup_alter_spec. case_decide; [|done]. subst. exfalso.
    pose proof (inv_items_ids Hinv _ _ Hq) as Hn. rewrite Hit in Hn, Hj.
    apply NoDup_cons in Hn as [Hn _]. set_solver.
  - done.
Qed.

Lemma inv_shift_lost cl r key s q i rest c :
  queue_inv cl (Some (r, key)) s -> cq_heap s !! r = Some q -> qs_items q = i :: rest ->
  cq_calls s !! i = Some c ->
  queue_inv cl (Some (r, key))
    (with_lost (cq_lost s ++ [i]) (clearQueueItemTimeout i (set_items r rest s))).
Proof.
  intros Hinv Hq Hit Hc.
  apply (inv_drop _ _ _ _ q rest (alter disarm i (cq_calls s)) (cq_lost s ++ [i]) Hinv Hq).
  - rewrite Hit. by apply sublist_cons.
  - intros j c' Hc' Hj Hnj. rewrite Hit in Hj. apply elem_of_cons in Hj as [->|?]; [|done].
    simplify_eq. rewrite list_lookup_alter_eq, Hc. simpl. eexists; split; [done|].
    split_and!; [done..|]. right. set_solver.
  - intros j Hj. rewrite lookup_alter_spec. case_decide; [|done]. subst. exfalso.
    pose proof (inv_items_ids Hinv _ _ Hq) as Hn. rewrite Hit in Hn, Hj.
    apply NoDup_cons in Hn as [Hn _]. set_solver.
  - set_solver.
Qed.

(** The queue is empty: the drain ends and its object is forgotten. *)
Lemma inv_done cl r key s q :
  queue_inv cl (Some (r, key)) s -> cq_heap s !! r = Some q -> qs_items q = [] ->
  queue_inv cl None (forget_if_same key r (set_running r false s)).
Proof.
  intros Hinv Hq Hit. pose proof (inv_act _ _ _ Hinv r key eq_refl) as Hnr.
  assert (forall r' k, holds None s r' k -> r' <> r /\ holds (Some (r, key)) s r' k) as Hother.
  { intros r' k [?|(d & Hd & Hr & Hk)]; [done|]. split; [|right; eauto].
    intros ->. apply Hnr. rewrite <- Hr. apply list_elem_of_fmap. eauto. }
  set (byKey := if bool_decide (mget key (cq_byKey s) = Some r) then mdel key (cq_byKey s)
                else cq_byKey s).
  assert (forall k r', mget k byKey = Some r' -> mget k (cq_byKey s) = Some r' /\ (k, r') <> (key, r))
    as Hget.
  { intros k r'. unfold byKey. case_bool_decide as Hb.
    - destruct (decide (k = key)) as [->|Hne]; [by rewrite mget_mdel_eq|].
      rewrite mget_mdel_ne by done. split; [done|congruence].
    - split; congruence. }
  assert (forall k r', mget k (cq_byKey s) = Some r' -> r' <> r -> mget k byKey = Some r') as Hput.
  { intros k r' Hk Hr. unfold byKey. case_bool_decide; [|done].
    rewrite mget_mdel_ne; [done|]. congruence. }
  assert (forget_if_same key r (set_running r false s) =
          with_byKey byKey (set_running r false s)) as ->.
  { unfold forget_if_same, byKey. simpl. by case_bool_decide. }
  split; simpl.
  - apply Hinv.
  - done.
  - intros r' k Hh. destruct (Hother _ _ Hh) as [Hne Hh'].
    rewrite running_set_running, decide_False by done. by eapply Hinv.
  - intros r'. rewrite running_set_running. case_decide; subst.
    + rewrite Hq. done.
    + intros Hr. destruct (inv_running _ _ _ Hinv _ Hr) as [k [[=]|Hd]]; [done|]. exists k. by right.
  - intros k r' [Hk Hne]%Hget. destruct (inv_byKey _ _ _ Hinv _ _ Hk) as [[= -> ->]|Hd]; [done|].
    by right.
  - intros r' q' (q0 & Hq0 & Hi)%heap_set_running Hne. rewrite Hi in Hne.
    destruct (inv_items _ _ _ Hinv _ _ Hq0 Hne) as [k Hk]. exists k. apply Hput; [done|].
    intros ->. by simplify_eq.
  - intros r' q' (q0 & Hq0 & ->)%heap_set_running. by apply Hinv.
  - intros r' q' p i (q0 & Hq0 & Hi)%heap_set_running Hp. rewrite Hi in Hp.
    destruct (inv_queued _ _ _ Hinv _ _ _ _ Hq0 Hp) as (c & Hc & Hst & Hse & Hti & Hmax).
    exists c. split_and!; [done..|]. simpl in *. case_bool_decide as Hr; [|done].
    simplify_eq. by rewrite Hit in Hp.
  - intros d Hd. by apply (inv_drain _ _ _ Hinv).
  - intros i c Hc Hs. destruct (inv_calls _ _ _ Hinv _ _ Hc Hs) as [(q1 & Hq1 & Hi)|Hrest];
      [|by right].
    left. simpl. rewrite lookup_alter_spec. case_decide; [|by eauto].
    subst. rewrite Hq1. eexists; split; [done|]. done.
  - apply Hinv.
  - intros i c Hc. rewrite length_alter. by eapply Hinv.
  - apply Hinv.
  - intros Hcl r' k Hh. destruct (Hother _ _ Hh) as [Hne Hh'].
    apply Hput; [|done]. by apply (inv_named _ _ _ Hinv Hcl).
Qed.

Lemma started_in_app r l s :
  started_in r (with_starts (cq_starts s ++ l) s) =
  started_in r s ++ ((fun e => e.1.2) <$> filter (fun e => e.1.1 = r) l).
Proof. unfold started_in. simpl. by rewrite filter_app, fmap_app. Qed.

(** The log after the item [i] of [r] was run, or its [run] threw before its task. *)
Definition logged (r i : nat) (c : QueuedCall) (s : CommitQueues) (starts : list (nat * nat * Z))
    : Prop :=
  starts = cq_starts s \/
  (starts = cq_starts s ++ [(r, i, cq_clock s)] /\
   cq_clock s - qc_enqueuedAtMs c <= qc_timeoutMs c).

Lemma logged_order r i c s starts r' items :
  logged r i c s starts ->
  (r' = r -> StronglySorted lt (started_in r s ++ i :: items)) ->
  (r' <> r -> StronglySorted lt (started_in r' s ++ items)) ->
  StronglySorted lt (started_in r' (with_starts starts s) ++ items).
Proof.
  intros [->|[-> _]] He Hn.
  - destruct (decide (r' = r)) as [->|Hne]; [|by apply Hn].
    eapply StronglySorted_sublist_app; [|by apply He]. by apply sublist_cons.
  - rewrite started_in_app. destruct (decide (r' = r)) as [->|Hne].
    + rewrite filter_cons_True by done. rewrite filter_nil. simpl. rewrite <- (assoc_L (++)).
      by apply He.
    + rewrite filter_cons_False by (simpl; congruence). rewrite filter_nil. simpl.
      rewrite app_nil_r. by apply Hn.
Qed.

Lemma logged_elem r i c s starts r' j t :
  logged r i c s starts -> (r', j, t) ∈ starts ->
  (r', j, t) ∈ cq_starts s \/
  (r' = r /\ j = i /\ t = cq_clock s /\ cq_clock s - qc_enqueuedAtMs c <= qc_timeoutMs c).
Proof.
  intros [->|[-> Hle]]; [by left|]. intros [Hj|Hj]%elem_of_app; [by left|].
  apply list_elem_of_singleton in Hj. simplify_eq. by right.
Qed.

(** A drain that suspends goes on holding its object. *)
Lemma holds_suspend r key i ph s s' r' k :
  cq_drains s' = cq_drains s ++ [mkDrain key r i ph] ->
  holds None s' r' k <-> holds (Some (r, key)) s r' k.
Proof.
  unfold holds. intros ->. split.
  - intros [?|(d & [Hd|Hd]%elem_of_app & Hr & Hk)]; [done|right; eauto|].
    apply list_elem_of_singleton in Hd as ->. simpl in *. subst. by left.
  - intros [[= -> ->]|(d & Hd & Hr & Hk)]; right.
    + eexists. split; [apply elem_of_app; right; by apply list_elem_of_singleton|done].
    + exists d. split; [apply elem_of_app; by left|done].
Qed.

(** Where the head of an executing drain's queue is not. *)
Lemma head_elsewhere cl r key s q i rest :
  queue_inv cl (Some (r, key)) s -> cq_heap s !! r = Some q -> qs_items q = i :: rest ->
  (i ∉ rest) /\
  (forall r' q', r' <> r -> cq_heap s !! r' = Some q' -> i ∉ qs_items q') /\
  (forall d, d ∈ cq_drains s -> dr_item d <> i).
Proof.
  intros Hinv Hq Hit. split_and!.
  - pose proof (inv_items_ids Hinv _ _ Hq) as Hn. rewrite Hit in Hn. by apply NoDup_cons in Hn as [].
  - intros r' q' Hne Hq' Hi. apply Hne. eapply (inv_queued_once Hinv); [done| |done..].
    rewrite Hit. set_solver.
  - intros d Hd. eapply (inv_queued_no_drain Hinv); [done| |done]. rewrite Hit. set_solver.
Qed.

(** The calls behind the head move up by one when it is taken. *)
Lemma queued_behind_head cl r key s q i rest r' q' p j :
  queue_inv cl (Some (r, key)) s -> cq_heap s !! r = Some q -> qs_items q = i :: rest ->
  alter (fun q => mkQueueState (qs_running q) rest) r (cq_heap s) !! r' = Some q' ->
  qs_items q' !! p = Some j ->
  j <> i /\ queued_ok None s r' p j.
Proof.
  intros Hinv Hq Hit Hq' Hp. destruct (head_elsewhere _ _ _ _ _ _ _ Hinv Hq Hit) as (Hni & Hnq & _).
  apply heap_set_items in Hq' as [(-> & q0 & Hq0 & ->)|[Hne Hq']]; simpl in Hp.
  - simplify_eq. split; [intros ->; apply Hni; by eapply list_elem_of_lookup_2|].
    assert (qs_items q !! S p = Some j) as Hp' by by rewrite Hit.
    destruct (inv_queued _ _ _ Hinv _ _ _ _ Hq Hp') as (c' & Hc' & Hst & Hse & Hti & Hmax).
    exists c'. split_and!; [done..|]. simpl in Hmax |- *.
    rewrite bool_decide_eq_true_2 in Hmax by done. lia.
  - split; [intros ->; eapply Hnq; [done..|]; by eapply list_elem_of_lookup_2|].
    destruct (inv_queued _ _ _ Hinv _ _ _ _ Hq' Hp) as (c' & Hc' & Hst & Hse & Hti & Hmax).
    exists c'. split_and!; [done..|]. simpl in Hmax |- *.
    rewrite bool_decide_eq_false_2 in Hmax by congruence. lia.
Qed.

(** The head of the queue leaves it to be run: the drain suspends. *)
Lemma inv_start cl r key s q i rest c ph starts :
  queue_inv cl (Some (r, key)) s -> cq_heap s !! r = Some q -> qs_items q = i :: rest ->
  cq_calls s !! i = Some c -> qc_state c = r -> qc_settled c = None -> ph <> RunEnded None ->
  logged r i c s starts ->
  queue_inv cl None
    (with_starts starts
       (with_drains (cq_drains s ++ [mkDrain key r i ph])
          (clearQueueItemTimeout i (set_items r rest s)))).
Proof.
  intros Hinv Hq Hit Hc Hst Hs Hph Hlog.
  destruct (head_elsewhere _ _ _ _ _ _ _ Hinv Hq Hit) as (_ & _ & Hnd).
  split; simpl.
  - rewrite map_app. apply NoDup_app. split_and!; [apply Hinv| |apply NoDup_singleton].
    intros r' Hr' ->%list_elem_of_singleton. by apply (inv_act _ _ _ Hinv r key eq_refl).
  - done.
  - intros r' k Hh. rewrite running_set_items.
    apply (holds_suspend r key i ph s) in Hh; [|done]. by eapply Hinv.
  - intros r'. rewrite running_set_items. intros [k Hk]%(inv_running _ _ _ Hinv).
    exists k. by eapply (holds_suspend r key i ph s).
  - intros k r' Hk. eapply (holds_suspend r key i ph s); [done|]. by apply Hinv.
  - intros r' q' [(-> & q0 & Hq0 & ->)|[? Hq']]%heap_set_items Hne; [|by eapply Hinv].
    simplify_eq. eapply Hinv; [done|]. by rewrite Hit.
  - intros r' q' [(-> & q0 & Hq0 & ->)|[Hne Hq']]%heap_set_items.
    + simplify_eq. eapply logged_order; [done| |done].
      intros _. simpl. rewrite <- Hit. by apply Hinv.
    + apply (logged_order r i c s starts r'); [done|by intros ->|]. intros _. by apply Hinv.
  - intros r' q' p j Hq' Hp.
    destruct (queued_behind_head _ _ _ _ _ _ _ _ _ _ _ Hinv Hq Hit Hq' Hp) as (Hne & c' & Hc' & Hok).
    exists c'. simpl. by rewrite list_lookup_alter_ne.
  - intros d [Hd| ->%list_elem_of_singleton]%elem_of_app.
    + destruct (inv_drain _ _ _ Hinv _ Hd) as (c' & Hc' & Hrest). exists c'. simpl.
      by rewrite list_lookup_alter_ne by (intros E; by destruct (Hnd d Hd)).
    + exists (disarm c). simpl. rewrite list_lookup_alter_eq, Hc. by destruct ph as [|[]].
  - intros j c'. destruct (decide (i = j)) as [<-|Hne].
    { intros _ _. right. left. exists (mkDrain key r i ph). split; [|done]. simpl. set_solver. }
    rewrite list_lookup_alter_ne by done. intros Hc' Hs'.
    destruct (inv_calls _ _ _ Hinv _ _ Hc' Hs') as [(q1 & Hq1 & Hi)|[(d & Hd & Hi)|Hl]].
    + left. simpl. rewrite lookup_alter_spec. case_decide as Hr; [|by eauto].
      rewrite Hq1. eexists; split; [done|]. simpl. rewrite <- Hr, Hq in Hq1. simplify_eq.
      rewrite Hit in Hi. set_solver.
    + right. left. exists d. split; [|done]. simpl. set_solver.
    + right. by right.
  - intros r' j t [Hj|(-> & -> & -> & Hle)]%(logged_elem _ _ _ _ _ _ _ _ Hlog).
    + destruct (inv_started _ _ _ Hinv _ _ _ Hj) as (c' & Hc' & Hrest).
      rewrite lookup_alter_spec. case_decide; [|by eauto]. subst. rewrite Hc'. by eexists.
    + rewrite list_lookup_alter_eq, Hc. by eexists.
  - intros j c'. rewrite lookup_alter_spec, length_alter. case_decide; [|apply Hinv].
    subst. rewrite Hc. intros [= <-]. by apply (inv_state _ _ _ Hinv j c).
  - intros j c'. rewrite lookup_alter_spec. case_decide; [|apply Hinv].
    intros (c0 & _ & ->)%fmap_Some. done.
  - intros Hcl r' k Hh. apply (holds_suspend r key i ph s) in Hh; [|done].
    by apply (inv_named _ _ _ Hinv Hcl).
Qed.

(** *** The loop ends, in a state that satisfies the invariant *)

Lemma queued_total_alter f r q (h : list QueueState) :
  h !! r = Some q ->
  (queued_total (alter f r h) + length (qs_items q) = queued_total h + length (qs_items (f q)))%nat.
Proof. apply (sum_list_with_alter (fun q => length (qs_items q))). Qed.

Lemma queued_total_items r q (h : list QueueState) :
  h !! r = Some q -> (length (qs_items q) <= queued_total h)%nat.
Proof.
  revert r. unfold queued_total. induction h as [|q0 h IH]; intros [|r]; simpl; [done..| |].
  - intros [= ->]. lia.
  - intros Hr%IH. lia.
Qed.

(** Promises settle once; what a call was made with stays. *)
Definition calls_evolve (cs cs' : list QueuedCall) : Prop :=
  forall i c, cs !! i = Some c ->
    exists c', cs' !! i = Some c' /\ same_call c c' /\
               (qc_settled c <> None -> qc_settled c' = qc_settled c).

#[global] Instance calls_evolve_preorder : PreOrder calls_evolve.
Proof.
  split.
  - intros cs i c Hc. exists c. by split_and!.
  - intros cs1 cs2 cs3 H12 H23 i c Hc.
    destruct (H12 i c Hc) as (c2 & Hc2 & (? & ? & ? & ?) & Hs2).
    destruct (H23 i c2 Hc2) as (c3 & Hc3 & (? & ? & ? & ?) & Hs3).
    exists c3. split_and!; [done|split_and!; congruence|].
    intros Hs. rewrite Hs3; [by apply Hs2|]. by rewrite Hs2.
Qed.

Lemma calls_evolve_alter f i cs :
  (forall c, same_call c (f c) /\ (qc_settled c <> None -> qc_settled (f c) = qc_settled c)) ->
  calls_evolve cs (alter f i cs).
Proof.
  intros Hf j c Hc. rewrite lookup_alter_spec, Hc. case_decide.
  - exists (f c). split; [done|]. apply Hf.
  - exists c. by split_and!.
Qed.

Lemma calls_evolve_disarm i cs : calls_evolve cs (alter disarm i cs).
Proof. by apply calls_evolve_alter. Qed.

Lemma calls_evolve_settle i result cs : calls_evolve cs (alter (settleOnce result) i cs).
Proof.
  apply calls_evolve_alter. intros c. unfold settleOnce, isSettled.
  destruct (qc_settled c) eqn:E; by split.
Qed.

Lemma calls_evolve_app cs l : calls_evolve cs (cs ++ l).
Proof. intros i c Hc. exists c. split_and!; [by apply lookup_app_l_Some|done..]. Qed.

Lemma calls_evolve_reject i result cs :
  calls_evolve cs (alter (settleOnce result) i (alter disarm i cs)).
Proof. etransitivity; [apply calls_evolve_disarm | apply calls_evolve_settle]. Qed.

#[local] Hint Resolve calls_evolve_disarm calls_evolve_settle calls_evolve_app
  calls_evolve_reject : core.

(** Each queued call still has three steps to make, a running one two. *)
Definition drain_weight (d : Drain) : nat :=
  match dr_phase d with InTask => 2 | RunEnded _ => 1 end.

Definition weight (s : CommitQueues) : nat :=
  3 * queued_total (cq_heap s) + sum_list_with drain_weight (cq_drains s).

(** What a synchronous piece of a drain does to the state. *)
Definition drained (s s' : CommitQueues) : Prop :=
  calls_evolve (cq_calls s) (cq_calls s') /\ (weight s' <= weight s)%nat /\
  cq_clock s' = cq_clock s.

#[global] Instance drained_preorder : PreOrder drained.
Proof.
  split.
  - intros s. by split_and!.
  - intros s1 s2 s3 (? & ? & ?) (? & ? & ?). split_and!; [by etransitivity|lia|congruence].
Qed.

Lemma weight_shift r q i rest s :
  cq_heap s !! r = Some q -> qs_items q = i :: rest ->
  (weight (set_items r rest s) + 3 = weight s)%nat.
Proof.
  intros Hq Hit. unfold weight. simpl.
  pose proof (queued_total_alter (fun q => mkQueueState (qs_running q) rest) r q _ Hq) as Ht.
  rewrite Hit in Ht. simpl in Ht. lia.
Qed.

Lemma drained_shift r q i rest s calls lost :
  cq_heap s !! r = Some q -> qs_items q = i :: rest -> calls_evolve (cq_calls s) calls ->
  drained s (with_calls calls (with_lost lost (set_items r rest s))).
Proof.
  intros Hq Hit Hc. split_and!; [done| |done]. pose proof (weight_shift _ _ _ _ _ Hq Hit).
  change (weight (set_items r rest s) <= weight s)%nat. lia.
Qed.

Lemma drained_suspend r q i rest s d starts :
  cq_heap s !! r = Some q -> qs_items q = i :: rest ->
  drained s (with_starts starts
    (with_drains (cq_drains s ++ [d]) (clearQueueItemTimeout i (set_items r rest s)))).
Proof.
  intros Hq Hit. split_and!; [apply calls_evolve_disarm| |done].
  pose proof (weight_shift _ _ _ _ _ Hq Hit) as Hw. unfold weight in *. simpl in *.
  rewrite sum_list_with_app. simpl.
  assert (drain_weight d <= 2)%nat by (unfold drain_weight; case_match; lia). lia.
Qed.

Lemma queued_total_running r b (h : list QueueState) :
  queued_total (alter (fun q => mkQueueState b (qs_items q)) r h) = queued_total h.
Proof.
  destruct (h !! r) as [q|] eqn:Hq.
  - pose proof (queued_total_alter (fun q => mkQueueState b (qs_items q)) r q _ Hq). simpl in *. lia.
  - f_equal. apply list_eq. intros j. rewrite lookup_alter_spec. case_decide; [|done].
    subst. by rewrite Hq.
Qed.

Lemma weight_set_running r b s : weight (set_running r b s) = weight s.
Proof.
  unfold weight. simpl. by rewrite queued_total_running.
Qed.

Lemma drained_done key r s : drained s (forget_if_same key r (set_running r false s)).
Proof.
  assert (drained s (set_running r false s)) as H.
  { split_and!; [done| |done]. by rewrite weight_set_running. }
  unfold forget_if_same. by case_bool_decide.
Qed.

Lemma set_running_twice r s q :
  cq_heap s !! r = Some q -> qs_running q = true ->
  set_running r true (set_running r false s) = s.
Proof.
  intros Hq Hr. destruct s as [clock h m cs ds st lost]. unfold set_running, with_heap. simpl in *.
  f_equal. apply list_eq. intros j. rewrite !lookup_alter_spec. case_decide; [|done].
  subst. rewrite Hq. simpl. rewrite <- Hr. by destruct q.
Qed.

Lemma drain_loop_ok cl env key fuel : forall r s q,
  queue_inv cl (Some (r, key)) s -> cq_heap s !! r = Some q -> (length (qs_items q) < fuel)%nat ->
  exists s', drain_loop fuel env key r s = Some s' /\ queue_inv cl None s' /\ drained s s'.
Proof.
  induction fuel as [|fuel IH]; intros r s q Hinv Hq Hlen; [lia|]. simpl. rewrite Hq. simpl.
  destruct (qs_items q) as [|i rest] eqn:Hit.
  { eexists. split; [done|]. split; [by eapply inv_done|]. by eapply drained_done. }
  destruct (inv_queued _ _ _ Hinv r q 0 i Hq) as (c & Hc & Hst & Hse & _); [by rewrite Hit|].
  rewrite Hc. unfold isSettled. rewrite Hse.
  assert (forall s1, queue_inv cl (Some (r, key)) s1 ->
    cq_heap s1 = cq_heap (set_items r rest s) -> drained s s1 ->
    exists s', drain_loop fuel env key r s1 = Some s' /\ queue_inv cl None s' /\ drained s s')
    as Hnext.
  { intros s1 H1 Hh1 Hd1.
    destruct (IH r s1 (mkQueueState (qs_running q) rest) H1) as (s' & ? & ? & ?).
    - rewrite Hh1. simpl. by rewrite list_lookup_alter_eq, Hq.
    - simpl in *. lia.
    - exists s'. split_and!; [done..|]. by etransitivity. }
  destruct (abort_in_drain env i) as [[]|e].
  - apply Hnext; [by eapply inv_shift_reject|done|]. eapply drained_shift; eauto.
  - destruct (_ >? _) eqn:Hto.
    { apply Hnext; [by eapply inv_shift_reject|done|]. eapply drained_shift; eauto. }
    eexists. split; [done|].
    destruct (abort_in_run env i) as [[]|e].
    + split; [|by eapply drained_suspend].
      by eapply (inv_start cl r key s q i rest c _ (cq_starts s)); eauto; left.
    + split; [|by eapply drained_suspend].
      eapply (inv_start cl r key s q i rest c); eauto. right. split; [done|].
      simpl in Hto. lia.
    + split; [|by eapply drained_suspend].
      by eapply (inv_start cl r key s q i rest c _ (cq_starts s)); eauto; left.
  - pose proof (inv_shift_lost _ _ _ _ _ _ _ _ Hinv Hq Hit Hc) as Hinv1.
    set (s1 := with_lost _ _) in *.
    assert (cq_heap s1 !! r = Some (mkQueueState (qs_running q) rest)) as Hq1
      by (simpl; by rewrite list_lookup_alter_eq, Hq).
    assert (qs_running q = true) as Hrun.
    { pose proof (inv_holds _ _ _ Hinv r key (or_introl eq_refl)) as H. rewrite Hq in H.
      by injection H. }
    assert (drained s s1) as Hd1 by (eapply drained_shift; eauto).
    destruct rest as [|j rest].
    + eexists. split; [done|]. split; [by eapply inv_done|]. etransitivity; [done|].
      by eapply drained_done.
    + destruct (inv_items _ _ _ Hinv1 _ _ Hq1) as [k Hk]; [done|].
      pose proof (act_key _ _ _ _ _ Hinv1 Hk) as ->.
      change (mget key (cq_byKey s) = Some r) in Hk.
      rewrite Hk. replace (default true _) with false.
      * rewrite (set_running_twice r s1 _ Hq1 Hrun). by apply Hnext.
      * symmetry. simpl. by rewrite list_lookup_alter_eq, list_lookup_alter_eq, Hq.
Qed.

(** *** The steps preserve the invariant *)

Lemma inv_clock cl s now :
  queue_inv cl None s ->
  queue_inv cl None (mkQueues now (cq_heap s) (cq_byKey s) (cq_calls s) (cq_drains s) (cq_starts s)
                    (cq_lost s)).
Proof. intros Hinv. split; apply Hinv. Qed.

(** The suspended drain [d] in another phase. *)
Definition rephased (ph : DrainPhase) (d : Drain) : Drain :=
  mkDrain (dr_key d) (dr_state d) (dr_item d) ph.

(** Drains keep what they hold when their phases change. *)
Lemma holds_rephase n d ph s s' r k :
  cq_drains s !! n = Some d -> cq_drains s' = <[n := rephased ph d]> (cq_drains s) ->
  holds None s' r k <-> holds None s r k.
Proof.
  intros Hn Hs. unfold holds. rewrite Hs. split; (intros [?|(d' & Hd & Hr & Hk)]; [done|right]).
  - apply (elem_insert _ _ _ _ _ Hn) in Hd as [->|(m & _ & Hm)].
    + exists d. split; [by eapply list_elem_of_lookup_2|done].
    + exists d'. split; [by eapply list_elem_of_lookup_2|done].
  - apply list_elem_of_lookup in Hd as [m Hm].
    destruct (decide (m = n)) as [->|Hne]; [exists (rephased ph d)|exists d'];
      (split; [apply (elem_insert _ _ _ _ _ Hn)|]); eauto; by simplify_eq.
Qed.

Lemma inv_rephase cl s n d ph calls :
  queue_inv cl None s -> cq_drains s !! n = Some d ->
  (forall i, i <> dr_item d -> calls !! i = cq_calls s !! i) ->
  (forall c, cq_calls s !! dr_item d = Some c ->
     exists c', calls !! dr_item d = Some c' /\ same_call c c' /\ qc_timer c' = None /\ phase_ok ph c') ->
  queue_inv cl None
    (with_drains (<[n := rephased ph d]> (cq_drains s)) (with_calls calls s)).
Proof.
  intros Hinv Hn Hkept Hitem.
  assert (d ∈ cq_drains s) as Hd by by eapply list_elem_of_lookup_2.
  destruct (inv_drain _ _ _ Hinv _ Hd) as (c & Hc & Hst & Hti & Hph).
  destruct (Hitem c Hc) as (c' & Hc' & (E1 & E2 & E3 & E4) & Hti' & Hph').
  assert (forall s' r k, cq_drains s' = <[n := rephased ph d]> (cq_drains s) ->
    holds None s' r k <-> holds None s r k) as Hh by (intros; by eapply holds_rephase).
  assert (forall i c1, calls !! i = Some c1 -> i = dr_item d /\ c1 = c' \/ i <> dr_item d /\ cq_calls s !! i = Some c1)
    as Hback.
  { intros i c1 Hc1. destruct (decide (i = dr_item d)) as [->|Hne]; [left; by simplify_eq|].
    right. by rewrite <- Hkept. }
  set (ds := <[n := _]> _).
  assert (map dr_state ds = map dr_state (cq_drains s)) as Hmap.
  { unfold ds. rewrite list_fmap_insert. simpl. apply list_insert_id. by rewrite list_lookup_fmap, Hn. }
  split; simpl.
  - rewrite Hmap. apply Hinv.
  - done.
  - intros r k Hr. apply Hh in Hr; [|done]. by eapply Hinv.
  - intros r [k Hk]%(inv_running _ _ _ Hinv). exists k. by apply Hh.
  - intros k r Hk. apply Hh; [done|]. by apply Hinv.
  - apply Hinv.
  - apply Hinv.
  - intros r q p i Hq Hp. destruct (inv_queued _ _ _ Hinv _ _ _ _ Hq Hp) as (c1 & Hc1 & Hrest).
    exists c1. simpl. rewrite Hkept; [done|]. intros ->.
    apply list_elem_of_lookup_2 in Hp. by eapply (inv_queued_no_drain Hinv).
  - intros d1 [->|(m & Hne & Hm)]%(elem_insert _ _ _ _ _ Hn).
    + exists c'. split_and!; [done|simpl; congruence|done|done].
    + destruct (inv_drain _ _ _ Hinv d1) as (c1 & Hc1 & Hst1 & Hrest);
        [by eapply list_elem_of_lookup_2|].
      exists c1. simpl. rewrite Hkept; [done|]. intros E.
      apply Hne. apply (NoDup_lookup _ m n (dr_state d) (inv_nodup _ _ _ Hinv)).
      * rewrite list_lookup_fmap, Hm. simpl. congruence.
      * by rewrite list_lookup_fmap, Hn.
  - intros i c1 [[-> ->]|[Hne Hc1]]%Hback Hs.
    + right. left. exists (rephased ph d). split; [|done]. apply (elem_insert _ _ _ _ _ Hn). by left.
    + destruct (inv_calls _ _ _ Hinv _ _ Hc1 Hs) as [?|[(d1 & Hd1 & Hi)|?]]; [by left| |by right; right].
      right. left. apply list_elem_of_lookup in Hd1 as [m Hm].
      exists d1. split; [|done]. apply (elem_insert _ _ _ _ _ Hn). right.
      exists m. split; [|done]. intros ->. by simplify_eq.
  - intros r i t Hi. destruct (inv_started _ _ _ Hinv _ _ _ Hi) as (c1 & Hc1 & Hr & Ht).
    destruct (decide (i = dr_item d)) as [->|Hne].
    + simplify_eq. exists c'. split_and!; [done|congruence|lia].
    + exists c1. by rewrite Hkept.
  - intros i c1 [[-> ->]|[Hne Hc1]]%Hback; [rewrite E1|]; by eapply Hinv.
  - intros i c1 [[-> ->]|[Hne Hc1]]%Hback; [done|]. by eapply Hinv.
  - intros Hcl r k Hr. apply Hh in Hr; [|done]. by apply (inv_named _ _ _ Hinv Hcl).
Qed.

(** A drain whose item is done goes on executing. *)
Lemma inv_resume cl s n d :
  queue_inv cl None s -> cq_drains s !! n = Some d -> dr_phase d = RunEnded None ->
  queue_inv cl (Some (dr_state d, dr_key d)) (with_drains (delete n (cq_drains s)) s).
Proof.
  intros Hinv Hn Hph.
  assert (delete n (cq_drains s) ++ [d] ≡ₚ cq_drains s) as Hperm.
  { rewrite (delete_Permutation _ _ _ Hn) at 2. by rewrite Permutation_app_comm. }
  assert (forall r k, holds (Some (dr_state d, dr_key d)) (with_drains (delete n (cq_drains s)) s) r k <->
                      holds None s r k) as Hh.
  { intros r k.
    rewrite <- (holds_suspend _ _ (dr_item d) (dr_phase d) _
      (with_drains (delete n (cq_drains s) ++ [rephased (dr_phase d) d]) s)) by done.
    unfold holds, rephased. simpl. destruct d. by setoid_rewrite Hperm. }
  assert (forall d', d' ∈ delete n (cq_drains s) -> d' ∈ cq_drains s) as Hsub.
  { intros d' Hd'. rewrite <- Hperm. set_solver. }
  assert (NoDup (map dr_state (delete n (cq_drains s) ++ [d]))) as Hnd.
  { rewrite Hperm. apply Hinv. }
  rewrite map_app in Hnd. apply NoDup_app in Hnd as (Hnd & Hnot & _).
  split; simpl.
  - done.
  - intros r k [= <- <-] Hin. apply (Hnot _ Hin). set_solver.
  - intros r k Hr%Hh. by eapply Hinv.
  - intros r [k Hk]%(inv_running _ _ _ Hinv). exists k. by apply Hh.
  - intros k r Hk. apply Hh. by apply Hinv.
  - apply Hinv.
  - apply Hinv.
  - intros r q p i Hq Hp. destruct (inv_queued _ _ _ Hinv _ _ _ _ Hq Hp) as (c & Hc & Hst & Hse & Hti & Hm).
    exists c. split_and!; [done..|]. rewrite bool_decide_eq_false_2 in Hm by done.
    case_bool_decide; lia.
  - intros d' Hd'. by apply (inv_drain _ _ _ Hinv), Hsub.
  - intros i c Hc Hs. destruct (inv_calls _ _ _ Hinv _ _ Hc Hs) as [?|[(d' & Hd' & Hi)|?]];
      [by left| |by right; right].
    right. left. exists d'. split; [|done]. simpl. rewrite <- Hperm in Hd'.
    apply elem_of_app in Hd' as [?| ->%list_elem_of_singleton]; [done|].
    destruct (inv_drain _ _ _ Hinv d) as (c' & Hc' & _ & _ & Hok); [by eapply list_elem_of_lookup_2|].
    rewrite Hph in Hok. simpl in Hok. congruence.
  - apply Hinv.
  - apply Hinv.
  - apply Hinv.
  - intros Hcl r k Hr%Hh. by apply (inv_named _ _ _ Hinv Hcl).
Qed.

Lemma taskSettles_inv cl n result s :
  queue_inv cl None s -> queue_inv cl None (taskSettles n result s).
Proof.
  intros Hinv. unfold taskSettles. destruct (cq_drains s !! n) as [[key r i []]|] eqn:Hn; [|done..].
  destruct (inv_drain _ _ _ Hinv (mkDrain key r i InTask)) as (c & Hc & Hst & Hti & Hs);
    [by eapply list_elem_of_lookup_2|]. simpl in *.
  destruct result as [v|e].
  - apply (inv_rephase cl s n _ (RunEnded None) (alter (settleOnce (Ok v)) i (cq_calls s)) Hinv Hn); simpl.
    + intros j Hj. by rewrite list_lookup_alter_ne.
    + intros c' Hc'. rewrite list_lookup_alter_eq, Hc'. simplify_eq. eexists; split; [done|].
      unfold settleOnce, isSettled. by rewrite Hs.
  - apply (inv_rephase cl s n _ (RunEnded (Some e)) (cq_calls s) Hinv Hn); [done|]. simpl.
    intros c' Hc'. simplify_eq. by exists c.
Qed.

Lemma drain_fuel_enough r q s : cq_heap s !! r = Some q -> (length (qs_items q) < drain_fuel s)%nat.
Proof. intros Hq%queued_total_items. unfold drain_fuel. lia. Qed.

(** What the rest of a drain leaves, once its item is done. *)
Lemma resume_ok cl env n d s :
  queue_inv cl None s -> cq_drains s !! n = Some d -> dr_phase d = RunEnded None ->
  exists s', drain_loop (drain_fuel s) env (dr_key d) (dr_state d)
               (with_drains (delete n (cq_drains s)) s) = Some s' /\
    queue_inv cl None s' /\ calls_evolve (cq_calls s) (cq_calls s') /\
    (weight s' < weight s)%nat /\ cq_clock s' = cq_clock s.
Proof.
  intros Hinv Hn Hph. pose proof (inv_resume _ _ _ _ Hinv Hn Hph) as Hact.
  pose proof (inv_holds _ _ _ Hact _ _ (or_introl eq_refl)) as Hq.
  apply fmap_Some in Hq as (q & Hq & _).
  destruct (drain_loop_ok cl env (dr_key d) (drain_fuel s) _ _ _ Hact Hq)
    as (s' & Hs' & Hinv' & Hev & Hw & Hcl); [by eapply drain_fuel_enough|].
  exists s'. split_and!; [done..| |done]. eapply Nat.le_lt_trans; [exact Hw|].
  unfold weight. simpl. rewrite (sum_list_with_delete _ _ _ _ Hn).
  assert (drain_weight d = 1)%nat by (unfold drain_weight; by rewrite Hph). lia.
Qed.

Lemma resumeDrain_ok cl env n d error s :
  queue_inv cl None s -> cq_drains s !! n = Some d -> dr_phase d = RunEnded error ->
  exists s', resumeDrain env n s = Some s' /\
    queue_inv cl None s' /\ calls_evolve (cq_calls s) (cq_calls s') /\
    (weight s' < weight s)%nat /\ cq_clock s' = cq_clock s.
Proof.
  intros Hinv Hn Hph. unfold resumeDrain. rewrite Hn. destruct d as [key r i ph].
  simpl in Hph. subst ph. destruct error as [e|]; [|by apply (resume_ok cl env n _ s Hinv Hn)].
  set (s1 := with_drains (<[n := mkDrain key r i (RunEnded None)]> (cq_drains s))
               (rejectOnce i e s)).
  assert (queue_inv cl None s1) as Hinv1.
  { apply (inv_rephase cl s n _ (RunEnded None) (alter (settleOnce (Throw e)) i (cq_calls s)) Hinv Hn);
      simpl.
    - intros j Hj. by rewrite list_lookup_alter_ne.
    - intros c Hc. rewrite list_lookup_alter_eq, Hc. eexists; split; [done|].
      destruct (inv_drain _ _ _ Hinv (mkDrain key r i (RunEnded (Some e)))) as (c' & Hc' & _ & Hti & Hs);
        [by eapply list_elem_of_lookup_2|]. simpl in *. simplify_eq.
      unfold settleOnce, isSettled. by rewrite Hs. }
  destruct (resume_ok cl env n (mkDrain key r i (RunEnded None)) s1 Hinv1)
    as (s' & Hs' & Hinv' & Hev & Hw & Hcl); [|done|].
  { simpl. apply list_lookup_insert_eq. by eapply lookup_lt_Some. }
  exists s'. split_and!.
  - rewrite <- Hs'. f_equal. unfold s1, with_drains, rejectOnce, upd_call, with_calls. simpl. f_equal.
    by rewrite delete_insert_same.
  - done.
  - etransitivity; [|exact Hev]. apply calls_evolve_settle.
  - eapply Nat.lt_le_trans; [exact Hw|]. unfold weight. simpl.
    rewrite (sum_list_with_delete _ _ _ _ Hn).
    rewrite (sum_list_with_delete _ (<[n:=_]> _) n (mkDrain key r i (RunEnded None))) by
      (apply list_lookup_insert_eq; by eapply lookup_lt_Some).
    by rewrite delete_insert_same.
  - done.
Qed.

(** A new object under a free key, with its drain about to execute. *)
Lemma inv_fresh cl key s :
  queue_inv cl None s -> mget key (cq_byKey s) = None ->
  queue_inv cl (Some (length (cq_heap s), key))
    (with_byKey (mset key (length (cq_heap s)) (cq_byKey s))
       (with_heap (cq_heap s ++ [mkQueueState true []]) s)).
Proof.
  intros Hinv Hkey. set (r := length (cq_heap s)).
  assert (forall r' k, holds None s r' k -> (r' < r)%nat) as Hlt.
  { intros r' k Hh%(inv_holds _ _ _ Hinv). apply fmap_Some in Hh as (q & Hq & _).
    by eapply lookup_lt_Some. }
  assert (forall r', (r' < r)%nat -> (cq_heap s ++ [mkQueueState true []]) !! r' = cq_heap s !! r') as Hold
    by (intros; by apply lookup_app_l).
  assert (forall r' q, (cq_heap s ++ [mkQueueState true []]) !! r' = Some q ->
            cq_heap s !! r' = Some q \/ r' = r /\ q = mkQueueState true []) as Hnew.
  { intros r' q [?|[Hge Hr]]%lookup_app_Some; [by left|]. right.
    apply list_lookup_singleton_Some in Hr as [Hr <-]. split; [unfold r; lia|done]. }
  split; simpl.
  - apply Hinv.
  - intros r' k [= <- <-] (d & -> & Hd)%list_elem_of_fmap.
    assert (holds None s (dr_state d) (dr_key d)) as Hh%Hlt by (right; eauto). lia.
  - intros r' k [[= <- <-]|Hd].
    + rewrite lookup_app_r, Nat.sub_diag by done. done.
    + assert (holds None s r' k) as Hh by by right. rewrite Hold by eauto. by eapply Hinv.
  - intros r' (q & [Hq|[-> ->]]%Hnew & Hr)%fmap_Some.
    + destruct (inv_running _ _ _ Hinv r') as [k [?|Hd]]; [by rewrite Hq, Hr|done|].
      exists k. by right.
    + exists key. by left.
  - intros k r'. rewrite mget_mset. case_decide; subst; [intros [= <-]; by left|].
    intros Hk. destruct (inv_byKey _ _ _ Hinv _ _ Hk) as [?|?]; [done|by right].
  - intros r' q [Hq|[-> ->]]%Hnew Hne; [|done].
    destruct (inv_items _ _ _ Hinv _ _ Hq Hne) as [k Hk]. exists k.
    rewrite mget_mset_ne; [done|]. congruence.
  - intros r' q [Hq|[-> ->]]%Hnew; [by apply Hinv|]. simpl. rewrite app_nil_r.
    change (StronglySorted lt (started_in r s)). destruct (started_in r s) as [|i l] eqn:E; [constructor|].
    destruct (started_elem r i s) as [t Hi]; [rewrite E; set_solver|].
    destruct (inv_started _ _ _ Hinv _ _ _ Hi) as (c & Hc & Hst & _).
    pose proof (inv_state _ _ _ Hinv _ _ Hc). lia.
  - intros r' q p i [Hq|[-> ->]]%Hnew Hp; [|done].
    destruct (inv_queued _ _ _ Hinv _ _ _ _ Hq Hp) as (c & Hc & Hst & Hse & Hti & Hm).
    exists c. split_and!; [done..|]. rewrite bool_decide_eq_false_2 in Hm by done.
    case_bool_decide; lia.
  - apply Hinv.
  - intros i c Hc Hs. destruct (inv_calls _ _ _ Hinv _ _ Hc Hs) as [(q & Hq & Hi)|?]; [left|by right].
    exists q. split; [|done]. by apply lookup_app_l_Some.
  - apply Hinv.
  - intros i c Hc. rewrite length_app. pose proof (inv_state _ _ _ Hinv _ _ Hc). lia.
  - apply Hinv.
  - intros Hcl r' k [[= <- <-]|Hd]; [apply mget_mset_eq|].
    simpl. pose proof (inv_named _ _ _ Hinv Hcl r' k (or_intror Hd)) as Hk.
    rewrite mget_mset_ne; [done|]. congruence.
Qed.

(** A call joins the queue of an object that a drain works on. *)
Lemma inv_push cl act s r q k c :
  queue_inv cl act s -> cq_heap s !! r = Some q -> mget k (cq_byKey s) = Some r ->
  qc_state c = r -> qc_settled c = None ->
  qc_timer c = Some (qc_enqueuedAtMs c + setTimeout_delay (qc_timeoutMs c)) ->
  Z.of_nat (length (qs_items q)) + (if bool_decide (fst <$> act = Some r) then 0 else 1)
    < qc_maxQueueLength c ->
  queue_inv cl act
    (set_items r (qs_items q ++ [length (cq_calls s)]) (with_calls (cq_calls s ++ [c]) s)).
Proof.
  intros Hinv Hq Hk Hst Hse Hti Hmax.
  assert (forall i c0, cq_calls s !! i = Some c0 -> (cq_calls s ++ [c]) !! i = Some c0) as Hold
    by (intros; by apply lookup_app_l_Some).
  assert (forall i c0, (cq_calls s ++ [c]) !! i = Some c0 ->
            cq_calls s !! i = Some c0 \/ i = length (cq_calls s) /\ c0 = c) as Hnew.
  { intros i c0 [?|[Hge Hr]]%lookup_app_Some; [by left|]. right.
    apply list_lookup_singleton_Some in Hr as [Hr <-]. split; [lia|done]. }
  split; simpl.
  - apply Hinv.
  - apply Hinv.
  - intros r' k'. rewrite running_set_items. apply (inv_holds _ _ _ Hinv).
  - intros r'. rewrite running_set_items. apply (inv_running _ _ _ Hinv).
  - apply Hinv.
  - intros r' q' [(-> & _)|[? Hq']]%heap_set_items Hne; [by exists k|by eapply Hinv].
  - intros r' q' [(-> & q0 & Hq0 & ->)|[? Hq']]%heap_set_items; [|by apply Hinv].
    simplify_eq. simpl. rewrite (assoc_L (++)). apply StronglySorted_snoc; [by apply Hinv|].
    intros i [Hi|Hi]%elem_of_app.
    + apply started_elem in Hi as [t Hi].
      destruct (inv_started _ _ _ Hinv _ _ _ Hi) as (c0 & Hc0 & _). by eapply lookup_lt_Some.
    + destruct (inv_queued_elem Hinv _ _ _ Hq Hi) as (p & c0 & Hc0 & _). by eapply lookup_lt_Some.
  - intros r' q' p i [(-> & q0 & Hq0 & ->)|[Hne Hq']]%heap_set_items Hp; simpl in Hp.
    + simplify_eq. apply lookup_app_Some in Hp as [Hp|[Hge Hp]].
      * destruct (inv_queued _ _ _ Hinv _ _ _ _ Hq Hp) as (c0 & Hc0 & Hrest). exists c0.
        split; [by apply Hold|done].
      * apply list_lookup_singleton_Some in Hp as [Hp <-]. exists c. split_and!; [|done..|].
        -- simpl. by rewrite lookup_app_r, Nat.sub_diag by done.
        -- by replace p with (length (qs_items q)) by lia.
    + destruct (inv_queued _ _ _ Hinv _ _ _ _ Hq' Hp) as (c0 & Hc0 & Hrest). exists c0.
      split; [by apply Hold|done].
  - intros d Hd. destruct (inv_drain _ _ _ Hinv _ Hd) as (c0 & Hc0 & Hrest). exists c0.
    split; [by apply Hold|done].
  - intros i c0 [Hc0|[-> ->]]%Hnew Hs; [|left].
    + destruct (inv_calls _ _ _ Hinv _ _ Hc0 Hs) as [(q1 & Hq1 & Hi)|?]; [left|by right].
      simpl. rewrite lookup_alter_spec. destruct (decide (r = qc_state c0)) as [Hr|Hr];
        [|by exists q1]. rewrite Hq1.
      eexists; split; [done|]. simpl. rewrite <- Hr, Hq in Hq1. simplify_eq. set_solver.
    + simpl. rewrite Hst, list_lookup_alter_eq, Hq. eexists; split; [done|]. simpl. set_solver.
  - intros r' i t Hi. destruct (inv_started _ _ _ Hinv _ _ _ Hi) as (c0 & Hc0 & Hrest). exists c0.
    split; [by apply Hold|done].
  - intros i c0 [Hc0|[-> ->]]%Hnew; rewrite length_alter; [by eapply Hinv|].
    rewrite Hst. by eapply lookup_lt_Some.
  - intros i c0 [Hc0|[-> ->]]%Hnew; [by eapply Hinv|done].
  - apply Hinv.
Qed.

(** A fresh object may be marked as running before or after its first item comes. *)
Lemma fresh_push m i c s :
  let r := length (cq_heap s) in
  let fresh b := with_byKey m (with_heap (cq_heap s ++ [mkQueueState b []]) s) in
  set_running r true (set_items r [i] (with_calls (cq_calls s ++ [c]) (fresh false))) =
  set_items r [i] (with_calls (cq_calls s ++ [c]) (fresh true)).
Proof.
  intros r fresh. unfold set_running, set_items, with_heap, fresh, r. simpl.
  by rewrite !alter_snoc.
Qed.

Lemma drain_fuel_set_running r b s : drain_fuel (set_running r b s) = drain_fuel s.
Proof.
  unfold drain_fuel. simpl. by rewrite queued_total_running.
Qed.

#[local] Arguments drain_loop : simpl never.

(** The record of a call that is let into the queue of [r]. *)
Definition admitted_call (args : QueueArgs) (r : nat) (s : CommitQueues) : QueuedCall :=
  let queueTimeoutMs := normalizeQueueLimit (qa_queueTimeoutMs args) DEFAULT_QUEUE_TIMEOUT_MS in
  mkQueuedCall (trim (qa_queueKey args)) (qa_labels args) (qa_owner args) r
    (normalizeQueueLimit (qa_maxQueueLength args) DEFAULT_MAX_QUEUE_LENGTH) (cq_clock s)
    queueTimeoutMs (Some (cq_clock s + setTimeout_delay queueTimeoutMs)) None.

(** Joining the queue of a running drain only appends the call. *)
Lemma queue_call_running cl env args s r q :
  queue_inv cl None s -> nonempty (trim (qa_queueKey args)) = true -> qa_enabled args = true ->
  mget (trim (qa_queueKey args)) (cq_byKey s) = Some r -> cq_heap s !! r = Some q ->
  let max := normalizeQueueLimit (qa_maxQueueLength args) DEFAULT_MAX_QUEUE_LENGTH in
  let i := length (cq_calls s) in
  withThresholdCommitQueue env args s = Some
    (if Z.of_nat (length (qs_items q)) + 1 >=? max
     then (Refused (overflowError (qa_labels args) (qa_owner args) (trim (qa_queueKey args)) max), s)
     else (Waits i, set_items r (qs_items q ++ [i])
                      (with_calls (cq_calls s ++ [admitted_call args r s]) s))).
Proof.
  intros Hinv Hk He Hkey Hq max i. unfold withThresholdCommitQueue, getOrCreateQueueState.
  rewrite Hk, He, Hkey. simpl. rewrite Hq. simpl.
  pose proof (inv_holds _ _ _ Hinv _ _ (inv_byKey _ _ _ Hinv _ _ Hkey)) as Hr.
  rewrite Hq in Hr. injection Hr as Hr. rewrite Hr. fold max. destruct (_ >=? max) eqn:E; [done|].
  unfold drainQueueForKey. simpl. rewrite Hkey, list_lookup_alter_eq, Hq. simpl. by rewrite Hr.
Qed.

(** The state in which the drain of a new queue begins. *)
Definition opened (args : QueueArgs) (s : CommitQueues) : CommitQueues :=
  let key := trim (qa_queueKey args) in
  let r := length (cq_heap s) in
  set_items r [length (cq_calls s)]
    (with_calls (cq_calls s ++ [admitted_call args r s])
      (with_byKey (mset key r (cq_byKey s)) (with_heap (cq_heap s ++ [mkQueueState true []]) s))).

Lemma opened_heap args s :
  cq_heap (opened args s) = cq_heap s ++ [mkQueueState true [length (cq_calls s)]].
Proof. unfold opened. simpl. by rewrite alter_snoc. Qed.

(** A call on a key without a queue opens one and drains it. *)
Lemma queue_call_fresh env args s :
  nonempty (trim (qa_queueKey args)) = true -> qa_enabled args = true ->
  mget (trim (qa_queueKey args)) (cq_byKey s) = None ->
  withThresholdCommitQueue env args s =
    (fun s' => (Waits (length (cq_calls s)), s')) <$>
      drain_loop (drain_fuel (opened args s)) env (trim (qa_queueKey args)) (length (cq_heap s))
        (opened args s).
Proof.
  intros Hk He Hkey. unfold withThresholdCommitQueue, getOrCreateQueueState. rewrite Hk, He, Hkey.
  simpl. rewrite lookup_app_r, Nat.sub_diag by done. simpl.
  set (max := normalizeQueueLimit (qa_maxQueueLength args) DEFAULT_MAX_QUEUE_LENGTH).
  assert (1 <= max) as Hmax by apply bounded_positive_ge_1.
  destruct (_ >=? _) eqn:Hd; [lia|]. unfold drainQueueForKey.
  match goal with |- context [drain_loop (drain_fuel ?s0) _ _ _ _] => set (s1 := s0) end.
  replace (mget (trim (qa_queueKey args)) (cq_byKey s1)) with (Some (length (cq_heap s)))
    by (symmetry; apply mget_mset_eq).
  assert (cq_heap s1 = cq_heap s ++ [mkQueueState false [length (cq_calls s)]]) as Hh1
    by (unfold s1; simpl; by rewrite alter_snoc).
  rewrite Hh1, lookup_app_r, Nat.sub_diag by done. simpl.
  rewrite <- (drain_fuel_set_running (length (cq_heap s)) true s1). unfold s1. by rewrite fresh_push.
Qed.

Lemma opened_inv cl args s :
  queue_inv cl None s -> mget (trim (qa_queueKey args)) (cq_byKey s) = None ->
  queue_inv cl (Some (length (cq_heap s), trim (qa_queueKey args))) (opened args s).
Proof.
  intros Hinv Hkey. pose proof (inv_fresh _ _ _ Hinv Hkey) as Hf.
  apply (inv_push _ _ _ (length (cq_heap s)) (mkQueueState true []) (trim (qa_queueKey args))
           (admitted_call args (length (cq_heap s)) s) Hf).
  - simpl. by rewrite lookup_app_r, Nat.sub_diag.
  - apply mget_mset_eq.
  - done.
  - done.
  - done.
  - simpl. rewrite bool_decide_eq_true_2 by done.
    pose proof (bounded_positive_ge_1 (qa_maxQueueLength args) DEFAULT_MAX_QUEUE_LENGTH).
    unfold normalizeQueueLimit. lia.
Qed.

(** A call ends its synchronous part in a state that satisfies the invariant. *)
Lemma withThresholdCommitQueue_ok cl env args s :
  queue_inv cl None s ->
  exists outcome s', withThresholdCommitQueue env args s = Some (outcome, s') /\
    queue_inv cl None s' /\ calls_evolve (cq_calls s) (cq_calls s').
Proof.
  intros Hinv. destruct (nonempty (trim (qa_queueKey args))) eqn:Hk.
  2: { unfold withThresholdCommitQueue. rewrite Hk. by do 2 eexists. }
  destruct (qa_enabled args) eqn:He.
  2: { unfold withThresholdCommitQueue. rewrite Hk, He. by do 2 eexists. }
  destruct (mget (trim (qa_queueKey args)) (cq_byKey s)) as [r|] eqn:Hkey.
  - pose proof (inv_holds _ _ _ Hinv _ _ (inv_byKey _ _ _ Hinv _ _ Hkey)) as Hr.
    apply fmap_Some in Hr as (q & Hq & _).
    rewrite (queue_call_running _ _ _ _ _ _ Hinv Hk He Hkey Hq).
    destruct (_ >=? _) eqn:Hd; do 2 eexists; (split; [done|]); [done|].
    split; [|apply calls_evolve_app]. eapply inv_push; eauto. simpl. lia.
  - rewrite queue_call_fresh by done.
    destruct (drain_loop_ok cl env (trim (qa_queueKey args)) (drain_fuel (opened args s)) _ _
                (mkQueueState true [length (cq_calls s)]) (opened_inv _ _ _ Hinv Hkey))
      as (s' & -> & Hinv' & Hev & _ & _).
    { by rewrite opened_heap, lookup_app_r, Nat.sub_diag by done. }
    { eapply (drain_fuel_enough (length (cq_heap s))).
      by rewrite opened_heap, lookup_app_r, Nat.sub_diag by done. }
    do 2 eexists. split_and!; [done..|]. etransitivity; [|exact Hev]. apply calls_evolve_app.
Qed.

(** *** The timer of a queued call *)

Lemma splice_item_elem i j l : NoDup l -> j ∈ splice_item i l <-> j ∈ l /\ j <> i.
Proof.
  induction l as [|k l IH]; simpl; intros Hn; [set_solver|].
  apply NoDup_cons in Hn as [Hk Hn]. destruct (k =? i)%nat eqn:E.
  - apply Nat.eqb_eq in E as ->. set_solver.
  - apply Nat.eqb_neq in E. rewrite !elem_of_cons, IH by done. set_solver.
Qed.

(** A timer is armed while its call is queued. *)
Lemma armed_queued cl i c s :
  queue_inv cl None s -> cq_calls s !! i = Some c -> qc_timer c <> None ->
  qc_settled c = None /\ exists q, cq_heap s !! qc_state c = Some q /\ i ∈ qs_items q.
Proof.
  intros Hinv Hc Ht. pose proof (inv_armed _ _ _ Hinv _ _ Hc Ht) as Hs. split; [done|].
  destruct (inv_calls _ _ _ Hinv _ _ Hc Hs) as [?|[(d & Hd & Hi)|[_ ?]]]; [done| |done].
  destruct (inv_drain _ _ _ Hinv _ Hd) as (c' & Hc' & _ & Ht' & _). congruence.
Qed.

Lemma queued_running cl r q s :
  queue_inv cl None s -> cq_heap s !! r = Some q -> qs_items q <> [] -> qs_running q = true.
Proof.
  intros Hinv Hq Hne. destruct (inv_items _ _ _ Hinv _ _ Hq Hne) as [k Hk].
  pose proof (inv_holds _ _ _ Hinv _ _ (inv_byKey _ _ _ Hinv _ _ Hk)) as Hr.
  rewrite Hq in Hr. by injection Hr.
Qed.

(** The callback rejects its call and takes it out of the queue. *)
Lemma timerFires_eq cl i c s :
  queue_inv cl None s -> cq_calls s !! i = Some c -> qc_timer c <> None ->
  exists q, cq_heap s !! qc_state c = Some q /\ i ∈ qs_items q /\
    timerFires i s =
      with_calls (alter (settleOnce (Throw (makeTimeoutError c))) i (alter disarm i (cq_calls s)))
        (with_lost (cq_lost s) (set_items (qc_state c) (splice_item i (qs_items q)) s)).
Proof.
  intros Hinv Hc Ht. destruct (armed_queued _ _ _ _ Hinv Hc Ht) as (Hs & q & Hq & Hi).
  exists q. split_and!; [done..|]. unfold timerFires. rewrite Hc. unfold isSettled. rewrite Hs.
  assert (qs_running q = true) as Hr.
  { eapply queued_running; [done..|]. intros E. rewrite E in Hi. set_solver. }
  simpl. rewrite Hq. simpl. rewrite list_lookup_alter_eq, Hq. simpl. by rewrite Hr.
Qed.

Lemma timerFires_inv cl i c s :
  queue_inv cl None s -> cq_calls s !! i = Some c -> qc_timer c <> None ->
  queue_inv cl None (timerFires i s).
Proof.
  intros Hinv Hc Ht. destruct (timerFires_eq _ _ _ _ Hinv Hc Ht) as (q & Hq & Hi & ->).
  pose proof (inv_items_ids Hinv _ _ Hq) as Hn.
  apply (inv_drop _ _ _ _ q _ _ _ Hinv Hq); [apply splice_item_sublist|..|done].
  - intros j c' Hc' Hj Hnj. rewrite splice_item_elem in Hnj by done.
    assert (j = i) as -> by (destruct (decide (j = i)); tauto).
    assert (c' = c) as -> by congruence.
    rewrite !list_lookup_alter_eq, Hc. eexists; split; [done|].
    unfold settleOnce, isSettled. simpl.
    rewrite (inv_armed _ _ _ Hinv _ _ Hc Ht). by split_and!; [..|left].
  - intros j Hj. rewrite !lookup_alter_spec. case_decide; [|done]. subst.
    rewrite splice_item_elem in Hj by done. tauto.
Qed.

Lemma timerFires_evolve i s : calls_evolve (cq_calls s) (cq_calls (timerFires i s)).
Proof.
  unfold timerFires. destruct (cq_calls s !! i) as [c|] eqn:Hc; [|done].
  destruct (isSettled c); [apply calls_evolve_disarm|].
  assert (forall key r s1, cq_calls (forget_if_same key r s1) = cq_calls s1) as Hf.
  { intros. unfold forget_if_same. by case_bool_decide. }
  repeat case_match; rewrite ?Hf; apply calls_evolve_reject.
Qed.

(** *** Clearing *)

(** The calls in [items] are rejected, the others as they were. *)
Definition rejected (items : list nat) (cs cs' : list QueuedCall) : Prop :=
  forall i,
    match cs !! i with
    | None => cs' !! i = None
    | Some c =>
        exists c', cs' !! i = Some c' /\ same_call c c' /\
          (qc_settled c <> None -> qc_settled c' = qc_settled c) /\
          if decide (i ∈ items) then qc_timer c' = None /\ qc_settled c' <> None else c' = c
    end.

Lemma clearItem_eq s i :
  exists cs, clearItem s i = with_calls cs s /\ rejected [i] (cq_calls s) cs.
Proof.
  unfold clearItem. destruct (cq_calls s !! i) as [c|] eqn:Hc.
  - exists (alter (settleOnce (Throw (makeCancelledError c QueueCleared))) i
              (alter disarm i (cq_calls s))).
    split; [done|]. intros j. rewrite !lookup_alter_spec. destruct (decide (i = j)) as [<-|Hne].
    + rewrite Hc. eexists; split; [done|]. rewrite decide_True by set_solver.
      unfold settleOnce, isSettled. simpl. destruct (qc_settled c) eqn:E; simpl; rewrite ?E; by split_and!.
    + destruct (cq_calls s !! j) as [c'|]; [|done]. exists c'. rewrite decide_False by set_solver.
      by split_and!.
  - exists (cq_calls s). split; [by destruct s|]. intros j. destruct (cq_calls s !! j) as [c'|] eqn:Hj; [|done].
    exists c'. rewrite decide_False by set_solver. by split_and!.
Qed.

Lemma clearItems_eq items : forall s,
  exists cs, List.fold_left clearItem items s = with_calls cs s /\ rejected items (cq_calls s) cs.
Proof.
  induction items as [|i items IH]; intros s; simpl.
  - exists (cq_calls s). split; [by destruct s|]. intros j. destruct (cq_calls s !! j) as [c|]; [|done].
    exists c. rewrite decide_False by set_solver. by split_and!.
  - destruct (clearItem_eq s i) as (cs1 & -> & H1).
    destruct (IH (with_calls cs1 s)) as (cs2 & -> & H2). exists cs2. split; [done|].
    intros j. specialize (H1 j). specialize (H2 j). simpl in H2.
    destruct (cq_calls s !! j) as [c|]; [|by rewrite H1 in H2].
    destruct H1 as (c1 & Hc1 & (? & ? & ? & ?) & Hs1 & H1). rewrite Hc1 in H2.
    destruct H2 as (c2 & Hc2 & (? & ? & ? & ?) & Hs2 & H2).
    exists c2. split_and!; [done|split_and!; congruence|..].
    + intros Hs. rewrite Hs2; [auto|]. by rewrite Hs1.
    + destruct (decide (j ∈ items)).
      { rewrite decide_True by set_solver. done. }
      subst c2. destruct (decide (j ∈ [i])); [rewrite decide_True by set_solver|rewrite decide_False by set_solver];
        done.
Qed.

Lemma rejected_evolve items cs cs' : rejected items cs cs' -> calls_evolve cs cs'.
Proof.
  intros H i c Hc. specialize (H i). rewrite Hc in H. destruct H as (c' & ? & ? & ? & _). by exists c'.
Qed.

Lemma clearState_ok cl s r :
  queue_inv cl None s ->
  queue_inv cl None (clearState s r) /\ calls_evolve (cq_calls s) (cq_calls (clearState s r)) /\
  cq_byKey (clearState s r) = cq_byKey s /\ cq_drains (clearState s r) = cq_drains s /\
  (forall r', qs_items <$> cq_heap (clearState s r) !! r' =
     if decide (r' = r) then (fun _ => []) <$> cq_heap s !! r' else qs_items <$> cq_heap s !! r').
Proof.
  intros Hinv. unfold clearState. destruct (cq_heap s !! r) as [q|] eqn:Hq.
  - destruct (clearItems_eq (qs_items q) s) as (cs & -> & Hrej). split_and!; [|by eapply rejected_evolve|done..|].
    + apply (inv_drop _ _ _ _ q [] cs (cq_lost s) Hinv Hq); [apply sublist_nil_l|..|done].
      * intros i c Hc Hi _. specialize (Hrej i). rewrite Hc in Hrej.
        destruct Hrej as (c' & ? & ? & _ & Hd). rewrite decide_True in Hd by done.
        destruct Hd. exists c'. by split_and!; [..|left].
      * intros i [Hi|?]; [|set_solver]. specialize (Hrej i).
        destruct (cq_calls s !! i) as [c|]; [|done]. destruct Hrej as (c' & -> & _ & _ & Hd).
        rewrite decide_False in Hd by done. by subst.
    + intros r'. simpl. rewrite lookup_alter_spec. destruct (decide (r = r')) as [->|Hne].
      * rewrite decide_True by done. by destruct (cq_heap s !! r').
      * by rewrite decide_False by done.
  - split_and!; [done..|]. intros r'. case_decide; [|done]. subst. by rewrite Hq.
Qed.

Lemma clearStates_ok cl rs : forall s,
  queue_inv cl None s ->
  let s' := List.fold_left clearState rs s in
  queue_inv cl None s' /\ calls_evolve (cq_calls s) (cq_calls s') /\
  cq_byKey s' = cq_byKey s /\ cq_drains s' = cq_drains s /\
  (forall r, qs_items <$> cq_heap s' !! r =
     if decide (r ∈ rs) then (fun _ => []) <$> cq_heap s !! r else qs_items <$> cq_heap s !! r).
Proof.
  induction rs as [|r0 rs IH]; intros s Hinv; simpl.
  - by split_and!.
  - destruct (clearState_ok cl s r0 Hinv) as (H1 & H2 & H3 & H4 & H5).
    destruct (IH _ H1) as (G1 & G2 & G3 & G4 & G5). split_and!; [done| |congruence..|].
    { by etransitivity. }
    intros r. rewrite G5. specialize (H5 r).
    assert (is_Some (cq_heap (clearState s r0) !! r) <-> is_Some (cq_heap s !! r)) as Hdom.
    { rewrite <- !not_eq_None_Some. destruct (cq_heap (clearState s r0) !! r), (cq_heap s !! r);
        destruct (decide (r = r0)); simpl in H5; naive_solver. }
    destruct (decide (r ∈ rs)) as [Hr|Hr].
    + rewrite decide_True by set_solver.
      destruct (cq_heap (clearState s r0) !! r), (cq_heap s !! r); naive_solver.
    + rewrite H5. destruct (decide (r = r0)) as [->|Hne].
      * by rewrite decide_True by set_solver.
      * by rewrite decide_False by set_solver.
Qed.

Lemma clearThresholdCommitQueue_ok cl s :
  queue_inv cl None s ->
  queue_inv true None (clearThresholdCommitQueue s) /\
  calls_evolve (cq_calls s) (cq_calls (clearThresholdCommitQueue s)) /\
  (forall r q, cq_heap (clearThresholdCommitQueue s) !! r = Some q -> qs_items q = []).
Proof.
  intros Hinv. unfold clearThresholdCommitQueue.
  destruct (clearStates_ok cl (mvalues (cq_byKey s)) s Hinv) as (H1 & H2 & H3 & H4 & H5).
  set (s1 := List.fold_left _ _ _) in *.
  assert (forall r q, cq_heap s1 !! r = Some q -> qs_items q = []) as Hempty.
  { intros r q Hq. destruct (decide (qs_items q = [])) as [|Hne]; [done|].
    destruct (inv_items _ _ _ H1 _ _ Hq Hne) as [k Hk]. rewrite H3 in Hk.
    specialize (H5 r). rewrite Hq, decide_True in H5 by (apply elem_mvalues; eauto using mget_elem).
    destruct (cq_heap s !! r); simpl in H5; congruence. }
  split_and!; [|done..]. split; simpl; try apply H1.
  - done.
  - intros r q Hq Hne. by destruct Hne, (Hempty _ _ Hq).
  - done.
Qed.
