(* ===== verification/CommitQueueSystem.v ===== *)
(** * The threshold commit queue as a system

    Every interleaving of callers, running tasks, timers and the clearing of the
    queues; that tasks of one key exclude each other and start in the order of
    arrival, that every call is answered, and what one call does. *)

From stdpp Require Import relations.
From S2P Require Import Prelude ListFacts JsValues CommitQueue CommitQueueInvariant.
Local Open Scope Z_scope.

(** ** The system

    [Date.now()] is read once per step.  [cleared] says that the queues have been
    cleared since they were created. *)
Definition initial_queues (now : Z) : CommitQueues := mkQueues now [] [] [] [] [] [].

(** The steps that do not wait for a caller: a task ends, a drain goes on. *)
Inductive progress_step : CommitQueues -> CommitQueues -> Prop :=
| progress_task s n result d :
    cq_drains s !! n = Some d -> dr_phase d = InTask ->
    progress_step s (taskSettles n result s)
| progress_resume s s' env n d error :
    cq_drains s !! n = Some d -> dr_phase d = RunEnded error ->
    resumeDrain env n s = Some s' ->
    progress_step s s'.

Inductive queue_step : CommitQueues -> CommitQueues -> Prop :=
| queue_tick s now' :
    cq_clock s <= now' ->
    queue_step s (mkQueues now' (cq_heap s) (cq_byKey s) (cq_calls s) (cq_drains s) (cq_starts s)
                    (cq_lost s))
| queue_call s s' env args outcome :
    withThresholdCommitQueue env args s = Some (outcome, s') -> queue_step s s'
| queue_progress s s' : progress_step s s' -> queue_step s s'
| queue_timer s i c at_ms :
    cq_calls s !! i = Some c -> qc_timer c = Some at_ms -> at_ms <= cq_clock s ->
    queue_step s (timerFires i s).

Inductive queue_reachable : bool -> CommitQueues -> Prop :=
| queue_init now : queue_reachable false (initial_queues now)
| queue_next cleared s s' :
    queue_reachable cleared s -> queue_step s s' -> queue_reachable cleared s'
| queue_clear cleared s :
    queue_reachable cleared s -> queue_reachable true (clearThresholdCommitQueue s).

(** ** Reachable states *)

Lemma initial_queues_inv now : queue_inv false None (initial_queues now).
Proof.
  assert (forall r k, ~ holds None (initial_queues now) r k) as Hno.
  { intros r k [?|(d & Hd & _)]; [done|]. simpl in Hd. set_solver. }
  split; simpl; try done; try (intros; set_solver); [constructor|..].
  - by intros _ r k []%Hno.
Qed.

Lemma progress_step_ok cl s s' :
  queue_inv cl None s -> progress_step s s' ->
  queue_inv cl None s' /\ calls_evolve (cq_calls s) (cq_calls s') /\ (weight s' < weight s)%nat.
Proof.
  intros Hinv Hp. destruct Hp as [s1 n result d Hn Hph|s1 s2 env n d error Hn Hph Hs].
  - split; [by apply taskSettles_inv|]. unfold taskSettles. rewrite Hn.
    destruct d as [key r i ph]. simpl in Hph. subst ph. unfold weight.
    rewrite (sum_list_with_delete drain_weight (cq_drains s1) _ _ Hn).
    assert (forall e, sum_list_with drain_weight (<[n := mkDrain key r i (RunEnded e)]> (cq_drains s1)) =
              (1 + sum_list_with drain_weight (delete n (cq_drains s1)))%nat) as Hw.
    { intros e. rewrite (sum_list_with_delete drain_weight _ n (mkDrain key r i (RunEnded e))).
      - by rewrite delete_insert_same.
      - apply list_lookup_insert_eq. by eapply lookup_lt_Some. }
    destruct result; simpl; rewrite Hw; (split; [|lia]); [apply calls_evolve_settle|done].
  - destruct (resumeDrain_ok cl env n d error s1 Hinv Hn Hph) as (s3 & Hs3 & ? & ? & ? & ?).
    by simplify_eq.
Qed.

Lemma queue_step_ok cl s s' :
  queue_inv cl None s -> queue_step s s' ->
  queue_inv cl None s' /\ calls_evolve (cq_calls s) (cq_calls s').
Proof.
  intros Hinv Hstep. destruct Hstep as [s now Hle|s s' env args outcome Hcall|s s' Hp|s i c at_ms Hc Ht Hle].
  - split; [by apply inv_clock|done].
  - destruct (withThresholdCommitQueue_ok cl env args s Hinv) as (o & s1 & ? & ? & ?). by simplify_eq.
  - by destruct (progress_step_ok cl s s' Hinv Hp) as (? & ? & ?).
  - split; [eapply timerFires_inv; [done..|]; congruence|apply timerFires_evolve].
Qed.

Lemma queue_reachable_inv cl s : queue_reachable cl s -> queue_inv cl None s.
Proof.
  induction 1 as [now|cl s s' _ IH Hstep|cl s _ IH].
  - apply initial_queues_inv.
  - by eapply queue_step_ok.
  - by eapply clearThresholdCommitQueue_ok.
Qed.

(** ** Exclusion and order *)

(** C23. As long as the queues were not cleared, the commit queue runs the tasks of a key
    one at a time, in the order in which their calls arrived.  In every reachable state:
    two suspended drains never work on the same queue object, cleared or not, and if the
    queues were not cleared, two drains of the same key are the same one (after a clear, a
    forgotten object may still be drained beside the new one of its key:
    [clear_lets_tasks_overlap]); the calls of a queue object whose task was started,
    followed by those that still wait, are in the order of arrival, and a task is started
    on the object its call waited on (so no task is started twice and none overtakes
    another of its object); a task was started only within its call's time limit; fewer
    calls than its limit are in front of a waiting call; and neither a later step nor a
    clear changes what a promise settled with. *)
Theorem commit_queue_exclusive cleared s :
  queue_reachable cleared s ->
  (forall n m d e, cq_drains s !! n = Some d -> cq_drains s !! m = Some e ->
     dr_state d = dr_state e \/ cleared = false /\ dr_key d = dr_key e -> n = m) /\
  (forall r q, cq_heap s !! r = Some q -> StronglySorted lt (started_in r s ++ qs_items q)) /\
  (forall r i t, (r, i, t) ∈ cq_starts s ->
     exists c, cq_calls s !! i = Some c /\ qc_state c = r /\ t - qc_enqueuedAtMs c <= qc_timeoutMs c) /\
  (forall r q p i, cq_heap s !! r = Some q -> qs_items q !! p = Some i ->
     exists c, cq_calls s !! i = Some c /\ Z.of_nat p + 1 < qc_maxQueueLength c) /\
  (forall s' i c, queue_step s s' \/ s' = clearThresholdCommitQueue s -> cq_calls s !! i = Some c -> qc_settled c <> None ->
     exists c', cq_calls s' !! i = Some c' /\ qc_settled c' = qc_settled c).
Proof.
  intros Hinv%queue_reachable_inv. split_and!.
  - assert (forall n m d e, cq_drains s !! n = Some d -> cq_drains s !! m = Some e ->
      dr_state d = dr_state e -> n = m) as Hst.
    { intros n m d e Hn Hm E. apply (NoDup_lookup _ n m (dr_state d) (inv_nodup _ _ _ Hinv)).
      - by rewrite list_lookup_fmap, Hn.
      - rewrite list_lookup_fmap, Hm. simpl. congruence. }
    intros n m d e Hn Hm [E|[Hcl E]]; [by eapply Hst|]. apply (Hst n m d e Hn Hm).
    assert (forall n d, cq_drains s !! n = Some d -> mget (dr_key d) (cq_byKey s) = Some (dr_state d))
      as Hkey.
    { intros n' d' Hn'. apply (inv_named _ _ _ Hinv Hcl). right. exists d'.
      split; [by eapply list_elem_of_lookup_2|done]. }
    pose proof (Hkey _ _ Hn). pose proof (Hkey _ _ Hm). congruence.
  - apply Hinv.
  - intros r i t Hi. destruct (inv_started _ _ _ Hinv _ _ _ Hi) as (c & ? & ? & ?). eauto.
  - intros r q p i Hq Hp. destruct (inv_queued _ _ _ Hinv _ _ _ _ Hq Hp) as (c & ? & _ & _ & _ & Hm).
    exists c. split; [done|]. by rewrite bool_decide_eq_false_2 in Hm.
  - intros s' i c Hstep Hc Hs. assert (calls_evolve (cq_calls s) (cq_calls s')) as Hev.
    { destruct Hstep as [Hstep| ->]; [by eapply queue_step_ok|by eapply clearThresholdCommitQueue_ok]. }
    destruct (Hev _ _ Hc) as (c' & ? & _ & Hset). exists c'. auto.
Qed.

(** ** Every call is answered *)

(** C24. Calls do not wait for ever.  From a reachable state, as long as a drain is
    suspended it can go on, whatever its task answers and the abort callbacks say;
    the number of such steps is bounded, however they interleave; and when no drain
    is left, no key has a queue, nothing is queued, and every call has been
    answered, except one whose abort callback threw when the queue asked it. *)
Theorem commit_queue_live cleared s :
  queue_reachable cleared s ->
  (forall n d, cq_drains s !! n = Some d -> forall env result,
     match dr_phase d with
     | InTask => progress_step s (taskSettles n result s)
     | RunEnded _ => exists s', resumeDrain env n s = Some s' /\ progress_step s s'
     end) /\
  (forall k s', nsteps progress_step k s s' -> (k <= weight s)%nat) /\
  (cq_drains s = [] ->
     cq_byKey s = [] /\ (forall r q, cq_heap s !! r = Some q -> qs_items q = []) /\
     (forall i c, cq_calls s !! i = Some c -> qc_settled c <> None \/ i ∈ cq_lost s)).
Proof.
  intros Hinv%queue_reachable_inv. split_and!.
  - intros n d Hn env result. destruct (dr_phase d) eqn:Hph; [by econstructor|].
    destruct (resumeDrain_ok _ env n d error s Hinv Hn Hph) as (s' & Hs' & _).
    exists s'. split; [done|]. by econstructor.
  - intros k s' Hk. revert Hinv. induction Hk as [s|k s1 s2 s3 Hs _ IH]; intros Hinv; [lia|].
    destruct (progress_step_ok _ _ _ Hinv Hs) as (Hinv2 & _ & Hw). specialize (IH Hinv2). lia.
  - intros Hnone.
    assert (forall r k, ~ holds None s r k) as Hno.
    { intros r k [?|(d & Hd & _)]; [done|]. rewrite Hnone in Hd. set_solver. }
    assert (forall k, mget k (cq_byKey s) = None) as Hmap.
    { intros k. destruct (mget k (cq_byKey s)) eqn:E; [|done].
      by destruct (Hno _ _ (inv_byKey _ _ _ Hinv _ _ E)). }
    assert (forall r q, cq_heap s !! r = Some q -> qs_items q = []) as Hitems.
    { intros r q Hq. destruct (decide (qs_items q = [])) as [|Hne]; [done|].
      destruct (inv_items _ _ _ Hinv _ _ Hq Hne) as [k Hk]. by rewrite Hmap in Hk. }
    split_and!; [|done|].
    + destruct (cq_byKey s) as [|[k r] m]; [done|]. specialize (Hmap k). simpl in Hmap.
      by rewrite decide_True in Hmap.
    + intros i c Hc. destruct (qc_settled c) eqn:Hs; [by left|right].
      destruct (inv_calls _ _ _ Hinv _ _ Hc Hs) as [(q & Hq & Hi)|[(d & Hd & _)|[? _]]]; [..|done].
      * rewrite (Hitems _ _ Hq) in Hi. set_solver.
      * rewrite Hnone in Hd. set_solver.
Qed.

(** ** What one call does *)

(** The drain of a queue that holds one call, made just now. *)
Lemma drain_single fuel env key r i c s :
  cq_heap s !! r = Some (mkQueueState true [i]) -> cq_calls s !! i = Some c ->
  qc_settled c = None -> cq_clock s - qc_enqueuedAtMs c <= qc_timeoutMs c -> (2 <= fuel)%nat ->
  let s1 := clearQueueItemTimeout i (set_items r [] s) in
  drain_loop fuel env key r s = Some
    match abort_in_drain env i with
    | Throw _ => forget_if_same key r (set_running r false (with_lost (cq_lost s ++ [i]) s1))
    | Ok true =>
        forget_if_same key r (set_running r false (rejectOnce i (makeCancelledError c Cancelled) s1))
    | Ok false =>
        match abort_in_run env i with
        | Throw e => with_drains (cq_drains s ++ [mkDrain key r i (RunEnded (Some e))]) s1
        | Ok true =>
            with_drains (cq_drains s ++
              [mkDrain key r i (RunEnded (Some (makeCancelledError c Cancelled)))]) s1
        | Ok false =>
            with_starts (cq_starts s ++ [(r, i, cq_clock s)])
              (with_drains (cq_drains s ++ [mkDrain key r i InTask]) s1)
        end
    end.
Proof.
  intros Hq Hc Hs Ht Hfuel s1. destruct fuel as [|[|fuel]]; [lia..|].
  cbn [drain_loop]. rewrite Hq. cbn [fmap option_fmap option_map qs_items].
  change (cq_calls (set_items r [] s)) with (cq_calls s). rewrite Hc.
  unfold isSettled. rewrite Hs. destruct (abort_in_drain env i) as [[]|]; [|..|done].
  - cbn. rewrite list_lookup_alter_eq, Hq. done.
  - replace (_ >? _) with false; [|simpl; lia]. by destruct (abort_in_run env i) as [[]|].
Qed.

Lemma forget_calls key r s : cq_calls (forget_if_same key r s) = cq_calls s.
Proof. unfold forget_if_same. by case_bool_decide. Qed.

Lemma forget_drains key r s : cq_drains (forget_if_same key r s) = cq_drains s.
Proof. unfold forget_if_same. by case_bool_decide. Qed.

(** A call of [withThresholdCommitQueue], on every branch.  A blank key is
    refused, and a disabled queue runs the task directly, without any effect on the
    queues.  When the key has a running drain, the call is refused with the overflow
    error exactly when the waiting calls and the running one reach the limit, again
    without any effect, and otherwise it joins the end of that queue.  When the key
    has no queue the call is admitted and, unless its callback aborts it, its task
    is started at once. *)
Theorem queue_call_spec cleared env args s :
  queue_reachable cleared s ->
  let key := trim (qa_queueKey args) in
  let max := normalizeQueueLimit (qa_maxQueueLength args) DEFAULT_MAX_QUEUE_LENGTH in
  let i := length (cq_calls s) in
  exists outcome s', withThresholdCommitQueue env args s = Some (outcome, s') /\
    if negb (nonempty key) then
      outcome = Refused (JsError ("[SigningEngine] " +:+ lb_queue (qa_labels args) +:+
                                    " requires non-empty queueKey")) /\ s' = s
    else if negb (qa_enabled args) then outcome = RunsDirectly /\ s' = s
    else
      match mget key (cq_byKey s) with
      | Some r =>
          exists q, cq_heap s !! r = Some q /\
            if Z.of_nat (length (qs_items q)) + 1 >=? max
            then outcome = Refused (overflowError (qa_labels args) (qa_owner args) key max) /\ s' = s
            else outcome = Waits i /\
                 s' = set_items r (qs_items q ++ [i])
                        (with_calls (cq_calls s ++ [admitted_call args r s]) s)
      | None =>
          let r := length (cq_heap s) in
          let c := admitted_call args r s in
          outcome = Waits i /\
          cq_calls s' = cq_calls s ++
            [match abort_in_drain env i with
             | Ok true => settleOnce (Throw (makeCancelledError c Cancelled)) c
             | _ => disarm c
             end] /\
          cq_drains s' = cq_drains s ++
            match abort_in_drain env i, abort_in_run env i with
            | Ok false, Ok false => [mkDrain key r i InTask]
            | Ok false, Ok true => [mkDrain key r i (RunEnded (Some (makeCancelledError c Cancelled)))]
            | Ok false, Throw e => [mkDrain key r i (RunEnded (Some e))]
            | _, _ => []
            end
      end.
Proof.
  intros Hinv%queue_reachable_inv key max i.
  destruct (nonempty key) eqn:Hk; simpl.
  2: { do 2 eexists. unfold withThresholdCommitQueue. fold key. by rewrite Hk. }
  destruct (qa_enabled args) eqn:He; simpl.
  2: { do 2 eexists. unfold withThresholdCommitQueue. fold key. by rewrite Hk, He. }
  destruct (mget key (cq_byKey s)) as [r|] eqn:Hkey.
  - pose proof (inv_holds _ _ _ Hinv _ _ (inv_byKey _ _ _ Hinv _ _ Hkey)) as Hr.
    apply fmap_Some in Hr as (q & Hq & _).
    rewrite (queue_call_running cleared env args s r q Hinv Hk He Hkey Hq). fold key max i.
    destruct (_ >=? max) eqn:Hd; do 2 eexists; (split; [done|]); exists q; by rewrite Hd.
  - rewrite queue_call_fresh by done. fold key.
    rewrite (drain_single _ env key _ i (admitted_call args (length (cq_heap s)) s) (opened args s)).
    + do 2 eexists. split; [done|]. split; [done|]. unfold i.
      destruct (abort_in_drain env (length (cq_calls s))) as [[]|],
        (abort_in_run env (length (cq_calls s))) as [[]|];
        rewrite ?forget_calls, ?forget_drains; simpl; rewrite ?alter_snoc, ?app_nil_r; by split.
    + by rewrite opened_heap, lookup_app_r, Nat.sub_diag by done.
    + simpl. by rewrite lookup_app_r, Nat.sub_diag by done.
    + done.
    + simpl. pose proof (bounded_positive_ge_1 (qa_queueTimeoutMs args) DEFAULT_QUEUE_TIMEOUT_MS).
      unfold normalizeQueueLimit. lia.
    + unfold drain_fuel, queued_total. rewrite opened_heap, sum_list_with_app. simpl. lia.
Qed.

(** ** The key of a queue *)

(** Two operations share a queue exactly when they use the same material
    activation of the same owner and capability. *)
Lemma commit_queue_key_eq_iff m m' :
  resolveThresholdCommitQueueKey m = resolveThresholdCommitQueueKey m' <-> m = m'.
Proof.
  split; [|by intros ->]. destruct m as [i c o], m' as [i' c' o'].
  unfold resolveThresholdCommitQueueKey. simpl. intros H. injection H as H.
  pose proof encodeURIComponent_no_colon as Hn.
  apply split_at_separator in H as [->%(inj encodeURIComponent) H]; [|by apply Hn..].
  apply split_at_separator in H as [->%(inj encodeURIComponent) H]; [|by apply Hn..].
  by apply (inj encodeURIComponent) in H as ->.
Qed.

(** ** Runs *)

Definition never_aborts : AbortAnswers := mkAnswers (fun _ => Ok false) (fun _ => Ok false).
Definition sign_args : QueueArgs :=
  mkQueueArgs "material:o:c:a" ecdsaLabels "alice.testnet" true JUndefined JUndefined.
Definition after_call (s : CommitQueues) : CommitQueues :=
  match withThresholdCommitQueue never_aborts sign_args s with Some (_, s') => s' | None => s end.

(** One task runs and two calls wait for it. *)
Definition three_calls : CommitQueues :=
  Eval vm_compute in after_call (after_call (after_call (initial_queues 1000))).

Lemma after_call_reachable cleared s :
  queue_reachable cleared s -> queue_reachable cleared (after_call s).
Proof.
  intros Hs. destruct (withThresholdCommitQueue_ok cleared never_aborts sign_args s)
    as (o & s' & Hc & _); [by apply queue_reachable_inv|].
  unfold after_call. rewrite Hc. eapply queue_next; [done|]. by eapply queue_call.
Qed.

Lemma three_calls_reachable : queue_reachable false three_calls.
Proof.
  replace three_calls with (after_call (after_call (after_call (initial_queues 1000))))
    by (vm_compute; reflexivity).
  do 3 apply after_call_reachable. apply queue_init.
Qed.

Example three_calls_shape :
  map dr_item (cq_drains three_calls) = [0%nat] /\ map qs_items (cq_heap three_calls) = [[1; 2]%nat] /\
  map dr_phase (cq_drains three_calls) = [InTask].
Proof. by vm_compute. Qed.

Lemma commit_queue_exclusive_witness :
  queue_reachable false three_calls /\
  exists c, cq_calls three_calls !! 2%nat = Some c /\ Z.of_nat 1 + 1 < qc_maxQueueLength c.
Proof.
  split; [exact three_calls_reachable|].
  apply (commit_queue_exclusive false three_calls three_calls_reachable) with
    (r := 0%nat) (q := mkQueueState true [1; 2]%nat); reflexivity.
Defined.

Lemma commit_queue_live_witness :
  queue_reachable false three_calls /\
  progress_step three_calls (taskSettles 0 (Ok JNull) three_calls) /\ weight three_calls = 8%nat.
Proof.
  split; [exact three_calls_reachable|]. split; [|reflexivity].
  exact (proj1 (commit_queue_live false three_calls three_calls_reachable) 0%nat
           (mkDrain "material:o:c:a" 0 0 InTask) eq_refl never_aborts (Ok JNull)).
Defined.

Lemma queue_call_spec_witness :
  queue_reachable false three_calls /\
  exists outcome s', withThresholdCommitQueue never_aborts sign_args three_calls = Some (outcome, s') /\
    outcome = Waits 3.
Proof.
  split; [exact three_calls_reachable|].
  destruct (queue_call_spec false never_aborts sign_args three_calls three_calls_reachable)
    as (outcome & s' & Hrun & Hout).
  exists outcome, s'. split; [exact Hrun|]. vm_compute in Hout.
  destruct Hout as (q & [= <-] & Hout & _). exact Hout.
Defined.

(** Clearing the queues while a task runs lets the next call with the same key
    start a second task beside it: the running drain keeps the forgotten queue
    object, and the key gets a new one. *)
Definition overlapping : CommitQueues :=
  after_call (clearThresholdCommitQueue (after_call (initial_queues 1000))).

Theorem clear_lets_tasks_overlap :
  queue_reachable true overlapping /\
  map dr_key (cq_drains overlapping) = ["material:o:c:a"; "material:o:c:a"] /\
  map dr_phase (cq_drains overlapping) = [InTask; InTask].
Proof.
  split; [|by vm_compute].
  apply after_call_reachable, (queue_clear false), after_call_reachable, queue_init.
Qed.
