(* ===== verification/TransactionSurfaceQueue.v ===== *)
(** * The transaction surface queue

    [SeamsWeb/walletIframe/client/surface/transactionSurfaceQueue.ts]: requests that
    need the wallet iframe's transaction surface take it in turn, each with a lease
    that it releases once.  Requests, lease objects, waiters' promises and timers
    are kept as the class keeps them; a step is one call, or one timer. *)

From S2P Require Import Prelude ListFacts JsValues.
Local Open Scope Z_scope.

(** ** Data *)

Inductive SurfaceDeadline : Type :=
| Deadline (atMs : Z)
| Interactive.

(** [TransactionSurfaceQueueState]. *)
Inductive SurfaceState : Type :=
| SurfaceIdle
| SurfaceActive (leaseId : Z) (requestId : string).

(** A waiter; [sw_promise] names its deferred promise, [sw_timer] is the time its
    timer is due.  A waiter that leaves the queue has its timer cleared: only the
    timers of the waiters in the queue can fire. *)
Record SurfaceWaiter : Type := mkWaiter {
  sw_requestId : string;
  sw_deadline : SurfaceDeadline;
  sw_promise : nat;
  sw_timer : option Z;
}.

(** A [TransactionSurfaceLease] object, and the promise it was given to. *)
Record SurfaceLease : Type := mkSurfaceLease {
  sl_leaseId : Z;
  sl_requestId : string;
  sl_released : bool;
  sl_promise : nat;
}.

(** The queue, the lease objects it created, in order, and the promises it
    returned: [None] is pending, [Ok n] resolved with the lease object [n]. *)
Record SurfaceQueue : Type := mkSurface {
  sq_clock : Z;
  sq_state : SurfaceState;
  sq_waiters : list SurfaceWaiter;
  sq_nextLeaseId : Z;
  sq_leases : list SurfaceLease;
  sq_promises : list (option (Result nat));
}.

Definition MAX_DEADLINE_TIMER_DELAY_MS : Z := 2147483647.

(** ** Operations *)

Definition with_waiters (ws : list SurfaceWaiter) (s : SurfaceQueue) : SurfaceQueue :=
  mkSurface (sq_clock s) (sq_state s) ws (sq_nextLeaseId s) (sq_leases s) (sq_promises s).
Definition with_state (st : SurfaceState) (s : SurfaceQueue) : SurfaceQueue :=
  mkSurface (sq_clock s) st (sq_waiters s) (sq_nextLeaseId s) (sq_leases s) (sq_promises s).
Definition with_leases (ls : list SurfaceLease) (s : SurfaceQueue) : SurfaceQueue :=
  mkSurface (sq_clock s) (sq_state s) (sq_waiters s) (sq_nextLeaseId s) ls (sq_promises s).
Definition with_promises (ps : list (option (Result nat))) (s : SurfaceQueue) : SurfaceQueue :=
  mkSurface (sq_clock s) (sq_state s) (sq_waiters s) (sq_nextLeaseId s) (sq_leases s) ps.

Definition timeoutError (requestId : string) : Exn :=
  JsError ("Wallet request " +:+ requestId +:+ " timed out before acquiring the transaction surface").

Definition cancelledError (requestId : string) : Exn :=
  JsError ("Wallet request " +:+ requestId +:+ " was cancelled").

(** [deferred.resolve] and [deferred.reject]: a settled promise stays as it is. *)
Definition settle (p : nat) (result : Result nat) (s : SurfaceQueue) : SurfaceQueue :=
  with_promises
    (alter (fun o => match o with Some r => Some r | None => Some result end) p (sq_promises s)) s.

Definition deadline_passed (now : Z) (d : SurfaceDeadline) : bool :=
  match d with Deadline atMs => now >=? atMs | Interactive => false end.

(** The new lease object is the last one. *)
Definition startLease (requestId : string) (promise : nat) (s : SurfaceQueue) : SurfaceQueue :=
  let leaseId := sq_nextLeaseId s + 1 in
  mkSurface (sq_clock s) (SurfaceActive leaseId requestId) (sq_waiters s) leaseId
    (sq_leases s ++ [mkSurfaceLease leaseId requestId false promise]) (sq_promises s).

Definition scheduleWaiterDeadline (now : Z) (w : SurfaceWaiter) : SurfaceWaiter :=
  match sw_deadline w with
  | Interactive => w
  | Deadline atMs =>
      let remainingMs := atMs - now in
      mkWaiter (sw_requestId w) (sw_deadline w) (sw_promise w)
        (Some (now + setTimeout_delay (Z.max 1 (Z.min remainingMs MAX_DEADLINE_TIMER_DELAY_MS))))
  end.

(** [acquire]; the result names the returned promise. *)
Definition acquire (requestId : string) (deadline : SurfaceDeadline) (s : SurfaceQueue)
    : nat * SurfaceQueue :=
  let p := length (sq_promises s) in
  let now := sq_clock s in
  if deadline_passed now deadline then
    (p, with_promises (sq_promises s ++ [Some (Throw (timeoutError requestId))]) s)
  else
    match sq_state s, sq_waiters s with
    | SurfaceIdle, [] =>
        (p, startLease requestId p
              (with_promises (sq_promises s ++ [Some (Ok (length (sq_leases s)))]) s))
    | _, _ =>
        let waiter := scheduleWaiterDeadline now (mkWaiter requestId deadline p None) in
        (p, with_waiters (sq_waiters s ++ [waiter]) (with_promises (sq_promises s ++ [None]) s))
    end.

(** The first waiter of a request and the others. *)
Fixpoint take_waiter (p : SurfaceWaiter -> bool) (ws : list SurfaceWaiter)
    : option (SurfaceWaiter * list SurfaceWaiter) :=
  match ws with
  | [] => None
  | w :: rest =>
      if p w then Some (w, rest)
      else match take_waiter p rest with
           | Some (x, rest') => Some (x, w :: rest')
           | None => None
           end
  end.

Definition cancel (requestId : string) (s : SurfaceQueue) : SurfaceQueue :=
  match take_waiter (fun w => bool_decide (sw_requestId w = requestId)) (sq_waiters s) with
  | None => s
  | Some (w, rest) =>
      settle (sw_promise w) (Throw (cancelledError requestId)) (with_waiters rest s)
  end.

(** The loop of [cancelAll]. *)
Fixpoint reject_waiters (error : Exn) (ws : list SurfaceWaiter) (s : SurfaceQueue) : SurfaceQueue :=
  match ws with
  | [] => with_waiters [] s
  | w :: rest =>
      reject_waiters error rest (settle (sw_promise w) (Throw error) (with_waiters rest s))
  end.

Definition cancelAll (error : Exn) (s : SurfaceQueue) : SurfaceQueue :=
  reject_waiters error (sq_waiters s) s.

(** The loop of [grantNext], over the waiters that are left: it ends when a lease is
    started or no waiter is left. *)
Fixpoint grant_loop (ws : list SurfaceWaiter) (s : SurfaceQueue) : SurfaceQueue :=
  match sq_state s, ws with
  | SurfaceActive _ _, _ => s
  | SurfaceIdle, [] => s
  | SurfaceIdle, w :: rest =>
      let s := with_waiters rest s in
      if deadline_passed (sq_clock s) (sw_deadline w) then
        grant_loop rest (settle (sw_promise w) (Throw (timeoutError (sw_requestId w))) s)
      else
        grant_loop rest
          (settle (sw_promise w) (Ok (length (sq_leases s)))
             (startLease (sw_requestId w) (sw_promise w) s))
  end.

Definition grantNext (s : SurfaceQueue) : SurfaceQueue := grant_loop (sq_waiters s) s.

Definition release (leaseId : Z) (s : SurfaceQueue) : SurfaceQueue :=
  match sq_state s with
  | SurfaceActive active _ =>
      if active =? leaseId then grantNext (with_state SurfaceIdle s) else s
  | SurfaceIdle => s
  end.

(** [release()] of the lease object [n]. *)
Definition lease_release (n : nat) (s : SurfaceQueue) : SurfaceQueue :=
  match sq_leases s !! n with
  | None => s
  | Some l =>
      if sl_released l then s
      else
        release (sl_leaseId l)
          (with_leases
             (<[n := mkSurfaceLease (sl_leaseId l) (sl_requestId l) true (sl_promise l)]> (sq_leases s)) s)
  end.

(** The timer of the waiter of promise [p]. *)
Definition expireWaiter (p : nat) (s : SurfaceQueue) : SurfaceQueue :=
  match take_waiter (fun w => (sw_promise w =? p)%nat) (sq_waiters s) with
  | None => s
  | Some (w, rest) =>
      if match sw_deadline w with Deadline atMs => sq_clock s <? atMs | Interactive => false end then
        with_waiters
          (map (fun x => if (sw_promise x =? p)%nat then scheduleWaiterDeadline (sq_clock s) x else x)
             (sq_waiters s)) s
      else settle (sw_promise w) (Throw (timeoutError (sw_requestId w))) (with_waiters rest s)
  end.

(** ** The system *)

Definition initial_surface (now : Z) : SurfaceQueue := mkSurface now SurfaceIdle [] 0 [] [].

Inductive surface_step : SurfaceQueue -> SurfaceQueue -> Prop :=
| surface_tick s now' :
    sq_clock s <= now' ->
    surface_step s (mkSurface now' (sq_state s) (sq_waiters s) (sq_nextLeaseId s) (sq_leases s)
                      (sq_promises s))
| surface_acquire s requestId deadline : surface_step s (acquire requestId deadline s).2
| surface_cancel s requestId : surface_step s (cancel requestId s)
| surface_cancelAll s error : surface_step s (cancelAll error s)
| surface_lease_release s n : surface_step s (lease_release n s)
| surface_timer s w at_ms :
    w ∈ sq_waiters s -> sw_timer w = Some at_ms -> at_ms <= sq_clock s ->
    surface_step s (expireWaiter (sw_promise w) s).

Inductive surface_reachable : SurfaceQueue -> Prop :=
| surface_init now : surface_reachable (initial_surface now)
| surface_next s s' : surface_reachable s -> surface_step s s' -> surface_reachable s'.

(** ** Invariant *)

(** A waiter's timer is due no later than its deadline. *)
Definition timer_ok (w : SurfaceWaiter) : Prop :=
  match sw_deadline w with
  | Deadline atMs => exists t, sw_timer w = Some t /\ t <= atMs
  | Interactive => sw_timer w = None
  end.

(** The lease objects are numbered in order, the active one is the only one that
    is not released, promises were granted and wait in the order of arrival, and the
    pending promises are those of the waiters. *)
Record surface_core (s : SurfaceQueue) : Prop := {
  sc_next : sq_nextLeaseId s = Z.of_nat (length (sq_leases s));
  sc_ids : forall n l, sq_leases s !! n = Some l -> sl_leaseId l = Z.of_nat n + 1;
  sc_active : forall n l, sq_leases s !! n = Some l ->
    sl_released l = false <-> sq_state s = SurfaceActive (sl_leaseId l) (sl_requestId l);
  sc_holder : forall i rq, sq_state s = SurfaceActive i rq ->
    exists n l, sq_leases s !! n = Some l /\ sl_leaseId l = i /\ sl_requestId l = rq;
  sc_order : StronglySorted lt (map sl_promise (sq_leases s) ++ map sw_promise (sq_waiters s));
  sc_pending : forall p, sq_promises s !! p = Some None <-> p ∈ map sw_promise (sq_waiters s);
  sc_granted : forall p n, sq_promises s !! p = Some (Some (Ok n)) <->
    exists l, sq_leases s !! n = Some l /\ sl_promise l = p;
  sc_timers : forall w, w ∈ sq_waiters s -> timer_ok w;
}.

Definition surface_inv (s : SurfaceQueue) : Prop :=
  surface_core s /\ (sq_state s = SurfaceIdle -> sq_waiters s = []).

Lemma take_waiter_spec p ws w rest :
  take_waiter p ws = Some (w, rest) ->
  exists l1 l2, ws = l1 ++ w :: l2 /\ rest = l1 ++ l2 /\ p w = true.
Proof.
  revert rest. induction ws as [|x ws IH]; intros rest; simpl; [done|].
  destruct (p x) eqn:Hx.
  - intros [= <- <-]. by exists [], ws.
  - destruct (take_waiter p ws) as [[y rest']|]; [|done]. intros [= <- <-].
    destruct (IH _ eq_refl) as (l1 & l2 & -> & -> & Hp). by exists (x :: l1), l2.
Qed.

Section Core.
Context (s : SurfaceQueue) (Hs : surface_core s).

Lemma core_waiter_promise w : w ∈ sq_waiters s -> sq_promises s !! sw_promise w = Some None.
Proof. intros Hw. apply (sc_pending _ Hs). apply list_elem_of_fmap. eauto. Qed.

Lemma core_promise_lt p :
  p ∈ map sl_promise (sq_leases s) ++ map sw_promise (sq_waiters s) -> (p < length (sq_promises s))%nat.
Proof.
  intros [(l & -> & [n Hn]%list_elem_of_lookup)%list_elem_of_fmap|Hw]%elem_of_app.
  - apply (lookup_lt_Some _ _ (Some (Ok n))). apply (sc_granted _ Hs). eauto.
  - apply (lookup_lt_Some _ _ None). by apply (sc_pending _ Hs).
Qed.

Lemma settle_lookup p result q :
  sq_promises (settle p result s) !! q =
  if decide (p = q) then (fun o => match o with Some r => Some r | None => Some result end) <$> sq_promises s !! q
  else sq_promises s !! q.
Proof.
  apply lookup_alter_spec.
Qed.

(** A waiter leaves the queue with an error. *)
Lemma core_drop l1 w l2 error :
  sq_waiters s = l1 ++ w :: l2 ->
  surface_core (settle (sw_promise w) (Throw error) (with_waiters (l1 ++ l2) s)).
Proof.
  intros Hw. assert (sq_promises s !! sw_promise w = Some None) as Hp
    by (apply core_waiter_promise; rewrite Hw; set_solver).
  pose proof (sorted_nodup _ (sc_order _ Hs)) as Hn. rewrite Hw, map_app in Hn. simpl in Hn.
  apply NoDup_app in Hn as (_ & _ & Hn). apply NoDup_app in Hn as (Hn1 & Hn12 & Hn2).
  apply NoDup_cons in Hn2 as [Hn2 _].
  split; simpl; try apply Hs.
  - eapply sorted_sublist; [|apply (sc_order _ Hs)]. rewrite Hw, !map_app. simpl.
    apply sublist_app; [done|]. apply sublist_app; [done|]. by apply sublist_cons.
  - intros q. change (alter _ _ _ !! q) with (sq_promises (settle (sw_promise w) (Throw error) s) !! q).
    rewrite settle_lookup. case_decide as E.
    + subst. rewrite Hp. simpl. split; [done|]. rewrite map_app. intros [Hq|Hq]%elem_of_app; [|done].
      destruct (Hn12 _ Hq). set_solver.
    + rewrite (sc_pending _ Hs q), Hw, !map_app. simpl. set_solver.
  - intros q n. change (alter _ _ _ !! q) with (sq_promises (settle (sw_promise w) (Throw error) s) !! q).
    rewrite settle_lookup. rewrite <- (sc_granted _ Hs q n). case_decide as E; [|done].
    subst. by rewrite Hp.
  - intros x Hx. apply (sc_timers _ Hs). rewrite Hw. set_solver.
Qed.
End Core.

(** The surface is free and goes to the request of a promise that nobody was given. *)
Lemma core_start s p requestId ps ws :
  surface_core s -> sq_state s = SurfaceIdle ->
  StronglySorted lt (map sl_promise (sq_leases s) ++ p :: map sw_promise ws) ->
  (forall q, ps !! q = Some None <-> q ∈ map sw_promise ws) ->
  (forall q n, ps !! q = Some (Some (Ok n)) <->
     sq_promises s !! q = Some (Some (Ok n)) \/ q = p /\ n = length (sq_leases s)) ->
  (forall w, w ∈ ws -> w ∈ sq_waiters s) ->
  surface_core (startLease requestId p (with_waiters ws (with_promises ps s))).
Proof.
  intros Hs Hidle Hsort Hpend Hgrant Hws.
  assert (forall n l, (sq_leases s ++ [mkSurfaceLease (sq_nextLeaseId s + 1) requestId false p]) !! n = Some l ->
    (n < length (sq_leases s))%nat /\ sq_leases s !! n = Some l \/
    n = length (sq_leases s) /\ l = mkSurfaceLease (sq_nextLeaseId s + 1) requestId false p) as Hnew.
  { intros n l [Hl|[Hge Hl]]%lookup_app_Some; [left; split; [by eapply lookup_lt_Some|done]|].
    right. apply list_lookup_singleton_Some in Hl as [Hl <-]. split; [lia|done]. }
  assert (forall n l, sq_leases s !! n = Some l -> sl_released l = true) as Hrel.
  { intros n l Hl. apply not_false_iff_true. rewrite (sc_active _ Hs _ _ Hl), Hidle. done. }
  pose proof (sc_next _ Hs) as Hnext.
  split; simpl.
  - rewrite length_app, Hnext. simpl. lia.
  - intros n l [[_ Hl]|[-> ->]]%Hnew; [by apply Hs|]. simpl. lia.
  - intros n l [[Hlt Hl]|[-> ->]]%Hnew; [|done].
    rewrite (Hrel _ _ Hl), (sc_ids _ Hs _ _ Hl). split; [done|]. intros [= E _]. lia.
  - intros i rq [= <- <-]. exists (length (sq_leases s)).
    eexists. split; [by apply list_lookup_middle|done].
  - rewrite map_app. simpl. by rewrite <- (assoc_L (++)).
  - apply Hpend.
  - intros q n. rewrite Hgrant, (sc_granted _ Hs q n). split.
    + intros [(l & Hl & Hq)|[-> ->]].
      * exists l. split; [by apply lookup_app_l_Some|done].
      * eexists. split; [by apply list_lookup_middle|done].
    + intros (l & [[_ Hl]|[-> ->]]%Hnew & Hq); [left; eauto|]. by right.
  - intros w Hw. apply (sc_timers _ Hs). auto.
Qed.

(** The loop ends with a lease for the first waiter in time, or with none left. *)
Lemma grant_loop_ok ws : forall s,
  surface_core s -> sq_waiters s = ws -> surface_inv (grant_loop ws s).
Proof.
  induction ws as [|w rest IH]; intros s Hs Hw; simpl.
  - destruct (sq_state s) eqn:E; split; try done; by rewrite Hw.
  - destruct (sq_state s) eqn:E; [|by split; [|congruence]].
    destruct (deadline_passed _ _) eqn:Hd.
    + apply IH; [|done]. by apply (core_drop s Hs []).
    + assert (forall s', sq_state s' = SurfaceActive (sq_nextLeaseId s + 1) (sw_requestId w) ->
                grant_loop rest s' = s') as Hstop.
      { intros s' Hs'. destruct rest; simpl; by rewrite Hs'. }
      rewrite Hstop by done. split; [|done].
      apply (core_start s (sw_promise w) (sw_requestId w)
               (sq_promises (settle (sw_promise w) (Ok (length (sq_leases s))) s)) rest Hs E).
      * pose proof (sc_order _ Hs) as Ho. by rewrite Hw in Ho.
      * intros q. pose proof (core_drop s Hs [] w rest (JsError "") Hw) as Hc.
        pose proof (sc_pending _ Hc q) as Hq. rewrite <- Hq.
        rewrite (settle_lookup s). change (sq_promises (settle _ _ (with_waiters _ s)))
          with (sq_promises (settle (sw_promise w) (Throw (JsError "")) s)).
        rewrite (settle_lookup s). case_decide; [|done].
        destruct (sq_promises s !! q) as [[]|]; naive_solver.
      * intros q n. rewrite settle_lookup. case_decide as Eq.
        -- subst q. rewrite (core_waiter_promise s Hs w) by (rewrite Hw; set_solver). simpl.
           naive_solver.
        -- split; [by left|]. intros [?|[-> _]]; done.
      * intros x Hx. rewrite Hw. set_solver.
Qed.

Lemma release_inv n l s :
  surface_inv s -> sq_leases s !! n = Some l -> sl_released l = false ->
  surface_inv (lease_release n s).
Proof.
  intros [Hs _] Hl Hr. unfold lease_release. rewrite Hl, Hr.
  pose proof (proj1 (sc_active _ Hs _ _ Hl) Hr) as Hact. unfold release. simpl. rewrite Hact.
  rewrite Z.eqb_refl. apply grant_loop_ok; [|done].
  set (l' := mkSurfaceLease (sl_leaseId l) (sl_requestId l) true (sl_promise l)).
  assert (forall m x, <[n := l']> (sq_leases s) !! m = Some x ->
            exists y, sq_leases s !! m = Some y /\ sl_leaseId x = sl_leaseId y /\
              sl_requestId x = sl_requestId y /\ sl_promise x = sl_promise y /\ sl_released x = true) as Hins.
  { intros m x. destruct (decide (n = m)) as [<-|Hne].
    - rewrite list_lookup_insert_eq by (by eapply lookup_lt_Some). intros [= <-]. by exists l.
    - rewrite list_lookup_insert_ne by done. intros Hx. exists x. split_and!; [done..|].
      apply not_false_iff_true. rewrite (sc_active _ Hs _ _ Hx), Hact. intros [= E _].
      rewrite (sc_ids _ Hs _ _ Hl), (sc_ids _ Hs _ _ Hx) in E. lia. }
  assert (map sl_promise (<[n := l']> (sq_leases s)) = map sl_promise (sq_leases s)) as Hmap.
  { rewrite list_fmap_insert. apply list_insert_id. by rewrite list_lookup_fmap, Hl. }
  split; simpl; try apply Hs.
  - rewrite length_insert. apply Hs.
  - intros m x (y & Hy & -> & _)%Hins. by apply Hs.
  - intros m x (y & _ & _ & _ & _ & ->)%Hins. done.
  - done.
  - rewrite Hmap. apply Hs.
  - intros q m. rewrite (sc_granted _ Hs q m). split.
    + intros (y & Hy & <-). destruct (decide (n = m)) as [<-|Hne].
      * exists l'. rewrite list_lookup_insert_eq by (by eapply lookup_lt_Some). by simplify_eq.
      * exists y. by rewrite list_lookup_insert_ne.
    + intros (x & (y & Hy & _ & _ & Hp & _)%Hins & Hx). exists y. split; [done|congruence].
Qed.

(** The new waiter's timer is armed in time. *)
Lemma schedule_ok now w :
  deadline_passed now (sw_deadline w) = false ->
  sw_timer w = None \/ sw_deadline w <> Interactive -> timer_ok (scheduleWaiterDeadline now w).
Proof.
  unfold timer_ok, scheduleWaiterDeadline. destruct (sw_deadline w) as [atMs|] eqn:E; simpl.
  - intros Hd _. eexists. split; [done|]. unfold setTimeout_delay, MAX_DEADLINE_TIMER_DELAY_MS.
    assert (1 <= Z.max 1 (Z.min (atMs - now) 2147483647) <= 2147483647) as Hb by lia.
    rewrite Z.mod_small by lia. lia.
  - rewrite E. intros _ [?|?]; [done|congruence].
Qed.

Lemma schedule_promise now w : sw_promise (scheduleWaiterDeadline now w) = sw_promise w.
Proof. unfold scheduleWaiterDeadline. by destruct (sw_deadline w). Qed.

Lemma core_order_snoc s :
  surface_core s ->
  StronglySorted lt ((map sl_promise (sq_leases s) ++ map sw_promise (sq_waiters s))
                     ++ [length (sq_promises s)]).
Proof. intros Hs. apply StronglySorted_snoc; [apply Hs|]. by apply core_promise_lt. Qed.

Lemma acquire_inv requestId deadline s :
  surface_inv s -> surface_inv (acquire requestId deadline s).2.
Proof.
  intros [Hs Hidle]. unfold acquire. destruct (deadline_passed _ _) eqn:Hd; simpl.
  { split; [|done]. split; simpl; try apply Hs.
    - intros p. rewrite snoc_lookup, <- (sc_pending _ Hs p). naive_solver.
    - intros p n. rewrite snoc_lookup, <- (sc_granted _ Hs p n). naive_solver. }
  pose proof (core_order_snoc s Hs) as Ho.
  assert (forall st, sq_state s = st -> st <> SurfaceIdle \/ sq_waiters s <> [] ->
    surface_inv (with_waiters
      (sq_waiters s ++ [scheduleWaiterDeadline (sq_clock s) (mkWaiter requestId deadline (length (sq_promises s)) None)])
      (with_promises (sq_promises s ++ [None]) s))) as Hqueue.
  { intros st Hst Hbusy. split; [|intros Hi; simpl in Hi; naive_solver].
    split; simpl; try apply Hs.
    - rewrite map_app, (assoc_L (++)). simpl. by rewrite schedule_promise.
    - intros p. rewrite snoc_lookup, (sc_pending _ Hs p), map_app. simpl. rewrite schedule_promise.
      simpl. set_solver.
    - intros p n. rewrite snoc_lookup, <- (sc_granted _ Hs p n). naive_solver.
    - intros w [Hw|Hw]%elem_of_app; [by apply Hs|]. apply list_elem_of_singleton in Hw as ->.
      apply schedule_ok; [done|by left]. }
  destruct (sq_state s) eqn:Est; [|eapply Hqueue; [done|left; congruence]].
  destruct (sq_waiters s) as [|w0 ws] eqn:Ew.
  2: { rewrite <- Ew in *. eapply Hqueue; [done|]. right. congruence. }
  split; [|done].
  apply (core_start s (length (sq_promises s)) requestId
           (sq_promises s ++ [Some (Ok (length (sq_leases s)))]) (sq_waiters s) Hs Est).
  - rewrite Ew in *. simpl in *. by rewrite app_nil_r in Ho.
  - intros q. rewrite snoc_lookup, <- (sc_pending _ Hs q). naive_solver.
  - intros q n. rewrite snoc_lookup. naive_solver.
  - done.
Qed.

Lemma drop_inv s l1 w l2 error :
  surface_inv s -> sq_waiters s = l1 ++ w :: l2 ->
  surface_inv (settle (sw_promise w) (Throw error) (with_waiters (l1 ++ l2) s)).
Proof.
  intros [Hs Hidle] Hw. split; [by apply core_drop|]. intros Hi.
  rewrite Hw in Hidle. by destruct l1; specialize (Hidle Hi).
Qed.

Lemma cancelAll_inv error s : surface_inv s -> surface_inv (cancelAll error s).
Proof.
  unfold cancelAll. remember (sq_waiters s) as ws eqn:Hw. revert s Hw.
  induction ws as [|w ws IH]; intros s Hw Hs; simpl.
  - destruct Hs as [Hs _]. split; [|done]. destruct s. simpl in *. by subst.
  - apply IH; [done|]. by apply (drop_inv s [] w ws).
Qed.

Lemma expireWaiter_inv p s : surface_inv s -> surface_inv (expireWaiter p s).
Proof.
  intros Hs. unfold expireWaiter. destruct (take_waiter _ _) as [[w rest]|] eqn:Ht; [|done].
  apply take_waiter_spec in Ht as (l1 & l2 & Hw & -> & Hp). apply Nat.eqb_eq in Hp.
  destruct (match sw_deadline w with Deadline _ => _ | _ => _ end) eqn:Hd; [|by apply drop_inv].
  set (f := fun x => if (sw_promise x =? p)%nat then scheduleWaiterDeadline (sq_clock s) x else x).
  assert (map sw_promise (map f (sq_waiters s)) = map sw_promise (sq_waiters s)) as Hmap.
  { rewrite map_map. apply map_ext. intros x. unfold f. destruct (_ =? _)%nat; [|done].
    apply schedule_promise. }
  destruct Hs as [Hs Hidle]. split; [|intros Hi; simpl; by rewrite (Hidle Hi)].
  split; simpl; try apply Hs; rewrite ?Hmap; try apply Hs.
  intros x (y & -> & Hy)%list_elem_of_fmap. unfold f. destruct (_ =? _)%nat eqn:E; [|by apply Hs].
  apply Nat.eqb_eq in E.
  assert (y = w) as ->.
  { assert (w ∈ sq_waiters s) as Hin by (rewrite Hw; set_solver).
    apply list_elem_of_lookup in Hy as [i Hi], Hin as [j Hj].
    assert (i = j) as ->; [|congruence].
    pose proof (sorted_nodup _ (sc_order _ Hs)) as Hn. apply NoDup_app in Hn as (_ & _ & Hn).
    apply (NoDup_lookup _ i j p Hn); rewrite list_lookup_fmap; [rewrite Hi|rewrite Hj]; simpl; congruence. }
  apply schedule_ok; destruct (sw_deadline w); simpl; [lia|done|by right|by left; naive_solver].
Qed.

Lemma surface_step_inv s s' : surface_inv s -> surface_step s s' -> surface_inv s'.
Proof.
  intros Hs Hstep. destruct Hstep as [s now Hle|s rq d|s rq|s e|s n|s w t Hw Ht Hle].
  - destruct Hs as [Hs Hi]. split; [|done]. split; apply Hs.
  - by apply acquire_inv.
  - unfold cancel. destruct (take_waiter _ _) as [[w rest]|] eqn:Ht; [|done].
    apply take_waiter_spec in Ht as (l1 & l2 & Hw & -> & _). by apply drop_inv.
  - by apply cancelAll_inv.
  - destruct (sq_leases s !! n) as [l|] eqn:Hl; [|unfold lease_release; by rewrite Hl].
    destruct (sl_released l) eqn:Hr; [unfold lease_release; by rewrite Hl, Hr|].
    by eapply release_inv.
  - by apply expireWaiter_inv.
Qed.

Lemma surface_reachable_inv s : surface_reachable s -> surface_inv s.
Proof.
  induction 1 as [now|s s' _ IH Hstep]; [|by eapply surface_step_inv].
  split; [|done]. split; simpl; try done; try set_solver. constructor.
Qed.

(** ** Exclusion, order, no lost wake-up *)

(** At most one lease of the transaction surface is not released, in every
    reachable state, and it is the active one.  While the surface is idle nobody
    waits.  The promises that are pending are exactly those of the waiters; leases
    were granted, and waiters wait, in the order in which the requests arrived; and
    the timer of a waiter is armed for its deadline or earlier. *)
Theorem surface_exclusive s :
  surface_reachable s ->
  (forall n m l k, sq_leases s !! n = Some l -> sq_leases s !! m = Some k ->
     sl_released l = false -> sl_released k = false -> n = m) /\
  (forall n l, sq_leases s !! n = Some l -> sl_released l = false ->
     sq_state s = SurfaceActive (sl_leaseId l) (sl_requestId l)) /\
  (sq_state s = SurfaceIdle -> sq_waiters s = []) /\
  (forall p, sq_promises s !! p = Some None <-> p ∈ map sw_promise (sq_waiters s)) /\
  StronglySorted lt (map sl_promise (sq_leases s) ++ map sw_promise (sq_waiters s)) /\
  (forall w, w ∈ sq_waiters s -> timer_ok w).
Proof.
  intros [Hs Hidle]%surface_reachable_inv. split_and!; [..|done|apply Hs|apply Hs|apply Hs].
  - intros n m l k Hn Hm Hl Hk.
    apply (sc_active _ Hs _ _ Hn) in Hl. apply (sc_active _ Hs _ _ Hm) in Hk.
    pose proof (sc_ids _ Hs _ _ Hn). pose proof (sc_ids _ Hs _ _ Hm).
    rewrite Hl in Hk. simplify_eq. lia.
  - intros n l Hn. by apply (sc_active _ Hs n l).
Qed.

(** ** Release *)

(** The first waiter whose deadline has not passed. *)
Definition next_in_time (now : Z) (ws : list SurfaceWaiter) : option SurfaceWaiter :=
  List.find (fun w => negb (deadline_passed now (sw_deadline w))) ws.

Lemma grant_loop_active i rq ws s : sq_state s = SurfaceActive i rq -> grant_loop ws s = s.
Proof. intros Hs. destruct ws; simpl; by rewrite Hs. Qed.

Lemma grant_loop_spec ws : forall s,
  sq_state s = SurfaceIdle -> sq_waiters s = ws ->
  (forall w, w ∈ ws -> sq_promises s !! sw_promise w = Some None) ->
  NoDup (map sw_promise ws) ->
  let s' := grant_loop ws s in
  match next_in_time (sq_clock s) ws with
  | Some w =>
      sq_state s' = SurfaceActive (sq_nextLeaseId s + 1) (sw_requestId w) /\
      sq_promises s' !! sw_promise w = Some (Some (Ok (length (sq_leases s)))) /\
      (length (sq_waiters s') < length ws)%nat
  | None => sq_state s' = SurfaceIdle /\ sq_waiters s' = []
  end /\
  take (length (sq_leases s)) (sq_leases s') = sq_leases s.
Proof.
  induction ws as [|w rest IH]; intros s Hi Hw Hp Hn; simpl; rewrite Hi; simpl.
  - split; [done|]. by rewrite firstn_all.
  - apply NoDup_cons in Hn as [Hnw Hn]. destruct (deadline_passed _ _) eqn:Hd; simpl.
    + set (s1 := settle _ _ _).
      destruct (IH s1) as [H1 H2]; [done|done| |done|].
      { intros x Hx. unfold s1. rewrite settle_lookup. rewrite decide_False; [apply Hp; set_solver|].
        intros E. apply Hnw. rewrite E. apply list_elem_of_fmap. eauto. }
      split; [|done]. change (sq_clock s) with (sq_clock s1). fold (next_in_time (sq_clock s1) rest).
      destruct (next_in_time (sq_clock s1) rest); [|done]. destruct H1 as (? & ? & ?).
      split_and!; [done..|lia].
    + rewrite (grant_loop_active (sq_nextLeaseId s + 1) (sw_requestId w)) by done. simpl.
      split; [|apply take_app_length]. split_and!; [done| |lia].
      rewrite list_lookup_alter_eq, Hp by set_solver. done.
Qed.

(** Releasing every lease in turn, at one moment. *)
Fixpoint release_in_turn (k : nat) (s : SurfaceQueue) : SurfaceQueue :=
  match k, sq_state s with
  | S k, SurfaceActive leaseId _ => release_in_turn k (lease_release (Z.to_nat (leaseId - 1)) s)
  | _, _ => s
  end.

(** The effect of a release that is the lease's first. *)
Lemma lease_release_effect n l s :
  surface_inv s -> sq_leases s !! n = Some l -> sl_released l = false ->
  let s' := lease_release n s in
  match next_in_time (sq_clock s) (sq_waiters s) with
  | Some w =>
      sq_state s' = SurfaceActive (sq_nextLeaseId s + 1) (sw_requestId w) /\
      sq_promises s' !! sw_promise w = Some (Some (Ok (length (sq_leases s)))) /\
      (length (sq_waiters s') < length (sq_waiters s))%nat
  | None => sq_state s' = SurfaceIdle /\ sq_waiters s' = []
  end /\
  exists l', sq_leases s' !! n = Some l' /\ sl_released l' = true.
Proof.
  intros [Hs _] Hl Hr s'. unfold s', lease_release, release, grantNext. rewrite Hl, Hr. simpl.
  rewrite (proj1 (sc_active _ Hs _ _ Hl) Hr), Z.eqb_refl.
  pose proof (sorted_nodup _ (sc_order _ Hs)) as Hn. apply NoDup_app in Hn as (_ & _ & Hn).
  match goal with |- context [grant_loop _ ?x] => set (s1 := x) end.
  destruct (grant_loop_spec (sq_waiters s) s1) as [H1 H2]; [done|done|exact (core_waiter_promise s Hs)|done|].
  split.
  - simpl in H1. by rewrite length_insert in H1.
  - exists (mkSurfaceLease (sl_leaseId l) (sl_requestId l) true (sl_promise l)). split; [|done].
    pose proof (lookup_lt_Some _ _ _ Hl) as Hlt.
    rewrite <- (lookup_take_lt _ (length (sq_leases s1))) by (simpl; by rewrite length_insert).
    rewrite H2. simpl. apply list_lookup_insert_eq. by eapply lookup_lt_Some.
Qed.

(** Releasing the active lease gives the surface to the first waiter whose
    deadline has not passed, or leaves it idle when there is none; releasing a lease
    a second time, or a lease that is not the active one, has no effect. *)
Theorem surface_release_spec n l s :
  surface_reachable s -> sq_leases s !! n = Some l ->
  if sl_released l then lease_release n s = s
  else
    let s' := lease_release n s in
    match next_in_time (sq_clock s) (sq_waiters s) with
    | Some w =>
        sq_state s' = SurfaceActive (sq_nextLeaseId s + 1) (sw_requestId w) /\
        sq_promises s' !! sw_promise w = Some (Some (Ok (length (sq_leases s))))
    | None => sq_state s' = SurfaceIdle /\ sq_waiters s' = []
    end /\
    lease_release n s' = s'.
Proof.
  intros Hs%surface_reachable_inv Hl. destruct (sl_released l) eqn:Hr.
  { unfold lease_release. by rewrite Hl, Hr. }
  destruct (lease_release_effect n l s Hs Hl Hr) as [H1 (l' & Hl' & Hr')]. simpl. split.
  - destruct (next_in_time _ _); [|done]. by destruct H1 as (? & ? & _).
  - remember (lease_release n s) as s' eqn:E. unfold lease_release. by rewrite Hl', Hr'.
Qed.

Lemma release_in_turn_ok k : forall s,
  surface_inv s -> (length (sq_waiters s) < k)%nat ->
  surface_inv (release_in_turn k s) /\ sq_state (release_in_turn k s) = SurfaceIdle.
Proof.
  induction k as [|k IH]; intros s Hs Hk; [lia|]. simpl. destruct (sq_state s) as [|i rq] eqn:E; [done|].
  destruct (sc_holder _ (proj1 Hs) _ _ E) as (n & l & Hl & <- & Hrq).
  rewrite (sc_ids _ (proj1 Hs) _ _ Hl). replace (Z.to_nat _) with n by lia.
  assert (sl_released l = false) as Hr by (apply (sc_active _ (proj1 Hs) n l Hl); congruence).
  pose proof (release_inv n l s Hs Hl Hr) as Hs'.
  destruct (lease_release_effect n l s Hs Hl Hr) as [H1 _].
  destruct (next_in_time _ _) as [w|].
  - destruct H1 as (_ & _ & Hlt). apply IH; [done|lia].
  - destruct H1 as [Hi _]. destruct k; simpl; by rewrite ?Hi.
Qed.

(** Nobody waits for ever: when each holder releases its lease, one release per
    waiter and one for the present holder answer every request.  After them the
    surface is idle, nobody waits and no promise is pending. *)
Theorem surface_live s k :
  surface_reachable s -> (length (sq_waiters s) < k)%nat ->
  let s' := release_in_turn k s in
  sq_state s' = SurfaceIdle /\ sq_waiters s' = [] /\ (forall p, sq_promises s' !! p <> Some None).
Proof.
  intros Hs%surface_reachable_inv Hk s'.
  destruct (release_in_turn_ok k s Hs Hk) as [[Hc Hi] Hst]. specialize (Hi Hst). split_and!; [done..|].
  intros p Hp. apply (sc_pending _ Hc) in Hp. fold s' in Hi. unfold s' in Hi. rewrite Hi in Hp. set_solver.
Qed.

(** ** Runs *)

(** One holder, a waiter whose deadline will have passed, and one without a deadline. *)
Definition three_requests : SurfaceQueue :=
  Eval vm_compute in
    let s := (acquire "r3" Interactive (acquire "r2" (Deadline 50)
                (acquire "r1" Interactive (initial_surface 10)).2).2).2 in
    mkSurface 60 (sq_state s) (sq_waiters s) (sq_nextLeaseId s) (sq_leases s) (sq_promises s).

Lemma three_requests_reachable : surface_reachable three_requests.
Proof.
  set (s := (acquire "r3" Interactive (acquire "r2" (Deadline 50)
              (acquire "r1" Interactive (initial_surface 10)).2).2).2).
  assert (surface_reachable s) as Hs.
  { do 3 (eapply surface_next; [|apply surface_acquire]). apply surface_init. }
  apply (surface_next s); [exact Hs|]. apply (surface_tick s 60). vm_compute. discriminate.
Qed.

Lemma surface_exclusive_witness :
  surface_reachable three_requests /\ length (sq_waiters three_requests) = 2%nat /\
  StronglySorted lt (map sl_promise (sq_leases three_requests) ++ map sw_promise (sq_waiters three_requests)).
Proof.
  split; [exact three_requests_reachable|]. split; [reflexivity|].
  exact (proj1 (proj2 (proj2 (proj2 (proj2 (surface_exclusive three_requests three_requests_reachable)))))).
Defined.

Lemma surface_release_spec_witness :
  exists l, sq_leases three_requests !! 0%nat = Some l /\ sl_released l = false /\
    sq_state (lease_release 0 three_requests) = SurfaceActive 2 "r3".
Proof.
  eexists. split; [reflexivity|]. split; [reflexivity|].
  exact (proj1 (proj1 (surface_release_spec 0 (mkSurfaceLease 1 "r1" false 0) three_requests
                         three_requests_reachable eq_refl))).
Defined.

Lemma surface_live_witness :
  (length (sq_waiters three_requests) < 3)%nat /\
  sq_state (release_in_turn 3 three_requests) = SurfaceIdle.
Proof.
  assert (length (sq_waiters three_requests) < 3)%nat as Hlt by (vm_compute; lia).
  split; [exact Hlt|]. exact (proj1 (surface_live three_requests 3 three_requests_reachable Hlt)).
Defined.
