(* ===== verification/SigningStateMachine.v ===== *)
(** * The signing operation state machine

    [signingEngine/flows/shared/signingStateMachine.ts]: the states of one signing
    operation, the interactions that move it (review, authentication, cancellation,
    replanning), and the sequence of commands an approved plan is carried out with;
    [runTransactionSigningConfirmationCommand] of
    [flows/shared/signingConfirmation.ts] as their client.  The string-literal
    unions that are only copied are strings. *)

From S2P Require Import Prelude ListFacts JsValues.
Local Open Scope js_scope.

(** ** Session plans ([session/operationState/types.ts]) *)

Inductive LaneSigner : Type :=
| EvmFamilyEcdsaSigner (walletId : string)
| NearEd25519Signer (walletId nearAccountId nearEd25519SigningKeyId : string).

Inductive LaneAuth : Type :=
| AuthPasskey (rpId credentialIdB64u : string)
| AuthEmailOtp (providerSubjectId : string)
| AuthVoiceId (walletAuthMethodId deviceKeyId : string).

Record PlanningLane : Type := mkPlanningLane {
  pl_auth : LaneAuth;
  pl_curve : string;
  pl_keyKind : string;
  pl_chainFamily : string;
  pl_sessionOrigin : string;
  pl_storageSource : string;
  pl_retention : string;
  pl_signer : LaneSigner;
}.

Inductive SigningSessionNotReadyReason : Type :=
| MissingSession | NotReadyExpired | Exhausted | StatusUnknown | AuthUnavailable
| StatusUnavailable | PolicyBlocked.

Definition not_ready_string (r : SigningSessionNotReadyReason) : string :=
  match r with
  | MissingSession => "missing_session"
  | NotReadyExpired => "expired"
  | Exhausted => "exhausted"
  | StatusUnknown => "status_unknown"
  | AuthUnavailable => "auth_unavailable"
  | StatusUnavailable => "status_unavailable"
  | PolicyBlocked => "policy_blocked"
  end.

(** The key reference, the challenge and the reconnect plan are carried along. *)
Inductive SigningSessionPlan : Type :=
| WarmSession (lane : PlanningLane) (keyRef : JsVal)
| EmailOtpReauth (lane : PlanningLane) (challenge : JsVal)
| PasskeyReauth (lane : PlanningLane) (reconnect : JsVal)
| NotReady (lane : PlanningLane) (reason : SigningSessionNotReadyReason)
| OperationStepUp (lane : PlanningLane).

Definition plan_kind (p : SigningSessionPlan) : string :=
  match p with
  | WarmSession _ _ => "warm_session"
  | EmailOtpReauth _ _ => "email_otp_reauth"
  | PasskeyReauth _ _ => "passkey_reauth"
  | NotReady _ _ => "not_ready"
  | OperationStepUp _ => "operation_step_up"
  end.

Definition plan_lane (p : SigningSessionPlan) : PlanningLane :=
  match p with
  | WarmSession l _ | EmailOtpReauth l _ | PasskeyReauth l _ | NotReady l _ | OperationStepUp l => l
  end.

Definition signingLaneAuthMethod (auth : LaneAuth) : string :=
  match auth with
  | AuthPasskey _ _ => "passkey"
  | AuthEmailOtp _ => "email_otp"
  | AuthVoiceId _ _ => "voiceid"
  end.

Record SigningLaneSummary : Type := mkLaneSummary {
  ls_authMethod : string;
  ls_curve : string;
  ls_keyKind : string;
  ls_chainFamily : string;
  ls_sessionOrigin : string;
  ls_storageSource : string;
  ls_retention : string;
  ls_walletId : string;
  ls_near : option (string * string);
}.

Definition summarizeSigningLane (lane : PlanningLane) : SigningLaneSummary :=
  let summary curve walletId near :=
    mkLaneSummary (signingLaneAuthMethod (pl_auth lane)) curve (pl_keyKind lane)
      (pl_chainFamily lane) (pl_sessionOrigin lane) (pl_storageSource lane) (pl_retention lane)
      walletId near in
  match pl_signer lane with
  | EvmFamilyEcdsaSigner walletId => summary "ecdsa" walletId None
  | NearEd25519Signer walletId nearAccountId keyId =>
      summary "ed25519" walletId (Some (nearAccountId, keyId))
  end.

Record SigningPlanSummary : Type := mkPlanSummary {
  ps_kind : string;
  ps_lane : SigningLaneSummary;
}.

Definition summarizeSigningSessionPlan (plan : SigningSessionPlan) : SigningPlanSummary :=
  mkPlanSummary (plan_kind plan) (summarizeSigningLane (plan_lane plan)).

(** ** States, commands, events *)

Inductive CancellationPhase : Type := PhaseReview | PhaseAuthentication | PhaseExecution.
Inductive ReviewApproval : Type := ApprovalPending | Approved.

Inductive SigningOperationState : Type :=
| Created
| Planned (plan : SigningSessionPlan)
| ConfirmationApproved (plan : SigningSessionPlan)
| AuthenticationInProgress (plan : SigningSessionPlan) (reviewApproval : ReviewApproval)
| AuthReady (plan : SigningSessionPlan)
| ThresholdConnected (plan : SigningSessionPlan)
| PayloadPrepared (plan : SigningSessionPlan)
| SignedOperation (plan : SigningSessionPlan)
| CleanedUp (plan : SigningSessionPlan)
| Completed (plan : SigningSessionPlan)
| FailedOperation (plan : SigningSessionPlan) (reason : string)
| CancelledOperation (plan : SigningSessionPlan) (phase : CancellationPhase).

Definition state_kind (st : SigningOperationState) : string :=
  match st with
  | Created => "created"
  | Planned _ => "planned"
  | ConfirmationApproved _ => "confirmation_approved"
  | AuthenticationInProgress _ _ => "authentication_in_progress"
  | AuthReady _ => "auth_ready"
  | ThresholdConnected _ => "threshold_connected"
  | PayloadPrepared _ => "payload_prepared"
  | SignedOperation _ => "signed"
  | CleanedUp _ => "cleaned_up"
  | Completed _ => "completed"
  | FailedOperation _ _ => "failed"
  | CancelledOperation _ _ => "cancelled"
  end.

(** ['plan' in state]. *)
Definition state_plan (st : SigningOperationState) : option SigningSessionPlan :=
  match st with
  | Created => None
  | Planned p | ConfirmationApproved p | AuthenticationInProgress p _ | AuthReady p
  | ThresholdConnected p | PayloadPrepared p | SignedOperation p | CleanedUp p | Completed p
  | FailedOperation p _ | CancelledOperation p _ => Some p
  end.

Inductive InteractionEvent : Type :=
| ReviewApproved
| AuthenticationStarted
| AuthenticationCompleted.

Inductive CommandKind : Type :=
| ShowConfirmation | RequestOtp | RequestPasskey | ConnectThreshold | PreparePayload | SignCommand
| CleanupCommand.

#[global] Instance CommandKind_eq_dec : EqDecision CommandKind.
Proof. solve_decision. Defined.

Record SigningOperationContext : Type := mkOperationContext {
  oc_operationId : string;
  oc_intent : string;
  oc_operationFingerprint : option string;
}.

Record SigningOperationCommand : Type := mkCommand {
  cm_kind : CommandKind;
  cm_plan : SigningSessionPlan;
  cm_lane : PlanningLane;
  cm_operation : option SigningOperationContext;
}.

Record SigningOperationTransitionEvent : Type := mkTransitionEvent {
  te_from : string;
  te_to : string;
  te_command : option CommandKind;
  te_operationId : option string;
  te_plan : SigningPlanSummary;
  te_lane : SigningLaneSummary;
  te_reason : option string;
}.

Record SigningOperationStep : Type := mkStep {
  st_from : SigningOperationState;
  st_to : SigningOperationState;
  st_command : option SigningOperationCommand;
  st_traceEvent : SigningOperationTransitionEvent;
}.

Record SigningOperationPlan : Type := mkOperationPlan {
  op_sessionPlan : SigningSessionPlan;
  op_operation : option SigningOperationContext;
  op_commands : list CommandKind;
}.

(** [SigningOperationStateRef]: the one mutable cell of the machine. *)
Record StateRef : Type := mkStateRef {
  sr_operationId : string;
  sr_current : SigningOperationState;
}.

Definition set_current (st : SigningOperationState) : M StateRef unit :=
  modify (fun r => mkStateRef (sr_operationId r) st).

Definition machine_error {W A} (message : string) : M W A :=
  throw (JsError ("[SigningOperationMachine] " +:+ message)).

(** ** Interactions *)

Definition createSigningOperationStateRef (operationId : string) : StateRef :=
  mkStateRef operationId Created.

Definition planSigningOperationAttempt (plan : SigningSessionPlan) : M StateRef SigningOperationState :=
  current <- gets sr_current ;;
  let advance nextState := set_current nextState ;; ret nextState in
  match current with
  | Created | Planned _ => advance (Planned plan)
  | ConfirmationApproved _ | AuthReady _ | ThresholdConnected _ | PayloadPrepared _
  | SignedOperation _ | CleanedUp _ => advance (ConfirmationApproved plan)
  | AuthenticationInProgress _ Approved => advance (ConfirmationApproved plan)
  | AuthenticationInProgress _ ApprovalPending => advance (Planned plan)
  | Completed _ => machine_error "completed operation cannot be replanned"
  | FailedOperation _ _ => machine_error "failed operation cannot be replanned"
  | CancelledOperation _ _ => machine_error "cancelled operation cannot be replanned"
  end.

Definition approveSigningOperationConfirmation : M StateRef unit :=
  current <- gets sr_current ;;
  match current with
  | Planned plan => set_current (ConfirmationApproved plan)
  | ConfirmationApproved _ | AuthReady _ | ThresholdConnected _ | PayloadPrepared _
  | SignedOperation _ | CleanedUp _ => ret tt
  | AuthenticationInProgress plan _ => set_current (AuthenticationInProgress plan Approved)
  | Created => machine_error "operation must be planned before confirmation"
  | Completed _ => machine_error "completed operation cannot be confirmed"
  | FailedOperation _ _ => machine_error "failed operation cannot be confirmed"
  | CancelledOperation _ _ => machine_error "cancelled operation cannot be confirmed"
  end.

Definition beginSigningOperationAuthentication : M StateRef unit :=
  current <- gets sr_current ;;
  match current with
  | Planned plan => set_current (AuthenticationInProgress plan ApprovalPending)
  | ConfirmationApproved plan => set_current (AuthenticationInProgress plan Approved)
  | AuthenticationInProgress _ _ => ret tt
  | Created => machine_error "operation must be planned before authentication"
  | AuthReady _ | ThresholdConnected _ | PayloadPrepared _ | SignedOperation _ | CleanedUp _ => ret tt
  | Completed _ => machine_error "completed operation cannot authenticate"
  | FailedOperation _ _ => machine_error "failed operation cannot authenticate"
  | CancelledOperation _ _ => machine_error "cancelled operation cannot authenticate"
  end.

Definition completeSigningOperationAuthentication : M StateRef unit :=
  current <- gets sr_current ;;
  match current with
  | AuthenticationInProgress plan Approved => set_current (AuthReady plan)
  | AuthenticationInProgress _ ApprovalPending =>
      machine_error "authentication cannot complete before transaction approval"
  | ConfirmationApproved _ | AuthReady _ | ThresholdConnected _ | PayloadPrepared _
  | SignedOperation _ | CleanedUp _ => ret tt
  | Created | Planned _ =>
      machine_error "authentication cannot complete before transaction approval"
  | Completed _ => machine_error "completed operation cannot authenticate"
  | FailedOperation _ _ => machine_error "failed operation cannot authenticate"
  | CancelledOperation _ _ => machine_error "cancelled operation cannot authenticate"
  end.

Definition applySigningOperationInteractionEvent (event : InteractionEvent) : M StateRef unit :=
  match event with
  | ReviewApproved => approveSigningOperationConfirmation
  | AuthenticationStarted => beginSigningOperationAuthentication
  | AuthenticationCompleted => completeSigningOperationAuthentication
  end.

Definition cancelSigningOperation : M StateRef (SigningSessionPlan * CancellationPhase) :=
  current <- gets sr_current ;;
  let cancelled plan phase := set_current (CancelledOperation plan phase) ;; ret (plan, phase) in
  match current with
  | Planned plan => cancelled plan PhaseReview
  | AuthenticationInProgress plan _ => cancelled plan PhaseAuthentication
  | ConfirmationApproved plan | AuthReady plan | ThresholdConnected plan | PayloadPrepared plan =>
      cancelled plan PhaseExecution
  | Created => machine_error "operation must be planned before cancellation"
  | SignedOperation _ | CleanedUp _ | Completed _ =>
      machine_error "completed signing cannot be cancelled"
  | FailedOperation _ _ => machine_error "failed operation cannot be cancelled"
  | CancelledOperation plan phase => ret (plan, phase)
  end.

Definition isSigningOperationReviewApprovedState (st : SigningOperationState) : bool :=
  match st with
  | Created | Planned _ | FailedOperation _ _ | CancelledOperation _ _ => false
  | AuthenticationInProgress _ Approved => true
  | AuthenticationInProgress _ ApprovalPending => false
  | ConfirmationApproved _ | AuthReady _ | ThresholdConnected _ | PayloadPrepared _
  | SignedOperation _ | CleanedUp _ | Completed _ => true
  end.

(** On the kind of a planned or approved state. *)
Definition isSigningOperationReviewApprovedStateKind (kind : string) : Result bool :=
  if bool_decide (kind = "planned") then Ok false
  else if bool_decide (kind = "confirmation_approved") then Ok true
  else Throw (JsError ("Unsupported signing operation state kind: " +:+ kind)).

(** ** Steps *)

Definition withOperation (command : SigningOperationCommand)
    (operation : option SigningOperationContext) : SigningOperationCommand :=
  match operation with
  | Some o => mkCommand (cm_kind command) (cm_plan command) (cm_lane command) (Some o)
  | None => command
  end.

Definition commandForPlan (operationPlan : SigningOperationPlan) (command : SigningOperationCommand)
    : option SigningOperationCommand :=
  if bool_decide (cm_kind command ∈ op_commands operationPlan)
  then Some (withOperation command (op_operation operationPlan))
  else None.

(** [getTransitionPlan]; the target of every step has a plan, so that the error is
    not reached. *)
Definition getTransitionPlan (from to : SigningOperationState) : option SigningSessionPlan :=
  match state_plan to with
  | Some plan => Some plan
  | None => state_plan from
  end.

Definition transition (from to : SigningOperationState) (command : option SigningOperationCommand)
    (reason : option string) : Result SigningOperationStep :=
  match getTransitionPlan from to with
  | None => Throw (JsError "[SigningOperationMachine] transition has no signing plan")
  | Some plan =>
      Ok (mkStep from to command
            (mkTransitionEvent (state_kind from) (state_kind to) (cm_kind <$> command)
               (command ≫= fun c => oc_operationId <$> cm_operation c)
               (summarizeSigningSessionPlan plan) (summarizeSigningLane (plan_lane plan))
               (match reason with Some r => if nonempty r then Some r else None | None => None end)))
  end.

(** The list of steps under construction and the state it has reached. *)
Definition Pushed : Type := list SigningOperationStep * SigningOperationState.

Definition pushTransition (acc : Result Pushed) (to : SigningOperationState)
    (command : option SigningOperationCommand) : Result Pushed :=
  match acc with
  | Throw e => Throw e
  | Ok (steps, from) =>
      match transition from to command None with
      | Throw e => Throw e
      | Ok step => Ok (steps ++ [step], st_to step)
      end
  end.

Definition buildSigningOperationSteps (operationPlan : SigningOperationPlan)
    (initialState : SigningOperationState) : Result (list SigningOperationStep) :=
  let plan := op_sessionPlan operationPlan in
  let command kind := commandForPlan operationPlan (mkCommand kind plan (plan_lane plan) None) in
  let rest acc :=
    let acc := pushTransition acc (PayloadPrepared plan) (command PreparePayload) in
    let acc := pushTransition acc (SignedOperation plan) (command SignCommand) in
    let acc := pushTransition acc (CleanedUp plan) (command CleanupCommand) in
    match pushTransition acc (Completed plan) None with
    | Throw e => Throw e
    | Ok (steps, _) => Ok steps
    end in
  let confirmed :=
    pushTransition (Ok ([], initialState)) (ConfirmationApproved plan) (command ShowConfirmation) in
  match plan with
  | NotReady _ reason =>
      match transition initialState (FailedOperation plan (not_ready_string reason)) None
              (Some (not_ready_string reason)) with
      | Throw e => Throw e
      | Ok step => Ok [step]
      end
  | EmailOtpReauth _ _ =>
      let acc := pushTransition confirmed (AuthReady plan) (command RequestOtp) in
      rest (pushTransition acc (ThresholdConnected plan) (command ConnectThreshold))
  | PasskeyReauth _ _ =>
      let acc := pushTransition confirmed (AuthReady plan) (command RequestPasskey) in
      rest (pushTransition acc (ThresholdConnected plan) (command ConnectThreshold))
  | WarmSession _ _ | OperationStepUp _ => rest (pushTransition confirmed (AuthReady plan) None)
  end.

(** The index after the last step with a command. *)
Fixpoint after_last_command (index : nat) (steps : list SigningOperationStep) : nat :=
  match steps with
  | [] => O
  | step :: rest =>
      match after_last_command (S index) rest with
      | O => match st_command step with Some _ => S index | None => O end
      | n => n
      end
  end.

Definition buildSigningOperationCommandSteps (operationPlan : SigningOperationPlan)
    : Result (list SigningOperationStep) :=
  match buildSigningOperationSteps operationPlan (Planned (op_sessionPlan operationPlan)) with
  | Throw e => Throw e
  | Ok steps => Ok (take (after_last_command 0 steps) steps)
  end.

(** ** Execution

    The executor and the observer are given; they act on a world [W]. *)

Inductive RunStepsResult : Type :=
| RunOk (finalState : SigningOperationState)
| RunFailed (plan : SigningSessionPlan) (reason : string) (error : Exn).

Definition getExecutionErrorReason (error : Exn) : string :=
  if nonempty (trim (errorMessage error)) then errorMessage error else "execution_command_failed".

Section Execution.
Context {W : Type}.
Context (execute : SigningOperationCommand -> M W unit).
Context (onTransition : option (SigningOperationTransitionEvent -> M W unit)).

Definition observe (event : SigningOperationTransitionEvent) : M W unit :=
  match onTransition with Some f => f event | None => ret tt end.

(** The step's command, with the error it ended in. *)
Definition attempt (step : SigningOperationStep) : M W (option (SigningOperationCommand * Exn)) :=
  match st_command step with
  | None => ret None
  | Some command =>
      try_catch (execute command ;; ret None) (fun error => ret (Some (command, error)))
  end.

(** The loop; [executed] is the target of the last step that was carried out. *)
Fixpoint run_steps (executed : option SigningOperationState) (steps : list SigningOperationStep)
    : M W RunStepsResult :=
  match steps with
  | [] =>
      match executed with
      | Some finalState => ret (RunOk finalState)
      | None => machine_error "command sequence produced no steps"
      end
  | step :: rest =>
      outcome <- attempt step ;;
      match outcome with
      | Some (command, error) =>
          let reason := getExecutionErrorReason error in
          failedStep <- lift (transition (st_from step) (FailedOperation (cm_plan command) reason)
                                (Some command) (Some reason)) ;;
          observe (st_traceEvent failedStep) ;;
          ret (RunFailed (cm_plan command) reason error)
      | None =>
          observe (st_traceEvent step) ;;
          match st_to step with
          | FailedOperation _ _ => ret (RunOk (st_to step))
          | _ => run_steps (Some (st_to step)) rest
          end
      end
  end.

(** [args.steps.at(-1)?.from] is only read when no step was carried out, that is
    when there is none. *)
Definition runSigningOperationCommandSteps (steps : list SigningOperationStep)
    : M W RunStepsResult := run_steps None steps.

Fixpoint runUnplannedSigningOperationCommandSequence (executeKind : CommandKind -> M W unit)
    (commands : list CommandKind) : M W unit :=
  match commands with
  | [] => ret tt
  | command :: rest =>
      executeKind command ;; runUnplannedSigningOperationCommandSequence executeKind rest
  end.
End Execution.

(** [runSigningOperationCommand]: the value of [execute] is kept in a variable beside
    the world. *)
Definition on_world {W V A} (m : M W A) : M (W * V) A :=
  fun '(w, v) => let '(r, w') := m w in (r, (w', v)).

Definition runSigningOperationCommand {W T : Type} (plan : SigningSessionPlan)
    (operation : SigningOperationContext) (commandKind : CommandKind) (execute : M W T)
    : M W (option T) :=
  fun w =>
    let executor (command : SigningOperationCommand) : M (W * option T) unit :=
      if bool_decide (cm_kind command = commandKind)
      then (value <- on_world execute ;; modify (fun '(w, _) => (w, Some value)))
      else ret tt in
    let body : M (W * option T) (option T) :=
      steps <- lift (buildSigningOperationCommandSteps
                       (mkOperationPlan plan (Some operation) [commandKind])) ;;
      result <- runSigningOperationCommandSteps executor None steps ;;
      match result with
      | RunFailed _ _ error => throw error
      | RunOk (FailedOperation _ reason) => throw (JsError reason)
      | RunOk _ => gets snd
      end in
    let '(r, (w', _)) := body (w, None) in (r, w').

(** [runTransactionSigningConfirmationCommand]: the confirmation is given; it runs
    with the machine's state in its world and reports interaction events to it.
    [isUserCancellation] classifies the errors it throws. *)
Definition walletOperationStepUpCancelled : Exn :=
  JsCodedError "wallet_operation_step_up_cancelled" "Request cancelled.".

Definition runTransactionSigningConfirmationCommand {T : Type} (isUserCancellation : Exn -> bool)
    (plan : SigningSessionPlan) (operation : SigningOperationContext)
    (runConfirmation : SigningOperationState -> M StateRef T) : M StateRef (option T) :=
  confirmationState <- planSigningOperationAttempt plan ;;
  try_catch
    (runSigningOperationCommand plan operation ShowConfirmation (runConfirmation confirmationState))
    (fun error =>
       if negb (isUserCancellation error) then throw error
       else
         cancelled <- cancelSigningOperation ;;
         match snd cancelled with
         | PhaseAuthentication => throw walletOperationStepUpCancelled
         | _ => throw error
         end).

(** ** Nothing is authorized before the review is approved *)

(** What a flow may ask of the machine. *)
Inductive MachineCall : Type :=
| CallPlan (plan : SigningSessionPlan)
| CallEvent (event : InteractionEvent)
| CallCancel.

Definition run_call (call : MachineCall) : M StateRef unit :=
  match call with
  | CallPlan plan => planSigningOperationAttempt plan ;; ret tt
  | CallEvent event => applySigningOperationInteractionEvent event
  | CallCancel => cancelSigningOperation ;; ret tt
  end.

(** The calls one after the other; a caller may go on after an error. *)
Definition run_calls (calls : list MachineCall) (r : StateRef) : StateRef :=
  List.fold_left (fun r call => (run_call call r).2) calls r.

Lemma run_calls_snoc calls call r :
  run_calls (calls ++ [call]) r = (run_call call (run_calls calls r)).2.
Proof. unfold run_calls. by rewrite List.fold_left_app. Qed.

Lemma sublist_snoc_pair {A} (x y : A) l : x ∈ l -> [x; y] `sublist_of` l ++ [y].
Proof.
  intros (l1 & l2 & ->)%list_elem_of_split. rewrite <- (assoc_L (++)). simpl.
  apply (sublist_app [] l1 [x; y]); [apply sublist_nil_l|]. apply sublist_skip.
  apply (sublist_app [] l2 [y]); [apply sublist_nil_l|done].
Qed.

(** What the calls so far must contain for the machine to be in a state. *)
Definition explained (calls : list MachineCall) (st : SigningOperationState) : Prop :=
  match st with
  | Created => True
  | Planned p => CallPlan p ∈ calls
  | ConfirmationApproved p =>
      CallPlan p ∈ calls /\ exists q, [CallPlan q; CallEvent ReviewApproved] `sublist_of` calls
  | AuthenticationInProgress p a =>
      CallPlan p ∈ calls /\ CallEvent AuthenticationStarted ∈ calls /\
      (a = Approved -> exists q, [CallPlan q; CallEvent ReviewApproved] `sublist_of` calls)
  | AuthReady p =>
      CallPlan p ∈ calls /\ (exists q, [CallPlan q; CallEvent ReviewApproved] `sublist_of` calls) /\
      [CallEvent ReviewApproved; CallEvent AuthenticationCompleted] `sublist_of` calls /\
      [CallEvent AuthenticationStarted; CallEvent AuthenticationCompleted] `sublist_of` calls
  | CancelledOperation p _ => CallPlan p ∈ calls /\ CallCancel ∈ calls
  | _ => False
  end.

Lemma sublist_snoc {A} (l k : list A) x : l `sublist_of` k -> l `sublist_of` k ++ [x].
Proof. intros H. by apply sublist_inserts_r. Qed.

Lemma approved_call calls q :
  [CallPlan q; CallEvent ReviewApproved] `sublist_of` calls -> CallEvent ReviewApproved ∈ calls.
Proof. intros H. eapply sublist_elem; [done|]. set_solver. Qed.

#[local] Hint Resolve sublist_snoc sublist_snoc_pair approved_call : core.

Lemma explained_snoc calls call st : explained calls st -> explained (calls ++ [call]) st.
Proof. destruct st; simpl; try done; rewrite ?elem_of_app; naive_solver eauto. Qed.

Lemma explained_call calls call r :
  explained calls (sr_current r) -> explained (calls ++ [call]) (sr_current (run_call call r).2).
Proof.
  intros H. pose proof (explained_snoc calls call _ H) as Hkeep.
  destruct r as [id st]. simpl in H, Hkeep.
  destruct call as [p|[]|], st as [ | | |? []| | | | | | | | ]; try (exact Hkeep || done);
    simpl in *; rewrite ?elem_of_app, ?list_elem_of_singleton in *; naive_solver eauto.
Qed.

Lemma run_calls_explained calls operationId :
  explained calls (sr_current (run_calls calls (createSigningOperationStateRef operationId))).
Proof.
  induction calls as [|call calls IH] using rev_ind; [done|].
  rewrite run_calls_snoc. by apply explained_call.
Qed.

Lemma cancelled_kept calls r p phase :
  sr_current r = CancelledOperation p phase -> sr_current (run_calls calls r) = CancelledOperation p phase.
Proof.
  intros Hr. induction calls as [|call calls IH] using rev_ind; [done|].
  rewrite run_calls_snoc. destruct (run_calls calls r) as [id st]. simpl in IH. subst st.
  by destruct call as [q|[]|].
Qed.

(** C22. Whatever calls a flow makes, in whatever order and going on after errors:
    the machine regards the review as approved only after a plan was made and then
    its review approved; it is ready to sign only after the authentication was
    started, and completed after the review was approved; the plan it holds is one
    it was given; and a cancelled operation stays cancelled. *)
Theorem signing_needs_approval operationId calls :
  let r := run_calls calls (createSigningOperationStateRef operationId) in
  (isSigningOperationReviewApprovedState (sr_current r) = true ->
     exists plan, [CallPlan plan; CallEvent ReviewApproved] `sublist_of` calls) /\
  (forall plan, sr_current r = AuthReady plan ->
     [CallEvent ReviewApproved; CallEvent AuthenticationCompleted] `sublist_of` calls /\
     [CallEvent AuthenticationStarted; CallEvent AuthenticationCompleted] `sublist_of` calls) /\
  (forall plan, state_plan (sr_current r) = Some plan -> CallPlan plan ∈ calls) /\
  (forall plan phase more, sr_current r = CancelledOperation plan phase ->
     sr_current (run_calls more r) = CancelledOperation plan phase).
Proof.
  intros r. pose proof (run_calls_explained calls operationId) as H. fold r in H.
  split_and!; [..|by intros; apply cancelled_kept];
    destruct (sr_current r) as [ | | |? []| | | | | | | | ]; simpl in *; naive_solver.
Qed.

(** Planning again keeps what was approved: it fails, and changes nothing, on a
    completed, failed or cancelled operation, and otherwise the new state has the new
    plan and is approved exactly when the old one was, which is also what the kind it
    hands to the confirmation says. *)
Lemma replan_keeps_approval plan r :
  match planSigningOperationAttempt plan r with
  | (Ok st, r') =>
      r' = mkStateRef (sr_operationId r) st /\ state_plan st = Some plan /\
      isSigningOperationReviewApprovedState st = isSigningOperationReviewApprovedState (sr_current r) /\
      isSigningOperationReviewApprovedStateKind (state_kind st) =
        Ok (isSigningOperationReviewApprovedState (sr_current r))
  | (Throw _, r') =>
      r' = r /\
      match sr_current r with
      | Completed _ | FailedOperation _ _ | CancelledOperation _ _ => True
      | _ => False
      end
  end.
Proof. by destruct r as [id [ | | |? []| | | | | | | | ]]. Qed.

(** ** Commands are carried out in order *)

(** The commands a plan is carried out with, and the state each one leads to. *)
Definition plan_commands (plan : SigningSessionPlan) : list CommandKind :=
  match plan with
  | NotReady _ _ => []
  | EmailOtpReauth _ _ =>
      [ShowConfirmation; RequestOtp; ConnectThreshold; PreparePayload; SignCommand; CleanupCommand]
  | PasskeyReauth _ _ =>
      [ShowConfirmation; RequestPasskey; ConnectThreshold; PreparePayload; SignCommand; CleanupCommand]
  | WarmSession _ _ | OperationStepUp _ =>
      [ShowConfirmation; PreparePayload; SignCommand; CleanupCommand]
  end.

Definition state_after (plan : SigningSessionPlan) (kind : CommandKind) : SigningOperationState :=
  match kind with
  | ShowConfirmation => ConfirmationApproved plan
  | RequestOtp | RequestPasskey => AuthReady plan
  | ConnectThreshold => ThresholdConnected plan
  | PreparePayload => PayloadPrepared plan
  | SignCommand => SignedOperation plan
  | CleanupCommand => CleanedUp plan
  end.

(** The commands of the plan that the caller asked for, in the plan's order. *)
Definition requested (operationPlan : SigningOperationPlan) : list SigningOperationCommand :=
  let plan := op_sessionPlan operationPlan in
  omap (fun kind => commandForPlan operationPlan (mkCommand kind plan (plan_lane plan) None))
    (plan_commands plan).

(** Carrying out commands one by one up to the first error. *)
Fixpoint in_order {W} (execute : SigningOperationCommand -> M W unit)
    (commands : list SigningOperationCommand) (w : W) : option (SigningOperationCommand * Exn) * W :=
  match commands with
  | [] => (None, w)
  | command :: rest =>
      match execute command w with
      | (Ok _, w') => in_order execute rest w'
      | (Throw e, w') => (Some (command, e), w')
      end
  end.

Lemma after_last_command_shift steps : forall index,
  after_last_command (S index) steps =
  match after_last_command index steps with O => O | n => S n end.
Proof.
  induction steps as [|step steps IH]; intros index; simpl; [done|].
  rewrite (IH (S index)), (IH index).
  destruct (after_last_command index steps) as [|[|n]]; simpl; try done; by destruct (st_command step).
Qed.

Fixpoint commands_of (steps : list SigningOperationStep) : list SigningOperationCommand :=
  match steps with
  | [] => []
  | step :: rest =>
      match st_command step with Some c => c :: commands_of rest | None => commands_of rest end
  end.

(** Cutting after the last command loses no command. *)
Lemma cut_after_last steps :
  let cut := take (after_last_command 0 steps) steps in
  commands_of cut = commands_of steps /\
  (after_last_command 0 steps = O -> commands_of steps = []) /\
  (forall step, last cut = Some step -> st_command step <> None).
Proof.
  induction steps as [|step steps (IH1 & IH2 & IH3)]; simpl; [done|].
  rewrite after_last_command_shift. destruct (after_last_command 0 steps) as [|n] eqn:E.
  - specialize (IH2 eq_refl). rewrite IH2.
    destruct (st_command step) as [c|] eqn:Hc; simpl; rewrite ?Hc; split_and!; try done.
    intros step' [= <-]. by rewrite Hc.
  - change (take (S (S n)) (step :: steps)) with (step :: take (S n) steps).
    split_and!; [|done|].
    + simpl in *. by rewrite IH1.
    + intros step'. destruct steps as [|s2 steps]; [done|]. apply IH3.
Qed.

(** The loop, on steps whose commands carry the plan and of which none fails by itself. *)
Lemma run_steps_in_order {W} (execute : SigningOperationCommand -> M W unit) plan steps :
  forall executed w,
  (forall step, step ∈ steps -> (forall p reason, st_to step <> FailedOperation p reason) /\
     (forall c, st_command step = Some c -> cm_plan c = plan)) ->
  run_steps execute None executed steps w =
  match in_order execute (commands_of steps) w with
  | (Some (command, e), w') => (Ok (RunFailed plan (getExecutionErrorReason e) e), w')
  | (None, w') =>
      match (match last steps with Some step => Some (st_to step) | None => executed end) with
      | Some finalState => (Ok (RunOk finalState), w')
      | None => (Throw (JsError "[SigningOperationMachine] command sequence produced no steps"), w')
      end
  end.
Proof.
  induction steps as [|step steps IH]; intros executed w Hok; simpl; [by destruct executed|].
  destruct (Hok step ltac:(set_solver)) as [Hto Hplan].
  assert (forall w', run_steps execute None (Some (st_to step)) steps w' =
    match in_order execute (commands_of steps) w' with
    | (Some (command, e), w') => (Ok (RunFailed plan (getExecutionErrorReason e) e), w')
    | (None, w') =>
        match (match last (step :: steps) with Some step => Some (st_to step) | None => executed end) with
        | Some finalState => (Ok (RunOk finalState), w')
        | None => (Throw (JsError "[SigningOperationMachine] command sequence produced no steps"), w')
        end
    end) as Hnext.
  { intros w'. rewrite IH by set_solver. destruct steps as [|s2 steps]; [done|].
    change (last (step :: s2 :: steps)) with (last (s2 :: steps)). 
    by destruct (proj2 (last_is_Some (s2 :: steps))) as [x ->]. }
  assert (forall (A : Type) (x y : A),
    match st_to step with FailedOperation _ _ => x | _ => y end = y) as Hgo.
  { intros A x y. destruct (st_to step) as [ | | | | | | | | | |p reason| ] eqn:Et; try done.
    by destruct (Hto p reason). }
  unfold attempt, observe, try_catch, bind. destruct (st_command step) as [c|] eqn:Hc; simpl.
  - destruct (execute c w) as [[[]|e] w']; simpl.
    + by rewrite Hgo, Hnext.
    + by rewrite (Hplan _ eq_refl).
  - by rewrite Hgo, Hnext.
Qed.

(** Each step starts where the one before it ended. *)
Fixpoint chained (from : SigningOperationState) (steps : list SigningOperationStep)
    (to : SigningOperationState) : Prop :=
  match steps with
  | [] => from = to
  | step :: rest => st_from step = from /\ chained (st_to step) rest to
  end.

Definition plan_ready (plan : SigningSessionPlan) : bool :=
  match plan with NotReady _ _ => false | _ => true end.

Lemma commandForPlan_inv op c c' :
  commandForPlan op c = Some c' ->
  cm_kind c' = cm_kind c /\ cm_plan c' = cm_plan c /\ cm_kind c ∈ op_commands op.
Proof.
  unfold commandForPlan, withOperation. case_bool_decide; [|done]. intros [= <-].
  by destruct (op_operation op).
Qed.

#[local] Arguments commandForPlan : simpl never.

Lemma build_steps_ok op :
  let plan := op_sessionPlan op in
  plan_ready plan = true ->
  exists steps, buildSigningOperationSteps op (Planned plan) = Ok steps /\
    commands_of steps = requested op /\ chained (Planned plan) steps (Completed plan) /\
    Forall (fun step => (forall p reason, st_to step <> FailedOperation p reason) /\
      (forall c, st_command step = Some c ->
         cm_plan c = plan /\ st_to step = state_after plan (cm_kind c))) steps.
Proof.
  intros plan Hready. subst plan. destruct op as [plan operation commands]. simpl in *.
  unfold buildSigningOperationSteps, requested. simpl.
  destruct plan; [..|done|]; simpl; (eexists; split; [reflexivity|]);
    (split; [reflexivity|]); (split; [done|]);
    repeat (apply List.Forall_cons; [split; [done|]|]); try apply List.Forall_nil; simpl; try done;
    (intros c (Hk & Hp & _)%commandForPlan_inv; rewrite Hk; by split).
Qed.

Lemma last_elem {A} (l : list A) x : last l = Some x -> x ∈ l.
Proof. intros (l' & ->)%last_Some. set_solver. Qed.

Lemma last_command steps step c :
  last steps = Some step -> st_command step = Some c -> last (commands_of steps) = Some c.
Proof.
  induction steps as [|s1 steps IH]; [done|]. destruct steps as [|s2 steps].
  - intros [= ->] Hc. simpl. by rewrite Hc.
  - change (last (s1 :: s2 :: steps)) with (last (s2 :: steps)). intros Hl Hc.
    specialize (IH Hl Hc). change (commands_of (s1 :: s2 :: steps)) with
      (match st_command s1 with Some c => c :: commands_of (s2 :: steps) | None => commands_of (s2 :: steps) end).
    destruct (st_command s1); [|done]. rewrite last_cons, IH. done.
Qed.

Lemma build_commands_ok op :
  let plan := op_sessionPlan op in
  exists steps, buildSigningOperationCommandSteps op = Ok steps /\ commands_of steps = requested op /\
    (requested op = [] -> steps = []) /\
    (forall step, step ∈ steps -> (forall p reason, st_to step <> FailedOperation p reason) /\
       (forall c, st_command step = Some c -> cm_plan c = plan)) /\
    (forall c, last (requested op) = Some c ->
       exists step, last steps = Some step /\ st_to step = state_after plan (cm_kind c)).
Proof.
  intros plan. unfold buildSigningOperationCommandSteps. fold plan.
  destruct (plan_ready plan) eqn:Hready.
  - destruct (build_steps_ok op Hready) as (steps & Hb & Hc & _ & Hall). fold plan in Hb, Hall.
    rewrite Hb. destruct (cut_after_last steps) as (Hcut & Hzero & Hlast).
    set (cut := take _ _) in *. exists cut. rewrite Forall_forall in Hall.
    assert (forall step, step ∈ cut -> step ∈ steps) as Hsub
      by (intros step Hs; by apply elem_of_take in Hs as (i & Hi & _); eapply list_elem_of_lookup_2).
    split_and!; [done|congruence|..].
    + intros Hnil. destruct (last cut) as [step|] eqn:Hl; [|by apply last_None in Hl].
      destruct (st_command step) as [c|] eqn:Hs; [|by destruct (Hlast _ eq_refl)].
      pose proof (last_command _ _ _ Hl Hs) as Hx. rewrite Hcut, Hc, Hnil in Hx. done.
    + intros step Hs. destruct (Hall step (Hsub _ Hs)) as [? Hcmd]. split; [done|].
      intros c Hstep. by destruct (Hcmd c Hstep).
    + intros c Hl. destruct (last cut) as [step|] eqn:Hl'.
      * destruct (st_command step) as [c'|] eqn:Hs; [|by destruct (Hlast _ eq_refl)].
        pose proof (last_command _ _ _ Hl' Hs) as Hx. rewrite Hcut, Hc, Hl in Hx. injection Hx as <-.
        exists step. split; [done|]. apply last_elem, Hsub, Hall in Hl' as [_ Hcmd]. by apply Hcmd.
      * apply last_None in Hl'. rewrite Hl' in Hcut. simpl in Hcut. rewrite <- Hc, <- Hcut in Hl. done.
  - unfold plan in *. unfold buildSigningOperationSteps, requested.
    destruct (op_sessionPlan op); try done. simpl. eexists. split; [done|]. simpl.
    split_and!; [done..| |done]. intros step Hs. set_solver.
Qed.

Lemma commands_run {W} (execute : SigningOperationCommand -> M W unit) op w :
  exists steps, buildSigningOperationCommandSteps op = Ok steps /\
    runSigningOperationCommandSteps execute None steps w =
    match last (requested op) with
    | None => (Throw (JsError "[SigningOperationMachine] command sequence produced no steps"), w)
    | Some final =>
        match in_order execute (requested op) w with
        | (None, w') => (Ok (RunOk (state_after (op_sessionPlan op) (cm_kind final))), w')
        | (Some (command, e), w') =>
            (Ok (RunFailed (op_sessionPlan op) (getExecutionErrorReason e) e), w')
        end
    end.
Proof.
  destruct (build_commands_ok op) as (steps & Hb & Hc & Hnil & Hok & Hlast).
  exists steps. split; [done|]. unfold runSigningOperationCommandSteps.
  rewrite (run_steps_in_order execute (op_sessionPlan op)) by done. rewrite Hc.
  destruct (last (requested op)) as [c|] eqn:Hl.
  - destruct (Hlast c eq_refl) as (step & -> & ->). done.
  - apply last_None in Hl. rewrite Hl, (Hnil Hl). done.
Qed.

(** Carrying out a plan is carrying out, in the plan's order, the commands
    that the caller asked for and the plan has, up to the first error.  Without an
    error the operation ends in the state its last command leads to; an error ends it
    as failed, with the error and its reason, and no later command is carried out.
    When the plan has none of the commands, nothing is carried out and the run
    fails. *)
Theorem commands_run_in_order {W} (execute : SigningOperationCommand -> M W unit) op w :
  exists steps, buildSigningOperationCommandSteps op = Ok steps /\
    runSigningOperationCommandSteps execute None steps w =
    match last (requested op) with
    | None => (Throw (JsError "[SigningOperationMachine] command sequence produced no steps"), w)
    | Some final =>
        match in_order execute (requested op) w with
        | (None, w') => (Ok (RunOk (state_after (op_sessionPlan op) (cm_kind final))), w')
        | (Some (command, e), w') =>
            (Ok (RunFailed (op_sessionPlan op) (getExecutionErrorReason e) e), w')
        end
    end.
Proof. apply commands_run. Qed.

(** ** One command *)

Lemma requested_single plan operation kind :
  requested (mkOperationPlan plan (Some operation) [kind]) =
  if bool_decide (kind ∈ plan_commands plan)
  then [mkCommand kind plan (plan_lane plan) (Some operation)] else [].
Proof.
  unfold requested, commandForPlan, withOperation. simpl.
  destruct plan, kind; vm_compute; reflexivity.
Qed.

Lemma single_command {W T} plan operation kind (execute : M W T) w :
  runSigningOperationCommand plan operation kind execute w =
  if bool_decide (kind ∈ plan_commands plan) then
    match execute w with
    | (Ok value, w') => (Ok (Some value), w')
    | (Throw e, w') => (Throw e, w')
    end
  else (Throw (JsError "[SigningOperationMachine] command sequence produced no steps"), w).
Proof.
  unfold runSigningOperationCommand. set (executor := fun command : SigningOperationCommand => _).
  destruct (commands_run executor (mkOperationPlan plan (Some operation) [kind]) (w, None))
    as (steps & Hb & Hrun).
  assert (forall A B (m : M (W * option T) A) (k : A -> M (W * option T) B) x,
    bind m k x = match m x with (Ok a, x') => k a x' | (Throw e, x') => (Throw e, x') end)
    as Hbind by done.
  rewrite Hb, Hbind. unfold lift. rewrite Hbind, Hrun, requested_single.
  case_bool_decide as Hk; [|done]. cbn [last in_order cm_kind op_sessionPlan].
  unfold executor. cbn [cm_kind]. rewrite bool_decide_eq_true_2 by done.
  rewrite Hbind. unfold on_world. destruct (execute w) as [[v|e] w']; [|done].
  simpl. by destruct kind.
Qed.

(** [runSigningOperationCommand] carries out its command once, and returns or
    throws what it does, exactly when the plan has the command; for a plan that lacks
    it, and for every plan that is not ready, it throws without carrying it out. *)
Theorem single_command_spec {W T} plan operation kind (execute : M W T) w :
  runSigningOperationCommand plan operation kind execute w =
  if bool_decide (kind ∈ plan_commands plan) then
    match execute w with
    | (Ok value, w') => (Ok (Some value), w')
    | (Throw e, w') => (Throw e, w')
    end
  else (Throw (JsError "[SigningOperationMachine] command sequence produced no steps"), w).
Proof. apply single_command. Qed.

(** A plan that is not ready: its reason never reaches the caller. *)
Theorem not_ready_reason_lost {W T} lane reason operation kind (execute : M W T) w :
  runSigningOperationCommand (NotReady lane reason) operation kind execute w =
  (Throw (JsError "[SigningOperationMachine] command sequence produced no steps"), w) /\
  exists step, buildSigningOperationSteps (mkOperationPlan (NotReady lane reason) (Some operation) [kind])
                 (Planned (NotReady lane reason)) = Ok [step] /\
    st_to step = FailedOperation (NotReady lane reason) (not_ready_string reason).
Proof.
  split; [|by eexists].
  unfold runSigningOperationCommand, buildSigningOperationCommandSteps. simpl. reflexivity.
Qed.

(** ** The transaction confirmation *)

(** What cancelling makes of a state: the phase it is cancelled in, or the error. *)
Definition cancellation (st : SigningOperationState) : option CancellationPhase :=
  match st with
  | Planned _ => Some PhaseReview
  | AuthenticationInProgress _ _ => Some PhaseAuthentication
  | ConfirmationApproved _ | AuthReady _ | ThresholdConnected _ | PayloadPrepared _ => Some PhaseExecution
  | CancelledOperation _ phase => Some phase
  | Created | SignedOperation _ | CleanedUp _ | Completed _ | FailedOperation _ _ => None
  end.

Lemma cancelSigningOperation_spec r :
  match cancellation (sr_current r), state_plan (sr_current r) with
  | Some phase, Some plan =>
      cancelSigningOperation r =
        (Ok (plan, phase), mkStateRef (sr_operationId r) (CancelledOperation plan phase))
  | _, _ => exists e, cancelSigningOperation r = (Throw e, r)
  end.
Proof.
  destruct r as [id st]. simpl. unfold cancelSigningOperation, gets, bind, machine_error, throw. simpl.
  destruct st; first [reflexivity | eexists; reflexivity].
Qed.

(** The confirmation of a transaction.  On a plan that is ready and an operation
    that can be planned, the confirmation is run on the planned state; what it
    returns is returned, and an error that is not a cancellation is passed on, with
    the state the confirmation left.  When the user cancels, the operation is
    cancelled in the phase it was in: during authentication the caller sees the
    cancelled step-up, otherwise the error itself. *)
Theorem transaction_confirmation_spec {T} isUserCancellation plan operation
    (runConfirmation : SigningOperationState -> M StateRef T) r st r1 :
  plan_ready plan = true ->
  planSigningOperationAttempt plan r = (Ok st, r1) ->
  runTransactionSigningConfirmationCommand isUserCancellation plan operation runConfirmation r =
  match runConfirmation st r1 with
  | (Ok value, r2) => (Ok (Some value), r2)
  | (Throw e, r2) =>
      if negb (isUserCancellation e) then (Throw e, r2)
      else
        match cancelSigningOperation r2 with
        | (Ok (_, PhaseAuthentication), r3) => (Throw walletOperationStepUpCancelled, r3)
        | (Ok _, r3) => (Throw e, r3)
        | (Throw e', r3) => (Throw e', r3)
        end
  end.
Proof.
  intros Hready Hplan. unfold runTransactionSigningConfirmationCommand.
  unfold bind at 1. rewrite Hplan. unfold try_catch. rewrite single_command.
  rewrite bool_decide_eq_true_2 by (destruct plan; try done; simpl; set_solver).
  destruct (runConfirmation st r1) as [[v|e] r2]; [done|].
  destruct (isUserCancellation e); simpl; [|done]. unfold bind.
  by destruct (cancelSigningOperation r2) as [[[p []]|e'] r3].
Qed.

(** ** Runs *)

Definition warm_lane : PlanningLane :=
  mkPlanningLane (AuthPasskey "wallet.example" "cred") "ecdsa" "threshold_ecdsa_secp256k1" "evm"
    "login" "login" "session" (EvmFamilyEcdsaSigner "alice").
Definition passkey_plan : SigningSessionPlan := PasskeyReauth warm_lane JUndefined.

(** Authentication may start before the review is approved, but not complete. *)
Example approval_during_authentication :
  sr_current (run_calls [CallPlan passkey_plan; CallEvent AuthenticationStarted;
                         CallEvent AuthenticationCompleted; CallEvent ReviewApproved;
                         CallEvent AuthenticationCompleted]
                (createSigningOperationStateRef "op-1")) = AuthReady passkey_plan.
Proof. reflexivity. Qed.

(** The user cancels while the authentication prompt is open. *)
Definition cancels_prompt (st : SigningOperationState) : M StateRef unit :=
  applySigningOperationInteractionEvent ReviewApproved ;;
  applySigningOperationInteractionEvent AuthenticationStarted ;;
  throw (JsCodedError "user_cancelled" "User cancelled").

Lemma transaction_confirmation_spec_witness :
  runTransactionSigningConfirmationCommand (fun _ => true) passkey_plan
    (mkOperationContext "op-1" "transaction_sign" None) cancels_prompt
    (createSigningOperationStateRef "op-1") =
  (Throw walletOperationStepUpCancelled,
   mkStateRef "op-1" (CancelledOperation passkey_plan PhaseAuthentication)).
Proof.
  rewrite (transaction_confirmation_spec (fun _ => true) passkey_plan
             (mkOperationContext "op-1" "transaction_sign" None) cancels_prompt
             (createSigningOperationStateRef "op-1") (Planned passkey_plan)
             (mkStateRef "op-1" (Planned passkey_plan)) eq_refl eq_refl).
  reflexivity.
Defined.
