(* ===== verification/EvmRpc.v ===== *)
(** * JSON-RPC envelopes and EVM results

    [shared-ts/src/utils/jsonRpc.ts] and [shared-ts/src/utils/evmRpcResults.ts]:
    what the client accepts as an answer, and how the answers of
    [eth_getTransactionReceipt], [eth_getTransactionByHash],
    [eth_getBlockByNumber] and the quantities are decoded. *)

From S2P Require Import Prelude JsValues.
Local Open Scope Z_scope.
Local Open Scope js_scope.

(** ** [jsonRpc.ts] *)

(** A field that is left out is [JUndefined]; [data] and [cause] may be present
    and [undefined], which reads the same. *)
Record JsonRpcErrorDetails : Type := mkRpcError {
  err_message : string;
  err_code : JsVal;
  err_name : JsVal;
  err_data : JsVal;
  err_cause : JsVal;
}.

Inductive JsonRpcEnvelope : Type :=
| RpcSuccess (id : JsVal) (result : JsVal)
| RpcFailure (id : JsVal) (error : JsonRpcErrorDetails).

Inductive JsonRpcEnvelopeDecodeResult : Type :=
| Decoded (value : JsonRpcEnvelope)
| DecodeError (error : string).

Definition is_finite_number (v : JsVal) : bool :=
  match v with JNumber (NInt _) | JNumber (NFraction _ _) => true | _ => false end.

Definition is_string (v : JsVal) : bool := match v with JString _ => true | _ => false end.

Definition isJsonRpcId (value : JsVal) : bool :=
  match value with JNull => true | _ => is_string value || is_finite_number value end.

Definition decodeJsonRpcError (value : JsVal) : option JsonRpcErrorDetails :=
  if negb (isPlainObject value) then None else
  let message := normalizeOptionalTrimmedString (jget "message" value) in
  let code := jget "code" value in
  let name := jget "name" value in
  if negb (nonempty message) then None
  else if negb (is_undefined code) && negb (is_finite_number code) && negb (is_string code) then None
  else if negb (is_undefined name) && negb (is_string name) then None
  else Some (mkRpcError message code name (jget "data" value) (jget "cause" value)).

(** [Object.prototype.hasOwnProperty.call(record, key)]. *)
Definition has_own (key : string) (v : JsVal) : bool :=
  match v with JObject fields => mhas key fields | _ => false end.

Definition decodeJsonRpcEnvelope (value : JsVal) : JsonRpcEnvelopeDecodeResult :=
  if negb (isPlainObject value) then DecodeError "expected an object"
  else match jget "jsonrpc" value with
  | JString "2.0" =>
      if negb (isJsonRpcId (jget "id" value))
      then DecodeError "id must be a string, number, or null"
      else
        let hasResult := has_own "result" value in
        let hasError := has_own "error" value in
        if Bool.eqb hasResult hasError
        then DecodeError "response must contain exactly one of result or error"
        else if hasResult then Decoded (RpcSuccess (jget "id" value) (jget "result" value))
        else match decodeJsonRpcError (jget "error" value) with
             | None => DecodeError "error must contain a non-empty message"
             | Some error => Decoded (RpcFailure (jget "id" value) error)
             end
  | _ => DecodeError "jsonrpc must equal 2.0"
  end.

(** ** [evmRpcResults.ts] *)

(** A field of type [string | null | undefined]. *)
Inductive RpcString : Type := RpcUndefined | RpcNull | RpcText (text : string).

Record EvmTransactionReceipt : Type := mkReceipt {
  transactionHash : string;
  receipt_from : RpcString;
  receipt_blockNumber : string;
  receipt_status : string;
  gasUsed : RpcString;
  effectiveGasPrice : RpcString;
  gasPrice : RpcString;
}.

Record EvmTransactionCall : Type := mkCall {
  call_to : RpcString;
  call_input : RpcString;
  call_data : RpcString;
  call_value : RpcString;
}.

(** [calls] is [undefined], [null] or a list. *)
Record EvmTransactionByHash : Type := mkTransaction {
  tx_blockNumber : RpcString;
  tx_from : RpcString;
  tx_nonce : RpcString;
  tx_to : RpcString;
  tx_input : RpcString;
  tx_value : RpcString;
  tx_calls : option (option (list EvmTransactionCall));
}.

Record EvmBlockHeader : Type := mkHeader {
  block_number : RpcString;
  baseFeePerGas : RpcString;
}.

Definition parseRpcHexQuantity (value : JsVal) (label : string) : Result Z :=
  let normalized := normalizeOptionalTrimmedString value in
  if is_hex_quantity normalized
  then of_option (JsError ("Cannot convert " +:+ normalized +:+ " to a BigInt"))
         (BigInt_of_string normalized)
  else Throw (JsError ("Invalid " +:+ label +:+ " quantity")).

Definition invalid_result (operation key : string) : Exn :=
  JsError ("Invalid " +:+ operation +:+ " result: " +:+ key).

Definition optionalRpcString (record : JsVal) (key operation : string) : Result RpcString :=
  match jget key record with
  | JUndefined => Ok RpcUndefined
  | JNull => Ok RpcNull
  | JString s => Ok (RpcText s)
  | _ => Throw (invalid_result operation key)
  end.

(** An optional text that must pass [test]. *)
Definition optionalRpcTested (test : string -> bool) (record : JsVal) (key operation : string)
    : Result RpcString :=
  let* value := optionalRpcString record key operation in
  match value with
  | RpcText s => if test s then Ok value else Throw (invalid_result operation key)
  | _ => Ok value
  end.

Definition optionalRpcHexQuantity := optionalRpcTested is_hex_quantity.
Definition optionalRpcAddress := optionalRpcTested (is_0x_hex_any_case 40).

(** [/^0x(?:[0-9a-fA-F]{2})*$/]. *)
Definition is_hex_bytes (s : string) : bool :=
  match after_0x s with
  | Some h => Nat.even (String.length h) && all_chars is_hex h
  | None => false
  end.

Definition optionalRpcHexData := optionalRpcTested is_hex_bytes.

Definition decodeEvmTransactionReceipt (value : JsVal) : Result (option EvmTransactionReceipt) :=
  let op := "eth_getTransactionReceipt" in
  match value with
  | JNull => Ok None
  | JObject _ =>
      let* hash := optionalRpcHexData value "transactionHash" op in
      match hash with
      | RpcText transactionHash =>
          if is_0x_hex_any_case 64 transactionHash then
            let* from := optionalRpcAddress value "from" op in
            let* blockNumber := optionalRpcHexQuantity value "blockNumber" op in
            let* status := optionalRpcHexQuantity value "status" op in
            match blockNumber, status with
            | RpcText blockNumber, RpcText status =>
                let* gasUsed := optionalRpcHexQuantity value "gasUsed" op in
                let* effectiveGasPrice := optionalRpcHexQuantity value "effectiveGasPrice" op in
                let* gasPrice := optionalRpcHexQuantity value "gasPrice" op in
                Ok (Some (mkReceipt transactionHash from blockNumber status gasUsed
                            effectiveGasPrice gasPrice))
            | _, _ => Throw (JsError ("Invalid " +:+ op +:+ " result: missing blockNumber or status"))
            end
          else Throw (invalid_result op "transactionHash")
      | _ => Throw (invalid_result op "transactionHash")
      end
  | _ => Throw (JsError ("Invalid " +:+ op +:+ " result"))
  end.

Definition decodeEvmBlockHeader (value : JsVal) : Result (option EvmBlockHeader) :=
  let op := "eth_getBlockByNumber" in
  match value with
  | JNull => Ok None
  | JObject _ =>
      let* number := optionalRpcHexQuantity value "number" op in
      let* baseFeePerGas := optionalRpcHexQuantity value "baseFeePerGas" op in
      Ok (Some (mkHeader number baseFeePerGas))
  | _ => Throw (JsError ("Invalid " +:+ op +:+ " result"))
  end.

Definition decodeEvmTransactionCall (value : JsVal) : Result EvmTransactionCall :=
  let op := "eth_getTransactionByHash" in
  match value with
  | JObject _ =>
      let* to := optionalRpcAddress value "to" op in
      let* input := optionalRpcHexData value "input" op in
      let* data := optionalRpcHexData value "data" op in
      let* callValue := optionalRpcHexQuantity value "value" op in
      Ok (mkCall to input data callValue)
  | _ => Throw (invalid_result op "calls")
  end.

(** [list.map(decode)], which throws the error of the first element that fails. *)
Fixpoint map_result {A B} (f : A -> Result B) (l : list A) : Result (list B) :=
  match l with
  | [] => Ok []
  | a :: l => let* b := f a in let* bs := map_result f l in Ok (b :: bs)
  end.

Definition decodeCalls (value : JsVal) : Result (option (option (list EvmTransactionCall))) :=
  match value with
  | JUndefined => Ok None
  | JNull => Ok (Some None)
  | JArray elems => let* calls := map_result decodeEvmTransactionCall elems in Ok (Some (Some calls))
  | _ => Throw (invalid_result "eth_getTransactionByHash" "calls")
  end.

Definition decodeEvmTransactionByHash (value : JsVal) : Result (option EvmTransactionByHash) :=
  let op := "eth_getTransactionByHash" in
  match value with
  | JNull => Ok None
  | JObject _ =>
      let* blockNumber := optionalRpcHexQuantity value "blockNumber" op in
      let* from := optionalRpcAddress value "from" op in
      let* nonce := optionalRpcHexQuantity value "nonce" op in
      let* to := optionalRpcAddress value "to" op in
      let* input := optionalRpcHexData value "input" op in
      let* transactionValue := optionalRpcHexQuantity value "value" op in
      let* calls := decodeCalls (jget "calls" value) in
      Ok (Some (mkTransaction blockNumber from nonce to input transactionValue calls))
  | _ => Throw (JsError ("Invalid " +:+ op +:+ " result"))
  end.

(** ** What decoding guarantees *)

(** A quantity that passes the test is read as a natural number. *)
Lemma parse_hex_quantity s label :
  is_hex_quantity s = true -> trim s = s ->
  exists n, parseRpcHexQuantity (JString s) label = Ok n /\ 0 <= n.
Proof.
  intros Hs Ht. unfold parseRpcHexQuantity, normalizeOptionalTrimmedString. simpl.
  rewrite Ht, Hs. destruct (hex_quantity_value s Hs) as (n & -> & ?). by exists n.
Qed.

Lemma parseRpcHexQuantity_nonneg v label n : parseRpcHexQuantity v label = Ok n -> 0 <= n.
Proof.
  unfold parseRpcHexQuantity. destruct (is_hex_quantity _) eqn:E; [|done].
  destruct (hex_quantity_value _ E) as (z & -> & Hz). by intros [= <-].
Qed.

Lemma hex_quantity_trim s : is_hex_quantity s = true -> trim s = s.
Proof.
  unfold is_hex_quantity, after_0x. intros H. apply trim_no_space.
  destruct s as [|a [|b h]]; try (by repeat case_match).
  destruct (decide (a = "0"%char)) as [->|]; [|by repeat case_match].
  destruct (decide (b = "x"%char)) as [->|]; [|by repeat case_match].
  apply andb_prop in H as [_ Hh]. simpl. eapply all_chars_impl; [|exact Hh].
  intros x Hx. by apply hex_digit_is_hex.
Qed.

Lemma optionalRpcTested_ok test record key operation s :
  optionalRpcTested test record key operation = Ok (RpcText s) -> test s = true.
Proof.
  unfold optionalRpcTested, optionalRpcString, result_bind.
  destruct (jget key record); try done; simpl.
  destruct (test _) eqn:E; [|done]. by intros [= <-].
Qed.

(** *** Errors are the decoders' own *)

Definition fuel_free {A} (r : Result A) : Prop := r <> Throw OutOfFuel.

Lemma fuel_free_bind {A B} (r : Result A) (k : A -> Result B) :
  fuel_free r -> (forall a, fuel_free (k a)) -> fuel_free (result_bind r k).
Proof. intros Hr Hk. destruct r; simpl; [apply Hk|]. unfold fuel_free in *. congruence. Qed.

Lemma parseRpcHexQuantity_fuel_free v label : fuel_free (parseRpcHexQuantity v label).
Proof. unfold parseRpcHexQuantity. case_match; [|done]. by destruct (BigInt_of_string _). Qed.

Lemma optionalRpcTested_fuel_free test record key operation :
  fuel_free (optionalRpcTested test record key operation).
Proof.
  apply fuel_free_bind; [unfold optionalRpcString; by case_match|].
  intros [| |s]; [done|done|]. by destruct (test s).
Qed.

Ltac fuel_free_tac :=
  repeat first
    [ apply optionalRpcTested_fuel_free
    | apply fuel_free_bind; [|intros ?]
    | case_match
    | done ].

Lemma decodeEvmTransactionReceipt_fuel_free v : fuel_free (decodeEvmTransactionReceipt v).
Proof. unfold decodeEvmTransactionReceipt. fuel_free_tac. Qed.

Lemma decodeEvmBlockHeader_fuel_free v : fuel_free (decodeEvmBlockHeader v).
Proof. unfold decodeEvmBlockHeader. fuel_free_tac. Qed.

Lemma map_result_fuel_free {A B} (f : A -> Result B) l :
  (forall a, fuel_free (f a)) -> fuel_free (map_result f l).
Proof. intros Hf. induction l as [|a l IH]; simpl; fuel_free_tac; auto. Qed.

Lemma decodeEvmTransactionByHash_fuel_free v : fuel_free (decodeEvmTransactionByHash v).
Proof.
  unfold decodeEvmTransactionByHash.
  assert (forall v, fuel_free (decodeEvmTransactionCall v)).
  { intros u. unfold decodeEvmTransactionCall. fuel_free_tac. }
  assert (forall v, fuel_free (decodeCalls v)).
  { intros u. unfold decodeCalls. case_match; try done. apply fuel_free_bind; [|done].
    by apply map_result_fuel_free. }
  fuel_free_tac; auto.
Qed.

(** A decoded receipt has a 32-byte hash and a block number that is a quantity. *)
Lemma decoded_receipt_wf v r :
  decodeEvmTransactionReceipt v = Ok (Some r) ->
  is_0x_hex_any_case 64 (transactionHash r) = true /\
  is_hex_quantity (receipt_blockNumber r) = true /\
  is_hex_quantity (receipt_status r) = true.
Proof.
  unfold decodeEvmTransactionReceipt. destruct v; try done.
  destruct (optionalRpcHexData _ _ _) as [[| |hash]|]; try done. cbn [result_bind].
  destruct (is_0x_hex_any_case 64 hash) eqn:Eh; [|done].
  destruct (optionalRpcAddress _ _ _); [|done]. cbn [result_bind].
  destruct (optionalRpcHexQuantity _ "blockNumber" _) as [block|] eqn:Eb; [|done]. cbn [result_bind].
  destruct (optionalRpcHexQuantity _ "status" _) as [status|] eqn:Es; [|done]. cbn [result_bind].
  destruct block as [| |block]; [done|done|]. destruct status as [| |status]; [done|done|].
  apply optionalRpcTested_ok in Eb, Es.
  do 3 (destruct (optionalRpcHexQuantity _ _ _); [|done]; cbn [result_bind]).
  by intros [= <-].
Qed.
