(* ===== verification/EvmClient.v ===== *)
(** * The EVM JSON-RPC client

    [core/rpcClients/evm/EvmClient.ts] up to its waiting loop: the endpoints of a
    client, one request with its fallback endpoints and its time budget, and the
    typed reads.  The network, the URL parser and the clock are an environment. *)

From S2P Require Import Prelude JsValues EvmRpc.
Local Open Scope Z_scope.
Local Open Scope js_scope.

(** What a promise rejects with: an [Error] with its name, or another value. *)
Inductive FetchError : Type :=
| FetchErrorValue (name message : string)
| FetchOtherValue (value : JsVal).

(** A promise: how many milliseconds it takes to settle, and with what. *)
Inductive Promised (A : Type) : Type :=
| Resolves (after : N) (value : A)
| Rejects (after : N) (error : FetchError)
| NeverSettles.
Arguments Resolves {A}.
Arguments Rejects {A}.
Arguments NeverSettles {A}.

(** [rsp_json] is [response.json()] and [rsp_cancel] is [response.body?.cancel()],
    which resolves at once when there is no body. *)
Record Response : Type := mkResponse {
  rsp_status : Z;
  rsp_json : Promised JsVal;
  rsp_cancel : Promised unit;
}.

Definition rsp_ok (r : Response) : bool := (200 <=? rsp_status r) && (rsp_status r <=? 299).

(** [env_parseUrl] is [new URL(value).toString()], [None] its [TypeError];
    [env_fetch] what the [n]th reading of the network gives for a URL and a body
    (before its serialisation); [env_drift] how far the clock has moved on, besides
    the time spent waiting, when it is read. *)
Record NetEnv : Type := mkNetEnv {
  env_parseUrl : string -> option string;
  env_fetch : nat -> string -> JsVal -> Promised Response;
  env_drift : nat -> N;
}.

(** A request that was made, with its result. *)
Record RpcRecord : Type := mkRpcRecord {
  rec_method : string;
  rec_params : list JsVal;
  rec_result : Result JsVal;
}.

(** The clock, the number of readings of the environment, and the requests so far. *)
Record Net : Type := mkNet {
  net_clock : Z;
  net_tick : nat;
  net_requests : list RpcRecord;
}.

Definition DEFAULT_REQUEST_TIMEOUT_MS : Z := 15000.

(** [createEvmClient]'s result: its endpoints and its request timeout. *)
Record EvmClient : Type := mkEvmClient {
  client_rpcUrls : list string;
  client_requestTimeoutMs : Z;
}.

(** [input.split(/[\s,]+/)] with the empty parts left out, as [filter(Boolean)]
    does; [current] is the part being read. *)
Fixpoint split_urls (current s : string) : list string :=
  let flush := if nonempty current then [current] else [] in
  match s with
  | EmptyString => flush
  | String a t =>
      if is_js_space a || Ascii.eqb a ","%char then flush ++ split_urls EmptyString t
      else split_urls (current +:+ String a EmptyString) t
  end.

Definition unique_strings (l : list string) : list string :=
  List.fold_left (fun seen x => sadd x seen) l [].

Section Client.
Context (env : NetEnv).

Definition parseUrl (value : string) : Result string :=
  of_option (JsError "Invalid URL") (env_parseUrl env value).

Definition normalizeEvmRpcUrls (input : string) : Result (list string) :=
  let* urls := map_result parseUrl (split_urls EmptyString input) in
  match urls with
  | [] => Throw (JsError "RPC URL is not configured")
  | _ => Ok (unique_strings urls)
  end.

Definition createEvmClient (rpcUrl : string) (requestTimeoutMs : option Z) : Result EvmClient :=
  let* rpcUrls := normalizeEvmRpcUrls (trim rpcUrl) in
  Ok (mkEvmClient rpcUrls (Z.max 1 (default DEFAULT_REQUEST_TIMEOUT_MS requestTimeoutMs))).

(** [Date.now()]. *)
Definition date_now : M Net Z :=
  fun w =>
    let t := net_clock w + Z.of_N (env_drift env (net_tick w)) in
    (Ok t, mkNet t (S (net_tick w)) (net_requests w)).

Definition wait_ms (ms : Z) : M Net unit :=
  modify (fun w => mkNet (net_clock w + ms) (net_tick w) (net_requests w)).

Definition fetchImpl (url : string) (body : JsVal) : M Net (Promised Response) :=
  fun w => (Ok (env_fetch env (net_tick w) url body),
            mkNet (net_clock w) (S (net_tick w)) (net_requests w)).

(** The promise against a timer of what is left of the budget; [inr] is the
    rejection.  A promise that has not settled when the timer fires loses. *)
Definition withPromiseTimeout {A} (timeoutMs startedAt : Z) (promise : Promised A) (label : string)
    : M Net (A + FetchError) :=
  t <- date_now ;;
  let timeoutWindowMs := Z.max 1 (timeoutMs - Z.max 0 (t - startedAt)) in
  let delay := setTimeout_delay timeoutWindowMs in
  let timed_out :=
    wait_ms delay ;;
    ret (inr (FetchErrorValue "Error"
                (label +:+ " timed out after " +:+ Z_to_string timeoutMs +:+ "ms"))) in
  match promise with
  | Resolves after value =>
      if Z.of_N after <? delay then wait_ms (Z.of_N after) ;; ret (inl value) else timed_out
  | Rejects after error =>
      if Z.of_N after <? delay then wait_ms (Z.of_N after) ;; ret (inr error) else timed_out
  | NeverSettles => timed_out
  end.

(** [await promise] with no timer; [inr] is the rejection.  Nothing after it runs
    when it never settles. *)
Definition await_promise {A} (promise : Promised A) : M Net (A + FetchError) :=
  match promise with
  | Resolves after value => wait_ms (Z.of_N after) ;; ret (inl value)
  | Rejects after error => wait_ms (Z.of_N after) ;; ret (inr error)
  | NeverSettles => throw OutOfFuel
  end.

(** [try { m } catch (e) { h e }] around an [await]: a wait that never ends is not
    an error that is caught. *)
Definition try_await {A} (m : M Net A) (h : Exn -> M Net A) : M Net A :=
  try_catch m (fun e => match e with OutOfFuel => throw OutOfFuel | _ => h e end).

(** The loop over the endpoints; [lastError] is the last rejection.  The body of an
    overloaded endpoint's response is cancelled before the next one is tried. *)
Fixpoint fetch_urls (method : string) (timeoutMs startedAt : Z) (body : JsVal)
    (lastError : option FetchError) (rpcUrls : list string)
    : M Net (Response + option FetchError) :=
  match rpcUrls with
  | [] => ret (inr lastError)
  | rpcUrl :: rest =>
      let hasFallback := match rest with [] => false | _ => true end in
      promise <- fetchImpl rpcUrl body ;;
      outcome <- withPromiseTimeout timeoutMs startedAt promise (method +:+ " request") ;;
      match outcome with
      | inl candidate =>
          if ((rsp_status candidate =? 429) || (500 <=? rsp_status candidate)) && hasFallback
          then
            cancelled <- await_promise (rsp_cancel candidate) ;;
            fetch_urls method timeoutMs startedAt body
              (match cancelled with inl _ => lastError | inr error => Some error end) rest
          else ret (inl candidate)
      | inr error => fetch_urls method timeoutMs startedAt body (Some error) rest
      end
  end.

Definition fetch_error_name (e : FetchError) : JsVal :=
  match e with
  | FetchErrorValue name _ => JString name
  | FetchOtherValue v => jget "name" v
  end.

Definition is_abort_error (e : FetchError) : bool :=
  match fetch_error_name e with JString "AbortError" => true | _ => false end.

(** A value that is not an [Error] is kept by its text. *)
Definition fetch_exn (e : FetchError) : Exn :=
  match e with
  | FetchErrorValue _ message => JsError message
  | FetchOtherValue v => JsError (js_String v)
  end.

Definition request_failure (method : string) (timeoutMs : Z) (lastError : option FetchError) : Exn :=
  match lastError with
  | Some e =>
      if is_abort_error e then
        JsError (method +:+ " request timed out after " +:+ Z_to_string timeoutMs +:+ "ms")
      else match e with
           | FetchErrorValue _ message => JsError message
           | FetchOtherValue _ => JsError "RPC request failed"
           end
  | None => JsError "RPC request failed"
  end.

(** The error thrown for a failure envelope; its [data] and [rpcMethod] fields are
    left out. *)
Definition rpc_failure (method : string) (error : JsonRpcErrorDetails) : Exn :=
  let message :=
    trim (if nonempty (err_message error) then err_message error else method +:+ " failed") in
  let code := if is_nullish (err_code error) then EmptyString else trim (js_String (err_code error)) in
  let data :=
    if is_undefined (err_data error) then EmptyString
    else default (js_String (err_data error)) (JSON_stringify (err_data error)) in
  let text :=
    join " | " ([message] ++ (if nonempty code then ["code=" +:+ code] else [])
                ++ (if nonempty data then ["data=" +:+ data] else [])) in
  if nonempty code then JsCodedError code text else JsError text.

Definition decode_payload (method : string) (rawPayload : JsVal) : Result JsVal :=
  match decodeJsonRpcEnvelope rawPayload with
  | DecodeError error => Throw (JsError ("Invalid " +:+ method +:+ " response: " +:+ error))
  | Decoded (RpcFailure _ error) => Throw (rpc_failure method error)
  | Decoded (RpcSuccess _ result) => Ok result
  end.

Definition read_response (method : string) (timeoutMs startedAt : Z) (response : Response)
    : M Net JsVal :=
  if rsp_status response =? 429 then throw (JsError "RPC throttled; retry shortly")
  else if negb (rsp_ok response)
  then throw (JsError ("RPC HTTP " +:+ Z_to_string (rsp_status response)))
  else
    outcome <- withPromiseTimeout timeoutMs startedAt (rsp_json response) (method +:+ " response") ;;
    match outcome with
    | inl rawPayload => lift (decode_payload method rawPayload)
    | inr error =>
        throw (if is_abort_error error then
                 JsError (method +:+ " response timed out after " +:+ Z_to_string timeoutMs +:+ "ms")
               else fetch_exn error)
    end.

(** The request is recorded with its result. *)
Definition recorded (method : string) (params : list JsVal) (m : M Net JsVal) : M Net JsVal :=
  fun w => let '(r, w) := m w in
           (r, mkNet (net_clock w) (net_tick w)
                 (net_requests w ++ [mkRpcRecord method params r])).

Definition request_body (id : Z) (method : string) (params : list JsVal) : JsVal :=
  JObject [("jsonrpc", JString "2.0"); ("id", JNumber (NInt id));
           ("method", JString method); ("params", JArray params)].

Definition request (client : EvmClient) (method : string) (params : list JsVal)
    (timeoutMs : option Z) : M Net JsVal :=
  let timeoutMs := Z.max 1 (default (client_requestTimeoutMs client) timeoutMs) in
  recorded method params (
    startedAt <- date_now ;;
    id <- date_now ;;
    found <- fetch_urls method timeoutMs startedAt (request_body id method params) None
               (client_rpcUrls client) ;;
    match found with
    | inr lastError => throw (request_failure method timeoutMs lastError)
    | inl response => read_response method timeoutMs startedAt response
    end).

Definition getTransactionReceipt (client : EvmClient) (txHash : string) (timeoutMs : option Z)
    : M Net (option EvmTransactionReceipt) :=
  result <- request client "eth_getTransactionReceipt" [JString txHash] timeoutMs ;;
  receipt <- lift (decodeEvmTransactionReceipt result) ;;
  match receipt with
  | Some r =>
      if bool_decide (to_lower (transactionHash r) = to_lower txHash) then ret receipt
      else throw (JsError "Receipt transactionHash does not match the requested transaction")
  | None => ret None
  end.

Definition getBlockByNumber (client : EvmClient) (blockTag : string) (timeoutMs : option Z)
    : M Net (option EvmBlockHeader) :=
  result <- request client "eth_getBlockByNumber" [JString blockTag; JBool false] timeoutMs ;;
  lift (decodeEvmBlockHeader result).

Definition getTransactionByHash (client : EvmClient) (txHash : string) (timeoutMs : option Z)
    : M Net (option EvmTransactionByHash) :=
  result <- request client "eth_getTransactionByHash" [JString txHash] timeoutMs ;;
  lift (decodeEvmTransactionByHash result).

Definition getTransactionCount (client : EvmClient) (address : string) (blockTag : option string)
    (timeoutMs : option Z) : M Net Z :=
  quantity <- request client "eth_getTransactionCount"
                [JString address; JString (default "latest" blockTag)] timeoutMs ;;
  lift (parseRpcHexQuantity quantity "eth_getTransactionCount").
End Client.

(** ** What a request leaves behind *)

(** Time has passed and requests were added. *)
Definition net_le (w w' : Net) : Prop :=
  net_clock w <= net_clock w' /\ exists more, net_requests w' = net_requests w ++ more.

#[global] Instance net_le_preorder : PreOrder net_le.
Proof.
  split.
  - intros w. split; [lia|]. exists []. by rewrite app_nil_r.
  - intros w1 w2 w3 [? [m1 H1]] [? [m2 H2]]. split; [lia|].
    exists (m1 ++ m2). by rewrite H2, H1, app_assoc.
Qed.

(** Time has passed and no request was made. *)
Definition net_waits (w w' : Net) : Prop :=
  net_clock w <= net_clock w' /\ net_requests w' = net_requests w.

#[global] Instance net_waits_preorder : PreOrder net_waits.
Proof. split; [done|]. intros w1 w2 w3 [??] [??]. split; [lia|congruence]. Qed.

Lemma setTimeout_delay_bounds ms : 0 <= setTimeout_delay ms /\ (0 <= ms -> setTimeout_delay ms <= ms).
Proof.
  unfold setTimeout_delay. split; [lia|]. intros H.
  pose proof (Z.mod_le (ms + 2 ^ 31) (2 ^ 32)). lia.
Qed.

Section Facts.
Context (env : NetEnv).

Lemma date_now_waits : steps net_waits (date_now env).
Proof. intros w. split; simpl; [lia|done]. Qed.

Lemma wait_ms_waits ms : 0 <= ms -> steps net_waits (wait_ms ms).
Proof. intros H w. split; simpl; [lia|done]. Qed.

Lemma fetchImpl_waits url body : steps net_waits (fetchImpl env url body).
Proof. intros w. split; simpl; [lia|done]. Qed.

#[local] Hint Resolve date_now_waits fetchImpl_waits : steps.

Lemma withPromiseTimeout_waits {A} timeoutMs startedAt (p : Promised A) label :
  steps net_waits (withPromiseTimeout env timeoutMs startedAt p label).
Proof.
  unfold withPromiseTimeout. apply steps_bind; [typeclasses eauto|apply date_now_waits|].
  intros t. cbv zeta. set (delay := setTimeout_delay _).
  assert (0 <= delay) by apply setTimeout_delay_bounds.
  assert (forall ms {B} (b : B), 0 <= ms -> steps net_waits (wait_ms ms ;; ret b)) as Hw.
  { intros. apply steps_bind; [typeclasses eauto|by apply wait_ms_waits|].
    intros _. apply steps_ret. typeclasses eauto. }
  destruct p; [case_match; apply Hw; lia..|]. by apply Hw.
Qed.

Lemma await_promise_waits {A} (p : Promised A) : steps net_waits (await_promise p).
Proof.
  destruct p; simpl; [..|apply steps_throw; typeclasses eauto];
    (apply steps_bind; [typeclasses eauto|apply wait_ms_waits; lia|];
     intros _; apply steps_ret; typeclasses eauto).
Qed.

#[local] Hint Resolve withPromiseTimeout_waits await_promise_waits : steps.

Lemma fetch_urls_waits method timeoutMs startedAt body urls : forall lastError,
  steps net_waits (fetch_urls env method timeoutMs startedAt body lastError urls).
Proof. induction urls as [|url urls IH]; intros lastError; simpl; steps_tac. Qed.

#[local] Hint Resolve fetch_urls_waits : steps.

Lemma read_response_waits method timeoutMs startedAt response :
  steps net_waits (read_response env method timeoutMs startedAt response).
Proof. unfold read_response. steps_tac. Qed.

#[local] Hint Resolve read_response_waits : steps.

(** A request takes time, and is recorded with its result. *)
Lemma request_recorded client method params timeoutMs w :
  let '(r, w') := request env client method params timeoutMs w in
  net_clock w <= net_clock w' /\
  net_requests w' = net_requests w ++ [mkRpcRecord method params r].
Proof.
  unfold request, recorded. set (m := bind (date_now env) _).
  assert (steps net_waits m) as Hm by (subst m; steps_tac).
  specialize (Hm w). destruct (m w) as [r w']. destruct Hm as [??]. simpl in *.
  split; [done|]. congruence.
Qed.
End Facts.

(** ** Where an answer comes from *)

(** The network answered the body, at one of the endpoints, with a successful
    response that carries the result. *)
Definition served (env : NetEnv) (urls : list string) (method : string) (params : list JsVal)
    (result : JsVal) : Prop :=
  exists n id url after response after' raw rpcId,
    url ∈ urls /\
    env_fetch env n url (request_body id method params) = Resolves after response /\
    rsp_ok response = true /\ rsp_json response = Resolves after' raw /\
    decodeJsonRpcEnvelope raw = Decoded (RpcSuccess rpcId result).

Lemma withPromiseTimeout_inl {A} env timeoutMs startedAt (p : Promised A) label w a w' :
  withPromiseTimeout env timeoutMs startedAt p label w = (Ok (inl a), w') ->
  exists after, p = Resolves after a.
Proof.
  unfold withPromiseTimeout, bind, date_now, wait_ms, modify, ret. cbv beta iota zeta.
  destruct p; repeat case_match; intros; simplify_eq; eauto.
Qed.

Lemma fetch_urls_served env method timeoutMs startedAt body urls : forall lastError w response w',
  fetch_urls env method timeoutMs startedAt body lastError urls w = (Ok (inl response), w') ->
  exists n url after, url ∈ urls /\ env_fetch env n url body = Resolves after response.
Proof.
  induction urls as [|url urls IH]; intros lastError w response w'; [done|].
  cbn [fetch_urls]. unfold bind, fetchImpl. cbv beta iota zeta.
  set (w1 := mkNet _ _ _). set (p := env_fetch _ _ _ _).
  destruct (withPromiseTimeout _ _ _ p _ w1) as [[[candidate|error]|e] w2] eqn:E; [|..|done].
  - case_match.
    + unfold bind. destruct (await_promise _ w2) as [[c|e] w3]; [|done].
      intros (n & u & after & ? & ?)%IH. exists n, u, after. split; [set_solver|done].
    + intros [= -> ->]. apply withPromiseTimeout_inl in E as [after E].
      exists (net_tick w), url, after. split; [set_solver|done].
  - intros (n & u & after & ? & ?)%IH. exists n, u, after. split; [set_solver|done].
Qed.

Lemma request_served env client method params timeoutMs w v w' :
  request env client method params timeoutMs w = (Ok v, w') ->
  served env (client_rpcUrls client) method params v.
Proof.
  unfold request, recorded. set (budget := Z.max 1 _).
  unfold bind at 1 2, date_now at 1 2. cbv beta iota zeta. set (id := net_clock _ + _) at 2.
  unfold bind.
  destruct (fetch_urls _ _ _ _ _ _ _ _) as [[[response|lastError]|e] w2] eqn:E; [|done..].
  apply fetch_urls_served in E as (n & url & after & Hu & Hf).
  unfold read_response. destruct (rsp_status response =? 429); [done|].
  destruct (rsp_ok response) eqn:Hok; [|done].
  cbn [negb]. unfold bind. cbv beta iota.
  destruct (withPromiseTimeout _ _ _ _ _ w2) as [[[raw|error]|e] w3] eqn:E2; [|done..].
  apply withPromiseTimeout_inl in E2 as [after' E2].
  unfold lift, decode_payload. destruct (decodeJsonRpcEnvelope raw) as [[rpcId result|]|] eqn:Ed;
    [|done..].
  intros [= -> _]. by exists n, id, url, after, response, after', raw, rpcId.
Qed.

(** ** The time a request takes *)

(** Every response the network gives is one whose body is cancelled within [c]
    milliseconds; [None] when it takes any time, but settles. *)
Definition cancels_within (c : option N) (env : NetEnv) : Prop :=
  forall n url body after response, env_fetch env n url body = Resolves after response ->
    match rsp_cancel response with
    | Resolves ms _ | Rejects ms _ => match c with Some c => (ms <= c)%N | None => True end
    | NeverSettles => False
    end.

(** Some body takes for ever to cancel. *)
Definition hangs (env : NetEnv) : Prop :=
  exists n url body after response, env_fetch env n url body = Resolves after response /\
    rsp_cancel response = NeverSettles.

Lemma cancels_never_hang c env : cancels_within c env -> ~ hangs env.
Proof.
  intros Hc (n & url & body & after & response & H & Hn). specialize (Hc _ _ _ _ _ H).
  by rewrite Hn in Hc.
Qed.

Lemma withPromiseTimeout_returns {A} env timeoutMs startedAt (p : Promised A) label w :
  exists o w', withPromiseTimeout env timeoutMs startedAt p label w = (Ok o, w').
Proof.
  unfold withPromiseTimeout, bind, date_now, wait_ms, modify, ret. cbv beta iota zeta.
  destruct p; repeat case_match; eauto.
Qed.

Lemma fetch_urls_hangs env method timeoutMs startedAt body urls : forall lastError w e w',
  fetch_urls env method timeoutMs startedAt body lastError urls w = (Throw e, w') -> hangs env.
Proof.
  induction urls as [|url urls IH]; intros lastError w e w'; [done|].
  cbn [fetch_urls]. unfold bind, fetchImpl. cbv beta iota zeta.
  set (w1 := mkNet _ _ _). set (p := env_fetch _ _ _ _).
  destruct (withPromiseTimeout_returns env timeoutMs startedAt p (method +:+ " request") w1)
    as (o & w2 & E). rewrite E.
  destruct o as [candidate|error]; [|apply IH]. case_match; [|done].
  destruct (rsp_cancel candidate) eqn:Ec; simpl; [apply IH..|]. intros _.
  apply withPromiseTimeout_inl in E as [after E]. by exists (net_tick w), url, body, after, candidate.
Qed.

(** The only request that does not end is one that waits for such a body. *)
Lemma request_hangs env client method params timeoutMs w w' :
  request env client method params timeoutMs w = (Throw OutOfFuel, w') -> hangs env.
Proof.
  unfold request, recorded. set (budget := Z.max 1 _).
  unfold bind at 1 2, date_now at 1 2. cbv beta iota zeta. unfold bind.
  destruct (fetch_urls _ _ _ _ _ _ _ _) as [[[response|lastError]|e] w2] eqn:E;
    [|..|intros _; by eapply fetch_urls_hangs].
  - unfold read_response. destruct (rsp_status response =? 429); [done|].
    destruct (rsp_ok response); [|done]. cbn [negb]. unfold bind.
    destruct (withPromiseTimeout_returns env budget
      (net_clock w + Z.of_N (env_drift env (net_tick w))) (rsp_json response)
      (method +:+ " response") w2) as (o & w3 & ->).
    destruct o as [raw|error]; [|by destruct (is_abort_error error), error].
    unfold lift, decode_payload, rpc_failure. repeat case_match; intros; by simplify_eq.
  - unfold request_failure. repeat case_match; intros; by simplify_eq.
Qed.

Section Budget.
Context (env : NetEnv) (no_drift : forall n, env_drift env n = 0%N).
Context (c : N) (cancels : cancels_within (Some c) env).

(** Each wait ends within the budget, or within a millisecond once it is spent. *)
Lemma withPromiseTimeout_time {A} timeoutMs startedAt (p : Promised A) label w :
  startedAt <= net_clock w ->
  net_clock (withPromiseTimeout env timeoutMs startedAt p label w).2 <=
  Z.max (net_clock w + 1) (startedAt + timeoutMs).
Proof.
  intros Hs. unfold withPromiseTimeout, bind at 1, date_now at 1. cbv beta zeta.
  rewrite no_drift, Z.add_0_r. remember (Z.max 1 _) as window eqn:Ew.
  pose proof (setTimeout_delay_bounds window) as [H1 H2]. specialize (H2 ltac:(lia)).
  destruct p; [case_match; simpl; lia..|]. simpl. lia.
Qed.

Lemma fetch_urls_time method timeoutMs startedAt body urls : forall lastError w k,
  -1 <= k -> startedAt <= net_clock w <= startedAt + timeoutMs + k ->
  net_clock (fetch_urls env method timeoutMs startedAt body lastError urls w).2 <=
  startedAt + timeoutMs + k + Z.of_nat (length urls) * (1 + Z.of_N c).
Proof.
  induction urls as [|url urls IH]; intros lastError w k Hk1 Hk; simpl length; [simpl; lia|].
  rewrite Nat2Z.inj_succ, Z.mul_succ_l. set (rest := Z.of_nat (length urls) * (1 + Z.of_N c)) in *.
  assert (0 <= rest) by (subst rest; lia).
  cbn [fetch_urls]. unfold bind, fetchImpl. cbv beta iota zeta.
  set (w1 := mkNet (net_clock w) _ _). set (p := env_fetch _ _ _ _). set (label := method +:+ _).
  pose proof (withPromiseTimeout_time timeoutMs startedAt p label w1) as Ht.
  pose proof (withPromiseTimeout_waits env timeoutMs startedAt p label w1) as [Hm _].
  destruct (withPromiseTimeout env timeoutMs startedAt p label w1) as [[o|e] w2] eqn:E;
    simpl in Ht, Hm; [|simpl; lia].
  assert (forall last w3 d, 0 <= d <= Z.of_N c -> net_clock w3 = net_clock w2 + d ->
    net_clock (fetch_urls env method timeoutMs startedAt body last urls w3).2 <=
    startedAt + timeoutMs + (k + 1 + d) + rest) as Hrest
    by (intros; apply IH; lia).
  destruct o as [candidate|error]; [case_match|]; [|simpl; lia|specialize (Hrest (Some error) w2 0); lia].
  apply withPromiseTimeout_inl in E as [after E].
  specialize (cancels _ _ _ _ _ E). destruct (rsp_cancel candidate) as [ms []|ms error|]; [..|done];
    unfold await_promise, bind, wait_ms, modify, ret; cbv beta iota.
  - specialize (Hrest lastError (mkNet (net_clock w2 + Z.of_N ms) (net_tick w2) (net_requests w2))
      (Z.of_N ms) ltac:(lia) eq_refl). lia.
  - specialize (Hrest (Some error) (mkNet (net_clock w2 + Z.of_N ms) (net_tick w2) (net_requests w2))
      (Z.of_N ms) ltac:(lia) eq_refl). lia.
Qed.

Lemma read_response_time method timeoutMs startedAt response w k :
  -1 <= k -> startedAt <= net_clock w <= startedAt + timeoutMs + k ->
  net_clock (read_response env method timeoutMs startedAt response w).2 <=
  startedAt + timeoutMs + (k + 1).
Proof.
  intros Hk1 Hk. unfold read_response. case_match; [simpl; lia|]. case_match; [simpl; lia|].
  unfold bind. set (p := rsp_json response). set (label := method +:+ _).
  pose proof (withPromiseTimeout_time timeoutMs startedAt p label w) as Ht.
  destruct (withPromiseTimeout env timeoutMs startedAt p label w) as [[[?|?]|e] w2];
    simpl in *; lia.
Qed.
End Budget.

(** A request answers only with what one of its endpoints served in a successful
    response, and it ends within its timeout, plus for each endpoint at most one
    millisecond and the time it takes to cancel a body, when reading the clock takes
    no time of its own. *)
Theorem request_spec env client method params timeoutMs c w :
  (forall n, env_drift env n = 0%N) -> cancels_within (Some c) env ->
  (forall v w', request env client method params timeoutMs w = (Ok v, w') ->
     served env (client_rpcUrls client) method params v) /\
  net_clock w <= net_clock (request env client method params timeoutMs w).2 <=
  net_clock w + Z.max 1 (default (client_requestTimeoutMs client) timeoutMs)
    + Z.of_nat (length (client_rpcUrls client)) * (1 + Z.of_N c).
Proof.
  intros Hd Hcancel. split; [apply request_served|]. split.
  { pose proof (request_recorded env client method params timeoutMs w) as Hr.
    destruct (request _ _ _ _ _ w). apply Hr. }
  unfold request, recorded. set (budget := Z.max 1 _).
  unfold bind at 1 2, date_now at 1 2. cbv beta iota zeta. cbn [net_clock net_tick net_requests].
  rewrite !Hd, !Z.add_0_r. set (w1 := mkNet (net_clock w) _ _).
  set (body := request_body _ _ _). unfold bind.
  pose proof (fetch_urls_time env Hd c Hcancel method budget (net_clock w) body (client_rpcUrls client) None
                w1 (-1)) as Ht.
  pose proof (fetch_urls_waits env method budget (net_clock w) body (client_rpcUrls client) None
                w1) as [Hw _].
  destruct (fetch_urls _ _ _ _ _ _ _ w1) as [[[response|lastError]|e] w2]; simpl in *; [|lia..].
  pose proof (read_response_time env Hd method budget (net_clock w) response w2
                (-1 + Z.of_nat (length (client_rpcUrls client)) * (1 + Z.of_N c))) as Hr.
  destruct (read_response _ _ _ _ _ w2) as [r w3]. simpl in *. lia.
Qed.

(** Two endpoints, of which the first is overloaded. *)
Definition example_net (result : string -> JsVal) : NetEnv :=
  mkNetEnv (fun u => Some u)
    (fun _ url body =>
       if bool_decide (url = "https://a") then Resolves 20 (mkResponse 503 NeverSettles (Resolves 2 tt))
       else Resolves 30 (mkResponse 200
              (Resolves 1 (JObject [("jsonrpc", JString "2.0"); ("id", jget "id" body);
                 ("result", result (normalizeOptionalString (jget "method" body)))])) (Resolves 0 tt)))
    (fun _ => 0%N).

Lemma example_net_cancels result c :
  match c with Some c => (2 <= c)%N | None => True end -> cancels_within c (example_net result).
Proof.
  intros Hc n url body after response. unfold example_net, env_fetch.
  case_bool_decide; intros [= <- <-]; simpl; destruct c; simpl; lia || done.
Qed.

Definition example_client : EvmClient := mkEvmClient ["https://a"; "https://b"] 15000.

Lemma request_spec_witness :
  let env := example_net (fun _ => JString "0x5") in
  request env example_client "eth_getTransactionCount" [JString "0xaa"] None (mkNet 0 0 []) =
    (Ok (JString "0x5"),
     mkNet 53 7 [mkRpcRecord "eth_getTransactionCount" [JString "0xaa"] (Ok (JString "0x5"))]) /\
  served env ["https://a"; "https://b"] "eth_getTransactionCount" [JString "0xaa"] (JString "0x5").
Proof.
  cbv zeta. split; [vm_compute; reflexivity|].
  destruct (request_spec (example_net (fun _ => JString "0x5")) example_client
              "eth_getTransactionCount" [JString "0xaa"] None 2 (mkNet 0 0 [])) as [H _];
    [done|by apply example_net_cancels|].
  eapply H. vm_compute. reflexivity.
Defined.

(** The wait for the body to be cancelled is outside the request's time: a request
    of a second takes over a minute when the overloaded endpoint's body takes one. *)
Theorem cancel_outlasts_budget :
  let env := mkNetEnv (fun u => Some u)
    (fun _ url _ =>
       if bool_decide (url = "https://a")
       then Resolves 20 (mkResponse 503 NeverSettles (Resolves 60000 tt)) else NeverSettles)
    (fun _ => 0%N) in
  net_clock (request env example_client "eth_getTransactionCount" [JString "0xaa"] (Some 1000)
               (mkNet 0 0 [])).2 = 60021.
Proof. vm_compute. reflexivity. Qed.

