(* ===== verification/EvmReceiptWait.v ===== *)
(** * Waiting for a receipt

    [waitForTransactionReceipt] of [core/rpcClients/evm/EvmClient.ts]: the loop
    that polls for a receipt until it has enough confirmations, the transaction is
    seen to be dropped, replaced or underpriced, the caller aborts, or the time is
    over. *)

From S2P Require Import Prelude JsValues EvmRpc EvmClient.
Local Open Scope Z_scope.
Local Open Scope js_scope.

Definition DEFAULT_WAIT_TIMEOUT_MS : Z := 90000.
Definition DEFAULT_POLL_INTERVAL_MS : Z := 1250.
Definition DEFAULT_CONFIRMATIONS : Z := 1.

(** An abort signal: when it is aborted, and its reason. *)
Inductive AbortReason : Type :=
| AbortedWithError (error : Exn)
| AbortedWithValue (value : JsVal).

Record AbortSignal : Type := mkSignal {
  signal_abortsAt : Z;
  signal_reason : AbortReason;
}.

Record WaitForEvmTransactionReceiptArgs : Type := mkWaitArgs {
  wait_txHash : string;
  wait_timeoutMs : option Z;
  wait_pollIntervalMs : option Z;
  wait_signal : option AbortSignal;
  wait_maxFeePerGasHint : option Z;
  wait_confirmations : option Z;
  wait_transactionSenderAddress : option string;
  wait_nonceHint : option Z;
}.

Definition toAbortError (signal : AbortSignal) : Exn :=
  match signal_reason signal with
  | AbortedWithError e => e
  | AbortedWithValue v =>
      let message := stringOrEmptyTrimmed v in
      JsCodedError "aborted" (if nonempty message then message else "Operation aborted")
  end.

Definition throwIfAborted (signal : option AbortSignal) : M Net unit :=
  fun w =>
    match signal with
    | Some s => if signal_abortsAt s <=? net_clock w then (Throw (toAbortError s), w) else (Ok tt, w)
    | None => (Ok tt, w)
    end.

(** A sleep ends when its timer fires, or when the signal is aborted before. *)
Definition sleepWithAbort (ms : Z) (signal : option AbortSignal) : M Net unit :=
  throwIfAborted signal ;;
  let delayMs := setTimeout_delay (Z.max 0 ms) in
  fun w =>
    match signal with
    | Some s =>
        if signal_abortsAt s <? net_clock w + delayMs
        then (Throw (toAbortError s), mkNet (signal_abortsAt s) (net_tick w) (net_requests w))
        else wait_ms delayMs w
    | None => wait_ms delayMs w
    end.

(** [text.padStart(width, '0')] and [.replace(/0+$/, '')]. *)
Definition pad_start (width : nat) (text : string) : string :=
  Nat.iter (width - String.length text) (String "0"%char) text.

Fixpoint strip_trailing_zeros (s : string) : string :=
  match s with
  | EmptyString => EmptyString
  | String a t =>
      match strip_trailing_zeros t with
      | EmptyString => if Ascii.eqb a "0"%char then EmptyString else String a EmptyString
      | t' => String a t'
      end
  end.

Definition formatWeiToGwei (value : Z) : string :=
  let gwei := Z.quot value 1000000000 in
  let remainder := Z.rem value 1000000000 in
  if remainder =? 0 then Z_to_string gwei
  else Z_to_string gwei +:+ "." +:+ strip_trailing_zeros (pad_start 9 (Z_to_string remainder)).

(** [String(value || '').trim()] of a field. *)
Definition rpc_text (value : RpcString) : string :=
  match value with RpcText s => trim s | _ => EmptyString end.

Definition toAddressOrNull (value : RpcString) : option string :=
  let normalized := rpc_text value in
  if is_0x_hex_any_case 40 normalized then Some normalized else None.

Definition toHexQuantityOrNull (value : RpcString) : option string :=
  let normalized := rpc_text value in
  if is_hex_quantity normalized then Some normalized else None.

(** [object?.field]. *)
Definition rpc_field {A} (field : A -> RpcString) (o : option A) : RpcString :=
  match o with Some a => field a | None => RpcUndefined end.

(** The counters of the loop. *)
Record Streaks : Type := mkStreaks {
  nonceAdvancedStreak : Z;
  txSeenByHash : bool;
  txMissingWithoutEverSeenStreak : Z;
  txMissingLikelyReplacedStreak : Z;
  txMissingNonceGapStreak : Z;
}.

Record WaitState : Type := mkWaitState {
  lastRpcError : option string;
  underpricedSinceMs : option Z;
  observedTxFrom : option string;
  observedTxNonce : option Z;
  streaks : Streaks;
}.

Definition with_advanced (n : Z) (s : Streaks) : Streaks :=
  mkStreaks n (txSeenByHash s) (txMissingWithoutEverSeenStreak s) (txMissingLikelyReplacedStreak s)
    (txMissingNonceGapStreak s).
Definition with_seen (b : bool) (s : Streaks) : Streaks :=
  mkStreaks (nonceAdvancedStreak s) b (txMissingWithoutEverSeenStreak s)
    (txMissingLikelyReplacedStreak s) (txMissingNonceGapStreak s).
Definition with_missing (neverSeen likelyReplaced : Z) (s : Streaks) : Streaks :=
  mkStreaks (nonceAdvancedStreak s) (txSeenByHash s) neverSeen likelyReplaced
    (txMissingNonceGapStreak s).
Definition with_replaced (n : Z) (s : Streaks) : Streaks :=
  with_missing (txMissingWithoutEverSeenStreak s) n s.
Definition with_gap (n : Z) (s : Streaks) : Streaks :=
  mkStreaks (nonceAdvancedStreak s) (txSeenByHash s) (txMissingWithoutEverSeenStreak s)
    (txMissingLikelyReplacedStreak s) n.

Definition dropped_error (branch reason : string) (txNonce latestNonce : Z) (txFrom message : string)
    : Exn :=
  EvmWaitError branch reason (Z_to_string txNonce) (Z_to_string latestNonce) txFrom message.

Definition nonce_advanced_error (txNonce latestNonce : Z) (txFrom : string) : Exn :=
  dropped_error "dropped_nonce_advanced" "dropped" txNonce latestNonce txFrom
    ("Transaction dropped or replaced: account nonce advanced past tx nonce ("
       +:+ Z_to_string txNonce +:+ " -> " +:+ Z_to_string latestNonce +:+ ").").

Definition nonce_gap_error (txNonce latestNonce : Z) (txFrom : string) : Exn :=
  dropped_error "dropped_nonce_gap" "dropped" txNonce latestNonce txFrom
    ("Transaction dropped or queued behind a nonce gap: tx hash never became visible while account nonce stayed behind tx nonce ("
       +:+ Z_to_string latestNonce +:+ " < " +:+ Z_to_string txNonce +:+ ").").

Definition never_visible_error (txNonce latestNonce : Z) (txFrom : string) : Exn :=
  dropped_error "dropped_hash_disappeared" "dropped" txNonce latestNonce txFrom
    ("Transaction dropped or replaced: tx hash never became visible to RPC pending pool at nonce "
       +:+ Z_to_string txNonce +:+ ".").

Definition replaced_error (what : string) (txNonce latestNonce : Z) (txFrom : string) : Exn :=
  dropped_error "dropped_hash_disappeared" "replaced" txNonce latestNonce txFrom
    ("Transaction dropped or replaced: tx hash " +:+ what
       +:+ " and pending nonce moved ahead of tx nonce (" +:+ Z_to_string txNonce +:+ ").").

Definition underpriced_error (hint baseFee : Z) : Exn :=
  EvmWaitError "underpriced_fee" EmptyString EmptyString EmptyString EmptyString
    ("Transaction pending due to underpriced fees: maxFeePerGas=" +:+ formatWeiToGwei hint
       +:+ " gwei, latest baseFee=" +:+ formatWeiToGwei baseFee
       +:+ " gwei. Retry to re-sign with refreshed fee caps.").

Definition timeout_error (timeoutMs : Z) (lastRpcError : option string) : Exn :=
  EvmWaitError "timeout" EmptyString EmptyString EmptyString EmptyString
    ("Timed out waiting for tx receipt after " +:+ Z_to_string timeoutMs +:+ "ms" +:+
       match lastRpcError with
       | Some e => if nonempty e then "; last RPC error: " +:+ e else EmptyString
       | None => EmptyString
       end).

(** The settings of one wait, fixed before its loop. *)
Record WaitConfig : Type := mkWaitConfig {
  cfg_args : WaitForEvmTransactionReceiptArgs;
  cfg_timeoutMs : Z;
  cfg_pollIntervalMs : Z;
  cfg_confirmations : Z;
  cfg_deadline : Z;
  cfg_waitStartedAtMs : Z;
}.

Section Wait.
Context (env : NetEnv) (client : EvmClient).

Definition missingNeverSeenMinDurationMs (cfg : WaitConfig) : Z :=
  Z.min 30000 (Z.max (cfg_pollIntervalMs cfg * 3) (cfg_timeoutMs cfg / 3)).
Definition missingLikelyReplacedMinDurationMs (cfg : WaitConfig) : Z :=
  Z.min 15000 (Z.max (cfg_pollIntervalMs cfg * 3) (cfg_timeoutMs cfg / 6)).
Definition missingNonceGapMinDurationMs (cfg : WaitConfig) : Z :=
  Z.min 10000 (Z.max (cfg_pollIntervalMs cfg * 3) (cfg_timeoutMs cfg / 5)).

(** A read whose timeout is what is left before the deadline. *)
Definition with_remaining {A} (cfg : WaitConfig) (read : option Z -> M Net A) : M Net A :=
  t <- date_now env ;;
  read (Some (Z.min (client_requestTimeoutMs client) (Z.max 1 (cfg_deadline cfg - t)))).

(** [.catch(() => null)]. *)
Definition or_null {A} (m : M Net (option A)) : M Net (option A) := try_await m (fun _ => ret None).

Definition read_receipt (cfg : WaitConfig) : M Net (option EvmTransactionReceipt) :=
  with_remaining cfg (getTransactionReceipt env client (wait_txHash (cfg_args cfg))).

Definition read_latest_block (cfg : WaitConfig) : M Net (option EvmBlockHeader) :=
  or_null (with_remaining cfg (getBlockByNumber env client "latest")).

Definition read_transaction (cfg : WaitConfig) : M Net (option EvmTransactionByHash) :=
  or_null (with_remaining cfg (getTransactionByHash env client (wait_txHash (cfg_args cfg)))).

Definition read_nonce (cfg : WaitConfig) (address blockTag : string) : M Net (option Z) :=
  or_null (n <- with_remaining cfg (getTransactionCount env client address (Some blockTag)) ;;
           ret (Some n)).

(** [txByHashSnapshot === undefined ? await getTransactionByHash(...) : txByHashSnapshot]. *)
Definition transaction_of (cfg : WaitConfig) (snapshot : option (option EvmTransactionByHash))
    : M Net (option EvmTransactionByHash) :=
  match snapshot with
  | None => read_transaction cfg
  | Some tx => _ <- date_now env ;; ret tx
  end.

(** The block read that decides whether a receipt has its confirmations. *)
Definition has_confirmations (cfg : WaitConfig) (receiptBlockNumber : Z) : M Net bool :=
  if cfg_confirmations cfg <=? 1 then ret true else
  latestBlock <- read_latest_block cfg ;;
  match toHexQuantityOrNull (rpc_field block_number latestBlock) with
  | None => ret false
  | Some latestBlockHex =>
      latestBlockNumber <- lift (parseRpcHexQuantity (JString latestBlockHex) "latest.number") ;;
      ret ((receiptBlockNumber <=? latestBlockNumber) &&
           (cfg_confirmations cfg <=? latestBlockNumber - receiptBlockNumber + 1))
  end.

Definition txMatchesObservedNonce (observedFrom : string) (observedNonce : Z)
    (tx : option EvmTransactionByHash) : bool :=
  match toAddressOrNull (rpc_field tx_from tx), toHexQuantityOrNull (rpc_field tx_nonce tx) with
  | Some txFrom, Some txNonceHex =>
      bool_decide (to_lower txFrom = to_lower observedFrom) &&
      match parseRpcHexQuantity (JString txNonceHex) "tx.nonce" with
      | Ok n => n =? observedNonce
      | Throw _ => false
      end
  | _, _ => false
  end.

(** The look at the transaction itself, which sets the sender and the nonce the
    loop watches when they are not known yet. *)
Definition observe_transaction (st : WaitState) (tx : option EvmTransactionByHash)
    : Result WaitState :=
  match toAddressOrNull (rpc_field tx_from tx), toHexQuantityOrNull (rpc_field tx_nonce tx) with
  | Some txFrom, Some txNonceHex =>
      let* txNonce := parseRpcHexQuantity (JString txNonceHex) "tx.nonce" in
      let from := default txFrom (observedTxFrom st) in
      let nonce := default txNonce (observedTxNonce st) in
      let s := streaks st in
      Ok (mkWaitState (lastRpcError st) (underpricedSinceMs st) (Some from) (Some nonce)
            (if bool_decide (to_lower from = to_lower txFrom) && (nonce =? txNonce)
             then with_missing 0 0 (with_seen true s) else s))
  | _, _ => Ok st
  end.

(** The last look for a receipt before the transaction counts as dropped; [inr] is a
    receipt that turned up after all. *)
Definition conclude_advanced (cfg : WaitConfig) (from : string) (nonce latestNonce : Z)
    (s : Streaks) : M Net (Streaks + EvmTransactionReceipt) :=
  if 2 <=? nonceAdvancedStreak s then
    finalReceipt <- or_null (read_receipt cfg) ;;
    match finalReceipt with
    | Some r =>
        match toHexQuantityOrNull (RpcText (receipt_blockNumber r)) with
        | Some hex =>
            finalReceiptBlock <- lift (parseRpcHexQuantity (JString hex) "receipt.blockNumber") ;;
            confirmed <- has_confirmations cfg finalReceiptBlock ;;
            if (confirmed : bool) then ret (inr r) else ret (inl (with_advanced 0 s))
        | None => throw (nonce_advanced_error nonce latestNonce from)
        end
    | None => throw (nonce_advanced_error nonce latestNonce from)
    end
  else ret (inl s).

(** The account's nonce has moved past the transaction's. *)
Definition nonce_advanced (cfg : WaitConfig) (from : string) (nonce latestNonce : Z)
    (snapshot : option (option EvmTransactionByHash)) (s : Streaks)
    : M Net (Streaks + EvmTransactionReceipt) :=
  tx <- transaction_of cfg snapshot ;;
  let matches := txMatchesObservedNonce from nonce tx in
  let s := if matches then with_seen true s else s in
  s <- (match toHexQuantityOrNull (rpc_field tx_blockNumber tx) with
        | Some _ => ret (with_missing 0 0 (with_advanced 0 s))
        | None =>
            if matches then ret (with_missing 0 0 (with_advanced 0 s))
            else
              pendingNonce <- read_nonce cfg from "pending" ;;
              ret (with_replaced 0
                     (match pendingNonce with
                      | Some p =>
                          if p <=? nonce then with_advanced 0 s
                          else with_advanced (nonceAdvancedStreak s + 1) s
                      | None => with_advanced (nonceAdvancedStreak s + 1) s
                      end))
        end) ;;
  conclude_advanced cfg from nonce latestNonce s.

(** The nonce is still behind the transaction's and its hash was never seen. *)
Definition nonce_behind (cfg : WaitConfig) (from : string) (nonce latestNonce : Z)
    (snapshot : option (option EvmTransactionByHash)) (s : Streaks)
    : M Net (option (option EvmTransactionByHash) * Streaks) :=
  tx <- transaction_of cfg snapshot ;;
  s <- (if txMatchesObservedNonce from nonce tx
        then ret (with_missing 0 0 (with_gap 0 (with_seen true s)))
        else
          pendingNonce <- read_nonce cfg from "pending" ;;
          ret (match pendingNonce with
               | Some p =>
                   if p <=? nonce
                   then with_missing 0 0 (with_gap (txMissingNonceGapStreak s + 1) s)
                   else with_missing 0 (txMissingLikelyReplacedStreak s + 1) (with_gap 0 s)
               | None => with_missing 0 0 (with_gap 0 s)
               end)) ;;
  t <- date_now env ;;
  let waitedMs := t - cfg_waitStartedAtMs cfg in
  if (2 <=? txMissingNonceGapStreak s) && (missingNonceGapMinDurationMs cfg <=? waitedMs)
  then throw (nonce_gap_error nonce latestNonce from)
  else if (2 <=? txMissingLikelyReplacedStreak s)
            && (missingLikelyReplacedMinDurationMs cfg <=? waitedMs)
  then throw (replaced_error "never became visible" nonce latestNonce from)
  else ret (Some tx, s).

(** The hash was seen before. *)
Definition hash_was_seen (cfg : WaitConfig) (from : string) (nonce latestNonce : Z)
    (snapshot : option (option EvmTransactionByHash)) (s : Streaks) : M Net Streaks :=
  tx <- transaction_of cfg snapshot ;;
  s <- (if txMatchesObservedNonce from nonce tx then ret (with_missing 0 0 s)
        else
          pendingNonce <- read_nonce cfg from "pending" ;;
          ret (match pendingNonce with
               | Some p =>
                   if p <=? nonce then with_replaced 0 s
                   else with_replaced (txMissingLikelyReplacedStreak s + 1) s
               | None => with_replaced 0 s
               end)) ;;
  t <- date_now env ;;
  let waitedMs := t - cfg_waitStartedAtMs cfg in
  if (2 <=? txMissingLikelyReplacedStreak s) && (missingLikelyReplacedMinDurationMs cfg <=? waitedMs)
  then throw (replaced_error "disappeared" nonce latestNonce from)
  else ret s.

(** The hash was never seen. *)
Definition hash_never_seen (cfg : WaitConfig) (from : string) (nonce latestNonce : Z)
    (snapshot : option (option EvmTransactionByHash)) (s : Streaks) : M Net Streaks :=
  tx <- transaction_of cfg snapshot ;;
  s <- (if txMatchesObservedNonce from nonce tx then ret (with_missing 0 0 (with_seen true s))
        else
          pendingNonce <- read_nonce cfg from "pending" ;;
          ret (match pendingNonce with
               | Some p =>
                   if (p =? nonce) && (latestNonce =? nonce)
                   then with_missing (txMissingWithoutEverSeenStreak s + 1) 0 s
                   else if nonce <? p
                   then with_missing 0 (txMissingLikelyReplacedStreak s + 1) s
                   else with_missing 0 0 s
               | None => with_missing 0 0 s
               end)) ;;
  t <- date_now env ;;
  let waitedMs := t - cfg_waitStartedAtMs cfg in
  if (3 <=? txMissingWithoutEverSeenStreak s) && (missingNeverSeenMinDurationMs cfg <=? waitedMs)
  then throw (never_visible_error nonce latestNonce from)
  else if (2 <=? txMissingLikelyReplacedStreak s)
            && (missingLikelyReplacedMinDurationMs cfg <=? waitedMs)
  then throw (replaced_error "never became visible" nonce latestNonce from)
  else ret s.

Definition check_nonce (cfg : WaitConfig) (from : string) (nonce : Z)
    (snapshot : option (option EvmTransactionByHash)) (s : Streaks)
    : M Net (Streaks + EvmTransactionReceipt) :=
  latest <- read_nonce cfg from "latest" ;;
  match latest with
  | None => ret (inl s)
  | Some latestNonce =>
      if nonce <? latestNonce then nonce_advanced cfg from nonce latestNonce snapshot s
      else
        let s := with_advanced 0 s in
        seen <- (if (latestNonce <? nonce) && negb (txSeenByHash s)
                 then nonce_behind cfg from nonce latestNonce snapshot s
                 else ret (snapshot, s)) ;;
        let '(snapshot, s) := seen in
        s <- (if txSeenByHash s then hash_was_seen cfg from nonce latestNonce snapshot s
              else hash_never_seen cfg from nonce latestNonce snapshot s) ;;
        ret (inl s)
  end.

Definition check_fee (cfg : WaitConfig) (st : WaitState) : M Net WaitState :=
  let with_since o :=
    mkWaitState (lastRpcError st) o (observedTxFrom st) (observedTxNonce st) (streaks st) in
  match wait_maxFeePerGasHint (cfg_args cfg) with
  | None => ret st
  | Some hint =>
      latestBlock <- read_latest_block cfg ;;
      let baseFeeHex := rpc_text (rpc_field baseFeePerGas latestBlock) in
      if is_hex_quantity baseFeeHex then
        match parseRpcHexQuantity (JString baseFeeHex) "baseFeePerGas" with
        | Ok baseFee =>
            if hint <? baseFee then
              since <- match underpricedSinceMs st with
                       | Some t => ret t
                       | None => date_now env
                       end ;;
              t <- date_now env ;;
              if Z.min 30000 (cfg_timeoutMs cfg / 3) <=? t - since
              then throw (underpriced_error hint baseFee)
              else ret (with_since (Some since))
            else ret (with_since None)
        | Throw _ => ret (with_since None)
        end
      else ret st
  end.

(** The part of a poll that finds no receipt. *)
Definition poll_missing (cfg : WaitConfig) (st : WaitState)
    : M Net (WaitState + EvmTransactionReceipt) :=
  looked <- (if match observedTxFrom st, observedTxNonce st with
                | Some _, Some _ => negb (txSeenByHash (streaks st))
                | _, _ => true
                end
             then tx <- read_transaction cfg ;;
                  st <- lift (observe_transaction st tx) ;;
                  ret (Some tx, st)
             else ret (None, st)) ;;
  let '(snapshot, st) := looked in
  checked <- match observedTxFrom st, observedTxNonce st with
             | Some from, Some nonce =>
                 r <- check_nonce cfg from nonce snapshot (streaks st) ;;
                 ret (match r with
                      | inl s => inl (mkWaitState (lastRpcError st) (underpricedSinceMs st)
                                        (observedTxFrom st) (observedTxNonce st) s)
                      | inr receipt => inr receipt
                      end)
             | _, _ => ret (inl st)
             end ;;
  match checked with
  | inr receipt => ret (inr receipt)
  | inl st =>
      st <- check_fee cfg st ;;
      sleepWithAbort (cfg_pollIntervalMs cfg) (wait_signal (cfg_args cfg)) ;;
      ret (inl st)
  end.

(** One iteration of the loop. *)
Definition poll (cfg : WaitConfig) (st : WaitState) : M Net (WaitState + EvmTransactionReceipt) :=
  throwIfAborted (wait_signal (cfg_args cfg)) ;;
  read <- try_await (receipt <- read_receipt cfg ;; ret (receipt, None))
            (fun e => ret (None, Some (errorMessage e))) ;;
  let '(receipt, lastRpcError) := read in
  let st := mkWaitState lastRpcError (underpricedSinceMs st) (observedTxFrom st)
              (observedTxNonce st) (streaks st) in
  match receipt with
  | Some r =>
      receiptBlockNumber <-
        lift (parseRpcHexQuantity (JString (receipt_blockNumber r)) "receipt.blockNumber") ;;
      confirmed <- has_confirmations cfg receiptBlockNumber ;;
      if (confirmed : bool) then ret (inr r)
      else sleepWithAbort (cfg_pollIntervalMs cfg) (wait_signal (cfg_args cfg)) ;; ret (inl st)
  | None => poll_missing cfg st
  end.

Fixpoint wait_loop (fuel : nat) (cfg : WaitConfig) (st : WaitState) : M Net EvmTransactionReceipt :=
  match fuel with
  | O => throw OutOfFuel
  | S fuel =>
      t <- date_now env ;;
      if t <? cfg_deadline cfg then
        r <- poll cfg st ;;
        match r with
        | inr receipt => ret receipt
        | inl st => wait_loop fuel cfg st
        end
      else
        throwIfAborted (wait_signal (cfg_args cfg)) ;;
        throw (timeout_error (cfg_timeoutMs cfg) (lastRpcError st))
  end.

Definition initial_state (args : WaitForEvmTransactionReceiptArgs) : WaitState :=
  mkWaitState None None
    (match wait_transactionSenderAddress args with
     | Some a => match toAddressOrNull (RpcText a) with Some _ => Some a | None => None end
     | None => None
     end)
    (match wait_nonceHint args with
     | Some n => if 0 <=? n then Some n else None
     | None => None
     end)
    (mkStreaks 0 false 0 0 0).

(** One iteration for each millisecond of the timeout, and the last look at the
    clock, are enough when a poll sleeps. *)
Definition waitForTransactionReceipt (args : WaitForEvmTransactionReceiptArgs)
    : M Net EvmTransactionReceipt :=
  let timeoutMs := Z.max 1 (default DEFAULT_WAIT_TIMEOUT_MS (wait_timeoutMs args)) in
  let pollIntervalMs := Z.max 1 (default DEFAULT_POLL_INTERVAL_MS (wait_pollIntervalMs args)) in
  let confirmations := Z.max 1 (default DEFAULT_CONFIRMATIONS (wait_confirmations args)) in
  t <- date_now env ;;
  waitStartedAtMs <- date_now env ;;
  wait_loop (S (Z.to_nat timeoutMs))
    (mkWaitConfig args timeoutMs pollIntervalMs confirmations (t + timeoutMs) waitStartedAtMs)
    (initial_state args).
End Wait.
