(* ===== verification/EvmReceiptEvidence.v ===== *)
(** * What the wait for a receipt concludes from

    Every answer of [waitForTransactionReceipt] rests on requests it made: a
    receipt it returns was served for the requested hash with its confirmations,
    and each error that calls the transaction dropped, replaced or underpriced
    rests on a number of answers of the network.  The loop ends. *)

From S2P Require Import Prelude ListFacts JsValues EvmRpc EvmClient EvmReceiptWait.
Local Open Scope Z_scope.
Local Open Scope js_scope.

(** ** Answers in the record *)

(** The nonce of [address] at [blockTag] that a record answers with. *)
Definition nonce_answer (address blockTag : string) (r : RpcRecord) : option Z :=
  match rec_params r, rec_result r with
  | [JString a; JString t], Ok v =>
      if bool_decide (rec_method r = "eth_getTransactionCount" /\ a = address /\ t = blockTag) then
        match parseRpcHexQuantity v "eth_getTransactionCount" with Ok n => Some n | Throw _ => None end
      else None
  | _, _ => None
  end.

(** The receipt of [txHash] that a record answers with. *)
Definition receipt_answer (txHash : string) (r : RpcRecord) : option EvmTransactionReceipt :=
  match rec_params r, rec_result r with
  | [JString h], Ok v =>
      if bool_decide (rec_method r = "eth_getTransactionReceipt" /\ h = txHash) then
        match decodeEvmTransactionReceipt v with
        | Ok (Some receipt) =>
            if bool_decide (to_lower (transactionHash receipt) = to_lower txHash)
            then Some receipt else None
        | _ => None
        end
      else None
  | _, _ => None
  end.

(** The header of the latest block that a record answers with. *)
Definition header_answer (r : RpcRecord) : option EvmBlockHeader :=
  match rec_result r with
  | Ok v =>
      if bool_decide (rec_method r = "eth_getBlockByNumber")
      then match decodeEvmBlockHeader v with Ok h => h | Throw _ => None end
      else None
  | Throw _ => None
  end.

(** The number a text of a record stands for. *)
Definition quantity_of (s : RpcString) : option Z :=
  match toHexQuantityOrNull s with
  | Some hex => match parseRpcHexQuantity (JString hex) EmptyString with
                | Ok n => Some n
                | Throw _ => None
                end
  | None => None
  end.

(** The requests made after the first [start]. *)
Definition since (start : nat) (w : Net) : list RpcRecord := drop start (net_requests w).

(** How many of them answered with a nonce that passes [test]. *)
Definition nonce_count (start : nat) (address blockTag : string) (test : Z -> bool) (w : Net) : Z :=
  Z.of_nat (length (List.filter (fun r =>
    match nonce_answer address blockTag r with Some n => test n | None => false end) (since start w))).

(** The receipt was served for the hash and, when more than one confirmation is
    asked for, a latest block was served that lies far enough above its block. *)
Definition confirmed_receipt (start : nat) (txHash : string) (confirmations : Z)
    (receipt : EvmTransactionReceipt) (w : Net) : Prop :=
  (exists r, r ∈ since start w /\ receipt_answer txHash r = Some receipt) /\
  (confirmations <= 1 \/
   exists r h block latest, r ∈ since start w /\ header_answer r = Some h /\
     quantity_of (RpcText (receipt_blockNumber receipt)) = Some block /\
     quantity_of (block_number h) = Some latest /\ block + confirmations - 1 <= latest).

(** The errors of a wait that started at [startedAt], and what each rests on. *)
Inductive wait_error (start : nat) (args : WaitForEvmTransactionReceiptArgs) (startedAt timeoutMs
    pollIntervalMs : Z) (w : Net) : Exn -> Prop :=
| error_aborted s :
    wait_signal args = Some s -> signal_abortsAt s <= net_clock w ->
    wait_error start args startedAt timeoutMs pollIntervalMs w (toAbortError s)
| error_timeout lastRpcError :
    startedAt + timeoutMs <= net_clock w ->
    wait_error start args startedAt timeoutMs pollIntervalMs w (timeout_error timeoutMs lastRpcError)
| error_advanced from nonce latest r :
    nonce < latest -> 2 <= nonce_count start from "latest" (fun n => nonce <? n) w ->
    last (net_requests w) = Some r -> rec_method r = "eth_getTransactionReceipt" ->
    receipt_answer (wait_txHash args) r = None ->
    wait_error start args startedAt timeoutMs pollIntervalMs w (nonce_advanced_error nonce latest from)
| error_gap from nonce latest :
    latest < nonce -> 2 <= nonce_count start from "pending" (fun n => n <=? nonce) w ->
    startedAt + Z.min 10000 (Z.max (pollIntervalMs * 3) (timeoutMs / 5)) <= net_clock w ->
    wait_error start args startedAt timeoutMs pollIntervalMs w (nonce_gap_error nonce latest from)
| error_never_visible from nonce latest :
    latest = nonce -> 3 <= nonce_count start from "pending" (fun n => n =? nonce) w ->
    startedAt + Z.min 30000 (Z.max (pollIntervalMs * 3) (timeoutMs / 3)) <= net_clock w ->
    wait_error start args startedAt timeoutMs pollIntervalMs w (never_visible_error nonce latest from)
| error_replaced what from nonce latest :
    latest <= nonce -> 2 <= nonce_count start from "pending" (fun n => nonce <? n) w ->
    startedAt + Z.min 15000 (Z.max (pollIntervalMs * 3) (timeoutMs / 6)) <= net_clock w ->
    wait_error start args startedAt timeoutMs pollIntervalMs w (replaced_error what nonce latest from)
| error_underpriced hint baseFee r h :
    wait_maxFeePerGasHint args = Some hint -> hint < baseFee ->
    r ∈ since start w -> header_answer r = Some h ->
    quantity_of (baseFeePerGas h) = Some baseFee ->
    wait_error start args startedAt timeoutMs pollIntervalMs w (underpriced_error hint baseFee).

(** ** The record only grows *)

Lemma since_mono start w w' r : net_le w w' -> r ∈ since start w -> r ∈ since start w'.
Proof. intros [_ [more Hm]]. unfold since. rewrite Hm, drop_app. set_solver. Qed.

Lemma nonce_count_mono start a t test w w' :
  net_le w w' -> nonce_count start a t test w <= nonce_count start a t test w'.
Proof.
  intros [_ [more Hm]]. unfold nonce_count, since. rewrite Hm, drop_app, List.filter_app, length_app.
  lia.
Qed.

Lemma since_added start w w' r :
  (start <= length (net_requests w))%nat -> net_requests w' = net_requests w ++ [r] ->
  since start w' = since start w ++ [r].
Proof. intros Hs Hr. unfold since. by rewrite Hr, drop_app_le. Qed.

Lemma nonce_count_added start a t (test : Z -> bool) w w' r n :
  (start <= length (net_requests w))%nat -> net_requests w' = net_requests w ++ [r] ->
  nonce_answer a t r = Some n -> test n = true ->
  nonce_count start a t test w' = nonce_count start a t test w + 1.
Proof.
  intros Hs Hr Ha Ht. unfold nonce_count. rewrite (since_added start w w' r) by done.
  rewrite List.filter_app, length_app. simpl. rewrite Ha, Ht. simpl. lia.
Qed.

Lemma net_le_length start w w' :
  net_le w w' -> (start <= length (net_requests w))%nat -> (start <= length (net_requests w'))%nat.
Proof. intros [_ [more ->]]. rewrite length_app. lia. Qed.

(** One request was made, and [r] records it. *)
Definition asked (w w' : Net) (r : RpcRecord) : Prop :=
  net_clock w <= net_clock w' /\ net_requests w' = net_requests w ++ [r].

Lemma asked_le w w' r : asked w w' r -> net_le w w'.
Proof. intros [? ?]. split; [done|]. by exists [r]. Qed.

Lemma asked_since start w w' r :
  (start <= length (net_requests w))%nat -> asked w w' r -> r ∈ since start w'.
Proof. intros Hs [_ Hr]. rewrite (since_added start w w' r) by done. set_solver. Qed.

#[local] Hint Resolve asked_le net_le_length : core.

(** A text that passes the test of a quantity has a number, whatever label an
    error would carry. *)
Lemma quantity_parse s hex label :
  toHexQuantityOrNull s = Some hex ->
  exists n, quantity_of s = Some n /\ parseRpcHexQuantity (JString hex) label = Ok n.
Proof.
  unfold quantity_of, toHexQuantityOrNull. destruct (is_hex_quantity (rpc_text s)) eqn:E; [|done].
  intros [= <-]. pose proof (hex_quantity_trim _ E) as Ht.
  destruct (parse_hex_quantity _ label E Ht) as (n & Hn & _).
  destruct (parse_hex_quantity _ EmptyString E Ht) as (n' & Hn' & _).
  exists n. rewrite Hn, Hn'. split; [|done]. f_equal.
  revert Hn Hn'. unfold parseRpcHexQuantity, normalizeOptionalTrimmedString. simpl.
  rewrite Ht, E. congruence.
Qed.

Section Reads.
Context (env : NetEnv) (client : EvmClient) (cfg : WaitConfig).

(** A read is one request and a decoding of its answer. *)
Lemma read_asked {A} method params (k : JsVal -> M Net A) (f : JsVal -> Result A) w :
  (forall v w, k v w = (f v, w)) ->
  let '(r, w') :=
    with_remaining env client cfg (fun t => bind (request env client method params t) k) w in
  exists answer, asked w w' (mkRpcRecord method params answer) /\ r = result_bind answer f /\
    (answer = Throw OutOfFuel -> hangs env).
Proof.
  intros Hk. unfold with_remaining, bind, date_now. cbv beta iota zeta.
  set (w1 := mkNet _ _ _). set (t := Some _).
  pose proof (request_recorded env client method params t w1) as Hr.
  pose proof (request_hangs env client method params t w1) as Hh.
  destruct (request env client method params t w1) as [[v|e] w2]; [rewrite Hk|];
    destruct Hr as [Hc Hr]; simpl in *;
    [exists (Ok v) | exists (Throw e)]; (split; [split; [lia|done]|split; [done|]]); [done|].
  intros [= ->]. by eapply Hh.
Qed.

(** A read that gives [null] for an error, and does not end only when a body takes
    for ever to cancel. *)
Lemma or_null_read {A B} method params (k : JsVal -> M Net (option A)) (f : JsVal -> Result (option A))
    w (next : option A -> M Net B) Q E :
  (forall v w, k v w = (f v, w)) -> (forall v, fuel_free (f v)) ->
  (forall answer w', asked w w' (mkRpcRecord method params answer) ->
     wp (next (match result_bind answer f with Ok o => o | Throw _ => None end)) Q E w') ->
  (forall w', net_le w w' -> hangs env -> E OutOfFuel w') ->
  wp (bind (or_null (with_remaining env client cfg
                       (fun t => bind (request env client method params t) k))) next) Q E w.
Proof.
  intros Hk Hf Hnext Hstuck. pose proof (read_asked method params k f w Hk) as H.
  unfold wp, or_null, try_await, try_catch, bind at 1.
  destruct (with_remaining _ _ _ _ w) as [r w']. destruct H as (answer & Ha & -> & Hh).
  specialize (Hnext answer w' Ha). destruct (result_bind answer f) as [o|e] eqn:Er; [done|].
  destruct e; try done. apply Hstuck; [eauto|]. apply Hh.
  destruct answer as [v|e]; simpl in Er; [|congruence]. by apply Hf in Er.
Qed.

Lemma read_receipt_wp w :
  let '(r, w') := read_receipt env client cfg w in
  exists record, asked w w' record /\ rec_method record = "eth_getTransactionReceipt" /\
    match r with
    | Ok o => receipt_answer (wait_txHash (cfg_args cfg)) record = o
    | Throw e => receipt_answer (wait_txHash (cfg_args cfg)) record = None /\
        (e = OutOfFuel -> hangs env)
    end.
Proof.
  unfold read_receipt, getTransactionReceipt.
  set (hash := wait_txHash _).
  pose proof (read_asked "eth_getTransactionReceipt" [JString hash]
    (fun result => receipt <- lift (decodeEvmTransactionReceipt result) ;;
       match receipt with
       | Some r =>
           if bool_decide (to_lower (transactionHash r) = to_lower hash) then ret receipt
           else throw (JsError "Receipt transactionHash does not match the requested transaction")
       | None => ret None
       end)
    (fun v => match decodeEvmTransactionReceipt v with
       | Ok (Some r) =>
           if bool_decide (to_lower (transactionHash r) = to_lower hash) then Ok (Some r)
           else Throw (JsError "Receipt transactionHash does not match the requested transaction")
       | Ok None => Ok None
       | Throw e => Throw e
       end) w) as H.
  cbv beta in H. destruct (with_remaining _ _ _ _ w) as [r w'].
  destruct H as (answer & Ha & -> & Hh).
  { intros v w0. unfold bind, lift.
    destruct (decodeEvmTransactionReceipt v) as [[r0|]|]; [case_bool_decide|..]; done. }
  exists (mkRpcRecord "eth_getTransactionReceipt" [JString hash] answer). split_and!; [done|done|].
  unfold receipt_answer. simpl. destruct answer as [v|e]; simpl; [|by split; [|intros ->; apply Hh]].
  rewrite bool_decide_true by done. pose proof (decodeEvmTransactionReceipt_fuel_free v) as Hv.
  destruct (decodeEvmTransactionReceipt v) as [[r0|]|e]; [by case_bool_decide|done|].
  split; [done|]. by intros ->.
Qed.

Lemma read_nonce_wp {B} address blockTag w (next : option Z -> M Net B) Q E :
  (forall o w' record, asked w w' record -> nonce_answer address blockTag record = o ->
     wp (next o) Q E w') ->
  (forall w', net_le w w' -> hangs env -> E OutOfFuel w') ->
  wp (bind (read_nonce env client cfg address blockTag) next) Q E w.
Proof.
  intros Hnext Hstuck.
  pose proof (or_null_read "eth_getTransactionCount" [JString address; JString blockTag]
    (fun quantity => n <- lift (parseRpcHexQuantity quantity "eth_getTransactionCount") ;; ret (Some n))
    (fun quantity => let* n := parseRpcHexQuantity quantity "eth_getTransactionCount" in Ok (Some n))
    w next Q E) as H.
  assert (bind (read_nonce env client cfg address blockTag) next w =
    bind (or_null (with_remaining env client cfg (fun t =>
      bind (request env client "eth_getTransactionCount" [JString address; JString blockTag] t)
        (fun quantity =>
           n <- lift (parseRpcHexQuantity quantity "eth_getTransactionCount") ;; ret (Some n)))))
      next w) as Heq.
  { unfold read_nonce, getTransactionCount, or_null, try_await, try_catch, with_remaining, bind.
    cbn [default]. destruct (date_now env w) as [[t|e] w1]; [|done].
    destruct (request _ _ _ _ _ w1) as [[v|e] w2]; [|done]. by destruct (lift _ w2) as [[n|e] w3]. }
  unfold wp at 1. rewrite Heq. apply H; [| | |done].
  - intros v w0. unfold bind, lift. by destruct (parseRpcHexQuantity _ _).
  - intros v. apply fuel_free_bind; [apply parseRpcHexQuantity_fuel_free|done].
  - intros answer w' Ha. eapply Hnext; [exact Ha|]. unfold nonce_answer. simpl.
    destruct answer as [v|e]; simpl; [|done]. rewrite bool_decide_true by done.
    by destruct (parseRpcHexQuantity _ _).
Qed.

Lemma read_latest_block_wp {B} w (next : option EvmBlockHeader -> M Net B) Q E :
  (forall o w' record, asked w w' record -> header_answer record = o -> wp (next o) Q E w') ->
  (forall w', net_le w w' -> hangs env -> E OutOfFuel w') ->
  wp (bind (read_latest_block env client cfg) next) Q E w.
Proof.
  intros Hnext Hstuck. unfold read_latest_block, getBlockByNumber.
  apply (or_null_read _ _ _ decodeEvmBlockHeader); [done|apply decodeEvmBlockHeader_fuel_free| |done].
  intros answer w' Ha. eapply Hnext; [exact Ha|]. by destruct answer.
Qed.

Lemma read_transaction_wp {B} w (next : option EvmTransactionByHash -> M Net B) Q E :
  (forall o w', net_le w w' -> wp (next o) Q E w') ->
  (forall w', net_le w w' -> hangs env -> E OutOfFuel w') ->
  wp (bind (read_transaction env client cfg) next) Q E w.
Proof.
  intros Hnext Hstuck. unfold read_transaction, getTransactionByHash.
  apply (or_null_read _ _ _ decodeEvmTransactionByHash);
    [done|apply decodeEvmTransactionByHash_fuel_free| |done].
  intros answer w' Ha. apply Hnext. eauto.
Qed.

Lemma transaction_of_wp {B} snapshot w (next : option EvmTransactionByHash -> M Net B) Q E :
  (forall o w', net_le w w' -> wp (next o) Q E w') ->
  (forall w', net_le w w' -> hangs env -> E OutOfFuel w') ->
  wp (bind (transaction_of env client cfg snapshot) next) Q E w.
Proof.
  intros Hnext Hstuck. destruct snapshot as [tx|]; simpl; [|by apply read_transaction_wp].
  apply Hnext. split; simpl; [lia|]. exists []. by rewrite app_nil_r.
Qed.
End Reads.

(** A [try] passes on only a wait that never ends. *)
Lemma wp_try_await {A} (m : M Net A) h Q E w :
  wp m Q (fun e w' => (e = OutOfFuel -> E OutOfFuel w') /\ wp (h e) Q E w') w ->
  wp (try_await m h) Q E w.
Proof.
  intros H. apply wp_try. eapply wp_mono; [exact H|done|].
  intros e w' [Hs Hh]. destruct e; try done. by apply wp_throw, Hs.
Qed.

(** ** The counters *)

(** Every counter is at most the number of answers it stands for. *)
Record streaks_ok (start : nat) (from : string) (nonce : Z) (s : Streaks) (w : Net) : Prop := mkOk {
  ok_advanced : nonceAdvancedStreak s <= nonce_count start from "latest" (fun n => nonce <? n) w;
  ok_gap : txMissingNonceGapStreak s <= nonce_count start from "pending" (fun n => n <=? nonce) w;
  ok_replaced :
    txMissingLikelyReplacedStreak s <= nonce_count start from "pending" (fun n => nonce <? n) w;
  ok_never :
    txMissingWithoutEverSeenStreak s <= nonce_count start from "pending" (fun n => n =? nonce) w;
}.

Lemma nonce_count_nonneg start a t test w : 0 <= nonce_count start a t test w.
Proof. unfold nonce_count. lia. Qed.

Lemma streaks_ok_le start from nonce s w w' :
  net_le w w' -> streaks_ok start from nonce s w -> streaks_ok start from nonce s w'.
Proof. intros Hle [????]. split; (etransitivity; [done|by apply nonce_count_mono]). Qed.

(** Closes a goal on counters that were kept, reset, or raised by a counted answer. *)
Ltac streaks_tac :=
  match goal with
  | H : streaks_ok ?start ?from ?nonce _ ?w |- _ =>
      destruct H as [????]; simpl in *;
      pose proof (nonce_count_nonneg start from "latest" (fun n => nonce <? n) w);
      pose proof (nonce_count_nonneg start from "pending" (fun n => n <=? nonce) w);
      pose proof (nonce_count_nonneg start from "pending" (fun n => nonce <? n) w);
      pose proof (nonce_count_nonneg start from "pending" (fun n => n =? nonce) w)
  end;
  split; simpl; lia.

Section Steps.
Context (env : NetEnv) (client : EvmClient) (cfg : WaitConfig) (start : nat) (startedAt : Z).
Context (started : startedAt <= cfg_waitStartedAtMs cfg).

(** How a step fails: with an error of the wait, or by never ending. *)
Let failure (w : Net) (e : Exn) : Prop :=
  wait_error start (cfg_args cfg) startedAt (cfg_timeoutMs cfg) (cfg_pollIntervalMs cfg) w e \/
  (e = OutOfFuel /\ hangs env).

#[local] Ltac stuck_tac :=
  intros ? ? ?; split; [by eauto || (etransitivity; eauto)|by right].

Let hash : string := wait_txHash (cfg_args cfg).

Lemma has_confirmations_wp block w :
  (start <= length (net_requests w))%nat ->
  wp (has_confirmations env client cfg block)
    (fun b w' => net_le w w' /\ (b = true -> cfg_confirmations cfg <= 1 \/
       exists r h latest, r ∈ since start w' /\ header_answer r = Some h /\
         quantity_of (block_number h) = Some latest /\
         block + cfg_confirmations cfg - 1 <= latest))
    (fun e w' => net_le w w' /\ e = OutOfFuel /\ hangs env) w.
Proof.
  intros Hs. unfold has_confirmations. destruct (cfg_confirmations cfg <=? 1) eqn:Ec.
  { apply wp_ret. split; [done|lia]. }
  apply read_latest_block_wp; [|done]. intros o w1 r A1 Ho.
  destruct (toHexQuantityOrNull (rpc_field block_number o)) as [hex|] eqn:Eh;
    [|apply wp_ret; split; [eauto|done]].
  destruct (quantity_parse _ _ "latest.number" Eh) as (latest & Hq & Hp).
  apply wp_bind. rewrite Hp. apply wp_lift_ok, wp_ret. split; [eauto|].
  intros Hb. right. destruct o as [h|]; [|done]. simpl in Hq.
  exists r, h, latest. split_and!; [by eapply asked_since|done|done|lia].
Qed.

(** A receipt with its confirmations. *)
Lemma confirmed_receipt_intro r receipt w w' :
  r ∈ since start w -> receipt_answer hash r = Some receipt -> net_le w w' ->
  (cfg_confirmations cfg <= 1 \/
   exists r h block latest, r ∈ since start w' /\ header_answer r = Some h /\
     quantity_of (RpcText (receipt_blockNumber receipt)) = Some block /\
     quantity_of (block_number h) = Some latest /\ block + cfg_confirmations cfg - 1 <= latest) ->
  confirmed_receipt start hash (cfg_confirmations cfg) receipt w'.
Proof. intros Hr Ha Hle Hc. split; [|done]. exists r. eauto using since_mono. Qed.

Lemma receipt_answer_block r receipt :
  receipt_answer hash r = Some receipt -> is_hex_quantity (receipt_blockNumber receipt) = true.
Proof.
  unfold receipt_answer. destruct (rec_params r) as [|[] [|]]; try done.
  destruct (rec_result r) as [v|]; [|done]. case_bool_decide; [|done].
  destruct (decodeEvmTransactionReceipt v) as [[r0|]|] eqn:E; [|done..].
  case_bool_decide; [|done]. intros [= <-]. by apply decoded_receipt_wf in E as (_ & ? & _).
Qed.

Lemma block_text receipt :
  is_hex_quantity (receipt_blockNumber receipt) = true ->
  toHexQuantityOrNull (RpcText (receipt_blockNumber receipt)) = Some (receipt_blockNumber receipt).
Proof.
  intros H. unfold toHexQuantityOrNull. simpl. by rewrite hex_quantity_trim, H.
Qed.

(** The confirmations of a receipt that was served. *)
Lemma confirm_receipt_wp {B} r receipt label w (k : bool -> M Net B) Q E :
  (start <= length (net_requests w))%nat ->
  r ∈ since start w -> receipt_answer hash r = Some receipt ->
  (forall b w', net_le w w' ->
     (b = true -> confirmed_receipt start hash (cfg_confirmations cfg) receipt w') -> wp (k b) Q E w') ->
  (forall w', net_le w w' -> hangs env -> E OutOfFuel w') ->
  wp (bind (lift (parseRpcHexQuantity (JString (receipt_blockNumber receipt)) label))
        (fun block => bind (has_confirmations env client cfg block) k)) Q E w.
Proof.
  intros Hs Hr Ha Hk Hstuck.
  destruct (quantity_parse _ _ label (block_text _ (receipt_answer_block _ _ Ha))) as (block & Hq & Hp).
  apply wp_bind. rewrite Hp. apply wp_lift_ok, wp_bind.
  eapply wp_mono; [apply has_confirmations_wp; done| |by intros e w' (? & -> & ?); apply Hstuck].
  intros b w' [Hle Hb]. cbv beta in *. apply Hk; [done|]. intros ->.
  eapply confirmed_receipt_intro; eauto. destruct (Hb eq_refl) as [?|(r' & h & latest & ?)]; [by left|].
  right. exists r', h, block, latest. tauto.
Qed.

(** What each step of a poll promises from [w] on. *)
Let step_ok (from : string) (nonce : Z) (w : Net) (r : Streaks + EvmTransactionReceipt) (w' : Net)
    : Prop :=
  net_le w w' /\
  match r with
  | inl s' => streaks_ok start from nonce s' w'
  | inr receipt => confirmed_receipt start hash (cfg_confirmations cfg) receipt w'
  end.

Lemma conclude_advanced_wp from nonce latest s w :
  (start <= length (net_requests w))%nat -> nonce < latest -> streaks_ok start from nonce s w ->
  wp (conclude_advanced env client cfg from nonce latest s) (step_ok from nonce w)
    (fun e w' => net_le w w' /\ failure w' e) w.
Proof.
  intros Hs Hlt Hok. unfold conclude_advanced.
  destruct (2 <=? nonceAdvancedStreak s) eqn:E2; [|by apply wp_ret].
  pose proof (read_receipt_wp env client cfg w) as Hr. apply wp_bind, wp_try_await.
  assert (forall w' record, asked w w' record -> rec_method record = "eth_getTransactionReceipt" ->
    receipt_answer hash record = None -> failure w' (nonce_advanced_error nonce latest from)) as Hf.
  { intros w' record Ha Hm Hn. left. apply (error_advanced _ _ _ _ _ _ _ _ _ record); [done| |..|done|done].
    - apply (streaks_ok_le _ _ _ _ _ w') in Hok; [|eauto]. destruct Hok. lia.
    - destruct Ha as [_ ->]. by rewrite last_snoc. }
  unfold wp at 1. destruct (read_receipt env client cfg w) as [[o|e] w1];
    destruct Hr as (record & Ha & Hm & Ho).
  - destruct o as [receipt|]; [|apply wp_throw; eauto].
    pose proof (receipt_answer_block _ _ Ho) as Hb. rewrite (block_text _ Hb).
    eapply confirm_receipt_wp; [eauto|by eapply asked_since|exact Ho| |stuck_tac].
    intros b w2 L2 Hc. assert (net_le w w2) by (etransitivity; eauto).
    destruct b; apply wp_ret; split; auto. apply (streaks_ok_le _ _ _ _ _ w2) in Hok; [|done].
    streaks_tac.
  - destruct Ho as [Ho Hh]. split; [intros ->; split; [eauto|by right; auto]|].
    apply wp_ret, wp_throw. eauto.
Qed.

Lemma nonce_advanced_wp from nonce latest snapshot s w :
  (start <= length (net_requests w))%nat -> nonce < latest ->
  streaks_ok start from nonce (with_advanced (nonceAdvancedStreak s + 1) s) w ->
  wp (nonce_advanced env client cfg from nonce latest snapshot s) (step_ok from nonce w)
    (fun e w' => net_le w w' /\ failure w' e) w.
Proof.
  intros Hs Hlt Hok. unfold nonce_advanced.
  apply transaction_of_wp; [|stuck_tac]. intros tx w1 L1. cbv zeta.
  assert (forall s2 w2, net_le w1 w2 -> streaks_ok start from nonce s2 w2 ->
    wp (conclude_advanced env client cfg from nonce latest s2) (step_ok from nonce w)
      (fun e w' => net_le w w' /\ failure w' e) w2) as Hfinal.
  { intros s2 w2 L2 Hok2. assert (net_le w w2) by (by transitivity w1).
    eapply wp_mono; [apply conclude_advanced_wp; eauto|..]; unfold step_ok; cbv beta.
    - intros r w' [??]. split; [by transitivity w2|done].
    - intros e w' [??]. split; [by transitivity w2|done]. }
  set (s1 := if txMatchesObservedNonce from nonce tx then with_seen true s else s).
  assert (streaks_ok start from nonce (with_advanced (nonceAdvancedStreak s1 + 1) s1) w1) as Hok1.
  { subst s1. apply (streaks_ok_le _ _ _ _ _ w1) in Hok; [|done].
    destruct (txMatchesObservedNonce from nonce tx); [|done]. streaks_tac. }
  clearbody s1. apply wp_bind.
  destruct (toHexQuantityOrNull (rpc_field tx_blockNumber tx)).
  { apply wp_ret, Hfinal; [done|]. streaks_tac. }
  destruct (txMatchesObservedNonce from nonce tx).
  { apply wp_ret, Hfinal; [done|]. streaks_tac. }
  apply read_nonce_wp; [|stuck_tac]. intros o w2 r A2 _. apply wp_ret, Hfinal; [eauto|].
  apply (streaks_ok_le _ _ _ _ _ w2) in Hok1; [|eauto].
  destruct o as [p|]; [destruct (p <=? nonce)|]; streaks_tac.
Qed.

(** An answer about the pending nonce raises the counter it speaks for. *)
Lemma pending_counts from nonce s w w' r p :
  (start <= length (net_requests w))%nat -> asked w w' r ->
  nonce_answer from "pending" r = Some p -> streaks_ok start from nonce s w ->
  (p <= nonce -> streaks_ok start from nonce (with_gap (txMissingNonceGapStreak s + 1) s) w') /\
  (nonce < p ->
   streaks_ok start from nonce (with_replaced (txMissingLikelyReplacedStreak s + 1) s) w') /\
  (p = nonce ->
   streaks_ok start from nonce
     (with_missing (txMissingWithoutEverSeenStreak s + 1) (txMissingLikelyReplacedStreak s) s) w').
Proof.
  intros Hs Ha Hr Hok.
  assert (forall test : Z -> bool, test p = true ->
    nonce_count start from "pending" test w' = nonce_count start from "pending" test w + 1) as Hc.
  { intros test Ht. destruct Ha as [_ Ha]. by eapply nonce_count_added. }
  pose proof (streaks_ok_le _ _ _ _ _ w' ltac:(eauto) Hok) as [????]. destruct Hok as [????].
  split_and!; intros Hp; split; simpl; try lia; rewrite Hc by (cbv beta; lia); lia.
Qed.

Lemma date_now_wp {B} w (k : Z -> M Net B) Q E :
  (forall w', net_waits w w' -> wp (k (net_clock w')) Q E w') -> wp (bind (date_now env) k) Q E w.
Proof. intros H. apply wp_bind. exact (H _ (date_now_waits env w)). Qed.

Lemma net_waits_le w w' : net_waits w w' -> net_le w w'.
Proof. intros [? ?]. split; [done|]. exists []. by rewrite app_nil_r. Qed.

(** A look at the transaction, and at the pending nonce when it is not there. *)
Lemma look_wp {B} from nonce snapshot s matched (missing : option Z -> Streaks) (P : Streaks -> Prop)
    (k : option EvmTransactionByHash -> Streaks -> M Net B) Q E w :
  (start <= length (net_requests w))%nat -> streaks_ok start from nonce s w ->
  P matched -> (forall o, P (missing o)) ->
  (forall w', streaks_ok start from nonce s w' -> streaks_ok start from nonce matched w') ->
  (forall o w1 w2 r, (start <= length (net_requests w1))%nat -> asked w1 w2 r ->
     nonce_answer from "pending" r = o -> streaks_ok start from nonce s w1 ->
     streaks_ok start from nonce s w2 -> streaks_ok start from nonce (missing o) w2) ->
  (forall tx s' w', net_le w w' -> P s' -> streaks_ok start from nonce s' w' -> wp (k tx s') Q E w') ->
  (forall w', net_le w w' -> hangs env -> E OutOfFuel w') ->
  wp (tx <- transaction_of env client cfg snapshot ;;
      s' <- (if txMatchesObservedNonce from nonce tx then ret matched
             else pendingNonce <- read_nonce env client cfg from "pending" ;;
                  ret (missing pendingNonce)) ;;
      k tx s') Q E w.
Proof.
  intros Hs Hok HP HPm Hmatched Hmissing Hk Hstuck.
  apply transaction_of_wp; [|done]. intros tx w1 L1.
  apply (streaks_ok_le _ _ _ _ _ w1) in Hok; [|done]. apply wp_bind.
  destruct (txMatchesObservedNonce from nonce tx); [apply wp_ret, Hk; auto|].
  apply read_nonce_wp; [|intros; apply Hstuck; [by transitivity w1|done]].
  intros o w2 r A2 Hr. apply wp_ret, Hk; [|done|].
  - transitivity w1; eauto.
  - apply (Hmissing o w1 w2 r); eauto using streaks_ok_le.
Qed.

Lemma hash_was_seen_wp from nonce latest snapshot s w :
  (start <= length (net_requests w))%nat -> latest <= nonce -> streaks_ok start from nonce s w ->
  wp (hash_was_seen env client cfg from nonce latest snapshot s)
    (fun s' w' => net_le w w' /\ streaks_ok start from nonce s' w')
    (fun e w' => net_le w w' /\ failure w' e) w.
Proof.
  intros Hs Hl Hok. unfold hash_was_seen.
  apply (look_wp from nonce snapshot s _ (fun pendingNonce =>
    match pendingNonce with
    | Some p => if p <=? nonce then with_replaced 0 s
                else with_replaced (txMissingLikelyReplacedStreak s + 1) s
    | None => with_replaced 0 s
    end) (fun _ => True)); [done..| | | |stuck_tac].
  - intros w' H. streaks_tac.
  - intros o w1 w2 r Hs1 Ha Hr Hok1 Hok2. destruct o as [p|]; [|streaks_tac].
    destruct (p <=? nonce) eqn:Ep; [streaks_tac|].
    apply (pending_counts from nonce s w1 w2 r p); eauto. lia.
  - intros tx s2 w2 L2 _ Hok2. apply date_now_wp. intros w3 Hw. pose proof (net_waits_le _ _ Hw) as L3.
    assert (net_le w w3) by (by transitivity w2).
    apply (streaks_ok_le _ _ _ _ _ w3) in Hok2; [|done]. cbv zeta.
    destruct (_ && _) eqn:Ec; [apply wp_throw|apply wp_ret]; (split; [done|]); [|done].
    destruct Hok2. left; apply error_replaced; [done|lia|].
    unfold missingLikelyReplacedMinDurationMs in Ec. lia.
Qed.

Lemma hash_never_seen_wp from nonce latest snapshot s w :
  (start <= length (net_requests w))%nat -> latest <= nonce -> streaks_ok start from nonce s w ->
  wp (hash_never_seen env client cfg from nonce latest snapshot s)
    (fun s' w' => net_le w w' /\ streaks_ok start from nonce s' w')
    (fun e w' => net_le w w' /\ failure w' e) w.
Proof.
  intros Hs Hl Hok. unfold hash_never_seen.
  apply (look_wp from nonce snapshot s _ (fun pendingNonce =>
    match pendingNonce with
    | Some p =>
        if (p =? nonce) && (latest =? nonce)
        then with_missing (txMissingWithoutEverSeenStreak s + 1) 0 s
        else if nonce <? p then with_missing 0 (txMissingLikelyReplacedStreak s + 1) s
        else with_missing 0 0 s
    | None => with_missing 0 0 s
    end) (fun s' => 3 <= txMissingWithoutEverSeenStreak s' -> latest = nonce)); [done|done| | | | | |stuck_tac].
  - simpl. lia.
  - intros [p|]; simpl; [|lia]. destruct (_ && _) eqn:E; simpl; [lia|]. destruct (nonce <? p); simpl; lia.
  - intros w' H. streaks_tac.
  - intros o w1 w2 r Hs1 Ha Hr Hok1 Hok2. destruct o as [p|]; [|streaks_tac].
    destruct (pending_counts from nonce s w1 w2 r p) as (_ & Hrepl & Hnever); [done..|].
    destruct (_ && _) eqn:E; [specialize (Hnever ltac:(lia)); clear Hok1 Hok2; streaks_tac|].
    destruct (nonce <? p) eqn:Ep; [|clear Hok1; streaks_tac].
    specialize (Hrepl ltac:(lia)). clear Hok1 Hok2. streaks_tac.
  - intros tx s2 w2 L2 HP Hok2. apply date_now_wp. intros w3 Hw. pose proof (net_waits_le _ _ Hw) as L3.
    assert (net_le w w3) by (by transitivity w2).
    apply (streaks_ok_le _ _ _ _ _ w3) in Hok2; [|done]. cbv zeta. destruct Hok2.
    destruct (_ && _) eqn:Ec; [apply wp_throw; split; [done|]|].
    { left; apply error_never_visible; [apply HP; lia|lia|].
      unfold missingNeverSeenMinDurationMs in Ec. lia. }
    clear Ec. destruct (_ && _) eqn:Ec; [apply wp_throw|apply wp_ret]; (split; [done|]); [|done].
    left; apply error_replaced; [done|lia|]. unfold missingLikelyReplacedMinDurationMs in Ec. lia.
Qed.

Lemma nonce_behind_wp from nonce latest snapshot s w :
  (start <= length (net_requests w))%nat -> latest < nonce -> streaks_ok start from nonce s w ->
  wp (nonce_behind env client cfg from nonce latest snapshot s)
    (fun r w' => net_le w w' /\ streaks_ok start from nonce r.2 w')
    (fun e w' => net_le w w' /\ failure w' e) w.
Proof.
  intros Hs Hl Hok. unfold nonce_behind.
  apply (look_wp from nonce snapshot s _ (fun pendingNonce =>
    match pendingNonce with
    | Some p =>
        if p <=? nonce then with_missing 0 0 (with_gap (txMissingNonceGapStreak s + 1) s)
        else with_missing 0 (txMissingLikelyReplacedStreak s + 1) (with_gap 0 s)
    | None => with_missing 0 0 (with_gap 0 s)
    end) (fun _ => True)); [done..| | | |stuck_tac].
  - intros w' H. streaks_tac.
  - intros o w1 w2 r Hs1 Ha Hr Hok1 Hok2. destruct o as [p|]; [|clear Hok1; streaks_tac].
    destruct (pending_counts from nonce s w1 w2 r p) as (Hgap & Hrepl & _); [done..|].
    destruct (p <=? nonce) eqn:Ep.
    + specialize (Hgap ltac:(lia)). clear Hok1 Hok2. streaks_tac.
    + specialize (Hrepl ltac:(lia)). clear Hok1 Hok2. streaks_tac.
  - intros tx s2 w2 L2 _ Hok2. apply date_now_wp. intros w3 Hw. pose proof (net_waits_le _ _ Hw) as L3.
    assert (net_le w w3) by (by transitivity w2).
    apply (streaks_ok_le _ _ _ _ _ w3) in Hok2; [|done]. cbv zeta. destruct Hok2.
    destruct (_ && _) eqn:Ec; [apply wp_throw; split; [done|]|].
    { left; apply error_gap; [done|lia|]. unfold missingNonceGapMinDurationMs in Ec. lia. }
    clear Ec. destruct (_ && _) eqn:Ec; [apply wp_throw|apply wp_ret]; (split; [done|]); [|done].
    left; apply error_replaced; [lia|lia|]. unfold missingLikelyReplacedMinDurationMs in Ec. lia.
Qed.

Lemma check_nonce_wp from nonce snapshot s w :
  (start <= length (net_requests w))%nat -> streaks_ok start from nonce s w ->
  wp (check_nonce env client cfg from nonce snapshot s) (step_ok from nonce w)
    (fun e w' => net_le w w' /\ failure w' e) w.
Proof.
  intros Hs Hok. unfold check_nonce.
  apply read_nonce_wp; [|stuck_tac]. intros o w1 r A1 Hr.
  pose proof (asked_le _ _ _ A1) as L1.
  pose proof (streaks_ok_le _ _ _ _ _ _ L1 Hok) as Hok1.
  pose proof (net_le_length start _ _ L1 Hs) as Hs1.
  destruct o as [latest|]; [|by apply wp_ret].
  assert (forall e w', net_le w1 w' /\ failure w' e -> net_le w w' /\ failure w' e) as HE.
  { intros e w' [??]. split; [by transitivity w1|done]. }
  destruct (nonce <? latest) eqn:El.
  { eapply wp_mono; [apply nonce_advanced_wp; [done|lia|]| |exact HE].
    - assert (nonce_count start from "latest" (fun n => nonce <? n) w1 =
        nonce_count start from "latest" (fun n => nonce <? n) w + 1) as Hc.
      { destruct A1 as [_ A1]. by eapply nonce_count_added. }
      destruct Hok as [Hadv _ _ _]. destruct Hok1. split; simpl; lia.
    - intros res w' [??]. split; [by transitivity w1|done]. }
  assert (streaks_ok start from nonce (with_advanced 0 s) w1) as Hok2 by (clear Hok; streaks_tac).
  cbv zeta. apply wp_bind.
  assert (forall snapshot' s' w', net_le w w' -> streaks_ok start from nonce s' w' ->
    wp (s'' <- (if txSeenByHash s' then hash_was_seen env client cfg from nonce latest snapshot' s'
                else hash_never_seen env client cfg from nonce latest snapshot' s') ;;
        ret (inl s'')) (step_ok from nonce w) (fun e w' => net_le w w' /\ failure w' e) w') as Hend.
  { intros snapshot' s' w' L' Hok'. apply wp_bind.
    eapply wp_mono; [destruct (txSeenByHash s');
      [apply hash_was_seen_wp|apply hash_never_seen_wp]; eauto; lia|..].
    - intros s'' w'' [??]. apply wp_ret. split; [by transitivity w'|done].
    - intros e w'' [??]. split; [by transitivity w'|done]. }
  destruct (_ && _) eqn:Eb; [|by apply wp_ret, Hend].
  eapply wp_mono; [apply nonce_behind_wp; [done|lia|exact Hok2]| |exact HE].
  intros [snapshot' s'] w' [L' Hok']. apply Hend; [by transitivity w1|done].
Qed.

(** ** The state of the loop *)

Definition state_ok (st : WaitState) (w : Net) : Prop :=
  (start <= length (net_requests w))%nat /\
  match observedTxFrom st, observedTxNonce st with
  | Some from, Some nonce => streaks_ok start from nonce (streaks st) w
  | _, _ => forall from nonce, streaks_ok start from nonce (streaks st) w
  end.

Lemma state_ok_le st w w' : net_le w w' -> state_ok st w -> state_ok st w'.
Proof.
  intros L [Hs H]. split; [eauto|].
  destruct (observedTxFrom st), (observedTxNonce st); eauto using streaks_ok_le.
Qed.

(** Only the counters and what they watch matter. *)
Lemma state_ok_fields st st' w :
  observedTxFrom st' = observedTxFrom st -> observedTxNonce st' = observedTxNonce st ->
  streaks st' = streaks st -> state_ok st w -> state_ok st' w.
Proof. unfold state_ok. by intros -> -> ->. Qed.

Lemma observe_transaction_ok st tx w :
  state_ok st w -> exists st', observe_transaction st tx = Ok st' /\ state_ok st' w.
Proof.
  intros [Hs H]. unfold observe_transaction.
  destruct (toAddressOrNull _) as [txFrom|]; [|by exists st].
  destruct (toHexQuantityOrNull _) as [hex|] eqn:Eh; [|by exists st].
  destruct (quantity_parse _ _ "tx.nonce" Eh) as (n & _ & ->). cbn [result_bind].
  eexists. split; [done|]. split; [done|]. simpl.
  assert (streaks_ok start (default txFrom (observedTxFrom st)) (default n (observedTxNonce st))
            (streaks st) w) as Hok by (by destruct (observedTxFrom st), (observedTxNonce st)).
  clear H. destruct (_ && _); [streaks_tac|done].
Qed.

Lemma throwIfAborted_wp w :
  wp (throwIfAborted (wait_signal (cfg_args cfg)))
    (fun _ w' => w' = w /\
       forall sig, wait_signal (cfg_args cfg) = Some sig -> net_clock w < signal_abortsAt sig)
    (fun e w' => w' = w /\ failure w' e) w.
Proof.
  unfold throwIfAborted, wp. destruct (wait_signal (cfg_args cfg)) as [sig|] eqn:Esig; [|done].
  destruct (signal_abortsAt sig <=? net_clock w) eqn:E.
  - split; [done|]. left; apply error_aborted; [done|lia].
  - split; [done|]. intros ? [= <-]. lia.
Qed.

Lemma sleepWithAbort_wp w :
  wp (sleepWithAbort (cfg_pollIntervalMs cfg) (wait_signal (cfg_args cfg)))
    (fun _ w' => net_le w w' /\
       net_clock w' = net_clock w + setTimeout_delay (Z.max 0 (cfg_pollIntervalMs cfg)))
    (fun e w' => net_le w w' /\ failure w' e) w.
Proof.
  unfold sleepWithAbort. apply wp_bind.
  eapply wp_mono; [apply throwIfAborted_wp| |by intros e w' [-> ?]].
  intros [] w' [-> Hsig]. cbv beta zeta.
  set (delay := setTimeout_delay _). assert (0 <= delay) by apply setTimeout_delay_bounds.
  assert (forall t, net_clock w <= t -> net_le w (mkNet t (net_tick w) (net_requests w))) as HL.
  { intros t Ht. apply net_waits_le. by split. }
  unfold wp. destruct (wait_signal (cfg_args cfg)) as [sig|] eqn:Esig;
    [|split; [apply HL; lia|done]].
  destruct (signal_abortsAt sig <? net_clock w + delay) eqn:E; [|split; [apply HL; lia|done]].
  specialize (Hsig _ eq_refl). split; [apply HL; lia|]. left; apply error_aborted; simpl; [done|lia].
Qed.

Lemma check_fee_wp st w :
  state_ok st w ->
  wp (check_fee env client cfg st) (fun st' w' => net_le w w' /\ state_ok st' w')
    (fun e w' => net_le w w' /\ failure w' e) w.
Proof.
  intros Hok. unfold check_fee.
  destruct (wait_maxFeePerGasHint (cfg_args cfg)) as [hint|] eqn:Eh; [|by apply wp_ret].
  apply read_latest_block_wp; [|stuck_tac]. intros o w1 r A1 Ho. cbv zeta.
  pose proof (asked_le _ _ _ A1) as L1. pose proof (state_ok_le _ _ _ L1 Hok) as Hok1.
  pose proof (asked_since start _ _ _ (proj1 Hok) A1) as Hin.
  destruct (is_hex_quantity _) eqn:Eq; [|by apply wp_ret].
  destruct (quantity_parse (rpc_field baseFeePerGas o) _ "baseFeePerGas"
    ltac:(unfold toHexQuantityOrNull; by rewrite Eq)) as (baseFee & Hq & ->).
  destruct (hint <? baseFee) eqn:Ef; [|apply wp_ret; split; [done|by apply (state_ok_fields st)]].
  destruct o as [h|]; [|done].
  assert (forall t w2, net_le w1 w2 ->
    wp (t' <- date_now env ;;
        if Z.min 30000 (cfg_timeoutMs cfg / 3) <=? t' - t then throw (underpriced_error hint baseFee)
        else ret (mkWaitState (lastRpcError st) (Some t) (observedTxFrom st) (observedTxNonce st)
                    (streaks st)))
      (fun st' w' => net_le w w' /\ state_ok st' w')
      (fun e w' => net_le w w' /\ failure w' e) w2) as Hend.
  { intros t w2 L2. apply date_now_wp. intros w3 L3%net_waits_le.
    assert (net_le w1 w3) as L13 by (by transitivity w2).
    assert (net_le w w3) as L03 by (by transitivity w1).
    destruct (_ <=? _); [apply wp_throw|apply wp_ret]; (split; [done|]).
    - left; apply (error_underpriced _ _ _ _ _ _ hint baseFee r h); [done|lia|exact (since_mono _ _ _ _ L13 Hin)|done|done].
    - apply (state_ok_fields st); [done..|]. eauto using state_ok_le. }
  apply wp_bind. destruct (underpricedSinceMs st) as [t|]; [by apply wp_ret, Hend|].
  unfold wp at 1. apply Hend. apply net_waits_le, date_now_waits.
Qed.

(** What a poll that goes on promises: the counters are sound, and it has slept. *)
Let poll_ok (w : Net) (r : WaitState + EvmTransactionReceipt) (w' : Net) : Prop :=
  net_le w w' /\
  match r with
  | inl st => state_ok st w' /\
      net_clock w + setTimeout_delay (Z.max 0 (cfg_pollIntervalMs cfg)) <= net_clock w'
  | inr receipt => confirmed_receipt start hash (cfg_confirmations cfg) receipt w'
  end.

(** The sleep at the end of a poll. *)
Lemma sleep_poll_wp st w w1 :
  net_le w w1 -> state_ok st w1 ->
  wp (sleepWithAbort (cfg_pollIntervalMs cfg) (wait_signal (cfg_args cfg)) ;; ret (inl st))
    (poll_ok w) (fun e w' => net_le w w' /\ failure w' e) w1.
Proof.
  intros L1 Hok. apply wp_bind. eapply wp_mono; [apply sleepWithAbort_wp|..].
  - intros [] w' [L' Hc]. apply wp_ret. split; [by transitivity w1|]. split; [eauto using state_ok_le|].
    destruct L1. lia.
  - intros e w' [L' ?]. split; [by transitivity w1|done].
Qed.

Lemma poll_missing_wp st w :
  state_ok st w ->
  wp (poll_missing env client cfg st) (poll_ok w) (fun e w' => net_le w w' /\ failure w' e) w.
Proof.
  intros Hok. unfold poll_missing. apply wp_bind.
  assert (forall snapshot st1 w1, net_le w w1 -> state_ok st1 w1 ->
    wp (checked <- match observedTxFrom st1, observedTxNonce st1 with
          | Some from, Some nonce =>
              r <- check_nonce env client cfg from nonce snapshot (streaks st1) ;;
              ret (match r with
                   | inl s => inl (mkWaitState (lastRpcError st1) (underpricedSinceMs st1)
                                     (observedTxFrom st1) (observedTxNonce st1) s)
                   | inr receipt => inr receipt
                   end)
          | _, _ => ret (inl st1)
          end ;;
        match checked with
        | inr receipt => ret (inr receipt)
        | inl st =>
            st <- check_fee env client cfg st ;;
            sleepWithAbort (cfg_pollIntervalMs cfg) (wait_signal (cfg_args cfg)) ;;
            ret (inl st)
        end) (poll_ok w) (fun e w' => net_le w w' /\ failure w' e) w1) as Hrest.
  { intros snapshot st1 w1 L1 Hok1. apply wp_bind.
    assert (forall st2 w2, net_le w1 w2 -> state_ok st2 w2 ->
      wp (st <- check_fee env client cfg st2 ;;
          sleepWithAbort (cfg_pollIntervalMs cfg) (wait_signal (cfg_args cfg)) ;;
          ret (inl st)) (poll_ok w) (fun e w' => net_le w w' /\ failure w' e) w2) as Hend.
    { intros st2 w2 L2 Hok2. apply wp_bind. assert (net_le w w2) by (by transitivity w1).
      eapply wp_mono; [by apply check_fee_wp| |].
      - intros st3 w3 [L3 Hok3]. apply sleep_poll_wp; [by transitivity w2|done].
      - intros e w3 [L3 ?]. split; [by transitivity w2|done]. }
    pose proof Hok1 as [Hs1 H1].
    destruct (observedTxFrom st1) as [from|] eqn:Efrom; [|by apply wp_ret, Hend].
    destruct (observedTxNonce st1) as [nonce|] eqn:Enonce; [|by apply wp_ret, Hend].
    apply wp_bind. eapply wp_mono; [by apply check_nonce_wp|..].
    - intros [s|receipt] w2 [L2 H2]; apply wp_ret.
      + apply Hend; [done|]. split; [eauto|]. done.
      + apply wp_ret. split; [by transitivity w1|done].
    - intros e w2 [L2 ?]. split; [by transitivity w1|done]. }
  destruct (match observedTxFrom st with Some _ => _ | None => _ end); [|by apply wp_ret, Hrest].
  apply read_transaction_wp; [|stuck_tac]. intros tx w1 L1.
  destruct (observe_transaction_ok st tx w1) as (st1 & E2 & Hok1); [eauto using state_ok_le|].
  apply wp_bind. rewrite E2. by apply wp_lift_ok, wp_ret, Hrest.
Qed.

Lemma poll_wp st w :
  state_ok st w ->
  wp (poll env client cfg st) (poll_ok w) (fun e w' => net_le w w' /\ failure w' e) w.
Proof.
  intros Hok. unfold poll. apply wp_bind.
  eapply wp_mono; [apply throwIfAborted_wp| |by intros e w' [-> ?]]. intros [] w' [-> _].
  pose proof (read_receipt_wp env client cfg w) as Hr. apply wp_bind, wp_try_await, wp_bind.
  unfold wp at 1. destruct (read_receipt env client cfg w) as [[o|e] w1];
    destruct Hr as (record & Ha & _ & Ho); pose proof (asked_le _ _ _ Ha) as L1.
  - apply wp_ret. destruct o as [receipt|].
    + eapply confirm_receipt_wp; [destruct Hok; eauto|eapply asked_since; [apply Hok|done]|exact Ho| |stuck_tac].
      intros b w2 L2 Hc. assert (net_le w w2) by (by transitivity w1).
      destruct b; [apply wp_ret; split; auto|]. apply sleep_poll_wp; [done|].
      apply (state_ok_fields st); [done..|]. eauto using state_ok_le.
    + eapply wp_mono; [apply poll_missing_wp|..].
      * apply (state_ok_fields st); [done..|]. eauto using state_ok_le.
      * intros r w2 [L2 H2]. split; [by transitivity w1|]. destruct r; [|done].
        destruct H2. split; [done|]. destruct L1. lia.
      * intros e w2 [L2 ?]. split; [by transitivity w1|done].
  - destruct Ho as [_ Hh]. split; [intros ->; split; [done|by right; auto]|].
    apply wp_ret. eapply wp_mono; [apply poll_missing_wp|..].
    + apply (state_ok_fields st); [done..|]. eauto using state_ok_le.
    + intros r w2 [L2 H2]. split; [by transitivity w1|]. destruct r; [|done].
      destruct H2. split; [done|]. destruct L1. lia.
    + intros e' w2 [L2 ?]. split; [by transitivity w1|done].
Qed.

Context (deadline : startedAt + cfg_timeoutMs cfg <= cfg_deadline cfg).

(** The loop ends before its fuel when every poll sleeps. *)
Lemma wait_loop_wp fuel : forall st w,
  state_ok st w ->
  (1 <= setTimeout_delay (Z.max 0 (cfg_pollIntervalMs cfg)) ->
   (0 < fuel)%nat /\ cfg_deadline cfg - net_clock w < Z.of_nat fuel) ->
  wp (wait_loop env client fuel cfg st)
    (fun receipt w' => confirmed_receipt start hash (cfg_confirmations cfg) receipt w')
    (fun e w' => failure w' e \/
       (e = OutOfFuel /\ setTimeout_delay (Z.max 0 (cfg_pollIntervalMs cfg)) < 1)) w.
Proof.
  induction fuel as [|fuel IH]; intros st w Hok Hf; [apply wp_throw; right; split; [done|lia]|].
  simpl. apply date_now_wp. intros w1 Hw. pose proof (net_waits_le _ _ Hw) as L1.
  destruct Hw as [Hc _]. destruct (net_clock w1 <? cfg_deadline cfg) eqn:Ed.
  - apply wp_bind.
    eapply wp_mono; [apply poll_wp; eauto using state_ok_le| |by intros e w' [_ ?]; left].
    intros [st'|receipt] w2 [L2 H2]; [|by apply wp_ret].
    destruct H2 as [Hok2 Hsleep]. apply IH; [done|]. intros Hz. specialize (Hf Hz). lia.
  - apply wp_bind. eapply wp_mono; [apply throwIfAborted_wp| |by intros e w' [-> ?]; left].
    intros [] w' [-> _]. apply wp_throw. left. left; apply error_timeout. lia.
Qed.
End Steps.

(** ** The wait *)

Lemma waitForTransactionReceipt_wp env client args w :
  let timeoutMs := Z.max 1 (default DEFAULT_WAIT_TIMEOUT_MS (wait_timeoutMs args)) in
  let pollIntervalMs := Z.max 1 (default DEFAULT_POLL_INTERVAL_MS (wait_pollIntervalMs args)) in
  let confirmations := Z.max 1 (default DEFAULT_CONFIRMATIONS (wait_confirmations args)) in
  let start := length (net_requests w) in
  wp (waitForTransactionReceipt env client args)
    (fun receipt w' => confirmed_receipt start (wait_txHash args) confirmations receipt w')
    (fun e w' => wait_error start args (net_clock w) timeoutMs pollIntervalMs w' e \/
       (e = OutOfFuel /\ (hangs env \/ setTimeout_delay pollIntervalMs < 1))) w.
Proof.
  cbv zeta. unfold waitForTransactionReceipt. set (timeoutMs := Z.max 1 _).
  apply date_now_wp. intros w1 [Hc1 Hr1]. apply date_now_wp. intros w2 [Hc2 Hr2].
  set (cfg := mkWaitConfig args _ _ _ _ _).
  eapply wp_mono; [apply (wait_loop_wp env client cfg (length (net_requests w)) (net_clock w))| |].
  - simpl. lia.
  - simpl. lia.
  - split; [by rewrite Hr2, Hr1|]. simpl.
    assert (forall from nonce,
      streaks_ok (length (net_requests w)) from nonce (mkStreaks 0 false 0 0 0) w2) as H.
    { intros. split; simpl; apply nonce_count_nonneg. }
    repeat case_match; auto.
  - intros _. simpl. lia.
  - done.
  - intros e w' [[H|[-> H]]|[-> H]]; [by left|by right; split; [|left]|right]. split; [done|].
    right. simpl in H. by rewrite Z.max_r in H by lia.
Qed.

(** C26. A receipt the wait returns was served, during the wait, for the hash that was
    asked for; and unless a single confirmation is asked for, a latest block was
    served that is at least as many blocks on as the confirmations ask. *)
Theorem wait_receipt_confirmed env client args w receipt w' :
  waitForTransactionReceipt env client args w = (Ok receipt, w') ->
  to_lower (transactionHash receipt) = to_lower (wait_txHash args) /\
  confirmed_receipt (length (net_requests w)) (wait_txHash args)
    (Z.max 1 (default DEFAULT_CONFIRMATIONS (wait_confirmations args))) receipt w'.
Proof.
  intros H. pose proof (waitForTransactionReceipt_wp env client args w) as Hw.
  cbv zeta in Hw. unfold wp in Hw. rewrite H in Hw. split; [|done].
  destruct Hw as [(r & _ & Hr) _]. revert Hr. unfold receipt_answer.
  repeat case_match; intros; simplify_eq. by case_bool_decide.
Qed.


(** ** Runs *)

Definition example_hash : string :=
  "0x1111111111111111111111111111111111111111111111111111111111111111".
Definition example_sender : string := "0x00000000000000000000000000000000000000aa".

Definition example_args (confirmations : option Z) : WaitForEvmTransactionReceiptArgs :=
  mkWaitArgs example_hash (Some 6000) None None None confirmations (Some example_sender) (Some 5).

(** A network on which the transaction is mined in block 16 and the latest block
    is 17. *)
Definition mined_net : NetEnv :=
  example_net (fun method =>
    if bool_decide (method = "eth_getTransactionReceipt") then
      JObject [("transactionHash", JString example_hash); ("blockNumber", JString "0x10");
               ("status", JString "0x1")]
    else if bool_decide (method = "eth_getBlockByNumber") then JObject [("number", JString "0x11")]
    else JNull).

Lemma wait_receipt_confirmed_witness :
  exists receipt w',
    waitForTransactionReceipt mined_net example_client (example_args (Some 2)) (mkNet 0 0 []) =
      (Ok receipt, w') /\
    confirmed_receipt 0 example_hash 2 receipt w'.
Proof.
  eexists _, _. split; [vm_compute; reflexivity|].
  apply (wait_receipt_confirmed mined_net example_client (example_args (Some 2)) (mkNet 0 0 [])).
  vm_compute. reflexivity.
Defined.

(** A network on which the account's nonce is 7 and the transaction is not there. *)
Definition advanced_net : NetEnv :=
  example_net (fun method =>
    if bool_decide (method = "eth_getTransactionCount") then JString "0x7" else JNull).


(** One endpoint, which takes [ms] to answer a request. *)
Definition slow_net (ms : N) (answer : string -> list JsVal -> option JsVal) : NetEnv :=
  mkNetEnv (fun u => Some u)
    (fun _ _ body =>
       match jget "params" body with
       | JArray params =>
           match answer (normalizeOptionalString (jget "method" body)) params with
           | Some v =>
               Resolves ms (mkResponse 200 (Resolves 0
                 (JObject [("jsonrpc", JString "2.0"); ("id", jget "id" body); ("result", v)]))
                 (Resolves 0 tt))
           | None => Resolves ms (mkResponse 503 NeverSettles (Resolves 0 tt))
           end
       | _ => NeverSettles
       end)
    (fun _ => 0%N).

Definition slow_client : EvmClient := mkEvmClient ["https://a"] 15000.

Definition asked_for (method : string) (w : Net) : nat :=
  length (List.filter (fun r => bool_decide (rec_method r = method)) (net_requests w)).

(** The streak of two that stands for a replaced transaction can come from a single
    poll: while the account's nonce is behind the transaction's, both the check for
    a gap and the check for a hash that was never seen raise it. *)
Theorem one_poll_counts_twice :
  exists w',
    waitForTransactionReceipt
      (slow_net 1000 (fun method params =>
         if bool_decide (method = "eth_getTransactionCount") then
           match params with
           | [_; JString "latest"] => Some (JString "0x3")
           | _ => Some (JString "0x9")
           end
         else Some JNull))
      slow_client (example_args None) (mkNet 0 0 []) =
    (Throw (replaced_error "never became visible" 5 3 example_sender), w') /\
    asked_for "eth_getTransactionReceipt" w' = 1%nat.
Proof. eexists. split; vm_compute; reflexivity. Qed.

(** A request that fails counts as a transaction that is not there: with every
    look at the receipt and the transaction failing, the wait reports the
    transaction dropped although the nonce moved on because it was mined, say. *)
Theorem failed_lookups_report_dropped :
  exists w',
    waitForTransactionReceipt
      (slow_net 10 (fun method params =>
         if bool_decide (method = "eth_getTransactionCount") then Some (JString "0x6") else None))
      slow_client (example_args None) (mkNet 0 0 []) =
    (Throw (nonce_advanced_error 5 6 example_sender), w') /\
    forallb (fun r =>
      bool_decide (rec_method r = "eth_getTransactionCount") ||
      match rec_result r with Throw _ => true | Ok _ => false end) (net_requests w') = true.
Proof. eexists. split; vm_compute; reflexivity. Qed.
