(* ===== verification/NonceBackend.v ===== *)
(** * The EVM nonce backend

    [core/rpcClients/evm/nonceBackend.ts]: the snapshot a reservation travels in
    with a signed transaction, the choice of the RPC endpoint a lane is read from,
    and the two reads the coordinator makes through it. *)

From S2P Require Import Prelude ListFacts JsValues ChainTarget NonceTypes NonceLaneKeys NonceCoordinator EvmRpc EvmClient.
Local Open Scope Z_scope.
Local Open Scope js_scope.

Record ManagedNonceReservationSnapshot : Type := mkSnapshot {
  snap_chainTarget : ThresholdEcdsaChainTarget;
  snap_subjectId : string;
  snap_sender : string;
  snap_nonceKey : option string;
  snap_nonce : string;
  snap_leaseId : string;
  snap_operationId : string;
  snap_operationFingerprint : string;
  snap_reservedAtMs : option Z;
  snap_expiresAtMs : option Z;
}.

(** The snapshot as the object that is passed on. *)
Definition snapshot_object (s : ManagedNonceReservationSnapshot) : JsVal :=
  JObject ([("chainTarget", target_object (snap_chainTarget s));
            ("subjectId", JString (snap_subjectId s)); ("sender", JString (snap_sender s));
            ("nonce", JString (snap_nonce s)); ("leaseId", JString (snap_leaseId s));
            ("operationId", JString (snap_operationId s));
            ("operationFingerprint", JString (snap_operationFingerprint s))]
           ++ match snap_nonceKey s with Some k => [("nonceKey", JString k)] | None => [] end
           ++ match snap_reservedAtMs s with
              | Some t => [("reservedAtMs", JNumber (NInt t))] | None => [] end
           ++ match snap_expiresAtMs s with
              | Some t => [("expiresAtMs", JNumber (NInt t))] | None => [] end).

Record EvmNonceBackendFetchInput : Type := mkFetchInput {
  fetch_chain : BoundaryEcdsaChainFamily;
  fetch_networkKey : string;
  fetch_chainId : Z;
  fetch_sender : string;
  fetch_nonceKey : Z;
  fetch_walletId : string;
}.

Record ReserveNonceBoundaryInput : Type := mkBoundaryInput {
  boundary_chain : BoundaryEcdsaChainFamily;
  boundary_networkKey : string;
  boundary_chainId : Z;
  boundary_sender : string;
  boundary_nonceKey : option Z;
  boundary_walletId : string;
}.

Definition DEFAULT_RPC_TIMEOUT_MS : Z := 15000.

(** ** Checked values *)

(** [String(value || '').trim().toLowerCase()] that must match a hexadecimal form. *)
Definition normalizeAddress (value : JsVal) (label : string) : Result string :=
  let normalized := to_lower (stringOrEmptyTrimmed value) in
  if is_0x_hex 40 normalized then Ok normalized
  else Throw (JsError ("[evmNonceBackend] invalid " +:+ label
                         +:+ ": expected 20-byte 0x-prefixed hex")).

Definition normalizeSender (value : JsVal) : Result string := normalizeAddress value "sender".

Definition normalizeTxHash (value : JsVal) : Result string :=
  let normalized := to_lower (stringOrEmptyTrimmed value) in
  if is_0x_hex 64 normalized then Ok normalized
  else Throw (JsError "[evmNonceBackend] invalid txHash: expected 32-byte 0x-prefixed hex").

(** The error thrown for a negative value is caught by the [catch] around it. *)
Definition normalizeBigint (value : JsVal) (label : string) : Result Z :=
  let invalid :=
    JsError ("[evmNonceBackend] invalid " +:+ label +:+ ": expected bigint-compatible value") in
  let parsed :=
    match js_BigInt value with
    | Some z =>
        if z <? 0 then Throw (JsError ("[evmNonceBackend] " +:+ label +:+ " must be non-negative"))
        else Ok z
    | None => Throw (JsError "SyntaxError")
    end in
  match parsed with Ok z => Ok z | Throw _ => Throw invalid end.

Definition normalizeSessionStatusRequiredString (value : JsVal) (label : string) : Result string :=
  let normalized := stringOrEmptyTrimmed value in
  if nonempty normalized then Ok normalized
  else Throw (JsError ("[evmNonceBackend] invalid managed nonce snapshot: " +:+ label)).

Definition normalizeOptionalSafeInteger (value : JsVal) : option Z :=
  if is_nullish value then None else
  match js_floor (js_Number value) with
  | Some z => if is_safe_integer z then Some z else None
  | None => None
  end.

Definition parseRpcHexQuantity (value : JsVal) (method : string) : Result Z :=
  let raw := stringOrEmptyTrimmed value in
  if is_hex_quantity raw
  then of_option (JsError ("Cannot convert " +:+ raw +:+ " to a BigInt")) (BigInt_of_string raw)
  else Throw (JsError ("[evmNonceBackend] invalid " +:+ method +:+ " result: expected hex quantity")).

(** ** Snapshots of a reservation *)

Definition safe_option (o : option Z) : option Z :=
  match o with Some z => if is_safe_integer z then Some z else None | None => None end.

Definition toManagedNonceReservationSnapshot (input : ManagedNonceReservation)
    : Result ManagedNonceReservationSnapshot :=
  let lane := res_input input in
  let* subjectId := toWalletId (JString (rin_subjectId lane)) in
  let* leaseId := normalizeSessionStatusRequiredString (JString (res_leaseId input)) "leaseId" in
  let* operationId :=
    normalizeSessionStatusRequiredString (JString (res_operationId input)) "operationId" in
  let* operationFingerprint :=
    normalizeSessionStatusRequiredString (JString (res_operationFingerprint input))
      "operationFingerprint" in
  let* sender := normalizeSender (JString (rin_sender lane)) in
  let* nonce := normalizeBigint (JBigInt (res_nonce input)) "nonce" in
  let* nonceKey :=
    match rin_nonceKey lane with
    | Some k => let* k := normalizeBigint (JBigInt k) "nonceKey" in Ok (Some (Z_to_string k))
    | None => Ok None
    end in
  Ok (mkSnapshot (rin_chainTarget lane) subjectId sender nonceKey (Z_to_string nonce) leaseId
        operationId operationFingerprint (safe_option (res_reservedAtMs input))
        (safe_option (res_expiresAtMs input))).

Definition parseManagedNonceSnapshotChainTarget (snapshot : JsVal)
    : Result ThresholdEcdsaChainTarget :=
  if truthy (jget "chainTarget" snapshot)
  then thresholdEcdsaChainTargetFromRequest (jget "chainTarget" snapshot)
  else
    let* chain :=
      match jget "chain" snapshot with
      | JString "evm" => Ok BoundaryEvm
      | JString "tempo" => Ok BoundaryTempo
      | _ => Throw (JsError "[evmNonceBackend] invalid managed nonce snapshot: chain")
      end in
    let networkKey := stringOrEmptyTrimmed (jget "networkKey" snapshot) in
    if negb (nonempty networkKey)
    then Throw (JsError "[evmNonceBackend] invalid managed nonce snapshot: networkKey")
    else
      let invalid := JsError "[evmNonceBackend] invalid managed nonce snapshot: chainId" in
      match jget "chainId" snapshot with
      | JNumber n =>
          match safe_integer_value n with
          | Some z =>
              if z <=? 0 then Throw invalid
              else thresholdEcdsaChainTargetFromChainFamily chain (JNumber n) (JString networkKey)
          | None => Throw invalid
          end
      | _ => Throw invalid
      end.

Definition fromManagedNonceReservationSnapshot (snapshot : JsVal) : Result ManagedNonceReservation :=
  if negb (isObject snapshot)
  then Throw (JsError "[evmNonceBackend] invalid managed nonce snapshot: object")
  else
    let* chainTarget := parseManagedNonceSnapshotChainTarget snapshot in
    let* subjectId := toWalletId (coalesce (jget "subjectId" snapshot) (jget "walletId" snapshot)) in
    let* sender := normalizeSender (jget "sender" snapshot) in
    let* nonce := normalizeBigint (jget "nonce" snapshot) "nonce" in
    let* parsedNonceKey :=
      if is_nullish (jget "nonceKey" snapshot) then Ok None
      else let* k := normalizeBigint (jget "nonceKey" snapshot) "nonceKey" in Ok (Some k) in
    let* leaseId := normalizeSessionStatusRequiredString (jget "leaseId" snapshot) "leaseId" in
    let* operationId :=
      normalizeSessionStatusRequiredString (jget "operationId" snapshot) "operationId" in
    let* operationFingerprint :=
      normalizeSessionStatusRequiredString (jget "operationFingerprint" snapshot)
        "operationFingerprint" in
    Ok (mkReservation (mkReserveInput chainTarget subjectId sender parsedNonceKey) nonce leaseId
          operationId operationFingerprint
          (normalizeOptionalSafeInteger (jget "reservedAtMs" snapshot))
          (normalizeOptionalSafeInteger (jget "expiresAtMs" snapshot))).

Definition reserveNonceInputFromBoundary (input : ReserveNonceBoundaryInput)
    : Result ReserveNonceInput :=
  let* chainTarget :=
    thresholdEcdsaChainTargetFromChainFamily (boundary_chain input)
      (JNumber (NInt (boundary_chainId input))) (JString (boundary_networkKey input)) in
  let* subjectId := toWalletId (JString (boundary_walletId input)) in
  let* sender := normalizeSender (JString (boundary_sender input)) in
  let* nonceKey :=
    match boundary_nonceKey input with
    | Some k => let* k := normalizeBigint (JBigInt k) "nonceKey" in Ok (Some k)
    | None => Ok None
    end in
  Ok (mkReserveInput chainTarget subjectId sender nonceKey).

(** ** The endpoint of a lane *)

Definition target_family (t : ThresholdEcdsaChainTarget) : BoundaryEcdsaChainFamily :=
  match t with EvmEip155ChainTarget _ _ => BoundaryEvm | TempoChainTarget _ _ => BoundaryTempo end.

Definition normalizeInput (input : ReserveNonceInput) : Result EvmNonceBackendFetchInput :=
  let chain := target_family (rin_chainTarget input) in
  let networkKey := to_lower (trim (target_networkSlug (rin_chainTarget input))) in
  if negb (nonempty networkKey) then Throw (JsError "[evmNonceBackend] networkKey is required")
  else
    let* sender := normalizeAddress (JString (rin_sender input)) "sender" in
    let* nonceKey :=
      match chain with
      | BoundaryTempo =>
          normalizeBigint (match rin_nonceKey input with Some k => JBigInt k | None => JUndefined end)
            "nonceKey"
      | BoundaryEvm => Ok 0
      end in
    let* walletId := toWalletId (JString (rin_subjectId input)) in
    Ok (mkFetchInput chain networkKey (target_chainId (rin_chainTarget input)) sender nonceKey
          walletId).

Definition isChainWithChainId (chain : SeamsChainConfig) : bool :=
  negb (bool_decide (chainFamilyFromNetwork (network chain) = FamilyNear)).

Definition getOptionalConfigChainId (chain : SeamsChainConfig) : JsVal :=
  if isChainWithChainId chain then configChainId chain else JUndefined.

Definition isSupportedNonceRoutingChain (chain : SeamsChainConfig) : bool :=
  match chainFamilyFromNetwork (network chain) with FamilyEvm | FamilyTempo => true | _ => false end.

(** An EVM transaction may go to a chain configured as a Tempo one, not the other
    way round. *)
Definition isChainCompatibleWithRequestChain (chain : SeamsChainConfig)
    (requestedChain : BoundaryEcdsaChainFamily) : bool :=
  match requestedChain, chainFamilyFromNetwork (network chain) with
  | BoundaryTempo, FamilyTempo => true
  | BoundaryTempo, _ => false
  | BoundaryEvm, (FamilyEvm | FamilyTempo) => true
  | BoundaryEvm, FamilyNear => false
  end.

Definition config_has_chainId (chainId : Z) (chain : SeamsChainConfig) : bool :=
  match getOptionalConfigChainId chain with JNumber (NInt z) => z =? chainId | _ => false end.

Definition family_text (f : SeamsChainFamily) : string :=
  match f with FamilyNear => "near" | FamilyTempo => "tempo" | FamilyEvm => "evm" end.

Definition assertConfiguredChainIdMatchesInput (chain : SeamsChainConfig) (chainId : Z)
    (networkKey : string) : Result unit :=
  match getOptionalConfigChainId chain with
  | JNumber n =>
      if match n with NInt z => z =? chainId | _ => false end then Ok tt
      else Throw (JsError ("[evmNonceBackend] chainId mismatch for network " +:+ networkKey
             +:+ ": expected " +:+ js_String (JNumber n) +:+ ", received " +:+ Z_to_string chainId))
  | _ => Throw (JsError ("[evmNonceBackend] configured network " +:+ network chain
                           +:+ " is missing numeric chainId"))
  end.

Definition assertChainSupportsRequestedRoute (chain : SeamsChainConfig)
    (requestedChain : BoundaryEcdsaChainFamily) (networkKey : string) (chainId : Z) : Result unit :=
  if isChainCompatibleWithRequestChain chain requestedChain then Ok tt
  else Throw (JsError ("[evmNonceBackend] network " +:+ networkKey +:+ " (family="
         +:+ family_text (chainFamilyFromNetwork (network chain)) +:+ ") is incompatible with "
         +:+ family_name requestedChain +:+ " request (chainId=" +:+ Z_to_string chainId +:+ ")")).

Definition mustTrimmedRpcUrl (chain : SeamsChainConfig) : Result string :=
  let trimmed := trim (rpcUrl chain) in
  if nonempty trimmed then Ok trimmed
  else Throw (JsError ("[evmNonceBackend] missing rpcUrl for " +:+ network chain)).

Definition resolveRpcUrlForInput (chains : list SeamsChainConfig) (input : EvmNonceBackendFetchInput)
    : Result string :=
  let requestedChain := fetch_chain input in
  let targetChainId := fetch_chainId input in
  let networkKey := to_lower (trim (fetch_networkKey input)) in
  let byChainId := List.filter (config_has_chainId targetChainId) in
  let byNetworkKey :=
    List.filter (fun chain => bool_decide (to_lower (trim (network chain)) = networkKey)) in
  let compatible :=
    List.filter (fun chain => isChainCompatibleWithRequestChain chain requestedChain) in
  let supportedChains := List.filter isSupportedNonceRoutingChain chains in
  match supportedChains with
  | [] => Throw (JsError "[evmNonceBackend] missing RPC config for nonce-enabled chains")
  | _ =>
      match byNetworkKey supportedChains with
      | [only] =>
          let* _ := assertChainSupportsRequestedRoute only requestedChain (fetch_networkKey input)
                      targetChainId in
          let* _ := assertConfiguredChainIdMatchesInput only targetChainId (fetch_networkKey input) in
          mustTrimmedRpcUrl only
      | (_ :: _ :: _) as networkMatches =>
          match compatible (byChainId networkMatches) with
          | [only] => mustTrimmedRpcUrl only
          | _ => Throw (JsError ("[evmNonceBackend] ambiguous networkKey mapping for "
                   +:+ fetch_networkKey input +:+ " (chainId=" +:+ Z_to_string targetChainId +:+ ")"))
          end
      | [] =>
          let chainIdMatches := byChainId supportedChains in
          match compatible chainIdMatches with
          | [only] => mustTrimmedRpcUrl only
          | (_ :: _ :: _) as compatibleMatches =>
              Throw (JsError ("[evmNonceBackend] ambiguous chainId routing for "
                +:+ family_name requestedChain +:+ " chainId=" +:+ Z_to_string targetChainId
                +:+ " across ["
                +:+ join ", " (map (fun chain => trim (network chain)) compatibleMatches) +:+ "]"))
          | [] =>
              match chainIdMatches with
              | _ :: _ =>
                  let families := unique_strings
                    (map (fun chain => family_text (chainFamilyFromNetwork (network chain)))
                       chainIdMatches) in
                  Throw (JsError ("[evmNonceBackend] chainId=" +:+ Z_to_string targetChainId
                    +:+ " is configured for [" +:+ join ", " families
                    +:+ "] but is incompatible with " +:+ family_name requestedChain +:+ " routing"))
              | [] =>
                  Throw (JsError ("[evmNonceBackend] unable to resolve RPC URL for "
                    +:+ family_name requestedChain +:+ " " +:+ fetch_networkKey input
                    +:+ " (chainId=" +:+ Z_to_string targetChainId +:+ ")"))
              end
          end
      end
  end.

(** ** The reads *)

Section Backend.
Context (env : NetEnv) (chains : list SeamsChainConfig).

Definition fetchEvmRpcResult (rpcUrl method : string) (params : list JsVal) : M Net JsVal :=
  client <- lift (createEvmClient env rpcUrl (Some DEFAULT_RPC_TIMEOUT_MS)) ;;
  request env client method params None.

Definition fetchChainNonceFromRpc (input : EvmNonceBackendFetchInput) : M Net Z :=
  rpcUrl <- lift (resolveRpcUrlForInput chains input) ;;
  client <- lift (createEvmClient env rpcUrl (Some DEFAULT_RPC_TIMEOUT_MS)) ;;
  result <- request env client "eth_getTransactionCount"
              [JString (fetch_sender input); JString "pending"] None ;;
  lift (parseRpcHexQuantity result "eth_getTransactionCount").

Definition fetchBroadcastTransactionStatusFromRpc (input : EvmNonceBackendFetchInput)
    (txHash : string) : M Net EvmBroadcastTransactionStatus :=
  rpcUrl <- lift (resolveRpcUrlForInput chains input) ;;
  receipt <- fetchEvmRpcResult rpcUrl "eth_getTransactionReceipt" [JString txHash] ;;
  if isObject receipt then ret StatusFinalized
  else
    transaction <- fetchEvmRpcResult rpcUrl "eth_getTransactionByHash" [JString txHash] ;;
    ret (if isObject transaction then StatusPending else StatusMissing).

(** The two methods of [createEvmNonceBackend]. *)
Definition fetchChainNonce (input : ReserveNonceInput) : M Net Z :=
  normalized <- lift (normalizeInput input) ;;
  fetchChainNonceFromRpc normalized.

Definition fetchBroadcastTransactionStatus (input : ReserveNonceInput) (txHash : string)
    : M Net EvmBroadcastTransactionStatus :=
  normalized <- lift (normalizeInput input) ;;
  txHash <- lift (normalizeTxHash (JString txHash)) ;;
  fetchBroadcastTransactionStatusFromRpc normalized txHash.
End Backend.

(** ** Routing *)

(** The chains a lane may be read from: those configured under its network name,
    or every supported one when there is none. *)
Definition route_pool (input : EvmNonceBackendFetchInput) (chains : list SeamsChainConfig)
    : list SeamsChainConfig :=
  let supported := List.filter isSupportedNonceRoutingChain chains in
  match List.filter (fun chain =>
          bool_decide (to_lower (trim (network chain)) = to_lower (trim (fetch_networkKey input))))
          supported with
  | [] => supported
  | named => named
  end.

Definition route_fits (input : EvmNonceBackendFetchInput) (chain : SeamsChainConfig) : bool :=
  config_has_chainId (fetch_chainId input) chain &&
  isChainCompatibleWithRequestChain chain (fetch_chain input).

Lemma mustTrimmedRpcUrl_ok chain url :
  mustTrimmedRpcUrl chain = Ok url <-> trim (rpcUrl chain) = url /\ nonempty url = true.
Proof.
  unfold mustTrimmedRpcUrl. destruct (nonempty (trim (rpcUrl chain))) eqn:E; split.
  - intros [= <-]. done.
  - by intros [-> _].
  - done.
  - intros [<- H]. congruence.
Qed.

(** The checks on the only chain of a network are the test every other route uses. *)
Lemma named_route_ok input chain url :
  result_bind (assertChainSupportsRequestedRoute chain (fetch_chain input) (fetch_networkKey input)
                 (fetch_chainId input)) (fun _ =>
  result_bind (assertConfiguredChainIdMatchesInput chain (fetch_chainId input)
                 (fetch_networkKey input)) (fun _ => mustTrimmedRpcUrl chain)) = Ok url <->
  route_fits input chain = true /\ mustTrimmedRpcUrl chain = Ok url.
Proof.
  unfold assertChainSupportsRequestedRoute, assertConfiguredChainIdMatchesInput, route_fits,
    config_has_chainId.
  destruct (isChainCompatibleWithRequestChain chain _); simpl; rewrite ?andb_false_r, ?andb_true_r;
    [|naive_solver].
  destruct (getOptionalConfigChainId chain) as [| | |[z| | |]| | | |]; simpl; try naive_solver.
  destruct (z =? fetch_chainId input); simpl; naive_solver.
Qed.

Lemma resolve_route_iff chains input url :
  resolveRpcUrlForInput chains input = Ok url <->
  exists chain, List.filter (route_fits input) (route_pool input chains) = [chain] /\
    trim (rpcUrl chain) = url /\ nonempty url = true.
Proof.
  unfold resolveRpcUrlForInput, route_pool. cbv zeta.
  destruct (List.filter isSupportedNonceRoutingChain chains) as [|s supported] eqn:Es.
  { simpl. naive_solver. }
  set (all := s :: supported). set (named := List.filter _ all).
  destruct named as [|c [|d rest]].
  - rewrite (filter_filter _ _ (route_fits input)) by (intros x; apply andb_comm).
    destruct (List.filter (route_fits input) all) as [|only [|??]];
      [case_match; naive_solver|rewrite mustTrimmedRpcUrl_ok; naive_solver|naive_solver].
  - rewrite named_route_ok, mustTrimmedRpcUrl_ok. simpl.
    destruct (route_fits input c); naive_solver.
  - rewrite (filter_filter _ _ (route_fits input)) by (intros x; apply andb_comm).
    destruct (List.filter (route_fits input) (c :: d :: rest)) as [|only [|??]];
      [naive_solver|rewrite mustTrimmedRpcUrl_ok; naive_solver|naive_solver].
Qed.

(** A lane is read from the endpoint of the one chain that has its chain id and
    accepts its transactions, among the chains configured under its network name,
    or among all supported chains when no chain has that name; and from no endpoint
    when there is none, when there are several, or when that chain has no URL. *)
Theorem rpc_route_equiv chains input url :
  resolveRpcUrlForInput chains input = Ok url <->
  exists chain, List.filter (route_fits input) (route_pool input chains) = [chain] /\
    trim (rpcUrl chain) = url /\ nonempty url = true.
Proof. apply resolve_route_iff. Qed.

(** ** Snapshots *)

Definition opt_nonneg (o : option Z) : Prop := match o with Some z => 0 <= z | None => True end.
Definition opt_safe (o : option Z) : Prop :=
  match o with Some z => is_safe_integer z = true | None => True end.
Definition plain (s : string) : Prop := trim s = s /\ nonempty s = true.

(** A reservation as the coordinator hands it out. *)
Record reservation_wf (r : ManagedNonceReservation) : Prop := mkReservationWf {
  rw_target : target_wf (rin_chainTarget (res_input r));
  rw_subject : toWalletId (JString (rin_subjectId (res_input r))) = Ok (rin_subjectId (res_input r));
  rw_sender : is_0x_hex 40 (rin_sender (res_input r)) = true;
  rw_nonceKey : opt_nonneg (rin_nonceKey (res_input r));
  rw_nonce : 0 <= res_nonce r;
  rw_lease : plain (res_leaseId r);
  rw_operation : plain (res_operationId r);
  rw_fingerprint : plain (res_operationFingerprint r);
  rw_reserved : opt_safe (res_reservedAtMs r);
  rw_expires : opt_safe (res_expiresAtMs r);
}.

Lemma required_plain s label :
  plain s -> normalizeSessionStatusRequiredString (JString s) label = Ok s.
Proof.
  intros [Ht Hn]. unfold normalizeSessionStatusRequiredString.
  by rewrite stringOrEmptyTrimmed_string, Ht, Hn.
Qed.

Lemma required_inv v label s : normalizeSessionStatusRequiredString v label = Ok s -> plain s.
Proof.
  unfold normalizeSessionStatusRequiredString. destruct (nonempty _) eqn:E; [|done].
  intros [= <-]. split; [apply trim_idem|done].
Qed.

Lemma address_ok s label : is_0x_hex 40 s = true -> normalizeAddress (JString s) label = Ok s.
Proof.
  intros H. pose proof (is_0x_hex_canonical _ _ H) as [Ht Hl]. unfold normalizeAddress.
  by rewrite stringOrEmptyTrimmed_string, Ht, Hl, H.
Qed.

Lemma address_inv v label s : normalizeAddress v label = Ok s -> is_0x_hex 40 s = true.
Proof. unfold normalizeAddress. destruct (is_0x_hex _ _) eqn:E; [|done]. by intros [= <-]. Qed.

Lemma bigint_ok z label : 0 <= z -> normalizeBigint (JBigInt z) label = Ok z.
Proof. intros H. unfold normalizeBigint. simpl. by replace (z <? 0) with false by lia. Qed.

Lemma bigint_inv v label z : normalizeBigint v label = Ok z -> 0 <= z.
Proof.
  unfold normalizeBigint. destruct (js_BigInt v) as [n|]; [|done].
  destruct (n <? 0) eqn:E; [done|]. intros [= <-]. lia.
Qed.

Lemma bigint_text_ok z label : 0 <= z -> normalizeBigint (JString (Z_to_string z)) label = Ok z.
Proof.
  intros H. unfold normalizeBigint. cbn [js_BigInt]. rewrite BigInt_to_string.
  by replace (z <? 0) with false by lia.
Qed.

Lemma optional_time_ok o : opt_safe o ->
  normalizeOptionalSafeInteger (match o with Some t => JNumber (NInt t) | None => JUndefined end) = o.
Proof. destruct o as [t|]; [|done]. simpl. intros H. unfold normalizeOptionalSafeInteger. simpl. by rewrite H. Qed.

Lemma optional_time_inv v : opt_safe (normalizeOptionalSafeInteger v).
Proof.
  unfold normalizeOptionalSafeInteger. destruct (is_nullish v); [done|].
  destruct (js_floor _) as [z|]; [|done]. by destruct (is_safe_integer z) eqn:E.
Qed.

Lemma toWalletId_canonical v s : toWalletId v = Ok s -> toWalletId (JString s) = Ok s.
Proof. intros [??]%toWalletId_inv. by apply toWalletId_ok. Qed.

Lemma snapshot_target_wf v t : parseManagedNonceSnapshotChainTarget v = Ok t -> target_wf t.
Proof.
  unfold parseManagedNonceSnapshotChainTarget.
  destruct (truthy _); [apply chainTargetFromRequest_wf|].
  destruct (match jget "chain" v with JString _ => _ | _ => _ end); [|done]. cbn [result_bind].
  destruct (negb _); [done|]. destruct (jget "chainId" v); try done.
  destruct (safe_integer_value _); [|done]. destruct (_ <=? _); [done|].
  apply chainTargetFromChainFamily_wf.
Qed.

(** A snapshot that is accepted gives a well-formed reservation. *)
Lemma from_snapshot_wf v r : fromManagedNonceReservationSnapshot v = Ok r -> reservation_wf r.
Proof.
  unfold fromManagedNonceReservationSnapshot. destruct (negb _); [done|].
  intros (target & Ht & H)%result_bind_ok. apply result_bind_ok in H as (subject & Hs & H).
  apply result_bind_ok in H as (sender & Ha & H). apply result_bind_ok in H as (nonce & Hn & H).
  apply result_bind_ok in H as (key & Hk & H). apply result_bind_ok in H as (lease & Hl & H).
  apply result_bind_ok in H as (op & Ho & H). apply result_bind_ok in H as (fp & Hf & H).
  injection H as <-. split; simpl; eauto using snapshot_target_wf, toWalletId_canonical, bigint_inv,
    required_inv, optional_time_inv.
  - by apply address_inv in Ha.
  - destruct (is_nullish _); [by injection Hk as <-|].
    apply result_bind_ok in Hk as (k & Hk & [= <-]). by apply bigint_inv in Hk.
Qed.

Lemma to_snapshot_ok r :
  reservation_wf r ->
  toManagedNonceReservationSnapshot r =
  Ok (mkSnapshot (rin_chainTarget (res_input r)) (rin_subjectId (res_input r))
        (rin_sender (res_input r)) (Z_to_string <$> rin_nonceKey (res_input r))
        (Z_to_string (res_nonce r)) (res_leaseId r) (res_operationId r) (res_operationFingerprint r)
        (res_reservedAtMs r) (res_expiresAtMs r)).
Proof.
  intros [Ht Hs Ha Hk Hn Hl Ho Hf Hr He]. unfold toManagedNonceReservationSnapshot, normalizeSender.
  rewrite Hs. cbn [result_bind]. rewrite !required_plain by done. cbn [result_bind].
  rewrite address_ok by done. cbn [result_bind]. rewrite bigint_ok by done. cbn [result_bind].
  assert (forall o, opt_safe o -> safe_option o = o) as Hsafe.
  { intros [z|]; [|done]. simpl. by intros ->. }
  rewrite !Hsafe by done. destruct (rin_nonceKey (res_input r)) as [k|]; [|done].
  by rewrite bigint_ok.
Qed.

(** The fields of a snapshot's object. *)
Lemma snapshot_object_fields s :
  jget "chainTarget" (snapshot_object s) = target_object (snap_chainTarget s) /\
  jget "subjectId" (snapshot_object s) = JString (snap_subjectId s) /\
  jget "sender" (snapshot_object s) = JString (snap_sender s) /\
  jget "nonce" (snapshot_object s) = JString (snap_nonce s) /\
  jget "nonceKey" (snapshot_object s) =
    (match snap_nonceKey s with Some k => JString k | None => JUndefined end) /\
  jget "leaseId" (snapshot_object s) = JString (snap_leaseId s) /\
  jget "operationId" (snapshot_object s) = JString (snap_operationId s) /\
  jget "operationFingerprint" (snapshot_object s) = JString (snap_operationFingerprint s) /\
  jget "reservedAtMs" (snapshot_object s) =
    (match snap_reservedAtMs s with Some t => JNumber (NInt t) | None => JUndefined end) /\
  jget "expiresAtMs" (snapshot_object s) =
    (match snap_expiresAtMs s with Some t => JNumber (NInt t) | None => JUndefined end).
Proof.
  unfold snapshot_object.
  destruct (snap_nonceKey s), (snap_reservedAtMs s), (snap_expiresAtMs s); split_and!; reflexivity.
Qed.

Lemma from_snapshot_object r :
  reservation_wf r ->
  exists snapshot, toManagedNonceReservationSnapshot r = Ok snapshot /\
    fromManagedNonceReservationSnapshot (snapshot_object snapshot) = Ok r.
Proof.
  intros Hwf. rewrite (to_snapshot_ok r Hwf). eexists. split; [done|].
  set (s := mkSnapshot _ _ _ _ _ _ _ _ _ _).
  destruct (snapshot_object_fields s) as (Et & Es & Ea & En & Ek & El & Eo & Ef & Er & Ee).
  destruct Hwf as [Ht Hs Ha Hk Hn Hl Ho Hf Hr He].
  unfold fromManagedNonceReservationSnapshot, parseManagedNonceSnapshotChainTarget, normalizeSender.
  change (isObject (snapshot_object s)) with true. cbn [negb].
  rewrite Et, Es, Ea, En, Ek, El, Eo, Ef, Er, Ee. subst s. simpl in *.
  replace (truthy (target_object (rin_chainTarget (res_input r)))) with true
    by (by destruct (rin_chainTarget (res_input r))).
  rewrite chainTargetFromRequest_object by done. cbn [result_bind].
  change (coalesce (JString ?x) _) with (JString x). rewrite Hs. cbn [result_bind].
  rewrite address_ok by done. cbn [result_bind]. rewrite bigint_text_ok by done. cbn [result_bind].
  rewrite !required_plain, !optional_time_ok by done.
  destruct r as [[target subject sender key] nonce lease op fp reserved expires]. simpl in *.
  destruct key as [k|]; simpl in *; [rewrite bigint_text_ok by done|]; done.
Qed.

(** A reservation survives its trip in a signed transaction's snapshot: the
    snapshot of a well-formed reservation is accepted and reads back as the same
    reservation, and whatever snapshot is accepted gives a well-formed one. *)
Theorem managed_nonce_snapshot_roundtrip r :
  (reservation_wf r ->
   exists snapshot, toManagedNonceReservationSnapshot r = Ok snapshot /\
     fromManagedNonceReservationSnapshot (snapshot_object snapshot) = Ok r) /\
  (forall v, fromManagedNonceReservationSnapshot v = Ok r -> reservation_wf r).
Proof. split; [apply from_snapshot_object|]. intros v. apply from_snapshot_wf. Qed.

(** ** What the reads answer with *)

(** An answer of the client of the endpoint that serves a lane. *)
Definition lane_served (env : NetEnv) (chains : list SeamsChainConfig)
    (input : EvmNonceBackendFetchInput) (method : string) (params : list JsVal) (v : JsVal) : Prop :=
  exists url client, resolveRpcUrlForInput chains input = Ok url /\
    createEvmClient env url (Some DEFAULT_RPC_TIMEOUT_MS) = Ok client /\
    served env (client_rpcUrls client) method params v.

Lemma quantity_nonneg v method n : parseRpcHexQuantity v method = Ok n -> 0 <= n.
Proof.
  unfold parseRpcHexQuantity. destruct (is_hex_quantity _) eqn:E; [|done].
  destruct (hex_quantity_value _ E) as (z & -> & Hz). by intros [= <-].
Qed.

Lemma bind_lift_ok {W A B} (r : Result A) (k : A -> M W B) w b w' :
  bind (lift r) k w = (Ok b, w') -> exists a, r = Ok a /\ k a w = (Ok b, w').
Proof. destruct r; [by eexists|done]. Qed.

Lemma bind_ok {W A B} (m : M W A) (k : A -> M W B) w b w' :
  bind m k w = (Ok b, w') -> exists a w1, m w = (Ok a, w1) /\ k a w1 = (Ok b, w').
Proof. unfold bind. destruct (m w) as [[a|e] w1]; [by eexists _, _|done]. Qed.

Lemma fetchEvmRpcResult_served env chains input url method params w v w' :
  resolveRpcUrlForInput chains input = Ok url ->
  fetchEvmRpcResult env url method params w = (Ok v, w') ->
  lane_served env chains input method params v.
Proof.
  intros Hu (client & Hc & H)%bind_lift_ok. exists url, client. split_and!; [done..|].
  by apply request_served in H.
Qed.

(** The chain nonce a lane is given is the natural number that the lane's own
    endpoint answered for its sender's pending transactions; and a transaction is
    called finalized only when that endpoint served a receipt for it, pending only
    when it served no receipt but the transaction. *)
Theorem backend_reads_spec env chains input w :
  (forall n w', fetchChainNonce env chains input w = (Ok n, w') ->
     0 <= n /\
     exists normalized v, normalizeInput input = Ok normalized /\
       lane_served env chains normalized "eth_getTransactionCount"
         [JString (fetch_sender normalized); JString "pending"] v /\
       parseRpcHexQuantity v "eth_getTransactionCount" = Ok n) /\
  (forall txHash status w', fetchBroadcastTransactionStatus env chains input txHash w = (Ok status, w') ->
     exists normalized hash receipt, normalizeInput input = Ok normalized /\
       normalizeTxHash (JString txHash) = Ok hash /\
       lane_served env chains normalized "eth_getTransactionReceipt" [JString hash] receipt /\
       (status = StatusFinalized <-> isObject receipt = true) /\
       (status <> StatusFinalized ->
        exists tx, lane_served env chains normalized "eth_getTransactionByHash" [JString hash] tx /\
          (status = StatusPending <-> isObject tx = true))).
Proof.
  split.
  - intros n w' (normalized & Hi & H)%bind_lift_ok. apply bind_lift_ok in H as (url & Hu & H).
    apply bind_lift_ok in H as (client & Hc & H). apply bind_ok in H as (v & w1 & Hv & H).
    injection H as Hn _. split; [by eapply quantity_nonneg|].
    exists normalized, v. split_and!; [done| |done]. exists url, client. split_and!; [done..|].
    by eapply request_served.
  - intros txHash status w' (normalized & Hi & H)%bind_lift_ok.
    apply bind_lift_ok in H as (hash & Hh & H). apply bind_lift_ok in H as (url & Hu & H).
    apply bind_ok in H as (receipt & w1 & Hr & H).
    exists normalized, hash, receipt. split_and!; [done..|by eapply fetchEvmRpcResult_served| |].
    + destruct (isObject receipt) eqn:E; [by injection H as <-|].
      apply bind_ok in H as (tx & w2 & Ht & H). injection H as <- _. by destruct (isObject tx).
    + intros Hs. destruct (isObject receipt) eqn:E; [by injection H as <-|].
      apply bind_ok in H as (tx & w2 & Ht & H). injection H as <- _.
      exists tx. split; [by eapply fetchEvmRpcResult_served|]. by destruct (isObject tx).
Qed.

(** The nonce key of a lane is checked and names the lane, but is not part of what
    is read: lanes that differ in it are given the same chain nonce. *)
Theorem nonce_key_not_read env chains input key w :
  let with_key key :=
    mkFetchInput (fetch_chain input) (fetch_networkKey input) (fetch_chainId input)
      (fetch_sender input) key (fetch_walletId input) in
  fetchChainNonceFromRpc env chains (with_key key) w = fetchChainNonceFromRpc env chains input w.
Proof. by destruct input. Qed.

(** A negative value is refused as one that is not bigint-compatible: the message
    that says it must not be negative never leaves the function. *)
Theorem negative_bigint_message z label :
  z < 0 ->
  normalizeBigint (JBigInt z) label =
  Throw (JsError ("[evmNonceBackend] invalid " +:+ label +:+ ": expected bigint-compatible value")).
Proof. intros H. unfold normalizeBigint. simpl. by replace (z <? 0) with true by lia. Qed.

(** ** Examples *)

Definition example_reservation : ManagedNonceReservation :=
  mkReservation
    (mkReserveInput (TempoChainTarget 42431 "tempo-testnet") "wallet-1"
       "0x00000000000000000000000000000000000000aa" (Some 7))
    12 "lease-1" "op-1" "fp-1" (Some 1000) (Some 121000).

Lemma example_reservation_wf : reservation_wf example_reservation.
Proof. split; repeat split; vm_compute; done. Defined.

Lemma managed_nonce_snapshot_roundtrip_witness :
  exists snapshot, toManagedNonceReservationSnapshot example_reservation = Ok snapshot /\
    fromManagedNonceReservationSnapshot (snapshot_object snapshot) = Ok example_reservation.
Proof.
  exact (proj1 (managed_nonce_snapshot_roundtrip example_reservation) example_reservation_wf).
Defined.

Definition example_chains : list SeamsChainConfig :=
  [mkChainConfig "near-testnet" JUndefined "https://n";
   mkChainConfig "tempo-testnet" (JNumber (NInt 42431)) " https://a https://b";
   mkChainConfig "arc-testnet" (JNumber (NInt 5042002)) "https://c"].

(** The example lane is read from the second endpoint of the Tempo chain. *)
Example example_chain_nonce :
  (fetchChainNonce (example_net (fun _ => JString "0xc")) example_chains
     (res_input example_reservation) (mkNet 0 0 [])).1 = Ok 12.
Proof. vm_compute. reflexivity. Qed.
