(* ===== verification/EvmFamilyErrors.v ===== *)
(** * Retryable nonce errors

    [flows/signEvmFamily/errors.ts]: how an error of a reservation, of a broadcast
    or of a signer is recognised as a nonce conflict or a blocked lane, and turned
    into the retryable error the application sees.  An [Error] is the object of
    its fields, [message] among them. *)

From S2P Require Import Prelude JsValues ChainTarget EvmRpc.
Local Open Scope Z_scope.
Local Open Scope js_scope.

Inductive NonceConflictReason : Type :=
| ReasonTooLow | ReasonTooHigh | ReasonAlreadyKnown | ReasonUnderpriced | ReasonConflict.

Definition reason_string (r : NonceConflictReason) : string :=
  match r with
  | ReasonTooLow => "nonce_too_low"
  | ReasonTooHigh => "nonce_too_high"
  | ReasonAlreadyKnown => "already_known"
  | ReasonUnderpriced => "replacement_underpriced"
  | ReasonConflict => "nonce_conflict"
  end.

(** The chain, network and chain id an error is reported for. *)
Record ErrorLane : Type := mkErrorLane {
  el_chain : BoundaryEcdsaChainFamily;
  el_networkKey : string;
  el_chainId : Z;
}.

(** [new Error(message)] with fields assigned to it. *)
Definition error_value (message : string) (fields : list (string * JsVal)) : JsVal :=
  JObject (("message", JString message) :: fields).

Definition createEvmFamilySigningCancelledError : JsVal :=
  error_value "Request cancelled" [("code", JString "cancelled")].

(** [shouldAbort] is what the caller's function answers, [None] without one; the
    result is the error that is thrown. *)
Definition throwIfEvmFamilySigningCancelled (shouldAbort : option bool) : option JsVal :=
  match shouldAbort with
  | Some true => Some createEvmFamilySigningCancelledError
  | _ => None
  end.

(** [.replace(/[\s-]+/g, '_')]. *)
Fixpoint collapse_separators (in_run : bool) (s : string) : string :=
  match s with
  | EmptyString => EmptyString
  | String a t =>
      if is_js_space a || Ascii.eqb a "-"%char then
        if in_run then collapse_separators true t else String "_"%char (collapse_separators true t)
      else String a (collapse_separators false t)
  end.

Definition normalizeToken (value : JsVal) : string :=
  collapse_separators false (to_lower (stringOrEmptyTrimmed value)).

Definition extractErrorCode (error : JsVal) : string :=
  if has_own "code" error then normalizeToken (jget "code" error) else EmptyString.

Definition extractErrorMessage (error : JsVal) : string :=
  if negb (truthy error) then EmptyString
  else match error with
       | JString s => trim s
       | _ => if has_own "message" error then stringOrEmptyTrimmed (jget "message" error)
              else trim (js_String error)
       end.

Definition inferNonceConflictReason (code message : string) : option NonceConflictReason :=
  let haystack := to_lower (code +:+ " " +:+ message) in
  if negb (nonempty (trim haystack)) then None
  else if includes "nonce_too_low" haystack || includes "nonce too low" haystack
  then Some ReasonTooLow
  else if includes "nonce_too_high" haystack || includes "nonce too high" haystack
  then Some ReasonTooHigh
  else if includes "already_known" haystack || includes "already known" haystack
  then Some ReasonAlreadyKnown
  else if includes "replacement_transaction_underpriced" haystack
          || includes "replacement transaction underpriced" haystack
  then Some ReasonUnderpriced
  else if includes "nonce_conflict" haystack
          || (includes "nonce" haystack && includes "conflict" haystack)
          || includes "invalid nonce" haystack || includes "nonce has already been used" haystack
  then Some ReasonConflict
  else None.

Definition chain_label (chain : BoundaryEcdsaChainFamily) : string :=
  match chain with BoundaryTempo => "Tempo" | BoundaryEvm => "EVM" end.

Definition lane_fields (lane : ErrorLane) : list (string * JsVal) :=
  [("chain", JString (family_name (el_chain lane))); ("networkKey", JString (el_networkKey lane));
   ("chainId", JNumber (NInt (el_chainId lane)))].

Definition cause_field (cause : JsVal) : list (string * JsVal) :=
  if is_undefined cause then [] else [("cause", cause)].

Definition createEvmFamilySigningNonceConflictError (lane : ErrorLane) (reason : NonceConflictReason)
    (cause : JsVal) : JsVal :=
  error_value
    ("[SigningEngine] " +:+ chain_label (el_chain lane) +:+ " nonce conflict ("
       +:+ reason_string reason +:+ ") on " +:+ el_networkKey lane
       +:+ ". Refresh nonce context and retry.")
    ([("code", JString "nonce_conflict_retryable"); ("retryable", JBool true);
      ("details", JObject (lane_fields lane ++ [("reason", JString (reason_string reason))]))]
     ++ cause_field cause).

Definition createEvmFamilySigningNonceLaneBlockedError (lane : ErrorLane) (blockedNonce : string)
    (ageMs : option NumVal) (cause : JsVal) : JsVal :=
  error_value
    ("[SigningEngine] " +:+ chain_label (el_chain lane) +:+ " nonce lane blocked on "
       +:+ el_networkKey lane +:+ " (nonce=" +:+ blockedNonce +:+ "). Reconcile lane and retry.")
    ([("code", JString "nonce_lane_blocked"); ("retryable", JBool true);
      ("details", JObject (lane_fields lane ++ [("blockedNonce", JString blockedNonce)]
         ++ match ageMs with Some n => [("ageMs", JNumber n)] | None => [] end))]
     ++ cause_field cause).

Definition mapToRetryableNonceConflictError (error : JsVal) (lane : ErrorLane) : JsVal :=
  if negb (isObject error) then error else
  let existingCode := extractErrorCode error in
  if bool_decide (existingCode = "nonce_conflict_retryable") then error
  else match inferNonceConflictReason existingCode (extractErrorMessage error) with
       | None => error
       | Some reason => createEvmFamilySigningNonceConflictError lane reason error
       end.

Definition finite_number (n : NumVal) : option NumVal :=
  match n with NInt _ | NFraction _ _ => Some n | _ => None end.

Definition mapToRetryableNonceLaneBlockedError (error : JsVal) (lane : ErrorLane) : JsVal :=
  if negb (isObject error) then error else
  if bool_decide (extractErrorCode error = "nonce_lane_blocked") then
    let details := if isObject (jget "details" error) then jget "details" error else JObject [] in
    let blockedNonceRaw := stringOrEmptyTrimmed (jget "blockedNonce" details) in
    createEvmFamilySigningNonceLaneBlockedError lane
      (if nonempty blockedNonceRaw then blockedNonceRaw else "unknown")
      (finite_number (js_Number (jget "ageMs" details))) error
  else
    let message := to_lower (extractErrorMessage error) in
    if includes "nonce lane blocked" message || (includes "nonce" message && includes "blocked" message)
    then createEvmFamilySigningNonceLaneBlockedError lane "unknown" None error
    else error.

Definition mapToRetryableNonceStateError (error : JsVal) (lane : ErrorLane) : JsVal :=
  mapToRetryableNonceLaneBlockedError (mapToRetryableNonceConflictError error lane) lane.

Definition isNonceConflictRetryableError (error : JsVal) : bool :=
  isObject error && bool_decide (extractErrorCode error = "nonce_conflict_retryable").

Definition isNonceLaneBlockedRetryableError (error : JsVal) : bool :=
  isObject error && bool_decide (extractErrorCode error = "nonce_lane_blocked").

(** ** What the mapping promises *)

Definition built_for (lane : ErrorLane) (r : JsVal) : Prop :=
  jget "retryable" r = JBool true /\
  jget "chain" (jget "details" r) = JString (family_name (el_chain lane)) /\
  jget "networkKey" (jget "details" r) = JString (el_networkKey lane) /\
  jget "chainId" (jget "details" r) = JNumber (NInt (el_chainId lane)).

(** The code or the message of the error says that the lane is blocked, and that the
    nonce conflicts or the lane is blocked. *)
Definition speaks_of_block (e : JsVal) : bool :=
  let message := to_lower (extractErrorMessage e) in
  bool_decide (extractErrorCode e = "nonce_lane_blocked")
  || (includes "nonce lane blocked" message || (includes "nonce" message && includes "blocked" message)).

Definition speaks_of_nonce (e : JsVal) : bool :=
  match inferNonceConflictReason (extractErrorCode e) (extractErrorMessage e) with
  | Some _ => true
  | None => speaks_of_block e
  end.

Lemma conflict_error_built lane reason cause :
  built_for lane (createEvmFamilySigningNonceConflictError lane reason cause) /\
  isNonceConflictRetryableError (createEvmFamilySigningNonceConflictError lane reason cause) = true /\
  isNonceLaneBlockedRetryableError (createEvmFamilySigningNonceConflictError lane reason cause) = false.
Proof. repeat split. Qed.

Lemma blocked_error_built lane nonce age cause :
  built_for lane (createEvmFamilySigningNonceLaneBlockedError lane nonce age cause) /\
  isNonceConflictRetryableError (createEvmFamilySigningNonceLaneBlockedError lane nonce age cause)
    = false /\
  isNonceLaneBlockedRetryableError (createEvmFamilySigningNonceLaneBlockedError lane nonce age cause)
    = true.
Proof. repeat split. Qed.

Lemma map_blocked_cases e lane :
  (isObject e && speaks_of_block e = true /\
   exists nonce age cause,
     mapToRetryableNonceLaneBlockedError e lane =
       createEvmFamilySigningNonceLaneBlockedError lane nonce age cause) \/
  (isObject e && speaks_of_block e = false /\ mapToRetryableNonceLaneBlockedError e lane = e).
Proof.
  unfold mapToRetryableNonceLaneBlockedError, speaks_of_block.
  destruct (isObject e); simpl; [|by right].
  case_bool_decide; simpl; [left; eauto|]. destruct (_ || _); [left; eauto|by right].
Qed.

Lemma not_blocked e : isObject e && speaks_of_block e = false -> isNonceLaneBlockedRetryableError e = false.
Proof.
  unfold isNonceLaneBlockedRetryableError, speaks_of_block. destruct (isObject e); simpl; [|done].
  by intros [-> _]%orb_false_iff.
Qed.

Lemma map_conflict_cases e lane :
  (exists reason, isObject e = true /\
     inferNonceConflictReason (extractErrorCode e) (extractErrorMessage e) = Some reason /\
     mapToRetryableNonceConflictError e lane =
       createEvmFamilySigningNonceConflictError lane reason e) \/
  (mapToRetryableNonceConflictError e lane = e /\
   (isObject e = true -> isNonceConflictRetryableError e = true \/
      inferNonceConflictReason (extractErrorCode e) (extractErrorMessage e) = None)).
Proof.
  unfold mapToRetryableNonceConflictError, isNonceConflictRetryableError.
  destruct (isObject e); simpl; [|by right]. case_bool_decide; [right; auto|].
  destruct (inferNonceConflictReason _ _) as [reason|]; [left; eauto|right; auto].
Qed.

(** A blocked lane is always reported as the caller's. *)
Lemma mapped_block_built e lane :
  isNonceLaneBlockedRetryableError (mapToRetryableNonceStateError e lane) = true ->
  built_for lane (mapToRetryableNonceStateError e lane).
Proof.
  unfold mapToRetryableNonceStateError.
  destruct (map_blocked_cases (mapToRetryableNonceConflictError e lane) lane)
    as [(_ & nonce & age & cause & ->)|[Hn ->]].
  - intros _. apply blocked_error_built.
  - by rewrite (not_blocked _ Hn).
Qed.

(** A value that is not an object is passed on as it is, and so is an error that
    speaks neither of a nonce conflict nor of a blocked lane; any other error comes
    out as one of the two retryable errors.  A blocked lane is always reported with
    the caller's chain, network and chain id, and so is a conflict, unless it came
    in as a retryable conflict already. *)
Theorem retryable_nonce_error_spec e lane :
  let r := mapToRetryableNonceStateError e lane in
  (isObject e = false -> r = e) /\
  (isObject e = true ->
     isNonceConflictRetryableError r || isNonceLaneBlockedRetryableError r =
     isNonceConflictRetryableError e || speaks_of_nonce e) /\
  (isNonceConflictRetryableError r || isNonceLaneBlockedRetryableError r = false -> r = e) /\
  (isNonceLaneBlockedRetryableError r = true -> built_for lane r) /\
  (isNonceConflictRetryableError r = true -> r = e \/ built_for lane r).
Proof.
  cbv zeta. unfold mapToRetryableNonceStateError.
  destruct (map_conflict_cases e lane) as [(reason & Ho & Hr & ->)|[-> Hr]].
  - destruct (conflict_error_built lane reason e) as (Hb & Hc & Hl).
    assert (speaks_of_nonce e = true) as Hs by (unfold speaks_of_nonce; by rewrite Hr).
    destruct (map_blocked_cases (createEvmFamilySigningNonceConflictError lane reason e) lane)
      as [(_ & nonce & age & cause & ->)|[_ ->]].
    + destruct (blocked_error_built lane nonce age cause) as (Hb' & Hc' & Hl').
      rewrite Hc', Hl', Hs, !orb_true_r. split_and!; [congruence|done..].
    + rewrite Hc, Hl, Hs, !orb_true_r. split_and!; [congruence|done|done|done|by right].
  - destruct (map_blocked_cases e lane) as [(Hb & nonce & age & cause & ->)|[Hb ->]].
    + apply andb_prop in Hb as [Ho Hb].
      destruct (blocked_error_built lane nonce age cause) as (Hb' & Hc' & Hl').
      rewrite Hc', Hl'. split_and!; [congruence| |done..]. intros _. symmetry. apply orb_true_iff.
      destruct (Hr Ho) as [->|Hi]; [by left|right]. unfold speaks_of_nonce. by rewrite Hi.
    + pose proof (not_blocked _ Hb) as Hn. split_and!; [done| |done|congruence|by left].
      intros Ho. rewrite Hn, orb_false_r. destruct (Hr Ho) as [->|Hi]; [done|].
      unfold speaks_of_nonce. rewrite Hi. rewrite Ho in Hb. simpl in Hb. by rewrite Hb, orb_false_r.
Qed.
