(* ===== verification/NonceResolution.v ===== *)
(** * The network of a nonce lane

    [flows/signEvmFamily/nonceResolution.ts]: which configured network a signing
    request's nonce is managed on, and by which sender.  The network it picks is
    one that the backend can read. *)

From S2P Require Import Prelude ListFacts JsValues ChainTarget NonceTypes NonceLaneKeys EvmClient NonceBackend.
Local Open Scope Z_scope.
Local Open Scope js_scope.

(** What the nonce lifecycle reads and writes of a signing request; [request_rest]
    is the rest of it. *)
Record SigningRequest : Type := mkRequest {
  request_chain : BoundaryEcdsaChainFamily;
  tx_chainId : Z;
  tx_nonceKey : option Z;
  tx_nonce : option Z;
  request_rest : JsVal;
}.

Definition readOptionalChainId (chain : SeamsChainConfig) : option NumVal :=
  match configChainId chain with JNumber n => Some n | _ => None end.

Definition isEvmFamilyNetwork (chain : SeamsChainConfig) : bool :=
  bool_decide (chainFamilyFromNetwork (network chain) = FamilyEvm).

Definition isTempoFamilyNetwork (chain : SeamsChainConfig) : bool :=
  bool_decide (chainFamilyFromNetwork (network chain) = FamilyTempo).

Definition has_chainId (chainId : Z) (chain : SeamsChainConfig) : bool :=
  match readOptionalChainId chain with Some (NInt z) => z =? chainId | _ => false end.

Definition ambiguous_network (what : string) (chainId : Z) (matches : list SeamsChainConfig) : Exn :=
  JsError ("[SigningEngine] ambiguous nonce network for " +:+ what +:+ " chainId="
    +:+ Z_to_string chainId +:+ " across [" +:+ join ", " (map network matches) +:+ "]").

(** The network of the only match; [None] without one, an error with several. *)
Definition only_network (what : string) (chainId : Z) (matches : list SeamsChainConfig)
    : Result (option string) :=
  match matches with
  | [only] => Ok (Some (network only))
  | [] => Ok None
  | _ => Throw (ambiguous_network what chainId matches)
  end.

Definition tryResolveNonceNetworkKey (chains : list SeamsChainConfig) (request : SigningRequest)
    : Result (option string) :=
  let chainId := tx_chainId request in
  let matchesByChainId := List.filter (has_chainId chainId) chains in
  match matchesByChainId with
  | [] => Ok None
  | _ =>
      match request_chain request with
      | BoundaryTempo =>
          only_network "tempo" chainId (List.filter isTempoFamilyNetwork matchesByChainId)
      | BoundaryEvm =>
          let* evm := only_network "evm" chainId (List.filter isEvmFamilyNetwork matchesByChainId) in
          match evm with
          | Some network => Ok (Some network)
          | None =>
              only_network "evm->tempo" chainId (List.filter isTempoFamilyNetwork matchesByChainId)
          end
      end
  end.

Definition resolveNonceNetworkKey (chains : list SeamsChainConfig) (request : SigningRequest)
    : Result string :=
  let* resolved := tryResolveNonceNetworkKey chains request in
  match resolved with
  | Some network => if nonempty network then Ok network else
      Throw (JsError ("[SigningEngine] unable to resolve nonce network for "
        +:+ family_name (request_chain request) +:+ " chainId=" +:+ Z_to_string (tx_chainId request)
        +:+ " from configured chains"))
  | None =>
      Throw (JsError ("[SigningEngine] unable to resolve nonce network for "
        +:+ family_name (request_chain request) +:+ " chainId=" +:+ Z_to_string (tx_chainId request)
        +:+ " from configured chains"))
  end.

Definition resolveNonceNetworkKeyForError (chains : list SeamsChainConfig) (request : SigningRequest)
    : Result string :=
  let* resolved := tryResolveNonceNetworkKey chains request in
  let fallback := family_name (request_chain request) +:+ ":" +:+ Z_to_string (tx_chainId request) in
  Ok match resolved with
     | Some network => if nonempty network then network else fallback
     | None => fallback
     end.

Inductive EvmFamilyManagedNonceSenderIdentity : Type :=
| ThresholdOwner (thresholdOwnerAddress : string)
| ChainAccount (chainAccountAddress : string).

Definition senderAddressFromIdentity (senderIdentity : EvmFamilyManagedNonceSenderIdentity) : string :=
  match senderIdentity with
  | ThresholdOwner thresholdOwnerAddress => thresholdOwnerAddress
  | ChainAccount chainAccountAddress => chainAccountAddress
  end.

(** ** The network is one the backend reads *)

(** The chain the request's network stands for. *)
Definition resolved_chain (chains : list SeamsChainConfig) (request : SigningRequest)
    (c : SeamsChainConfig) : Prop :=
  c ∈ chains /\ has_chainId (tx_chainId request) c = true /\
  match request_chain request with
  | BoundaryTempo => List.filter isTempoFamilyNetwork
      (List.filter (has_chainId (tx_chainId request)) chains) = [c]
  | BoundaryEvm =>
      List.filter isEvmFamilyNetwork (List.filter (has_chainId (tx_chainId request)) chains) = [c] \/
      List.filter isTempoFamilyNetwork (List.filter (has_chainId (tx_chainId request)) chains) = [c]
  end.

Lemma filter_elem {A} (f : A -> bool) (l : list A) x : x ∈ List.filter f l <-> x ∈ l /\ f x = true.
Proof. by rewrite list_elem_of_In, filter_In, <- list_elem_of_In. Qed.

Lemma only_network_some what chainId matches n :
  only_network what chainId matches = Ok (Some n) -> exists c, matches = [c] /\ network c = n.
Proof. destruct matches as [|c [|d l]]; [done| |done]. intros [= <-]. by exists c. Qed.

Lemma tryResolve_some chains request n :
  tryResolveNonceNetworkKey chains request = Ok (Some n) ->
  exists c, resolved_chain chains request c /\ network c = n.
Proof.
  unfold tryResolveNonceNetworkKey, resolved_chain. cbv zeta.
  assert (forall f (c : SeamsChainConfig),
    List.filter f (List.filter (has_chainId (tx_chainId request)) chains) = [c] ->
    c ∈ chains /\ has_chainId (tx_chainId request) c = true) as Hin.
  { intros f c Hf. assert (c ∈ [c]) as Hc by set_solver. rewrite <- Hf in Hc.
    by apply filter_elem in Hc as [[??]%filter_elem _]. }
  destruct (List.filter (has_chainId (tx_chainId request)) chains) as [|m ms] eqn:Em; [done|].
  destruct (request_chain request).
  - destruct (only_network "evm" _ _) as [[n'|]|] eqn:E; [|..|done]; simpl.
    + intros [= ->]. apply only_network_some in E as (c & Hc & Hn).
      exists c. split; [|done]. destruct (Hin _ _ Hc). auto.
    + intros (c & Hc & Hn)%only_network_some. exists c. split; [|done]. destruct (Hin _ _ Hc). auto.
  - intros (c & Hc & Hn)%only_network_some. exists c. split; [|done]. destruct (Hin _ _ Hc). auto.
Qed.

(** The names of the code's networks are trimmed and in lower case. *)
Lemma known_network_canonical n : isSeamsChainNetwork n = true -> to_lower (trim n) = n.
Proof.
  unfold isSeamsChainNetwork, shas. intros H%bool_decide_eq_true.
  repeat (apply elem_of_cons in H as [->|H]; [reflexivity|]). by apply elem_of_nil in H.
Qed.

(** A chain of the resolved network passes the tests of the backend's route. *)
Lemma route_test family id n (fits : SeamsChainConfig -> bool) (input : EvmNonceBackendFetchInput) x c :
  isSeamsChainNetwork (network x) = true -> isSeamsChainNetwork (network c) = true ->
  network c = n -> fetch_networkKey input = n -> fetch_chainId input = id ->
  chainFamilyFromNetwork (network c) = family ->
  (forall y, fits y = bool_decide (chainFamilyFromNetwork (network y) = family)) ->
  match fetch_chain input with BoundaryTempo => family = FamilyTempo | BoundaryEvm => family <> FamilyNear end ->
  isSupportedNonceRoutingChain x
    && bool_decide (to_lower (trim (network x)) = to_lower (trim (fetch_networkKey input)))
    && route_fits input x =
  has_chainId id x && fits x && bool_decide (network x = n).
Proof.
  intros Hx Hc <- Hk <- Hf Hfits Hcompat. rewrite Hk, Hfits.
  rewrite !known_network_canonical by done.
  destruct (decide (network x = network c)) as [E|E]; [|by rewrite !bool_decide_false, !andb_false_r by done].
  rewrite !bool_decide_true, !andb_true_r by congruence.
  unfold isSupportedNonceRoutingChain, route_fits, config_has_chainId, isChainCompatibleWithRequestChain,
    getOptionalConfigChainId, isChainWithChainId, has_chainId, readOptionalChainId.
  rewrite E, Hf. destruct (fetch_chain input), family; try done; simpl;
    rewrite ?andb_true_r; by destruct (configChainId x).
Qed.

Lemma resolved_route chains input c (fits : SeamsChainConfig -> bool) family :
  (forall x, x ∈ chains -> isSeamsChainNetwork (network x) = true) ->
  fetch_networkKey input = network c ->
  List.filter fits (List.filter (has_chainId (fetch_chainId input)) chains) = [c] ->
  (forall y, fits y = bool_decide (chainFamilyFromNetwork (network y) = family)) ->
  match fetch_chain input with BoundaryTempo => family = FamilyTempo | BoundaryEvm => family <> FamilyNear end ->
  List.filter (route_fits input) (route_pool input chains) = [c].
Proof.
  intros Hknown Hkey Hone Hfits Hcompat.
  assert (c ∈ chains /\ has_chainId (fetch_chainId input) c = true /\ fits c = true) as (Hc & Hid & Hf).
  { assert (c ∈ [c]) as H by set_solver. rewrite <- Hone in H.
    by apply filter_elem in H as [[??]%filter_elem ?]. }
  pose proof Hf as Hfam. rewrite Hfits in Hfam. apply bool_decide_eq_true in Hfam.
  assert (List.filter (route_fits input)
    (List.filter (fun chain =>
       bool_decide (to_lower (trim (network chain)) = to_lower (trim (fetch_networkKey input))))
       (List.filter isSupportedNonceRoutingChain chains)) = [c]) as Hnamed.
  { rewrite !filter_both in *. rewrite (filter_ext_in _ (fun x =>
      has_chainId (fetch_chainId input) x && fits x && bool_decide (network x = network c))).
    - rewrite <- filter_both, Hone. simpl. by rewrite bool_decide_true.
    - intros x Hx. rewrite andb_assoc. by eapply (route_test family _ _ fits input x c); auto. }
  unfold route_pool. set (named := List.filter _ (List.filter isSupportedNonceRoutingChain chains)) in *.
  by destruct named.
Qed.

(** The network a signing request's nonce is managed on is one the backend can
    read: when the configuration names known networks, the lane of the request is
    read from the URL of the very chain the network was resolved to. *)
Theorem nonce_network_is_routed chains request n input url :
  (forall x, x ∈ chains -> isSeamsChainNetwork (network x) = true) ->
  tryResolveNonceNetworkKey chains request = Ok (Some n) ->
  fetch_chain input = request_chain request -> fetch_networkKey input = n ->
  fetch_chainId input = tx_chainId request ->
  exists c, resolved_chain chains request c /\ network c = n /\
    (resolveRpcUrlForInput chains input = Ok url <-> mustTrimmedRpcUrl c = Ok url).
Proof.
  intros Hknown (c & Hc & Hn)%tryResolve_some Hchain Hkey Hid.
  exists c. split_and!; [done..|]. rewrite resolve_route_iff, mustTrimmedRpcUrl_ok.
  assert (List.filter (route_fits input) (route_pool input chains) = [c]) as Hr.
  { destruct Hc as (_ & _ & Hf). rewrite <- Hid in Hf. destruct (request_chain request) eqn:Er.
    - destruct Hf as [Hf|Hf].
      + apply (resolved_route chains input c isEvmFamilyNetwork FamilyEvm); auto; [congruence|].
        by rewrite Hchain.
      + apply (resolved_route chains input c isTempoFamilyNetwork FamilyTempo); auto; [congruence|].
        by rewrite Hchain.
    - apply (resolved_route chains input c isTempoFamilyNetwork FamilyTempo); auto; [congruence|].
      by rewrite Hchain. }
  rewrite Hr. split; [by intros (d & [= <-] & ?)|]. intros ?. by exists c.
Qed.

(** An EVM transaction on a Tempo chain. *)
Lemma nonce_network_is_routed_witness :
  exists c, network c = "tempo-testnet" /\
    resolveRpcUrlForInput example_chains
      (mkFetchInput BoundaryEvm "tempo-testnet" 42431 "0xaa" 0 "wallet-1") = Ok "https://a https://b" /\
    mustTrimmedRpcUrl c = Ok "https://a https://b".
Proof.
  destruct (nonce_network_is_routed example_chains (mkRequest BoundaryEvm 42431 None None JNull)
    "tempo-testnet" (mkFetchInput BoundaryEvm "tempo-testnet" 42431 "0xaa" 0 "wallet-1")
    "https://a https://b") as (c & _ & Hn & Hr).
  - intros x Hx. repeat (apply elem_of_cons in Hx as [->|Hx]; [reflexivity|]). by apply elem_of_nil in Hx.
  - vm_compute. reflexivity.
  - reflexivity.
  - reflexivity.
  - reflexivity.
  - exists c. split; [exact Hn|]. split; [vm_compute; reflexivity|]. apply Hr. vm_compute. reflexivity.
Defined.
