(* ===== verification/NonceLifecycle.v ===== *)
(** * The nonce lifecycle of an EVM-family transaction

    [flows/signEvmFamily/evmNonceLifecycle.ts], [tempoNonceLifecycle.ts] and
    [nonceLifecycleAdapter.ts]: the client of the coordinator that reserves a nonce
    for a signing request, and later reports what became of the signed transaction
    from the snapshot the transaction carries. *)

From S2P Require Import Prelude JsValues ChainTarget NonceTypes LeaseStateMachine NonceLaneKeys NonceRecords NonceStore EvmNonceLane NearNonceLane NonceDiagnostics NonceCoordinator CoordinatorFrame CoordinatorInvariants CoordinatorReserve CoordinatorReachable CoordinatorLeaseOps EvmRpc EvmClient NonceBackend NonceResolution EvmFamilyErrors.
Local Open Scope Z_scope.
Local Open Scope js_scope.

(** What is thrown: an [Error], the object of its fields, or another value. *)
Inductive Thrown : Type :=
| ThrownError (error : JsVal)
| ThrownValue (value : JsVal).

Definition thrown_value (t : Thrown) : JsVal :=
  match t with ThrownError v | ThrownValue v => v end.

(** [error instanceof Error ? error.message : String(error || '')]. *)
Definition rejection_reason (t : Thrown) : string :=
  match t with
  | ThrownError e => normalizeOptionalString (jget "message" e)
  | ThrownValue v => if truthy v then js_String v else EmptyString
  end.

(** An error of the coordinator as the object of its fields; the [chain] of a blocked
    lane, which nothing reads, is left out. *)
Definition exn_value (e : Exn) : JsVal :=
  match e with
  | JsCodedError code m => error_value m [("code", JString code)]
  | NonceLaneBlocked networkKey chainId nonce age =>
      error_value (errorMessage e)
        [("code", JString "nonce_lane_blocked"); ("retryable", JBool true);
         ("details", JObject [("networkKey", JString networkKey); ("chainId", JNumber (NInt chainId));
            ("blockedNonce", JString (Z_to_string nonce)); ("ageMs", JNumber (NInt age))])]
  | _ => error_value (errorMessage e) []
  end.

(** [EvmSignedResult] or [TempoSignedResult]: what the lifecycle reads of it. *)
Record SignedResult : Type := mkSigned {
  signed_chain : BoundaryEcdsaChainFamily;
  signed_txHashHex : string;
  signed_managedNonce : JsVal;
}.

Inductive SigningEventPhase : Type :=
| STEP_12_BROADCAST_ACCEPTED
| STEP_12_BROADCAST_REJECTED
| STEP_13_NONCE_RECONCILE_STARTED
| STEP_13_NONCE_RECONCILE_SUCCEEDED
| STEP_13_TRANSACTION_DROPPED
| STEP_13_TRANSACTION_REPLACED.

Record EvmFamilyLifecycleEvent : Type := mkLifecycleEvent {
  event_walletId : string;
  event_phase : SigningEventPhase;
  event_status : string;
  event_message : string;
  event_data : list (string * JsVal);
}.

(** The coordinator's world and the events the callback was given. *)
Record Flow (S : Type) : Type := mkFlow {
  flow_world : World S;
  flow_events : list EvmFamilyLifecycleEvent;
}.
Arguments mkFlow {S}.
Arguments flow_world {S}.
Arguments flow_events {S}.

(** The arguments every report has; [report_onEvent] says whether there is a callback. *)
Record ReportArgs : Type := mkReport {
  report_walletId : string;
  report_signedResult : SignedResult;
  report_onEvent : bool;
}.

Record EvmFamilyNonceLaneStatus : Type := mkFormatted {
  formatted_chainNextNonce : string;
  formatted_unresolved : list string;
  formatted_blocked : bool;
  formatted_blockedNonce : option string;
}.

Definition formatNonceLaneStatus (status : NonceLaneStatus) : EvmFamilyNonceLaneStatus :=
  mkFormatted (Z_to_string (st_chainNextNonce status))
    (map Z_to_string (st_unresolvedInFlightNonces status)) (st_blocked status)
    (Z_to_string <$> st_blockedNonce status).

Definition formatted_value (s : EvmFamilyNonceLaneStatus) : JsVal :=
  JObject ([("chainNextNonce", JString (formatted_chainNextNonce s));
            ("unresolvedInFlightNonces", JArray (map JString (formatted_unresolved s)));
            ("blocked", JBool (formatted_blocked s))]
           ++ match formatted_blockedNonce s with
              | Some n => [("blockedNonce", JString n)] | None => [] end).

Definition toEvmFamilyManagedNonceReservationFromSignedResult (signedResult : SignedResult)
    : Result ManagedNonceReservation :=
  if negb (isObject (signed_managedNonce signedResult))
  then Throw (JsError "[SigningEngine][evm-family] managedNonce is required for nonce lifecycle")
  else match fromManagedNonceReservationSnapshot (signed_managedNonce signedResult) with
       | Ok parsed => Ok parsed
       | Throw e =>
           Throw (JsError ("[SigningEngine][evm-family] invalid managedNonce: " +:+ errorMessage e))
       end.

Definition requireManagedNonceLeaseRef (reservation : ManagedNonceReservation)
    : Result NonceLeaseOperationInput :=
  let leaseId := trim (res_leaseId reservation) in
  let operationId := trim (res_operationId reservation) in
  let operationFingerprint := trim (res_operationFingerprint reservation) in
  if nonempty leaseId && nonempty operationId && nonempty operationFingerprint
  then Ok (mkLeaseOp leaseId operationId operationFingerprint)
  else Throw (JsError "[SigningEngine][evm-family] managedNonce lease metadata is required").

Definition requireEvmFamilyBroadcastTxHash (value : string) : Result string :=
  let normalized := to_lower (trim value) in
  if is_0x_hex 64 normalized then Ok normalized
  else Throw (JsError "[SigningEngine][evm-family] broadcast acceptance requires txHash").

(** [args.txHash || (signedResult.chain === 'evm' ? signedResult.txHashHex : undefined)];
    an absent hash is the empty text. *)
Definition broadcast_hash (txHash : string) (signedResult : SignedResult) : string :=
  if nonempty txHash then txHash
  else match signed_chain signedResult with
       | BoundaryEvm => signed_txHashHex signedResult
       | BoundaryTempo => EmptyString
       end.

Definition reservation_target (r : ManagedNonceReservation) : ThresholdEcdsaChainTarget :=
  rin_chainTarget (res_input r).

Definition reservation_lane (r : ManagedNonceReservation) : ErrorLane :=
  mkErrorLane (target_family (reservation_target r)) (target_networkSlug (reservation_target r))
    (target_chainId (reservation_target r)).

(** The data of an event about a lane, and about a nonce of it. *)
Definition lane_data (r : ManagedNonceReservation) : list (string * JsVal) :=
  [("chain", JString (target_kind (reservation_target r)));
   ("networkKey", JString (target_networkSlug (reservation_target r)));
   ("chainId", JString (Z_to_string (target_chainId (reservation_target r))))].

Definition nonce_data (r : ManagedNonceReservation) : list (string * JsVal) :=
  lane_data r ++ [("nonce", JString (Z_to_string (res_nonce r)))].

Definition hash_data (txHash : string) : list (string * JsVal) :=
  if nonempty txHash then [("txHash", JString txHash)] else [].

Section Lifecycle.
Context {S : Type} `{!CoordinationStore S} (deps : Deps).

Definition L (A : Type) : Type := M (Flow S) A.

(** A call of the coordinator. *)
Definition coordinator {A} (m : C A) : L A :=
  fun f => let '(r, w) := m (flow_world f) in (r, mkFlow w (flow_events f)).

(** [emitEvmFamilyBroadcastEvent]: what the callback throws is swallowed. *)
Definition emitEvent (args : ReportArgs) (phase : SigningEventPhase) (status message : string)
    (data : list (string * JsVal)) : L unit :=
  modify (fun f =>
    if report_onEvent args then
      mkFlow (flow_world f)
        (flow_events f ++ [mkLifecycleEvent (report_walletId args) phase status message data])
    else f).

Definition report_reservation (args : ReportArgs) : L ManagedNonceReservation :=
  lift (toEvmFamilyManagedNonceReservationFromSignedResult (report_signedResult args)).

Definition releaseEvmFamilyNonceReservation (reservation : ManagedNonceReservation) : L unit :=
  leaseRef <- lift (requireManagedNonceLeaseRef reservation) ;;
  coordinator (release deps leaseRef SigningFailed).

Definition reportEvmFamilyBroadcastAccepted (args : ReportArgs) (txHash : string) : L unit :=
  reservation <- report_reservation args ;;
  emitEvent args STEP_12_BROADCAST_ACCEPTED "running" "Marking managed nonce lane as in-flight"
    (nonce_data reservation) ;;
  hash <- lift (requireEvmFamilyBroadcastTxHash (broadcast_hash txHash (report_signedResult args))) ;;
  leaseRef <- lift (requireManagedNonceLeaseRef reservation) ;;
  coordinator (markBroadcastAccepted deps leaseRef hash) ;;
  emitEvent args STEP_12_BROADCAST_ACCEPTED "succeeded" "Managed nonce lane marked in-flight"
    (nonce_data reservation ++ [("txHash", JString hash)]).

(** The value is the error the report throws once the lease is released; [None] when
    it returns. *)
Definition reportEvmFamilyBroadcastRejected (args : ReportArgs) (error : Thrown) : L (option JsVal) :=
  reservation <- report_reservation args ;;
  emitEvent args STEP_12_BROADCAST_REJECTED "running" "Marking managed nonce reservation rejected"
    (nonce_data reservation) ;;
  leaseRef <- lift (requireManagedNonceLeaseRef reservation) ;;
  coordinator (markBroadcastRejected deps leaseRef (rejection_reason error)) ;;
  let mappedError := mapToRetryableNonceStateError (thrown_value error) (reservation_lane reservation) in
  emitEvent args STEP_12_BROADCAST_REJECTED "failed" "Managed nonce reservation marked rejected"
    (nonce_data reservation) ;;
  if negb (isNonceConflictRetryableError mappedError)
     && negb (isNonceLaneBlockedRetryableError mappedError)
  then ret None
  else
    emitEvent args STEP_13_NONCE_RECONCILE_STARTED "running"
      "Reconciling managed nonce lane after broadcast error"
      (nonce_data reservation ++ [("errorCode", JString (extractErrorCode mappedError))]) ;;
    laneStatus <- try_catch
      (status <- coordinator (reconcile deps (EvmLane (evmManagedReservationToLane reservation))) ;;
       ret (Some status))
      (fun _ => ret None) ;;
    emitEvent args STEP_13_NONCE_RECONCILE_SUCCEEDED "succeeded" "Managed nonce lane reconciled"
      (lane_data reservation
       ++ match laneStatus with
          | Some status => [("laneStatus", formatted_value (formatNonceLaneStatus status))]
          | None => []
          end) ;;
    ret (Some mappedError).

Definition reportEvmFamilyFinalized (args : ReportArgs) (txHash : string) : L unit :=
  reservation <- report_reservation args ;;
  let hash := broadcast_hash txHash (report_signedResult args) in
  leaseRef <- lift (requireManagedNonceLeaseRef reservation) ;;
  coordinator (markFinalized deps leaseRef hash).

Definition reportEvmFamilyDroppedOrReplaced (args : ReportArgs) (reason : EvmNonceOutcomeReason)
    (txHash : string) : L unit :=
  reservation <- report_reservation args ;;
  let replaced := match reason with OutcomeReplaced => true | OutcomeDropped => false end in
  let phase := if replaced then STEP_13_TRANSACTION_REPLACED else STEP_13_TRANSACTION_DROPPED in
  let data := nonce_data reservation ++ [("reason", JString (outcome_string reason))]
                ++ hash_data txHash in
  emitEvent args phase "running"
    (if replaced then "Marking managed nonce lane replaced"
     else "Marking managed nonce lane dropped") data ;;
  leaseRef <- lift (requireManagedNonceLeaseRef reservation) ;;
  coordinator (markDroppedOrReplaced deps leaseRef reason txHash) ;;
  emitEvent args phase (if replaced then "succeeded" else "failed")
    (if replaced then "Managed nonce lane marked replaced"
     else "Managed nonce lane marked dropped") data.

(** [inr] is the error it throws for a lane that is blocked. *)
Definition reconcileEvmFamilyNonceLane (args : ReportArgs) : L (EvmFamilyNonceLaneStatus + JsVal) :=
  reservation <- report_reservation args ;;
  emitEvent args STEP_13_NONCE_RECONCILE_STARTED "running" "Reconciling managed nonce lane"
    (lane_data reservation) ;;
  laneStatus <- coordinator (reconcile deps (EvmLane (evmManagedReservationToLane reservation))) ;;
  let formatted := formatNonceLaneStatus laneStatus in
  emitEvent args STEP_13_NONCE_RECONCILE_SUCCEEDED "succeeded" "Managed nonce lane reconciled"
    (lane_data reservation ++ [("laneStatus", formatted_value formatted)]) ;;
  if st_blocked laneStatus then
    ret (inr (createEvmFamilySigningNonceLaneBlockedError (reservation_lane reservation)
      match formatted_blockedNonce formatted with
      | Some n => if nonempty n then n else "unknown"
      | None => "unknown"
      end None JUndefined))
  else ret (inl formatted).

(** *** Reserving *)

(** The reservation of a lane as a value, and the retryable form of its errors. *)
Definition reserve_managed (reservationInput : ReserveNonceInput)
    (operation : PreparedNonceOperationContext) (family : BoundaryEcdsaChainFamily)
    : L (ManagedNonceReservation + JsVal) :=
  try_catch
    (lease <- coordinator (reserve deps (EvmLane (evmReserveNonceInputToLane reservationInput))
                             operation) ;;
     reservation <- lift (evmNonceLeaseToManagedReservation lease) ;;
     ret (inl reservation))
    (fun e =>
       ret (inr (mapToRetryableNonceStateError (exn_value e)
         (mkErrorLane family (target_networkSlug (rin_chainTarget reservationInput))
            (target_chainId (rin_chainTarget reservationInput)))))).

Definition with_nonce (nonce : Z) (request : SigningRequest) : SigningRequest :=
  mkRequest (request_chain request) (tx_chainId request) (tx_nonceKey request) (Some nonce)
    (request_rest request).

Definition resolveManagedEvmNonceReservationInput (chains : list SeamsChainConfig) (walletId : string)
    (request : SigningRequest) (senderIdentity : EvmFamilyManagedNonceSenderIdentity)
    : Result ReserveNonceInput :=
  let* networkKey := resolveNonceNetworkKey chains request in
  reserveNonceInputFromBoundary
    (mkBoundaryInput BoundaryEvm networkKey (tx_chainId request)
       (senderAddressFromIdentity senderIdentity) None walletId).

(** [inr] is the error it throws. *)
Definition reserveManagedEvmNonceForRequest (request : SigningRequest)
    (reservationInput : ReserveNonceInput) (operation : PreparedNonceOperationContext)
    : L ((SigningRequest * ManagedNonceReservation) + JsVal) :=
  reserved <- reserve_managed reservationInput operation BoundaryEvm ;;
  ret match reserved with
      | inl reservation => inl (with_nonce (res_nonce reservation) request, reservation)
      | inr error => inr error
      end.

Definition reserveManagedTempoNonceForRequest (chains : list SeamsChainConfig) (walletId : string)
    (request : SigningRequest) (operation : PreparedNonceOperationContext)
    (senderIdentity : EvmFamilyManagedNonceSenderIdentity)
    : L ((SigningRequest * ManagedNonceReservation) + JsVal) :=
  reservationInput <- lift (
    let* networkKey := resolveNonceNetworkKey chains request in
    reserveNonceInputFromBoundary
      (mkBoundaryInput BoundaryTempo networkKey (tx_chainId request)
         (senderAddressFromIdentity senderIdentity) (tx_nonceKey request) walletId)) ;;
  reserved <- reserve_managed reservationInput operation BoundaryTempo ;;
  ret match reserved with
      | inl reservation => inl (with_nonce (res_nonce reservation) request, reservation)
      | inr error => inr error
      end.
End Lifecycle.

(** ** A report reaches the lease its transaction was signed with *)

(** What is reported of a signed transaction. *)
Inductive Report : Type :=
| ReportAccepted (txHash : string)
| ReportRejected (error : Thrown)
| ReportFinalized (txHash : string)
| ReportDroppedOrReplaced (reason : EvmNonceOutcomeReason) (txHash : string).

Definition report_transition (report : Report) : NonceLeaseTransition :=
  match report with
  | ReportAccepted _ => TBroadcastAccepted
  | ReportRejected _ => TBroadcastRejected
  | ReportFinalized _ => TFinalize
  | ReportDroppedOrReplaced reason _ => outcome_transition reason
  end.

(** The reservation is of the lease, as it was when it was handed out. *)
Definition reserved_as (l : NonceLease) (r : ManagedNonceReservation) : Prop :=
  exists l0, evmNonceLeaseToManagedReservation l0 = Ok r /\ lease_evolves l0 l.

Section Reports.
Context {S : Type} `{!CoordinationStore S} (deps : Deps).

(** The value of a report is the error it throws after its work is done. *)
Definition run_report (args : ReportArgs) (report : Report) : L (S:=S) (option JsVal) :=
  match report with
  | ReportAccepted txHash => reportEvmFamilyBroadcastAccepted deps args txHash ;; ret None
  | ReportRejected error => reportEvmFamilyBroadcastRejected deps args error
  | ReportFinalized txHash => reportEvmFamilyFinalized deps args txHash ;; ret None
  | ReportDroppedOrReplaced reason txHash =>
      reportEvmFamilyDroppedOrReplaced deps args reason txHash ;; ret None
  end.

Lemma wp_coordinator {A} (m : C A) Q E (f : Flow S) :
  wp m (fun a w' => Q a (mkFlow w' (flow_events f))) (fun e w' => E e (mkFlow w' (flow_events f)))
    (flow_world f) -> wp (coordinator m) Q E f.
Proof. unfold wp, coordinator. by destruct (m (flow_world f)) as [[a|e] w']. Qed.

(** Events leave the coordinator alone. *)
Lemma wp_emit {A} args phase status message data (k : L A) Q E (f : Flow S) :
  (forall f', flow_world f' = flow_world f -> wp k Q E f') ->
  wp (emitEvent args phase status message data ;; k) Q E f.
Proof.
  intros Hk. apply wp_bind. unfold emitEvent, modify, wp at 1. apply Hk.
  by destruct (report_onEvent args).
Qed.

Lemma wp_emit_end args phase status message data Q E (f : Flow S) :
  (forall f', flow_world f' = flow_world f -> Q tt f') ->
  wp (emitEvent args phase status message data) Q E f.
Proof. intros HQ. unfold emitEvent, modify, wp. apply HQ. by destruct (report_onEvent args). Qed.

Lemma reserved_as_ids l r :
  reserved_as l r ->
  res_leaseId r = leaseId l /\ res_operationId r = operationId l /\
  res_operationFingerprint r = operationFingerprint l /\ nonce_readable l.
Proof.
  intros (l0 & Hr & Hl & Ho & Hf & Hb & _). revert Hr.
  unfold evmNonceLeaseToManagedReservation, assertEvmLease, nonce_readable. rewrite Hb.
  destruct (body l0) as [lane nonce|]; [|done]. intros [= <-]. simpl. by rewrite Hl, Ho, Hf.
Qed.

Lemma reservation_ref l r :
  reserved_as l r -> reservation_wf r ->
  requireManagedNonceLeaseRef r = Ok (mkLeaseOp (leaseId l) (operationId l) (operationFingerprint l)).
Proof.
  intros (Hl & Ho & Hf & _)%reserved_as_ids [_ _ _ _ _ [Hl1 Hl2] [Ho1 Ho2] [Hf1 Hf2] _ _].
  unfold requireManagedNonceLeaseRef. by rewrite Hl1, Ho1, Hf1, Hl2, Ho2, Hf2, Hl, Ho, Hf.
Qed.

Lemma reservation_named (w : World S) l r :
  reserved_as l r -> reservation_wf r -> mget (leaseId l) (leases w) = Some l ->
  named_lease w (mkLeaseOp (leaseId l) (operationId l) (operationFingerprint l)) = Some l.
Proof.
  intros (Hl & Ho & Hf & _)%reserved_as_ids [_ _ _ _ _ [Hl1 Hl2] [Ho1 Ho2] [Hf1 Hf2] _ _] Hm.
  rewrite Hl in Hl1, Hl2. rewrite Ho in Ho1, Ho2. rewrite Hf in Hf1, Hf2.
  unfold named_lease. simpl. by rewrite Hl1, Ho1, Hf1, Hl2, Ho2, Hf2, Hm, !bool_decide_true.
Qed.

(** The reservation of a signed transaction is the one it was signed with. *)
Lemma signed_reservation args r snapshot :
  reservation_wf r -> toManagedNonceReservationSnapshot r = Ok snapshot ->
  signed_managedNonce (report_signedResult args) = snapshot_object snapshot ->
  toEvmFamilyManagedNonceReservationFromSignedResult (report_signedResult args) = Ok r.
Proof.
  intros Hwf Hs Hm. destruct (from_snapshot_object r Hwf) as (s & Hs' & Hf).
  rewrite Hs in Hs'. injection Hs' as <-.
  unfold toEvmFamilyManagedNonceReservationFromSignedResult. rewrite Hm.
  change (isObject (snapshot_object snapshot)) with true. cbn [negb]. by rewrite Hf.
Qed.

(** One call of the coordinator for the lease. *)
Lemma report_call op input t l (f : Flow S) :
  lease_inv (flow_world f) -> lease_call op = Some (input, t) ->
  named_lease (flow_world f) input = Some l -> nonce_readable l ->
  wp (coordinator (run_op deps op))
    (fun _ f' => call_done t l (flow_world f) (flow_world f'))
    (fun _ f' => leases (flow_world f') = leases (flow_world f)) f.
Proof.
  intros Hi Hop Hl Hn. apply wp_coordinator.
  eapply wp_mono; [by eapply lease_call_wp|done|]. intros e w' [H _]. exact H.
Qed.

Lemma reconcile_keeps_leases lane :
  steps (fun w w' : World S => frame w w') (reconcile deps (EvmLane lane)).
Proof. unfold reconcile. op_steps. Qed.

(** The reconciliation after a rejection, whose failure is ignored. *)
Lemma wp_reconcile_ignored {A} lane (k : option NonceLaneStatus -> L A) Q E (f : Flow S) :
  (forall o f', leases (flow_world f') = leases (flow_world f) -> wp (k o) Q E f') ->
  wp (laneStatus <- try_catch (status <- coordinator (reconcile deps (EvmLane lane)) ;; ret (Some status))
                      (fun _ => ret None) ;;
      k laneStatus) Q E f.
Proof.
  intros Hk. apply wp_bind, wp_try, wp_bind, wp_coordinator.
  pose proof (reconcile_keeps_leases lane (flow_world f)) as [Hl _]. unfold wp.
  destruct (reconcile deps (EvmLane lane) (flow_world f)) as [[status|e] w']; simpl in Hl;
    apply wp_ret; by apply Hk.
Qed.

Lemma report_wp args report l r snapshot (f : Flow S) :
  lease_inv (flow_world f) -> mget (leaseId l) (leases (flow_world f)) = Some l ->
  reserved_as l r -> reservation_wf r ->
  toManagedNonceReservationSnapshot r = Ok snapshot ->
  signed_managedNonce (report_signedResult args) = snapshot_object snapshot ->
  wp (run_report args report)
    (fun _ f' => call_done (report_transition report) l (flow_world f) (flow_world f'))
    (fun _ f' => leases (flow_world f') = leases (flow_world f)) f.
Proof.
  intros Hi Hf Hr Hwf Hs Hm.
  pose proof (signed_reservation args r snapshot Hwf Hs Hm) as Hres.
  pose proof (reservation_ref l r Hr Hwf) as Href.
  set (ref := mkLeaseOp (leaseId l) (operationId l) (operationFingerprint l)) in *.
  assert (forall op t (f' : Flow S), lease_call op = Some (ref, t) -> flow_world f' = flow_world f ->
    wp (coordinator (run_op deps op))
      (fun _ f'' => call_done t l (flow_world f) (flow_world f''))
      (fun _ f'' => leases (flow_world f'') = leases (flow_world f)) f') as Hcall.
  { intros op t f' Hop Hw. rewrite <- Hw. eapply report_call; [by rewrite Hw|done| |by apply (reserved_as_ids l r)].
    rewrite Hw. by eapply reservation_named. }
  assert (forall f' f'' : Flow S, leases (flow_world f'') = leases (flow_world f') -> forall t,
    call_done t l (flow_world f) (flow_world f') -> call_done t l (flow_world f) (flow_world f'')) as Hkeep.
  { intros f' f'' Hw t (s' & x & H1 & H2). exists s', x. split; [done|]. congruence. }
  destruct report as [txHash|error|txHash|reason txHash]; unfold run_report.
  - apply wp_bind. unfold reportEvmFamilyBroadcastAccepted, report_reservation. apply wp_bind.
    rewrite Hres. apply wp_lift_ok, wp_emit. intros f1 H1. apply wp_bind, wp_lift; [|congruence].
    intros hash _. apply wp_bind. rewrite Href. apply wp_lift_ok, wp_bind.
    eapply wp_mono; [apply (Hcall (OpMarkBroadcastAccepted ref hash)); done| |done].
    intros [] f2 H2. apply wp_emit_end. intros f3 H3. apply wp_ret. eapply Hkeep; [|done]. congruence.
  - unfold reportEvmFamilyBroadcastRejected, report_reservation. apply wp_bind.
    rewrite Hres. apply wp_lift_ok, wp_emit. intros f1 H1. apply wp_bind.
    rewrite Href. apply wp_lift_ok, wp_bind.
    eapply wp_mono; [apply (Hcall (OpMarkBroadcastRejected ref (rejection_reason error))); done| |done].
    intros [] f2 H2. cbv zeta. apply wp_emit. intros f3 H3.
    assert (call_done TBroadcastRejected l (flow_world f) (flow_world f3)) as Hd3.
    { eapply Hkeep; [|done]. congruence. }
    destruct (_ && _); [by apply wp_ret|]. apply wp_emit. intros f4 H4.
    apply wp_reconcile_ignored. intros o f5 H5. apply wp_emit. intros f6 H6. apply wp_ret.
    eapply Hkeep; [|exact Hd3]. congruence.
  - apply wp_bind. unfold reportEvmFamilyFinalized, report_reservation. apply wp_bind.
    rewrite Hres. apply wp_lift_ok, wp_bind. rewrite Href. apply wp_lift_ok.
    eapply wp_mono; [apply (Hcall (OpMarkFinalized ref _)); done| |done].
    intros [] f2 H2. by apply wp_ret.
  - apply wp_bind. unfold reportEvmFamilyDroppedOrReplaced, report_reservation. apply wp_bind.
    rewrite Hres. apply wp_lift_ok. cbv zeta. apply wp_emit. intros f1 H1. apply wp_bind.
    rewrite Href. apply wp_lift_ok, wp_bind.
    eapply wp_mono; [apply (Hcall (OpMarkDroppedOrReplaced ref reason txHash)); done| |done].
    intros [] f2 H2. apply wp_emit_end. intros f3 H3. apply wp_ret. eapply Hkeep; [|done]. congruence.
Qed.
End Reports.

(** C15. A report made with the snapshot a transaction was signed with reaches the very
    lease whose reservation the snapshot was taken of, whatever happened to the
    lease in between: when it succeeds it makes the
    transition the report stands for on that lease and on no other, and when it
    fails it leaves all leases as they were. *)
Theorem report_reaches_lease {S} `{!CoordinationStore S} (deps : Deps) args report l r snapshot
    (f : Flow S) :
  lease_inv (flow_world f) -> mget (leaseId l) (leases (flow_world f)) = Some l ->
  reserved_as l r -> reservation_wf r ->
  toManagedNonceReservationSnapshot r = Ok snapshot ->
  signed_managedNonce (report_signedResult args) = snapshot_object snapshot ->
  match run_report deps args report f with
  | (Ok _, f') =>
      exists s' l', reduceNonceLeaseState (state l) (report_transition report) = Ok s' /\
        state l' = s' /\ mget (leaseId l) (leases (flow_world f')) = Some l' /\
        forall id, id <> leaseId l ->
          mget id (leases (flow_world f')) = mget id (leases (flow_world f))
  | (Throw _, f') => leases (flow_world f') = leases (flow_world f)
  end.
Proof.
  intros Hi Hf Hr Hwf Hs Hm. pose proof (report_wp deps args report l r snapshot f Hi Hf Hr Hwf Hs Hm) as H.
  unfold wp in H. destruct (run_report deps args report f) as [[o|e] f']; [|done].
  destruct H as (s' & x & Hs' & Hw'). exists s', (transitioned s' x l). rewrite Hw'. split_and!; [done|..].
  - unfold transitioned. destruct x as [z|]; [|done]. by destruct (is_safe_integer z).
  - apply mget_mset_eq.
  - intros id Hid. by apply mget_mset_ne.
Qed.

(** A request whose nonce is reserved carries the nonce of one new lease on the lane
    it asked for, and is otherwise the request it was; when no nonce is reserved the
    error names the request's own network, and no lease was entered. *)
Theorem reserve_for_request_spec {S} `{!CoordinationStore S} (deps : Deps) request input operation
    (f : Flow S) :
  lease_inv (flow_world f) ->
  match reserveManagedEvmNonceForRequest deps request input operation f with
  | (Ok (inl (request', r)), f') =>
      exists l, reservation deps (evmReserveNonceInputToLane input) operation l (flow_world f') /\
        evmNonceLeaseToManagedReservation l = Ok r /\ res_input r = input /\
        request' = with_nonce (res_nonce r) request
  | (Ok (inr e), f') =>
      evolves (flow_world f) (flow_world f') /\
      (isNonceLaneBlockedRetryableError e = true ->
       built_for (mkErrorLane BoundaryEvm (target_networkSlug (rin_chainTarget input))
                    (target_chainId (rin_chainTarget input))) e)
  | (Throw _, _) => False
  end.
Proof.
  intros Hi. unfold reserveManagedEvmNonceForRequest, reserve_managed, bind, try_catch, coordinator.
  pose proof (reserve_evm_wp deps (evmReserveNonceInputToLane input) operation (flow_world f) Hi) as H.
  unfold wp in H.
  destruct (reserve deps (EvmLane (evmReserveNonceInputToLane input)) operation (flow_world f))
    as [[l|e] w']; simpl.
  - destruct H as [_ H]. pose proof H as (n & Hb & _).
    unfold evmNonceLeaseToManagedReservation, assertEvmLease. rewrite Hb. simpl.
    exists l. rewrite Hb. split_and!; [done|done|by destruct input|done].
  - split; [done|]. apply mapped_block_built.
Qed.

(** ** Example *)

Definition example_input : ReserveNonceInput :=
  mkReserveInput (EvmEip155ChainTarget 5042002 "arc-testnet") "wallet-1"
    "0x00000000000000000000000000000000000000aa" None.

Definition example_request : SigningRequest := mkRequest BoundaryEvm 5042002 None None JNull.

Definition example_flow_deps : Deps := example_deps "runtime-1" "r1" 1000.

Definition example_reserved_flow : Flow LeaseTable :=
  Eval vm_compute in
    (reserveManagedEvmNonceForRequest example_flow_deps example_request example_input
       example_operation (mkFlow (initialWorld ([] : LeaseTable)) [])).2.

Definition example_flow_lease : NonceLease :=
  Eval vm_compute in
    match leases (flow_world example_reserved_flow) with
    | (_, l) :: _ => l
    | [] => example_lease
    end.

Definition example_flow_reservation : ManagedNonceReservation :=
  Eval vm_compute in
    match evmNonceLeaseToManagedReservation example_flow_lease with
    | Ok r => r
    | Throw _ => example_reservation
    end.

Lemma reserve_for_request_spec_witness :
  exists l, reservation example_flow_deps (evmReserveNonceInputToLane example_input) example_operation l
      (flow_world example_reserved_flow) /\
    evmNonceLeaseToManagedReservation l = Ok example_flow_reservation.
Proof.
  pose proof (reserve_for_request_spec example_flow_deps example_request example_input
    example_operation (mkFlow (initialWorld ([] : LeaseTable)) []) (initial_inv _)) as H.
  assert (reserveManagedEvmNonceForRequest example_flow_deps example_request example_input
    example_operation (mkFlow (initialWorld ([] : LeaseTable)) []) =
    (Ok (inl (with_nonce (res_nonce example_flow_reservation) example_request,
              example_flow_reservation)), example_reserved_flow)) as E by (vm_compute; reflexivity).
  rewrite E in H. destruct H as (l & H1 & H2 & _). exists l. split; [exact H1|exact H2].
Defined.

Definition example_snapshot : ManagedNonceReservationSnapshot :=
  Eval vm_compute in
    match toManagedNonceReservationSnapshot example_flow_reservation with
    | Ok s => s
    | Throw _ => mkSnapshot (EvmEip155ChainTarget 1 "") "" "" None "" "" "" "" None None
    end.

Definition example_report : ReportArgs :=
  mkReport "wallet-1" (mkSigned BoundaryEvm "" (snapshot_object example_snapshot)) true.

Definition example_flow_world : World LeaseTable :=
  Eval vm_compute in flow_world example_reserved_flow.

Lemma example_flow_reserved :
  reserve example_flow_deps (EvmLane (evmReserveNonceInputToLane example_input)) example_operation
    (initialWorld ([] : LeaseTable)) = (Ok example_flow_lease, example_flow_world).
Proof. vm_compute. reflexivity. Qed.

Lemma example_flow_inv : lease_inv example_flow_world.
Proof.
  pose proof (inv_reserve example_flow_deps (EvmLane (evmReserveNonceInputToLane example_input))
    example_operation (initialWorld ([] : LeaseTable))) as [H _].
  rewrite example_flow_reserved in H. apply H, initial_inv.
Qed.

(** The lease after it was signed with. *)
Definition example_signed_world : World LeaseTable :=
  Eval vm_compute in
    (run_op example_flow_deps
       (OpMarkSigned (mkLeaseOp (leaseId example_flow_lease) "op-1" "fp-1") "") example_flow_world).2.

Lemma example_signed_run :
  run_op example_flow_deps
    (OpMarkSigned (mkLeaseOp (leaseId example_flow_lease) "op-1" "fp-1") "") example_flow_world =
  (Ok tt, example_signed_world).
Proof. vm_compute. reflexivity. Qed.

Lemma example_signed_inv : lease_inv example_signed_world.
Proof.
  pose proof (inv_run_op example_flow_deps
    (OpMarkSigned (mkLeaseOp (leaseId example_flow_lease) "op-1" "fp-1") "") example_flow_world) as [H _].
  rewrite example_signed_run in H. apply H, example_flow_inv.
Qed.

Definition example_signed_lease : NonceLease :=
  Eval vm_compute in
    match leases example_signed_world with (_, l) :: _ => l | [] => example_lease end.

Lemma example_reserved_as : reserved_as example_signed_lease example_flow_reservation.
Proof.
  exists example_flow_lease. split; [vm_compute; reflexivity|]. split_and!; try reflexivity.
  exists [TMarkSigned]. econstructor; [reflexivity|constructor].
Qed.

Definition example_rejection : Report :=
  ReportRejected (ThrownError (error_value "nonce too low" [])).

Definition example_rejected : Result (option JsVal) * Flow LeaseTable :=
  Eval vm_compute in
    run_report example_flow_deps example_report example_rejection (mkFlow example_signed_world []).

Lemma example_rejected_run :
  run_report example_flow_deps example_report example_rejection (mkFlow example_signed_world []) =
  example_rejected.
Proof. vm_compute. reflexivity. Qed.

(** The broadcast is rejected with a nonce that is too low: the lease is released, the
    lane reconciled, and the conflict thrown. *)
Lemma report_reaches_lease_witness :
  example_rejected.1 =
    Ok (Some (mapToRetryableNonceStateError (error_value "nonce too low" [])
                (reservation_lane example_flow_reservation))) /\
  exists l', mget (leaseId example_signed_lease) (leases (flow_world example_rejected.2)) = Some l' /\
    reduceNonceLeaseState Signed TBroadcastRejected = Ok (state l').
Proof.
  split; [vm_compute; reflexivity|].
  assert (reservation_wf example_flow_reservation) as Hwf by (split; repeat split; vm_compute; done).
  pose proof (report_reaches_lease example_flow_deps example_report example_rejection
    example_signed_lease example_flow_reservation example_snapshot (mkFlow example_signed_world [])
    example_signed_inv eq_refl example_reserved_as Hwf eq_refl eq_refl) as H.
  rewrite example_rejected_run in H. destruct H as (s' & l' & Hs & <- & Hl & _).
  exists l'. split; [exact Hl|exact Hs].
Defined.
